(* ===== verification/_CoqProject ===== *)
-Q . S2P
Prelude.v
IntMath.v
AddrRanges.v
Packets.v
AbstractMem.v
Events.v
Clocked.v
SimpleMem.v
EventQ.v
EventQOrder.v
EventQRefine.v
EventQSim.v
PktQueue.v
DRAMConfig.v
DRAMState.v
DRAMBank.v
DRAMCtrlState.v
DRAMAccess.v
DRAMSched.v
DRAMQueue.v
DRAMRefresh.v
DRAMNext.v
DRAMServe.v
DRAMWrite.v
DRAMInv.v
Translation.v
MemInst.v
LSQ.v
RowMem.v
Bitweave.v
Sad.v
SadBaseline.v
BitweaveBaseline.v
CacheTags.v
Cache.v
CacheInv.v
CacheAtomic.v
CacheSystem.v
MSHRQ.v
MSHRInv.v
CacheTiming.v
CacheSeq.v
CacheResp.v
CacheFlow.v
CacheRun.v
CacheMachine.v
CacheHazards.v
