(* ===== verification/Prelude.v ===== *)
(** * SHIF-DRAM: a verification library for the row-operation memory path

    The repository is gem5 with bulk operations on DRAM rows: an x86 micro-operation names
    up to three rows of 8 KiB, the CPU translates their addresses and sends a 32-byte
    payload as an uncacheable write, the cache flushes the rows, the DRAM controller
    schedules the operation as a sequence of activate and precharge commands, and the
    backing store performs it (AND, OR, XOR, NOT, copy, shifts).  The library models this
    path and the parts of the simulator it runs on; paths below are relative to
    src/gem5/src unless they start with microworkloads/.

    ** Conventions

    Machine integers are [Z] with their wrap-around written out ([u8], [u32], [u64],
    [add64], [sub64]).  Operations that can stop the simulation return [res]: a failed
    [assert], [panic], [fatal], or behaviour C++ leaves undefined.  Objects are records
    and operations functions from state to state in this monad; [now] is [curTick()].
    What lies on the other side of a port is an argument or a type class
    ([Cache.AtomicPorts], [TimingPorts], [FunctionalPorts]), and where a theorem needs
    laws of it they are a class of their own ([MemorySide]).  Statistics, debug output and
    the release of memory are left out throughout.

    ** Parts, files and what is proved

    - [IntMath] (base/bitfield.hh, base/intmath.hh), [AddrRanges] (base/addr_range.hh):
      bit fields, powers of two, interleaved address ranges; stripes partition a range.
    - [Packets] (mem/request.hh, mem/packet.hh, mem/packet.cc, base/flags.hh): commands and
      their attributes, requests, packets, functional checks against buffered data.
    - [AbstractMem] (mem/abstract_mem.hh, .cc): the backing store.  Row operations are
      word-wise functions of the source rows and change nothing else; loads, stores and
      locked accesses refine a map of reservations.
    - [Events], [Clocked] (sim/clocked_object.hh): one event as the tick it is scheduled
      at, clock edges.  [EventQ] (sim/eventq.hh, eventq.cc, eventq_impl.hh, simulate.cc):
      the event queue as a heap of linked bins; [EventQOrder], [EventQRefine], [EventQSim]
      show that it implements a sorted list and that the simulation loop is safe.
    - [SimpleMem] (mem/simple_mem.hh, .cc): the simple memory; in timing mode it is the
      atomic memory behind a queue that delivers each response once and in order.
    - [PktQueue] (mem/packet_queue.hh, .cc, mem/qport.hh): the queue of a port.
    - The DRAM controller (mem/dram_ctrl.hh, .cc): [DRAMConfig] (parameters, address
      decoding), [DRAMState], [DRAMBank] (ranks, banks, activate, precharge and the
      row-operation primitives with the activation window), [DRAMCtrlState],
      [DRAMAccess] (bursts and row operations on the banks), [DRAMSched] (choice of the
      next packet), [DRAMQueue] (requests and responses), [DRAMRefresh], [DRAMNext] (the
      request handler), [DRAMServe], [DRAMWrite], [DRAMInv] (proofs about the
      handlers).  Timing of bursts and row operations, no overlap on the data bus, the
      activation window, decoding as a bijection, arbitration as a priority policy,
      progress of row operations and draining, and an invariant of the whole controller.
    - The CPU side: [Translation] (cpu/translation.hh, arch/generic/tlb.hh), [MemInst]
      (cpu/base_dyn_inst.hh, cpu/simple/timing.cc, arch/x86/isa/microops/rowbit.isa),
      [LSQ] (cpu/o3/lsq_unit.hh, lsq_unit_impl.hh): translation of the operands in
      whatever order the TLB answers, splitting of requests, store-to-load forwarding
      around row operations, and the circular store queue as a list.
    - The cache (mem/cache/): [CacheTags] (blk.hh, tags/), [Cache] (cache.cc, the atomic
      path), [MSHRQ] (mshr.hh, mshr.cc, mshr_queue.hh, mshr_queue.cc), [CacheTiming]
      (cache.cc, base.hh, base.cc: requests and sends), [CacheResp] (responses, snoops,
      functional accesses).  [CacheInv], [CacheAtomic] and [CacheSystem] show that in
      atomic mode the cache over a memory is one flat memory, row operations included;
      [MSHRInv] and [CacheSeq] hold the invariants of the queues and ports of the timing
      path, [CacheFlow] follows write-backs and misses to the memory, [CacheRun] what each
      call does to the system, and [CacheMachine] composes them to a machine of calls and
      events: with one request at a time the cache in timing mode is one flat memory, too.
      [CacheHazards] has concrete runs outside these assumptions in which it goes wrong.
    - Workloads: [RowMem], [Bitweave] (microworkloads/bitweave-buddy.c, rowop.S), the
      range query on row operations and what it counts; [BitweaveBaseline]
      (bitweave-baseline.c), the same on the CPU; [Sad] (sad_plus.c), the sum of absolute
      differences with an adder made of row operations, as a function of each lane;
      [SadBaseline] (sad_baseline.c), its reference on the CPU.

    ** Bounds and fuel

    Loops are structural where the source walks a list.  The others carry fuel that is
    shown to be enough or follows the data: the event queue walks at most as many links as
    there are events, the load/store queue at most its number of entries, the simulation
    loop makes one round per request of the front end, and the targets of a miss register
    are served within their number.  Theorems about results are stated as results,
    never as what holds if there is one.  The machine of the timing cache assumes that the
    ticks and the order numbers of its registers do not overflow, and that the write buffer
    has room for the blocks of three rows, as it has for blocks of 32 bytes and more.

    ** Not modelled

    Crossbars, snoop filter, bridges and proxies, the other tags and the prefetchers, Ruby,
    page tables and TLBs (the TLB is a parameter), the pipeline around the load/store
    queue, the other CPU models, devices, system call emulation, checkpoint files,
    statistics, the Python front end and the vendored libraries: they have no code for row
    operations, are generated by the build or are input and output.  The simulated machine's floating point (bandwidth of the simple memory,
    power model) is a parameter. *)

From stdpp Require Import base gmap sets list list_numbers strings.
From Stdlib Require Export ZArith Lia.

Open Scope Z_scope.

(** ** Failure values

    gem5 stops the simulation in four ways: a failed [assert] (the
    [gem5.opt] build keeps them), [panic], [fatal], and behaviour the C++
    standard leaves undefined (here: dereferencing outside the backing
    store, an out-of-range [operator[]], a shift by the word width).  Every
    operation that can do so returns a value of [res]. *)

Inductive failure :=
  | Assert
  | Panic
  | Fatal
  | UB.

Inductive res (A : Type) :=
  | Ok (a : A)
  | Err (e : failure).
Arguments Ok {A} _.
Arguments Err {A} _.

#[export] Instance failure_eq_dec : EqDecision failure.
Proof. solve_decision. Defined.

#[export] Instance res_mret : MRet res := λ _ a, Ok a.
#[export] Instance res_mbind : MBind res := λ _ _ f m,
  match m with Ok a => f a | Err e => Err e end.
#[export] Instance res_fmap : FMap res := λ _ _ f m,
  match m with Ok a => Ok (f a) | Err e => Err e end.

Definition check (e : failure) (b : bool) : res unit :=
  if b then Ok tt else Err e.

(** [assert(b)], [panic_if(b, ..)] and [fatal_if(b, ..)]. *)
Abbreviation assert_ := (check Assert).
Definition panic_if (b : bool) : res unit := check Panic (negb b).
Definition fatal_if (b : bool) : res unit := check Fatal (negb b).

(** [v[i]] on a [std::vector] or [std::deque]: out of range is undefined. *)
Definition at_ {A} (l : list A) (i : Z) : res A :=
  if decide (0 ≤ i) then
    match l !! Z.to_nat i with Some x => Ok x | None => Err UB end
  else Err UB.

(** ** Pairwise relations *)

Fixpoint pairwise {A} (R : A → A → Prop) (l : list A) : Prop :=
  match l with
  | [] => True
  | x :: l => Forall (R x) l ∧ pairwise R l
  end.

Lemma pairwise_app {A} (R : A → A → Prop) l1 l2 :
  pairwise R (l1 ++ l2) ↔ pairwise R l1 ∧ pairwise R l2 ∧ Forall (λ x, Forall (R x) l2) l1.
Proof.
  induction l1 as [|x l1 IH]; simpl; [by rewrite Forall_nil; tauto|].
  rewrite Forall_app, Forall_cons, IH. tauto.
Qed.

Lemma pairwise_perm {A} (R : A → A → Prop) l1 l2 :
  (∀ x y, R x y → R y x) → l1 ≡ₚ l2 → pairwise R l1 → pairwise R l2.
Proof.
  intros Hsym. induction 1 as [|x l1 l2 Hp IH|x y l|l1 l2 l3 _ IH1 _ IH2]; simpl; [done| | |auto].
  - intros [Hx H]. split; [by rewrite <- Hp|auto].
  - rewrite !Forall_cons. intros [[Hyx Hy] [Hx H]]. auto.
Qed.

(** ** Total-correctness logic

    [wp m Q]: the computation [m] returns (no assertion, panic, fatal error
    or undefined behaviour) and its result satisfies [Q]. *)

Definition wp {A} (m : res A) (Q : A → Prop) : Prop :=
  match m with Ok a => Q a | Err _ => False end.

Section wp_rules.
Context {A B : Type}.
Implicit Types (m : res A) (Q : A → Prop).

Lemma wp_inv m Q : wp m Q ↔ ∃ a, m = Ok a ∧ Q a.
Proof. destruct m; naive_solver. Qed.

Lemma wp_bind m (f : A → res B) (P : B → Prop) :
  wp m (λ a, wp (f a) P) → wp (m ≫= f) P.
Proof. by destruct m. Qed.

Lemma wp_mono m Q1 Q2 : wp m Q1 → (∀ a, Q1 a → Q2 a) → wp m Q2.
Proof. destruct m; naive_solver. Qed.

Lemma wp_and m Q1 Q2 : wp m Q1 → wp m Q2 → wp m (λ a, Q1 a ∧ Q2 a).
Proof. by destruct m. Qed.

Lemma bind_Ok m (f : A → res B) a : m = Ok a → m ≫= f = f a.
Proof. by intros ->. Qed.

Lemma bind_Ok_inv m (f : A → res B) b :
  m ≫= f = Ok b → ∃ a, m = Ok a ∧ f a = Ok b.
Proof. destruct m; naive_solver. Qed.
End wp_rules.

Lemma wp_check e b (Q : unit → Prop) : b = true → Q tt → wp (check e b) Q.
Proof. by intros ->. Qed.

Lemma check_Ok_inv e b u : check e b = Ok u → b = true.
Proof. by destruct b. Qed.

Lemma wp_at {A} (l : list A) i x (Q : A → Prop) :
  0 ≤ i → l !! Z.to_nat i = Some x → Q x → wp (at_ l i) Q.
Proof. intros ? Hl ?. unfold at_. rewrite decide_True by done. by rewrite Hl. Qed.

Lemma at_Ok_inv {A} (l : list A) i x :
  at_ l i = Ok x → 0 ≤ i ∧ l !! Z.to_nat i = Some x.
Proof. unfold at_. case_decide; [|done]. by destruct (l !! Z.to_nat i); intros; simplify_eq. Qed.

(** A [for] loop over a sequence, and its invariant rule. *)
Fixpoint foldM {A B} (f : A → B → res A) (a : A) (l : list B) : res A :=
  match l with
  | [] => mret a
  | x :: l => a ← f a x; foldM f a l
  end.

Lemma foldM_ok {A B} (I : list B → A → Prop) (f : A → B → res A) l a :
  I [] a →
  (∀ l1 x l2 b, l = l1 ++ x :: l2 → I l1 b → ∃ b', f b x = Ok b' ∧ I (l1 ++ [x]) b') →
  ∃ a', foldM f a l = Ok a' ∧ I l a'.
Proof.
  intros H0 Hs. change l with ([] ++ l) at 2. revert H0 Hs.
  assert (∀ l0 a, I l0 a → (∀ l1 x l2 b, l = l1 ++ x :: l2 → I (l0 ++ l1) b →
    ∃ b', f b x = Ok b' ∧ I (l0 ++ l1 ++ [x]) b') → ∃ a', foldM f a l = Ok a' ∧ I (l0 ++ l) a') as H.
  { clear a. induction l as [|x l IH]; intros l0 a H0 Hs; [exists a; by rewrite app_nil_r|].
    destruct (Hs [] x l a) as (b & E & Hb); [done|by rewrite app_nil_r|]. simpl. rewrite E.
    destruct (IH (l0 ++ [x]) b Hb) as (a' & E' & Ha').
    - intros l1 y l2 b1 -> H1. rewrite <- app_assoc in H1. simpl in H1.
      destruct (Hs (x :: l1) y l2 b1) as (b' & ? & ?); [done|done|].
      exists b'. split; [done|]. by rewrite <- app_assoc.
    - exists a'. split; [done|]. by rewrite <- app_assoc in Ha'. }
  intros H0 Hs. apply (H []); [done|]. intros. by eapply Hs.
Qed.

(** Splits a hypothesis [m ≫= f = Ok r] (and asserts) into its steps. *)
Ltac res_inv :=
  repeat match goal with
  | H : mbind _ _ = Ok _ |- _ =>
      let a := fresh "r" in let Ha := fresh "Hr" in
      apply bind_Ok_inv in H; destruct H as (a & Ha & H)
  | H : check _ _ = Ok _ |- _ => apply check_Ok_inv in H
  | H : mret _ = Ok _ |- _ => injection H as H
  | H : Ok _ = Ok _ |- _ => injection H as H
  | H : Err _ = Ok _ |- _ => discriminate H
  end.

(** ** Machine integers

    A [w]-bit unsigned integer is a [Z] in [0, 2^w); the wrap-around of every
    C++ operation on it is written out with [wrap]. *)

Definition wrap (w x : Z) : Z := x mod 2 ^ w.
Abbreviation u8 := (wrap 8).
Abbreviation u16 := (wrap 16).
Abbreviation u32 := (wrap 32).
Abbreviation u64 := (wrap 64).

(** C++ [+], [-], [*], [<<] and [~] on 64-bit operands. *)
Definition add64 (x y : Z) : Z := wrap 64 (x + y).
Definition sub64 (x y : Z) : Z := wrap 64 (x - y).
Definition mul64 (x y : Z) : Z := wrap 64 (x * y).
Definition shl64 (x n : Z) : Z := wrap 64 (Z.shiftl x n).
Definition not64 (x : Z) : Z := wrap 64 (Z.lnot x).

Declare Scope word_scope.
Delimit Scope word_scope with word.
Infix "+u" := add64 (at level 50, left associativity) : word_scope.
Infix "-u" := sub64 (at level 50, left associativity) : word_scope.
Infix "*u" := mul64 (at level 40, left associativity) : word_scope.

Definition in_width (w x : Z) : Prop := 0 ≤ x < 2 ^ w.

Create HintDb width.

Lemma wrap_small w x : 0 ≤ x < 2 ^ w → wrap w x = x.
Proof. apply Z.mod_small. Qed.

Lemma wrap_range w x : 0 ≤ w → 0 ≤ wrap w x < 2 ^ w.
Proof. intros. apply Z.mod_pos_bound, Z.pow_pos_nonneg; lia. Qed.

Lemma wrap_wrap w x : 0 ≤ w → wrap w (wrap w x) = wrap w x.
Proof. intros. apply wrap_small, wrap_range; lia. Qed.

Lemma wrap_testbit w x i :
  0 ≤ w → 0 ≤ i → Z.testbit (wrap w x) i = (i <? w) && Z.testbit x i.
Proof.
  intros. unfold wrap. destruct (Z.ltb_spec i w).
  - by rewrite Z.mod_pow2_bits_low by lia.
  - by rewrite Z.mod_pow2_bits_high by lia.
Qed.

Lemma add64_small x y : 0 ≤ x + y < 2 ^ 64 → add64 x y = x + y.
Proof. apply wrap_small. Qed.

Lemma sub64_small x y : 0 ≤ x - y < 2 ^ 64 → sub64 x y = x - y.
Proof. apply wrap_small. Qed.

#[export] Hint Resolve wrap_range : width.

(** Removes the wrap-arounds whose operands [lia] can bound. *)
Ltac nowrap :=
  repeat first
    [ rewrite add64_small by lia
    | rewrite sub64_small by lia
    | rewrite wrap_small by lia ].

(** Bits outside the width are zero. *)
Lemma testbit_high w x i : 0 ≤ x < 2 ^ w → w ≤ i → Z.testbit x i = false.
Proof.
  intros Hx Hi. destruct (decide (0 ≤ w)).
  - rewrite <- (wrap_small w x) by done. rewrite wrap_testbit by lia.
    by destruct (Z.ltb_spec i w); [lia|].
  - rewrite Z.pow_neg_r in Hx; lia.
Qed.

(** An integer all of whose high bits are zero fits its width. *)
Lemma testbit_in_width w x :
  0 ≤ w → 0 ≤ x → (∀ i, w ≤ i → Z.testbit x i = false) → 0 ≤ x < 2 ^ w.
Proof.
  intros Hw Hx Hb. enough (x = wrap w x) as -> by (apply wrap_range; lia).
  apply Z.bits_inj'. intros i Hi. rewrite wrap_testbit by lia.
  destruct (Z.ltb_spec i w); [done|]. by rewrite Hb by lia.
Qed.

Create HintDb bitdb.
#[export] Hint Rewrite Z.land_spec Z.lor_spec Z.lxor_spec Z.ldiff_spec Z.bits_0 : bitdb.
#[export] Hint Rewrite Z.lnot_spec Z.shiftr_spec Z.shiftl_spec wrap_testbit
  Z.testbit_ones_nonneg using lia : bitdb.

(** Reduces an equation between integers to one between their bits. *)
Ltac bitwise i :=
  apply Z.bits_inj'; intros i ?; autorewrite with bitdb.
