(* ===== verification/IntMath.v ===== *)
(** * Integer helpers (base/intmath.hh, base/bitfield.hh)

    The log2, power-of-two, rounding and bit-field functions the memory
    system uses for address slicing.  Each is proved equal to its arithmetic
    meaning. *)

From stdpp Require Import base list.
From S2P Require Import Prelude.
Local Open Scope Z_scope.

Module BitField.

(** [mask(nbits)] for 0 <= nbits <= 64. *)
Definition mask (nbits : Z) : Z :=
  if nbits =? 64 then u64 (-1) else u64 (Z.shiftl 1 nbits - 1).

Definition bits (val first last : Z) : Z :=
  let nbits := first - last + 1 in
  Z.land (Z.shiftr val last) (mask nbits).

Definition mbits (val first last : Z) : Z :=
  Z.land val (Z.land (mask (first + 1)) (not64 (mask last))).

Definition mask_range (first last : Z) : Z := mbits (u64 (-1)) first last.

(** [sext<N>(val)]. *)
Definition sext (N val : Z) : Z :=
  let sign_bit := bits val (N - 1) (N - 1) in
  if negb (sign_bit =? 0) then Z.lor val (not64 (mask N)) else val.

(** [insertBits] at [T = uint64_t]. *)
Definition insertBits (val first last bit_val : Z) : Z :=
  let bmask := shl64 (mask (first - last + 1)) last in
  Z.lor (Z.land (shl64 bit_val last) bmask) (Z.land val (not64 bmask)).

(** [replaceBits(val, first, last, bit_val)]: the new value of [val]. *)
Definition replaceBits (val first last bit_val : Z) : Z :=
  insertBits val first last bit_val.

Definition findMsbSet (val : Z) : Z :=
  if val =? 0 then 0 else
  let step := λ hi lo '(msb, v),
    if negb (bits v hi lo =? 0) then (msb + lo, Z.shiftr v lo) else (msb, v) in
  let '(msb, v) := step 3 2 (step 7 4 (step 15 8 (step 31 16 (step 63 32 (0, val))))) in
  if negb (bits v 1 1 =? 0) then msb + 1 else msb.

Definition isPow2 (v : Z) : bool := Z.land v (u64 (v - 1)) =? 0.

End BitField.
Import BitField.

Module IntMath.

Definition leastSigBit (n : Z) : Z := Z.land n (not64 (sub64 n 1)).

Definition isPowerOf2 (n : Z) : bool := negb (n =? 0) && (leastSigBit n =? n).

(** One line [if (x & m) { y += k; x >>= k; }] of [floorLog2]. *)
Definition log2_step (m k : Z) (s : Z * Z) : Z * Z :=
  let '(y, x) := s in
  if negb (Z.land x m =? 0) then (y + k, Z.shiftr x k) else (y, x).

(** [floorLog2(unsigned long long)]; the [unsigned long] overload is the same
    function on an LP64 host. *)
Definition floorLog2 (x : Z) : res Z :=
  assert_ (0 <? x);;
  let '(y, x) :=
    log2_step 0xc 2 (log2_step 0xf0 4 (log2_step 0xff00 8
      (log2_step 0xffff0000 16 (log2_step 0xffffffff00000000 32 (0, x))))) in
  mret (if negb (Z.land x 2 =? 0) then y + 1 else y).

(** [floorLog2(unsigned)]: no 32-bit step. *)
Definition floorLog2_u32 (x : Z) : res Z :=
  assert_ (0 <? x);;
  let '(y, x) :=
    log2_step 0xc 2 (log2_step 0xf0 4 (log2_step 0xff00 8
      (log2_step 0xffff0000 16 (0, x)))) in
  mret (if negb (Z.land x 2 =? 0) then y + 1 else y).

(** [ceilLog2] at a [w]-bit unsigned [T], with the overload of [floorLog2]
    that [T] selects. *)
Definition ceilLog2 (n : Z) : res Z :=
  if n =? 1 then mret 0 else y ← floorLog2 (sub64 n 1); mret (y + 1).

Definition ceilLog2_u32 (n : Z) : res Z :=
  if n =? 1 then mret 0 else y ← floorLog2_u32 (u32 (n - 1)); mret (y + 1).

Definition floorPow2 (n : Z) : res Z := k ← floorLog2 n; mret (shl64 1 k).
Definition ceilPow2 (n : Z) : res Z := k ← ceilLog2 n; mret (shl64 1 k).

(** [divCeil(a, b)] with both operands converted to [w]-bit unsigned; a zero
    divisor is undefined. *)
Definition divCeil (w a b : Z) : res Z :=
  if b =? 0 then Err UB else mret (wrap w (wrap w (a + b) - 1) / b).

Definition roundUp (val align : Z) : Z :=
  let mask := sub64 align 1 in Z.land (add64 val mask) (not64 mask).

Definition roundDown (val align : Z) : Z :=
  let mask := sub64 align 1 in Z.land val (not64 mask).

End IntMath.
Export BitField IntMath.

(** ** Bit fields *)

Lemma mask_ones n : 0 ≤ n ≤ 64 → mask n = Z.ones n.
Proof.
  intros Hn. unfold mask. destruct (Z.eqb_spec n 64) as [->|]; [done|].
  rewrite Z.shiftl_1_l. unfold Z.ones. rewrite Z.shiftl_1_l, wrap_small; [lia|].
  pose proof (Z.pow_le_mono_r 2 n 64). pose proof (Z.pow_pos_nonneg 2 n). lia.
Qed.

Lemma bits_arith val first last :
  0 ≤ last ≤ first → first < 64 →
  bits val first last = (val / 2 ^ last) mod 2 ^ (first - last + 1).
Proof.
  intros. unfold bits. rewrite mask_ones by lia.
  by rewrite Z.land_ones, Z.shiftr_div_pow2 by lia.
Qed.

Lemma bits_testbit val first last i :
  0 ≤ last ≤ first → first < 64 → 0 ≤ i →
  Z.testbit (bits val first last) i = (i <? first - last + 1) && Z.testbit val (i + last).
Proof.
  intros. unfold bits. rewrite mask_ones by lia.
  rewrite Z.land_spec, Z.shiftr_spec, Z.testbit_ones_nonneg by lia. apply andb_comm.
Qed.

Lemma insertBits_testbit val first last b i :
  0 ≤ last ≤ first → first < 64 → 0 ≤ i < 64 →
  Z.testbit (insertBits val first last b) i =
  if (last <=? i) && (i <=? first) then Z.testbit b (i - last) else Z.testbit val i.
Proof.
  intros. unfold insertBits, shl64, not64. rewrite mask_ones by lia.
  autorewrite with bitdb.
  destruct (Z.leb_spec last i), (Z.leb_spec i first), (Z.ltb_spec i 64); try lia; simpl;
    rewrite ?(Z.testbit_neg_r _ (i - last)), ?Z.testbit_ones_nonneg by lia;
    destruct (Z.ltb_spec (i - last) (first - last + 1)); try lia;
    by rewrite ?andb_true_r, ?andb_false_r, ?orb_false_r, ?orb_false_l.
Qed.

Lemma insertBits_range val first last b :
  0 ≤ last ≤ first → first < 64 → 0 ≤ val < 2 ^ 64 → 0 ≤ insertBits val first last b < 2 ^ 64.
Proof.
  intros. unfold insertBits, shl64, not64. apply testbit_in_width; [lia| |].
  - apply Z.lor_nonneg. split; apply Z.land_nonneg.
    + left. pose proof (wrap_range 64 (Z.shiftl b last)). lia.
    + lia.
  - intros i Hi. autorewrite with bitdb. rewrite (testbit_high 64 val i) by lia.
    by destruct (Z.ltb_spec i 64); [lia|].
Qed.

(** ** Powers of two *)

Lemma land_hi_mask x k :
  0 < k → 0 ≤ x < 2 ^ (2 * k) →
  negb (Z.land x (2 ^ (2 * k) - 2 ^ k) =? 0) = (2 ^ k <=? x).
Proof.
  intros Hk Hx. assert (Z.land x (2 ^ (2 * k) - 2 ^ k) = Z.shiftl (x / 2 ^ k) k) as ->.
  { replace (2 ^ (2 * k) - 2 ^ k) with (Z.shiftl (Z.ones k) k).
    - bitwise i. rewrite <- Z.shiftr_div_pow2 by lia.
      destruct (decide (k ≤ i)).
      + rewrite Z.testbit_ones_nonneg, Z.shiftr_spec by lia.
        destruct (Z.ltb_spec (i - k) k); rewrite ?andb_true_r, ?andb_false_r.
        * by replace (i - k + k) with i by lia.
        * rewrite (testbit_high (2 * k)) by lia. done.
      + rewrite !(Z.testbit_neg_r _ (i - k)) by lia. apply andb_false_r.
    - rewrite Z.shiftl_mul_pow2, Z.ones_equiv by lia.
      replace (2 * k) with (k + k) by lia. rewrite Z.pow_add_r by lia. lia. }
  rewrite Z.shiftl_mul_pow2 by lia. pose proof (Z.pow_pos_nonneg 2 k).
  destruct (Z.leb_spec (2 ^ k) x), (Z.eqb_spec (x / 2 ^ k * 2 ^ k) 0); try done.
  - assert (1 ≤ x / 2 ^ k) by (apply Z.div_le_lower_bound; lia). nia.
  - rewrite Z.div_small in *; lia.
Qed.

Lemma log2_step_spec k y x :
  0 < k → 0 < x < 2 ^ (2 * k) →
  ∃ y' x', log2_step (2 ^ (2 * k) - 2 ^ k) k (y, x) = (y', x')
    ∧ 0 < x' < 2 ^ k ∧ y' + Z.log2 x' = y + Z.log2 x.
Proof.
  intros Hk Hx. unfold log2_step. rewrite land_hi_mask by lia.
  pose proof (Z.pow_pos_nonneg 2 k).
  destruct (Z.leb_spec (2 ^ k) x) as [Hle|]; eexists _, _; (split; [reflexivity|]); [|lia].
  assert (k ≤ Z.log2 x) by (apply Z.log2_le_pow2; lia).
  rewrite Z.log2_shiftr by lia. rewrite Z.shiftr_div_pow2 by lia.
  rewrite Z.max_r by lia. split; [|lia]. split.
  - apply Z.div_str_pos. lia.
  - apply Z.div_lt_upper_bound; [lia|]. rewrite <- Z.pow_add_r by lia.
    replace (k + k) with (2 * k) by lia. lia.
Qed.

Lemma log2_last x : 0 < x < 4 → (if negb (Z.land x 2 =? 0) then 1 else 0) = Z.log2 x.
Proof. intros. assert (x = 1 ∨ x = 2 ∨ x = 3) as [->|[->| ->]] by lia; done. Qed.

(** Runs one binary-search step of [floorLog2]. *)
Ltac log2_go k :=
  let y' := fresh "y" in let x' := fresh "x" in let E := fresh "E" in
  match goal with |- context [log2_step ?m k (?y, ?x)] =>
    destruct (log2_step_spec k y x) as (y' & x' & E & ? & ?); [lia|lia|];
    change (2 ^ (2 * k) - 2 ^ k) with m in E; rewrite E; clear E
  end.

Lemma floorLog2_eq x : 0 < x < 2 ^ 64 → floorLog2 x = Ok (Z.log2 x).
Proof.
  intros Hx. unfold floorLog2. rewrite (proj2 (Z.ltb_lt 0 x)) by lia.
  unfold check, mbind, res_mbind.
  log2_go 32. log2_go 16. log2_go 8. log2_go 4. log2_go 2.
  unfold mret, res_mret. f_equal. pose proof (log2_last x4). destruct (negb _); lia.
Qed.

Lemma floorLog2_u32_eq x : 0 < x < 2 ^ 32 → floorLog2_u32 x = Ok (Z.log2 x).
Proof.
  intros Hx. unfold floorLog2_u32. rewrite (proj2 (Z.ltb_lt 0 x)) by lia.
  unfold check, mbind, res_mbind.
  log2_go 16. log2_go 8. log2_go 4. log2_go 2.
  unfold mret, res_mret. f_equal. pose proof (log2_last x3). destruct (negb _); lia.
Qed.

Lemma ceilLog2_eq n : 0 < n < 2 ^ 64 → ceilLog2 n = Ok (Z.log2_up n).
Proof.
  intros. unfold ceilLog2. destruct (Z.eqb_spec n 1) as [->|]; [done|].
  nowrap. rewrite floorLog2_eq by lia. simpl. unfold mret, res_mret. f_equal.
  rewrite Z.log2_up_eqn by lia. rewrite <- Z.sub_1_r. lia.
Qed.

Lemma ceilLog2_u32_eq n : 0 < n < 2 ^ 32 → ceilLog2_u32 n = Ok (Z.log2_up n).
Proof.
  intros. unfold ceilLog2_u32. destruct (Z.eqb_spec n 1) as [->|]; [done|].
  nowrap. rewrite floorLog2_u32_eq by lia. simpl. unfold mret, res_mret. f_equal.
  rewrite Z.log2_up_eqn by lia. rewrite <- Z.sub_1_r. lia.
Qed.

Lemma land_pred_pow2 n : 0 < n → Z.land n (n - 1) = 0 ↔ n = 2 ^ Z.log2 n.
Proof.
  intros Hn. pose proof (Z.log2_spec n Hn) as Hk. pose proof (Z.log2_nonneg n) as H0.
  set (k := Z.log2 n) in *. split; intros H.
  - destruct (decide (n = 2 ^ k)); [done|exfalso].
    assert (Z.testbit (Z.land n (n - 1)) k = true); [|by rewrite H, Z.bits_0 in *].
    assert (Z.log2 (n - 1) = k) as Hp.
    { apply Z.log2_unique; lia. }
    rewrite Z.land_spec. unfold k at 1. rewrite Z.bit_log2 by lia.
    rewrite <- Hp. rewrite Z.bit_log2; [done|]. pose proof (Z.pow_pos_nonneg 2 k). lia.
  - rewrite H. replace (2 ^ k - 1) with (Z.ones k) by (rewrite Z.ones_equiv; lia).
    rewrite Z.land_ones by lia. apply Z.mod_same. lia.
Qed.

Lemma leastSigBit_fix n : 0 < n < 2 ^ 64 → leastSigBit n = n ↔ Z.land n (n - 1) = 0.
Proof.
  intros. unfold leastSigBit, not64. nowrap.
  assert (Z.land n (u64 (Z.lnot (n - 1))) = Z.ldiff n (n - 1)) as ->.
  { bitwise i. destruct (Z.ltb_spec i 64); simpl.
    - done.
    - by rewrite (testbit_high 64) by lia. }
  split; intros E.
  - rewrite <- E at 1. bitwise i. by destruct (Z.testbit n i), (Z.testbit (n - 1) i).
  - apply Z.bits_inj'. intros i ?. rewrite Z.ldiff_spec.
    apply (f_equal (λ z, Z.testbit z i)) in E. rewrite Z.land_spec, Z.bits_0 in E.
    by destruct (Z.testbit n i), (Z.testbit (n - 1) i).
Qed.

Lemma isPowerOf2_iff n :
  0 ≤ n < 2 ^ 64 → isPowerOf2 n = true ↔ ∃ k, 0 ≤ k < 64 ∧ n = 2 ^ k.
Proof.
  intros Hn. unfold isPowerOf2. rewrite andb_true_iff, negb_true_iff, Z.eqb_neq, Z.eqb_eq.
  split.
  - intros [H0 H]. apply leastSigBit_fix, land_pred_pow2 in H; try lia.
    exists (Z.log2 n). split; [|done]. split; [apply Z.log2_nonneg|].
    apply Z.log2_lt_pow2; lia.
  - intros (k & Hk & ->). pose proof (Z.pow_pos_nonneg 2 k). split; [lia|].
    apply leastSigBit_fix, land_pred_pow2; [lia|lia|]. by rewrite Z.log2_pow2 by lia.
Qed.

(** ** Rounding to a power of two *)

Lemma land_not64_low x k :
  0 ≤ k ≤ 64 → 0 ≤ x < 2 ^ 64 → Z.land x (not64 (2 ^ k - 1)) = x / 2 ^ k * 2 ^ k.
Proof.
  intros. rewrite <- Z.shiftr_div_pow2, <- Z.shiftl_mul_pow2 by lia.
  replace (2 ^ k - 1) with (Z.ones k) by (rewrite Z.ones_equiv; lia).
  unfold not64. bitwise i.
  destruct (Z.ltb_spec i 64), (Z.ltb_spec i k); simpl.
  - rewrite (Z.testbit_neg_r _ (i - k)) by lia. apply andb_false_r.
  - rewrite Z.shiftr_spec by lia. replace (i - k + k) with i by lia. apply andb_true_r.
  - lia.
  - rewrite Z.shiftr_spec by lia. rewrite !(testbit_high 64 x) by lia. done.
Qed.

Lemma roundDown_eq val k :
  0 ≤ k < 64 → 0 ≤ val < 2 ^ 64 → roundDown val (2 ^ k) = val / 2 ^ k * 2 ^ k.
Proof.
  intros. unfold roundDown. pose proof (Z.pow_pos_nonneg 2 k).
  pose proof (Z.pow_lt_mono_r 2 k 64). nowrap. by apply land_not64_low; lia.
Qed.

Lemma roundUp_eq val k :
  0 ≤ k < 64 → 0 ≤ val → val + 2 ^ k ≤ 2 ^ 64 →
  roundUp val (2 ^ k) = (val + 2 ^ k - 1) / 2 ^ k * 2 ^ k.
Proof.
  intros. unfold roundUp. pose proof (Z.pow_pos_nonneg 2 k).
  pose proof (Z.pow_lt_mono_r 2 k 64). nowrap.
  rewrite land_not64_low by lia. by rewrite Z.add_sub_assoc.
Qed.

Lemma divCeil_eq w a b :
  0 ≤ w → 0 ≤ a → 0 < b → a + b ≤ 2 ^ w - 1 → divCeil w a b = Ok ((a + b - 1) / b).
Proof.
  intros. unfold divCeil. destruct (Z.eqb_spec b 0); [lia|]. unfold mret, res_mret.
  by rewrite (wrap_small w (a + b)), wrap_small by lia.
Qed.
