(* ===== verification/AddrRanges.v ===== *)
(** * Address ranges (base/addr_range.hh)

    An address range, optionally one stripe of an interleaved (and optionally
    XOR-hashed) set of ranges.  Shows that the stripes of an interleaved range
    partition it, that merging them back gives the whole range, and what
    [intersects] and [isSubset] decide. *)

From stdpp Require Import base list.
From S2P Require Import Prelude IntMath.
Local Open Scope Z_scope.

Module AddrRange.

Record AddrRange := mkAddrRange {
  _start : Z;
  _end : Z;
  intlvHighBit : Z;
  xorHighBit : Z;
  intlvBits : Z;
  intlvMatch : Z;
}.

#[export] Instance AddrRange_eq_dec : EqDecision AddrRange.
Proof. solve_decision. Defined.

(** [AddrRange()] *)
Definition AddrRange_default : AddrRange := mkAddrRange 1 0 0 0 0 0.

(** [AddrRange(_start, _end)] *)
Definition AddrRange_simple (s e : Z) : AddrRange := mkAddrRange s e 0 0 0 0.

(** [AddrRange(_start, _end, _intlv_high_bit, _xor_high_bit, _intlv_bits,
    _intlv_match)] with its sanity checks. *)
Definition AddrRange_intlv (s e hi x n m : Z) : res AddrRange :=
  fatal_if (negb (n =? 0) && (Z.shiftl 1 n <=? m));;
  (if negb (n =? 0) && negb (x =? 0) then
     if x =? hi then Err Fatal
     else if hi <? x then fatal_if (x - hi <? n)
     else fatal_if (hi - x <? n)
   else mret tt);;
  mret (mkAddrRange s e hi x n m).

Definition interleaved (r : AddrRange) : bool := negb (intlvBits r =? 0).
Definition hashed (r : AddrRange) : bool := interleaved r && negb (xorHighBit r =? 0).
Definition granularity (r : AddrRange) : Z := shl64 1 (intlvHighBit r - intlvBits r + 1).
Definition stripes (r : AddrRange) : Z := u32 (shl64 1 (intlvBits r)).
Definition size (r : AddrRange) : Z :=
  Z.shiftr (add64 (sub64 (_end r) (_start r)) 1) (intlvBits r).
Definition valid (r : AddrRange) : bool := _start r <=? _end r.

Definition mergesWith (this r : AddrRange) : bool :=
  (_start r =? _start this) && (_end r =? _end this) &&
  (intlvHighBit r =? intlvHighBit this) &&
  (xorHighBit r =? xorHighBit this) &&
  (intlvBits r =? intlvBits this).

Definition contains (this : AddrRange) (a : Z) : bool :=
  let in_range := (_start this <=? a) && (a <=? _end this) in
  if negb (interleaved this) then in_range
  else if in_range then
    if negb (hashed this) then
      bits a (intlvHighBit this) (intlvHighBit this - intlvBits this + 1)
        =? intlvMatch this
    else
      Z.lxor (bits a (intlvHighBit this) (intlvHighBit this - intlvBits this + 1))
             (bits a (xorHighBit this) (xorHighBit this - intlvBits this + 1))
        =? intlvMatch this
  else false.

Definition intersects (this r : AddrRange) : res bool :=
  if (_end r <? _start this) || (_end this <? _start r) then mret false
  else if negb (interleaved this) && negb (interleaved r) then mret true
  else if size r =? 1 then mret (contains this (_start r))
  else if mergesWith this r then mret (intlvMatch this =? intlvMatch r)
  else Err Panic.

Definition isSubset (this r : AddrRange) : res bool :=
  if interleaved this then Err Panic
  else mret ((_start r <=? _start this) && (_end this <=? _end r)).

(** The checking loop of the merging constructor; [match_] is a [uint8_t]. *)
Fixpoint merge_loop (this : AddrRange) (match_ : Z) (ranges : list AddrRange) : res unit :=
  match ranges with
  | [] => mret tt
  | r :: ranges =>
      fatal_if (negb (mergesWith this r));;
      fatal_if (negb (intlvMatch r =? match_));;
      merge_loop this (u8 (match_ + 1)) ranges
  end.

(** [AddrRange(const std::vector<AddrRange>& ranges)] *)
Definition AddrRange_merge (ranges : list AddrRange) : res AddrRange :=
  match ranges with
  | [] => mret AddrRange_default
  | front :: _ =>
      let this := mkAddrRange (_start front) (_end front) (intlvHighBit front)
                    (xorHighBit front) (intlvBits front) 0 in
      fatal_if (negb (Z.of_nat (length ranges) =? shl64 1 (intlvBits this)));;
      merge_loop this 0 ranges;;
      mret (mkAddrRange (_start this) (_end this) 0 0 0 0)
  end.

(** [operator<] and [operator==]. *)
Definition range_lt (this r : AddrRange) : bool :=
  if negb (_start this =? _start r) then _start this <? _start r
  else intlvMatch this <? intlvMatch r.

Definition range_eq (this r : AddrRange) : bool :=
  if negb (_start this =? _start r) then false
  else if negb (_end this =? _end r) then false
  else if negb (intlvBits this =? intlvBits r) then false
  else if negb (intlvBits this =? 0) then
    if negb (intlvHighBit this =? intlvHighBit r) then false
    else if negb (intlvMatch this =? intlvMatch r) then false
    else true
  else true.

Definition RangeEx (s e : Z) : AddrRange := AddrRange_simple s (sub64 e 1).
Definition RangeIn (s e : Z) : AddrRange := AddrRange_simple s e.
Definition RangeSize (s n : Z) : AddrRange := AddrRange_simple s (sub64 (add64 s n) 1).

End AddrRange.
Import AddrRange.

(** ** Interleaving *)

(** The interleaving fields describe bit slices of a 64-bit address, as the
    [uint8_t] fields of a usable range do. *)
Definition intlv_wf (r : AddrRange) : Prop :=
  0 ≤ intlvBits r ≤ intlvHighBit r + 1 ∧ intlvHighBit r < 64 ∧
  (xorHighBit r = 0 ∨ intlvBits r ≤ xorHighBit r + 1 ≤ 64).

(** The stripe an address falls in. *)
Definition stripe_of (r : AddrRange) (a : Z) : Z :=
  if hashed r then
    Z.lxor (bits a (intlvHighBit r) (intlvHighBit r - intlvBits r + 1))
           (bits a (xorHighBit r) (xorHighBit r - intlvBits r + 1))
  else bits a (intlvHighBit r) (intlvHighBit r - intlvBits r + 1).

Definition with_match (r : AddrRange) (m : Z) : AddrRange :=
  mkAddrRange (_start r) (_end r) (intlvHighBit r) (xorHighBit r) (intlvBits r) m.

Lemma contains_stripe r a :
  contains r a = true ↔
  _start r ≤ a ≤ _end r ∧ (interleaved r = true → stripe_of r a = intlvMatch r).
Proof.
  unfold contains, stripe_of, hashed.
  destruct (interleaved r); simpl.
  - destruct (Z.leb_spec (_start r) a), (Z.leb_spec a (_end r)); simpl;
      try (split; [done|lia]).
    destruct (xorHighBit r =? 0); simpl; rewrite Z.eqb_eq; split; intros; auto with lia;
      naive_solver.
  - rewrite andb_true_iff, !Z.leb_le. by split; [|intros [? _]].
Qed.

Lemma bits_range a first n : 0 ≤ n → n ≤ first + 1 ≤ 64 →
  0 ≤ bits a first (first - n + 1) < 2 ^ n.
Proof.
  intros. destruct (decide (n = 0)) as [->|].
  - unfold bits. replace (first - (first - 0 + 1) + 1) with 0 by lia.
    by rewrite mask_ones, Z.land_0_r by lia.
  - rewrite bits_arith by lia. replace (first - (first - n + 1) + 1) with n by lia.
    apply Z.mod_pos_bound, Z.pow_pos_nonneg; lia.
Qed.

Lemma stripe_range r a : intlv_wf r → 0 ≤ stripe_of r a < 2 ^ intlvBits r.
Proof.
  intros (?&?&Hx). unfold stripe_of, hashed.
  pose proof (bits_range a (intlvHighBit r) (intlvBits r)) as H1.
  destruct (interleaved r), (Z.eqb_spec (xorHighBit r) 0); simpl; try (apply H1; lia).
  pose proof (bits_range a (xorHighBit r) (intlvBits r)) as H2.
  apply testbit_in_width; [lia|apply Z.lxor_nonneg; lia|].
  intros i Hi. rewrite Z.lxor_spec, !(testbit_high (intlvBits r)) by lia. done.
Qed.

Lemma stripe_with_match r m a : stripe_of (with_match r m) a = stripe_of r a.
Proof. done. Qed.

(** The stripes of an interleaved range partition it: every address of
    [start, end] is contained in exactly one of them. *)
Lemma stripes_partition r a :
  intlv_wf r → interleaved r = true → _start r ≤ a ≤ _end r →
  ∃ m, (0 ≤ m < 2 ^ intlvBits r ∧ contains (with_match r m) a = true) ∧
       ∀ m', contains (with_match r m') a = true → m' = m.
Proof.
  intros Hwf Hi Ha. exists (stripe_of r a). split.
  - split; [by apply stripe_range|]. by apply contains_stripe.
  - intros m' [_ H]%contains_stripe. rewrite stripe_with_match in H.
    symmetry. by apply H.
Qed.

(** ** Merging *)

Lemma mergesWith_inv t r : mergesWith t r = true → r = with_match t (intlvMatch r).
Proof.
  unfold mergesWith, with_match. rewrite !andb_true_iff, !Z.eqb_eq.
  destruct r; simpl; intuition congruence.
Qed.

Lemma merge_loop_inv t k rs :
  0 ≤ k → k + Z.of_nat (length rs) ≤ 2 ^ 8 →
  merge_loop t k rs = Ok tt →
  rs = (λ i, with_match t (k + Z.of_nat i)) <$> seq 0 (length rs).
Proof.
  revert k. induction rs as [|r rs IH]; intros k Hk Hlen H; [done|].
  cbn [merge_loop] in H. unfold fatal_if in H. res_inv.
  rewrite negb_involutive in *. apply mergesWith_inv in Hr. apply Z.eqb_eq in Hr0.
  cbn [length] in Hlen |- *. cbn [seq fmap list_fmap]. f_equal.
  - by rewrite Hr, Hr0, Z.add_0_r.
  - destruct rs as [|r' rs']; [done|].
    rewrite wrap_small in H by (cbn [length] in Hlen; lia).
    rewrite (IH (k + 1)) at 1; [|lia|lia|done].
    rewrite <- fmap_S_seq, <- list_fmap_compose.
    apply list_fmap_ext. intros i x _. simpl. f_equal. lia.
Qed.

Lemma merge_inv front rs r :
  0 ≤ intlvBits front ≤ 8 →
  AddrRange_merge (front :: rs) = Ok r →
  r = AddrRange_simple (_start front) (_end front) ∧
  front :: rs = (λ i, with_match front (Z.of_nat i)) <$> seq 0 (Z.to_nat (2 ^ intlvBits front)).
Proof.
  intros Hb H. unfold AddrRange_merge, fatal_if in H. cbn [intlvBits] in H. res_inv.
  rewrite negb_involutive, Z.eqb_eq in Hr. unfold shl64 in Hr.
  rewrite Z.shiftl_1_l in Hr.
  pose proof (Z.pow_le_mono_r 2 (intlvBits front) 8). pose proof (Z.pow_pos_nonneg 2 (intlvBits front)).
  rewrite wrap_small in Hr by lia. destruct r1.
  apply merge_loop_inv in Hr0; [|lia|lia]. split; [by rewrite <- H|].
  rewrite Hr0 at 1. rewrite <- Hr, Nat2Z.id. done.
Qed.

(** A contiguous range of size one contains only its start. *)
Lemma size_one_only r a :
  interleaved r = false → 0 ≤ _start r → _end r < 2 ^ 64 → AddrRange.size r = 1 →
  contains r a = true → a = _start r.
Proof.
  intros I Hs He Hz [Ha _]%contains_stripe. unfold AddrRange.size, interleaved in *.
  apply negb_false_iff, Z.eqb_eq in I. rewrite I, Z.shiftr_0_r, sub64_small in Hz by lia.
  destruct (decide (_end r - _start r + 1 = 2 ^ 64)) as [E|].
  - unfold add64 in Hz. by rewrite E in Hz.
  - rewrite add64_small in Hz; lia.
Qed.

(** merging a complete set of interleaved ranges gives a contiguous range
    that contains exactly the addresses some member of the set contains. *)
Theorem merge_covers_members front rs r a :
  intlv_wf front → intlvBits front ≤ 8 →
  AddrRange_merge (front :: rs) = Ok r →
  contains r a = true ↔ ∃ r', r' ∈ front :: rs ∧ contains r' a = true.
Proof.
  intros Hwf Hb H. destruct (merge_inv front rs r) as [-> E]; [destruct Hwf; lia|done|].
  rewrite E. pose proof (Z.pow_pos_nonneg 2 (intlvBits front)).
  rewrite contains_stripe. setoid_rewrite contains_stripe. simpl. split.
  - intros [Ha _]. pose proof (stripe_range front a Hwf).
    exists (with_match front (stripe_of front a)). split; [|by split].
    apply list_elem_of_fmap. exists (Z.to_nat (stripe_of front a)).
    split; [by rewrite Z2Nat.id by lia|]. apply elem_of_seq. lia.
  - intros (r' & (i & -> & _)%list_elem_of_fmap & Ha & _). by split.
Qed.


(** on non-empty ranges, whenever [intersects] answers at all it answers
    whether the two ranges share an address (the second one being either not
    interleaved or larger than a single stripe element). *)
Theorem intersects_iff_common r1 r2 a1 a2 b :
  contains r1 a1 = true → contains r2 a2 = true →
  0 ≤ _start r2 → _end r2 < 2 ^ 64 →
  (interleaved r2 = true → AddrRange.size r2 ≠ 1) →
  intersects r1 r2 = Ok b →
  b = true ↔ ∃ a, contains r1 a = true ∧ contains r2 a = true.
Proof.
  intros C1 C2 Hs He Hsz H.
  pose proof C1 as [H1 M1]%contains_stripe. pose proof C2 as [H2 M2]%contains_stripe.
  unfold intersects, mret, res_mret in H.
  destruct ((_end r2 <? _start r1) || (_end r1 <? _start r2)) eqn:Hov.
  { simplify_eq. split; [done|]. intros (a & [? _]%contains_stripe & [? _]%contains_stripe).
    rewrite orb_true_iff, !Z.ltb_lt in Hov. lia. }
  rewrite orb_false_iff, !Z.ltb_ge in Hov.
  destruct (negb (interleaved r1) && negb (interleaved r2)) eqn:HI.
  { rewrite andb_true_iff, !negb_true_iff in HI. destruct HI as [I1 I2].
    simplify_eq. split; [|done]. intros _. exists (Z.max (_start r1) (_start r2)).
    rewrite !contains_stripe, I1, I2. split; (split; [lia|done]). }
  destruct (Z.eqb_spec (AddrRange.size r2) 1) as [Hone|]; simplify_eq.
  { destruct (interleaved r2) eqn:I2; [by destruct Hsz|]. split.
    - intros Hc. exists (_start r2). split; [done|].
      apply contains_stripe. rewrite I2. split; [lia|done].
    - intros (a & Ha & Ha2). by rewrite <- (size_one_only r2 a). }
  destruct (mergesWith r1 r2) eqn:Hm; simplify_eq. apply mergesWith_inv in Hm.
  rewrite Z.eqb_eq. split.
  - intros E. exists a1. split; [done|]. rewrite Hm, <- E. by destruct r1.
  - intros (a & [_ S1]%contains_stripe & [_ S2]%contains_stripe).
    assert (interleaved r1 = true) as I1.
    { rewrite Hm in HI. unfold interleaved in *. simpl in HI. by destruct (intlvBits r1 =? 0). }
    rewrite <- S1 by done. rewrite Hm in S2. apply S2, I1.
Qed.

Lemma isSubset_inv r1 r2 b :
  isSubset r1 r2 = Ok b →
  interleaved r1 = false ∧ b = (_start r2 <=? _start r1) && (_end r1 <=? _end r2).
Proof.
  unfold isSubset, mret, res_mret. destruct (interleaved r1); [done|]. naive_solver.
Qed.

(** against a contiguous range, [isSubset] on a non-empty range answers
    exactly whether every address of the first is in the second. *)
Theorem isSubset_contiguous r1 r2 b :
  valid r1 = true → interleaved r2 = false →
  isSubset r1 r2 = Ok b →
  b = true ↔ ∀ a, contains r1 a = true → contains r2 a = true.
Proof.
  intros Hv I2 [I1 ->]%isSubset_inv. apply Z.leb_le in Hv.
  rewrite andb_true_iff, !Z.leb_le. setoid_rewrite contains_stripe. rewrite I1, I2. split.
  - intros Hb a [Ha _]. split; [lia|done].
  - intros Hb. destruct (Hb (_start r1)) as [? _]; [by split; [lia|]|].
    destruct (Hb (_end r1)) as [? _]; [by split; [lia|]|]. lia.
Qed.

(** The two stripes of a 4 KiB region interleaved at 128 bytes. *)
Definition ex_stripe (m : Z) : AddrRange := mkAddrRange 0 4095 7 0 1 m.

(** against an interleaved range [isSubset] answers [true] for every
    address interval inside [start, end], including intervals none of whose
    addresses the interleaved range contains: it is not the subset test its
    documentation states. *)
Theorem isSubset_interleaved_unsound :
  isSubset (AddrRange_simple 128 135) (ex_stripe 0) = Ok true ∧
  ∀ a, contains (AddrRange_simple 128 135) a = true → contains (ex_stripe 0) a = false.
Proof.
  split; [done|]. intros a [Ha _]%contains_stripe. simpl in Ha.
  assert (a = 128 ∨ a = 129 ∨ a = 130 ∨ a = 131 ∨ a = 132 ∨ a = 133 ∨ a = 134 ∨ a = 135)
    as Hc by lia.
  by destruct_or! Hc; subst a.
Qed.

Lemma merge_covers_members_witness :
  contains (AddrRange_simple 0 4095) 200 = true ↔
  ∃ r', r' ∈ [ex_stripe 0; ex_stripe 1] ∧ contains r' 200 = true.
Proof.
  apply (merge_covers_members (ex_stripe 0) [ex_stripe 1]).
  - unfold intlv_wf. simpl. lia.
  - vm_compute. discriminate.
  - reflexivity.
Defined.


Lemma intersects_iff_common_witness :
  false = true ↔ ∃ a, contains (ex_stripe 0) a = true ∧ contains (ex_stripe 1) a = true.
Proof.
  apply (intersects_iff_common (ex_stripe 0) (ex_stripe 1) 0 128); try reflexivity;
    vm_compute; discriminate.
Defined.

Lemma isSubset_contiguous_witness :
  true = true ↔ ∀ a, contains (AddrRange_simple 64 127) a = true →
                     contains (AddrRange_simple 0 4095) a = true.
Proof. apply isSubset_contiguous; reflexivity. Defined.
