(* ===== verification/Packets.v ===== *)
(** * Requests and packets (mem/request.hh, mem/packet.hh, mem/packet.cc)

    The memory commands with their attribute table, the [Request] a CPU
    creates (with the row-operation payload and the splitting of a row
    operation into its operand requests), and the [Packet] that carries it,
    with the response conversion and the functional-access overlap logic. *)

From stdpp Require Import base list strings.
From S2P Require Import Prelude IntMath.
Local Open Scope Z_scope.

(** [Flags<T>] (base/flags.hh) at an unsigned [T] of width [w]. *)
Module Flags.
Definition isSet (f m : Z) : bool := negb (Z.land f m =? 0).
Definition allSet (f m : Z) : bool := Z.land f m =? m.
Definition noneSet (f m : Z) : bool := Z.land f m =? 0.
Definition clear (w f m : Z) : Z := Z.land f (wrap w (Z.lnot m)).
Definition set (f m : Z) : Z := Z.lor f m.
End Flags.

Module MemCmd.

Inductive Command :=
  | InvalidCmd | ReadReq | ReadResp | ReadRespWithInvalidate | WriteReq | WriteResp
  | Writeback | CleanEvict | SoftPFReq | HardPFReq | SoftPFResp | HardPFResp
  | WriteLineReq | UpgradeReq | SCUpgradeReq | UpgradeResp | SCUpgradeFailReq
  | UpgradeFailResp | ReadExReq | ReadExResp | ReadCleanReq | ReadSharedReq
  | LoadLockedReq | StoreCondReq | StoreCondFailReq | StoreCondResp | SwapReq
  | SwapResp | MessageReq | MessageResp | ReleaseReq | ReleaseResp | AcquireReq
  | AcquireResp | InvalidDestError | BadAddressError | FunctionalReadError
  | FunctionalWriteError | PrintReq | FlushReq | InvalidateReq | InvalidateResp.

#[global] Instance Command_eq_dec : EqDecision Command.
Proof. solve_decision. Defined.

Inductive Attribute :=
  | IsRead | IsWrite | IsUpgrade | IsInvalidate | NeedsExclusive | IsRequest
  | IsResponse | NeedsResponse | IsSWPrefetch | IsHWPrefetch | IsLlsc | HasData
  | IsError | IsPrint | IsFlush.

#[global] Instance Attribute_eq_dec : EqDecision Attribute.
Proof. solve_decision. Defined.

Record CommandInfo := mkInfo {
  attributes : list Attribute;
  response : Command;
  str : string;
}.

(** The table, in the order of the source; it is indexed by the numeric value
    of the command. *)
Definition commandInfo : list CommandInfo := [
  mkInfo [] InvalidCmd "InvalidCmd";
  mkInfo [IsRead; IsRequest; NeedsResponse] ReadResp "ReadReq";
  mkInfo [IsRead; IsResponse; HasData] InvalidCmd "ReadResp";
  mkInfo [IsRead; IsResponse; HasData; IsInvalidate] InvalidCmd "ReadRespWithInvalidate";
  mkInfo [IsWrite; NeedsExclusive; IsRequest; NeedsResponse; HasData] WriteResp "WriteReq";
  mkInfo [IsWrite; NeedsExclusive; IsResponse] InvalidCmd "WriteResp";
  mkInfo [IsWrite; NeedsExclusive; IsRequest; HasData] InvalidCmd "Writeback";
  mkInfo [IsWrite; IsRequest] InvalidCmd "CleanEvict";
  mkInfo [IsRead; IsRequest; IsSWPrefetch; NeedsResponse] SoftPFResp "SoftPFReq";
  mkInfo [IsRead; IsRequest; IsHWPrefetch; NeedsResponse] HardPFResp "HardPFReq";
  mkInfo [IsRead; IsResponse; IsSWPrefetch; HasData] InvalidCmd "SoftPFResp";
  mkInfo [IsRead; IsResponse; IsHWPrefetch; HasData] InvalidCmd "HardPFResp";
  mkInfo [IsWrite; NeedsExclusive; IsRequest; NeedsResponse; HasData] WriteResp "WriteLineReq";
  mkInfo [IsInvalidate; NeedsExclusive; IsUpgrade; IsRequest; NeedsResponse]
    UpgradeResp "UpgradeReq";
  mkInfo [IsInvalidate; NeedsExclusive; IsUpgrade; IsLlsc; IsRequest; NeedsResponse]
    UpgradeResp "SCUpgradeReq";
  mkInfo [NeedsExclusive; IsUpgrade; IsResponse] InvalidCmd "UpgradeResp";
  mkInfo [IsRead; NeedsExclusive; IsInvalidate; IsLlsc; IsRequest; NeedsResponse]
    UpgradeFailResp "SCUpgradeFailReq";
  mkInfo [IsRead; NeedsExclusive; IsResponse; HasData] InvalidCmd "UpgradeFailResp";
  mkInfo [IsRead; NeedsExclusive; IsInvalidate; IsRequest; NeedsResponse]
    ReadExResp "ReadExReq";
  mkInfo [IsRead; NeedsExclusive; IsResponse; HasData] InvalidCmd "ReadExResp";
  mkInfo [IsRead; IsRequest; NeedsResponse] ReadResp "ReadCleanReq";
  mkInfo [IsRead; IsRequest; NeedsResponse] ReadResp "ReadSharedReq";
  mkInfo [IsRead; IsLlsc; IsRequest; NeedsResponse] ReadResp "LoadLockedReq";
  mkInfo [IsWrite; NeedsExclusive; IsLlsc; IsRequest; NeedsResponse; HasData]
    StoreCondResp "StoreCondReq";
  mkInfo [IsWrite; NeedsExclusive; IsLlsc; IsRequest; NeedsResponse; HasData]
    StoreCondResp "StoreCondFailReq";
  mkInfo [IsWrite; NeedsExclusive; IsLlsc; IsResponse] InvalidCmd "StoreCondResp";
  mkInfo [IsRead; IsWrite; NeedsExclusive; IsRequest; HasData; NeedsResponse]
    SwapResp "SwapReq";
  mkInfo [IsRead; IsWrite; NeedsExclusive; IsResponse; HasData] InvalidCmd "SwapResp";
  mkInfo [IsWrite; IsRequest; NeedsResponse; HasData] MessageResp "MessageReq";
  mkInfo [IsWrite; IsResponse] InvalidCmd "MessageResp";
  mkInfo [IsRequest; NeedsResponse] ReleaseResp "ReleaseReq";
  mkInfo [IsResponse] InvalidCmd "ReleaseResp";
  mkInfo [IsRequest; NeedsResponse] AcquireResp "AcquireReq";
  mkInfo [IsResponse; NeedsResponse] InvalidCmd "AcquireResp";
  mkInfo [IsResponse; IsError] InvalidCmd "InvalidDestError";
  mkInfo [IsResponse; IsError] InvalidCmd "BadAddressError";
  mkInfo [IsRead; IsResponse; IsError] InvalidCmd "FunctionalReadError";
  mkInfo [IsWrite; IsResponse; IsError] InvalidCmd "FunctionalWriteError";
  mkInfo [IsRequest; IsPrint] InvalidCmd "PrintReq";
  mkInfo [IsRequest; IsFlush; NeedsExclusive] InvalidCmd "FlushReq";
  mkInfo [IsInvalidate; IsRequest; NeedsExclusive; NeedsResponse]
    InvalidateResp "InvalidateReq";
  mkInfo [IsInvalidate; IsResponse; NeedsExclusive] InvalidCmd "InvalidateResp"
].

(** The enum value of a command. *)
Definition toInt (c : Command) : nat :=
  match c with
  | InvalidCmd => 0 | ReadReq => 1 | ReadResp => 2 | ReadRespWithInvalidate => 3
  | WriteReq => 4 | WriteResp => 5 | Writeback => 6 | CleanEvict => 7 | SoftPFReq => 8
  | HardPFReq => 9 | SoftPFResp => 10 | HardPFResp => 11 | WriteLineReq => 12
  | UpgradeReq => 13 | SCUpgradeReq => 14 | UpgradeResp => 15 | SCUpgradeFailReq => 16
  | UpgradeFailResp => 17 | ReadExReq => 18 | ReadExResp => 19 | ReadCleanReq => 20
  | ReadSharedReq => 21 | LoadLockedReq => 22 | StoreCondReq => 23
  | StoreCondFailReq => 24 | StoreCondResp => 25 | SwapReq => 26 | SwapResp => 27
  | MessageReq => 28 | MessageResp => 29 | ReleaseReq => 30 | ReleaseResp => 31
  | AcquireReq => 32 | AcquireResp => 33 | InvalidDestError => 34 | BadAddressError => 35
  | FunctionalReadError => 36 | FunctionalWriteError => 37 | PrintReq => 38
  | FlushReq => 39 | InvalidateReq => 40 | InvalidateResp => 41
  end%nat.

Definition info (c : Command) : CommandInfo :=
  nth (toInt c) commandInfo (mkInfo [] InvalidCmd "").

Definition testCmdAttrib (c : Command) (a : Attribute) : bool :=
  bool_decide (a ∈ attributes (info c)).

Definition isRead c := testCmdAttrib c IsRead.
Definition isWrite c := testCmdAttrib c IsWrite.
Definition isUpgrade c := testCmdAttrib c IsUpgrade.
Definition isRequest c := testCmdAttrib c IsRequest.
Definition isResponse c := testCmdAttrib c IsResponse.
Definition needsExclusive c := testCmdAttrib c NeedsExclusive.
Definition needsResponse c := testCmdAttrib c NeedsResponse.
Definition isInvalidate c := testCmdAttrib c IsInvalidate.
Definition hasData c := testCmdAttrib c HasData.
Definition isLLSC c := testCmdAttrib c IsLlsc.
Definition isSWPrefetch c := testCmdAttrib c IsSWPrefetch.
Definition isHWPrefetch c := testCmdAttrib c IsHWPrefetch.
Definition isPrefetch c := testCmdAttrib c IsSWPrefetch || testCmdAttrib c IsHWPrefetch.
Definition isError c := testCmdAttrib c IsError.
Definition isPrint c := testCmdAttrib c IsPrint.
Definition isFlush c := testCmdAttrib c IsFlush.
Definition responseCommand (c : Command) : Command := response (info c).

End MemCmd.

Module Request.

(** [ROW_SIZE]: the bytes of a DRAM row a row operation works on. *)
Definition ROW_SIZE : Z := 8192.

Definition ARCH_BITS := 0x000000FF.
Definition INST_FETCH := 0x00000100.
Definition PHYSICAL := 0x00000200.
Definition UNCACHEABLE := 0x00000400.
Definition STRICT_ORDER := 0x00000800.
Definition MMAPPED_IPR := 0x00002000.
Definition PRIVILEGED := 0x00008000.
Definition CACHE_BLOCK_ZERO := 0x00010000.
Definition NO_ACCESS := 0x00080000.
Definition LOCKED_RMW := 0x00100000.
Definition LLSC := 0x00200000.
Definition MEM_SWAP := 0x00400000.
Definition MEM_SWAP_COND := 0x00800000.
Definition PREFETCH := 0x01000000.
Definition PF_EXCLUSIVE := 0x02000000.
Definition EVICT_NEXT := 0x04000000.
Definition GENERIC_IPR := 0x08000000.
Definition SECURE := 0x10000000.
Definition PT_WALK := 0x20000000.
Definition ROWOP := 0x40000000.
Definition STICKY_FLAGS := INST_FETCH.

Definition VALID_SIZE := 0x01.
Definition VALID_PADDR := 0x02.
Definition VALID_VADDR := 0x04.
Definition VALID_PC := 0x10.
Definition VALID_CONTEXT_ID := 0x20.
Definition VALID_THREAD_ID := 0x40.
Definition VALID_EXTRA_DATA := 0x80.
Definition STICKY_PRIVATE_FLAGS := Z.lor VALID_CONTEXT_ID VALID_THREAD_ID.

Definition invldMasterId : Z := 2 ^ 16 - 1.
(** [ContextSwitchTaskId::Unknown] *)
Definition UnknownTaskId : Z := 1024.

Inductive RowOp := ROWAND | ROWOR | ROWNOT | ROWXOR | ROWAP | ROWAAP | ROWLS | ROWRS.

#[global] Instance RowOp_eq_dec : EqDecision RowOp.
Proof. solve_decision. Defined.

Record RowOpPayload := mkPayload { op : RowOp; dest : Z; src1 : Z; src2 : Z }.

Record Request := mkRequest {
  _paddr : Z; _size : Z; _masterId : Z; _flags : Z; privateFlags : Z; _time : Z;
  _taskId : Z; _asid : Z; _vaddr : Z; _extraData : Z; _contextId : Z; _threadId : Z;
  _pc : Z; translateDelta : Z; accessDelta : Z; depth : Z;
}.

(** [Request()] *)
Definition Request_default : Request :=
  mkRequest 0 0 invldMasterId 0 0 0 UnknownTaskId 0 0 0 0 0 0 0 0 0.

Definition setPhys (r : Request) (paddr size flags mid time : Z) : Request :=
  mkRequest paddr size mid
    (Flags.set (Flags.clear 32 (_flags r) (wrap 32 (Z.lnot STICKY_FLAGS))) flags)
    (Flags.set (Flags.clear 8 (privateFlags r) (wrap 8 (Z.lnot STICKY_PRIVATE_FLAGS)))
       (Z.lor VALID_PADDR VALID_SIZE))
    time (_taskId r) (_asid r) (_vaddr r) (_extraData r) (_contextId r) (_threadId r)
    (_pc r) (translateDelta r) 0 0.

(** [Request(paddr, size, flags, mid)] at tick [now], and with a given time. *)
Definition Request_phys (now paddr size flags mid : Z) : Request :=
  setPhys Request_default paddr size flags mid now.

Definition setPC (r : Request) (pc : Z) : Request :=
  mkRequest (_paddr r) (_size r) (_masterId r) (_flags r)
    (Flags.set (privateFlags r) VALID_PC) (_time r) (_taskId r) (_asid r) (_vaddr r)
    (_extraData r) (_contextId r) (_threadId r) pc (translateDelta r) (accessDelta r) (depth r).

Definition setThreadContext (r : Request) (context_id tid : Z) : Request :=
  mkRequest (_paddr r) (_size r) (_masterId r) (_flags r)
    (Flags.set (privateFlags r) (Z.lor VALID_CONTEXT_ID VALID_THREAD_ID)) (_time r)
    (_taskId r) (_asid r) (_vaddr r) (_extraData r) context_id tid (_pc r)
    (translateDelta r) (accessDelta r) (depth r).

Definition setVirt (now : Z) (r : Request) (asid vaddr size flags mid pc : Z) : Request :=
  mkRequest (_paddr r) size mid
    (Flags.set (Flags.clear 32 (_flags r) (wrap 32 (Z.lnot STICKY_FLAGS))) flags)
    (Flags.set (Flags.clear 8 (privateFlags r) (wrap 8 (Z.lnot STICKY_PRIVATE_FLAGS)))
       (Z.lor (Z.lor VALID_VADDR VALID_SIZE) VALID_PC))
    now (_taskId r) asid vaddr (_extraData r) (_contextId r) (_threadId r) pc 0 0 0.

(** [Request(asid, vaddr, size, flags, mid, pc, cid, tid)] *)
Definition Request_virt (now asid vaddr size flags mid pc cid tid : Z) : Request :=
  setThreadContext (setVirt now Request_default asid vaddr size flags mid pc) cid tid.

Definition setPaddr (r : Request) (paddr : Z) : Request :=
  mkRequest paddr (_size r) (_masterId r) (_flags r)
    (Flags.set (privateFlags r) VALID_PADDR) (_time r) (_taskId r) (_asid r) (_vaddr r)
    (_extraData r) (_contextId r) (_threadId r) (_pc r) (translateDelta r) (accessDelta r)
    (depth r).

(** [r] with [_vaddr] and [_size] assigned, as the splitting code does. *)
Definition with_vaddr (r : Request) (vaddr size : Z) : Request :=
  mkRequest (_paddr r) size (_masterId r) (_flags r) (privateFlags r) (_time r)
    (_taskId r) (_asid r) vaddr (_extraData r) (_contextId r) (_threadId r) (_pc r)
    (translateDelta r) (accessDelta r) (depth r).

Definition splitOnVaddr (r : Request) (split_addr : Z) : res (Request * Request) :=
  assert_ (Flags.isSet (privateFlags r) VALID_VADDR);;
  assert_ (Flags.noneSet (privateFlags r) VALID_PADDR);;
  assert_ ((_vaddr r <? split_addr) && (split_addr <? add64 (_vaddr r) (_size r)));;
  let size1 := u32 (split_addr - _vaddr r) in
  mret (with_vaddr r (_vaddr r) size1,
        with_vaddr r split_addr (u32 (_size r - size1))).

(** [splitRowOp]: one request per operand, [NULL] where the operation has no
    such operand. *)
Definition splitRowOp (r : Request) (addrs : RowOpPayload) :
    res (Request * option Request * option Request) :=
  assert_ (Flags.isSet (privateFlags r) VALID_VADDR);;
  assert_ (Flags.noneSet (privateFlags r) VALID_PADDR);;
  let req_dest := with_vaddr r (dest addrs) (_size r) in
  let req_src1 :=
    if bool_decide (op addrs = ROWAP) then None
    else Some (with_vaddr r (src1 addrs) (_size r)) in
  let req_src2 :=
    if bool_decide (op addrs = ROWNOT) || bool_decide (op addrs = ROWAP)
       || bool_decide (op addrs = ROWAAP) || bool_decide (op addrs = ROWLS)
       || bool_decide (op addrs = ROWRS)
    then None
    else Some (with_vaddr r (src2 addrs) (_size r)) in
  mret (req_dest, req_src1, req_src2).

Definition hasPaddr (r : Request) : bool := Flags.isSet (privateFlags r) VALID_PADDR.
Definition getPaddr (r : Request) : res Z :=
  assert_ (Flags.isSet (privateFlags r) VALID_PADDR);; mret (_paddr r).
Definition hasSize (r : Request) : bool := Flags.isSet (privateFlags r) VALID_SIZE.
Definition getSize (r : Request) : res Z :=
  assert_ (Flags.isSet (privateFlags r) VALID_SIZE);; mret (_size r).
Definition getFlags (r : Request) : res Z :=
  assert_ (Flags.isSet (privateFlags r) (Z.lor VALID_PADDR VALID_VADDR));; mret (_flags r).

Definition set_flags (r : Request) (flags : Z) : Request :=
  mkRequest (_paddr r) (_size r) (_masterId r) flags (privateFlags r) (_time r)
    (_taskId r) (_asid r) (_vaddr r) (_extraData r) (_contextId r) (_threadId r) (_pc r)
    (translateDelta r) (accessDelta r) (depth r).

(** [setFlags] ORs its argument in. *)
Definition setFlags (r : Request) (flags : Z) : res Request :=
  assert_ (Flags.isSet (privateFlags r) (Z.lor VALID_PADDR VALID_VADDR));;
  mret (set_flags r (Flags.set (_flags r) flags)).

Definition hasVaddr (r : Request) : bool := Flags.isSet (privateFlags r) VALID_VADDR.
Definition getVaddr (r : Request) : res Z :=
  assert_ (Flags.isSet (privateFlags r) VALID_VADDR);; mret (_vaddr r).

Definition extraDataValid (r : Request) : bool := Flags.isSet (privateFlags r) VALID_EXTRA_DATA.
Definition getExtraData (r : Request) : res Z :=
  assert_ (Flags.isSet (privateFlags r) VALID_EXTRA_DATA);; mret (_extraData r).
Definition setExtraData (r : Request) (extraData : Z) : Request :=
  mkRequest (_paddr r) (_size r) (_masterId r) (_flags r)
    (Flags.set (privateFlags r) VALID_EXTRA_DATA) (_time r) (_taskId r) (_asid r) (_vaddr r)
    extraData (_contextId r) (_threadId r) (_pc r) (translateDelta r) (accessDelta r) (depth r).

Definition hasContextId (r : Request) : bool := Flags.isSet (privateFlags r) VALID_CONTEXT_ID.
Definition contextId (r : Request) : res Z :=
  assert_ (Flags.isSet (privateFlags r) VALID_CONTEXT_ID);; mret (_contextId r).

Definition isUncacheable (r : Request) : bool := Flags.isSet (_flags r) UNCACHEABLE.
Definition isStrictlyOrdered (r : Request) : bool := Flags.isSet (_flags r) STRICT_ORDER.
Definition isInstFetch (r : Request) : bool := Flags.isSet (_flags r) INST_FETCH.
Definition isPrefetch (r : Request) : bool := Flags.isSet (_flags r) PREFETCH.
Definition isLLSC (r : Request) : bool := Flags.isSet (_flags r) LLSC.
Definition isPriv (r : Request) : bool := Flags.isSet (_flags r) PRIVILEGED.
Definition isLockedRMW (r : Request) : bool := Flags.isSet (_flags r) LOCKED_RMW.
Definition isSwap (r : Request) : bool := Flags.isSet (_flags r) (Z.lor MEM_SWAP MEM_SWAP_COND).
Definition isCondSwap (r : Request) : bool := Flags.isSet (_flags r) MEM_SWAP_COND.
Definition isMmappedIpr (r : Request) : bool := Flags.isSet (_flags r) MMAPPED_IPR.
Definition isSecure (r : Request) : bool := Flags.isSet (_flags r) SECURE.
Definition isPTWalk (r : Request) : bool := Flags.isSet (_flags r) PT_WALK.
Definition isRowOp (r : Request) : bool := Flags.isSet (_flags r) ROWOP.

End Request.
Import Request.

(** [memcpy(dst + doff, src + soff, n)] on byte arrays: the new contents of
    [dst]; undefined if either range leaves its array. *)
Definition memcpy {A} (dst : list A) (doff : Z) (src : list A) (soff n : Z) : res (list A) :=
  if decide (0 ≤ doff ∧ 0 ≤ soff ∧ 0 ≤ n ∧ doff + n ≤ Z.of_nat (length dst)
             ∧ soff + n ≤ Z.of_nat (length src)) then
    Ok (take (Z.to_nat doff) dst ++ take (Z.to_nat n) (drop (Z.to_nat soff) src)
        ++ drop (Z.to_nat (doff + n)) dst)
  else Err UB.

(** Conversion of a 64-bit value to [int]. *)
Definition s32 (x : Z) : Z := (x + 2 ^ 31) mod 2 ^ 32 - 2 ^ 31.

Module Packet.

Definition COPY_FLAGS := 0x0000000F.
Definition SHARED := 0x00000001.
Definition EXPRESS_SNOOP := 0x00000002.
Definition SUPPLY_EXCLUSIVE := 0x00000004.
Definition MEM_INHIBIT := 0x00000008.
Definition VALID_ADDR := 0x00000100.
Definition VALID_SIZE := 0x00000200.
Definition STATIC_DATA := 0x00001000.
Definition DYNAMIC_DATA := 0x00002000.
Definition SUPPRESS_FUNC_ERROR := 0x00008000.
Definition BLOCK_CACHED := 0x00010000.

(** The packet, with the request it points to and the contents of its data
    array; the sender-state stack is the list of its entries, top first. *)
Record Packet := mkPacket {
  flags : Z; cmd : MemCmd.Command; req : Request; data : option (list Z);
  addr : Z; _isSecure : bool; size : Z; bytesValid : list bool;
  headerDelay : Z; snoopDelay : Z; payloadDelay : Z; senderState : list Z;
}.

Definition with_flags (p : Packet) (f : Z) : Packet :=
  mkPacket f (cmd p) (req p) (data p) (addr p) (_isSecure p) (size p) (bytesValid p)
    (headerDelay p) (snoopDelay p) (payloadDelay p) (senderState p).
Definition with_cmd (p : Packet) (c : MemCmd.Command) : Packet :=
  mkPacket (flags p) c (req p) (data p) (addr p) (_isSecure p) (size p) (bytesValid p)
    (headerDelay p) (snoopDelay p) (payloadDelay p) (senderState p).
Definition with_req (p : Packet) (r : Request) : Packet :=
  mkPacket (flags p) (cmd p) r (data p) (addr p) (_isSecure p) (size p) (bytesValid p)
    (headerDelay p) (snoopDelay p) (payloadDelay p) (senderState p).
Definition with_data (p : Packet) (d : option (list Z)) : Packet :=
  mkPacket (flags p) (cmd p) (req p) d (addr p) (_isSecure p) (size p) (bytesValid p)
    (headerDelay p) (snoopDelay p) (payloadDelay p) (senderState p).
Definition with_bytesValid (p : Packet) (v : list bool) : Packet :=
  mkPacket (flags p) (cmd p) (req p) (data p) (addr p) (_isSecure p) (size p) v
    (headerDelay p) (snoopDelay p) (payloadDelay p) (senderState p).
Definition with_delays (p : Packet) (h pl : Z) : Packet :=
  mkPacket (flags p) (cmd p) (req p) (data p) (addr p) (_isSecure p) (size p) (bytesValid p)
    h (snoopDelay p) pl (senderState p).
Definition with_senderState (p : Packet) (s : list Z) : Packet :=
  mkPacket (flags p) (cmd p) (req p) (data p) (addr p) (_isSecure p) (size p) (bytesValid p)
    (headerDelay p) (snoopDelay p) (payloadDelay p) s.

Definition isRead (p : Packet) : bool := MemCmd.isRead (cmd p).
Definition isWrite (p : Packet) : bool := MemCmd.isWrite (cmd p).
Definition isRequest (p : Packet) : bool := MemCmd.isRequest (cmd p).
Definition isResponse (p : Packet) : bool := MemCmd.isResponse (cmd p).
Definition needsResponse (p : Packet) : bool := MemCmd.needsResponse (cmd p).
Definition isInvalidate (p : Packet) : bool := MemCmd.isInvalidate (cmd p).
Definition hasData (p : Packet) : bool := MemCmd.hasData (cmd p).
Definition isLLSC (p : Packet) : bool := MemCmd.isLLSC (cmd p).
Definition isError (p : Packet) : bool := MemCmd.isError (cmd p).
Definition isPrint (p : Packet) : bool := MemCmd.isPrint (cmd p).
Definition isFlush (p : Packet) : bool := MemCmd.isFlush (cmd p).
Definition isRowOp (p : Packet) : bool := Request.isRowOp (req p).

Definition assertMemInhibit (p : Packet) : res Packet :=
  assert_ (isRequest p);;
  assert_ (negb (Flags.isSet (flags p) MEM_INHIBIT));;
  mret (with_flags p (Flags.set (flags p) MEM_INHIBIT)).
Definition memInhibitAsserted (p : Packet) : bool := Flags.isSet (flags p) MEM_INHIBIT.
Definition assertShared (p : Packet) : Packet := with_flags p (Flags.set (flags p) SHARED).
Definition sharedAsserted (p : Packet) : bool := Flags.isSet (flags p) SHARED.
Definition setExpressSnoop (p : Packet) : Packet :=
  with_flags p (Flags.set (flags p) EXPRESS_SNOOP).
Definition isExpressSnoop (p : Packet) : bool := Flags.isSet (flags p) EXPRESS_SNOOP.

Definition setBadAddress (p : Packet) : res Packet :=
  assert_ (isResponse p);; mret (with_cmd p MemCmd.BadAddressError).

Definition copyError (p pkt : Packet) : res Packet :=
  assert_ (isError pkt);; mret (with_cmd p (cmd pkt)).

Definition getAddr (p : Packet) : res Z :=
  assert_ (Flags.isSet (flags p) VALID_ADDR);; mret (addr p).
Definition getSize (p : Packet) : res Z :=
  assert_ (Flags.isSet (flags p) VALID_SIZE);; mret (size p).
Definition isSecure (p : Packet) : res bool :=
  assert_ (Flags.isSet (flags p) VALID_ADDR);; mret (_isSecure p).

Definition getOffset (p : Packet) (blk_size : Z) : res Z :=
  a ← getAddr p; mret (Z.land a (u32 (blk_size - 1))).
Definition getBlockAddr (p : Packet) (blk_size : Z) : res Z :=
  a ← getAddr p; mret (Z.land a (not64 (u32 (blk_size - 1)))).

Definition convertScToWrite (p : Packet) : res Packet :=
  assert_ (isLLSC p);; assert_ (isWrite p);; mret (with_cmd p MemCmd.WriteReq).
Definition convertLlToRead (p : Packet) : res Packet :=
  assert_ (isLLSC p);; assert_ (isRead p);; mret (with_cmd p MemCmd.ReadReq).

(** [Packet(_req, _cmd)] *)
Definition new_Packet (r : Request) (c : MemCmd.Command) : Packet :=
  let '(a, sec, f) :=
    if hasPaddr r then (_paddr r, Request.isSecure r, VALID_ADDR) else (0, false, 0) in
  let '(sz, f) := if hasSize r then (_size r, Flags.set f VALID_SIZE) else (0, f) in
  mkPacket f c r None a sec sz [] 0 0 0 [].

(** [Packet(_req, _cmd, _blkSize)]; the mask is computed at width 32 and
    sign-extended. *)
Definition new_Packet_blk (r : Request) (c : MemCmd.Command) (blkSize : Z) : Packet :=
  let '(a, sec, f) :=
    if hasPaddr r then
      (Z.land (_paddr r) (u64 (Z.lnot (blkSize - 1))), Request.isSecure r, VALID_ADDR)
    else (0, false, 0) in
  mkPacket (Flags.set f VALID_SIZE) c r None a sec blkSize [] 0 0 0 [].

Definition makeReadCmd (r : Request) : MemCmd.Command :=
  if Request.isLLSC r then MemCmd.LoadLockedReq
  else if Request.isPrefetch r then MemCmd.SoftPFReq
  else MemCmd.ReadReq.

Definition makeWriteCmd (r : Request) : MemCmd.Command :=
  if Request.isLLSC r then MemCmd.StoreCondReq
  else if Request.isSwap r then MemCmd.SwapReq
  else MemCmd.WriteReq.

Definition createRead (r : Request) : Packet := new_Packet r (makeReadCmd r).
Definition createWrite (r : Request) : Packet := new_Packet r (makeWriteCmd r).

Definition makeResponse (p : Packet) : res Packet :=
  assert_ (needsResponse p);;
  assert_ (isRequest p);;
  let p := with_cmd p (MemCmd.responseCommand (cmd p)) in
  mret (with_flags p (Flags.clear 32 (flags p) EXPRESS_SNOOP)).

Definition setFunctionalResponseStatus (p : Packet) (success : bool) : Packet :=
  if negb success then
    if isWrite p then with_cmd p MemCmd.FunctionalWriteError
    else with_cmd p MemCmd.FunctionalReadError
  else p.

Definition dataStatic (p : Packet) (d : list Z) : res Packet :=
  assert_ (Flags.noneSet (flags p) (Z.lor STATIC_DATA DYNAMIC_DATA));;
  mret (with_flags (with_data p (Some d)) (Flags.set (flags p) STATIC_DATA)).

Definition dataDynamic (p : Packet) (d : list Z) : res Packet :=
  assert_ (Flags.noneSet (flags p) (Z.lor STATIC_DATA DYNAMIC_DATA));;
  mret (with_flags (with_data p (Some d)) (Flags.set (flags p) DYNAMIC_DATA)).

(** [getPtr<uint8_t>()]: the data array; a null pointer is not usable. *)
Definition getPtr (p : Packet) : res (list Z) :=
  assert_ (Flags.isSet (flags p) (Z.lor STATIC_DATA DYNAMIC_DATA));;
  match data p with Some d => mret d | None => Err UB end.

(** [setData] from an array that is not the packet's own, and [writeData]. *)
Definition setData (p : Packet) (src : list Z) : res Packet :=
  d ← getPtr p; n ← getSize p; d' ← memcpy d 0 src 0 n; mret (with_data p (Some d')).
Definition writeData (p : Packet) (dst : list Z) : res (list Z) :=
  d ← getPtr p; n ← getSize p; memcpy dst 0 d 0 n.

Definition deleteData (p : Packet) : Packet :=
  with_data (with_flags p (Flags.clear 32 (flags p) (Z.lor STATIC_DATA DYNAMIC_DATA))) None.

Definition evictingBlock (p : Packet) : bool :=
  bool_decide (cmd p = MemCmd.Writeback) || bool_decide (cmd p = MemCmd.CleanEvict).
Definition mustCheckAbove (p : Packet) : bool :=
  bool_decide (cmd p = MemCmd.HardPFReq) || evictingBlock p.

Definition pushSenderState (p : Packet) (s : Z) : Packet :=
  with_senderState p (s :: senderState p).
Definition popSenderState (p : Packet) : res (Z * Packet) :=
  match senderState p with
  | [] => Err Assert
  | s :: st => mret (s, with_senderState p st)
  end.

(** Offsets and size of the copy for a partial overlap:
    [(func_offset, val_offset, overlap_size)]. *)
Definition partial_overlap (func_start func_end val_start val_end sz : Z) : res (Z * Z * Z) :=
  if (val_start <? func_start) && (val_end <=? func_end) then
    mret (0, s32 (func_start - val_start), s32 (val_end - func_start))
  else if (func_start <=? val_start) && (func_end <? val_end) then
    mret (s32 (val_start - func_start), 0, s32 (func_end - val_start))
  else if (func_start <=? val_start) && (val_end <=? func_end) then
    mret (s32 (val_start - func_start), 0, sz)
  else if (val_start <? func_start) && (func_end <? val_end) then
    mret (0, s32 (func_start - val_start), s32 (func_end - func_start))
  else Err Panic.

(** The [bytesValid] bookkeeping after a partial copy: the new vector and
    whether all bytes are valid. *)
Definition update_valid (valid : list bool) (func_offset overlap_size sz : Z) :
    list bool * bool :=
  let valid := if decide (valid = []) then replicate (Z.to_nat sz) false else valid in
  let before := forallb id (take (Z.to_nat func_offset) valid) in
  let valid' := take (Z.to_nat func_offset) valid
                ++ replicate (Z.to_nat overlap_size) true
                ++ drop (Z.to_nat (func_offset + overlap_size)) valid in
  (valid', before && forallb id (drop (Z.to_nat (func_offset + overlap_size)) valid')).

(** [checkFunctional(obj, addr, is_secure, size, _data)]: whether the request
    is satisfied, the packet afterwards, and the array [_data] afterwards.
    [printObj] only prints. *)
Definition checkFunctional (p : Packet) (val_addr : Z) (is_secure : bool) (sz : Z)
    (_data : option (list Z)) : res (bool * Packet * option (list Z)) :=
  func_start ← getAddr p;
  psize ← getSize p;
  let func_end := sub64 (add64 func_start psize) 1 in
  let val_start := val_addr in
  let val_end := sub64 (add64 val_start sz) 1 in
  if negb (Bool.eqb is_secure (_isSecure p)) || (val_end <? func_start)
     || (func_end <? val_start) then mret (false, p, _data)
  else if isPrint p then
    assert_ (match _data with None => true | Some _ => false end);;
    mret (false, p, _data)
  else match _data with
  | None => mret (false, p, _data)
  | Some d =>
      let offset := s32 (func_start - val_start) in
      if isRead p then
        if (val_start <=? func_start) && (func_end <=? val_end) then
          pd ← getPtr p;
          pd' ← memcpy pd 0 d offset psize;
          let p := with_data p (Some pd') in
          let p := if decide (bytesValid p = [])
                   then with_bytesValid p (replicate (Z.to_nat psize) true) else p in
          mret (true, p, _data)
        else
          '(func_offset, val_offset, overlap_size) ←
            partial_overlap func_start func_end val_start val_end sz;
          pd ← getPtr p;
          pd' ← memcpy pd func_offset d val_offset overlap_size;
          let p := with_data p (Some pd') in
          let '(valid', all_bytes_valid) :=
            update_valid (bytesValid p) func_offset overlap_size psize in
          mret (all_bytes_valid, with_bytesValid p valid', _data)
      else if isWrite p then
        pd ← getPtr p;
        if 0 <=? offset then
          d' ← memcpy d offset pd 0 (Z.min func_end val_end - func_start + 1);
          mret (false, p, Some d')
        else
          d' ← memcpy d 0 pd (- offset) (Z.min func_end val_end - val_start + 1);
          mret (false, p, Some d')
      else Err Panic
  end.

(** [checkFunctional(other)]: against another packet in transit. *)
Definition checkFunctional_pkt (p other : Packet) : res (bool * Packet * Packet) :=
  a ← getAddr other;
  sec ← isSecure other;
  n ← getSize other;
  d ← (if hasData other then Some <$> getPtr other else mret None);
  '(b, p', d') ← checkFunctional p a sec n d;
  mret (b, p', match d' with Some _ => with_data other d' | None => other end).

End Packet.
Import Packet.

(** ** Byte-array lemmas *)

Lemma s32_small x : - 2 ^ 31 ≤ x < 2 ^ 31 → s32 x = x.
Proof. intros. unfold s32. rewrite Z.mod_small; lia. Qed.

(** Replacing the [k] elements from position [o] by those of [mid]. *)
Lemma splice_lookup {A} (l mid : list A) (o k : Z) :
  0 ≤ o → 0 ≤ k → Z.of_nat (length mid) = k → o + k ≤ Z.of_nat (length l) →
  ∀ j, 0 ≤ j →
    (take (Z.to_nat o) l ++ mid ++ drop (Z.to_nat (o + k)) l) !! Z.to_nat j =
    if decide (o ≤ j < o + k) then mid !! Z.to_nat (j - o) else l !! Z.to_nat j.
Proof.
  intros ?? Hm ? j ?. case_decide.
  - rewrite lookup_app_r by (rewrite length_take; lia). rewrite length_take.
    rewrite lookup_app_l by lia. f_equal. lia.
  - destruct (decide (j < o)).
    + rewrite lookup_app_l by (rewrite length_take; lia). by rewrite lookup_take_lt by lia.
    + rewrite lookup_app_r by (rewrite length_take; lia).
      rewrite length_take, lookup_app_r, lookup_drop by lia. f_equal. lia.
Qed.

Lemma memcpy_ok {A} (dst src : list A) doff soff n :
  0 ≤ doff → 0 ≤ soff → 0 ≤ n →
  doff + n ≤ Z.of_nat (length dst) → soff + n ≤ Z.of_nat (length src) →
  ∃ r, memcpy dst doff src soff n = Ok r ∧ length r = length dst ∧
       ∀ j, 0 ≤ j →
         r !! Z.to_nat j = if decide (doff ≤ j < doff + n)
                           then src !! Z.to_nat (j - doff + soff) else dst !! Z.to_nat j.
Proof.
  intros. unfold memcpy. rewrite decide_True by lia. eexists. split; [done|].
  assert (length (take (Z.to_nat n) (drop (Z.to_nat soff) src)) = Z.to_nat n) as Hlen
    by (rewrite length_take, length_drop; lia).
  split; [rewrite !length_app, Hlen, length_take, length_drop; lia|].
  intros j ?. rewrite splice_lookup by lia. case_decide; [|done].
  rewrite lookup_take_lt, lookup_drop by lia. f_equal. lia.
Qed.

(** ** Responses *)

Ltac by_table := intros c; destruct c; vm_compute; intuition (try discriminate; try congruence).

Lemma response_table c :
  MemCmd.isRequest c = true → MemCmd.needsResponse c = true →
  let r := MemCmd.responseCommand c in
  MemCmd.isResponse r = true ∧ MemCmd.isRequest r = false ∧
  MemCmd.isRead r = MemCmd.isRead c ∧ MemCmd.isWrite r = MemCmd.isWrite c ∧
  MemCmd.hasData r = MemCmd.isRead c ∧ MemCmd.isError r = false.
Proof. revert c. by_table. Qed.

Lemma isSet_set f m1 m2 : Flags.isSet (Flags.set f m1) m2 = Flags.isSet f m2 || Flags.isSet m1 m2.
Proof.
  unfold Flags.isSet, Flags.set. rewrite Z.land_lor_distr_l, <- negb_andb. f_equal.
  apply eq_true_iff_eq. rewrite andb_true_iff, !Z.eqb_eq. apply Z.lor_eq_0_iff.
Qed.
Lemma isSet_clear_mask w f m1 m2 :
  Flags.isSet (Flags.clear w f m1) m2 = Flags.isSet f (Z.land (wrap w (Z.lnot m1)) m2).
Proof. unfold Flags.isSet, Flags.clear. by rewrite Z.land_assoc. Qed.

Lemma isSet_clear f m : Flags.isSet (Flags.clear 32 f m) m = false.
Proof.
  unfold Flags.isSet, Flags.clear. apply negb_false_iff, Z.eqb_eq. bitwise i.
  destruct (i <? 32), (Z.testbit f i), (Z.testbit m i); done.
Qed.

(** turning a request packet that needs a response into one never fails;
    the result is a response of the same direction, carries data exactly when
    the request was a read, is not an error and not an express snoop, and keeps
    the address, size and payload. *)
Theorem makeResponse_correct p :
  isRequest p = true → needsResponse p = true →
  ∃ p', makeResponse p = Ok p' ∧ isResponse p' = true ∧ isRequest p' = false ∧
    isRead p' = isRead p ∧ isWrite p' = isWrite p ∧ hasData p' = isRead p ∧
    isError p' = false ∧ isExpressSnoop p' = false ∧
    (addr p', size p', data p', req p') = (addr p, size p, data p, req p).
Proof.
  intros Hq Hn. unfold makeResponse. rewrite Hq, Hn.
  destruct (response_table (cmd p)) as (?&?&?&?&?&?); [done|done|].
  eexists. split; [reflexivity|]. repeat split; try done. apply isSet_clear.
Qed.

(** [AcquireResp] is the only response command of the attribute table that
    is itself marked as needing a response. *)
Theorem response_needing_response c :
  MemCmd.isResponse c = true ∧ MemCmd.needsResponse c = true ↔ c = MemCmd.AcquireResp.
Proof. revert c. by_table. Qed.

(** ** Functional accesses *)

(** A packet whose address, size and data array are set and consistent, and
    whose byte interval does not wrap around. *)
Record func_wf (p : Packet) (pd : list Z) : Prop := {
  fw_addr : Flags.isSet (flags p) VALID_ADDR = true;
  fw_size : Flags.isSet (flags p) VALID_SIZE = true;
  fw_ptr : Flags.isSet (flags p) (Z.lor STATIC_DATA DYNAMIC_DATA) = true;
  fw_data : data p = Some pd;
  fw_len : Z.of_nat (length pd) = size p;
  fw_range : 0 < size p < 2 ^ 31 ∧ 0 ≤ addr p ∧ addr p + size p < 2 ^ 64;
}.

(** A memory value at [va] of [sz] bytes. *)
Definition val_wf (va sz : Z) (d : list Z) : Prop :=
  0 < sz < 2 ^ 31 ∧ 0 ≤ va ∧ va + sz < 2 ^ 64 ∧ Z.of_nat (length d) = sz.

Lemma checkFunctional_unfold p pd va sz d :
  func_wf p pd → val_wf va sz d → isPrint p = false →
  checkFunctional p va (_isSecure p) sz (Some d) =
  (let fs := addr p in let fe := addr p + size p - 1 in
   let vs := va in let ve := va + sz - 1 in
   if (ve <? fs) || (fe <? vs) then Ok (false, p, Some d)
   else if isRead p then
     if (vs <=? fs) && (fe <=? ve) then
       pd' ← memcpy pd 0 d (fs - vs) (size p);
       let p := with_data p (Some pd') in
       Ok (true, if decide (bytesValid p = [])
                 then with_bytesValid p (replicate (Z.to_nat (size p)) true) else p, Some d)
     else
       '(fo, vo, n) ← partial_overlap fs fe vs ve sz;
       pd' ← memcpy pd fo d vo n;
       let '(valid', b) := update_valid (bytesValid p) fo n (size p) in
       Ok (b, with_bytesValid (with_data p (Some pd')) valid', Some d)
   else if isWrite p then
     if 0 <=? fs - vs then
       d' ← memcpy d (fs - vs) pd 0 (Z.min fe ve - fs + 1); Ok (false, p, Some d')
     else d' ← memcpy d 0 pd (vs - fs) (Z.min fe ve - vs + 1); Ok (false, p, Some d')
   else Err Panic).
Proof.
  intros [Ha Hs Hp Hd Hl (?&?&?)] (?&?&?&?) Hpr. unfold checkFunctional, getAddr, getSize, getPtr.
  rewrite Ha, Hs, Hp, Hd, Hpr, eqb_reflx. simpl. nowrap.
  destruct ((va + sz - 1 <? addr p) || (addr p + size p - 1 <? va)) eqn:Hov; [done|].
  rewrite orb_false_iff, !Z.ltb_ge in Hov. rewrite s32_small by lia.
  by replace (- (addr p - va)) with (va - addr p) by lia.
Qed.

(** a functional write patches a buffered value exactly where the two byte
    intervals overlap: afterwards every address of the value holds the packet's
    byte if the packet covers it and the old byte otherwise, in every overlap
    case, and the packet itself is unchanged and still to be propagated. *)
Theorem checkFunctional_write_patches p pd va sz d :
  func_wf p pd → val_wf va sz d →
  isPrint p = false → isRead p = false → isWrite p = true →
  ∃ d', checkFunctional p va (_isSecure p) sz (Some d) = Ok (false, p, Some d') ∧
    length d' = length d ∧
    ∀ a, va ≤ a < va + sz →
      d' !! Z.to_nat (a - va) =
      if decide (addr p ≤ a < addr p + size p)
      then pd !! Z.to_nat (a - addr p) else d !! Z.to_nat (a - va).
Proof.
  intros Hp Hv Hpr Hr Hw. rewrite (checkFunctional_unfold p pd) by done. cbv zeta.
  destruct Hp as [_ _ _ _ Hl (?&?&?)], Hv as (?&?&?&Hdl). rewrite Hr, Hw.
  destruct (_ || _) eqn:Hov.
  { rewrite orb_true_iff, !Z.ltb_lt in Hov. eexists. split; [done|]. split; [done|].
    intros a ?. rewrite decide_False by lia. done. }
  rewrite orb_false_iff, !Z.ltb_ge in Hov. destruct (Z.leb_spec 0 (addr p - va)).
  - destruct (memcpy_ok d pd (addr p - va) 0
      (Z.min (addr p + size p - 1) (va + sz - 1) - addr p + 1)) as (d' & -> & ? & Hd');
      [lia..|]. exists d'. split; [done|]. split; [done|]. intros a ?.
    rewrite Hd' by lia. repeat case_decide; try lia; [|done]. f_equal. lia.
  - destruct (memcpy_ok d pd 0 (va - addr p)
      (Z.min (addr p + size p - 1) (va + sz - 1) - va + 1)) as (d' & -> & ? & Hd');
      [lia..|]. exists d'. split; [done|]. split; [done|]. intros a ?.
    rewrite Hd' by lia. repeat case_decide; try lia; [|done]. f_equal. lia.
Qed.

(** The offsets of a partial overlap stay inside both arrays. *)
Lemma partial_overlap_bounds fs n vs m fo vo k :
  0 < n < 2 ^ 31 → 0 < m < 2 ^ 31 → fs ≤ vs + m - 1 → vs ≤ fs + n - 1 →
  partial_overlap fs (fs + n - 1) vs (vs + m - 1) m = Ok (fo, vo, k) →
  0 ≤ fo ∧ 0 ≤ vo ∧ 0 ≤ k ∧ fo + k ≤ n ∧ vo + k ≤ m ∧ fo + fs = vo + vs.
Proof.
  intros ???? H. unfold partial_overlap, mret, res_mret in H.
  repeat case_match; rewrite ?andb_true_iff, ?andb_false_iff, ?Z.ltb_lt, ?Z.ltb_ge, ?Z.leb_le,
    ?Z.leb_gt in *; simplify_eq; rewrite ?s32_small by lia; lia.
Qed.

Lemma update_valid_lookup valid fo k n valid' b :
  0 ≤ fo → 0 ≤ k → fo + k ≤ n → (valid = [] ∨ Z.of_nat (length valid) = n) →
  update_valid valid fo k n = (valid', b) →
  (∀ j, 0 ≤ j < n → valid' !! Z.to_nat j =
     if decide (fo ≤ j < fo + k) then Some true
     else if decide (valid = []) then Some false else valid !! Z.to_nat j) ∧
  (b = true → ∀ j, 0 ≤ j < n → ¬ fo ≤ j < fo + k → valid !! Z.to_nat j = Some true).
Proof.
  intros ??? Hlen H. unfold update_valid in H.
  assert (∀ j, 0 ≤ j < n → (if decide (valid = []) then replicate (Z.to_nat n) false else valid)
    !! Z.to_nat j = if decide (valid = []) then Some false else valid !! Z.to_nat j) as Hlook.
  { intros j ?. case_decide; [|done]. apply lookup_replicate. split; [done|lia]. }
  revert H Hlook. set (v := if decide (valid = []) then _ else _). intros H Hlook.
  assert (Z.of_nat (length v) = n) as Hv.
  { unfold v. case_decide; [rewrite length_replicate; lia|]. by destruct Hlen. }
  clearbody v. injection H as <- <-.
  pose proof (splice_lookup v (replicate (Z.to_nat k) true) fo k) as Hs.
  rewrite length_replicate in Hs. split.
  - intros j ?. rewrite Hs, <- Hlook by lia. destruct (decide (fo ≤ j < fo + k)); [|done].
    apply lookup_replicate. split; [done|lia].
  - rewrite andb_true_iff, !forallb_forall. setoid_rewrite <- list_elem_of_In.
    intros [Hb Ha] j ? Hj. destruct (lookup_lt_is_Some_2 v (Z.to_nat j)) as [x Hx]; [lia|].
    assert (x = true) as ->.
    { destruct (decide (j < fo)).
      - apply Hb, (list_elem_of_lookup_2 _ (Z.to_nat j)). by rewrite lookup_take_lt by lia.
      - apply Ha, (list_elem_of_lookup_2 _ (Z.to_nat (j - (fo + k)))). rewrite lookup_drop.
        replace (Z.to_nat (fo + k) + _)%nat with (Z.to_nat j) by lia.
        by rewrite Hs, decide_False by lia. }
    rewrite Hlook in Hx by done. by case_decide.
Qed.

(** a functional read that reports completion has every byte either taken
    from the overlapping value, or already marked valid before and unchanged:
    no stale byte is ever reported as read. *)
Theorem checkFunctional_read_sound p pd va sz d p' d' :
  func_wf p pd → val_wf va sz d → isPrint p = false → isRead p = true →
  (bytesValid p = [] ∨ Z.of_nat (length (bytesValid p)) = size p) →
  checkFunctional p va (_isSecure p) sz (Some d) = Ok (true, p', d') →
  d' = Some d ∧ ∃ pd', data p' = Some pd' ∧ length pd' = length pd ∧
    ∀ j, 0 ≤ j < size p →
      (va ≤ addr p + j < va + sz ∧ pd' !! Z.to_nat j = d !! Z.to_nat (addr p + j - va)) ∨
      (bytesValid p !! Z.to_nat j = Some true ∧ pd' !! Z.to_nat j = pd !! Z.to_nat j).
Proof.
  intros Hp Hv Hpr Hr Hbv H. rewrite (checkFunctional_unfold p pd) in H by done.
  cbv zeta in H. destruct Hp as [_ _ _ _ Hl (?&?&?)], Hv as (?&?&?&Hdl). rewrite Hr in H.
  destruct (_ || _) eqn:Hov; [done|]. rewrite orb_false_iff, !Z.ltb_ge in Hov.
  destruct (_ && _) eqn:Hfull.
  - rewrite andb_true_iff, !Z.leb_le in Hfull.
    destruct (memcpy_ok pd d 0 (addr p - va) (size p)) as (pd' & Hm & ? & Hlook); [lia..|].
    rewrite Hm in H. simpl in H. injection H as <- <-. split; [done|]. exists pd'.
    split; [by case_decide|]. split; [done|]. intros j ?. left. split; [lia|].
    rewrite Hlook, decide_True by lia. f_equal. lia.
  - destruct (partial_overlap _ _ _ _ _) as [[[fo vo] k]|] eqn:Hpo; [|done].
    cbv [mbind res_mbind] in H.
    apply partial_overlap_bounds in Hpo as (?&?&?&?&?&?); [|lia..].
    destruct (memcpy_ok pd d fo vo k) as (pd' & Hm & ? & Hlook); [lia..|].
    rewrite Hm in H. destruct (update_valid _ _ _ _) as [v b] eqn:Hu.
    apply update_valid_lookup in Hu as [_ Hall]; [|done..].
    injection H as -> <- <-. split; [done|]. exists pd'. do 2 (split; [done|]).
    intros j ?. rewrite Hlook by lia. case_decide.
    + left. split; [lia|]. f_equal. lia.
    + right. split; [by apply Hall|done].
Qed.

(** when a buffered value starts before a functional read and ends inside
    it, the copy length leaves out the last overlapping byte: that byte of the
    packet keeps its old contents whatever the value holds, is not marked
    valid, and the read is not reported as complete. *)
Theorem checkFunctional_partial_drops_last p pd va sz d :
  func_wf p pd → val_wf va sz d → isPrint p = false → isRead p = true →
  bytesValid p = [] →
  va < addr p → addr p ≤ va + sz - 1 < addr p + size p - 1 →
  let last := Z.to_nat (va + sz - 1 - addr p) in
  ∃ p' pd', checkFunctional p va (_isSecure p) sz (Some d) = Ok (false, p', Some d) ∧
    data p' = Some pd' ∧ pd' !! last = pd !! last ∧ bytesValid p' !! last = Some false.
Proof.
  intros Hp Hv Hpr Hr Hbv Hs He last. rewrite (checkFunctional_unfold p pd) by done.
  cbv zeta. destruct Hp as [_ _ _ _ Hl (?&?&?)], Hv as (?&?&?&Hdl). rewrite Hr.
  rewrite (proj2 (Z.ltb_ge _ _)), (proj2 (Z.ltb_ge _ _)) by lia. cbn [orb].
  rewrite (proj2 (Z.leb_gt (addr p + size p - 1) _)), andb_false_r by lia.
  unfold partial_overlap. rewrite (proj2 (Z.ltb_lt va _)), (proj2 (Z.leb_le (va + sz - 1) _)) by lia.
  cbv [mbind res_mbind mret res_mret andb]. rewrite !s32_small by lia.
  destruct (memcpy_ok pd d 0 (addr p - va) (va + sz - 1 - addr p)) as (pd' & -> & ? & Hlook); [lia..|].
  destruct (update_valid _ _ _ _) as [v b] eqn:Hu.
  apply update_valid_lookup in Hu as [Hval Hall]; [|lia..|by left]. rewrite Hbv in *.
  exists (with_bytesValid (with_data p (Some pd')) v), pd'. split.
  - destruct b; [|done].
    by specialize (Hall eq_refl (va + sz - 1 - addr p) ltac:(lia) ltac:(lia)).
  - split; [done|]. unfold last. rewrite Hlook, decide_False by lia.
    split; [done|]. simpl. by rewrite Hval, decide_False by lia.
Qed.

(** ** Witnesses *)

(** A four-byte packet at [0x100] with a static payload. *)
Definition ex_pkt (c : MemCmd.Command) (d : list Z) : Packet :=
  with_flags (with_data (new_Packet (Request_phys 0 0x100 4 0 0) c) (Some d))
    (Flags.set (Flags.set VALID_ADDR VALID_SIZE) STATIC_DATA).

Lemma ex_pkt_wf c d : length d = 4%nat → func_wf (ex_pkt c d) d.
Proof. intros Hd. split; try done. by rewrite Hd. Qed.

Lemma makeResponse_correct_witness :
  ∃ p', makeResponse (ex_pkt MemCmd.WriteReq [1; 2; 3; 4]) = Ok p' ∧
    cmd p' = MemCmd.WriteResp.
Proof.
  destruct (makeResponse_correct (ex_pkt MemCmd.WriteReq [1; 2; 3; 4])) as (p' & H & _);
    [reflexivity..|].
  exists p'. split; [exact H|]. vm_compute in H. by injection H as <-.
Defined.

Lemma checkFunctional_write_patches_witness :
  ∃ d', checkFunctional (ex_pkt MemCmd.WriteReq [1; 2; 3; 4]) 0xfe false 4 (Some [9; 9; 9; 9])
        = Ok (false, ex_pkt MemCmd.WriteReq [1; 2; 3; 4], Some d') ∧ d' = [9; 9; 1; 2].
Proof.
  destruct (checkFunctional_write_patches (ex_pkt MemCmd.WriteReq [1; 2; 3; 4]) [1; 2; 3; 4]
    0xfe 4 [9; 9; 9; 9]) as (d' & H & _); [by apply ex_pkt_wf|by unfold val_wf; simpl; lia|reflexivity..|].
  exists d'. split; [exact H|]. vm_compute in H. by injection H as <-.
Defined.

Lemma checkFunctional_read_sound_witness :
  ∃ pd', data (with_bytesValid (ex_pkt MemCmd.ReadReq [7; 8; 9; 6]) [true; true; true; true])
           = Some pd' ∧ length pd' = 4%nat.
Proof.
  destruct (checkFunctional_read_sound (ex_pkt MemCmd.ReadReq [0; 0; 0; 0]) [0; 0; 0; 0]
    0xff 6 [5; 7; 8; 9; 6; 4]
    (with_bytesValid (ex_pkt MemCmd.ReadReq [7; 8; 9; 6]) [true; true; true; true])
    (Some [5; 7; 8; 9; 6; 4])) as [_ (pd' & H1 & H2 & _)];
    [by apply ex_pkt_wf|by unfold val_wf; simpl; lia|reflexivity|reflexivity|by left|
     vm_compute; reflexivity|].
  by exists pd'.
Defined.

Lemma checkFunctional_partial_drops_last_witness :
  ∃ p' pd', checkFunctional (ex_pkt MemCmd.ReadReq [0; 0; 0; 0]) 0xfe false 4 (Some [9; 9; 9; 9])
            = Ok (false, p', Some [9; 9; 9; 9]) ∧ data p' = Some pd' ∧ pd' = [9; 0; 0; 0].
Proof.
  destruct (checkFunctional_partial_drops_last (ex_pkt MemCmd.ReadReq [0; 0; 0; 0]) [0; 0; 0; 0]
    0xfe 4 [9; 9; 9; 9]) as (p' & pd' & H1 & H2 & _);
    [by apply ex_pkt_wf|by unfold val_wf; simpl; lia|reflexivity|reflexivity|reflexivity|reflexivity|by simpl; lia|].
  exists p', pd'. split; [exact H1|]. split; [exact H2|].
  vm_compute in H1. injection H1 as <-. by injection H2 as <-.
Defined.
