(* ===== verification/AbstractMem.v ===== *)
(** * The abstract memory (mem/abstract_mem.hh, mem/abstract_mem.cc)

    The backing store behind every memory controller: plain, atomic-swap and
    LL/SC accesses, and the bulk row operations (AND, OR, NOT, XOR, copy,
    shift left, shift right) that are performed in place on the store. *)

From stdpp Require Import base gmap list list_numbers strings.
From S2P Require Import Prelude IntMath AddrRanges Packets.
Import Request Packet.
Local Open Scope Z_scope.

(** ** Host memory

    The host segment [pmemAddr] points to: the bytes that exist, by their
    offset from [pmemAddr].  Reading or writing a byte that does not exist is
    undefined behaviour.  Words are little-endian, as on the x86 host. *)

Abbreviation hostmem := (gmap Z Z).

Module HostMem.

Definition get8 (m : hostmem) (a : Z) : res Z :=
  match m !! a with Some b => Ok b | None => Err UB end.

Fixpoint load_bytes (n : nat) (m : hostmem) (a : Z) : res (list Z) :=
  match n with
  | O => mret []
  | S n => b ← get8 m a; bs ← load_bytes n m (a + 1); mret (b :: bs)
  end.

Fixpoint store_bytes (m : hostmem) (a : Z) (bs : list Z) : res hostmem :=
  match bs with
  | [] => mret m
  | b :: bs => _ ← get8 m a; store_bytes (<[a := b]> m) (a + 1) bs
  end.

(** [*(uint64_t* )p] and [*(uint64_t* )p = v]. *)
Definition load64 (m : hostmem) (a : Z) : res Z :=
  bs ← load_bytes 8 m a; mret (little_endian_to_Z 8 bs).
Definition store64 (m : hostmem) (a v : Z) : res hostmem :=
  store_bytes m a (Z_to_little_endian 8 8 v).

End HostMem.
Import HostMem.

(** ** Row operations *)

Module RowOps.

(** [sizeof(uint64_t)] words of a row. *)
Definition row_words : nat := Z.to_nat (ROW_SIZE / 8).

(** [for (i = 0; i < ROW_SIZE; i += 8) *dest++ = f( *src1++, *src2++ );] *)
Fixpoint row_binop (f : Z → Z → Z) (n : nat) (m : hostmem) (dst s1 s2 : Z) : res hostmem :=
  match n with
  | O => mret m
  | S n =>
      x ← load64 m s1;
      y ← load64 m s2;
      m ← store64 m dst (f x y);
      row_binop f n m (dst + 8) (s1 + 8) (s2 + 8)
  end.

(** The same loop with one source ([ROWNOT], [ROWAAP]). *)
Fixpoint row_unop (f : Z → Z) (n : nat) (m : hostmem) (dst s1 : Z) : res hostmem :=
  match n with
  | O => mret m
  | S n =>
      x ← load64 m s1;
      m ← store64 m dst (f x);
      row_unop f n m (dst + 8) (s1 + 8)
  end.

(** The loop of [ROWLS]: the source word is read again, after the destination
    word has been written, to compute the carry. *)
Fixpoint row_ls (n : nat) (m : hostmem) (dst s1 shift_last : Z) : res hostmem :=
  match n with
  | O => mret m
  | S n =>
      x ← load64 m s1;
      m ← store64 m dst (shl64 x 1);
      y ← load64 m dst;
      m ← store64 m dst (Z.lor (Z.land y 0xFFFFFFFFFFFFFFFE) shift_last);
      z ← load64 m s1;
      let shift_last := if negb (Z.shiftr z 63 =? 0) then 1 else 0 in
      row_ls n m (dst + 8) (s1 + 8) shift_last
  end.

(** The second loop of [ROWRS]; [dst] and [s1] point past the row and are
    decremented first. *)
Fixpoint row_rs (n : nat) (m : hostmem) (dst s1 shift_last : Z) : res hostmem :=
  match n with
  | O => mret m
  | S n =>
      let dst := dst - 8 in
      let s1 := s1 - 8 in
      x ← load64 m s1;
      m ← store64 m dst (Z.shiftr x 1);
      y ← load64 m dst;
      m ← store64 m dst (Z.lor (Z.land y 0x7FFFFFFFFFFFFFFF) (shl64 shift_last 63));
      z ← load64 m s1;
      let shift_last := if negb (Z.land z 1 =? 0) then 1 else 0 in
      row_rs n m dst s1 shift_last
  end.

(** The [switch (addrs->op)] of [AbstractMemory::access]; [dst], [s1] and [s2]
    are the operands' offsets into the host segment. *)
Definition do_rowop (o : RowOp) (m : hostmem) (dst s1 s2 : Z) : res hostmem :=
  match o with
  | ROWAND => row_binop Z.land row_words m dst s1 s2
  | ROWOR => row_binop Z.lor row_words m dst s1 s2
  | ROWNOT => row_unop not64 row_words m dst s1
  | ROWXOR => row_binop Z.lxor row_words m dst s1 s2
  | ROWAP => mret m
  | ROWAAP => row_unop (λ x, x) row_words m dst s1
  | ROWLS => row_ls row_words m dst s1 0
  | ROWRS => row_rs row_words m (dst + ROW_SIZE) (s1 + ROW_SIZE) 0
  end.

(** The numeric value of a row operation in the payload. *)
Definition RowOp_toZ (o : RowOp) : Z :=
  match o with
  | ROWAND => 0 | ROWOR => 1 | ROWNOT => 2 | ROWXOR => 3
  | ROWAP => 4 | ROWAAP => 5 | ROWLS => 6 | ROWRS => 7
  end.

Definition RowOp_ofZ (z : Z) : option RowOp :=
  if z =? 0 then Some ROWAND else if z =? 1 then Some ROWOR
  else if z =? 2 then Some ROWNOT else if z =? 3 then Some ROWXOR
  else if z =? 4 then Some ROWAP else if z =? 5 then Some ROWAAP
  else if z =? 6 then Some ROWLS else if z =? 7 then Some ROWRS else None.

(** The object representation of [struct RowOpPayload]: a 4-byte enum, 4 bytes
    of padding, three 8-byte addresses. *)
Definition payload_bytes (a : RowOpPayload) : list Z :=
  Z_to_little_endian 4 8 (RowOp_toZ (op a)) ++ [0; 0; 0; 0]
  ++ Z_to_little_endian 8 8 (dest a) ++ Z_to_little_endian 8 8 (src1 a)
  ++ Z_to_little_endian 8 8 (src2 a).

(** [getConstPtr<RowOpPayload>()]; an [op] outside the enum runs into the
    [assert(false)] of the [default:] case. *)
Definition payload_of (bs : list Z) : res RowOpPayload :=
  if decide (32 ≤ length bs)%nat then
    match RowOp_ofZ (little_endian_to_Z 8 (take 4 bs)) with
    | Some o => mret (mkPayload o
        (little_endian_to_Z 8 (take 8 (drop 8 bs)))
        (little_endian_to_Z 8 (take 8 (drop 16 bs)))
        (little_endian_to_Z 8 (take 8 (drop 24 bs))))
    | None => Err Assert
    end
  else Err UB.

End RowOps.
Import RowOps.

(** ** The memory object *)

Module AbstractMemory.

Record LockedAddr := mkLocked { laddr : Z; lcontext : Z }.

#[global] Instance LockedAddr_eq_dec : EqDecision LockedAddr.
Proof. solve_decision. Defined.

(** [LockedAddr::mask]: 16-byte granularity. *)
Definition lmask (paddr : Z) : Z := Z.land paddr (not64 0xf).

(** The per-master [Stats::Vector]s. *)
Record MemStats := mkStats {
  bytesRead : gmap Z Z; bytesInstRead : gmap Z Z; bytesWritten : gmap Z Z;
  numReads : gmap Z Z; numWrites : gmap Z Z; numOther : gmap Z Z;
}.

(** [v[i] += n] on a statistics vector. *)
Definition bump (v : gmap Z Z) (i n : Z) : gmap Z Z := <[i := default 0 (v !! i) + n]> v.

(** The object; [pmem] is [None] for a null backing store, and [wakeups] is
    the sequence of contexts whose CPU [wakeup()] has been called for. *)
Record Memory := mkMemory {
  range : AddrRange.AddrRange;
  pmem : option hostmem;
  lockedAddrList : list LockedAddr;
  stats : MemStats;
  wakeups : list Z;
}.

Definition with_pmem (s : Memory) (m : option hostmem) : Memory :=
  mkMemory (range s) m (lockedAddrList s) (stats s) (wakeups s).
Definition with_locked (s : Memory) (l : list LockedAddr) : Memory :=
  mkMemory (range s) (pmem s) l (stats s) (wakeups s).
Definition with_stats (s : Memory) (st : MemStats) : Memory :=
  mkMemory (range s) (pmem s) (lockedAddrList s) st (wakeups s).
Definition with_wakeups (s : Memory) (w : list Z) : Memory :=
  mkMemory (range s) (pmem s) (lockedAddrList s) (stats s) w.

(** [init()]: the size must be a multiple of the system's page size. *)
Definition init (pageBytes : Z) (s : Memory) : res unit :=
  if pageBytes =? 0 then Err UB
  else panic_if (negb (AddrRange.size (range s) mod pageBytes =? 0)).

Definition setBackingStore (s : Memory) (m : hostmem) : Memory := with_pmem s (Some m).

(** The loop of [trackLoadLocked]: updates the context's record in place, or
    reports that there is none. *)
Fixpoint update_record (l : list LockedAddr) (ctx paddr : Z) : option (list LockedAddr) :=
  match l with
  | [] => None
  | i :: l =>
      if lcontext i =? ctx then Some (mkLocked paddr (lcontext i) :: l)
      else cons i <$> update_record l ctx paddr
  end.

Definition trackLoadLocked (s : Memory) (pkt : Packet) : res Memory :=
  pa ← getPaddr (req pkt);
  let paddr := lmask pa in
  ctx ← contextId (req pkt);
  match update_record (lockedAddrList s) ctx paddr with
  | Some l => mret (with_locked s l)
  | None => mret (with_locked s (mkLocked paddr ctx :: lockedAddrList s))
  end.

(** The search loop for the requester's own reservation. *)
Fixpoint find_own (l : list LockedAddr) (paddr : Z) (r : Request) : res bool :=
  match l with
  | [] => mret false
  | i :: l =>
      if laddr i =? paddr then
        ctx ← contextId r;
        if lcontext i =? ctx then mret true else find_own l paddr r
      else find_own l paddr r
  end.

(** [checkLockedAddrList]: whether the store is allowed, the memory and the
    packet afterwards. *)
Definition checkLockedAddrList (s : Memory) (pkt : Packet) : res (bool * Memory * Packet) :=
  pa ← getPaddr (req pkt);
  let paddr := lmask pa in
  '(allowStore, pkt) ←
    (if isLLSC pkt then
       own ← find_own (lockedAddrList s) paddr (req pkt);
       mret (own, with_req pkt (setExtraData (req pkt) (if (own : bool) then 1 else 0)))
     else mret (true, pkt));
  if (allowStore : bool) then
    let hit := filter (λ i, laddr i = paddr) (lockedAddrList s) in
    let rest := filter (λ i, laddr i ≠ paddr) (lockedAddrList s) in
    mret (true, with_wakeups (with_locked s rest) (wakeups s ++ (lcontext <$> hit)), pkt)
  else mret (false, s, pkt).

Definition writeOK (s : Memory) (pkt : Packet) : res (bool * Memory * Packet) :=
  match lockedAddrList s with
  | [] =>
      if isLLSC pkt then mret (false, s, with_req pkt (setExtraData (req pkt) 0))
      else mret (true, s, pkt)
  | _ => checkLockedAddrList s pkt
  end.

(** Reads and writes of the packet's payload; both need the backing store. *)
Definition read_into (m : hostmem) (off : Z) (pkt : Packet) : res Packet :=
  d ← getPtr pkt;
  n ← getSize pkt;
  bs ← load_bytes (Z.to_nat n) m off;
  d' ← memcpy d 0 bs 0 n;
  mret (with_data pkt (Some d')).

Definition write_from (m : hostmem) (off : Z) (pkt : Packet) : res hostmem :=
  d ← getPtr pkt;
  n ← getSize pkt;
  if decide (n ≤ Z.of_nat (length d)) then store_bytes m off (take (Z.to_nat n) d)
  else Err UB.

(** The conditional-swap test: [!memcmp(&condition_val, hostAddr, n)]. *)
Definition cond_swap_ok (m : hostmem) (off : Z) (pkt : Packet) : res bool :=
  n ← getSize pkt;
  if n =? 8 then
    c ← getExtraData (req pkt);
    bs ← load_bytes 8 m off;
    mret (bool_decide (Z_to_little_endian 8 8 c = bs))
  else if n =? 4 then
    c ← getExtraData (req pkt);
    bs ← load_bytes 4 m off;
    mret (bool_decide (Z_to_little_endian 4 8 (u32 c) = bs))
  else Err Panic.

(** The [MemCmd::SwapReq] branch of [access]. *)
Definition access_swap (s : Memory) (off : Z) (pkt : Packet) : res (Memory * Packet) :=
  match pmem s with
  | None => Err Panic
  | Some m =>
      pkt' ← read_into m off pkt;
      overwrite_mem ← (if isCondSwap (req pkt) then cond_swap_ok m off pkt else mret true);
      m' ← (if (overwrite_mem : bool) then write_from m off pkt else mret m);
      assert_ (negb (isInstFetch (req pkt)));;
      let st := stats s in
      mret (with_stats (with_pmem s (Some m'))
              (mkStats (bytesRead st) (bytesInstRead st) (bytesWritten st) (numReads st)
                 (numWrites st) (bump (numOther st) (_masterId (req pkt)) 1)), pkt')
  end.

(** The read branch. *)
Definition access_read (s : Memory) (off : Z) (pkt : Packet) : res (Memory * Packet) :=
  assert_ (negb (isWrite pkt));;
  s ← (if isLLSC pkt then trackLoadLocked s pkt else mret s);
  pkt' ← (match pmem s with Some m => read_into m off pkt | None => mret pkt end);
  n ← getSize pkt;
  let st := stats s in
  let mid := _masterId (req pkt) in
  mret (with_stats s
          (mkStats (bump (bytesRead st) mid n)
             (if isInstFetch (req pkt) then bump (bytesInstRead st) mid n else bytesInstRead st)
             (bytesWritten st) (bump (numReads st) mid 1) (numWrites st) (numOther st)), pkt').

(** The write branch. *)
Definition access_write (s : Memory) (off : Z) (pkt : Packet) : res (Memory * Packet) :=
  '(ok, s, pkt) ← writeOK s pkt;
  if (ok : bool) then
    m' ← (match pmem s with Some m => Some <$> write_from m off pkt | None => mret None end);
    assert_ (negb (isInstFetch (req pkt)));;
    n ← getSize pkt;
    let st := stats s in
    let mid := _masterId (req pkt) in
    mret (with_stats (with_pmem s m')
            (mkStats (bytesRead st) (bytesInstRead st) (bump (bytesWritten st) mid n)
               (numReads st) (bump (numWrites st) mid 1) (numOther st)), pkt)
  else mret (s, pkt).

(** [if (pkt->needsResponse()) pkt->makeResponse();] *)
Definition respond (pkt : Packet) : res Packet :=
  if needsResponse pkt then makeResponse pkt else mret pkt.

(** The row-operation branch. *)
Definition access_rowop (s : Memory) (pkt : Packet) : res (Memory * Packet) :=
  bs ← getPtr pkt;
  addrs ← payload_of bs;
  let off := λ a, a - AddrRange._start (range s) in
  match op addrs, pmem s with
  | ROWAP, _ => pkt' ← respond pkt; mret (s, pkt')
  | _, None => Err UB
  | o, Some m =>
      m' ← do_rowop o m (off (dest addrs)) (off (src1 addrs)) (off (src2 addrs));
      pkt' ← respond pkt;
      mret (with_pmem s (Some m'), pkt')
  end.

(** The assertion on the accessed interval. *)
Definition assert_in_range (s : Memory) (pkt : Packet) : res Z :=
  a ← getAddr pkt;
  n ← getSize pkt;
  sub ← AddrRange.isSubset
          (AddrRange.AddrRange_simple a (add64 a (u32 (n - 1)))) (range s);
  assert_ sub;;
  mret (a - AddrRange._start (range s)).

Definition access (s : Memory) (pkt : Packet) : res (Memory * Packet) :=
  if memInhibitAsserted pkt then mret (s, pkt)
  else if bool_decide (cmd pkt = MemCmd.CleanEvict) then mret (s, pkt)
  else if isRowOp pkt then access_rowop s pkt
  else
    off ← assert_in_range s pkt;
    '(s, pkt) ←
      (if bool_decide (cmd pkt = MemCmd.SwapReq) then access_swap s off pkt
       else if isRead pkt then access_read s off pkt
       else if isInvalidate pkt then mret (s, pkt)
       else if isWrite pkt then access_write s off pkt
       else Err Panic);
    pkt ← respond pkt;
    mret (s, pkt).

(** [functionalAccess]; a print request only prints. *)
Definition functionalAccess (s : Memory) (pkt : Packet) : res (Memory * Packet) :=
  a ← getAddr pkt;
  n ← getSize pkt;
  sub ← AddrRange.isSubset
          (AddrRange.AddrRange_simple a (sub64 (add64 a n) 1)) (range s);
  assert_ sub;;
  let off := a - AddrRange._start (range s) in
  if isRead pkt then
    pkt ← (match pmem s with Some m => read_into m off pkt | None => mret pkt end);
    pkt ← makeResponse pkt;
    mret (s, pkt)
  else if isWrite pkt then
    m' ← (match pmem s with Some m => Some <$> write_from m off pkt | None => mret None end);
    pkt ← makeResponse pkt;
    mret (with_pmem s m', pkt)
  else if isPrint pkt then mret (s, pkt)
  else Err Panic.

End AbstractMemory.
Import AbstractMemory.

(** ** Lemmas on the host memory *)

(** The [n] bytes from [a] exist. *)
Definition mapped (m : hostmem) (a n : Z) : Prop :=
  ∀ x, a ≤ x < a + n → is_Some (m !! x).

(** Every byte that exists is a byte. *)
Definition bytes_ok (m : hostmem) : Prop := map_Forall (λ _ b, 0 ≤ b < 256) m.

(** The contents, as total functions, for specifications. *)
Definition byte_at (m : hostmem) (a : Z) : Z := default 0 (m !! a).
Definition bytes_at (m : hostmem) (a : Z) (n : nat) : list Z :=
  (λ i, byte_at m (a + Z.of_nat i)) <$> seq 0 n.
Definition word (m : hostmem) (a : Z) : Z := little_endian_to_Z 8 (bytes_at m a 8).

(** [m'] is [m] with the [length bs] bytes at [a] replaced by [bs]. *)
Definition patched (m m' : hostmem) (a : Z) (bs : list Z) : Prop :=
  ∀ x, m' !! x = if decide (a ≤ x < a + Z.of_nat (length bs))
                 then bs !! Z.to_nat (x - a) else m !! x.

Lemma bytes_at_S m a n : bytes_at m a (S n) = byte_at m a :: bytes_at m (a + 1) n.
Proof.
  unfold bytes_at. cbn [seq fmap list_fmap]. f_equal; [by rewrite Z.add_0_r|].
  rewrite <- fmap_S_seq, <- list_fmap_compose. apply list_fmap_ext.
  intros i x _. simpl. f_equal. lia.
Qed.

Lemma length_bytes_at m a n : length (bytes_at m a n) = n.
Proof. unfold bytes_at. by rewrite length_fmap, length_seq. Qed.

Lemma mapped_mono m a n b k : mapped m a n → a ≤ b → b + k ≤ a + n → mapped m b k.
Proof. intros H ?? x ?. apply H. lia. Qed.

(** Part of a mapped block, also after a store ([st_mapped], [rf_mapped]). *)
Ltac sub_mapped :=
  match goal with
  | H : mapped ?m _ _ |- mapped ?m _ _ => solve [apply (mapped_mono _ _ _ _ _ H); lia]
  | Hm : ∀ b n, mapped ?m b n → mapped ?m' b n |- mapped ?m' _ _ => apply Hm; sub_mapped
  end.

Lemma load_bytes_ok m a n : mapped m a (Z.of_nat n) → load_bytes n m a = Ok (bytes_at m a n).
Proof.
  revert a. induction n as [|n IH]; intros a H; [done|].
  cbn [load_bytes]. unfold get8. destruct (H a) as [b Hb]; [lia|]. rewrite Hb. simpl.
  rewrite IH by (eapply mapped_mono; [done|lia..]). simpl.
  rewrite bytes_at_S. unfold byte_at. by rewrite Hb.
Qed.

Lemma store_bytes_ok m a bs :
  mapped m a (Z.of_nat (length bs)) → ∃ m', store_bytes m a bs = Ok m' ∧ patched m m' a bs.
Proof.
  revert m a. induction bs as [|b bs IH]; intros m a H.
  - exists m. split; [done|]. intros x. simpl. by rewrite decide_False by lia.
  - cbn [store_bytes]. unfold get8. destruct (H a) as [b0 Hb]; [simpl; lia|]. rewrite Hb.
    destruct (IH (<[a := b]> m) (a + 1)) as (m' & Hs & Hp).
    { intros x Hx. rewrite lookup_insert_ne by lia. apply H. simpl. lia. }
    exists m'. split; [done|]. intros x. rewrite Hp. simpl.
    destruct (decide (x = a)) as [->|].
    + rewrite decide_False, decide_True by lia. rewrite Z.sub_diag. by rewrite lookup_insert_eq.
    + rewrite lookup_insert_ne by done. repeat case_decide; try lia; [|done].
      replace (Z.to_nat (x - a)) with (S (Z.to_nat (x - (a + 1)))) by lia. done.
Qed.

Lemma patched_mapped m m' a bs b n :
  patched m m' a bs → mapped m b n → mapped m' b n.
Proof.
  intros Hp H x Hx. rewrite Hp. case_decide; [|by apply H].
  apply lookup_lt_is_Some_2. lia.
Qed.

Lemma patched_bytes_ok m m' a bs :
  patched m m' a bs → bytes_ok m → Forall (λ b, 0 ≤ b < 256) bs → bytes_ok m'.
Proof.
  intros Hp Hm Hb x b. rewrite Hp. case_decide; [|apply Hm].
  intros Hl. by eapply Forall_lookup_1 in Hb.
Qed.

Lemma bytes_at_ext m m' a b n :
  (∀ i, (i < n)%nat → m !! (a + Z.of_nat i) = m' !! (b + Z.of_nat i)) →
  bytes_at m a n = bytes_at m' b n.
Proof.
  intros H. unfold bytes_at, byte_at. apply list_fmap_ext. intros i x Hi.
  apply lookup_seq in Hi as [-> Hi]. by rewrite H.
Qed.

Lemma patched_bytes_at m m' a bs :
  patched m m' a bs → bytes_at m' a (length bs) = bs.
Proof.
  intros Hp. apply list_eq. intros i. unfold bytes_at. rewrite list_lookup_fmap.
  destruct (decide (i < length bs)%nat) as [Hi|].
  - rewrite lookup_seq_lt by done. simpl. unfold byte_at.
    rewrite Hp, decide_True by lia. replace (Z.to_nat (a + Z.of_nat i - a)) with i by lia.
    destruct (lookup_lt_is_Some_2 bs i Hi) as [x ->]. done.
  - rewrite lookup_seq_ge by lia. symmetry. apply lookup_ge_None_2. lia.
Qed.

Lemma bytes_at_range m a n : bytes_ok m → Forall (λ b, 0 ≤ b < 2 ^ 8) (bytes_at m a n).
Proof.
  intros Hm. apply Forall_fmap, Forall_true. intros i. simpl. unfold byte_at.
  destruct (m !! _) eqn:E; simpl; [|lia]. by apply Hm in E.
Qed.

(** ** 64-bit words *)

Lemma load64_ok m a : mapped m a 8 → load64 m a = Ok (word m a).
Proof. intros H. unfold load64. by rewrite load_bytes_ok. Qed.

Lemma word_range m a : bytes_ok m → 0 ≤ word m a < 2 ^ 64.
Proof.
  intros Hm. unfold word. pose proof (length_bytes_at m a 8) as Hl.
  pose proof (little_endian_to_Z_bound 8 (bytes_at m a 8)) as H. rewrite Hl in H.
  apply H; [lia|]. by apply bytes_at_range.
Qed.

(** Two words that do not overlap. *)
Definition apart (a b : Z) : Prop := a + 8 ≤ b ∨ b + 8 ≤ a.

(** What a 64-bit store does. *)
Record stored64 (m m' : hostmem) (a v : Z) : Prop := {
  st_word : word m' a = u64 v;
  st_other : ∀ b, apart a b → word m' b = word m b;
  st_outside : ∀ x, ¬ a ≤ x < a + 8 → m' !! x = m !! x;
  st_mapped : ∀ b n, mapped m b n → mapped m' b n;
  st_bytes : bytes_ok m → bytes_ok m';
}.

Lemma store64_ok m a v : mapped m a 8 → ∃ m', store64 m a v = Ok m' ∧ stored64 m m' a v.
Proof.
  intros H. unfold store64.
  assert (length (Z_to_little_endian 8 8 v) = 8%nat) as Hlen
    by (pose proof (length_Z_to_little_endian 8 8 v); lia).
  destruct (store_bytes_ok m a (Z_to_little_endian 8 8 v)) as (m' & Hs & Hp).
  { by rewrite Hlen. }
  exists m'. split; [done|].
  assert (∀ x, ¬ a ≤ x < a + 8 → m' !! x = m !! x) as Hout.
  { intros x Hx. rewrite Hp, decide_False; [done|]. rewrite Hlen. lia. }
  split.
  - unfold word. pose proof (patched_bytes_at _ _ _ _ Hp) as Hb. rewrite Hlen in Hb.
    rewrite Hb. by rewrite little_endian_to_Z_to_little_endian by lia.
  - intros b Hab. unfold word. f_equal. apply bytes_at_ext. intros i Hi. apply Hout.
    unfold apart in Hab. lia.
  - exact Hout.
  - intros b n. by apply (patched_mapped m m' a _ b n Hp).
  - intros Hm. eapply patched_bytes_ok; [done|done|].
    apply (Z_to_little_endian_bound 8 8 v); lia.
Qed.

(** ** Row loops *)

(** [m'] differs from [m] at most in the [8 * n] bytes from [d], and stays as
    well-formed as [m] was. *)
Record row_frame (m m' : hostmem) (d n : Z) : Prop := {
  rf_outside : ∀ x, ¬ d ≤ x < d + 8 * n → m' !! x = m !! x;
  rf_mapped : ∀ b k, mapped m b k → mapped m' b k;
  rf_bytes : bytes_ok m → bytes_ok m';
}.

(** ... and holds [g i] in the [i]-th word from [d]. *)
Record row_post (m m' : hostmem) (d n : Z) (g : Z → Z) : Prop := {
  rp_frame : row_frame m m' d n;
  rp_word : ∀ i, 0 ≤ i < n → word m' (d + 8 * i) = g i;
}.

Lemma word_ext m m' a : (∀ x, a ≤ x < a + 8 → m' !! x = m !! x) → word m' a = word m a.
Proof. intros H. unfold word. f_equal. apply bytes_at_ext. intros i Hi. apply H. lia. Qed.

Lemma row_frame_refl m d : row_frame m m d 0.
Proof. by split. Qed.

Lemma row_frame_cons m m1 m' d n v :
  0 ≤ n → stored64 m m1 d v → row_frame m1 m' (d + 8) n → row_frame m m' d (n + 1).
Proof.
  intros ? [] []. split; [|by auto..]. intros x Hx.
  rewrite rf_outside0 by lia. apply st_outside0. lia.
Qed.

Lemma row_frame_snoc m m1 m' d n v :
  0 ≤ n → stored64 m m1 (d + 8 * n) v → row_frame m1 m' d n → row_frame m m' d (n + 1).
Proof.
  intros ? [] []. split; [|by auto..]. intros x Hx.
  rewrite rf_outside0 by lia. apply st_outside0. lia.
Qed.

Lemma row_post_cons m m1 m' d n v g g' :
  0 ≤ n → stored64 m m1 d v → row_post m1 m' (d + 8) n g' →
  u64 v = g 0 → (∀ i, 0 ≤ i < n → g' i = g (i + 1)) → row_post m m' d (n + 1) g.
Proof.
  intros ? Hs [Hf Hw] H0 HS. split; [by eapply row_frame_cons|]. intros i Hi.
  destruct (decide (i = 0)) as [->|].
  - rewrite Z.mul_0_r, Z.add_0_r, <- H0, <- (st_word _ _ _ _ Hs). apply word_ext.
    intros x ?. apply (rf_outside _ _ _ _ Hf). lia.
  - replace (d + 8 * i) with (d + 8 + 8 * (i - 1)) by lia. rewrite Hw, HS by lia.
    f_equal. lia.
Qed.

Lemma stored64_trans m m1 m2 a v w :
  stored64 m m1 a v → stored64 m1 m2 a w → stored64 m m2 a w.
Proof.
  intros [] []. split; [done| |by intros; rewrite st_outside1, st_outside0 |by auto..].
  intros b ?. rewrite st_other1, st_other0; done.
Qed.

(** The row can be processed in ascending order: a destination word is never
    written before the source word at the same or a later position is read. *)
Definition fwd_safe (d s : Z) (n : nat) : Prop := d ≤ s ∨ s + 8 * Z.of_nat n ≤ d.

Lemma row_binop_ok f n m d s1 s2 :
  (∀ x y, 0 ≤ x < 2 ^ 64 → 0 ≤ y < 2 ^ 64 → 0 ≤ f x y < 2 ^ 64) →
  fwd_safe d s1 n → fwd_safe d s2 n → bytes_ok m →
  mapped m d (8 * Z.of_nat n) → mapped m s1 (8 * Z.of_nat n) → mapped m s2 (8 * Z.of_nat n) →
  ∃ m', row_binop f n m d s1 s2 = Ok m' ∧
    row_post m m' d (Z.of_nat n) (λ i, f (word m (s1 + 8 * i)) (word m (s2 + 8 * i))).
Proof.
  intros Hf. revert m d s1 s2. induction n as [|n IH]; intros m d s1 s2 S1 S2 Hb Md M1 M2.
  { exists m. split; [done|]. split; [apply row_frame_refl|lia]. }
  cbn [row_binop]. rewrite (load64_ok m s1), (load64_ok m s2)
    by sub_mapped. simpl.
  destruct (store64_ok m d (f (word m s1) (word m s2))) as (m1 & -> & Hst); [sub_mapped|].
  simpl. pose proof (st_mapped _ _ _ _ Hst) as Hmap.
  destruct (IH m1 (d + 8) (s1 + 8) (s2 + 8)) as (m' & -> & Hp);
    [unfold fwd_safe in *; first [lia | sub_mapped | by apply (st_bytes _ _ _ _ Hst)]..|].
  exists m'. split; [done|]. rewrite Nat2Z.inj_succ.
  eapply row_post_cons; [lia|done|done| |].
  - rewrite !Z.mul_0_r, !Z.add_0_r. apply wrap_small, Hf; by apply word_range.
  - intros i ?. simpl. unfold fwd_safe in *.
    rewrite !(st_other _ _ _ _ Hst) by (unfold apart; lia). by f_equal; f_equal; lia.
Qed.

Lemma row_unop_as_binop f n m d s1 : row_unop f n m d s1 = row_binop (λ x _, f x) n m d s1 s1.
Proof.
  revert m d s1. induction n as [|n IH]; intros m d s1; [done|].
  cbn [row_unop row_binop]. unfold mbind, res_mbind.
  destruct (load64 m s1); [|done]. destruct (store64 m d (f a)); [apply IH|done].
Qed.

Lemma row_unop_ok f n m d s1 :
  (∀ x, 0 ≤ x < 2 ^ 64 → 0 ≤ f x < 2 ^ 64) →
  fwd_safe d s1 n → bytes_ok m →
  mapped m d (8 * Z.of_nat n) → mapped m s1 (8 * Z.of_nat n) →
  ∃ m', row_unop f n m d s1 = Ok m' ∧
    row_post m m' d (Z.of_nat n) (λ i, f (word m (s1 + 8 * i))).
Proof. intros. rewrite row_unop_as_binop. apply row_binop_ok; auto. Qed.

(** ** Shifts

    A row as one number, the word at the lowest address being the least
    significant. *)
Fixpoint row_value (m : hostmem) (a : Z) (n : nat) : Z :=
  match n with
  | O => 0
  | S n => word m a + 2 ^ 64 * row_value m (a + 8) n
  end.

Lemma row_value_ext m m' a n :
  (∀ x, a ≤ x < a + 8 * Z.of_nat n → m' !! x = m !! x) → row_value m' a n = row_value m a n.
Proof.
  revert a. induction n as [|n IH]; intros a H; [done|]. cbn [row_value].
  rewrite (word_ext m m'), IH; [done|intros; apply H; lia..].
Qed.

Lemma row_value_snoc m a n :
  row_value m a (S n) = row_value m a n + 2 ^ (64 * Z.of_nat n) * word m (a + 8 * Z.of_nat n).
Proof.
  revert a. induction n as [|n IH]; intros a.
  - simpl. rewrite !Z.add_0_r. lia.
  - cbn [row_value] in *. rewrite IH.
    replace (a + 8 + 8 * Z.of_nat n) with (a + 8 * Z.of_nat (S n)) by lia.
    replace (64 * Z.of_nat (S n)) with (64 + 64 * Z.of_nat n) by lia.
    rewrite Z.pow_add_r by lia. ring.
Qed.

Lemma lor_disjoint a b : Z.land a b = 0 → Z.lor a b = a + b.
Proof. intros H. rewrite <- Z.lxor_lor, Z.add_nocarry_lxor by done. done. Qed.

(** The value [ROWLS] leaves in a destination word. *)
Lemma ls_word_eq x c :
  0 ≤ x < 2 ^ 64 → c = 0 ∨ c = 1 →
  Z.lor (Z.land (u64 (shl64 x 1)) 0xFFFFFFFFFFFFFFFE) c = (2 * x) mod 2 ^ 64 + c.
Proof.
  intros Hx Hc.
  assert (u64 (shl64 x 1) = Z.shiftl (x mod 2 ^ 63) 1) as ->.
  { unfold shl64. rewrite wrap_wrap by lia. unfold wrap. rewrite !Z.shiftl_mul_pow2 by lia.
    change (2 ^ 64) with (2 ^ 63 * 2 ^ 1). by rewrite Z.mul_mod_distr_r. }
  change 0xFFFFFFFFFFFFFFFE with (Z.shiftl (Z.ones 63) 1).
  rewrite <- Z.shiftl_land, Z.land_ones, Z.mod_mod by lia.
  rewrite lor_disjoint.
  - rewrite Z.shiftl_mul_pow2 by lia. change (2 ^ 64) with (2 * 2 ^ 63).
    rewrite Z.mul_mod_distr_l by lia. lia.
  - bitwise i. destruct (decide (i = 0)) as [->|]; [done|].
    destruct Hc as [->| ->]; [by rewrite Z.bits_0, andb_false_r|].
    rewrite (testbit_high 1 1 i) by lia. apply andb_false_r.
Qed.

(** The value [ROWRS] leaves in a destination word. *)
Lemma rs_word_eq x c :
  0 ≤ x < 2 ^ 64 → c = 0 ∨ c = 1 →
  Z.lor (Z.land (u64 (Z.shiftr x 1)) 0x7FFFFFFFFFFFFFFF) (shl64 c 63) = x / 2 + 2 ^ 63 * c.
Proof.
  intros Hx Hc. rewrite Z.shiftr_div_pow2 by lia. change (2 ^ 1) with 2.
  assert (0 ≤ x / 2 < 2 ^ 63) by (split; [apply Z.div_pos; lia|apply Z.div_lt_upper_bound; lia]).
  rewrite (wrap_small 64 (x / 2)) by lia.
  change 0x7FFFFFFFFFFFFFFF with (Z.ones 63). rewrite Z.land_ones, Z.mod_small by lia.
  assert (shl64 c 63 = 2 ^ 63 * c) as -> by (by destruct Hc as [->| ->]).
  apply lor_disjoint. bitwise i.
  destruct (decide (i < 63)) as [|].
  - rewrite (Z.mul_comm _ c), Z.mul_pow2_bits_low by lia. apply andb_false_r.
  - by rewrite (testbit_high 63 (x / 2) i) by lia.
Qed.

Lemma ls_carry_eq x : 0 ≤ x < 2 ^ 64 → (if negb (Z.shiftr x 63 =? 0) then 1 else 0) = x / 2 ^ 63.
Proof.
  intros Hx. rewrite Z.shiftr_div_pow2 by lia.
  assert (0 ≤ x / 2 ^ 63 < 2) by (split; [apply Z.div_pos; lia|apply Z.div_lt_upper_bound; lia]).
  destruct (Z.eqb_spec (x / 2 ^ 63) 0); simpl; lia.
Qed.

Lemma rs_carry_eq x : (if negb (Z.land x 1 =? 0) then 1 else 0) = x mod 2.
Proof.
  change 1 with (Z.ones 1) at 1. rewrite Z.land_ones by lia. change (2 ^ 1) with 2.
  pose proof (Z.mod_pos_bound x 2). destruct (Z.eqb_spec (x mod 2) 0); simpl; lia.
Qed.

(** One iteration of the [ROWLS] loop. *)
Lemma row_ls_step n m d s c :
  bytes_ok m → c = 0 ∨ c = 1 → mapped m d 8 → mapped m s 8 →
  ∃ m1, stored64 m m1 d ((2 * word m s) mod 2 ^ 64 + c) ∧
    row_ls (S n) m d s c = row_ls n m1 (d + 8) (s + 8) (word m1 s / 2 ^ 63).
Proof.
  intros Hb Hc Md Ms. cbn [row_ls]. rewrite (load64_ok m s) by done.
  cbv [mbind res_mbind].
  destruct (store64_ok m d (shl64 (word m s) 1)) as (m0 & -> & S0); [done|].
  pose proof (st_mapped _ _ _ _ S0). rewrite (load64_ok m0 d) by sub_mapped.
  rewrite (st_word _ _ _ _ S0), ls_word_eq by (try apply word_range; done).
  destruct (store64_ok m0 d ((2 * word m s) mod 2 ^ 64 + c)) as (m1 & -> & S1); [sub_mapped|].
  pose proof (st_mapped _ _ _ _ S1). rewrite (load64_ok m1 s) by sub_mapped.
  exists m1. split; [by eapply stored64_trans|]. f_equal. apply ls_carry_eq, word_range.
  by apply (st_bytes _ _ _ _ S1), (st_bytes _ _ _ _ S0).
Qed.

Lemma row_rs_step n m d s c :
  bytes_ok m → c = 0 ∨ c = 1 → mapped m d 8 → mapped m s 8 →
  ∃ m1, stored64 m m1 d (word m s / 2 + 2 ^ 63 * c) ∧
    row_rs (S n) m (d + 8) (s + 8) c = row_rs n m1 d s (word m1 s mod 2).
Proof.
  intros Hb Hc Md Ms. cbn [row_rs]. rewrite !Z.add_simpl_r.
  rewrite (load64_ok m s) by done. cbv [mbind res_mbind].
  destruct (store64_ok m d (Z.shiftr (word m s) 1)) as (m0 & -> & S0); [done|].
  pose proof (st_mapped _ _ _ _ S0). rewrite (load64_ok m0 d) by sub_mapped.
  rewrite (st_word _ _ _ _ S0), rs_word_eq by (try apply word_range; done).
  destruct (store64_ok m0 d (word m s / 2 + 2 ^ 63 * c)) as (m1 & -> & S1); [sub_mapped|].
  pose proof (st_mapped _ _ _ _ S1). rewrite (load64_ok m1 s) by sub_mapped.
  exists m1. split; [by eapply stored64_trans|]. f_equal. apply rs_carry_eq.
Qed.

Lemma half_bit x : 0 ≤ x < 2 ^ 64 → x / 2 ^ 63 = 0 ∨ x / 2 ^ 63 = 1.
Proof.
  intros. assert (0 ≤ x / 2 ^ 63 < 2); [|lia].
  split; [apply Z.div_pos; lia|apply Z.div_lt_upper_bound; lia].
Qed.

Lemma ls_word_range x c : c = 0 ∨ c = 1 → 0 ≤ (2 * x) mod 2 ^ 64 + c < 2 ^ 64.
Proof.
  intros. change (2 ^ 64) with (2 * 2 ^ 63). rewrite Z.mul_mod_distr_l by lia.
  pose proof (Z.mod_pos_bound x (2 ^ 63)). lia.
Qed.

(** The new low word and the shifted rest make up the shifted number. *)
Lemma shl_compose x R c n :
  0 ≤ x < 2 ^ 64 → c = 0 ∨ c = 1 → 0 ≤ n →
  ((2 * x) mod 2 ^ 64 + c) + 2 ^ 64 * ((2 * R + x / 2 ^ 63) mod 2 ^ (64 * n)) =
  (2 * (x + 2 ^ 64 * R) + c) mod 2 ^ (64 * (n + 1)).
Proof.
  intros Hx Hc Hn. replace (64 * (n + 1)) with (64 + 64 * n) by lia.
  rewrite Z.pow_add_r, Z.rem_mul_r by (try apply Z.pow_nonzero; lia).
  pose proof (ls_word_range x c Hc) as Hr.
  assert (2 * (x + 2 ^ 64 * R) + c =
          ((2 * x) mod 2 ^ 64 + c) + (2 * R + x / 2 ^ 63) * 2 ^ 64) as ->.
  { pose proof (Z.div_mod (2 * x) (2 ^ 64)) as Hd.
    assert (2 * x / 2 ^ 64 = x / 2 ^ 63) as E
      by (change (2 ^ 64) with (2 * 2 ^ 63); by rewrite Z.div_mul_cancel_l).
    rewrite E in Hd. lia. }
  revert Hr. generalize ((2 * x) mod 2 ^ 64 + c). intros a Hr.
  rewrite Z.mod_add, Z.div_add by lia. rewrite (Z.mod_small a (2 ^ 64)) by done.
  rewrite (Z.div_small a (2 ^ 64)) by done. by rewrite Z.add_0_l.
Qed.

(** [ROWLS] with carry-in, where no source word is overwritten before its
    last use. *)
Lemma row_ls_ok n m d s c :
  d + 8 ≤ s ∨ s + 8 * Z.of_nat n ≤ d → bytes_ok m → c = 0 ∨ c = 1 →
  mapped m d (8 * Z.of_nat n) → mapped m s (8 * Z.of_nat n) →
  ∃ m', row_ls n m d s c = Ok m' ∧ row_frame m m' d (Z.of_nat n) ∧
    row_value m' d n = (2 * row_value m s n + c) mod 2 ^ (64 * Z.of_nat n).
Proof.
  revert m d s c. induction n as [|n IH]; intros m d s c Hs Hb Hc Md Ms.
  { exists m. split; [done|]. split; [apply row_frame_refl|]. by rewrite Z.mod_1_r. }
  destruct (row_ls_step n m d s c) as (m1 & Hst & ->); [done|done|sub_mapped..|].
  pose proof (st_mapped _ _ _ _ Hst). pose proof (st_bytes _ _ _ _ Hst Hb).
  rewrite (st_other _ _ _ _ Hst s) by (unfold apart; lia).
  pose proof (word_range m s Hb) as Hx.
  destruct (IH m1 (d + 8) (s + 8) (word m s / 2 ^ 63)) as (m' & -> & Hf & Hv);
    [lia|done|by apply half_bit|sub_mapped..|].
  exists m'. split; [done|]. rewrite Nat2Z.inj_succ. unfold Z.succ.
  split; [eapply row_frame_cons; [lia|done..]|]. cbn [row_value]. rewrite Hv.
  rewrite (word_ext m1 m') by (intros; apply (rf_outside _ _ _ _ Hf); lia).
  rewrite (st_word _ _ _ _ Hst), wrap_small by (by apply ls_word_range).
  rewrite (row_value_ext m m1 (s + 8)) by (intros; apply (st_outside _ _ _ _ Hst); lia).
  apply shl_compose; [done|done|lia].
Qed.

Lemma shr_compose x R c k :
  0 ≤ k →
  (R + 2 ^ (64 * k) * (x mod 2)) / 2 + 2 ^ (64 * k) * (x / 2 + 2 ^ 63 * c) =
  (R + 2 ^ (64 * k) * x + 2 ^ (64 * (k + 1)) * c) / 2.
Proof.
  intros Hk. replace (64 * (k + 1)) with (64 * k + 64) by lia. rewrite Z.pow_add_r by lia.
  rewrite <- Z.div_add by lia. f_equal. change (2 ^ 64) with (2 * 2 ^ 63).
  rewrite (Z.div_mod x 2) at 3 by lia. ring.
Qed.

(** [ROWRS] with carry-in, under the symmetric condition. *)
Lemma row_rs_ok n m d s c :
  s + 8 ≤ d ∨ d + 8 * Z.of_nat n ≤ s → bytes_ok m → c = 0 ∨ c = 1 →
  mapped m d (8 * Z.of_nat n) → mapped m s (8 * Z.of_nat n) →
  ∃ m', row_rs n m (d + 8 * Z.of_nat n) (s + 8 * Z.of_nat n) c = Ok m' ∧
    row_frame m m' d (Z.of_nat n) ∧
    row_value m' d n = (row_value m s n + 2 ^ (64 * Z.of_nat n) * c) / 2.
Proof.
  revert m c. induction n as [|n IH]; intros m c Hs Hb Hc Md Ms.
  { exists m. split; [done|]. split; [apply row_frame_refl|]. by destruct Hc as [->| ->]. }
  set (k := Z.of_nat n) in *.
  replace (8 * Z.of_nat (S n)) with (8 * k + 8) by lia. rewrite !Z.add_assoc.
  destruct (row_rs_step n m (d + 8 * k) (s + 8 * k) c) as (m1 & Hst & ->);
    [done|done|sub_mapped..|].
  pose proof (st_mapped _ _ _ _ Hst). pose proof (st_bytes _ _ _ _ Hst Hb).
  rewrite (st_other _ _ _ _ Hst (s + 8 * k)) by (unfold apart; lia).
  pose proof (word_range m (s + 8 * k) Hb) as Hx.
  pose proof (Z.mod_pos_bound (word m (s + 8 * k)) 2).
  destruct (IH m1 (word m (s + 8 * k) mod 2)) as (m' & -> & Hf & Hv); [lia|done|lia|sub_mapped..|].
  exists m'. split; [done|]. rewrite Nat2Z.inj_succ. fold k. unfold Z.succ.
  split; [eapply row_frame_snoc; [lia|done..]|]. rewrite !row_value_snoc, Hv. fold k.
  rewrite (word_ext m1 m') by (intros; apply (rf_outside _ _ _ _ Hf); lia).
  rewrite (st_word _ _ _ _ Hst), wrap_small
    by (pose proof (Z.div_mod (word m (s + 8 * k)) 2); lia).
  rewrite (row_value_ext m m1 s) by (intros; apply (st_outside _ _ _ _ Hst); lia).
  apply shr_compose. lia.
Qed.

Lemma inplace_carry x c :
  c = 0 ∨ c = 1 → ((2 * x) mod 2 ^ 64 + c) / 2 ^ 63 = Z.b2z (Z.testbit x 62).
Proof.
  intros Hc. rewrite Z.testbit_spec' by lia.
  change (2 ^ 64) with (2 * 2 ^ 63). rewrite Z.mul_mod_distr_l by lia.
  change (2 ^ 63) with (2 * 2 ^ 62) at 2. rewrite <- Z.div_div by lia.
  rewrite (Z.add_comm _ c), (Z.mul_comm 2), Z.div_add by lia.
  rewrite (Z.div_small c) by lia. rewrite Z.add_0_l.
  change (2 ^ 63) with (2 ^ 62 * 2). rewrite Z.rem_mul_r by lia.
  rewrite (Z.mul_comm (2 ^ 62)), Z.div_add by lia.
  rewrite (Z.div_small (_ mod _)) by (apply Z.mod_pos_bound; lia). lia.
Qed.

(** [ROWLS] of a row onto itself: the word has been overwritten when the
    carry is computed, so the carry is its bit 62 and not its bit 63. *)
Lemma row_ls_inplace n m d c :
  bytes_ok m → c = 0 ∨ c = 1 → mapped m d (8 * Z.of_nat n) →
  ∃ m', row_ls n m d d c = Ok m' ∧
    row_post m m' d (Z.of_nat n) (λ i,
      (2 * word m (d + 8 * i)) mod 2 ^ 64 +
      if decide (i = 0) then c else Z.b2z (Z.testbit (word m (d + 8 * (i - 1))) 62)).
Proof.
  revert m d c. induction n as [|n IH]; intros m d c Hb Hc Md.
  { exists m. split; [done|]. split; [apply row_frame_refl|lia]. }
  destruct (row_ls_step n m d d c) as (m1 & Hst & ->); [done|done|sub_mapped..|].
  pose proof (st_mapped _ _ _ _ Hst). pose proof (st_bytes _ _ _ _ Hst Hb).
  pose proof (ls_word_range (word m d) c Hc) as Hr.
  rewrite (st_word _ _ _ _ Hst), wrap_small by done.
  destruct (IH m1 (d + 8) (((2 * word m d) mod 2 ^ 64 + c) / 2 ^ 63)) as (m' & -> & Hp);
    [done|by apply half_bit|sub_mapped|].
  exists m'. split; [done|]. rewrite Nat2Z.inj_succ. unfold Z.succ.
  eapply row_post_cons; [lia|done|done| |].
  { rewrite wrap_small by done. rewrite decide_True, Z.mul_0_r, Z.add_0_r by done. done. }
  intros i Hi. simpl. replace (d + 8 + 8 * i) with (d + 8 * (i + 1)) by lia.
  rewrite (st_other _ _ _ _ Hst (d + 8 * (i + 1))) by (unfold apart; lia). f_equal.
  rewrite (decide_False (P := i + 1 = 0)) by lia. case_decide as E.
  - subst i. rewrite Z.sub_diag, Z.mul_0_r, Z.add_0_r. by apply inplace_carry.
  - replace (d + 8 + 8 * (i - 1)) with (d + 8 * (i + 1 - 1)) by lia.
    by rewrite (st_other _ _ _ _ Hst) by (unfold apart; lia).
Qed.

(** [ROWRS] of a row onto itself: likewise the carry is bit 1 and not bit 0. *)
Lemma row_rs_inplace n m d c :
  bytes_ok m → c = 0 ∨ c = 1 → mapped m d (8 * Z.of_nat n) →
  ∃ m', row_rs n m (d + 8 * Z.of_nat n) (d + 8 * Z.of_nat n) c = Ok m' ∧
    row_post m m' d (Z.of_nat n) (λ i,
      word m (d + 8 * i) / 2 +
      2 ^ 63 * if decide (i = Z.of_nat n - 1) then c else Z.b2z (Z.testbit (word m (d + 8 * (i + 1))) 1)).
Proof.
  revert m c. induction n as [|n IH]; intros m c Hb Hc Md.
  { exists m. split; [done|]. split; [apply row_frame_refl|lia]. }
  set (k := Z.of_nat n) in *. replace (8 * Z.of_nat (S n)) with (8 * k + 8) by lia. rewrite !Z.add_assoc.
  destruct (row_rs_step n m (d + 8 * k) (d + 8 * k) c) as (m1 & Hst & ->); [done|done|sub_mapped..|].
  pose proof (st_mapped _ _ _ _ Hst). pose proof (st_bytes _ _ _ _ Hst Hb).
  pose proof (word_range m (d + 8 * k) Hb) as Hx. set (w := word m (d + 8 * k)) in *.
  assert (0 ≤ w / 2 < 2 ^ 63) by (split; [apply Z.div_pos; lia|apply Z.div_lt_upper_bound; lia]).
  rewrite (st_word _ _ _ _ Hst), wrap_small by lia.
  assert ((w / 2 + 2 ^ 63 * c) mod 2 = Z.b2z (Z.testbit w 1)) as ->.
  { rewrite Z.testbit_spec' by lia. change (2 ^ 1) with 2. change (2 ^ 63) with (2 ^ 62 * 2). rewrite <- Z.mul_assoc, (Z.mul_comm 2 c), Z.mul_assoc.
    by rewrite Z.mod_add by lia. }
  destruct (IH m1 (Z.b2z (Z.testbit w 1))) as (m' & -> & Hf & Hw); [done|by destruct (Z.testbit w 1); auto|sub_mapped|].
  exists m'. split; [done|]. rewrite Nat2Z.inj_succ. fold k. unfold Z.succ.
  split; [eapply row_frame_snoc; [lia|done..]|]. intros i Hi. destruct (decide (i = k)) as [->|Hne].
  - rewrite decide_True by lia. rewrite (word_ext m1 m') by (intros; apply (rf_outside _ _ _ _ Hf); lia).
    by rewrite (st_word _ _ _ _ Hst), wrap_small by lia.
  - rewrite Hw by lia. rewrite (st_other _ _ _ _ Hst (d + 8 * i)) by (unfold apart; lia). do 2 f_equal.
    rewrite (decide_False (P := i = k + 1 - 1)) by lia. case_decide as E.
    + replace (i + 1) with k by lia. done.
    + by rewrite (st_other _ _ _ _ Hst) by (unfold apart; lia).
Qed.

(** ** Row operations as accesses *)

Lemma le_roundtrip n z k :
  0 ≤ z < 2 ^ (8 * Z.of_nat n) → k = Z.of_nat n →
  little_endian_to_Z 8 (Z_to_little_endian k 8 z) = z.
Proof.
  intros Hz ->. rewrite little_endian_to_Z_to_little_endian by lia.
  apply Z.mod_small. by replace (Z.of_nat n * 8) with (8 * Z.of_nat n) by lia.
Qed.

Definition payload_wf (a : RowOpPayload) : Prop :=
  0 ≤ dest a < 2 ^ 64 ∧ 0 ≤ src1 a < 2 ^ 64 ∧ 0 ≤ src2 a < 2 ^ 64.

Lemma payload_roundtrip a : payload_wf a → payload_of (payload_bytes a) = Ok a.
Proof.
  intros (Hd & H1 & H2). destruct a as [o d s1 s2]; simpl in *.
  unfold payload_of, payload_bytes. simpl op. simpl dest. simpl src1. simpl src2.
  assert (∀ v, length (Z_to_little_endian 8 8 v) = 8%nat) as L8
    by (intros v; pose proof (length_Z_to_little_endian 8 8 v); lia).
  assert (length (Z_to_little_endian 4 8 (RowOp_toZ o)) = 4%nat) as L4
    by (pose proof (length_Z_to_little_endian 4 8 (RowOp_toZ o)); lia).
  rewrite decide_True by (rewrite !length_app, !L8, L4; simpl; lia).
  rewrite (take_app_length' _ _ 4) by done.
  rewrite (le_roundtrip 4) by (by destruct o; simpl; lia).
  assert (RowOp_ofZ (RowOp_toZ o) = Some o) as -> by (by destruct o).
  set (h := Z_to_little_endian 4 8 (RowOp_toZ o)) in *.
  rewrite (app_assoc h). assert (length (h ++ [0; 0; 0; 0]) = 8%nat) as Lh
    by (rewrite length_app, L4; done).
  rewrite (drop_app_length' _ _ 8) by done. rewrite (take_app_length' _ _ 8) by done.
  replace 24%nat with (8 + (8 + 8))%nat by done. replace 16%nat with (8 + 8)%nat by done.
  rewrite <- !drop_drop, !(drop_app_length' (h ++ _) _ 8) by done.
  rewrite !(drop_app_length' (Z_to_little_endian 8 8 d) _ 8) by done.
  rewrite (take_app_length' _ _ 8), (drop_app_length' _ _ 8) by done.
  rewrite (take_ge (Z_to_little_endian 8 8 s2)) by (rewrite L8; lia).
  by rewrite !(le_roundtrip 8) by (done || lia).
Qed.

(** A row-operation request that reaches a memory with a backing store. *)
Record rowop_req (s : Memory) (pkt : Packet) (a : RowOpPayload) (m : hostmem) : Prop := {
  rq_flag : isRowOp pkt = true;
  rq_inhibit : memInhibitAsserted pkt = false;
  rq_cmd : cmd pkt ≠ MemCmd.CleanEvict;
  rq_request : isRequest pkt = true;
  rq_needs : needsResponse pkt = true;
  rq_ptr : getPtr pkt = Ok (payload_bytes a);
  rq_payload : payload_wf a;
  rq_pmem : pmem s = Some m;
  rq_bytes : bytes_ok m;
}.

(** The host offset of an operand, and that its row exists. *)
Definition row_off (s : Memory) (a : Z) : Z := a - AddrRange._start (range s).
Definition row_exists (s : Memory) (m : hostmem) (a : Z) : Prop := mapped m (row_off s a) ROW_SIZE.

Lemma respond_ok pkt :
  isRequest pkt = true → needsResponse pkt = true →
  ∃ pkt', respond pkt = Ok pkt' ∧ isResponse pkt' = true ∧ addr pkt' = addr pkt ∧
    data pkt' = data pkt ∧ req pkt' = req pkt.
Proof.
  intros Hq Hn. unfold respond, makeResponse. rewrite Hq, Hn.
  destruct (response_table (cmd pkt)) as (?&?&?&?&?&?); [done|done|].
  eexists. by split; [reflexivity|].
Qed.

(** A row-operation access is its row loop plus the response. *)
Lemma access_rowop_respond s pkt a m m' :
  rowop_req s pkt a m → op a ≠ ROWAP →
  do_rowop (op a) m (row_off s (dest a)) (row_off s (src1 a)) (row_off s (src2 a)) = Ok m' →
  access s pkt = (pkt' ← respond pkt; mret (with_pmem s (Some m'), pkt')).
Proof.
  intros [] Hop Hdo. unfold access. rewrite rq_inhibit0, bool_decide_false, rq_flag0 by done.
  unfold access_rowop. rewrite rq_ptr0. cbv [mbind res_mbind]. rewrite payload_roundtrip by done.
  rewrite rq_pmem0. unfold row_off in Hdo. by destruct (op a); rewrite ?Hdo.
Qed.

Lemma access_rowop_do s pkt a m m' :
  rowop_req s pkt a m → op a ≠ ROWAP →
  do_rowop (op a) m (row_off s (dest a)) (row_off s (src1 a)) (row_off s (src2 a)) = Ok m' →
  ∃ pkt', access s pkt = Ok (with_pmem s (Some m'), pkt') ∧ isResponse pkt' = true.
Proof.
  intros Hq Hop Hdo. rewrite (access_rowop_respond s pkt a m m' Hq Hop Hdo).
  destruct (respond_ok pkt) as (pkt' & Hr & Hp & _); [apply Hq..|]. exists pkt'. by rewrite Hr.
Qed.

(** The word function of the element-wise operations. *)
Definition rowop_word (o : RowOp) : option (Z → Z → Z) :=
  match o with
  | ROWAND => Some Z.land | ROWOR => Some Z.lor | ROWXOR => Some Z.lxor
  | ROWNOT => Some (λ x _, not64 x) | ROWAAP => Some (λ x _, x)
  | ROWAP | ROWLS | ROWRS => None
  end.
Definition rowop_binary (o : RowOp) : bool :=
  match o with ROWAND | ROWOR | ROWXOR => true | _ => false end.

Lemma rowop_word_range o f x y :
  rowop_word o = Some f → 0 ≤ x < 2 ^ 64 → 0 ≤ y < 2 ^ 64 → 0 ≤ f x y < 2 ^ 64.
Proof.
  intros Hf Hx Hy. destruct o; simpl in Hf; simplify_eq;
    [..|by apply wrap_range| | done];
    (apply testbit_in_width; [lia| |];
     [first [apply Z.land_nonneg|apply Z.lor_nonneg|apply Z.lxor_nonneg]; lia|]);
    intros i Hi; autorewrite with bitdb;
    rewrite (testbit_high 64 x i), (testbit_high 64 y i) by lia; done.
Qed.

Lemma do_rowop_word o f m d s1 s2 :
  rowop_word o = Some f → bytes_ok m →
  mapped m d ROW_SIZE → mapped m s1 ROW_SIZE → fwd_safe d s1 row_words →
  (rowop_binary o = true → mapped m s2 ROW_SIZE ∧ fwd_safe d s2 row_words) →
  ∃ m', do_rowop o m d s1 s2 = Ok m' ∧
    row_post m m' d 1024 (λ i, f (word m (s1 + 8 * i)) (word m (s2 + 8 * i))).
Proof.
  intros Hf Hb Md M1 S1 H2. pose proof (rowop_word_range o f) as Hr.
  change ROW_SIZE with (8 * Z.of_nat row_words) in *. change 1024 with (Z.of_nat row_words).
  destruct o; simpl in Hf; simplify_eq; unfold do_rowop;
    first [ destruct H2 as [? ?]; [done|]; apply row_binop_ok; auto
          | apply (row_unop_ok not64); auto; intros; by apply wrap_range
          | apply (row_unop_ok (λ x, x)); auto ].
Qed.

(** C1: an access with an AND, OR, XOR, NOT or copy row operation whose rows
    exist succeeds, writes to each of the 1024 words of the destination row the
    function of the old source words, changes no byte outside the destination
    row, and turns the packet into a response.  The destination may be a source
    or precede it, but must not start inside a source row. *)
Theorem access_rowop_elementwise s pkt a m f :
  rowop_req s pkt a m → rowop_word (op a) = Some f →
  row_exists s m (dest a) → row_exists s m (src1 a) → fwd_safe (dest a) (src1 a) row_words →
  (rowop_binary (op a) = true →
     row_exists s m (src2 a) ∧ fwd_safe (dest a) (src2 a) row_words) →
  ∃ m' pkt', access s pkt = Ok (with_pmem s (Some m'), pkt') ∧ isResponse pkt' = true ∧
    row_post m m' (row_off s (dest a)) 1024
      (λ i, f (word m (row_off s (src1 a) + 8 * i)) (word m (row_off s (src2 a) + 8 * i))).
Proof.
  intros Hq Hf Md M1 S1 H2.
  destruct (do_rowop_word (op a) f m (row_off s (dest a)) (row_off s (src1 a))
    (row_off s (src2 a))) as (m' & Hdo & Hp);
    [done|apply Hq|done|done|unfold fwd_safe, row_off in *; lia| |].
  { intros Hb. destruct (H2 Hb). split; [done|]. unfold fwd_safe, row_off in *; lia. }
  destruct (access_rowop_do s pkt a m m') as (pkt' & ? & ?); [done|by intros E; rewrite E in Hf|done|].
  by exists m', pkt'.
Qed.

(** C2: a row shift between two disjoint rows (or, to the left, towards lower
    addresses; to the right, towards higher ones) multiplies or divides the
    8 KiB number stored in the row by two, and touches only the destination
    row. *)
Theorem access_rowop_shift s pkt a m :
  rowop_req s pkt a m → row_exists s m (dest a) → row_exists s m (src1 a) →
  (op a = ROWLS ∧ (dest a + 8 ≤ src1 a ∨ src1 a + ROW_SIZE ≤ dest a)) ∨
  (op a = ROWRS ∧ (src1 a + 8 ≤ dest a ∨ dest a + ROW_SIZE ≤ src1 a)) →
  ∃ m' pkt', access s pkt = Ok (with_pmem s (Some m'), pkt') ∧ isResponse pkt' = true ∧
    row_frame m m' (row_off s (dest a)) 1024 ∧
    row_value m' (row_off s (dest a)) row_words =
      (if decide (op a = ROWLS)
       then (2 * row_value m (row_off s (src1 a)) row_words) mod 2 ^ 65536
       else row_value m (row_off s (src1 a)) row_words / 2).
Proof.
  intros Hq Md M1 Hop. pose proof (rq_bytes _ _ _ _ Hq) as Hb.
  unfold row_exists in *. change ROW_SIZE with (8 * Z.of_nat row_words) in *.
  change 1024 with (Z.of_nat row_words).
  destruct Hop as [[Ho Hs]|[Ho Hs]].
  - destruct (row_ls_ok row_words m (row_off s (dest a)) (row_off s (src1 a)) 0)
      as (m' & Hdo & Hf & Hv); [unfold row_off in *; lia|done|by left|done..|].
    destruct (access_rowop_do s pkt a m m') as (pkt' & ? & ?); [done|by rewrite Ho|by rewrite Ho|].
    exists m', pkt'. rewrite decide_True by done. by rewrite Z.add_0_r in Hv.
  - destruct (row_rs_ok row_words m (row_off s (dest a)) (row_off s (src1 a)) 0)
      as (m' & Hdo & Hf & Hv); [unfold row_off in *; lia|done|by left|done..|].
    destruct (access_rowop_do s pkt a m m') as (pkt' & ? & ?); [done|by rewrite Ho|by rewrite Ho|].
    exists m', pkt'. rewrite decide_False by (by rewrite Ho). by rewrite Z.mul_0_r, Z.add_0_r in Hv.
Qed.

(** The words of a row shifted onto itself. *)
Definition inplace_word (o : RowOp) (m : hostmem) (d i : Z) : Z :=
  if decide (o = ROWLS) then
    (2 * word m (d + 8 * i)) mod 2 ^ 64 + (if decide (i = 0) then 0 else Z.b2z (Z.testbit (word m (d + 8 * (i - 1))) 62))
  else
    word m (d + 8 * i) / 2 + 2 ^ 63 * (if decide (i = 1023) then 0 else Z.b2z (Z.testbit (word m (d + 8 * (i + 1))) 1)).

(** a shift of a row onto itself does not shift the row: to the left, the bit
    carried into a word is bit 62 of the word below it and not bit 63; to the right, it is
    bit 1 of the word above it and not bit 0, because the carry is read after the word has
    been overwritten. *)
Theorem access_rowop_shift_inplace s pkt a m :
  rowop_req s pkt a m → row_exists s m (dest a) → op a = ROWLS ∨ op a = ROWRS → src1 a = dest a →
  ∃ m' pkt', access s pkt = Ok (with_pmem s (Some m'), pkt') ∧
    row_post m m' (row_off s (dest a)) 1024 (inplace_word (op a) m (row_off s (dest a))).
Proof.
  intros Hq Md Ho Hs. pose proof (rq_bytes _ _ _ _ Hq) as Hb.
  unfold row_exists in *. change ROW_SIZE with (8 * Z.of_nat row_words) in *.
  change 1024 with (Z.of_nat row_words). unfold inplace_word. destruct Ho as [Ho|Ho]; rewrite Ho.
  - destruct (row_ls_inplace row_words m (row_off s (dest a)) 0) as (m' & Hdo & Hp); [done|by left|done|].
    destruct (access_rowop_do s pkt a m m') as (pkt' & ? & ?); [done|by rewrite Ho|by rewrite Ho, Hs|].
    by exists m', pkt'.
  - destruct (row_rs_inplace row_words m (row_off s (dest a)) 0) as (m' & Hdo & Hp); [done|by left|done|].
    destruct (access_rowop_do s pkt a m m') as (pkt' & ? & ?); [done|by rewrite Ho|by rewrite Ho, Hs|].
    by exists m', pkt'.
Qed.

(** ** Load-locked / store-conditional

    The list of locked addresses implements a map from contexts to the line
    they have reserved. *)

Definition locks_wf (l : list LockedAddr) : Prop := NoDup (lcontext <$> l).
Definition reservations (l : list LockedAddr) : gmap Z Z :=
  list_to_map ((λ r, (lcontext r, laddr r)) <$> l).

Lemma reservations_cons r l :
  reservations (r :: l) = <[lcontext r := laddr r]> (reservations l).
Proof. done. Qed.

Lemma reservations_None l c : c ∉ lcontext <$> l ↔ reservations l !! c = None.
Proof.
  unfold reservations. rewrite <- not_elem_of_list_to_map.
  by rewrite <- list_fmap_compose.
Qed.

Lemma reservations_Some l c a :
  locks_wf l → reservations l !! c = Some a ↔ mkLocked a c ∈ l.
Proof.
  intros Hl. unfold reservations. rewrite <- elem_of_list_to_map
    by (by rewrite <- list_fmap_compose).
  rewrite list_elem_of_fmap. split.
  - by intros ([a' c'] & [=-> ->] & ?).
  - intros ?. by exists (mkLocked a c).
Qed.

Lemma update_record_spec l ctx pa :
  match update_record l ctx pa with
  | Some l' => lcontext <$> l' = lcontext <$> l ∧ reservations l' = <[ctx := pa]> (reservations l)
  | None => ctx ∉ lcontext <$> l
  end.
Proof.
  induction l as [|r l IH]; [by apply not_elem_of_nil|]. cbn [update_record].
  destruct (Z.eqb_spec (lcontext r) ctx) as [<-|Hne].
  - split; [done|]. rewrite !reservations_cons. simpl. by rewrite insert_insert_eq.
  - destruct (update_record l ctx pa) as [l'|]; simpl.
    + destruct IH as [E1 E2]. split; [apply (f_equal (cons (lcontext r))), E1|].
      rewrite !reservations_cons, E2. by apply insert_insert_ne.
    + apply not_elem_of_cons. split; [by intros ->|done].
Qed.

Lemma trackLoadLocked_ok s pkt pa ctx :
  locks_wf (lockedAddrList s) → getPaddr (req pkt) = Ok pa → contextId (req pkt) = Ok ctx →
  ∃ l', trackLoadLocked s pkt = Ok (with_locked s l') ∧ locks_wf l' ∧
    reservations l' = <[ctx := lmask pa]> (reservations (lockedAddrList s)).
Proof.
  intros Hw Hp Hc. unfold trackLoadLocked. rewrite Hp, Hc. cbv [mbind res_mbind].
  pose proof (update_record_spec (lockedAddrList s) ctx (lmask pa)) as H.
  destruct (update_record _ _ _) as [l'|].
  - destruct H as [E1 E2]. exists l'. split; [done|]. split; [|done].
    unfold locks_wf. by rewrite E1.
  - eexists. split; [done|]. split; [by apply NoDup_cons|done].
Qed.

Lemma find_own_ok l pa r ctx :
  locks_wf l → contextId r = Ok ctx →
  find_own l pa r = Ok (bool_decide (reservations l !! ctx = Some pa)).
Proof.
  intros Hw Hc. induction l as [|[a c] l IH]; [done|]. cbn [find_own laddr lcontext].
  apply NoDup_cons in Hw as [Hn Hw]. simpl in Hn. specialize (IH Hw).
  rewrite reservations_cons. simpl. rewrite Hc. cbv [mbind res_mbind].
  destruct (decide (c = ctx)) as [->|Hne].
  - rewrite Z.eqb_refl, lookup_insert_eq. apply reservations_None in Hn.
    rewrite IH, Hn. destruct (Z.eqb_spec a pa) as [->|]; [by rewrite bool_decide_true|].
    rewrite !bool_decide_false; [done|congruence..].
  - rewrite lookup_insert_ne, (proj2 (Z.eqb_neq c ctx)) by done. rewrite IH.
    by destruct (a =? pa).
Qed.

(** Dropping the records of a line drops the reservations of the line. *)
Lemma reservations_filter l pa :
  locks_wf l →
  locks_wf (filter (λ i, laddr i ≠ pa) l) ∧
  reservations (filter (λ i, laddr i ≠ pa) l) = filter (λ '(_, a), a ≠ pa) (reservations l).
Proof.
  intros Hw. assert (locks_wf (filter (λ i, laddr i ≠ pa) l)) as Hf.
  { unfold locks_wf in *. induction l as [|r l IH]; [done|]. apply NoDup_cons in Hw as [Hn Hw].
    rewrite filter_cons. case_decide; [|by apply IH]. apply NoDup_cons. split; [|by apply IH].
    intros (r' & E & Hr)%list_elem_of_fmap. apply list_elem_of_filter in Hr as [_ Hr].
    apply Hn. rewrite E. by apply list_elem_of_fmap_2. }
  split; [done|]. apply map_eq. intros c. apply option_eq. intros a.
  rewrite reservations_Some by done. rewrite map_lookup_filter_Some, reservations_Some by done.
  rewrite list_elem_of_filter. simpl. tauto.
Qed.

(** The reference monitor: what a store of a context to a line does to the
    reservations, and whether a conditional one is allowed. *)
Definition sc_allowed (R : gmap Z Z) (ctx line : Z) : bool :=
  bool_decide (R !! ctx = Some line).
Definition store_clears (R : gmap Z Z) (line : Z) : gmap Z Z :=
  filter (λ '(_, a), a ≠ line) R.

Lemma writeOK_ok s pkt pa ctx :
  locks_wf (lockedAddrList s) → getPaddr (req pkt) = Ok pa →
  (isLLSC pkt = true → contextId (req pkt) = Ok ctx) →
  let R := reservations (lockedAddrList s) in
  let ok := negb (isLLSC pkt) || sc_allowed R ctx (lmask pa) in
  ∃ l' w, writeOK s pkt = Ok (ok, with_wakeups (with_locked s l') w,
      if isLLSC pkt then with_req pkt (setExtraData (req pkt) (if ok then 1 else 0)) else pkt) ∧
    locks_wf l' ∧ reservations l' = if ok then store_clears R (lmask pa) else R.
Proof.
  intros Hw Hp Hc R ok. unfold writeOK. subst R ok.
  destruct (reservations_filter (lockedAddrList s) (lmask pa) Hw) as [Hf1 Hf2].
  destruct (lockedAddrList s) as [|r l] eqn:El.
  { exists [], (wakeups s). destruct s; simpl in *; subst. unfold sc_allowed.
    rewrite bool_decide_false by done. destruct (isLLSC pkt); simpl; by split. }
  unfold checkLockedAddrList. rewrite Hp, El. cbv [mbind res_mbind].
  destruct (isLLSC pkt).
  - rewrite (find_own_ok _ _ _ ctx) by auto. simpl negb. cbn [orb]. unfold sc_allowed.
    destruct (bool_decide _).
    + eexists _, _. split; [reflexivity|done].
    + eexists (r :: l), (wakeups s). split; [|done]. rewrite <- El. by destruct s.
  - eexists _, _. split; [reflexivity|done].
Qed.

(** ** Reads and writes *)

(** A request for [n] bytes at [a] that reaches a memory whose backing store
    has them; [d] is its data array. *)
Record mem_req (s : Memory) (pkt : Packet) (m : hostmem) (d : list Z) : Prop := {
  mq_row : isRowOp pkt = false;
  mq_inhibit : memInhibitAsserted pkt = false;
  mq_request : isRequest pkt = true;
  mq_needs : needsResponse pkt = true;
  mq_wf : func_wf pkt d;
  mq_lo : AddrRange._start (range s) ≤ addr pkt;
  mq_hi : addr pkt + size pkt - 1 ≤ AddrRange._end (range s);
  mq_pmem : pmem s = Some m;
  mq_mapped : mapped m (row_off s (addr pkt)) (size pkt);
}.

Lemma getAddr_ok pkt d : func_wf pkt d → getAddr pkt = Ok (addr pkt).
Proof. intros H. unfold getAddr. by rewrite (fw_addr _ _ H). Qed.
Lemma getSize_ok pkt d : func_wf pkt d → getSize pkt = Ok (size pkt).
Proof. intros H. unfold getSize. by rewrite (fw_size _ _ H). Qed.
Lemma getPtr_ok pkt d : func_wf pkt d → getPtr pkt = Ok d.
Proof. intros H. unfold getPtr. by rewrite (fw_ptr _ _ H), (fw_data _ _ H). Qed.

Lemma in_range_ok s pkt d :
  func_wf pkt d → AddrRange._start (range s) ≤ addr pkt → addr pkt + size pkt - 1 ≤ AddrRange._end (range s) →
  assert_in_range s pkt = Ok (row_off s (addr pkt)).
Proof.
  intros Hwf Hlo Hhi. pose proof (fw_range _ _ Hwf). unfold assert_in_range.
  rewrite (getAddr_ok _ d), (getSize_ok _ d) by done. cbv [mbind res_mbind].
  unfold AddrRange.isSubset. simpl. rewrite (wrap_small 32) by lia.
  rewrite add64_small by lia.
  rewrite (proj2 (Z.leb_le _ _)) by lia. rewrite (proj2 (Z.leb_le _ _)) by lia. done.
Qed.

Lemma assert_in_range_ok s pkt m d :
  mem_req s pkt m d → assert_in_range s pkt = Ok (row_off s (addr pkt)).
Proof. intros []. by eapply in_range_ok. Qed.

Lemma read_into_ok s pkt m d :
  mem_req s pkt m d →
  read_into m (row_off s (addr pkt)) pkt =
    Ok (with_data pkt (Some (bytes_at m (row_off s (addr pkt)) (length d)))).
Proof.
  intros []. pose proof (fw_len _ _ mq_wf0) as Hl. unfold read_into.
  rewrite (getPtr_ok _ d), (getSize_ok _ d) by done. cbv [mbind res_mbind].
  rewrite load_bytes_ok by (by rewrite Z2Nat.id by lia).
  replace (Z.to_nat (size pkt)) with (length d) by lia.
  pose proof (length_bytes_at m (row_off s (addr pkt)) (length d)) as Hb.
  unfold memcpy. rewrite decide_True by (rewrite Hb; lia).
  replace (Z.to_nat (0 + size pkt)) with (length d) by lia.
  replace (Z.to_nat (size pkt)) with (length d) by lia.
  change (Z.to_nat 0) with 0%nat. rewrite take_0, drop_0, drop_all, app_nil_r, app_nil_l.
  by rewrite take_ge by (rewrite Hb; lia).
Qed.

Lemma write_from_wf s pkt m d :
  func_wf pkt d → mapped m (row_off s (addr pkt)) (size pkt) →
  ∃ m', write_from m (row_off s (addr pkt)) pkt = Ok m' ∧ patched m m' (row_off s (addr pkt)) d.
Proof.
  intros Hwf Hm. pose proof (fw_len _ _ Hwf) as Hl. unfold write_from.
  rewrite (getPtr_ok _ d), (getSize_ok _ d) by done. cbv [mbind res_mbind].
  rewrite decide_True by lia. rewrite take_ge by lia. apply store_bytes_ok. by rewrite Hl.
Qed.

Lemma write_from_ok s pkt m d :
  mem_req s pkt m d →
  ∃ m', write_from m (row_off s (addr pkt)) pkt = Ok m' ∧ patched m m' (row_off s (addr pkt)) d.
Proof. intros []. by apply write_from_wf. Qed.

Lemma not_clean_evict pkt : needsResponse pkt = true → cmd pkt ≠ MemCmd.CleanEvict.
Proof. by intros H E; unfold needsResponse in H; rewrite E in H. Qed.

(** Every access that is not a row operation starts with the range check. *)
Lemma access_plain s pkt m d :
  mem_req s pkt m d →
  access s pkt =
    ('(s, pkt) ←
       (if bool_decide (cmd pkt = MemCmd.SwapReq) then access_swap s (row_off s (addr pkt)) pkt
        else if isRead pkt then access_read s (row_off s (addr pkt)) pkt
        else if isInvalidate pkt then mret (s, pkt)
        else if isWrite pkt then access_write s (row_off s (addr pkt)) pkt
        else Err Panic);
     pkt ← respond pkt; mret (s, pkt)).
Proof.
  intros Hq. pose proof (assert_in_range_ok _ _ _ _ Hq) as Hr. destruct Hq.
  unfold access. rewrite mq_inhibit0, bool_decide_false, mq_row0 by (by apply not_clean_evict).
  by rewrite Hr.
Qed.

(** A plain or conditional store. *)
Record store_req (pkt : Packet) (pa ctx : Z) : Prop := {
  sq_write : isWrite pkt = true;
  sq_read : isRead pkt = false;
  sq_inval : isInvalidate pkt = false;
  sq_fetch : isInstFetch (req pkt) = false;
  sq_paddr : getPaddr (req pkt) = Ok pa;
  sq_ctx : isLLSC pkt = true → contextId (req pkt) = Ok ctx;
}.

Lemma not_swap pkt : isRead pkt = false → bool_decide (cmd pkt = MemCmd.SwapReq) = false.
Proof. intros H. apply bool_decide_false. by intros E; unfold isRead in H; rewrite E in H. Qed.

Lemma with_req_fields pkt r :
  isRequest (with_req pkt r) = isRequest pkt ∧ needsResponse (with_req pkt r) = needsResponse pkt.
Proof. done. Qed.

Lemma getExtraData_set r v : getExtraData (setExtraData r v) = Ok v.
Proof.
  unfold getExtraData, setExtraData, extraDataValid. simpl.
  assert (Flags.isSet (Flags.set (privateFlags r) VALID_EXTRA_DATA) VALID_EXTRA_DATA = true) as ->;
    [|done].
  unfold Flags.isSet, Flags.set. apply negb_true_iff, Z.eqb_neq. intros E.
  apply (f_equal (λ z, Z.testbit z 7)) in E. autorewrite with bitdb in E.
  by rewrite orb_true_r in E.
Qed.

Lemma access_store_ok s pkt m d pa ctx :
  mem_req s pkt m d → store_req pkt pa ctx → locks_wf (lockedAddrList s) →
  let R := reservations (lockedAddrList s) in
  let ok := negb (isLLSC pkt) || sc_allowed R ctx (lmask pa) in
  ∃ s' pkt' m', access s pkt = Ok (s', pkt') ∧ isResponse pkt' = true ∧
    range s' = range s ∧ pmem s' = Some m' ∧
    (if ok then patched m m' (row_off s (addr pkt)) d else m' = m) ∧
    locks_wf (lockedAddrList s') ∧
    reservations (lockedAddrList s') = (if ok then store_clears R (lmask pa) else R) ∧
    (isLLSC pkt = true → getExtraData (req pkt') = Ok (if ok then 1 else 0)).
Proof.
  intros Hq [] Hw R ok. rewrite (access_plain s pkt m d) by done.
  rewrite not_swap, sq_read0, sq_inval0, sq_write0 by done.
  destruct (writeOK_ok s pkt pa ctx) as (l' & w & HW & Hl & HR); [done..|].
  fold R ok in HW, HR.
  destruct (write_from_ok s pkt m d Hq) as (m' & Hm & Hpat).
  set (pkt1 := if isLLSC pkt then _ else pkt) in HW. destruct Hq.
  assert (req pkt1 = if isLLSC pkt then setExtraData (req pkt) (if ok then 1 else 0)
                     else req pkt) as Hreq by (unfold pkt1; by destruct (isLLSC pkt)).
  assert (isInstFetch (req pkt1) = false) as Hf by (by rewrite Hreq; destruct (isLLSC pkt)).
  destruct (respond_ok pkt1) as (pkt2 & Hr & Hres & _ & _ & Hreq2);
    [unfold pkt1; by destruct (isLLSC pkt)..|].
  assert (write_from m (row_off s (addr pkt)) pkt1 = Ok m') as Hm1
    by (rewrite <- Hm; unfold pkt1; by destruct (isLLSC pkt)).
  assert (getSize pkt1 = Ok (size pkt)) as Hsz
    by (rewrite <- (getSize_ok _ _ mq_wf0); unfold pkt1; by destruct (isLLSC pkt)).
  unfold access_write. rewrite HW. cbv [mbind res_mbind]. destruct ok.
  - simpl pmem. rewrite mq_pmem0, Hm1. cbv [fmap res_fmap]. rewrite Hf, Hsz. simpl check.
    cbv [mret res_mret]. rewrite Hr.
    eexists _, _, m'. split; [reflexivity|]. split_and!; try done.
    intros HL. by rewrite Hreq2, Hreq, HL, getExtraData_set.
  - cbv [mret res_mret]. rewrite Hr. eexists _, _, m. split; [reflexivity|].
    split_and!; try done. intros HL. by rewrite Hreq2, Hreq, HL, getExtraData_set.
Qed.

Lemma access_load_ok s pkt m d pa ctx :
  mem_req s pkt m d → isRead pkt = true → isWrite pkt = false →
  (isLLSC pkt = true → getPaddr (req pkt) = Ok pa ∧ contextId (req pkt) = Ok ctx) →
  locks_wf (lockedAddrList s) →
  ∃ s' pkt', access s pkt = Ok (s', pkt') ∧ isResponse pkt' = true ∧
    data pkt' = Some (bytes_at m (row_off s (addr pkt)) (length d)) ∧
    range s' = range s ∧ pmem s' = Some m ∧ locks_wf (lockedAddrList s') ∧
    reservations (lockedAddrList s') =
      if isLLSC pkt then <[ctx := lmask pa]> (reservations (lockedAddrList s))
      else reservations (lockedAddrList s).
Proof.
  intros Hq Hr Hnw Hll Hw. rewrite (access_plain s pkt m d) by done.
  rewrite bool_decide_false
    by (by intros E; unfold isWrite in Hnw; rewrite E in Hnw).
  rewrite Hr. pose proof (read_into_ok _ _ _ _ Hq) as Hri. destruct Hq.
  destruct (respond_ok (with_data pkt (Some (bytes_at m (row_off s (addr pkt)) (length d)))))
    as (pkt' & Hrp & Hres & _ & Hd & _); [done..|].
  unfold access_read. rewrite Hnw. simpl check. cbv [mbind res_mbind].
  assert (∃ l', (if isLLSC pkt then trackLoadLocked s pkt else mret s) = Ok (with_locked s l') ∧
    locks_wf l' ∧ reservations l' =
      if isLLSC pkt then <[ctx := lmask pa]> (reservations (lockedAddrList s))
      else reservations (lockedAddrList s)) as (l' & Hl & Hlw & HlR).
  { destruct (isLLSC pkt).
    - destruct Hll as [Hp Hc]; [done|]. by apply trackLoadLocked_ok.
    - exists (lockedAddrList s). split; [by destruct s|done]. }
  rewrite Hl. simpl pmem. rewrite mq_pmem0, Hri, (getSize_ok _ _ mq_wf0).
  cbv [mret res_mret]. rewrite Hrp. eexists _, _. split; [reflexivity|]. by rewrite Hd.
Qed.

(** C3: a store implements the reference monitor of load-locked and
    store-conditional.  A plain store is always performed; a conditional one
    exactly when its context still holds a reservation on the line, which is
    what its [extraData] then reports.  A performed store replaces exactly the
    bytes of the request and clears every context's reservation on the line; a
    refused one changes neither memory nor reservations. *)
Theorem access_store_refines_monitor s pkt m d pa ctx :
  mem_req s pkt m d → store_req pkt pa ctx → locks_wf (lockedAddrList s) →
  let R := reservations (lockedAddrList s) in
  let ok := negb (isLLSC pkt) || sc_allowed R ctx (lmask pa) in
  ∃ s' pkt' m', access s pkt = Ok (s', pkt') ∧ isResponse pkt' = true ∧
    range s' = range s ∧ pmem s' = Some m' ∧
    (if ok then patched m m' (row_off s (addr pkt)) d else m' = m) ∧
    locks_wf (lockedAddrList s') ∧
    reservations (lockedAddrList s') = (if ok then store_clears R (lmask pa) else R) ∧
    (isLLSC pkt = true → getExtraData (req pkt') = Ok (if ok then 1 else 0)).
Proof. apply access_store_ok. Qed.

(** C4: a load returns the bytes of the store and changes nothing in it; a
    load-locked also makes the line the context's only reservation. *)
Theorem access_load_refines_monitor s pkt m d pa ctx :
  mem_req s pkt m d → isRead pkt = true → isWrite pkt = false →
  (isLLSC pkt = true → getPaddr (req pkt) = Ok pa ∧ contextId (req pkt) = Ok ctx) →
  locks_wf (lockedAddrList s) →
  ∃ s' pkt', access s pkt = Ok (s', pkt') ∧ isResponse pkt' = true ∧
    data pkt' = Some (bytes_at m (row_off s (addr pkt)) (length d)) ∧
    range s' = range s ∧ pmem s' = Some m ∧ locks_wf (lockedAddrList s') ∧
    reservations (lockedAddrList s') =
      if isLLSC pkt then <[ctx := lmask pa]> (reservations (lockedAddrList s))
      else reservations (lockedAddrList s).
Proof. apply access_load_ok. Qed.

(** a load of the bytes a performed store has just written returns the
    data of the store. *)
Theorem access_write_read_roundtrip s wr rd m d d' pa ctx :
  mem_req s wr m d → store_req wr pa ctx → isLLSC wr = false →
  mem_req s rd m d' → isRead rd = true → isWrite rd = false → isLLSC rd = false →
  addr rd = addr wr → size rd = size wr → locks_wf (lockedAddrList s) →
  ∃ s1 wr' s2 rd', access s wr = Ok (s1, wr') ∧ access s1 rd = Ok (s2, rd') ∧
    data rd' = Some d.
Proof.
  intros Hq Hs Hll Hq' Hr Hw Hll' Ha Hn Hl.
  destruct (access_store_ok s wr m d pa ctx) as (s1 & wr' & m1 & H1 & _ & Hrg & Hm & Hp & Hlw & _);
    [done..|]. rewrite Hll in Hp. simpl in Hp.
  assert (row_off s1 (addr rd) = row_off s (addr wr)) as Hoff
    by (unfold row_off; by rewrite Hrg, Ha).
  assert (mem_req s1 rd m1 d') as Hq1.
  { destruct Hq'; split; try done; [by rewrite Hrg..|]. rewrite Hoff.
    eapply patched_mapped; [done|]. unfold row_off in *. by rewrite <- Ha. }
  destruct (access_load_ok s1 rd m1 d' 0 0) as (s2 & rd' & H2 & _ & Hd & _);
    [done..|by rewrite Hll'|done|].
  exists s1, wr', s2, rd'. split_and!; [done|done|]. rewrite Hd, Hoff. f_equal.
  replace (length d') with (length d); [by eapply patched_bytes_at|].
  pose proof (fw_len _ _ (mq_wf _ _ _ _ Hq)). pose proof (fw_len _ _ (mq_wf _ _ _ _ Hq')). lia.
Qed.

(** ** Examples *)

(** A store of [n] bytes that all hold [b]. *)
Definition uniform (n b : Z) : hostmem := gset_to_gmap b (list_to_set (seqZ 0 n)).

Lemma uniform_lookup n b x y : uniform n b !! x = Some y ↔ 0 ≤ x < n ∧ y = b.
Proof.
  unfold uniform. rewrite lookup_gset_to_gmap_Some, elem_of_list_to_set, elem_of_seqZ.
  split; intros [? ?]; split; (lia || done).
Qed.

Lemma uniform_mapped n b a k : 0 ≤ a → a + k ≤ n → mapped (uniform n b) a k.
Proof. intros ?? x ?. exists b. apply uniform_lookup. split; [lia|done]. Qed.

Lemma uniform_bytes_ok n b : 0 ≤ b < 256 → bytes_ok (uniform n b).
Proof. by intros ? x y [_ ->]%uniform_lookup. Qed.

Lemma uniform_word n b a :
  0 ≤ a → a + 8 ≤ n → word (uniform n b) a = little_endian_to_Z 8 (replicate 8 b).
Proof.
  intros ??. unfold word. f_equal. unfold bytes_at, byte_at.
  apply list_eq_same_length with 8%nat; [by rewrite length_replicate|by rewrite length_fmap, length_seq|].
  intros i x y Hi Hx Hy. apply lookup_replicate in Hy as [-> _].
  rewrite list_lookup_fmap, lookup_seq_lt in Hx by done. simpl in Hx. simplify_eq.
  by rewrite (proj2 (uniform_lookup n b (a + Z.of_nat i) b)) by lia.
Qed.

#[global] Opaque uniform.

(** A memory at [0x10000] over such a store, and a row-operation write for it. *)
Definition ex_mem (m : hostmem) : Memory :=
  mkMemory (AddrRange.AddrRange_simple 0x10000 0x15fff) (Some m) []
    (mkStats ∅ ∅ ∅ ∅ ∅ ∅) [].
Definition ex_rowop (o : RowOp) (d s1 s2 : Z) : Packet :=
  with_flags
    (with_data (new_Packet (Request_phys 0 d ROW_SIZE ROWOP 0) MemCmd.WriteReq)
       (Some (payload_bytes (mkPayload o d s1 s2))))
    (Flags.set (Flags.set VALID_ADDR VALID_SIZE) STATIC_DATA).

Lemma ex_rowop_req o d s1 s2 m :
  payload_wf (mkPayload o d s1 s2) → bytes_ok m →
  rowop_req (ex_mem m) (ex_rowop o d s1 s2) (mkPayload o d s1 s2) m.
Proof. intros. by split. Qed.

Ltac ex_row := apply uniform_mapped; unfold row_off, ROW_SIZE; simpl; lia.

Lemma access_rowop_elementwise_witness :
  ∃ m' pkt', access (ex_mem (uniform 0x6000 0x5a)) (ex_rowop ROWXOR 0x10000 0x12000 0x14000)
    = Ok (with_pmem (ex_mem (uniform 0x6000 0x5a)) (Some m'), pkt') ∧ word m' 8184 = 0.
Proof.
  destruct (access_rowop_elementwise (ex_mem (uniform 0x6000 0x5a))
    (ex_rowop ROWXOR 0x10000 0x12000 0x14000) (mkPayload ROWXOR 0x10000 0x12000 0x14000)
    (uniform 0x6000 0x5a) Z.lxor) as (m' & pkt' & H & _ & [_ Hw]);
    [apply ex_rowop_req; [unfold payload_wf; simpl; lia|apply uniform_bytes_ok; lia]|reflexivity|ex_row|ex_row
    |unfold fwd_safe; simpl; lia|intros _; split; [ex_row|unfold fwd_safe; simpl; lia]|].
  exists m', pkt'. split; [exact H|].
  change (word m' (row_off (ex_mem (uniform 0x6000 0x5a)) 0x10000 + 8 * 1023) = 0).
  by rewrite Hw, !uniform_word by (unfold row_off; simpl; lia).
Defined.

Lemma access_rowop_shift_witness :
  ∃ m' pkt', access (ex_mem (uniform 0x6000 0xff)) (ex_rowop ROWRS 0x10000 0x12000 0)
    = Ok (with_pmem (ex_mem (uniform 0x6000 0xff)) (Some m'), pkt') ∧
    row_value m' 0 row_words = row_value (uniform 0x6000 0xff) 8192 row_words / 2.
Proof.
  destruct (access_rowop_shift (ex_mem (uniform 0x6000 0xff))
    (ex_rowop ROWRS 0x10000 0x12000 0) (mkPayload ROWRS 0x10000 0x12000 0)
    (uniform 0x6000 0xff)) as (m' & pkt' & H & _ & _ & Hv);
    [apply ex_rowop_req; [unfold payload_wf; simpl; lia|apply uniform_bytes_ok; lia]|ex_row|ex_row
    |right; unfold ROW_SIZE; simpl; split; [done|lia]|].
  exists m', pkt'. split; [exact H|exact Hv].
Defined.

(** Every word has bit 63 set, so a correct shift would set bit 0 of the words
    above the lowest one. *)
Lemma access_rowop_shift_inplace_witness :
  ∃ m' pkt', access (ex_mem (uniform 0x6000 0x80)) (ex_rowop ROWLS 0x10000 0x10000 0)
    = Ok (with_pmem (ex_mem (uniform 0x6000 0x80)) (Some m'), pkt') ∧
    Z.testbit (word (uniform 0x6000 0x80) 0) 63 = true ∧ Z.testbit (word m' 8) 0 = false.
Proof.
  destruct (access_rowop_shift_inplace (ex_mem (uniform 0x6000 0x80))
    (ex_rowop ROWLS 0x10000 0x10000 0) (mkPayload ROWLS 0x10000 0x10000 0)
    (uniform 0x6000 0x80)) as (m' & pkt' & H & [_ Hw]);
    [apply ex_rowop_req; [unfold payload_wf; simpl; lia|apply uniform_bytes_ok; lia]|ex_row|left; reflexivity|reflexivity|].
  exists m', pkt'. split; [exact H|]. split; [by rewrite uniform_word by lia|].
  change 8 with (row_off (ex_mem (uniform 0x6000 0x80)) 0x10000 + 8 * 1).
  rewrite Hw by lia. unfold inplace_word. simpl op. cbn [decide]. by rewrite !uniform_word by (unfold row_off; simpl; lia).
Defined.

(** ** Example loads and stores *)

(** A four-byte request at [0x10100] of context 1. *)
Definition ex_access (c : MemCmd.Command) (d : list Z) : Packet :=
  with_flags
    (with_data (new_Packet (setThreadContext (Request_phys 0 0x10100 4 0 0) 1 0) c) (Some d))
    (Flags.set (Flags.set VALID_ADDR VALID_SIZE) STATIC_DATA).

Lemma ex_access_req c d l m :
  MemCmd.isRequest c = true → MemCmd.needsResponse c = true → length d = 4%nat →
  mapped m 0x100 4 → mem_req (with_locked (ex_mem m) l) (ex_access c d) m d.
Proof. intros ? ? Hd Hm. split; try done. split; try done. simpl. by rewrite Hd. Qed.

Lemma access_store_refines_monitor_witness :
  ∃ s' pkt', access (with_locked (ex_mem (uniform 0x6000 7)) [mkLocked 0x10100 1; mkLocked 0x10100 2])
      (ex_access MemCmd.StoreCondReq [1; 2; 3; 4]) = Ok (s', pkt') ∧
    getExtraData (req pkt') = Ok 1 ∧ reservations (lockedAddrList s') = ∅.
Proof.
  destruct (access_store_refines_monitor
    (with_locked (ex_mem (uniform 0x6000 7)) [mkLocked 0x10100 1; mkLocked 0x10100 2])
    (ex_access MemCmd.StoreCondReq [1; 2; 3; 4]) (uniform 0x6000 7) [1; 2; 3; 4] 0x10100 1)
    as (s' & pkt' & m' & H & _ & _ & _ & _ & _ & HR & HX).
  - apply ex_access_req; [done..|apply uniform_mapped; lia].
  - by split.
  - by apply (bool_decide_unpack _).
  - exists s', pkt'. clear - H HR HX. split; [exact H|].
    split; [rewrite HX by reflexivity; reflexivity|rewrite HR; reflexivity].
Defined.

Lemma access_load_refines_monitor_witness :
  ∃ s' pkt', access (with_locked (ex_mem (uniform 0x6000 7)) []) (ex_access MemCmd.LoadLockedReq [0; 0; 0; 0])
      = Ok (s', pkt') ∧ reservations (lockedAddrList s') = {[1 := 0x10100]}.
Proof.
  destruct (access_load_refines_monitor (with_locked (ex_mem (uniform 0x6000 7)) [])
    (ex_access MemCmd.LoadLockedReq [0; 0; 0; 0]) (uniform 0x6000 7) [0; 0; 0; 0] 0x10100 1)
    as (s' & pkt' & H & _ & _ & _ & _ & _ & HR);
    [apply ex_access_req; [done..|apply uniform_mapped; lia]|done|done|done|by apply NoDup_nil|].
  exists s', pkt'. split; [exact H|exact HR].
Defined.

Lemma access_write_read_roundtrip_witness :
  ∃ s1 wr' s2 rd', access (with_locked (ex_mem (uniform 0x6000 7)) []) (ex_access MemCmd.WriteReq [1; 2; 3; 4])
      = Ok (s1, wr') ∧
    access s1 (ex_access MemCmd.ReadReq [0; 0; 0; 0]) = Ok (s2, rd') ∧
    data rd' = Some [1; 2; 3; 4].
Proof.
  apply (access_write_read_roundtrip (with_locked (ex_mem (uniform 0x6000 7)) [])
    (ex_access MemCmd.WriteReq [1; 2; 3; 4]) (ex_access MemCmd.ReadReq [0; 0; 0; 0])
    (uniform 0x6000 7) [1; 2; 3; 4] [0; 0; 0; 0] 0x10100 1);
    [apply ex_access_req; [done..|apply uniform_mapped; lia]|by split|done|
     apply ex_access_req; [done..|apply uniform_mapped; lia]|done..|by apply NoDup_nil].
Defined.
