(* ===== verification/Events.v ===== *)
(** * Events and draining (sim/eventq_impl.hh, sim/drain.hh)

    What the memory components use of the simulation kernel: scheduling,
    rescheduling and descheduling their own events, and the drain state of an
    object.  An event is the tick it is scheduled for, if it is scheduled; the
    current tick [curTick()] is an argument of every operation. *)

From stdpp Require Import base decidable option numbers.
From S2P Require Import Prelude.
Local Open Scope Z_scope.

Abbreviation Tick := Z.

(** [MaxTick] of base/types.hh. *)
Definition MaxTick : Tick := 2 ^ 64 - 1.

Abbreviation Event := (option Tick).

Definition scheduled (e : Event) : bool := bool_decide (is_Some e).

Definition schedule (now : Tick) (e : Event) (when : Tick) : res Event :=
  assert_ (now <=? when);;
  assert_ (negb (scheduled e));;
  mret (Some when).

Definition deschedule (e : Event) : res Event :=
  assert_ (scheduled e);; mret None.

(** [reschedule(event, when)] with the default [always = false]. *)
Definition reschedule (now : Tick) (e : Event) (when : Tick) : res Event :=
  assert_ (now <=? when);;
  assert_ (scheduled e);;
  mret (Some when).

Inductive DrainState := Running | Draining | Drained.

#[global] Instance DrainState_eq_dec : EqDecision DrainState.
Proof. solve_decision. Defined.

Definition signalDrainDone (d : DrainState) : DrainState :=
  match d with Running => Running | Drained => Drained | Draining => Drained end.

(** The pattern [if (!e.scheduled()) schedule(e, when); else if (e.when() > when)
    reschedule(e, when);] keeps the earlier of the two times. *)
Definition schedule_min (now : Tick) (e : Event) (when : Tick) : res Event :=
  match e with
  | None => schedule now e when
  | Some t => if when <? t then reschedule now e when else mret e
  end.

(** ... and its mirror image the later one. *)
Definition schedule_max (now : Tick) (e : Event) (when : Tick) : res Event :=
  match e with
  | None => schedule now e when
  | Some t => if t <? when then reschedule now e when else mret e
  end.

(** ** Lemmas *)

Lemma schedule_ok now when : now ≤ when → schedule now None when = Ok (Some when).
Proof. intros H. unfold schedule. by rewrite (proj2 (Z.leb_le _ _) H). Qed.

Lemma reschedule_ok now t when : now ≤ when → reschedule now (Some t) when = Ok (Some when).
Proof. intros H. unfold reschedule. by rewrite (proj2 (Z.leb_le _ _) H). Qed.

Lemma schedule_inv now e when e' :
  schedule now e when = Ok e' → now ≤ when ∧ e = None ∧ e' = Some when.
Proof.
  unfold schedule. intros H. res_inv. subst. apply Z.leb_le in Hr.
  destruct e; [done|]. by split_and!.
Qed.

Lemma schedule_min_ok now e when :
  now ≤ when → ∃ t, schedule_min now e when = Ok (Some t) ∧ t ≤ when ∧
    (match e with None => t = when | Some t0 => t = Z.min t0 when end).
Proof.
  intros H. destruct e as [t|]; simpl.
  - destruct (Z.ltb_spec when t).
    + rewrite reschedule_ok by done. exists when. split; [done|lia].
    + exists t. split; [done|lia].
  - rewrite schedule_ok by done. exists when. split; [done|lia].
Qed.

Lemma schedule_max_ok now e when :
  now ≤ when → ∃ t, schedule_max now e when = Ok (Some t) ∧ when ≤ t ∧
    (match e with None => t = when | Some t0 => t = Z.max t0 when end).
Proof.
  intros H. destruct e as [t|]; simpl.
  - destruct (Z.ltb_spec t when).
    + rewrite reschedule_ok by done. exists when. split; [done|lia].
    + exists t. split; [done|lia].
  - rewrite schedule_ok by done. exists when. split; [done|lia].
Qed.
