(* ===== verification/Clocked.v ===== *)
(** * Clocked objects (sim/clocked_object.hh)

    An object keeps the tick of its next clock edge and the number of that cycle, and
    brings them up to date when it is asked for the time.  The period is constant. *)

From stdpp Require Import base numbers.
From S2P Require Import Prelude IntMath Events.
Local Open Scope Z_scope.

Module Clocked.

Record Clocked := mkClocked { tick : Tick; cycle : Z }.

(** [Clocked(clk_domain)] *)
Definition new_Clocked : Clocked := mkClocked 0 0.

Section clock.
Context (clockPeriod : Z).

(** [update()] *)
Definition update (now : Tick) (c : Clocked) : res Clocked :=
  if now <=? tick c then mret c
  else
    let c := mkClocked (add64 (tick c) clockPeriod) (u64 (cycle c + 1)) in
    if now <=? tick c then mret c
    else
      elapsedCycles ← IntMath.divCeil 64 (now - tick c) clockPeriod;
      mret (mkClocked (u64 (tick c + elapsedCycles * clockPeriod)) (u64 (cycle c + elapsedCycles))).

(** [resetClock()] *)
Definition resetClock (now : Tick) (c : Clocked) : res Clocked :=
  elapsedCycles ← IntMath.divCeil 64 now clockPeriod;
  mret (mkClocked (u64 (elapsedCycles * clockPeriod)) elapsedCycles).

(** [clockEdge(cycles)], [curCycle()] and [nextCycle()] *)
Definition clockEdge (now : Tick) (cycles : Z) (c : Clocked) : res (Tick * Clocked) :=
  c ← update now c;
  mret (u64 (tick c + clockPeriod * cycles), c).
Definition curCycle (now : Tick) (c : Clocked) : res (Z * Clocked) :=
  c ← update now c; mret (cycle c, c).
Definition nextCycle (now : Tick) (c : Clocked) : res (Tick * Clocked) := clockEdge now 1 c.

Definition ticksToCycles (t : Tick) : res Z := IntMath.divCeil 64 t clockPeriod.
Definition cyclesToTicks (c : Z) : Tick := u64 (clockPeriod * c).

End clock.
End Clocked.
Import Clocked.

(** ** The clock edges *)

(** The first edge that is not before [t]. *)
Definition edges (p t : Z) : Z := (t + p - 1) / p.
Definition edge (p t : Z) : Tick := p * edges p t.

Lemma edge_spec p t : 0 < p → t ≤ edge p t < t + p.
Proof.
  intros Hp. unfold edge, edges. pose proof (Z.div_mod (t + p - 1) p ltac:(lia)). pose proof (Z.mod_pos_bound (t + p - 1) p Hp). lia.
Qed.

Lemma edges_unique p t n : 0 < p → t ≤ p * n < t + p → edges p t = n.
Proof.
  intros Hp Hn. pose proof (edge_spec p t Hp) as He. unfold edge in He. assert (- p < p * (edges p t - n) < p) by lia.
  destruct (Z.lt_trichotomy (edges p t - n) 0) as [?|[?|?]]; nia.
Qed.

Lemma edge_mono p t t' : 0 < p → t ≤ t' → edge p t ≤ edge p t'.
Proof. intros Hp Ht. unfold edge, edges. apply Z.mul_le_mono_nonneg_l; [lia|]. apply Z.div_le_mono; lia. Qed.

(** The clock was last brought up to date at [t]. *)
Definition in_step (p t : Z) (c : Clocked) : Prop := tick c = edge p t ∧ cycle c = edges p t.

Lemma update_ok p t now c :
  0 < p → 0 ≤ t ≤ now → now + 2 * p < 2 ^ 64 → in_step p t c → ∃ c', update p now c = Ok c' ∧ in_step p now c'.
Proof.
  intros Hp Ht Hfit [Et Ec]. pose proof (edge_spec p t Hp) as He. unfold update. rewrite Et, Ec.
  assert (∀ n, now ≤ p * n < now + p → in_step p now (mkClocked (p * n) n)) as Hin.
  { intros n Hn. pose proof (edges_unique p now n Hp Hn) as E. unfold in_step, edge. simpl. by rewrite E. }
  assert (0 ≤ edges p t) as Hnn by (apply Z.div_pos; lia). unfold edge in *. assert (edges p t < 2 ^ 64) by nia.
  destruct (Z.leb_spec now (p * edges p t)).
  { exists c. split; [done|]. specialize (Hin (edges p t) ltac:(lia)). destruct c. simpl in *. by rewrite Et, Ec. }
  unfold add64. cbn [tick cycle]. rewrite !wrap_small by nia. destruct (Z.leb_spec now (p * edges p t + p)).
  { eexists. split; [done|]. replace (p * edges p t + p) with (p * (edges p t + 1)) by lia. apply Hin. lia. }
  rewrite IntMath.divCeil_eq by lia. cbn [mbind res_mbind]. set (n := (_ + p - 1) / p).
  pose proof (edge_spec p (now - (p * edges p t + p)) Hp) as Hn. unfold edge, edges in Hn. fold (edges p t) in Hn. fold n in Hn.
  eexists. split; [done|]. rewrite !wrap_small by nia.
  replace (p * edges p t + p + n * p) with (p * (edges p t + 1 + n)) by lia. apply Hin. lia.
Qed.

(** The clock edge [cycles] from now: at least [now], less than a period off, whatever
    the ticks at which the clock was asked before. *)
Lemma clockEdge_ok p t now cycles c :
  0 < p → 0 ≤ t ≤ now → 0 ≤ cycles → now + 2 * p + p * cycles < 2 ^ 64 → in_step p t c →
  ∃ c', clockEdge p now cycles c = Ok (edge p now + p * cycles, c') ∧ in_step p now c'.
Proof.
  intros Hp Ht Hc Hfit Hi. unfold clockEdge. destruct (update_ok p t now c Hp Ht ltac:(nia) Hi) as (c' & -> & Hi').
  cbn [mbind res_mbind]. exists c'. split; [|done]. pose proof (edge_spec p now Hp). destruct Hi' as [-> _]. rewrite wrap_small by nia. done.
Qed.
