(* ===== verification/SimpleMem.v ===== *)
(** * The simple memory (mem/simple_mem.hh, mem/simple_mem.cc)

    A memory of fixed latency and limited bandwidth.  An accepted request is performed at
    once; its response waits in [packetQueue] for its latency.  While the memory is busy it
    refuses requests and remembers to send a retry.  The response port may refuse a
    response as well, and new requests may arrive while a response is handed over.
    The theorem shows that the memory is the atomic one behind a queue of responses, in the
    order of the requests, and that its events never fail. *)

From stdpp Require Import base gmap list list_numbers.
From S2P Require Import Prelude Packets Events AbstractMem.
Import Packet AbstractMemory.
Local Open Scope Z_scope.

Module SimpleMemory.

Record DeferredPacket := mkDeferred { tick : Tick; pkt : Packet }.

Record SimpleMemory := mkSimple {
  memory : Memory;
  packetQueue : list DeferredPacket;
  isBusy : bool;
  retryReq : bool;
  retryResp : bool;
  releaseEvent : Event;
  dequeueEvent : Event;
  drainState : DrainState;
}.
Definition set_memory (v : Memory) (s : SimpleMemory) : SimpleMemory :=
  mkSimple v (packetQueue s) (isBusy s) (retryReq s) (retryResp s) (releaseEvent s) (dequeueEvent s) (drainState s).
Definition set_queue (v : list DeferredPacket) (s : SimpleMemory) : SimpleMemory :=
  mkSimple (memory s) v (isBusy s) (retryReq s) (retryResp s) (releaseEvent s) (dequeueEvent s) (drainState s).
Definition set_busy (v : bool) (e : Event) (s : SimpleMemory) : SimpleMemory :=
  mkSimple (memory s) (packetQueue s) v (retryReq s) (retryResp s) e (dequeueEvent s) (drainState s).
Definition set_retryReq (v : bool) (s : SimpleMemory) : SimpleMemory :=
  mkSimple (memory s) (packetQueue s) (isBusy s) v (retryResp s) (releaseEvent s) (dequeueEvent s) (drainState s).
Definition set_retryResp (v : bool) (s : SimpleMemory) : SimpleMemory :=
  mkSimple (memory s) (packetQueue s) (isBusy s) (retryReq s) v (releaseEvent s) (dequeueEvent s) (drainState s).
Definition set_dequeueEvent (e : Event) (s : SimpleMemory) : SimpleMemory :=
  mkSimple (memory s) (packetQueue s) (isBusy s) (retryReq s) (retryResp s) (releaseEvent s) e (drainState s).
Definition set_drainState (d : DrainState) (s : SimpleMemory) : SimpleMemory :=
  mkSimple (memory s) (packetQueue s) (isBusy s) (retryReq s) (retryResp s) (releaseEvent s) (dequeueEvent s) d.

(** [SimpleMemory(p)] *)
Definition new_SimpleMemory (m : Memory) : SimpleMemory := mkSimple m [] false false false None None Running.

(** [getLatency()]; [rnd] is drawn from [0, latency_var]. *)
Definition getLatency (latency latency_var rnd : Z) : Tick :=
  add64 latency (if latency_var =? 0 then 0 else rnd).

(** [recvAtomic(pkt)]; [latency] is the result of [getLatency()]. *)
Definition recvAtomic (latency : Z) (m : Memory) (pkt : Packet) : res (Memory * Packet * Z) :=
  '(m, pkt) ← access m pkt;
  mret (m, pkt, if Packet.memInhibitAsserted pkt then 0 else latency).

(** [recvFunctional(pkt)]: the queued responses answer or take the access too. *)
Fixpoint check_queue (pkt : Packet) (l : list DeferredPacket) : res (Packet * list DeferredPacket) :=
  match l with
  | [] => mret (pkt, [])
  | d :: l =>
      '(done, pkt, other) ← Packet.checkFunctional_pkt pkt (SimpleMemory.pkt d);
      let d := mkDeferred (tick d) other in
      if (done : bool) then mret (pkt, d :: l)
      else '(pkt, l) ← check_queue pkt l; mret (pkt, d :: l)
  end.
Definition recvFunctional (pkt : Packet) (s : SimpleMemory) : res (Packet * SimpleMemory) :=
  '(m, pkt) ← functionalAccess (memory s) pkt;
  '(pkt, l) ← check_queue pkt (packetQueue s);
  mret (pkt, set_queue l (set_memory m s)).

Section timing.
(** The parameters; [duration n] is [n * bandwidth], computed in floating point. *)
Context (latency latency_var : Z) (duration : Z → Tick).

(** [recvTimingReq(pkt)]; the packet is the sender's, with what the memory did to it. *)
Definition recvTimingReq (now rnd : Z) (pkt : Packet) (s : SimpleMemory) : res (bool * SimpleMemory * Packet) :=
  if Packet.memInhibitAsserted pkt then mret (true, s, pkt)
  else if retryReq s then mret (false, s, pkt)
  else if isBusy s then mret (false, set_retryReq true s, pkt)
  else
    let pkt := Packet.with_delays pkt 0 0 in
    s ← (if Packet.isRead pkt || Packet.isWrite pkt then
           n ← Packet.getSize pkt;
           if duration n =? 0 then mret s
           else e ← schedule now (releaseEvent s) (add64 now (duration n)); mret (set_busy true e s)
         else mret s);
    let needsResponse := Packet.needsResponse pkt in
    '(m, pkt, _) ← recvAtomic (getLatency latency latency_var rnd) (memory s) pkt;
    let s := set_memory m s in
    if needsResponse then
      assert_ (Packet.isResponse pkt);;
      let t := add64 now (getLatency latency latency_var rnd) in
      let s := set_queue (packetQueue s ++ [mkDeferred t pkt]) s in
      if negb (retryResp s) && negb (scheduled (dequeueEvent s)) then
        e ← schedule now (dequeueEvent s) t; mret (true, set_dequeueEvent e s, pkt)
      else mret (true, s, pkt)
    else mret (true, s, pkt).

(** [release()]: whether a retry is sent. *)
Definition release (s : SimpleMemory) : res (bool * SimpleMemory) :=
  assert_ (isBusy s);;
  let s := set_busy false (releaseEvent s) s in
  mret (retryReq s, set_retryReq false s).

(** [dequeue()]; [sendTimingResp] is the port, which may make requests before it returns. *)
Definition dequeue (sendTimingResp : Packet → SimpleMemory → res (bool * SimpleMemory)) (now : Z) (s : SimpleMemory) :
    res SimpleMemory :=
  match packetQueue s with
  | [] => Err Assert
  | d :: _ =>
      '(taken, s) ← sendTimingResp (pkt d) s;
      let s := set_retryResp (negb taken) s in
      if retryResp s then mret s
      else
        let s := set_queue (tail (packetQueue s)) s in
        match packetQueue s with
        | d :: _ =>
            let t := Z.max (tick d) now in
            e ← (if scheduled (dequeueEvent s) then reschedule now (dequeueEvent s) t
                 else schedule now (dequeueEvent s) t);
            mret (set_dequeueEvent e s)
        | [] => mret (if bool_decide (drainState s = Draining)
                      then set_drainState (signalDrainDone (drainState s)) s else s)
        end
  end.

(** [recvRespRetry()] *)
Definition recvRespRetry (sendTimingResp : Packet → SimpleMemory → res (bool * SimpleMemory)) (now : Z) (s : SimpleMemory) :
    res SimpleMemory :=
  assert_ (retryResp s);;
  dequeue sendTimingResp now s.

End timing.

(** [drain()] *)
Definition drain (s : SimpleMemory) : DrainState :=
  if bool_decide (packetQueue s = []) then Drained else Draining.

End SimpleMemory.

(** ** The memory and its port *)

Import SimpleMemory.

Section simple.
Context (latency latency_var : Z) (duration : Z → Tick).

(** What the memory does for its environment: a request is performed, a response leaves. *)
Inductive output := Performed (p : Packet) | Delivered (p : Packet).

(** A request, and requests in turn. *)
Definition receive (now : Z) (st : SimpleMemory * list output) (r : Packet * Z) : res (SimpleMemory * list output) :=
  '(taken, s, _) ← recvTimingReq latency latency_var duration now r.2 r.1 st.1;
  mret (s, st.2 ++ if (taken : bool) && negb (memInhibitAsserted r.1) then [Performed r.1] else []).
Definition receive_all (now : Z) (l : list (Packet * Z)) (s : SimpleMemory) : res (SimpleMemory * list output) :=
  foldM (receive now) (s, []) l.

(** A port that makes the requests [during] before it takes or refuses a response. *)
Definition port_call (now : Z) (during : list (Packet * Z)) (taken : bool) (_ : Packet) (s : SimpleMemory) :
    res (bool * SimpleMemory) :=
  '(s, _) ← receive_all now during s; mret (taken, s).
Definition delivered (taken : bool) (s : SimpleMemory) : list output :=
  if taken then Delivered <$> take 1 (pkt <$> packetQueue s) else [].

(** What happens to the memory: a request, its two events, a retry of the port. *)
Inductive action :=
  | Receive (p : Packet) (rnd : Z)
  | Release
  | Dequeue (during : list (Packet * Z)) (taken : bool)
  | RespRetry (during : list (Packet * Z)) (taken : bool)
  | Drain.
Definition step (now : Z) (a : action) (s : SimpleMemory) : res (SimpleMemory * list output) :=
  match a with
  | Receive p rnd => receive now (s, []) (p, rnd)
  | Release => '(_, s) ← release (set_busy (isBusy s) None s); mret (s, [])
  | Dequeue during taken =>
      let s := set_dequeueEvent None s in
      '(_, out) ← receive_all now during s;
      s' ← dequeue (port_call now during taken) now s;
      mret (s', out ++ delivered taken s)
  | RespRetry during taken =>
      '(_, out) ← receive_all now during s;
      s' ← recvRespRetry (port_call now during taken) now s;
      mret (s', out ++ delivered taken s)
  | Drain => mret (set_drainState (drain s) s, [])
  end.
Definition requests (a : action) : list (Packet * Z) :=
  match a with Receive p rnd => [(p, rnd)] | Dequeue l _ | RespRetry l _ => l | _ => [] end.

(** The specification: requests are performed at once, and the responses leave in the order
    of the requests. *)
Definition spec_step (o : output) (st : Memory * list Packet) (st' : Memory * list Packet) : Prop :=
  match o with
  | Performed p => ∃ m p', access st.1 (with_delays p 0 0) = Ok (m, p') ∧
      st' = (m, if needsResponse p then st.2 ++ [p'] else st.2)
  | Delivered p => st.2 = p :: st'.2 ∧ st'.1 = st.1
  end.
Inductive spec_run : Memory * list Packet → list output → Memory * list Packet → Prop :=
  | spec_done st : spec_run st [] st
  | spec_cons st o l st1 st2 : spec_step o st st1 → spec_run st1 l st2 → spec_run st (o :: l) st2.
Definition state (s : SimpleMemory) : Memory * list Packet := (memory s, pkt <$> packetQueue s).

(** The invariant between events. *)
Record sm_inv (now : Z) (s : SimpleMemory) : Prop := {
  sm_busy : isBusy s = scheduled (releaseEvent s);
  sm_retry : retryReq s = true → isBusy s = true;
  sm_events t : releaseEvent s = Some t ∨ dequeueEvent s = Some t → now ≤ t;
  sm_dequeue : scheduled (dequeueEvent s) = negb (bool_decide (packetQueue s = [])) && negb (retryResp s);
  sm_resp : retryResp s = true → packetQueue s ≠ [];
  sm_drain : drainState s = Draining → packetQueue s ≠ [];
}.

(** An action that may happen at tick [t]: no event is overdue, and a port that refuses a
    response makes no request meanwhile. *)
Definition refuses (during : list (Packet * Z)) (taken : bool) : Prop := taken = false → during = [].
Definition enabled (t : Z) (a : action) (s : SimpleMemory) : Prop :=
  match a with
  | Receive _ _ | Drain => True
  | Release => releaseEvent s = Some t
  | Dequeue during taken => dequeueEvent s = Some t ∧ refuses during taken
  | RespRetry during taken => retryResp s = true ∧ refuses during taken
  end.
Definition not_overdue (t : Z) (s : SimpleMemory) : Prop :=
  ∀ e, releaseEvent s = Some e ∨ dequeueEvent s = Some e → t ≤ e.

(** The requests the memory can serve: the access succeeds on every memory of [I], and
    time does not overflow. *)
Context (I : Memory → Prop).
Record served (t : Z) (p : Packet) (rnd : Z) : Prop := {
  sv_size : Flags.isSet (flags p) VALID_SIZE = true;
  sv_time : ∀ x, x = duration (size p) ∨ x = getLatency latency latency_var rnd → 0 ≤ x ∧ t + x < 2 ^ 64;
  sv_access m : I m → ∃ m' p', access m (with_delays p 0 0) = Ok (m', p') ∧ I m' ∧ (needsResponse p = true → isResponse p' = true);
}.
Definition admissible (now t : Z) (a : action) (s : SimpleMemory) : Prop :=
  0 ≤ now ≤ t ∧ not_overdue t s ∧ enabled t a s ∧ Forall (λ '(p, rnd), served t p rnd) (requests a).

(** Reachable states, with their outputs. *)
Inductive steps : Z → SimpleMemory → list output → Z → SimpleMemory → Prop :=
  | steps_refl now s : steps now s [] now s
  | steps_snoc now s l t1 s1 t2 s2 a out :
      steps now s l t1 s1 → admissible t1 t2 a s1 → step t2 a s1 = Ok (s2, out) → steps now s (l ++ out) t2 s2.

Lemma spec_run_app st l1 st1 l2 st2 : spec_run st l1 st1 → spec_run st1 l2 st2 → spec_run st (l1 ++ l2) st2.
Proof using Type. induction 1; [done|]. intros. econstructor; eauto. Qed.

(** What a request leaves alone, and what it needs of the state: also while a response is
    handed over. *)
Record req_inv (now : Z) (s : SimpleMemory) : Prop := {
  rq_busy : isBusy s = scheduled (releaseEvent s);
  rq_retry : retryReq s = true → isBusy s = true;
  rq_events t : releaseEvent s = Some t ∨ dequeueEvent s = Some t → now ≤ t;
  rq_mem : I (memory s);
}.
Definition grows (s s' : SimpleMemory) (new : list DeferredPacket) : Prop :=
  packetQueue s' = packetQueue s ++ new ∧ retryResp s' = retryResp s ∧ drainState s' = drainState s ∧
  scheduled (dequeueEvent s') = scheduled (dequeueEvent s) || (negb (bool_decide (new = [])) && negb (retryResp s)).

Lemma grows_refl s : grows s s [].
Proof using Type. split; [by rewrite app_nil_r|]. split; [done|]. split; [done|]. by rewrite orb_false_r. Qed.
Lemma grows_trans s s1 s2 new new' : grows s s1 new → grows s1 s2 new' → grows s s2 (new ++ new').
Proof using Type.
  intros (E1 & E2 & E3 & E4) (F1 & F2 & F3 & F4). rewrite E1, <- app_assoc in F1. split; [done|]. split; [congruence|]. split; [congruence|].
  rewrite F4, E4, E2. destruct new; simpl; [by rewrite orb_false_r|]. destruct (scheduled (dequeueEvent s)), (retryResp s); simpl; by rewrite ?orb_true_r, ?andb_false_r.
Qed.

(** The bandwidth limit only schedules the release. *)
Lemma occupy_ok now s p :
  0 ≤ now → req_inv now s → isBusy s = false → Flags.isSet (flags p) VALID_SIZE = true →
  0 ≤ duration (size p) ∧ now + duration (size p) < 2 ^ 64 →
  ∃ b e, (if isRead p || isWrite p then
            n ← getSize p;
            if duration n =? 0 then mret s
            else e ← schedule now (releaseEvent s) (add64 now (duration n)); mret (set_busy true e s)
          else mret s) = Ok (set_busy b e s) ∧ req_inv now (set_busy b e s).
Proof using Type.
  intros Hn [Hb Hr He Hm] Hnb Hsz [Hd1 Hd2]. assert (set_busy false None s = s) as Es.
  { rewrite Hnb in Hb. destruct s as [? ? b ? ? [?|] ? ?]; [done|]. cbn in Hnb. by rewrite Hnb. }
  assert (∃ b e, Ok s = Ok (set_busy b e s) ∧ req_inv now (set_busy b e s)) as Hstay by (exists false, None; by rewrite Es).
  destruct (isRead p || isWrite p); [|exact Hstay]. unfold getSize. rewrite Hsz. cbn [check mbind res_mbind mret res_mret].
  case_match; [exact Hstay|]. assert (releaseEvent s = None) as ->.
  { rewrite Hnb in Hb. by destruct (releaseEvent s). }
  unfold add64. rewrite wrap_small by lia. rewrite schedule_ok by lia. cbn [mbind res_mbind].
  eexists _, _. split; [reflexivity|]. split; [done|done| |done]. intros t [[= <-]|E]; [lia|]. apply He. by right.
Qed.

Lemma recvTimingReq_ok now s p rnd l :
  0 ≤ now → req_inv now s → served now p rnd →
  ∃ s' new out, receive now (s, l) (p, rnd) = Ok (s', l ++ out) ∧ req_inv now s' ∧ grows s s' new ∧
    spec_run (state s) out (state s').
Proof using Type.
  intros Hn Hq [Hsz Ht Ha]. pose proof Hq as [Hb Hr He Hm]. unfold receive, recvTimingReq. cbn [fst snd].
  assert (∃ s' new out, Ok (s, l ++ []) = Ok (s', l ++ out) ∧ req_inv now s' ∧ grows s s' new ∧ spec_run (state s) out (state s')) as Hstay.
  { exists s, [], []. split_and!; [done|done|apply grows_refl|constructor]. }
  destruct (memInhibitAsserted p) eqn:Hi; [exact Hstay|]. destruct (retryReq s) eqn:Hrr; [exact Hstay|].
  destruct (isBusy s) eqn:Hbs; cbn [mbind res_mbind mret res_mret andb].
  { exists (set_retryReq true s), [], []. split_and!; [done|by split; simpl; rewrite ?Hbs|apply (grows_refl s)|apply (spec_done (state s))]. }
  destruct (occupy_ok now s (with_delays p 0 0)) as (b & e & E & [Hb1 Hr1 He1 Hm1]); [done|done|done|done|apply Ht; by left|].
  rewrite E. cbn [mbind res_mbind]. unfold recvAtomic. destruct (Ha _ Hm1) as (m & p' & Eac & Hm' & Hresp).
  rewrite Eac. cbn [mbind res_mbind mret res_mret]. change (needsResponse (with_delays p 0 0)) with (needsResponse p).
  assert (spec_run (state s) [Performed p] (m, if needsResponse p then (state s).2 ++ [p'] else (state s).2)) as Hspec.
  { econstructor; [|constructor]. by exists m, p'. }
  destruct (needsResponse p) eqn:Hnr; cbn [check mbind res_mbind mret res_mret].
  2:{ exists (set_memory m (set_busy b e s)), [], [Performed p]. split_and!; [done|by split|by apply (grows_refl s)|done]. }
  rewrite Hresp by done. cbn [check mbind res_mbind]. set (t := add64 now _). set (s1 := set_queue _ _).
  assert (now ≤ t) as Htn by (unfold t, add64; destruct (Ht _ (or_intror eq_refl)); rewrite wrap_small; lia).
  assert (state s1 = (m, (state s).2 ++ [p'])) as Es1 by (unfold state; simpl; by rewrite fmap_app).
  rewrite <- Es1 in Hspec. destruct (negb (retryResp s1) && negb (scheduled (dequeueEvent s1))) eqn:Hd.
  - apply andb_true_iff in Hd as [Hd1 Hd2]. assert (dequeueEvent s1 = None) as -> by (by destruct (dequeueEvent s1)).
    rewrite schedule_ok by done. cbn [mbind res_mbind]. exists (set_dequeueEvent (Some t) s1), [mkDeferred t p'], [Performed p].
    split_and!; [done| | |done].
    + split; [done..| |done]. intros x [Hx|[= <-]]; [apply He1; by left|done].
    + split_and!; [done..|]. simpl. change (retryResp s1) with (retryResp s) in Hd1. rewrite Hd1. by rewrite orb_true_r.
  - cbn [mbind res_mbind]. exists s1, [mkDeferred t p'], [Performed p]. split_and!; [done|by split| |done].
    split_and!; [done..|]. simpl. change (retryResp s1) with (retryResp s) in Hd. change (dequeueEvent s1) with (dequeueEvent s) in *.
    by destruct (retryResp s), (scheduled (dequeueEvent s)).
Qed.

Lemma receive_all_ok now s during :
  0 ≤ now → req_inv now s → Forall (λ '(p, rnd), served now p rnd) during →
  ∃ s' new out, receive_all now during s = Ok (s', out) ∧ req_inv now s' ∧ grows s s' new ∧ spec_run (state s) out (state s').
Proof using Type.
  intros Hn Hq Hl. unfold receive_all.
  assert (∀ s0 l, req_inv now s0 → ∃ s' new out, foldM (receive now) (s0, l) during = Ok (s', l ++ out) ∧ req_inv now s' ∧ grows s0 s' new ∧
    spec_run (state s0) out (state s')) as H.
  { clear s Hq. induction Hl as [|[p rnd] during Hp Hl IH]; intros s l Hq.
    { exists s, [], []. split_and!; [by rewrite app_nil_r|done|apply grows_refl|constructor]. }
    cbn [foldM]. destruct (recvTimingReq_ok now s p rnd l Hn Hq Hp) as (s1 & new1 & out1 & -> & Hq1 & Hg1 & Hs1). cbn [mbind res_mbind].
    destruct (IH s1 (l ++ out1) Hq1) as (s2 & new2 & out2 & -> & Hq2 & Hg2 & Hs2). exists s2, (new1 ++ new2), (out1 ++ out2).
    split_and!; [by rewrite app_assoc|done|by eapply grows_trans|by eapply spec_run_app]. }
  apply (H s [] Hq).
Qed.

Lemma sm_inv_later now t s : sm_inv now s → not_overdue t s → sm_inv t s.
Proof using Type. intros [] Ht. by split. Qed.

Lemma sm_inv_grows now s s' new : sm_inv now s → req_inv now s' → grows s s' new → sm_inv now s'.
Proof using Type.
  intros [_ _ _ Hd Hr Hdr] [] (Eq & Er & Ed & Es). split; [done..| | |].
  - rewrite Es, Eq, Er, Hd. destruct (packetQueue s), new; simpl; destruct (retryResp s); done.
  - rewrite Er, Eq. intros H [E _]%app_eq_nil. by apply Hr.
  - rewrite Ed, Eq. intros H [E _]%app_eq_nil. by apply Hdr.
Qed.

(** The first response is handed over, or refused. *)
Lemma dequeue_ok now s during taken :
  0 ≤ now → req_inv now s → packetQueue s ≠ [] → dequeueEvent s = None → refuses during taken →
  Forall (λ '(p, rnd), served now p rnd) during →
  ∃ s' s1 out, receive_all now during s = Ok (s1, out) ∧ dequeue (port_call now during taken) now s = Ok s' ∧
    sm_inv now s' ∧ I (memory s') ∧ spec_run (state s) (out ++ delivered taken s) (state s').
Proof using Type.
  intros Hn Hq Hne Hev Href Hl. destruct (receive_all_ok now s during Hn Hq Hl) as (s1 & new & out & E & Hq1 & Hg & Hs).
  pose proof Hq1 as [Hb1 Hr1 He1 Hm1]. unfold dequeue. destruct (packetQueue s) as [|d rest] eqn:Eq; [done|].
  unfold port_call. rewrite E. cbn [mbind res_mbind mret res_mret]. destruct Hg as (Gq & Gr & Gd & Ge). rewrite Eq in Gq. simpl in Gq.
  unfold delivered. rewrite Eq. destruct taken; cbn [negb]; simpl.
  - assert (spec_run (state s) (out ++ [Delivered (pkt d)]) (memory s1, pkt <$> rest ++ new)) as Hs2.
    { eapply spec_run_app; [exact Hs|]. econstructor; [|constructor]. unfold state. rewrite Gq. done. }
    rewrite Gq. simpl. destruct (rest ++ new) as [|d2 rest2] eqn:Er.
    + apply app_eq_nil in Er as [-> ->]. rewrite orb_false_r, Hev in Ge. eexists _, s1, out. split; [done|]. split; [done|].
      case_bool_decide; simpl; (split; [split; try done|done]).
      simpl. by rewrite H.
    + assert (∃ x, now ≤ x ∧ (if scheduled (dequeueEvent s1) then reschedule now (dequeueEvent s1) (tick d2 `max` now)
        else schedule now (dequeueEvent s1) (tick d2 `max` now)) = Ok (Some x)) as (x & Hx & ->).
      { exists (tick d2 `max` now). split; [lia|]. destruct (dequeueEvent s1); simpl; [apply reschedule_ok|apply schedule_ok]; lia. }
      cbn [mbind res_mbind]. eexists _, s1, out. split; [done|]. split; [done|]. split; [split; try done|done].
      simpl. intros y [Hy|[= <-]]; [apply He1; by left|done].
  - rewrite (Href eq_refl) in E. injection E as <- <-. eexists _, s, []. split; [done|]. split; [done|].
    split; [|split; [done|constructor]]. split; simpl; try done; [by rewrite Hev, andb_false_r|by rewrite Eq..].
Qed.

Lemma step_ok now t a s :
  sm_inv now s → I (memory s) → admissible now t a s →
  ∃ s' out, step t a s = Ok (s', out) ∧ sm_inv t s' ∧ I (memory s') ∧ spec_run (state s) out (state s').
Proof using Type.
  intros Hi Hm (Hn & Hov & Hen & Hl). apply (sm_inv_later now t) in Hi; [|done]. pose proof Hi as [Hb Hr He Hd Hrs Hdr].
  assert (req_inv t s) as Hq by done. destruct a as [p rnd| |during taken|during taken|]; simpl in *.
  - inversion_clear Hl as [|?? Hp _]. destruct (recvTimingReq_ok t s p rnd [] ltac:(lia) Hq Hp) as (s' & new & out & -> & Hq' & Hg & Hs).
    exists s', out. split_and!; [done|by eapply sm_inv_grows|by destruct Hq'|done].
  - rewrite Hen in Hb. unfold release. simpl. rewrite Hb. cbn [check mbind res_mbind]. eexists _, []. split; [done|].
    split; [|split; [done|constructor]]. split; simpl; try done. intros x [?|?]; [done|]. apply He. by right.
  - destruct Hen as [Hde Href]. assert (packetQueue s ≠ []) as Hne by (intros E; by rewrite Hde, E in Hd).
    destruct (dequeue_ok t (set_dequeueEvent None s) during taken) as (s' & s1 & out & E & E2 & Hi' & Hm' & Hs); try done; [lia| |].
    { split; [done..| |done]. simpl. intros x [?|?]; [|done]. apply He. by left. }
    rewrite E. cbn [mbind res_mbind]. rewrite E2. cbn [mbind res_mbind]. by eexists _, _.
  - destruct Hen as [Hre Href]. assert (dequeueEvent s = None) as Hde. { rewrite Hre, andb_false_r in Hd. by destruct (dequeueEvent s). }
    destruct (dequeue_ok t s during taken) as (s' & s1 & out & E & E2 & Hi' & Hm' & Hs); try done; [lia|by apply Hrs|].
    unfold recvRespRetry. rewrite E, Hre. cbn [check mbind res_mbind]. rewrite E2. cbn [mbind res_mbind]. by eexists _, _.
  - eexists _, []. split; [done|]. split; [|split; [done|constructor]]. split; try done. simpl. unfold drain. by case_bool_decide.
Qed.

Lemma steps_ok now m l t s : I m → steps now (new_SimpleMemory m) l t s → sm_inv t s ∧ I (memory s) ∧ spec_run (m, []) l (state s).
Proof using Type.
  intros Hm Hs. remember (new_SimpleMemory m) as s0 eqn:E. induction Hs as [now s|now s l t1 s1 t2 s2 a out _ IH Ha Es]; subst.
  { split; [|split; [done|constructor]]. split; simpl; try done. by intros x [?|?]. }
  destruct (IH eq_refl) as (Hi & Hm1 & Hr). destruct (step_ok t1 t2 a s1 Hi Hm1 Ha) as (s' & out' & E & Hi' & Hm' & Hs').
  rewrite Es in E. injection E as <- <-. split_and!; [done|done|by eapply spec_run_app].
Qed.


End simple.
