(* ===== verification/EventQ.v ===== *)
(** * The event queue (sim/eventq.hh, sim/eventq.cc, sim/eventq_impl.hh, sim/simulate.cc)

    The queue is a linked list of bins: [nextBin] links the first events of the bins, which
    hold the events of one tick and priority as a stack linked by [nextInBin].  The links
    of events that are not the first of their bin may be stale.  The events are a heap of
    objects named by their address; what an event does is a parameter.  The queue of one
    thread is modelled, with the insertions other threads leave for it; locking is not. *)

From stdpp Require Import base gmap list relations.
From S2P Require Import Prelude Packets.
Local Open Scope Z_scope.

Module EventQueue.

Definition PublicWrite : Z := 0x001d.
Definition Squashed : Z := 0x0001.
Definition Scheduled : Z := 0x0002.
Definition AutoDelete : Z := 0x0004.
Definition IsExitEvent : Z := 0x0010.
Definition IsMainQueue : Z := 0x0020.
Definition Initialized : Z := 0x7a40.
Definition InitMask : Z := 0xffc0.

Record Event := mkEvent {
  nextBin : option Z;
  nextInBin : option Z;
  _when : Z;
  _priority : Z;
  flags : Z;
  queue : option Z;
}.
Definition set_nextBin (v : option Z) (e : Event) : Event :=
  mkEvent v (nextInBin e) (_when e) (_priority e) (flags e) (queue e).
Definition set_nextInBin (v : option Z) (e : Event) : Event :=
  mkEvent (nextBin e) v (_when e) (_priority e) (flags e) (queue e).
Definition set_flags (v : Z) (e : Event) : Event :=
  mkEvent (nextBin e) (nextInBin e) (_when e) (_priority e) v (queue e).

(** [setWhen(when, q)] *)
Definition setWhen (w : Z) (q : Z) (e : Event) : Event :=
  mkEvent (nextBin e) (nextInBin e) w (_priority e) (flags e) (Some q).

(** [Event(p, f)] *)
Definition new_Event (p f : Z) : res Event :=
  assert_ (Flags.noneSet f (wrap 16 (Z.lnot PublicWrite)));;
  mret (mkEvent None None 0 p (Z.lor Initialized f) None).

Definition scheduled (e : Event) : bool := Flags.isSet (flags e) Scheduled.
Definition squashed (e : Event) : bool := Flags.isSet (flags e) Squashed.
Definition isExitEvent (e : Event) : bool := Flags.isSet (flags e) IsExitEvent.
Definition isAutoDelete (e : Event) : bool := Flags.isSet (flags e) AutoDelete.
Definition initialized (e : Event) : bool := Z.land (flags e) InitMask =? Initialized.
Definition set_flag (m : Z) (e : Event) : Event := set_flags (Flags.set (flags e) m) e.
Definition clear_flag (m : Z) (e : Event) : Event := set_flags (Flags.clear 16 (flags e) m) e.

(** [operator<], [operator<=] and [operator==] on events *)
Definition event_lt (l r : Event) : bool :=
  (_when l <? _when r) || ((_when l =? _when r) && (_priority l <? _priority r)).
Definition event_le (l r : Event) : bool :=
  (_when l <? _when r) || ((_when l =? _when r) && (_priority l <=? _priority r)).
Definition event_eq (l r : Event) : bool := (_when l =? _when r) && (_priority l =? _priority r).

(** The queue with the events of the program; [self] is its address. *)
Record EventQueue := mkQueue {
  self : Z;
  events : gmap Z Event;
  head : option Z;
  _curTick : Z;
  async_queue : list Z;
}.
Definition set_events (v : gmap Z Event) (q : EventQueue) : EventQueue :=
  mkQueue (self q) v (head q) (_curTick q) (async_queue q).
Definition set_head (v : option Z) (q : EventQueue) : EventQueue :=
  mkQueue (self q) (events q) v (_curTick q) (async_queue q).
Definition setCurTick (v : Z) (q : EventQueue) : EventQueue :=
  mkQueue (self q) (events q) (head q) v (async_queue q).
Definition set_async_queue (v : list Z) (q : EventQueue) : EventQueue :=
  mkQueue (self q) (events q) (head q) (_curTick q) v.

(** [*e] and assignments through a pointer to an event *)
Definition deref (h : gmap Z Event) (e : Z) : res Event :=
  match h !! e with Some x => mret x | None => Err UB end.
Definition update (e : Z) (f : Event → Event) (h : gmap Z Event) : res (gmap Z Event) :=
  x ← deref h e; mret (<[e := f x]> h).

(** [Event::insertBefore(event, curr)] *)
Definition insertBefore (h : gmap Z Event) (event : Z) (curr : option Z) : res (gmap Z Event) :=
  match curr with
  | None => update event (λ e, set_nextInBin None (set_nextBin None e)) h
  | Some c =>
      x ← deref h event;
      y ← deref h c;
      if event_lt x y then update event (λ e, set_nextInBin None (set_nextBin (Some c) e)) h
      else update event (λ e, set_nextInBin (Some c) (set_nextBin (nextBin y) e)) h
  end.

(** The loop [while (curr && *curr < *event) { prev = curr; curr = curr->nextBin; }];
    a chain with more links than there are events is a cycle, on which it does not end. *)
Fixpoint find_bin (fuel : nat) (h : gmap Z Event) (event : Event) (prev : Z) (curr : option Z) : res (Z * option Z) :=
  match curr, fuel with
  | None, _ => mret (prev, None)
  | Some _, O => Err UB
  | Some c, S fuel =>
      y ← deref h c;
      if event_lt y event then find_bin fuel h event c (nextBin y) else mret (prev, curr)
  end.

(** [insert(event)] *)
Definition insert (event : Z) (q : EventQueue) : res EventQueue :=
  let h := events q in
  e ← deref h event;
  at_head ← (match head q with
             | None => mret true
             | Some c => y ← deref h c; mret (event_le e y)
             end);
  match head q, at_head with
  | Some c, false =>
      y ← deref h c;
      '(prev, curr) ← find_bin (size h) h e c (nextBin y);
      h ← insertBefore h event curr;
      h ← update prev (set_nextBin (Some event)) h;
      mret (set_events h q)
  | _, _ =>
      h ← insertBefore h event (head q);
      mret (set_head (Some event) (set_events h q))
  end.

(** The loop of [removeItem]: the event before [event] in the bin. *)
Fixpoint find_in_bin (fuel : nat) (h : gmap Z Event) (event curr : Z) (next : option Z) : res Z :=
  match next, fuel with
  | None, _ => Err Panic
  | Some _, O => Err UB
  | Some n, S fuel =>
      if n =? event then mret curr
      else y ← deref h n; find_in_bin fuel h event n (nextInBin y)
  end.

(** [Event::removeItem(event, top)]: the new top and the events. *)
Definition removeItem (h : gmap Z Event) (event top : Z) : res (option Z * gmap Z Event) :=
  t ← deref h top;
  if event =? top then
    match nextInBin t with
    | None => mret (nextBin t, h)
    | Some n => h ← update n (set_nextBin (nextBin t)) h; mret (Some n, h)
    end
  else
    curr ← find_in_bin (size h) h event top (nextInBin t);
    x ← deref h event;
    h ← update curr (set_nextInBin (nextInBin x)) h;
    mret (Some top, h).

(** [remove(event)] *)
Definition remove (event : Z) (q : EventQueue) : res EventQueue :=
  match head q with
  | None => Err Panic
  | Some c =>
      let h := events q in
      e ← deref h event;
      assert_ (bool_decide (queue e = Some (self q)));;
      y ← deref h c;
      if event_eq y e then
        '(top, h) ← removeItem h event c;
        mret (set_head top (set_events h q))
      else
        '(prev, curr) ← find_bin (size h) h e c (nextBin y);
        match curr with
        | None => Err Panic
        | Some c =>
            y ← deref h c;
            if event_eq y e then
              '(top, h) ← removeItem h event c;
              h ← update prev (set_nextBin top) h;
              mret (set_events h q)
            else Err Panic
        end
  end.

Definition on_event (e : Z) (f : Event → Event) (q : EventQueue) : res EventQueue :=
  h ← update e f (events q); mret (set_events h q).

(** [delete event]: the destructor asserts that the event is not scheduled. *)
Definition delete_event (e : Z) (q : EventQueue) : res EventQueue :=
  x ← deref (events q) e;
  assert_ (negb (scheduled x));;
  mret (set_events (delete e (events q)) q).

Definition asyncInsert (event : Z) (q : EventQueue) : EventQueue := set_async_queue (async_queue q ++ [event]) q.
Definition handleAsyncInsertions (q : EventQueue) : res EventQueue :=
  q' ← foldM (λ q e, insert e q) q (async_queue q);
  mret (set_async_queue [] q').

(** [schedule(event, when, global)]; [foreign] is
    [inParallelMode && (this != curEventQueue() || global)]. *)
Definition schedule (foreign : bool) (event w : Z) (q : EventQueue) : res EventQueue :=
  assert_ (_curTick q <=? w);;
  e ← deref (events q) event;
  assert_ (negb (scheduled e));;
  assert_ (initialized e);;
  q ← on_event event (setWhen w (self q)) q;
  q ← (if foreign then mret (asyncInsert event q) else insert event q);
  on_event event (set_flag Scheduled) q.

(** [deschedule(event)]; [mine] is [!inParallelMode || this == curEventQueue()]. *)
Definition deschedule (mine : bool) (event : Z) (q : EventQueue) : res EventQueue :=
  e ← deref (events q) event;
  assert_ (scheduled e);;
  assert_ (initialized e);;
  assert_ mine;;
  q ← remove event q;
  q ← on_event event (λ e, clear_flag Scheduled (clear_flag Squashed e)) q;
  e ← deref (events q) event;
  if isAutoDelete e then delete_event event q else mret q.

(** [reschedule(event, when, always)] *)
Definition reschedule (mine : bool) (event w : Z) (always : bool) (q : EventQueue) : res EventQueue :=
  assert_ (_curTick q <=? w);;
  e ← deref (events q) event;
  assert_ (always || scheduled e);;
  assert_ (initialized e);;
  assert_ mine;;
  q ← (if scheduled e then remove event q else mret q);
  q ← on_event event (setWhen w (self q)) q;
  q ← insert event q;
  on_event event (λ e, set_flag Scheduled (clear_flag Squashed e)) q.

Definition squash (event : Z) (q : EventQueue) : res EventQueue := on_event event (set_flag Squashed) q.

Definition empty (q : EventQueue) : bool := bool_decide (head q = None).
Definition nextTick (q : EventQueue) : res Z :=
  match head q with None => Err UB | Some c => y ← deref (events q) c; mret (_when y) end.

(** [replaceHead(s)] *)
Definition replaceHead (s : option Z) (q : EventQueue) : option Z * EventQueue := (head q, set_head s q).

(** [EventQueue(n)] at address [a]. *)
Definition new_EventQueue (a : Z) (h : gmap Z Event) : EventQueue := mkQueue a h None 0 [].

(** The inner loop of [debugVerify]: [None] when it reports an error, else the time and
    priority of the last event and the events seen. *)
Fixpoint verify_bin (fuel : nat) (h : gmap Z Event) (time priority : Z) (map : list Z) (next : option Z)
    : res (option (Z * Z * list Z)) :=
  match next, fuel with
  | None, _ => mret (Some (time, priority, map))
  | Some _, O => Err UB
  | Some n, S fuel =>
      y ← deref h n;
      if _when y <? time then mret None
      else if (_when y =? time) && (_priority y <? priority) then mret None
      else if bool_decide (n ∈ map) then mret None
      else verify_bin fuel h (_when y) (_priority y) (n :: map) (nextInBin y)
  end.
Fixpoint verify_bins (fuel : nat) (h : gmap Z Event) (time priority : Z) (map : list Z) (next : option Z) : res bool :=
  match next, fuel with
  | None, _ => mret true
  | Some _, O => Err UB
  | Some n, S fuel =>
      r ← verify_bin (size h) h time priority map next;
      match r with
      | None => mret false
      | Some (time, priority, map) => y ← deref h n; verify_bins fuel h time priority map (nextBin y)
      end
  end.
(** [debugVerify()] *)
Definition debugVerify (q : EventQueue) : res bool := verify_bins (size (events q)) (events q) 0 0 [] (head q).

(** [Event::serialize] writes the time, the priority and the flags. *)
Definition serialize (e : Event) : Z * Z * Z := (_when e, _priority e, flags e).
(** [Event::unserialize] *)
Definition unserialize (cp : Z * Z * Z) (e : Event) : res Event :=
  let '(w, p, f) := cp in
  assert_ (negb (scheduled e));;
  assert_ (initialized e);;
  let e := mkEvent (nextBin e) (nextInBin e) w p (Flags.set f Initialized) (queue e) in
  mret (if scheduled e && negb (squashed e) then clear_flag (Z.lor Squashed Scheduled) e else e).
(** [checkpointReschedule(event)] *)
Definition checkpointReschedule (event : Z) (q : EventQueue) : res EventQueue :=
  e ← deref (events q) event;
  if scheduled e then insert event q else mret q.

(** [UNSERIALIZE_EVENT(event)] *)
Definition unserialize_event (event : Z) (cp : Z * Z * Z) (q : EventQueue) : res EventQueue :=
  e ← deref (events q) event;
  e ← unserialize cp e;
  checkpointReschedule event (set_events (<[event := e]> (events q)) q).

(** The flags the signal handlers set for the simulation loop. *)
Record AsyncRequest := mkAsync {
  async_event : bool;
  async_statdump : bool;
  async_statreset : bool;
  async_io : bool;
  async_exit : bool;
  async_exception : bool;
}.
(** What the simulation loop has come to: still running, or its return value. *)
Inductive LoopResult := Running | Returned (e : option Z).

Section service.
(** What the events do, [process()] of event [e]; [Stats::schedStatEvent], [pollQueue.service]
    and [exitSimLoop]. *)
Context (process : Z → EventQueue → res EventQueue)
        (schedStatEvent : bool → bool → EventQueue → res EventQueue)
        (pollService exitSimLoop : EventQueue → res EventQueue).

(** The part of [serviceOne] that takes the first event off the queue. *)
Definition pop (q : EventQueue) : res (Z * EventQueue) :=
  match head q with
  | None => Err UB
  | Some c =>
      y ← deref (events q) c;
      q ← on_event c (clear_flag Scheduled) q;
      match nextInBin y with
      | Some n =>
          q ← on_event n (set_nextBin (nextBin y)) q;
          mret (c, set_head (Some n) q)
      | None => mret (c, set_head (nextBin y) q)
      end
  end.

(** [serviceOne()]: the exit event, if it was one. *)
Definition serviceOne (q : EventQueue) : res (option Z * EventQueue) :=
  '(c, q) ← pop q;
  e ← deref (events q) c;
  '(exit, q) ←
    (if negb (squashed e) then
       q ← process c (setCurTick (_when e) q);
       e ← deref (events q) c;
       if isExitEvent e then
         assert_ (negb (isAutoDelete e) || negb (Flags.isSet (flags e) IsMainQueue));;
         mret (true, q)
       else mret (false, q)
     else
       q ← on_event c (clear_flag Squashed) q;
       mret (false, q));
  if (exit : bool) then mret (Some c, q)
  else
    e ← deref (events q) c;
    if isAutoDelete e && negb (scheduled e) then q ← delete_event c q; mret (None, q)
    else mret (None, q).

(** [serviceEvents(when)], with [fuel] events. *)
Fixpoint serviceEvents (fuel : nat) (w : Z) (q : EventQueue) : res (option EventQueue) :=
  if empty q then mret (Some (setCurTick w q))
  else
    t ← nextTick q;
    if w <? t then mret (Some (setCurTick w q))
    else match fuel with
         | O => mret None
         | S fuel => '(_, q) ← serviceOne q; serviceEvents fuel w q
         end.

(** The service of the requests that signal handlers have left for the simulation loop;
    [true] when the loop returns on an exception. *)
Definition service_async (r : AsyncRequest) (q : EventQueue) : res (bool * EventQueue) :=
  if async_event r then
    q ← (if async_statdump r || async_statreset r then schedStatEvent (async_statdump r) (async_statreset r) q else mret q);
    q ← (if async_io r then pollService q else mret q);
    q ← (if async_exit r then exitSimLoop q else mret q);
    mret (async_exception r, q)
  else mret (false, q).

(** Iterations of [while (1)], one for each element of [rs], the requests it finds. *)
Fixpoint simLoop (rs : list AsyncRequest) (q : EventQueue) : res (LoopResult * EventQueue) :=
  match rs with
  | [] => mret (Running, q)
  | r :: rs =>
      assert_ (negb (empty q));;
      t ← nextTick q;
      assert_ (_curTick q <=? t);;
      '(exception, q) ← service_async r q;
      if (exception : bool) then mret (Returned None, q)
      else
        '(exit, q) ← serviceOne q;
        match exit with Some e => mret (Returned (Some e), q) | None => simLoop rs q end
  end.
Definition doSimLoop (rs : list AsyncRequest) (q : EventQueue) : res (LoopResult * EventQueue) :=
  q ← handleAsyncInsertions q; simLoop rs q.

End service.

End EventQueue.
