(* ===== verification/EventQOrder.v ===== *)
(** * The event queue as a sorted list

    The bins of the queue hold the scheduled events in the order they will be serviced:
    by tick, then by priority, the last inserted first.  [represents] relates the linked
    bins to that list; every operation of the queue does on the bins what its
    counterpart of [Spec] does on the list, failures included. *)

From stdpp Require Import base gmap list relations sorting.
From S2P Require Import Prelude Packets EventQ.
Import EventQueue.
Local Open Scope Z_scope.

(** ** Keys *)

Definition key (e : Event) : Z * Z := (_when e, _priority e).
Definition key_lt (k1 k2 : Z * Z) : Prop := k1.1 < k2.1 ∨ k1.1 = k2.1 ∧ k1.2 < k2.2.
Definition key_le (k1 k2 : Z * Z) : Prop := k1.1 < k2.1 ∨ k1.1 = k2.1 ∧ k1.2 ≤ k2.2.

#[export] Instance key_lt_dec k1 k2 : Decision (key_lt k1 k2).
Proof. unfold key_lt. apply _. Defined.
#[export] Instance key_le_dec k1 k2 : Decision (key_le k1 k2).
Proof. unfold key_le. apply _. Defined.

Ltac key_solve :=
  unfold key_lt, key_le, key in *; simpl in *;
  repeat match goal with k : Z * Z |- _ => destruct k as [? ?]; simpl in * end; simplify_eq; try lia.

Lemma key_not_lt k1 k2 : ¬ key_lt k1 k2 → k1 ≠ k2 → key_lt k2 k1.
Proof.
  destruct k1 as [w1 p1], k2 as [w2 p2]. unfold key_lt. simpl. intros Hn Hne.
  destruct (decide (w1 = w2)) as [->|]; [|lia]. destruct (decide (p1 = p2)) as [->|]; [done|lia].
Qed.
Lemma key_lt_trans k1 k2 k3 : key_lt k1 k2 → key_lt k2 k3 → key_lt k1 k3.
Proof. key_solve. Qed.

Lemma event_lt_key x y : event_lt x y = bool_decide (key_lt (key x) (key y)).
Proof. unfold event_lt. case_bool_decide; key_solve. Qed.
Lemma event_le_key x y : event_le x y = bool_decide (key_le (key x) (key y)).
Proof. unfold event_le. case_bool_decide; key_solve. Qed.
Lemma event_eq_key x y : event_eq x y = bool_decide (key x = key y).
Proof. unfold event_eq, key. case_bool_decide; simplify_eq; [lia|]. apply not_true_is_false. intros Hb. apply H. f_equal; lia. Qed.

(** ** What the list says of an event: all of it but the links *)

Record Info := mkInfo { i_key : Z * Z; i_flags : Z; i_queue : option Z }.
Definition info (e : Event) : Info := mkInfo (key e) (flags e) (queue e).

(** ** Bins *)

Record Bin := mkBin { bkey : Z * Z; top : Z; rest : list Z }.
Definition members (b : Bin) : list Z := top b :: rest b.
Definition order_of (bs : list Bin) : list Z := concat (members <$> bs).

Fixpoint in_bin (h : gmap Z Event) (k : Z * Z) (b : list Z) : Prop :=
  match b with
  | [] => True
  | x :: b => (∃ e, h !! x = Some e ∧ key e = k ∧ nextInBin e = list.head b) ∧ in_bin h k b
  end.

Definition link (bs : list Bin) (next : option Z) : option Z :=
  match bs with [] => next | b :: _ => Some (top b) end.

Fixpoint linked (h : gmap Z Event) (bs : list Bin) (next : option Z) : Prop :=
  match bs with
  | [] => True
  | b :: bs =>
      (∃ e, h !! top b = Some e ∧ nextBin e = link bs next) ∧
      in_bin h (bkey b) (members b) ∧ linked h bs next
  end.

Record bins_ok (h : gmap Z Event) (hd : option Z) (bs : list Bin) : Prop := {
  bins_head : hd = link bs None;
  bins_linked : linked h bs None;
  bins_sorted : StronglySorted key_lt (bkey <$> bs);
  bins_nodup : NoDup (order_of bs);
}.

Lemma order_of_app bs1 bs2 : order_of (bs1 ++ bs2) = order_of bs1 ++ order_of bs2.
Proof. unfold order_of. by rewrite fmap_app, concat_app. Qed.
Lemma order_of_cons b bs : order_of (b :: bs) = members b ++ order_of bs.
Proof. done. Qed.
Lemma order_of_single b : order_of [b] = members b.
Proof. unfold order_of. simpl. by rewrite app_nil_r. Qed.

Lemma link_app bs1 bs2 next : link (bs1 ++ bs2) next = link bs1 (link bs2 next).
Proof. by destruct bs1. Qed.

Lemma linked_app h bs1 bs2 next :
  linked h (bs1 ++ bs2) next ↔ linked h bs1 (link bs2 next) ∧ linked h bs2 next.
Proof.
  induction bs1 as [|b bs1 IH]; simpl; [tauto|]. rewrite IH, link_app. tauto.
Qed.

Lemma in_bin_app h k b1 x b2 :
  in_bin h k (b1 ++ x :: b2) → ∃ e, h !! x = Some e ∧ key e = k ∧ nextInBin e = list.head b2.
Proof. induction b1 as [|y b1 IH]; simpl; [tauto|]. intros [_ ?]. auto. Qed.

Lemma in_bin_elem h k b x : in_bin h k b → x ∈ b → ∃ e, h !! x = Some e ∧ key e = k.
Proof. intros Hb [b1 [b2 ->]]%list_elem_of_split. destruct (in_bin_app _ _ _ _ _ Hb) as (e&?&?&_). eauto. Qed.

(** A bin does not depend on the other events, nor on the [nextBin] links. *)
Lemma in_bin_frame h h' k b :
  (∀ x e, x ∈ b → h !! x = Some e → ∃ e', h' !! x = Some e' ∧ key e' = key e ∧ nextInBin e' = nextInBin e) →
  in_bin h k b → in_bin h' k b.
Proof.
  induction b as [|x b IH]; simpl; [done|]. intros Hf [(e&He&Hk&Hn) Hb]. split.
  - destruct (Hf x e) as (e'&?&?&?); [set_solver|done|]. exists e'. split_and!; congruence.
  - apply IH; [|done]. intros y e0 ?. apply Hf. set_solver.
Qed.

Lemma linked_frame h h' bs next :
  (∀ x e, x ∈ order_of bs → h !! x = Some e →
    ∃ e', h' !! x = Some e' ∧ key e' = key e ∧ nextInBin e' = nextInBin e ∧ nextBin e' = nextBin e) →
  linked h bs next → linked h' bs next.
Proof.
  induction bs as [|b bs IH]; [done|]. cbn [linked]. intros Hf [(e&He&Hn) [Hb Hl]].
  setoid_rewrite order_of_cons in Hf. split_and!.
  - destruct (Hf (top b) e) as (e'&?&?&?&?); [unfold members; set_solver|done|]. exists e'. split; congruence.
  - eapply in_bin_frame, Hb. intros x e0 ??. destruct (Hf x e0) as (e'&?&?&?&?); [set_solver|done|eauto].
  - apply IH; [|done]. intros x e0 ?. apply Hf. set_solver.
Qed.

Lemma linked_frame_eq h h' bs next :
  (∀ x, x ∈ order_of bs → h' !! x = h !! x) → linked h bs next → linked h' bs next.
Proof. intros Hf. apply linked_frame. intros x e Hx He. exists e. by rewrite Hf, He. Qed.

Lemma elem_of_order x bs : x ∈ order_of bs ↔ ∃ b, b ∈ bs ∧ x ∈ members b.
Proof.
  induction bs as [|b bs IH]; [set_solver|]. rewrite order_of_cons. set_solver.
Qed.

Lemma linked_elem h bs next b : linked h bs next → b ∈ bs → in_bin h (bkey b) (members b).
Proof. intros Hl [bs1 [bs2 ->]]%list_elem_of_split. apply linked_app in Hl. cbn [linked] in Hl. tauto. Qed.

Lemma linked_key h bs next b x :
  linked h bs next → b ∈ bs → x ∈ members b → ∃ e, h !! x = Some e ∧ key e = bkey b.
Proof. intros. eapply in_bin_elem; [by eapply linked_elem|done]. Qed.

(** The events of the list are in the heap, so that they are no more than its size. *)
Lemma nodup_size (h : gmap Z Event) l : NoDup l → (∀ x, x ∈ l → is_Some (h !! x)) → (length l ≤ size h)%nat.
Proof.
  intros Hnd Hl. rewrite <- (size_list_to_set (C := gset Z) l) by done.
  rewrite <- size_dom. apply subseteq_size. intros x Hx. apply elem_of_dom. set_solver.
Qed.

Lemma order_size h hd bs : bins_ok h hd bs → (length (order_of bs) ≤ size h)%nat.
Proof.
  intros [_ Hl _ Hnd]. apply nodup_size; [done|]. intros x (b&Hb&Hx)%elem_of_order.
  destruct (linked_key _ _ _ _ _ Hl Hb Hx) as (e&->&_). eauto.
Qed.

Lemma length_order bs : (length bs ≤ length (order_of bs))%nat.
Proof. induction bs as [|b bs IH]; [done|]. rewrite order_of_cons, length_app. simpl. lia. Qed.

Lemma deref_ok h x e : h !! x = Some e → deref h x = Ok e.
Proof. unfold deref. by intros ->. Qed.

(** ** Insertion *)

(** Where an event of key [k] goes: before the first that is not earlier. *)
Lemma split_bins k bs :
  ∃ pre suf, bs = pre ++ suf ∧ Forall (λ b, key_lt (bkey b) k) pre ∧
    (∀ b suf', suf = b :: suf' → ¬ key_lt (bkey b) k).
Proof.
  induction bs as [|b bs (pre&suf&->&Hp&Hs)]; [by exists [], []|].
  destruct (decide (key_lt (bkey b) k)) as [Hk|Hk].
  - exists (b :: pre), suf. split_and!; [done|by constructor|done].
  - exists [], (b :: pre ++ suf). split_and!; [done|constructor|]. by intros ?? [= <- <-].
Qed.

Lemma find_bin_spec h e suf fuel b pre :
  linked h (b :: pre ++ suf) None → Forall (λ b, key_lt (bkey b) (key e)) pre →
  (∀ b suf', suf = b :: suf' → ¬ key_lt (bkey b) (key e)) →
  (length (pre ++ suf) ≤ fuel)%nat →
  ∃ init lst, b :: pre = init ++ [lst] ∧
    find_bin fuel h e (top b) (link (pre ++ suf) None) = Ok (top lst, link suf None).
Proof.
  revert fuel b. induction pre as [|b' pre IH]; intros fuel b Hl Hp Hs Hf.
  - exists [], b. split; [done|]. destruct suf as [|c suf]; simpl in *; [by destruct fuel|].
    destruct fuel as [|fuel]; [lia|]. simpl. destruct Hl as (_ & _ & (y&Hy&_) & [(y'&Hy'&Hk&_) _] & _).
    unfold deref. rewrite Hy. simplify_eq. cbn. rewrite event_lt_key, bool_decide_eq_false_2; [done|].
    rewrite Hk. by eapply Hs.
  - simpl in Hf. destruct fuel as [|fuel]; [lia|]. apply Forall_cons in Hp as [Hb' Hp].
    assert (Hl' : linked h (b' :: pre ++ suf) None) by exact (proj2 (proj2 Hl)).
    destruct (IH fuel b' Hl' Hp Hs) as (init&lst&Heq&Hfind); [lia|].
    exists (b :: init), lst. split; [by rewrite Heq|]. rewrite <- Hfind. cbn [link app find_bin].
    destruct Hl' as ((y&Hy&Hn) & [(y'&Hy'&Hk&_) _] & _). unfold deref. rewrite Hy. simplify_eq. cbn.
    rewrite event_lt_key, Hk, bool_decide_eq_true_2, Hn; done.
Qed.

(** The bins from the one the event goes to, or is put before, on. *)
Definition put (x : Z) (k : Z * Z) (suf : list Bin) : list Bin :=
  match suf with
  | [] => [mkBin k x []]
  | b :: suf' => if decide (bkey b = k) then mkBin k x (members b) :: suf' else mkBin k x [] :: suf
  end.

Lemma order_of_put x k suf : order_of (put x k suf) = x :: order_of suf.
Proof. destruct suf as [|b suf]; [done|]. simpl. by case_decide. Qed.

Lemma link_put x k suf next : link (put x k suf) next = Some x.
Proof. destruct suf as [|b suf]; [done|]. simpl. by case_decide. Qed.

Lemma insertBefore_spec h x e suf :
  h !! x = Some e → x ∉ order_of suf → linked h suf None →
  (∀ b suf', suf = b :: suf' → ¬ key_lt (bkey b) (key e)) →
  ∃ e', insertBefore h x (link suf None) = Ok (<[x := e']> h) ∧ info e' = info e ∧
    linked (<[x := e']> h) (put x (key e) suf) None.
Proof.
  intros Hx Hnx Hl Hs. unfold insertBefore, update, deref. destruct suf as [|b suf]; cbn [link].
  { rewrite Hx. eexists. split_and!; [done|done|]. split_and!; [|split; [|done]|done];
      (eexists; split; [by rewrite lookup_insert_eq|done]). }
  assert (Hfr : ∀ v, linked (<[x := v]> h) (b :: suf) None).
  { intros v. eapply linked_frame_eq, Hl. intros y Hy. rewrite lookup_insert_ne; [done|congruence]. }
  rewrite Hx. cbn [mbind res_mbind mret res_mret].
  pose proof Hl as ((y&Hy&Hn) & [(y'&Hy'&Hk&_) _] & _). rewrite Hy. simplify_eq.
  cbn [mbind res_mbind mret res_mret]. rewrite event_lt_key. unfold put. case_bool_decide as Hlt.
  - eexists. split_and!; [done|done|]. rewrite decide_False by (rewrite <- Hk; intros E; rewrite E in Hlt; key_solve).
    cbn [linked]. split_and!; [|split; [|done]|apply Hfr|apply Hfr|apply Hfr]; cbn [top];
      (eexists; split; [by rewrite lookup_insert_eq|done]).
  - eexists. split_and!; [done|done|]. assert (bkey b = key e) as Heq.
    { specialize (Hs b suf eq_refl). rewrite <- Hk in *. clear -Hs Hlt. key_solve.
      unfold key. f_equal; lia. }
    rewrite decide_True by done. cbn [linked]. split_and!; cbn [top bkey].
    + eexists. split; [by rewrite lookup_insert_eq|]. cbn. done.
    + split; [eexists; split; [by rewrite lookup_insert_eq|done]|]. rewrite <- Heq. apply Hfr.
    + apply Hfr.
Qed.

(** The position of an event of key [k] in the list of events. *)
Definition earlier (im : gmap Z Info) (k : Z * Z) (y : Z) : bool :=
  match im !! y with Some i => bool_decide (key_lt (i_key i) k) | None => false end.
Fixpoint place (im : gmap Z Info) (x : Z) (k : Z * Z) (l : list Z) : list Z :=
  match l with
  | [] => [x]
  | y :: l' => if earlier im k y then y :: place im x k l' else x :: l
  end.

Lemma place_after im x k l1 l2 :
  (∀ y, y ∈ l1 → ∃ i, im !! y = Some i ∧ key_lt (i_key i) k) → place im x k (l1 ++ l2) = l1 ++ place im x k l2.
Proof.
  induction l1 as [|y l1 IH]; intros Hl; [done|]. simpl. destruct (Hl y) as (i&Hi&Hk); [set_solver|].
  unfold earlier. rewrite Hi, bool_decide_eq_true_2 by done. f_equal. apply IH. set_solver.
Qed.

Lemma place_perm im x k l : place im x k l ≡ₚ x :: l.
Proof. induction l as [|y l IH]; simpl; [done|]. destruct (earlier im k y); [|done]. rewrite IH. constructor. Qed.

Lemma place_bins h bs x k pre suf :
  bs = pre ++ suf → linked h bs None → Forall (λ b, key_lt (bkey b) k) pre →
  (∀ b suf', suf = b :: suf' → ¬ key_lt (bkey b) k) →
  order_of (pre ++ put x k suf) = place (info <$> h) x k (order_of bs).
Proof.
  intros -> Hl Hp Hs. rewrite !order_of_app, order_of_put, place_after.
  - f_equal. destruct suf as [|b suf]; [done|]. rewrite order_of_cons. simpl.
    apply linked_app in Hl as [_ [_ [[(e&He&Hk&_) _] _]]].
    unfold earlier. rewrite lookup_fmap, He. simpl. rewrite Hk, bool_decide_eq_false_2; [done|]. by eapply Hs.
  - intros y (b&Hb&Hy)%elem_of_order. apply linked_app in Hl as [Hl _].
    destruct (linked_key _ _ _ _ _ Hl Hb Hy) as (e&He&Hk). exists (info e).
    rewrite lookup_fmap, He. split; [done|]. simpl. rewrite Hk. by eapply Forall_forall in Hp.
Qed.

Lemma put_sorted x k pre suf :
  StronglySorted key_lt (bkey <$> pre ++ suf) → Forall (λ b, key_lt (bkey b) k) pre →
  (∀ b suf', suf = b :: suf' → ¬ key_lt (bkey b) k) →
  StronglySorted key_lt (bkey <$> pre ++ put x k suf).
Proof.
  rewrite !fmap_app, !StronglySorted_app. intros (Hps&Hpre&Hsuf) Hp Hs.
  assert (Hk : ∀ k', k' ∈ bkey <$> put x k suf → k' = k ∨ k' ∈ bkey <$> suf).
  { destruct suf as [|b suf]; simpl; [set_solver|]. case_decide; set_solver. }
  split_and!; [|done|].
  - intros k1 k2 H1 [->|H2]%Hk; [|by apply Hps]. apply list_elem_of_fmap in H1 as (b&->&Hb).
    by eapply Forall_forall in Hp.
  - destruct suf as [|b suf]; simpl; [repeat constructor|]. specialize (Hs b suf eq_refl).
    case_decide as Heq; [by subst k|]. constructor; [done|]. cbn in Hsuf.
    apply StronglySorted_cons in Hsuf as [Hb _].
    assert (Hlt : key_lt k (bkey b)) by (by apply key_not_lt). constructor; [done|].
    eapply Forall_impl; [exact Hb|]. intros k'. by apply key_lt_trans.
Qed.

(** Changing the link of the last bin of a segment. *)
Lemma relink h init lst next y v :
  linked h (init ++ [lst]) next → NoDup (order_of (init ++ [lst])) → h !! top lst = Some y →
  linked (<[top lst := set_nextBin v y]> h) (init ++ [lst]) v.
Proof.
  rewrite order_of_app, order_of_single. intros Hl (_&Hd&_)%NoDup_app Hy.
  apply linked_app in Hl as [Hi [_ [Hb _]]]. apply linked_app. split; [|split_and!; [..|done]].
  - eapply linked_frame_eq, Hi. intros x Hx. rewrite lookup_insert_ne; [done|]. intros <-.
    apply (Hd _ Hx). by left.
  - eexists. split; [by rewrite lookup_insert_eq|done].
  - eapply in_bin_frame, Hb. intros x e Hx He. destruct (decide (x = top lst)) as [->|].
    + rewrite lookup_insert_eq. assert (e = y) as -> by congruence. by exists (set_nextBin v y).
    + rewrite lookup_insert_ne by done. eauto.
Qed.

Lemma info_insert (h : gmap Z Event) x e e' : h !! x = Some e → info e' = info e → info <$> <[x := e']> h = info <$> h.
Proof. intros Hx He. rewrite fmap_insert, He. apply insert_id. by rewrite lookup_fmap, Hx. Qed.

(** [q'] is [q] with other links, in which the events are in the order [l]. *)
Definition reordered (q : EventQueue) (l : list Z) (q' : EventQueue) : Prop :=
  ∃ h hd bs, q' = set_head hd (set_events h q) ∧ info <$> h = info <$> events q ∧ bins_ok h hd bs ∧ order_of bs = l.

(** Putting together the bins before and from the position of the event. *)
Lemma put_bins_ok h hd x k pre suf :
  hd = link (pre ++ put x k suf) None → linked h pre (Some x) → linked h (put x k suf) None →
  StronglySorted key_lt (bkey <$> pre ++ suf) → NoDup (order_of (pre ++ suf)) → x ∉ order_of (pre ++ suf) →
  Forall (λ b, key_lt (bkey b) k) pre → (∀ b suf', suf = b :: suf' → ¬ key_lt (bkey b) k) →
  bins_ok h hd (pre ++ put x k suf).
Proof.
  intros Hhd Hl1 Hl2 Hs Hnd Hx Hp Hsuf. split; [done| |by apply put_sorted|].
  - apply linked_app. by rewrite link_put.
  - rewrite order_of_app, order_of_put, <- Permutation_middle, <- order_of_app. by constructor.
Qed.

Lemma insert_head_ok q x e e' suf :
  events q !! x = Some e → head q = link suf None → linked (events q) suf None →
  (∀ b suf', suf = b :: suf' → ¬ key_lt (bkey b) (key e)) →
  insertBefore (events q) x (link suf None) = Ok (<[x := e']> (events q)) →
  insert x q = Ok (set_head (Some x) (set_events (<[x := e']> (events q)) q)).
Proof.
  intros Hx Hhd Hl Hsuf Hib. unfold insert. cbv zeta. rewrite (deref_ok _ _ _ Hx), Hhd. cbn [mbind res_mbind mret res_mret].
  destruct suf as [|b suf]; [cbn [link] in *; by rewrite Hib|].
  pose proof Hl as (_ & [(y&Hy&Hk&_) _] & _). cbn [link] in *. rewrite (deref_ok _ _ _ Hy).
  cbn [mbind res_mbind mret res_mret]. rewrite event_le_key, bool_decide_eq_true_2; [by rewrite Hib|].
  rewrite Hk. specialize (Hsuf b suf eq_refl). clear -Hsuf. destruct (bkey b). key_solve.
Qed.

Lemma insert_later_ok q x e e' b pre suf :
  events q !! x = Some e → head q = Some (top b) → linked (events q) (b :: pre ++ suf) None →
  x ∉ order_of (b :: pre ++ suf) → NoDup (order_of (b :: pre ++ suf)) →
  (length (b :: pre ++ suf) ≤ size (events q))%nat → Forall (λ b, key_lt (bkey b) (key e)) (b :: pre) →
  (∀ b suf', suf = b :: suf' → ¬ key_lt (bkey b) (key e)) → info e' = info e →
  insertBefore (events q) x (link suf None) = Ok (<[x := e']> (events q)) →
  linked (<[x := e']> (events q)) (put x (key e) suf) None →
  ∃ h, insert x q = Ok (set_events h q) ∧ info <$> h = info <$> events q ∧
    linked h (b :: pre) (Some x) ∧ linked h (put x (key e) suf) None.
Proof.
  intros Hx Hhd Hl Hnx Hnd Hsz [Hb Hp]%Forall_cons Hsuf Hi Hib Hput.
  destruct (find_bin_spec _ _ _ (size (events q)) _ _ Hl Hp Hsuf) as (init&lst&Heq&Hfind); [simpl in Hsz; lia|].
  pose proof Hl as ((y&Hy&Hn) & [(y'&Hy'&Hk&_) _] & _). assert (y' = y) as -> by congruence.
  change (b :: pre ++ suf) with ((b :: pre) ++ suf) in *. rewrite Heq, order_of_app in *.
  apply linked_app in Hl as [Hl _]. apply NoDup_app in Hnd as (Hnd1&Hnd2&_).
  destruct (linked_key _ _ _ lst (top lst) Hl) as (yl&Hyl&_); [set_solver|by left|].
  assert (Htop : top lst ∈ order_of (init ++ [lst])).
  { apply elem_of_order. exists lst. split; [set_solver|by left]. }
  assert (top lst ≠ x) as Hne by set_solver.
  exists (<[top lst := set_nextBin (Some x) yl]> (<[x := e']> (events q))). split_and!.
  - unfold insert. cbv zeta. rewrite (deref_ok _ _ _ Hx), Hhd. cbn [mbind res_mbind mret res_mret]. rewrite !(deref_ok _ _ _ Hy). cbn [mbind res_mbind mret res_mret]. rewrite event_le_key, bool_decide_eq_false_2.
    2:{ rewrite <- Hk in Hb. clear -Hb. key_solve. }
    rewrite Hn, Hfind. cbn [mbind res_mbind mret res_mret]. rewrite Hib. cbn [mbind res_mbind mret res_mret].
    unfold update. by erewrite deref_ok by (by rewrite lookup_insert_ne).
  - rewrite (info_insert _ _ yl); [by apply (info_insert _ _ e)|by rewrite lookup_insert_ne|done].
  - apply (relink _ _ _ (link suf None)); [|done|by rewrite lookup_insert_ne]. eapply linked_frame_eq, Hl.
    intros z Hz. rewrite lookup_insert_ne; [done|]. intros <-. apply Hnx, elem_of_app. by left.
  - eapply linked_frame_eq, Hput. intros z Hz. rewrite lookup_insert_ne; [done|]. intros <-.
    rewrite order_of_put in Hz. apply elem_of_cons in Hz as [?|Hz]; [done|]. by apply (Hnd2 (top lst)).
Qed.

Lemma insert_bins q x e bs :
  bins_ok (events q) (head q) bs → events q !! x = Some e → x ∉ order_of bs →
  ∃ q', insert x q = Ok q' ∧ reordered q (place (info <$> events q) x (key e) (order_of bs)) q'.
Proof.
  intros Hok Hx Hnx. pose proof (order_size _ _ _ Hok) as Hsz. destruct Hok as [Hhd Hl Hs Hnd].
  destruct (split_bins (key e) bs) as (pre&suf&Hbs&Hp&Hsuf).
  pose proof (place_bins (events q) bs x (key e) pre suf Hbs Hl Hp Hsuf) as Hpl. subst bs.
  assert (x ∉ order_of suf) as Hnx' by (rewrite order_of_app in Hnx; set_solver).
  pose proof (proj1 (linked_app _ _ _ _) Hl) as [Hl1 Hl2].
  destruct (insertBefore_spec _ _ _ _ Hx Hnx' Hl2 Hsuf) as (e'&Hib&Hi&Hl').
  destruct pre as [|b pre].
  - eexists. split; [by eapply insert_head_ok|]. exists (<[x := e']> (events q)), (Some x), (put x (key e) suf).
    split_and!; [done|by apply (info_insert _ _ e)| |done].
    eapply (put_bins_ok _ _ _ _ []); [by rewrite link_app, link_put|done..].
  - destruct (insert_later_ok q x e e' b pre suf) as (h&Hins&Hinfo&Hl3&Hl4); try done.
    { pose proof (length_order ((b :: pre) ++ suf)). simpl in *. lia. }
    eexists. split; [exact Hins|]. exists h, (head q), ((b :: pre) ++ put x (key e) suf).
    split_and!; [by destruct q|done| |done]. by apply put_bins_ok.
Qed.

(** ** Removal *)

Lemma find_in_bin_spec h k x r1 r2 fuel c :
  in_bin h k (r1 ++ x :: r2) → x ∉ r1 → (length (r1 ++ x :: r2) ≤ fuel)%nat →
  ∃ init l, c :: r1 = init ++ [l] ∧ find_in_bin fuel h x c (list.head (r1 ++ x :: r2)) = Ok l.
Proof.
  revert fuel c. induction r1 as [|y r1 IH]; intros [|fuel] c Hb Hx Hf; simpl in Hf; try lia.
  - exists [], c. cbn. by rewrite Z.eqb_refl.
  - destruct Hb as [(e&He&_&Hn) Hb]. destruct (IH fuel y Hb) as (init&l&Heq&Hfind); [set_solver|lia|].
    exists (c :: init), l. split; [by rewrite Heq|]. cbn [app list.head find_in_bin].
    rewrite (proj2 (Z.eqb_neq y x)) by set_solver. rewrite (deref_ok _ _ _ He). cbn [mbind res_mbind].
    by rewrite Hn.
Qed.

Lemma find_in_bin_panic h k x r fuel c :
  in_bin h k r → x ∉ r → (length r ≤ fuel)%nat → find_in_bin fuel h x c (list.head r) = Err Panic.
Proof.
  revert fuel c. induction r as [|y r IH]; intros fuel c Hb Hx Hf; [by destruct fuel|].
  simpl in Hf. destruct fuel as [|fuel]; [lia|]. destruct Hb as [(e&He&_&Hn) Hb]. cbn [list.head find_in_bin].
  rewrite (proj2 (Z.eqb_neq y x)) by set_solver. rewrite (deref_ok _ _ _ He). cbn [mbind res_mbind].
  rewrite Hn. apply IH; [done|set_solver|lia].
Qed.

(** Taking the event after [l] off a bin. *)
Lemma in_bin_skip h k i l y x r :
  in_bin h k (i ++ l :: x :: r) → NoDup (i ++ l :: x :: r) → h !! l = Some y →
  in_bin (<[l := set_nextInBin (list.head r) y]> h) k (i ++ l :: r).
Proof.
  intros Hb Hnd Hl. induction i as [|a i IH]; cbn [app] in *.
  - apply NoDup_cons in Hnd as [Hlr _]. destruct Hb as [(e&He&Hk&_) [_ Hb]]. split.
    + eexists. split_and!; [by rewrite lookup_insert_eq| |done]. unfold key in *. simpl. congruence.
    + eapply in_bin_frame, Hb. intros z e0 Hz He0. exists e0. rewrite lookup_insert_ne; [done|set_solver].
  - apply NoDup_cons in Hnd as [Ha Hnd]. destruct Hb as [(e&He&Hk&Hn) Hb]. split; [|auto].
    exists e. rewrite lookup_insert_ne by set_solver. split_and!; [done|done|]. rewrite Hn. by destruct i.
Qed.

(** The list without [x]. *)
Definition without (x : Z) (l : list Z) : list Z := filter (λ y, y ≠ x) l.

Lemma without_id x l : x ∉ l → without x l = l.
Proof.
  unfold without. induction l as [|y l IH]; intros Hx; [done|]. rewrite filter_cons_True by set_solver.
  f_equal. apply IH. set_solver.
Qed.
Lemma without_app x l1 l2 : without x (l1 ++ l2) = without x l1 ++ without x l2.
Proof. apply filter_app. Qed.
Lemma without_mid x l1 l2 : NoDup (l1 ++ x :: l2) → without x (l1 ++ x :: l2) = l1 ++ l2.
Proof.
  intros (_&H1&[Hx _]%NoDup_cons)%NoDup_app. rewrite without_app. f_equal; [apply without_id; set_solver|].
  unfold without. rewrite filter_cons_False by auto. by apply without_id.
Qed.

Definition remove_bin (x : Z) (b : Bin) : list Bin :=
  match without x (members b) with [] => [] | t :: r => [mkBin (bkey b) t r] end.

Lemma order_of_remove_bin x b : order_of (remove_bin x b) = without x (members b).
Proof. unfold remove_bin. destruct (without x (members b)); [done|]. by rewrite order_of_single. Qed.

Lemma removeItem_top h b next :
  linked h [b] next → NoDup (members b) →
  ∃ h', removeItem h (top b) (top b) = Ok (link (remove_bin (top b) b) next, h') ∧
    info <$> h' = info <$> h ∧ (∀ y, y ∉ members b → h' !! y = h !! y) ∧ linked h' (remove_bin (top b) b) next.
Proof.
  intros [(e&He&Hn) [Hb _]] Hnd. unfold removeItem. rewrite (deref_ok _ _ _ He), Z.eqb_refl.
  cbn [mbind res_mbind]. unfold remove_bin.
  rewrite (without_mid (top b) [] (rest b) Hnd : without (top b) (members b) = rest b).
  destruct Hb as [(e'&He'&_&Hn') Hb]. assert (e' = e) as -> by congruence. rewrite Hn'.
  destruct (rest b) as [|n r] eqn:Er; cbn [list.head].
  { exists h. cbn. by rewrite Hn. }
  pose proof Hb as [(y&Hy&_&_) _]. unfold update. rewrite (deref_ok _ _ _ Hy). cbn [mbind res_mbind mret res_mret].
  exists (<[n := set_nextBin (nextBin e) y]> h). split_and!; [done|by apply (info_insert _ _ y)| |].
  - intros z Hz. apply lookup_insert_ne. unfold members in Hz. rewrite Er in Hz. set_solver.
  - rewrite Hn. apply (relink h [] (mkBin (bkey b) n r) (nextBin y)); [| |done].
    + split_and!; [by exists y|done|done].
    + cbn [app]. rewrite order_of_single. unfold members in *. rewrite Er in Hnd. by apply NoDup_cons in Hnd as [_ ?].
Qed.

Lemma removeItem_rest h x b next :
  linked h [b] next → NoDup (members b) → (length (rest b) ≤ size h)%nat → x ∈ rest b →
  ∃ h', removeItem h x (top b) = Ok (link (remove_bin x b) next, h') ∧
    info <$> h' = info <$> h ∧ (∀ y, y ∉ members b → h' !! y = h !! y) ∧ linked h' (remove_bin x b) next.
Proof.
  intros [(e&He&Hn) [Hb _]] Hnd Hsz Hx. apply list_elem_of_split in Hx as (r1&r2&Er).
  unfold members in *. rewrite Er in *. assert (x ≠ top b ∧ x ∉ r1) as [Hxt Hx1].
  { apply NoDup_cons in Hnd as [? (_&Hd&_)%NoDup_app]. set_solver. }
  unfold removeItem. rewrite (deref_ok _ _ _ He), (proj2 (Z.eqb_neq _ _)) by done. cbn [mbind res_mbind].
  pose proof Hb as [(e'&He'&_&Hn') Hb']. assert (e' = e) as -> by congruence. rewrite Hn'.
  destruct (find_in_bin_spec h (bkey b) x r1 r2 (size h) (top b)) as (i&l&Hil&->); [done..|].
  destruct (in_bin_app _ _ _ _ _ Hb') as (ex&Hex&_&Hnx). cbn [mbind res_mbind]. rewrite (deref_ok _ _ _ Hex).
  cbn [mbind res_mbind]. assert (Hl : l ∈ top b :: r1) by (rewrite Hil; set_solver).
  destruct (in_bin_elem h (bkey b) (top b :: r1 ++ x :: r2) l) as (el&Hel&_); [done|set_solver|].
  unfold update. rewrite (deref_ok _ _ _ Hel). cbn [mbind res_mbind mret res_mret].
  assert (Eb : top b :: r1 ++ x :: r2 = i ++ l :: x :: r2).
  { by rewrite (app_comm_cons r1), Hil, <- app_assoc. }
  unfold remove_bin, members. rewrite Er.
  rewrite (without_mid x (top b :: r1) r2 Hnd : without x (top b :: r1 ++ x :: r2) = top b :: r1 ++ r2).
  eexists. split; [done|]. split_and!; [by apply (info_insert _ _ el)| |cbn [linked top bkey]; split_and!; [| |done]].
  - intros z Hz. apply lookup_insert_ne. set_solver.
  - destruct (decide (l = top b)) as [->|].
    + eexists. rewrite lookup_insert_eq. split; [done|]. assert (el = e) as -> by congruence. done.
    + exists e. by rewrite lookup_insert_ne.
  - unfold members. cbn [top rest]. rewrite Hnx.
    assert (top b :: r1 ++ r2 = i ++ l :: r2) as -> by (by rewrite (app_comm_cons r1), Hil, <- app_assoc).
    apply (in_bin_skip h (bkey b) i l el x r2); [by rewrite <- Eb| |done]. by rewrite <- Eb.
Qed.

Lemma removeItem_spec h x b next :
  linked h [b] next → NoDup (members b) → (length (members b) ≤ size h)%nat → x ∈ members b →
  ∃ h', removeItem h x (top b) = Ok (link (remove_bin x b) next, h') ∧
    info <$> h' = info <$> h ∧ (∀ y, y ∉ members b → h' !! y = h !! y) ∧ linked h' (remove_bin x b) next.
Proof.
  intros Hl Hnd Hsz Hx. simpl in Hsz. apply elem_of_cons in Hx as [->|Hx].
  - by apply removeItem_top.
  - apply removeItem_rest; [done..|lia|done].
Qed.

Lemma removeItem_panic h x b next :
  linked h [b] next → (length (members b) ≤ size h)%nat → x ∉ members b → removeItem h x (top b) = Err Panic.
Proof.
  intros [(e&He&_) [[(e'&He'&_&Hn) Hb] _]] Hsz Hx. unfold removeItem. rewrite (deref_ok _ _ _ He).
  assert (e' = e) as -> by congruence. unfold members in Hx. cbn [mbind res_mbind].
  rewrite (proj2 (Z.eqb_neq _ _)) by set_solver. rewrite Hn.
  by rewrite (find_in_bin_panic h (bkey b)) by (set_solver || simpl in Hsz; lia || done).
Qed.

(** An event of the queue is in the first bin that is not earlier. *)
Lemma member_bin h e x pre suf :
  linked h (pre ++ suf) None → StronglySorted key_lt (bkey <$> pre ++ suf) → h !! x = Some e →
  Forall (λ b, key_lt (bkey b) (key e)) pre → (∀ b suf', suf = b :: suf' → ¬ key_lt (bkey b) (key e)) →
  x ∈ order_of (pre ++ suf) → ∃ b suf', suf = b :: suf' ∧ bkey b = key e ∧ x ∈ members b.
Proof.
  intros Hl Hs Hx Hp Hsuf (b&Hb&Hxb)%elem_of_order. destruct (linked_key _ _ _ _ _ Hl Hb Hxb) as (e'&He'&Hk).
  assert (e' = e) as -> by congruence. apply elem_of_app in Hb as [Hb|Hb].
  { eapply Forall_forall in Hp; [|exact Hb]. rewrite Hk in Hp. clear -Hp. destruct (bkey b). key_solve. }
  destruct suf as [|b1 suf]; [set_solver|]. apply elem_of_cons in Hb as [->|Hb]; [by exists b1, suf|].
  rewrite fmap_app in Hs. apply StronglySorted_app in Hs as (_&_&Hs). apply StronglySorted_cons in Hs as [Hs _].
  destruct (Hsuf b1 suf eq_refl). rewrite Hk. eapply Forall_forall in Hs; [exact Hs|].
  apply list_elem_of_fmap. by exists b.
Qed.

(** Putting together the bins around the one an event was taken from. *)
Lemma remove_bins_ok h hd x pre b suf :
  hd = link (pre ++ remove_bin x b ++ suf) None → linked h pre (link (remove_bin x b ++ suf) None) →
  linked h (remove_bin x b) (link suf None) → linked h suf None →
  StronglySorted key_lt (bkey <$> pre ++ b :: suf) → NoDup (order_of (pre ++ b :: suf)) → x ∈ members b →
  bins_ok h hd (pre ++ remove_bin x b ++ suf) ∧
  order_of (pre ++ remove_bin x b ++ suf) = without x (order_of (pre ++ b :: suf)).
Proof.
  intros Hhd Hl1 Hl2 Hl3 Hs Hnd Hx.
  assert (Ho : order_of (pre ++ remove_bin x b ++ suf) = without x (order_of (pre ++ b :: suf))).
  { rewrite !order_of_app, order_of_remove_bin, !order_of_cons in *. rewrite !without_app.
    apply NoDup_app in Hnd as (_&H1&(_&H2&_)%NoDup_app).
    rewrite (without_id x (order_of pre)), (without_id x (order_of suf)); [done|set_solver..]. }
  split; [split|done]; [done| | |].
  - rewrite !linked_app. auto.
  - rewrite !fmap_app, fmap_cons, !StronglySorted_app, StronglySorted_cons in *.
    destruct Hs as (H1&H2&H3&H4). unfold remove_bin.
    destruct (without x (members b)); simpl; split_and!; auto; try (by intros; set_solver); try by repeat constructor.
    + intros x1 x2 ->%list_elem_of_singleton ?. by eapply Forall_forall in H3.
  - rewrite Ho. by apply NoDup_filter.
Qed.

(** The steps of [remove] up to the bin that may hold the event. *)
Lemma remove_first q x e b suf :
  linked (events q) (b :: suf) None → head q = Some (top b) → events q !! x = Some e →
  queue e = Some (self q) → bkey b = key e →
  remove x q = '(t, h) ← removeItem (events q) x (top b); mret (set_head t (set_events h q)).
Proof.
  intros [_ [[(y&Hy&Hk&_) _] _]] Hhd Hx Hq Hb. unfold remove. rewrite Hhd, (deref_ok _ _ _ Hx).
  cbn [mbind res_mbind mret res_mret]. rewrite bool_decide_eq_true_2 by done. cbn [mbind res_mbind check].
  rewrite (deref_ok _ _ _ Hy). cbn [mbind res_mbind]. by rewrite event_eq_key, bool_decide_eq_true_2 by congruence.
Qed.

Lemma remove_later q x e b pre suf :
  linked (events q) (b :: pre ++ suf) None → head q = Some (top b) → events q !! x = Some e →
  queue e = Some (self q) → bkey b ≠ key e → (length (b :: pre ++ suf) ≤ size (events q))%nat →
  Forall (λ b, key_lt (bkey b) (key e)) pre → (∀ b suf', suf = b :: suf' → ¬ key_lt (bkey b) (key e)) →
  ∃ init lst, b :: pre = init ++ [lst] ∧
  remove x q = match suf with
    | [] => Err Panic
    | c :: _ => if decide (bkey c = key e) then
                  '(t, h) ← removeItem (events q) x (top c);
                  h ← update (top lst) (set_nextBin t) h; mret (set_events h q)
                else Err Panic
    end.
Proof.
  intros Hl Hhd Hx Hq Hb Hsz Hp Hsuf.
  destruct (find_bin_spec _ _ _ (size (events q)) _ _ Hl Hp Hsuf) as (init&lst&Heq&Hfind); [simpl in Hsz; lia|].
  exists init, lst. split; [done|]. pose proof Hl as [(y&Hy&Hn) [[(y'&Hy'&Hk&_) _] Hl']].
  assert (y' = y) as -> by congruence. unfold remove. rewrite Hhd, (deref_ok _ _ _ Hx).
  cbn [mbind res_mbind mret res_mret]. rewrite bool_decide_eq_true_2 by done. cbn [mbind res_mbind check].
  rewrite (deref_ok _ _ _ Hy). cbn [mbind res_mbind]. rewrite event_eq_key, bool_decide_eq_false_2 by congruence.
  rewrite Hn, Hfind. cbn [mbind res_mbind]. destruct suf as [|c suf]; [done|]. cbn [link].
  apply linked_app in Hl' as [_ [_ [[(z&Hz&Hkz&_) _] _]]]. rewrite (deref_ok _ _ _ Hz). cbn [mbind res_mbind].
  rewrite event_eq_key, Hkz. case_bool_decide; [rewrite decide_True|rewrite decide_False]; done.
Qed.

(** Removal from the bin after [lst]. *)
Lemma remove_relink h x init lst b suf :
  linked h (init ++ [lst] ++ b :: suf) None → NoDup (order_of (init ++ [lst] ++ b :: suf)) →
  (length (members b) ≤ size h)%nat → x ∈ members b →
  ∃ h1 h2, removeItem h x (top b) = Ok (link (remove_bin x b) (link suf None), h1) ∧
    update (top lst) (set_nextBin (link (remove_bin x b) (link suf None))) h1 = Ok h2 ∧ info <$> h2 = info <$> h ∧
    linked h2 (init ++ [lst]) (link (remove_bin x b ++ suf) None) ∧
    linked h2 (remove_bin x b) (link suf None) ∧ linked h2 suf None.
Proof.
  rewrite (app_assoc init), order_of_app, order_of_cons. intros [Hl1 Hl2]%linked_app (Hn1&Hd1&Hn2)%NoDup_app Hsz Hx.
  change (b :: suf) with ([b] ++ suf) in Hl2. apply linked_app in Hl2 as [Hlb Hls]. apply NoDup_app in Hn2 as (Hnb&Hd2&_).
  destruct (removeItem_spec h x b (link suf None) Hlb Hnb Hsz Hx) as (h1&Hrm&Hi&Hfr&Hl3).
  assert (Hd : ∀ z, z ∈ order_of (init ++ [lst]) → z ∉ members b ∧ z ∉ order_of suf).
  { intros z Hz. specialize (Hd1 z Hz). rewrite elem_of_app in Hd1. tauto. }
  assert (Htop : top lst ∈ order_of (init ++ [lst])).
  { apply elem_of_order. exists lst. split; [set_solver|by left]. }
  destruct (linked_key _ _ _ lst (top lst) Hl1) as (yl&Hyl&_); [set_solver|by left|].
  assert (Hyl1 : h1 !! top lst = Some yl) by (rewrite Hfr; [done|by apply Hd]).
  exists h1. unfold update. rewrite (deref_ok _ _ _ Hyl1). cbn [mbind res_mbind mret res_mret]. eexists. split_and!; [done|done| | | |].
  - rewrite (info_insert _ _ yl); done.
  - rewrite link_app. apply (relink _ _ _ (link (b :: suf) None)); [|done|done].
    eapply linked_frame_eq, Hl1. intros z Hz. by apply Hfr, Hd.
  - eapply linked_frame_eq, Hl3. intros z Hz. apply lookup_insert_ne. intros <-.
    rewrite order_of_remove_bin in Hz. unfold without in Hz. apply list_elem_of_filter in Hz as [_ Hz]. by destruct (Hd _ Htop).
  - eapply linked_frame_eq, Hls. intros z Hz. rewrite lookup_insert_ne by (intros <-; by destruct (Hd _ Htop)).
    apply Hfr. intros Hzb. by apply (Hd2 z).
Qed.

Lemma length_members h hd bs b : bins_ok h hd bs → b ∈ bs → (length (members b) ≤ size h)%nat.
Proof.
  intros Hok [bs1 [bs2 ->]]%list_elem_of_split. pose proof (order_size _ _ _ Hok) as Hsz.
  rewrite order_of_app, order_of_cons, !length_app in Hsz. lia.
Qed.

Lemma remove_member q x e bs :
  bins_ok (events q) (head q) bs → events q !! x = Some e → queue e = Some (self q) → x ∈ order_of bs →
  ∃ q', remove x q = Ok q' ∧ reordered q (without x (order_of bs)) q'.
Proof.
  intros Hok Hx Hq Hxo. pose proof (order_size _ _ _ Hok) as Hsz. pose proof (length_order bs) as Hlen.
  destruct (split_bins (key e) bs) as (pre&suf&->&Hp&Hsuf). pose proof Hok as [Hhd Hl Hs Hnd].
  destruct (member_bin _ _ _ _ _ Hl Hs Hx Hp Hsuf Hxo) as (b&suf'&->&Hk&Hxb).
  assert (Hszb : (length (members b) ≤ size (events q))%nat) by (eapply length_members; [done|set_solver]).
  destruct pre as [|b0 pre].
  - cbn [app] in *. rewrite (remove_first q x e b suf') by done.
    assert (NoDup (members b ++ order_of suf')) as (Hnb&Hd&_)%NoDup_app by done.
    destruct (removeItem_spec (events q) x b (link suf' None)) as (h&Hrm&Hi&Hfr&Hl'); [|done..|].
    { cbn [linked] in *. tauto. }
    rewrite Hrm. cbn [mbind res_mbind mret res_mret]. eexists. split; [done|]. exists h. eexists. exists (remove_bin x b ++ suf').
    split; [done|]. split; [done|]. apply (remove_bins_ok _ _ _ []); try done; [by rewrite !link_app|].
    apply (linked_frame_eq (events q)); [|exact (proj2 (proj2 Hl))].
    intros z Hz. apply Hfr. intros Hzb. by apply (Hd z).
  - destruct (remove_later q x e b0 pre (b :: suf')) as (init&lst&Heq&->); try done.
    { apply Forall_cons in Hp as [Hp _]. intros E. rewrite E in Hp. clear -Hp. key_solve. }
    { by etrans. }
    { by apply Forall_cons in Hp as [_ ?]. }
    rewrite decide_True by done. rewrite Heq in *. rewrite <- app_assoc in Hl, Hnd.
    destruct (remove_relink (events q) x init lst b suf') as (h1&h2&->&Hup&Hi&Hl1&Hl2&Hl3); try done.
    cbn [mbind res_mbind]. rewrite Hup. cbn [mbind res_mbind mret res_mret]. eexists. split; [done|].
    exists h2, (head q). eexists. split; [by destruct q|]. split; [done|].
    rewrite (app_assoc init) in Hnd. apply (remove_bins_ok h2 (head q) x (init ++ [lst]) b suf'); try done.
    by rewrite Hhd, <- Heq.
Qed.

Lemma remove_absent q x e bs :
  bins_ok (events q) (head q) bs → events q !! x = Some e → queue e = Some (self q) → x ∉ order_of bs →
  remove x q = Err Panic.
Proof.
  intros Hok Hx Hq Hxo. pose proof (order_size _ _ _ Hok) as Hsz. pose proof (length_order bs) as Hlen.
  destruct (split_bins (key e) bs) as (pre&suf&->&Hp&Hsuf). pose proof Hok as [Hhd Hl Hs _].
  assert (Hpanic : ∀ b, b ∈ pre ++ suf → ∃ next, linked (events q) [b] next ∧ removeItem (events q) x (top b) = Err Panic).
  { intros b Hb. pose proof Hb as [bs1 [bs2 E]]%list_elem_of_split. rewrite E in Hl. apply linked_app in Hl as [_ Hl].
    exists (link bs2 None). assert (linked (events q) [b] (link bs2 None)) by (cbn [linked] in *; tauto). split; [done|].
    eapply removeItem_panic; [done|by eapply length_members|]. intros ?. apply Hxo, elem_of_order. by exists b. }
  assert (Hsel : ∀ (k : Z * Z) l suf', suf' ⊆ pre ++ suf →
    match suf' with [] => Err Panic | c :: _ => if decide (bkey c = k) then
      '(t, h) ← removeItem (events q) x (top c); h ← update l (set_nextBin t) h; mret (set_events h q)
      else Err Panic end = Err Panic).
  { intros k l [|c suf'] Hsub; [done|]. case_decide; [|done]. destruct (Hpanic c) as (?&_&->); [set_solver|done]. }
  destruct pre as [|b0 pre]; [destruct suf as [|b suf]|].
  - unfold remove. by rewrite Hhd.
  - cbn [app] in *. destruct (decide (bkey b = key e)).
    { rewrite (remove_first q x e b suf) by done. destruct (Hpanic b) as (?&_&->); [set_solver|done]. }
    destruct (remove_later q x e b [] suf) as (?&?&_&->); try done; [by etrans| |apply Hsel; set_solver].
    intros b' suf' -> Hlt. apply (Hsuf b _ eq_refl). cbn in Hs. apply StronglySorted_cons in Hs as [Hs _].
    apply Forall_cons in Hs as [Hs _]. by eapply key_lt_trans.
  - destruct (remove_later q x e b0 pre suf) as (?&?&_&->); try done; [|by etrans| |].
    + apply Forall_cons in Hp as [Hp _]. intros E. rewrite E in Hp. clear -Hp. key_solve.
    + by apply Forall_cons in Hp as [_ ?].
    + apply Hsel. set_solver.
Qed.

(** ** Other changes of an event *)

(** The bins do not depend on the flags of an event, nor on an event that is not in them. *)
Definition same_links (e e' : Event) : Prop :=
  key e' = key e ∧ nextInBin e' = nextInBin e ∧ nextBin e' = nextBin e.

Lemma bins_insert h hd bs x e e' :
  bins_ok h hd bs → h !! x = Some e → (x ∈ order_of bs → same_links e e') → bins_ok (<[x := e']> h) hd bs.
Proof.
  intros [Hhd Hl Hs Hnd] Hx Hsame. split; try done. eapply linked_frame, Hl. intros z ez Hz Hez.
  destruct (decide (z = x)) as [->|].
  - rewrite lookup_insert_eq. assert (ez = e) as -> by congruence. destruct (Hsame Hz) as (?&?&?). eauto.
  - rewrite lookup_insert_ne by done. eauto.
Qed.

Lemma bins_delete h hd bs x : bins_ok h hd bs → x ∉ order_of bs → bins_ok (delete x h) hd bs.
Proof.
  intros [Hhd Hl Hs Hnd] Hx. split; try done. eapply linked_frame_eq, Hl. intros z Hz.
  apply lookup_delete_ne. congruence.
Qed.

(** [serviceOne] takes the first event off as [removeItem] does. *)
Lemma pop_removeItem q c :
  head q = Some c →
  pop q = q ← on_event c (clear_flag Scheduled) q;
          '(t, h) ← removeItem (events q) c c;
          mret (c, set_head t (set_events h q)).
Proof.
  intros Hhd. unfold pop, on_event, update. rewrite Hhd. destruct (deref (events q) c) as [y|] eqn:Hc; [|done].
  cbn [mbind res_mbind mret res_mret events set_events]. unfold removeItem.
  erewrite deref_ok by apply lookup_insert_eq. cbn [mbind res_mbind nextInBin clear_flag set_flags].
  rewrite Z.eqb_refl. destruct (nextInBin y) as [n|]; [|done]. unfold update. by destruct (deref _ n).
Qed.

(** ** [debugVerify] *)

(** An event that [debugVerify] does not report after an event of key [k]. *)
Lemma verify_bin_ok h k b fuel t p map :
  in_bin h k b → (length b ≤ fuel)%nat → (b = [] ∨ ¬ key_lt k (t, p)) → NoDup b → (∀ x, x ∈ b → x ∉ map) →
  verify_bin fuel h t p map (list.head b) =
    Ok (Some (match b with [] => (t, p, map) | _ => (k.1, k.2, reverse b ++ map) end)).
Proof.
  revert fuel t p map. induction b as [|x b IH]; intros fuel t p map Hb Hf Hk Hnd Hm; [by destruct fuel|].
  simpl in Hf. destruct fuel as [|fuel]; [lia|]. destruct Hb as [(e&He&Hke&Hn) Hb]. cbn [list.head verify_bin].
  rewrite (deref_ok _ _ _ He). cbn [mbind res_mbind]. destruct Hk as [|Hk]; [done|].
  rewrite <- Hke in Hk. unfold key_lt, key in Hk. cbn [fst snd] in Hk.
  rewrite (proj2 (Z.ltb_ge _ _)) by lia.
  assert ((_when e =? t) && (_priority e <? p) = false) as -> by lia.
  rewrite bool_decide_eq_false_2 by (apply Hm; set_solver). rewrite Hn. apply NoDup_cons in Hnd as [Hx Hnd].
  rewrite IH; [|done|lia|right; rewrite <- Hke; unfold key_lt, key; simpl; lia|done|set_solver].
  rewrite <- Hke. destruct b as [|y b]; [done|]. by rewrite (reverse_cons _ x), <- app_assoc.
Qed.

Lemma verify_bins_ok h bs fuel t p map :
  linked h bs None → StronglySorted key_lt (bkey <$> bs) → NoDup (order_of bs) →
  (length (order_of bs) ≤ size h)%nat → (length bs ≤ fuel)%nat →
  (∀ b bs', bs = b :: bs' → ¬ key_lt (bkey b) (t, p)) → (∀ x, x ∈ order_of bs → x ∉ map) →
  verify_bins fuel h t p map (link bs None) = Ok true.
Proof.
  revert fuel t p map. induction bs as [|b bs IH]; intros fuel t p map Hl Hs Hnd Hsz Hf Hk Hm; [by destruct fuel|].
  simpl in Hf. destruct fuel as [|fuel]; [lia|]. destruct Hl as [(e&He&Hn) [Hb Hl]].
  rewrite order_of_cons in *. rewrite length_app in Hsz. apply NoDup_app in Hnd as (Hnb&Hd&Hnd).
  cbn [link verify_bins]. change (Some (top b)) with (list.head (members b)).
  rewrite (verify_bin_ok h (bkey b)); [|done|lia|right; by eapply Hk|done|set_solver].
  cbn [mbind res_mbind members]. rewrite (deref_ok _ _ _ He). cbn [mbind res_mbind]. rewrite Hn.
  cbn in Hs. apply StronglySorted_cons in Hs as [Hs1 Hs2]. apply IH; try done; [lia..| |].
  - intros b' bs' -> Hlt. apply Forall_cons in Hs1 as [Hlt' _].
    clear -Hlt Hlt'. destruct (bkey b), (bkey b'). key_solve.
  - intros x Hx Hx'. apply elem_of_app in Hx' as [Hx'|Hx'].
    + apply (Hd x); [|done]. rewrite elem_of_reverse in Hx'. done.
    + apply (Hm x); [|done]. apply elem_of_app. by right.
Qed.
