(* ===== verification/EventQRefine.v ===== *)
(** * What the event queue promises

    [Spec] is the event queue without links: the events in the order they will be
    serviced.  The operations of the queue refine those of [Spec], with the same
    failures; the queue keeps the events sorted, those in it scheduled. *)

From stdpp Require Import base gmap list relations sorting.
From S2P Require Import Prelude Packets EventQ EventQOrder.
Import EventQueue.
Local Open Scope Z_scope.

(** ** Refinement of fallible operations *)

Definition refines {A B} (R : A → B → Prop) (m : res A) (s : res B) : Prop :=
  match m, s with Ok a, Ok b => R a b | Err e, Err e' => e = e' | _, _ => False end.

Lemma refines_bind {A B A' B'} (R : A → B → Prop) (R' : A' → B' → Prop) m s f g :
  refines R m s → (∀ a b, R a b → s = Ok b → refines R' (f a) (g b)) → refines R' (m ≫= f) (s ≫= g).
Proof. destruct m, s; simpl; intros H1 H2; [by apply H2|done|done|done]. Qed.

Lemma refines_check {A B} (R : A → B → Prop) e b1 b2 m s :
  b1 = b2 → (b1 = true → refines R m s) → refines R (check e b1;; m) (check e b2;; s).
Proof. intros <- H. destruct b1; simpl; auto. Qed.

(** ** The specification *)

Module Spec.

Record AQueue := mkA {
  self : Z;
  infos : gmap Z Info;
  order : list Z;
  tick : Z;
  async : list Z;
}.
Definition set_infos (v : gmap Z Info) (a : AQueue) : AQueue := mkA (self a) v (order a) (tick a) (async a).
Definition set_order (v : list Z) (a : AQueue) : AQueue := mkA (self a) (infos a) v (tick a) (async a).
Definition set_async (v : list Z) (a : AQueue) : AQueue := mkA (self a) (infos a) (order a) (tick a) v.

Definition has (m : Z) (i : Info) : bool := Flags.isSet (i_flags i) m.
Definition scheduled (i : Info) : bool := has Scheduled i.
Definition set_flag (m : Z) (i : Info) : Info := mkInfo (i_key i) (Flags.set (i_flags i) m) (i_queue i).
Definition clear_flag (m : Z) (i : Info) : Info := mkInfo (i_key i) (Flags.clear 16 (i_flags i) m) (i_queue i).
Definition setWhen (w q : Z) (i : Info) : Info := mkInfo (w, (i_key i).2) (i_flags i) (Some q).

Definition deref (a : AQueue) (x : Z) : res Info :=
  match infos a !! x with Some i => mret i | None => Err UB end.
Definition on_event (x : Z) (f : Info → Info) (a : AQueue) : res AQueue :=
  i ← deref a x; mret (set_infos (<[x := f i]> (infos a)) a).

(** Before the first event that is not earlier. *)
Definition insert (x : Z) (a : AQueue) : res AQueue :=
  i ← deref a x; mret (set_order (place (infos a) x (i_key i) (order a)) a).
Definition remove (x : Z) (a : AQueue) : res AQueue :=
  if bool_decide (order a = []) then Err Panic
  else
    i ← deref a x;
    assert_ (bool_decide (i_queue i = Some (self a)));;
    if bool_decide (x ∈ order a) then mret (set_order (without x (order a)) a) else Err Panic.
Definition pop (a : AQueue) : res (Z * AQueue) :=
  match order a with
  | [] => Err UB
  | x :: l => a ← on_event x (clear_flag Scheduled) a; mret (x, set_order l a)
  end.
Definition delete_event (x : Z) (a : AQueue) : res AQueue :=
  i ← deref a x; assert_ (negb (scheduled i));; mret (set_infos (delete x (infos a)) a).

Definition schedule (foreign : bool) (x w : Z) (a : AQueue) : res AQueue :=
  assert_ (tick a <=? w);;
  i ← deref a x;
  assert_ (negb (scheduled i));;
  assert_ (Z.land (i_flags i) InitMask =? Initialized);;
  a ← on_event x (setWhen w (self a)) a;
  a ← (if foreign then mret (set_async (async a ++ [x]) a) else insert x a);
  on_event x (set_flag Scheduled) a.
Definition deschedule (mine : bool) (x : Z) (a : AQueue) : res AQueue :=
  i ← deref a x;
  assert_ (scheduled i);;
  assert_ (Z.land (i_flags i) InitMask =? Initialized);;
  assert_ mine;;
  a ← remove x a;
  a ← on_event x (λ i, clear_flag Scheduled (clear_flag Squashed i)) a;
  i ← deref a x;
  if has AutoDelete i then delete_event x a else mret a.
Definition reschedule (mine : bool) (x w : Z) (always : bool) (a : AQueue) : res AQueue :=
  assert_ (tick a <=? w);;
  i ← deref a x;
  assert_ (always || scheduled i);;
  assert_ (Z.land (i_flags i) InitMask =? Initialized);;
  assert_ mine;;
  a ← (if scheduled i then remove x a else mret a);
  a ← on_event x (setWhen w (self a)) a;
  a ← insert x a;
  on_event x (λ i, set_flag Scheduled (clear_flag Squashed i)) a.
Definition squash (x : Z) (a : AQueue) : res AQueue := on_event x (set_flag Squashed) a.
Definition handleAsyncInsertions (a : AQueue) : res AQueue :=
  a' ← foldM (λ a x, insert x a) a (async a); mret (set_async [] a').

End Spec.

(** ** The refinement *)

Record represents (q : EventQueue) (a : Spec.AQueue) : Prop := {
  rep_self : Spec.self a = self q;
  rep_infos : Spec.infos a = info <$> events q;
  rep_tick : Spec.tick a = _curTick q;
  rep_async : Spec.async a = async_queue q;
  rep_bins : ∃ bs, bins_ok (events q) (head q) bs ∧ order_of bs = Spec.order a;
}.

Lemma reordered_represents q a l q' :
  represents q a → reordered q l q' → represents q' (Spec.set_order l a).
Proof. intros [? ? ? ? _] (h&hd&bs&->&Hi&Hok&Ho). split; simpl; try congruence. eauto. Qed.

Lemma deref_refines q a x :
  represents q a → refines (λ e i, i = info e ∧ events q !! x = Some e) (deref (events q) x) (Spec.deref a x).
Proof.
  intros Hr. unfold deref, Spec.deref. rewrite (rep_infos _ _ Hr), lookup_fmap.
  by destruct (events q !! x).
Qed.

Lemma represents_lookup q a x i :
  represents q a → Spec.infos a !! x = Some i → ∃ e, events q !! x = Some e ∧ i = info e.
Proof.
  intros Hr. rewrite (rep_infos _ _ Hr), lookup_fmap. destruct (events q !! x); [|done].
  intros [= <-]. eauto.
Qed.

Lemma insert_refines q a x :
  represents q a → x ∉ Spec.order a → refines represents (insert x q) (Spec.insert x a).
Proof.
  intros Hr Hx. pose proof (deref_refines q a x Hr) as Hd. pose proof Hr as [_ Hi _ _ (bs&Hok&Ho)].
  unfold Spec.insert. destruct (events q !! x) as [e|] eqn:He.
  - unfold deref in Hd. rewrite He in Hd. destruct (Spec.deref a x) as [i|]; [|done]. destruct Hd as [-> _].
    rewrite <- Ho in Hx. destruct (insert_bins q x e bs Hok He Hx) as (q'&->&Hq'). simpl.
    rewrite Hi, <- Ho. by eapply reordered_represents.
  - unfold insert. cbv zeta. unfold deref in *. rewrite He in *. by destruct (Spec.deref a x).
Qed.

Lemma represents_empty q a : represents q a → head q = None ↔ Spec.order a = [].
Proof.
  intros [_ _ _ _ (bs&[-> _ _ _]&<-)]. by destruct bs.
Qed.

Lemma remove_refines q a x : represents q a → refines represents (remove x q) (Spec.remove x a).
Proof.
  intros Hr. pose proof (represents_empty q a Hr) as Hemp. pose proof (deref_refines q a x Hr) as Hd.
  pose proof Hr as [Hs _ _ _ (bs&Hok&Ho)]. unfold Spec.remove. case_bool_decide as Hnil.
  { unfold remove. by rewrite (proj2 Hemp Hnil). }
  destruct (head q) as [c|] eqn:Hhd; [|by destruct Hnil; apply Hemp].
  destruct (events q !! x) as [e|] eqn:He.
  2:{ unfold remove. rewrite Hhd. unfold deref in *. rewrite He in *. by destruct (Spec.deref a x). }
  unfold deref in Hd. rewrite He in Hd. destruct (Spec.deref a x) as [i|]; [|done]. destruct Hd as [-> _].
  cbn [mbind res_mbind]. rewrite Hs. cbn [i_queue info].
  destruct (decide (queue e = Some (self q))) as [Hq|Hq];
    [rewrite (bool_decide_eq_true_2 _ Hq)|rewrite (bool_decide_eq_false_2 _ Hq)]; cbn [check mbind res_mbind].
  - rewrite <- Hhd in Hok. case_bool_decide as Hx; rewrite <- Ho in Hx.
    + destruct (remove_member q x e bs) as (q'&->&Hq'); try done. rewrite <- Ho. by eapply reordered_represents.
    + by rewrite (remove_absent q x e bs).
  - unfold remove. rewrite Hhd, (deref_ok _ _ _ He). cbn [mbind res_mbind mret res_mret].
    by rewrite bool_decide_eq_false_2.
Qed.

Lemma on_event_refines q a x f g :
  represents q a → (∀ e, info (f e) = g (info e)) → (x ∈ Spec.order a → ∀ e, same_links e (f e)) →
  refines represents (on_event x f q) (Spec.on_event x g a).
Proof.
  intros Hr Hfg Hsl. pose proof (deref_refines q a x Hr) as Hd. unfold on_event, update, Spec.on_event.
  destruct (deref (events q) x) as [e|], (Spec.deref a x) as [i|]; try done. destruct Hd as [-> He].
  cbn. destruct Hr as [? Hi ? ? (bs&Hok&Ho)]. split; simpl; try done.
  - by rewrite Hi, fmap_insert, Hfg.
  - exists bs. split; [|done]. eapply bins_insert; [done|done|]. rewrite Ho. auto.
Qed.

Lemma set_flag_refines q a x m :
  represents q a → refines represents (on_event x (set_flag m) q) (Spec.on_event x (Spec.set_flag m) a).
Proof. intros. by apply on_event_refines. Qed.
Lemma clear_flag_refines q a x m :
  represents q a → refines represents (on_event x (clear_flag m) q) (Spec.on_event x (Spec.clear_flag m) a).
Proof. intros. by apply on_event_refines. Qed.

Lemma on_event_Ok a x g a' :
  Spec.on_event x g a = Ok a' → ∃ i, Spec.infos a !! x = Some i ∧ a' = Spec.set_infos (<[x := g i]> (Spec.infos a)) a.
Proof.
  unfold Spec.on_event, Spec.deref. destruct (Spec.infos a !! x) as [i|]; [|done]. intros [= <-]. eauto.
Qed.

Lemma pop_refines q a :
  represents q a → refines (λ '(c, q') '(x, a'), c = x ∧ represents q' a') (pop q) (Spec.pop a).
Proof.
  intros Hr. unfold Spec.pop. destruct (Spec.order a) as [|x l] eqn:Ho.
  { unfold pop. by rewrite (proj2 (represents_empty q a Hr) Ho). }
  assert (Hhd : head q = Some x).
  { destruct Hr as [_ _ _ _ ([|b bs]&[-> _ _ _]&Hbs)]; rewrite <- Hbs in Ho; [done|].
    rewrite order_of_cons in Ho. injection Ho as Hb _. cbn. congruence. }
  rewrite (pop_removeItem q x Hhd). eapply refines_bind; [by apply clear_flag_refines|].
  intros q1 a1 Hr1 (i&_&->)%on_event_Ok. pose proof Hr1 as [_ _ _ _ ([|b bs]&Hok&Hbs)]; cbn [Spec.order Spec.set_infos] in Hbs.
  { by rewrite <- Hbs in Ho. }
  rewrite <- Hbs, order_of_cons in Ho. injection Ho as <- <-. pose proof Hok as [Hhd1 Hl Hs Hnd].
  assert (NoDup (members b ++ order_of bs)) as (Hnb&Hd&_)%NoDup_app by done.
  destruct (removeItem_top (events q1) b (link bs None)) as (h&Hrm&Hi&Hfr&Hl'); [cbn [linked] in *; tauto|done|].
  rewrite Hrm. cbn. split; [done|]. eapply reordered_represents; [done|].
  destruct (remove_bins_ok h (link (remove_bin (top b) b) (link bs None)) (top b) [] b bs) as [Hok' Ho']; try done.
  - by rewrite !link_app.
  - apply (linked_frame_eq (events q1)); [|exact (proj2 (proj2 Hl))]. intros z Hz. apply Hfr. intros Hzb. by apply (Hd z).
  - by left.
  - exists h. eexists. exists ([] ++ remove_bin (top b) b ++ bs). split_and!; [done|done|done|]. rewrite Ho'.
    apply (without_mid (top b) [] (rest b ++ order_of bs)). done.
Qed.

(** ** Flags *)

Lemma scheduled_set i : Spec.scheduled (Spec.set_flag Scheduled i) = true.
Proof. unfold Spec.scheduled, Spec.has. cbn. rewrite isSet_set. apply orb_true_r. Qed.
Lemma scheduled_set_squashed i : Spec.scheduled (Spec.set_flag Squashed i) = Spec.scheduled i.
Proof. unfold Spec.scheduled, Spec.has. cbn. rewrite isSet_set. apply orb_false_r. Qed.
Lemma scheduled_clear_squashed i : Spec.scheduled (Spec.clear_flag Squashed i) = Spec.scheduled i.
Proof. unfold Spec.scheduled, Spec.has. cbn. by rewrite isSet_clear_mask. Qed.
Lemma scheduled_clear i : Spec.scheduled (Spec.clear_flag Scheduled i) = false.
Proof. unfold Spec.scheduled, Spec.has. cbn. rewrite isSet_clear_mask. unfold Flags.isSet. cbn. by rewrite Z.land_0_r. Qed.

(** ** The invariant of the specification *)

Definition pending (a : Spec.AQueue) : list Z := Spec.order a ++ Spec.async a.

Record inv (a : Spec.AQueue) : Prop := {
  inv_nodup : NoDup (pending a);
  inv_sched : ∀ x, x ∈ pending a → ∃ i, Spec.infos a !! x = Some i ∧ Spec.scheduled i = true;
}.

Lemma inv_unscheduled a x i :
  inv a → Spec.infos a !! x = Some i → Spec.scheduled i = false → x ∉ pending a.
Proof. intros [_ Hs] Hi Hn Hx. destruct (Hs x Hx) as (j&?&?). congruence. Qed.

(** ** What an operation that returns has done *)

Lemma deref_Ok a x i : Spec.deref a x = Ok i → Spec.infos a !! x = Some i.
Proof. unfold Spec.deref. destruct (Spec.infos a !! x); [|done]. by intros [= ->]. Qed.

Lemma insert_Ok a x a' :
  Spec.insert x a = Ok a' → ∃ i, Spec.infos a !! x = Some i ∧
    a' = Spec.set_order (place (Spec.infos a) x (i_key i) (Spec.order a)) a.
Proof. unfold Spec.insert. intros H. res_inv. apply deref_Ok in Hr. eauto. Qed.

Lemma remove_Ok a x a' :
  Spec.remove x a = Ok a' → x ∈ Spec.order a ∧ a' = Spec.set_order (without x (Spec.order a)) a.
Proof.
  unfold Spec.remove. destruct (bool_decide (Spec.order a = [])); [done|]. intros H. res_inv.
  case_bool_decide; [|done]. by res_inv.
Qed.

Lemma schedule_Ok foreign x w a a' :
  Spec.schedule foreign x w a = Ok a' → ∃ i, Spec.infos a !! x = Some i ∧ Spec.scheduled i = false ∧
    Spec.tick a ≤ w ∧ Spec.tick a' = Spec.tick a ∧ Spec.self a' = Spec.self a ∧
    Spec.infos a' = <[x := Spec.set_flag Scheduled (Spec.setWhen w (Spec.self a) i)]> (Spec.infos a) ∧
    pending a' ≡ₚ x :: pending a ∧ (foreign = false → Spec.order a' ≡ₚ x :: Spec.order a ∧ Spec.async a' = Spec.async a).
Proof.
  unfold Spec.schedule. intros H. res_inv. apply deref_Ok in Hr0. apply on_event_Ok in Hr3 as (i&Hi&->).
  apply on_event_Ok in H as (j&Hj&->). exists r0. assert (i = r0) as -> by congruence.
  unfold pending. destruct foreign; res_inv; subst; cbn in *.
  - rewrite lookup_insert_eq in Hj. injection Hj as <-. rewrite insert_insert_eq. split_and!; try done; [by destruct (Spec.scheduled r0)|lia|].
    by rewrite app_assoc, <- Permutation_cons_append.
  - apply insert_Ok in Hr4 as (k&Hk&->). cbn in *. rewrite lookup_insert_eq in Hj, Hk. injection Hj as <-.
    rewrite insert_insert_eq. split_and!; try done; [by destruct (Spec.scheduled r0)|lia|by rewrite place_perm|].
    intros _. split; [apply place_perm|done].
Qed.

Lemma deschedule_Ok mine x a a' :
  Spec.deschedule mine x a = Ok a' → x ∈ Spec.order a ∧ Spec.tick a' = Spec.tick a ∧ Spec.self a' = Spec.self a ∧
    (∀ y, y ≠ x → Spec.infos a' !! y = Spec.infos a !! y) ∧
    Spec.order a' = without x (Spec.order a) ∧ Spec.async a' = Spec.async a ∧
    (∀ i', Spec.infos a' !! x = Some i' → ∃ i, Spec.infos a !! x = Some i ∧
      i' = Spec.clear_flag Scheduled (Spec.clear_flag Squashed i)).
Proof.
  unfold Spec.deschedule. intros H. res_inv. apply remove_Ok in Hr3 as [Hx ->].
  apply on_event_Ok in Hr4 as (i&Hi&->). cbn in *. destruct (Spec.has AutoDelete _).
  - unfold Spec.delete_event in H. res_inv. subst. cbn. split_and!; try done.
    + intros y Hy. by rewrite lookup_delete_ne, lookup_insert_ne.
    + intros i'. by rewrite lookup_delete_eq.
  - res_inv. subst. cbn. split_and!; try done.
    + intros y Hy. by rewrite lookup_insert_ne.
    + intros i'. rewrite lookup_insert_eq. intros [= <-]. eauto.
Qed.

Lemma reschedule_Ok mine x w always a a' :
  Spec.reschedule mine x w always a = Ok a' → ∃ i, Spec.infos a !! x = Some i ∧
    (Spec.scheduled i = true → x ∈ Spec.order a) ∧ Spec.tick a ≤ w ∧
    Spec.tick a' = Spec.tick a ∧ Spec.self a' = Spec.self a ∧
    Spec.infos a' = <[x := Spec.set_flag Scheduled (Spec.clear_flag Squashed (Spec.setWhen w (Spec.self a) i))]> (Spec.infos a) ∧
    Spec.order a' ≡ₚ x :: (if Spec.scheduled i then without x (Spec.order a) else Spec.order a) ∧
    Spec.async a' = Spec.async a.
Proof.
  unfold Spec.reschedule. intros H. res_inv. apply deref_Ok in Hr0. exists r0.
  assert (Spec.infos r4 = Spec.infos a ∧ Spec.tick r4 = Spec.tick a ∧ Spec.self r4 = Spec.self a ∧
    Spec.async r4 = Spec.async a ∧ (Spec.scheduled r0 = true → x ∈ Spec.order a) ∧
    Spec.order r4 = if Spec.scheduled r0 then without x (Spec.order a) else Spec.order a) as (Hi&Ht&Hs&Ha&Hx&Ho).
  { destruct (Spec.scheduled r0); [apply remove_Ok in Hr4 as [? ->]|res_inv; subst]; by split_and!. }
  apply on_event_Ok in Hr5 as (i&Hi1&->). apply insert_Ok in Hr6 as (j&Hj&->).
  apply on_event_Ok in H as (k&Hk&->). cbn in *. rewrite Hi in *. assert (i = r0) as -> by congruence.
  rewrite lookup_insert_eq in Hk. injection Hk as <-. rewrite insert_insert_eq, Hs.
  split_and!; try done; [lia|]. rewrite place_perm. by rewrite Ho.
Qed.

(** ** The invariant is kept *)

Lemma inv_update a a' x :
  inv a → NoDup (pending a') → (∀ y, y ∈ pending a' → y = x ∨ y ∈ pending a) →
  (∀ y, y ≠ x → Spec.infos a' !! y = Spec.infos a !! y) →
  (x ∈ pending a' → ∃ i, Spec.infos a' !! x = Some i ∧ Spec.scheduled i = true) → inv a'.
Proof.
  intros [Hnd Hs] Hnd' Hp Hi Hx. split; [done|]. intros y Hy. destruct (decide (y = x)) as [->|Hne]; [auto|].
  destruct (Hp y Hy) as [|Hy']; [done|]. rewrite Hi by done. auto.
Qed.

Lemma pending_without x l1 l2 : NoDup (l1 ++ l2) → x ∈ l1 → without x l1 ++ l2 = without x (l1 ++ l2).
Proof.
  intros (_&Hd&_)%NoDup_app Hx. rewrite without_app, (without_id x l2); [done|]. by apply Hd.
Qed.
Lemma elem_of_without x y l : y ∈ without x l ↔ y ≠ x ∧ y ∈ l.
Proof. unfold without. by rewrite list_elem_of_filter. Qed.

Lemma schedule_keeps_inv foreign x w a a' : inv a → Spec.schedule foreign x w a = Ok a' → inv a'.
Proof.
  intros Hinv (i&Hi&Hn&_&_&_&Hi'&Hp&_)%schedule_Ok. pose proof (inv_unscheduled _ _ _ Hinv Hi Hn) as Hx.
  apply (inv_update a a' x); [done|rewrite Hp; constructor; [done|by apply Hinv]| | |].
  - intros y. rewrite Hp. set_solver.
  - intros y Hy. by rewrite Hi', lookup_insert_ne.
  - intros _. eexists. rewrite Hi', lookup_insert_eq. split; [done|apply scheduled_set].
Qed.

Lemma deschedule_keeps_inv mine x a a' : inv a → Spec.deschedule mine x a = Ok a' → inv a'.
Proof.
  intros Hinv (Hx&_&_&Hi&Ho&Ha&_)%deschedule_Ok. pose proof (inv_nodup _ Hinv) as Hnd.
  assert (Hp : pending a' = without x (pending a)) by (unfold pending in *; rewrite Ho, Ha; by apply pending_without).
  apply (inv_update a a' x); [done|rewrite Hp; by apply NoDup_filter| |done|].
  - intros y. rewrite Hp, elem_of_without. tauto.
  - rewrite Hp, elem_of_without. tauto.
Qed.

Lemma reschedule_keeps_inv mine x w always a a' : inv a → Spec.reschedule mine x w always a = Ok a' → inv a'.
Proof.
  intros Hinv (i&Hi&Hx&_&_&_&Hi'&Ho&Ha)%reschedule_Ok. pose proof (inv_nodup _ Hinv) as Hnd.
  assert (Hp : pending a' ≡ₚ x :: (if Spec.scheduled i then without x (pending a) else pending a)).
  { unfold pending in *. rewrite Ho, Ha. destruct (Spec.scheduled i); [|done]. cbn. by rewrite pending_without by auto. }
  assert (Hn : x ∉ (if Spec.scheduled i then without x (pending a) else pending a)).
  { destruct (Spec.scheduled i) eqn:E; [rewrite elem_of_without; tauto|by eapply inv_unscheduled]. }
  apply (inv_update a a' x); [done| | | |].
  - rewrite Hp. constructor; [done|]. destruct (Spec.scheduled i); [by apply NoDup_filter|done].
  - intros y. rewrite Hp, elem_of_cons. destruct (Spec.scheduled i); [rewrite elem_of_without|]; tauto.
  - intros y Hy. by rewrite Hi', lookup_insert_ne.
  - intros _. eexists. rewrite Hi', lookup_insert_eq. split; [done|apply scheduled_set].
Qed.

Lemma squash_inv x a a' : inv a → Spec.squash x a = Ok a' → inv a'.
Proof.
  intros Hinv (i&Hi&->)%on_event_Ok. apply (inv_update a _ x); [done|apply Hinv|by right| |].
  - intros y Hy. cbn. by rewrite lookup_insert_ne.
  - intros Hx. eexists. cbn. rewrite lookup_insert_eq. split; [done|]. rewrite scheduled_set_squashed.
    destruct (inv_sched _ Hinv x Hx) as (j&?&?). congruence.
Qed.

Lemma pop_Ok a x a' :
  Spec.pop a = Ok (x, a') → ∃ i l, Spec.order a = x :: l ∧ Spec.infos a !! x = Some i ∧
    a' = Spec.mkA (Spec.self a) (<[x := Spec.clear_flag Scheduled i]> (Spec.infos a)) l (Spec.tick a) (Spec.async a).
Proof.
  unfold Spec.pop. destruct (Spec.order a) as [|y l]; [done|]. intros H. res_inv. simplify_eq.
  apply on_event_Ok in Hr as (i&Hi&->). eauto.
Qed.

Lemma pop_inv a x a' : inv a → Spec.pop a = Ok (x, a') → inv a'.
Proof.
  intros Hinv (i&l&Ho&Hi&->)%pop_Ok. pose proof (inv_nodup _ Hinv) as Hnd. unfold pending in Hnd. rewrite Ho in Hnd.
  apply NoDup_cons in Hnd as [Hx Hnd]. apply (inv_update a _ x); [done|done| | |].
  - intros y Hy. right. unfold pending in *. rewrite Ho. by right.
  - intros y Hy. cbn. by rewrite lookup_insert_ne.
  - done.
Qed.

Lemma insert_all_Ok l a a' :
  foldM (λ a x, Spec.insert x a) a l = Ok a' →
  Spec.infos a' = Spec.infos a ∧ Spec.tick a' = Spec.tick a ∧ Spec.self a' = Spec.self a ∧
  Spec.async a' = Spec.async a ∧ Spec.order a' ≡ₚ Spec.order a ++ l.
Proof.
  revert a. induction l as [|x l IH]; intros a H; cbn in H; [injection H as <-; by rewrite app_nil_r|].
  res_inv. apply insert_Ok in Hr as (i&Hi&->). destruct (IH _ H) as (->&->&->&->&Ho). cbn in *.
  split_and!; try done. by rewrite Ho, place_perm, <- Permutation_middle.
Qed.

Lemma handleAsyncInsertions_inv a a' : inv a → Spec.handleAsyncInsertions a = Ok a' → inv a'.
Proof.
  unfold Spec.handleAsyncInsertions. intros [Hnd Hs] H. res_inv. subst.
  apply insert_all_Ok in Hr as (Hi&_&_&Ha&Ho). unfold pending in *. split; unfold pending; cbn.
  - by rewrite app_nil_r, Ho.
  - intros x. rewrite app_nil_r, Ho, Hi. auto.
Qed.

(** ** The operations refine the specification *)

Lemma set_infos_represents q a x e' :
  represents q a → x ∉ Spec.order a → ∀ e, events q !! x = Some e →
  represents (set_events (<[x := e']> (events q)) q) (Spec.set_infos (<[x := info e']> (Spec.infos a)) a).
Proof.
  intros [? Hi ? ? (bs&Hok&Ho)] Hx e He. split; simpl; try done; [by rewrite Hi, fmap_insert|].
  exists bs. split; [|done]. eapply bins_insert; [done|done|]. by rewrite Ho.
Qed.

Lemma setWhen_refines q a x w :
  represents q a → x ∉ Spec.order a →
  refines represents (on_event x (setWhen w (self q)) q) (Spec.on_event x (Spec.setWhen w (Spec.self a)) a).
Proof. intros Hr Hx. rewrite (rep_self _ _ Hr). by apply on_event_refines. Qed.

Lemma delete_refines q a x :
  represents q a → x ∉ Spec.order a → refines represents (delete_event x q) (Spec.delete_event x a).
Proof.
  intros Hr Hx. unfold delete_event, Spec.delete_event. eapply refines_bind; [by apply deref_refines|].
  intros e i [-> He] _. apply refines_check; [done|]. intros _. destruct Hr as [? Hi ? ? (bs&Hok&Ho)].
  split; simpl; try done; [by rewrite Hi, fmap_delete|]. exists bs. split; [|done].
  apply bins_delete; [done|]. by rewrite Ho.
Qed.

Lemma schedule_refines foreign x w q a :
  represents q a → inv a → refines represents (schedule foreign x w q) (Spec.schedule foreign x w a).
Proof.
  intros Hr Hinv. unfold schedule, Spec.schedule. rewrite <- (rep_tick _ _ Hr).
  apply refines_check; [done|]. intros _. eapply refines_bind; [by apply deref_refines|]. intros e i [-> He] Hi.
  apply refines_check; [done|]. intros Hn. apply refines_check; [done|]. intros _.
  apply deref_Ok in Hi. assert (x ∉ pending a) as Hx.
  { eapply inv_unscheduled; [done|done|]. exact (proj1 (negb_true_iff _) Hn). }
  unfold pending in Hx. eapply refines_bind; [apply setWhen_refines; [done|set_solver]|].
  intros q1 a1 Hr1 (j&_&->)%on_event_Ok. eapply refines_bind.
  - destruct foreign; [|apply insert_refines; [done|]; cbn; set_solver].
    destruct Hr1 as [H1 H2 H3 H4 H5]. split; try done. cbn in *. by rewrite H4.
  - intros q2 a2 Hr2 _. by apply set_flag_refines.
Qed.

Lemma deschedule_refines mine x q a :
  represents q a → inv a → refines represents (deschedule mine x q) (Spec.deschedule mine x a).
Proof.
  intros Hr Hinv. unfold deschedule, Spec.deschedule. eapply refines_bind; [by apply deref_refines|].
  intros e i [-> He] _. do 3 (apply refines_check; [done|]; intros _).
  eapply refines_bind; [by apply remove_refines|]. intros q1 a1 Hr1 [_ ->]%remove_Ok.
  eapply refines_bind; [by apply on_event_refines|]. intros q2 a2 Hr2 (j&_&->)%on_event_Ok.
  eapply refines_bind; [by apply deref_refines|]. intros e2 i2 [-> He2] _. cbn [Spec.has info i_flags].
  unfold Spec.has, isAutoDelete. cbn [i_flags info]. destruct (Flags.isSet (flags e2) AutoDelete); [|done].
  apply delete_refines; [done|]. cbn. rewrite elem_of_without. tauto.
Qed.

Lemma reschedule_refines mine x w always q a :
  represents q a → inv a → refines represents (reschedule mine x w always q) (Spec.reschedule mine x w always a).
Proof.
  intros Hr Hinv. unfold reschedule, Spec.reschedule. rewrite <- (rep_tick _ _ Hr).
  apply refines_check; [done|]. intros _. eapply refines_bind; [by apply deref_refines|]. intros e i [-> He] Hi.
  apply deref_Ok in Hi. do 3 (apply refines_check; [done|]; intros _).
  apply (refines_bind (λ q a, represents q a ∧ x ∉ Spec.order a)).
  - change (scheduled e) with (Spec.scheduled (info e)). destruct (Spec.scheduled (info e)) eqn:E.
    + pose proof (remove_refines q a x Hr) as Hrm.
      destruct (remove x q) as [q1|], (Spec.remove x a) as [a1|] eqn:E1; try done. split; [done|].
      apply remove_Ok in E1 as [_ ->]. cbn. rewrite elem_of_without. tauto.
    + split; [done|]. pose proof (inv_unscheduled _ _ _ Hinv Hi E) as Hx. unfold pending in Hx. set_solver.
  - intros q1 a1 [Hr1 Hx] _. eapply refines_bind; [by apply setWhen_refines|].
    intros q2 a2 Hr2 (j&_&->)%on_event_Ok. eapply refines_bind; [by apply insert_refines|].
    intros q3 a3 Hr3 _. by apply on_event_refines.
Qed.

Lemma insert_all_refines l q a :
  represents q a → NoDup (Spec.order a ++ l) →
  refines represents (foldM (λ q x, insert x q) q l) (foldM (λ a x, Spec.insert x a) a l).
Proof.
  revert q a. induction l as [|x l IH]; intros q a Hr Hnd; [done|]. cbn [foldM].
  eapply refines_bind; [apply insert_refines; [done|]|].
  - apply NoDup_app in Hnd as (_&Hd&_). intros Hx. apply (Hd x Hx). by left.
  - intros q1 a1 Hr1 (i&_&->)%insert_Ok. apply IH; [done|]. cbn. rewrite place_perm. cbn [app]. by rewrite Permutation_middle.
Qed.

Lemma handleAsyncInsertions_refines q a :
  represents q a → inv a → refines represents (handleAsyncInsertions q) (Spec.handleAsyncInsertions a).
Proof.
  intros Hr Hinv. unfold handleAsyncInsertions, Spec.handleAsyncInsertions. rewrite (rep_async _ _ Hr).
  eapply refines_bind.
  - apply insert_all_refines; [done|]. rewrite <- (rep_async _ _ Hr). apply Hinv.
  - intros q1 a1 [H1 H2 H3 H4 H5] _. by split.
Qed.

(** ** [debugVerify] and checkpoints *)

(** [debugVerify] accepts a queue unless its first event has a negative priority at tick 0,
    which it compares with its initial values of [time] and [priority]. *)
Lemma debugVerify_represents q a :
  represents q a →
  (∀ x l i, Spec.order a = x :: l → Spec.infos a !! x = Some i → ¬ key_lt (i_key i) (0, 0)) →
  debugVerify q = Ok true.
Proof.
  intros [_ Hi _ _ (bs&Hok&Ho)] Hfirst. pose proof (order_size _ _ _ Hok) as Hsz. destruct Hok as [Hhd Hl Hs Hnd].
  unfold debugVerify. rewrite Hhd. apply verify_bins_ok; try done.
  - pose proof (length_order bs). lia.
  - intros b bs' ->. rewrite order_of_cons in Ho. destruct Hl as [_ [[(e&He&Hk&_) _] _]].
    rewrite <- Hk. apply (Hfirst (top b) (rest b ++ order_of bs') (info e)); [by rewrite <- Ho|].
    by rewrite Hi, lookup_fmap, He.
  - intros x _. apply not_elem_of_nil.
Qed.

Module Restored.
(** A queue with an event of negative priority at tick 0: [debugVerify] reports it. *)
Definition early : res bool :=
  e ← new_Event (-1) 0;
  q ← schedule false 1 0 (new_EventQueue 0 {[ 1 := e ]});
  debugVerify q.
Lemma early_reported : early = Ok false.
Proof. vm_compute. reflexivity. Qed.
End Restored.

(** An event that was scheduled and not squashed when the checkpoint was taken is not put
    back on the queue by [UNSERIALIZE_EVENT]. *)
Lemma restored_event_lost x q e cp :
  events q !! x = Some e → scheduled e = false → initialized e = true →
  Flags.isSet cp.2 Scheduled = true → Flags.isSet cp.2 Squashed = false →
  ∃ e', unserialize_event x cp q = Ok (set_events (<[x := e']> (events q)) q) ∧ scheduled e' = false.
Proof.
  intros He Hn Hin Hs Hq. destruct cp as [[w p] f]. cbn in Hs, Hq. unfold unserialize_event. rewrite (deref_ok _ _ _ He).
  cbn [mbind res_mbind]. unfold unserialize. rewrite Hn, Hin. cbn [negb check mbind res_mbind mret res_mret].
  unfold scheduled at 1, squashed. cbn [flags]. rewrite !isSet_set, Hs, Hq. cbn [orb andb negb].
  replace (Flags.isSet Initialized Squashed) with false by reflexivity. cbn [negb].
  set (e' := clear_flag _ _). assert (Hsc : scheduled e' = false).
  { unfold scheduled, e', clear_flag. cbn [flags set_flags]. rewrite isSet_clear_mask. unfold Flags.isSet.
    replace (Z.land _ Scheduled) with 0 by reflexivity. by rewrite Z.land_0_r. }
  exists e'. split; [|done]. unfold checkpointReschedule. cbn [events set_events].
  rewrite (deref_ok _ _ e') by apply lookup_insert_eq. cbn [mbind res_mbind]. by rewrite Hsc.
Qed.
