(* ===== verification/EventQSim.v ===== *)
(** * Runs of the event queue and the simulation loop

    Any sequence of operations on a new queue does what it does on the sorted list of
    events ([event_queue_refines]); the simulation loop never fails, time never goes
    backwards and never runs past a scheduled exit event ([doSimLoop_safe]), whatever the
    events do through the interface of the queue. *)

From stdpp Require Import base gmap list relations sorting.
From S2P Require Import Prelude Packets EventQ EventQOrder EventQRefine.
Import EventQueue.
Local Open Scope Z_scope.

(** ** The calls of the interface *)

(** [new Event(p, f)] at the address [x], which is not in use. *)
Definition new_event (x p f : Z) (q : EventQueue) : res EventQueue :=
  match events q !! x with
  | Some _ => Err UB
  | None => e ← new_Event p f; mret (set_events (<[x := e]> (events q)) q)
  end.
Definition spec_new_event (x p f : Z) (a : Spec.AQueue) : res Spec.AQueue :=
  match Spec.infos a !! x with
  | Some _ => Err UB
  | None => e ← new_Event p f; mret (Spec.set_infos (<[x := info e]> (Spec.infos a)) a)
  end.

Inductive Op :=
  | New (x p f : Z)
  | Schedule (x w : Z)
  | Deschedule (x : Z)
  | Reschedule (x w : Z) (always : bool)
  | Squash (x : Z).

Definition run_op (o : Op) (q : EventQueue) : res EventQueue :=
  match o with
  | New x p f => new_event x p f q
  | Schedule x w => schedule false x w q
  | Deschedule x => deschedule true x q
  | Reschedule x w always => reschedule true x w always q
  | Squash x => squash x q
  end.
Definition spec_op (o : Op) (a : Spec.AQueue) : res Spec.AQueue :=
  match o with
  | New x p f => spec_new_event x p f a
  | Schedule x w => Spec.schedule false x w a
  | Deschedule x => Spec.deschedule true x a
  | Reschedule x w always => Spec.reschedule true x w always a
  | Squash x => Spec.squash x a
  end.

(** What happens to a queue: calls of its own thread, [schedule] from another thread and
    the insertion of what those left, taking the first event off and setting the time. *)
Inductive Step :=
  | Call (o : Op)
  | Foreign (x w : Z)
  | Absorb
  | Take
  | Advance (t : Z).

Definition run_step (st : list Z * EventQueue) (s : Step) : res (list Z * EventQueue) :=
  let '(t, q) := st in
  match s with
  | Call o => q ← run_op o q; mret (t, q)
  | Foreign x w => q ← schedule true x w q; mret (t, q)
  | Absorb => q ← handleAsyncInsertions q; mret (t, q)
  | Take => '(c, q) ← pop q; mret (t ++ [c], q)
  | Advance w => mret (t, setCurTick w q)
  end.
Definition spec_step (st : list Z * Spec.AQueue) (s : Step) : res (list Z * Spec.AQueue) :=
  let '(t, a) := st in
  match s with
  | Call o => a ← spec_op o a; mret (t, a)
  | Foreign x w => a ← Spec.schedule true x w a; mret (t, a)
  | Absorb => a ← Spec.handleAsyncInsertions a; mret (t, a)
  | Take => '(c, a) ← Spec.pop a; mret (t ++ [c], a)
  | Advance w => mret (t, Spec.mkA (Spec.self a) (Spec.infos a) (Spec.order a) w (Spec.async a))
  end.

(** The events in the order of the list are sorted by tick and priority. *)
Definition not_after (m : gmap Z Info) (x y : Z) : Prop :=
  ∃ i j, m !! x = Some i ∧ m !! y = Some j ∧ key_le (i_key i) (i_key j).
Definition sorted (a : Spec.AQueue) : Prop := StronglySorted (not_after (Spec.infos a)) (Spec.order a).

(** ** Refinement of every sequence of steps *)

Lemma new_event_refines x p f q a :
  represents q a → inv a → refines represents (new_event x p f q) (spec_new_event x p f a).
Proof.
  intros [H1 Hi H3 H4 (bs&Hok&Ho)] Hinv. unfold new_event, spec_new_event. rewrite Hi, lookup_fmap.
  destruct (events q !! x) eqn:Hx; [done|]. cbn. destruct (new_Event p f) as [e|]; [|done]. cbn.
  split; cbn; try done; [by rewrite fmap_insert|]. exists bs. split; [|done].
  destruct Hok as [Hhd Hl Hs Hnd]. split; try done. eapply linked_frame_eq, Hl. intros y Hy.
  rewrite lookup_insert_ne; [done|]. intros ->. apply elem_of_order in Hy as (b&Hb&Hy).
  destruct (linked_key _ _ _ _ _ Hl Hb Hy) as (?&?&_). congruence.
Qed.

Lemma new_event_inv x p f a a' : inv a → spec_new_event x p f a = Ok a' → inv a'.
Proof.
  intros [Hnd Hs]. unfold spec_new_event. destruct (Spec.infos a !! x) eqn:Hx; [done|]. intros H. res_inv. subst.
  split; [done|]. intros y Hy. destruct (Hs y Hy) as (i&Hi&?). exists i. cbn. rewrite lookup_insert_ne; [done|congruence].
Qed.

Lemma run_op_refines o q a : represents q a → inv a → refines represents (run_op o q) (spec_op o a).
Proof.
  intros Hr Hinv. destruct o; cbn [run_op spec_op].
  - by apply new_event_refines.
  - by apply schedule_refines.
  - by apply deschedule_refines.
  - by apply reschedule_refines.
  - by apply set_flag_refines.
Qed.

Lemma spec_op_inv o a a' : inv a → spec_op o a = Ok a' → inv a'.
Proof.
  destruct o; cbn [spec_op].
  - apply new_event_inv.
  - apply schedule_keeps_inv.
  - apply deschedule_keeps_inv.
  - apply reschedule_keeps_inv.
  - apply squash_inv.
Qed.

Lemma linked_sorted h bs next :
  linked h bs next → StronglySorted key_lt (bkey <$> bs) →
  StronglySorted (not_after (info <$> h)) (order_of bs).
Proof.
  induction bs as [|b bs IH]; intros Hl Hs; [constructor|]. pose proof Hl as [_ [Hb Hl']].
  cbn in Hs. apply StronglySorted_cons in Hs as [Hb' Hs]. rewrite order_of_cons. apply StronglySorted_app_2; [|clear -Hb|by apply IH].
  - intros x y Hx (b2&Hb2&Hy)%elem_of_order. destruct (in_bin_elem _ _ _ _ Hb Hx) as (e&He&Hk).
    destruct (linked_key _ _ _ _ _ Hl' Hb2 Hy) as (f&Hf&Hkf). exists (info e), (info f). rewrite !lookup_fmap, He, Hf.
    split_and!; [done..|]. cbn. rewrite Hk, Hkf. assert (key_lt (bkey b) (bkey b2)) as Hlt.
    { eapply Forall_forall in Hb'; [exact Hb'|]. apply list_elem_of_fmap. by exists b2. }
    clear -Hlt. destruct (bkey b), (bkey b2). key_solve.
  - induction (members b) as [|x l IH]; [constructor|]. pose proof Hb as [(e&He&Hk&_) Hb'].
    apply StronglySorted_cons. split; [|by apply IH]. apply Forall_forall. intros y Hy.
    destruct (in_bin_elem _ _ _ _ Hb' Hy) as (f&Hf&Hkf). exists (info e), (info f). rewrite !lookup_fmap, He, Hf.
    split_and!; [done..|]. cbn. rewrite Hk, Hkf. clear. destruct (bkey b). key_solve.
Qed.

Lemma represents_sorted q a : represents q a → sorted a.
Proof. intros [_ Hi _ _ (bs&[_ Hl Hs _]&Ho)]. unfold sorted. rewrite Hi, <- Ho. by eapply linked_sorted. Qed.

Definition related (st : list Z * EventQueue) (st' : list Z * Spec.AQueue) : Prop :=
  st.1 = st'.1 ∧ represents st.2 st'.2 ∧ inv st'.2 ∧ sorted st'.2.

Lemma related_step (t : list Z) (m : res EventQueue) (s : res Spec.AQueue) :
  refines represents m s → (∀ a, s = Ok a → inv a) →
  refines related (q ← m; mret (t, q)) (a ← s; mret (t, a)).
Proof.
  intros Hr Hi. destruct m as [q|], s as [a|]; try done. split_and!; cbn; auto. by eapply represents_sorted.
Qed.

Lemma run_step_refines st st' s : related st st' → refines related (run_step st s) (spec_step st' s).
Proof.
  destruct st as [t q], st' as [t' a]. intros (Ht&Hr&Hinv&_). cbn in Ht, Hr, Hinv. subst t'.
  destruct s as [o|x w| | |w]; cbn [run_step spec_step].
  - apply related_step; [by apply run_op_refines|]. intros a'. by apply spec_op_inv.
  - apply related_step; [by apply schedule_refines|]. intros a'. by apply schedule_keeps_inv.
  - apply related_step; [by apply handleAsyncInsertions_refines|]. intros a'. by apply handleAsyncInsertions_inv.
  - pose proof (pop_refines q a Hr) as Hp. destruct (pop q) as [[c q1]|], (Spec.pop a) as [[x a1]|] eqn:E; try done.
    destruct Hp as [-> Hr1]. split_and!; cbn; [done|done|by eapply pop_inv|by eapply represents_sorted].
  - assert (represents (setCurTick w q) (Spec.mkA (Spec.self a) (Spec.infos a) (Spec.order a) w (Spec.async a))) as Hr'.
    { by destruct Hr. }
    split_and!; cbn; [done|done|by destruct Hinv|by eapply represents_sorted].
Qed.

Lemma run_steps_refine ss st st' :
  related st st' → refines related (foldM run_step st ss) (foldM spec_step st' ss).
Proof.
  revert st st'. induction ss as [|s ss IH]; intros st st' Hr; [done|]. cbn [foldM].
  eapply refines_bind; [by apply run_step_refines|]. auto.
Qed.

(** C23: the linked bins of an event queue behave as a sorted list of events: after any
    sequence of steps on a new queue (creating, scheduling, descheduling, rescheduling and
    squashing events, insertions by other threads and their absorption, taking the first
    event off, advancing the time) the queue has failed exactly when and how the list
    does, and otherwise has yielded the same events in the same order, and its bins hold
    the events of the list, without duplicates, all of them scheduled, sorted by tick and
    priority with the last inserted first. *)
Theorem event_queue_refines (a : Z) (ss : list Step) :
  refines related (foldM run_step ([], new_EventQueue a ∅) ss)
    (foldM spec_step ([], Spec.mkA a ∅ [] 0 []) ss).
Proof.
  apply run_steps_refine. split_and!; cbn; [done| |split; [constructor|set_solver]|constructor].
  split; cbn; try done. exists []. split; [|done]. split; [done|done|constructor|constructor].
Qed.

(** ** What the simulation loop relies on *)

(** No insertions of other threads are waiting, no event lies in the past, the events
    are initialised and none is marked as being on the main queue. *)
Definition flags_ok (f : Z) : Prop := Z.land f InitMask = Initialized ∧ Flags.isSet f IsMainQueue = false.

Record calm (a : Spec.AQueue) : Prop := {
  calm_inv : inv a;
  calm_async : Spec.async a = [];
  calm_time : ∀ x i, x ∈ Spec.order a → Spec.infos a !! x = Some i → Spec.tick a ≤ (i_key i).1;
  calm_flags : ∀ x i, Spec.infos a !! x = Some i → flags_ok (i_flags i);
}.
Definition good (q : EventQueue) : Prop := ∃ a, represents q a ∧ calm a.

(** The exit event [x] that will end the loop at tick [w]. *)
Definition exits (x : Z) (a : Spec.AQueue) : Prop :=
  ∃ i, Spec.infos a !! x = Some i ∧ Spec.has IsExitEvent i = true.
Definition live (x w : Z) (a : Spec.AQueue) : Prop :=
  x ∈ Spec.order a ∧ ∃ i, Spec.infos a !! x = Some i ∧ (i_key i).1 = w ∧
    Spec.has IsExitEvent i = true ∧ Spec.has Squashed i = false.
Definition good_exit (x w : Z) (q : EventQueue) : Prop := ∃ a, represents q a ∧ calm a ∧ live x w a.

(** The calls that leave [x] scheduled as it is. *)
Definition allowed (x : Z) (o : Op) : Prop :=
  match o with
  | New _ _ _ | Schedule _ _ => True
  | Deschedule y | Reschedule y _ _ | Squash y => y ≠ x
  end.
Definition op_step (x : Z) (q q' : EventQueue) : Prop := ∃ o, allowed x o ∧ run_op o q = Ok q'.

(** ** Flags of an event *)

Lemma flags_ok_set f m :
  Z.land m InitMask = 0 → Flags.isSet m IsMainQueue = false → flags_ok f → flags_ok (Flags.set f m).
Proof.
  intros Hm1 Hm2 [H1 H2]. split; [|by rewrite isSet_set, H2, Hm2].
  unfold Flags.set. by rewrite Z.land_lor_distr_l, H1, Hm1.
Qed.
Lemma flags_ok_clear f m :
  Z.land (wrap 16 (Z.lnot m)) InitMask = InitMask → Z.land (wrap 16 (Z.lnot m)) IsMainQueue = IsMainQueue →
  flags_ok f → flags_ok (Flags.clear 16 f m).
Proof.
  intros Hm1 Hm2 [H1 H2]. split; [|by rewrite isSet_clear_mask, Hm2].
  unfold Flags.clear. by rewrite <- Z.land_assoc, Hm1.
Qed.
Lemma flags_ok_new p f e : new_Event p f = Ok e → flags_ok (flags e).
Proof.
  unfold new_Event. intros H. res_inv. subst. cbn. unfold Flags.noneSet in Hr. apply Z.eqb_eq in Hr.
  assert (∀ m, Z.land (wrap 16 (Z.lnot PublicWrite)) m = m → Z.land f m = 0) as Hm.
  { intros m <-. by rewrite Z.land_assoc, Hr. }
  split.
  - by rewrite Z.land_lor_distr_l, (Hm InitMask).
  - unfold Flags.isSet. by rewrite Z.land_lor_distr_l, (Hm IsMainQueue).
Qed.
#[local] Hint Resolve flags_ok_set flags_ok_clear flags_ok_new : core.

Lemma has_set m1 m2 i : Spec.has m2 (Spec.set_flag m1 i) = Spec.has m2 i || Flags.isSet m1 m2.
Proof. apply isSet_set. Qed.
Lemma has_clear m1 m2 i :
  Z.land (wrap 16 (Z.lnot m1)) m2 = m2 → Spec.has m2 (Spec.clear_flag m1 i) = Spec.has m2 i.
Proof. intros Hm. unfold Spec.has. cbn. by rewrite isSet_clear_mask, Hm. Qed.

(** ** The calls of the interface keep the conditions *)

Lemma calm_update a a' x :
  calm a → inv a' → Spec.async a' = [] → Spec.tick a' = Spec.tick a →
  (∀ y, y ∈ Spec.order a' → y = x ∨ y ∈ Spec.order a) →
  (∀ y, y ≠ x → Spec.infos a' !! y = Spec.infos a !! y) →
  (∀ i, Spec.infos a' !! x = Some i → flags_ok (i_flags i) ∧ (x ∈ Spec.order a' → Spec.tick a ≤ (i_key i).1)) →
  calm a'.
Proof.
  intros [_ _ Ht Hf] Hinv Ha Hk Ho Hi Hx. split; [done|done| |].
  - intros y i Hy Hyi. rewrite Hk. destruct (decide (y = x)) as [->|Hne]; [by apply (Hx i Hyi)|].
    rewrite Hi in Hyi by done. destruct (Ho y Hy) as [|?]; [done|]. by eapply Ht.
  - intros y i Hyi. destruct (decide (y = x)) as [->|Hne]; [by apply (Hx i Hyi)|].
    rewrite Hi in Hyi by done. by eapply Hf.
Qed.

Definition keeps (x : Z) (a a' : Spec.AQueue) : Prop :=
  Spec.tick a' = Spec.tick a ∧ (∀ w, live x w a → live x w a') ∧ (exits x a → exits x a').

Lemma keeps_other x a a' y :
  y ≠ x → Spec.tick a' = Spec.tick a → (x ∈ Spec.order a → x ∈ Spec.order a') →
  (∀ z, z ≠ y → Spec.infos a' !! z = Spec.infos a !! z) → keeps x a a'.
Proof. intros Hne Ht Ho Hi. split; [done|]. unfold live, exits. rewrite Hi by done. naive_solver. Qed.

Lemma new_event_calm x y p f a a' : calm a → spec_new_event y p f a = Ok a' → calm a' ∧ keeps x a a'.
Proof.
  intros Hc H. pose proof (new_event_inv _ _ _ _ _ (calm_inv _ Hc) H) as Hinv. unfold spec_new_event in H.
  destruct (Spec.infos a !! y) eqn:Hy; [done|]. res_inv. subst. split.
  - apply (calm_update a _ y); try done; [apply Hc|by right| |].
    + intros z Hz. cbn. by rewrite lookup_insert_ne.
    + intros i. cbn. rewrite lookup_insert_eq. intros [= <-]. split; [by eapply flags_ok_new|]. intros Hin.
      destruct (inv_sched _ (calm_inv _ Hc) y) as (?&?&_); [unfold pending; set_solver|congruence].
  - assert (∀ i, Spec.infos a !! x = Some i → <[y:=info r]> (Spec.infos a) !! x = Some i) as Hx.
    { intros i Hi. rewrite lookup_insert_ne; [done|congruence]. }
    split; [done|]. unfold live, exits. cbn. naive_solver.
Qed.

Lemma schedule_calm x y w a a' : calm a → Spec.schedule false y w a = Ok a' → calm a' ∧ keeps x a a'.
Proof.
  intros Hc H. pose proof (schedule_keeps_inv _ _ _ _ _ (calm_inv _ Hc) H) as Hinv.
  apply schedule_Ok in H as (i&Hi&Hn&Hw&Ht&_&Hi'&_&Hf). destruct (Hf eq_refl) as [Ho Ha]. split; [|split_and!; [done| |]].
  - apply (calm_update a _ y); [done|done|rewrite Ha; apply Hc|done|intros z; rewrite Ho; set_solver| |].
    + intros z Hz. by rewrite Hi', lookup_insert_ne.
    + intros j. rewrite Hi', lookup_insert_eq. intros [= <-]. split; [|done]. cbn.
      apply flags_ok_set; [done..|]. by eapply calm_flags.
  - intros w' [Hx (j&Hj&?&?&?)]. split; [rewrite Ho; by right|]. exists j. rewrite Hi', lookup_insert_ne; [done|].
    intros ->. destruct (inv_unscheduled _ _ _ (calm_inv _ Hc) Hi Hn). unfold pending. set_solver.
  - intros (j&Hj&He). unfold exits. rewrite Hi'. destruct (decide (y = x)) as [->|Hne].
    + assert (j = i) as -> by congruence. rewrite lookup_insert_eq. eexists. split; [done|].
      rewrite has_set. by apply orb_true_iff; left.
    + rewrite lookup_insert_ne by done. eauto.
Qed.

Lemma deschedule_calm x y a a' :
  y ≠ x → calm a → Spec.deschedule true y a = Ok a' → calm a' ∧ keeps x a a'.
Proof.
  intros Hne Hc H. pose proof (deschedule_keeps_inv _ _ _ _ (calm_inv _ Hc) H) as Hinv.
  apply deschedule_Ok in H as (Hy&Ht&_&Hi&Ho&Ha&Hi'). split.
  - apply (calm_update a _ y); [done|done|rewrite Ha; apply Hc|done|intros z; rewrite Ho, elem_of_without; tauto|done|].
    intros j Hj. destruct (Hi' j Hj) as (i&Hyi&->). rewrite Ho, elem_of_without. split; [|tauto]. cbn.
    do 2 (apply flags_ok_clear; [done..|]). by eapply calm_flags.
  - apply (keeps_other x a a' y); auto. rewrite Ho, elem_of_without. auto.
Qed.

Lemma reschedule_calm x y w always a a' :
  y ≠ x → calm a → Spec.reschedule true y w always a = Ok a' → calm a' ∧ keeps x a a'.
Proof.
  intros Hne Hc H. pose proof (reschedule_keeps_inv _ _ _ _ _ _ (calm_inv _ Hc) H) as Hinv.
  apply reschedule_Ok in H as (i&Hi&_&Hw&Ht&_&Hi'&Ho&Ha).
  assert (∀ z, z ≠ y → Spec.infos a' !! z = Spec.infos a !! z) as Hz by (intros z ?; by rewrite Hi', lookup_insert_ne).
  split; [apply (calm_update a _ y); [done|done|rewrite Ha; apply Hc|done| |done|]|].
  - intros z. rewrite Ho, elem_of_cons. destruct (Spec.scheduled i); rewrite ?elem_of_without; tauto.
  - intros j. rewrite Hi', lookup_insert_eq. intros [= <-]. split; [|done]. cbn.
    apply flags_ok_set; [done..|]. apply flags_ok_clear; [done..|]. by eapply calm_flags.
  - apply (keeps_other x a a' y); auto.
    rewrite Ho, elem_of_cons. destruct (Spec.scheduled i); rewrite ?elem_of_without; auto.
Qed.

Lemma squash_calm x y a a' : y ≠ x → calm a → Spec.squash y a = Ok a' → calm a' ∧ keeps x a a'.
Proof.
  intros Hne Hc H. pose proof (squash_inv _ _ _ (calm_inv _ Hc) H) as Hinv. apply on_event_Ok in H as (i&Hi&->).
  assert (∀ z, z ≠ y → <[y:=Spec.set_flag Squashed i]> (Spec.infos a) !! z = Spec.infos a !! z) as Hz.
  { intros z ?. by rewrite lookup_insert_ne. }
  split; [apply (calm_update a _ y); try done; [apply Hc|by right|]|by apply (keeps_other x a _ y)].
  intros j. cbn. rewrite lookup_insert_eq. intros [= <-]. split; [|intros ?; cbn; by eapply calm_time].
  apply flags_ok_set; [done..|]. by eapply calm_flags.
Qed.

Lemma spec_op_calm x o a a' : allowed x o → calm a → spec_op o a = Ok a' → calm a' ∧ keeps x a a'.
Proof.
  destruct o; cbn [allowed spec_op]; intros ???; eauto using new_event_calm, schedule_calm, deschedule_calm, reschedule_calm, squash_calm.
Qed.

Lemma keeps_trans x a1 a2 a3 : keeps x a1 a2 → keeps x a2 a3 → keeps x a1 a3.
Proof. intros (H1&H2&H3) (H4&H5&H6). split_and!; [congruence|auto..]. Qed.

Lemma op_step_calm x q q' a :
  op_step x q q' → represents q a → calm a → ∃ a', represents q' a' ∧ calm a' ∧ keeps x a a'.
Proof.
  intros (o&Hx&Hrun) Hr Hc. pose proof (run_op_refines o q a Hr (calm_inv _ Hc)) as Hq. rewrite Hrun in Hq.
  destruct (spec_op o a) as [a'|] eqn:E; [|done]. exists a'. split; [done|]. by eapply spec_op_calm.
Qed.

Lemma op_steps_calm x q q' a :
  rtc (op_step x) q q' → represents q a → calm a → ∃ a', represents q' a' ∧ calm a' ∧ keeps x a a'.
Proof.
  intros Hs. revert a. induction Hs as [q|q1 q2 q3 H1 _ IH]; intros a Hr Hc; [by exists a|].
  destruct (op_step_calm _ _ _ _ H1 Hr Hc) as (a2&Hr2&Hc2&Hk2).
  destruct (IH a2 Hr2 Hc2) as (a3&?&?&?). exists a3. split_and!; [done..|]. by eapply keeps_trans.
Qed.

(** ** One event *)

Lemma live_unsquashed x w a i : live x w a → Spec.infos a !! x = Some i → Spec.has Squashed i = false.
Proof. intros [_ (j&?&_&_&?)] ?. congruence. Qed.

Lemma pop_eq a c i l :
  Spec.order a = c :: l → Spec.infos a !! c = Some i →
  Spec.pop a = Ok (c, Spec.mkA (Spec.self a) (<[c := Spec.clear_flag Scheduled i]> (Spec.infos a)) l (Spec.tick a) (Spec.async a)).
Proof. intros Ho Hi. unfold Spec.pop, Spec.on_event, Spec.deref. by rewrite Ho, Hi. Qed.

(** The state after the first event was taken off, at the time of that event. *)
Lemma take_calm a c i l t :
  calm a → sorted a → Spec.order a = c :: l → Spec.infos a !! c = Some i → t = Spec.tick a ∨ t = (i_key i).1 →
  calm (Spec.mkA (Spec.self a) (<[c := Spec.clear_flag Scheduled i]> (Spec.infos a)) l t (Spec.async a)).
Proof.
  intros [Hinv Ha Ht Hf] Hs Ho Hi Hw. pose proof (inv_nodup _ Hinv) as Hnd. unfold pending in Hnd.
  rewrite Ho, Ha, app_nil_r in Hnd. apply NoDup_cons in Hnd as [Hcl Hnd]. split; cbn; [|done| |].
  - destruct (pop_inv a c _ Hinv (pop_eq a c i l Ho Hi)) as [H1 H2]. by split.
  - intros y j Hy. rewrite lookup_insert_ne by congruence. intros Hj. destruct Hw as [->| ->].
    + eapply Ht; [|done]. rewrite Ho. by right.
    + unfold sorted in Hs. rewrite Ho in Hs. apply StronglySorted_cons in Hs as [Hs _].
      eapply Forall_forall in Hs as (i1&j1&?&?&Hle); [|done]. simplify_eq. clear -Hle. unfold key_le in Hle. lia.
  - intros y j. destruct (decide (y = c)) as [->|]; [rewrite lookup_insert_eq|rewrite lookup_insert_ne by done; apply Hf].
    intros [= <-]. apply flags_ok_clear; [done..|]. by eapply Hf.
Qed.

Lemma take_live x w a c l v t s :
  x ≠ c → Spec.order a = c :: l → live x w a →
  live x w (Spec.mkA s (<[c := v]> (Spec.infos a)) l t (Spec.async a)).
Proof.
  intros Hne Ho [Hx (j&?&?)]. split; [rewrite Ho in Hx; by apply elem_of_cons in Hx as [?|?]|].
  exists j. cbn. by rewrite lookup_insert_ne.
Qed.

Lemma take_exits x w a c i l t s :
  live x w a → Spec.infos a !! c = Some i →
  exits x (Spec.mkA s (<[c := Spec.clear_flag Scheduled i]> (Spec.infos a)) l t (Spec.async a)).
Proof.
  intros [_ (j&Hj&_&He&_)] Hi. unfold exits. cbn. destruct (decide (x = c)) as [->|].
  - eexists. rewrite lookup_insert_eq. split; [done|]. rewrite has_clear by done. congruence.
  - exists j. by rewrite lookup_insert_ne.
Qed.

Lemma first_time a c l x w i :
  sorted a → Spec.order a = c :: l → live x w a → Spec.infos a !! c = Some i → (i_key i).1 ≤ w.
Proof.
  unfold sorted. intros Hs Ho [Hx (j&Hj&<-&_)] Hi. rewrite Ho in Hs, Hx. apply elem_of_cons in Hx as [->|Hx].
  - by simplify_eq.
  - apply StronglySorted_cons in Hs as [Hs _]. eapply Forall_forall in Hs as (i1&j1&?&?&Hle); [|done]. simplify_eq.
    clear -Hle. unfold key_le in Hle. lia.
Qed.

(** The end of [serviceOne]: the event is deleted if it asked for it. *)
Lemma auto_delete_ok x w c q a e :
  represents q a → calm a → live x w a → c ≠ x → events q !! c = Some e →
  ∃ q', (if isAutoDelete e && negb (scheduled e) then q ← delete_event c q; mret (None, q) else mret (None, q))
        = Ok (None : option Z, q') ∧ _curTick q' = _curTick q ∧ good_exit x w q'.
Proof.
  intros Hr Hc Hl Hne He. destruct (isAutoDelete e && negb (scheduled e)) eqn:E; [|exists q; split_and!; [done..|by exists a]].
  apply andb_true_iff in E as [_ Hn]. pose proof (rep_infos _ _ Hr) as Hi.
  assert (Hci : Spec.infos a !! c = Some (info e)) by (by rewrite Hi, lookup_fmap, He).
  assert (c ∉ pending a) as Hp by (eapply inv_unscheduled; [apply Hc|done|exact (proj1 (negb_true_iff _) Hn)]).
  assert (c ∉ Spec.order a) as Ho by (unfold pending in Hp; set_solver).
  pose proof (delete_refines q a c Hr Ho) as Hd. unfold Spec.delete_event, Spec.deref in Hd. rewrite Hci in Hd.
  cbn in Hd. change (Spec.scheduled (info e)) with (scheduled e) in Hd. rewrite Hn in Hd. cbn in Hd.
  destruct (delete_event c q) as [q'|]; [|done]. exists q'. split; [done|]. cbn in Hd.
  split; [rewrite <- (rep_tick _ _ Hd), <- (rep_tick _ _ Hr); done|]. eexists. split_and!; [exact Hd| |].
  - destruct Hc as [Hinv Ha Ht Hf]. split; cbn; [|done| |].
    + apply (inv_update a _ c); [done|apply Hinv|by right| |done]. intros y Hy. cbn. by rewrite lookup_delete_ne.
    + intros y j Hy. rewrite lookup_delete_ne by congruence. by apply Ht.
    + intros y j. rewrite lookup_delete_Some. intros [_ ?]. by eapply Hf.
  - destruct Hl as [Hx (j&?&?)]. split; [done|]. exists j. cbn. by rewrite lookup_delete_ne.
Qed.

Lemma pop_first x w q a :
  represents q a → calm a → live x w a →
  ∃ c e l q1, head q = Some c ∧ events q !! c = Some e ∧ Spec.order a = c :: l ∧ pop q = Ok (c, q1) ∧
    represents q1 (Spec.mkA (Spec.self a) (<[c := Spec.clear_flag Scheduled (info e)]> (Spec.infos a)) l (Spec.tick a) (Spec.async a)).
Proof.
  intros Hr Hc [Hx _]. destruct (Spec.order a) as [|c l] eqn:Ho; [set_solver|].
  destruct (inv_sched _ (calm_inv _ Hc) c) as (i&Hi&_); [unfold pending; rewrite Ho; by left|].
  destruct (represents_lookup _ _ _ _ Hr Hi) as (e&He&->). pose proof (pop_refines q a Hr) as Hp.
  rewrite (pop_eq a c _ l Ho Hi) in Hp. destruct (pop q) as [[c' q1]|] eqn:E; [|done]. destruct Hp as [-> Hr1].
  exists c, e, l, q1. split_and!; try done. destruct Hr as [_ _ _ _ ([|b bs]&[Hhd _ _ _]&Hb)]; rewrite Ho in Hb; [done|].
  rewrite order_of_cons in Hb. injection Hb as <- _. done.
Qed.

Lemma setCurTick_represents q a t :
  represents q a → represents (setCurTick t q) (Spec.mkA (Spec.self a) (Spec.infos a) (Spec.order a) t (Spec.async a)).
Proof. by intros []. Qed.

Lemma represents_event q a x i : represents q a → Spec.infos a !! x = Some i → ∃ e, events q !! x = Some e ∧ info e = i.
Proof. intros Hr Hi. destruct (represents_lookup _ _ _ _ Hr Hi) as (e&?&->). eauto. Qed.

(** A squashed event: its flag is cleared and nothing else happens. *)
Lemma squashed_ok x w c e q a :
  represents q a → calm a → live x w a → c ≠ x → c ∉ Spec.order a → events q !! c = Some e →
  ∃ q', on_event c (clear_flag Squashed) q = Ok q' ∧ _curTick q' = _curTick q ∧
    ∃ a', represents q' a' ∧ calm a' ∧ live x w a' ∧ is_Some (events q' !! c).
Proof.
  intros Hr Hc Hl Hne Hco He. pose proof (clear_flag_refines q a c Squashed Hr) as Hf.
  assert (Hi : Spec.infos a !! c = Some (info e)) by (by rewrite (rep_infos _ _ Hr), lookup_fmap, He).
  unfold Spec.on_event, Spec.deref in Hf. rewrite Hi in Hf. cbn in Hf.
  destruct (on_event c (clear_flag Squashed) q) as [q'|]; [|done]. exists q'. split; [done|].
  split; [by rewrite <- (rep_tick _ _ Hf), <- (rep_tick _ _ Hr)|]. eexists. split; [exact Hf|]. split_and!.
  - apply (calm_update a _ c); try done; [|apply Hc|by right| |].
    + destruct (calm_inv _ Hc) as [Hnd Hs]. split; [done|]. intros y Hy. destruct (Hs y Hy) as (j&Hj&?). exists j. cbn.
      rewrite lookup_insert_ne; [done|]. intros <-. unfold pending in Hy. cbn in Hy. rewrite (calm_async _ Hc), app_nil_r in Hy. done.
    + intros y Hy. cbn. by rewrite lookup_insert_ne.
    + intros i. cbn. rewrite lookup_insert_eq. intros [= <-]. split; [|done].
      apply flags_ok_clear; [done..|]. by eapply (calm_flags _ Hc c).
  - destruct Hl as [Hx (j&?&?)]. split; [done|]. exists j. cbn. by rewrite lookup_insert_ne.
  - destruct (represents_event _ _ c (Spec.clear_flag Squashed (info e)) Hf) as (e'&->&_); [apply lookup_insert_eq|eauto].
Qed.

(** The event [e1] taken off the queue: what [serviceOne] knows of it. *)
Lemma taken_ok x w q a :
  represents q a → calm a → live x w a →
  ∃ c q1 e1 l i, pop q = Ok (c, q1) ∧ events q1 !! c = Some e1 ∧ Spec.order a = c :: l ∧ c ∉ l ∧
    Spec.infos a !! c = Some i ∧ info e1 = Spec.clear_flag Scheduled i ∧ _curTick q ≤ _when e1 ≤ w ∧
    (squashed e1 = true → c ≠ x) ∧
    represents q1 (Spec.mkA (Spec.self a) (<[c := Spec.clear_flag Scheduled i]> (Spec.infos a)) l (Spec.tick a) (Spec.async a)).
Proof.
  intros Hr Hc Hl. destruct (pop_first x w q a Hr Hc Hl) as (c&e&l&q1&_&He&Ho&Hpop&Hr1).
  assert (Hi : Spec.infos a !! c = Some (info e)) by (by rewrite (rep_infos _ _ Hr), lookup_fmap, He).
  destruct (represents_event _ _ c (Spec.clear_flag Scheduled (info e)) Hr1) as (e1&He1&Hinfo); [apply lookup_insert_eq|].
  pose proof (inv_nodup _ (calm_inv _ Hc)) as Hnd. unfold pending in Hnd. rewrite Ho in Hnd. apply NoDup_cons in Hnd as [Hcl _].
  assert (Hw : _when e1 = (i_key (info e)).1) by (by injection Hinfo).
  exists c, q1, e1, l, (info e). split_and!; try done; [set_solver|..].
  - rewrite Hw, <- (rep_tick _ _ Hr). eapply calm_time; [done|rewrite Ho; by left|done].
  - rewrite Hw. by apply (first_time a c l x w (info e) (represents_sorted _ _ Hr)).
  - intros Hsq ->. pose proof (live_unsquashed _ _ _ _ Hl Hi) as Hns.
    rewrite <- (has_clear Scheduled Squashed (info e)), <- Hinfo in Hns by done. unfold Spec.has, squashed in *. cbn in Hns. congruence.
Qed.

Section loop.
Context (process : Z → EventQueue → res EventQueue)
        (schedStatEvent : bool → bool → EventQueue → res EventQueue)
        (pollService exitSimLoop : EventQueue → res EventQueue).
Context (x w : Z).

(** The action of an event returns, after calls of the queue that leave the exit event [x]
    alone, and does not delete the event. *)
Definition process_ok : Prop := ∀ e q ev,
  good q → events q !! e = Some ev → scheduled ev = false → _curTick q = _when ev →
  ∃ q', process e q = Ok q' ∧ rtc (op_step x) q q' ∧ is_Some (events q' !! e).
(** Other code the loop calls returns, after such calls. *)
Definition service_ok (f : EventQueue → res EventQueue) : Prop := ∀ q,
  good q → ∃ q', f q = Ok q' ∧ rtc (op_step x) q q'.

Hypothesis Hprocess : process_ok.
Hypothesis Hstat : ∀ d r, service_ok (schedStatEvent d r).
Hypothesis Hpoll : service_ok pollService.
Hypothesis Hexit : service_ok exitSimLoop.

Definition served (q : EventQueue) (r : option Z) (q' : EventQueue) : Prop :=
  _curTick q ≤ _curTick q' ≤ w ∧
  match r with
  | Some e => ∃ ev, events q' !! e = Some ev ∧ isExitEvent ev = true
  | None => good_exit x w q'
  end.

(** An event that is not squashed, at its time. *)
Lemma process_event_ok c e q a :
  represents q a → calm a → events q !! c = Some e → scheduled e = false → _curTick q = _when e →
  (x ≠ c → live x w a) → exits x a →
  ∃ q', process c q = Ok q' ∧ _curTick q' = _curTick q ∧
    ∃ a' e', represents q' a' ∧ calm a' ∧ events q' !! c = Some e' ∧ (isExitEvent e' = false → c ≠ x ∧ live x w a').
Proof using Hprocess.
  intros Hr Hc He Hn Ht Hl Hx. destruct (Hprocess c q e) as (q'&Hp&Hs&(e'&He')); [by exists a|done..|].
  exists q'. split; [done|]. destruct (op_steps_calm x q q' a Hs Hr Hc) as (a'&Hr'&Hc'&Hk&Hlive&Hex).
  split; [rewrite <- (rep_tick _ _ Hr'), <- (rep_tick _ _ Hr); done|]. exists a', e'. split_and!; try done.
  intros Hne. assert (c ≠ x) as Hcx; [|by auto]. intros ->. destruct (Hex Hx) as (i&Hi&Hexit').
  destruct (represents_event _ _ _ _ Hr' Hi) as (e2&He2&<-). assert (e2 = e') as -> by congruence.
  unfold Spec.has, isExitEvent in *. cbn in Hexit'. congruence.
Qed.

Lemma serviceOne_ok q : good_exit x w q → ∃ r q', serviceOne process q = Ok (r, q') ∧ served q r q'.
Proof using Hprocess.
  intros (a&Hr&Hc&Hl). destruct (taken_ok x w q a Hr Hc Hl) as (c&q1&e1&l&i&Hpop&He1&Ho&Hcl&Hi&Hinfo&Hw&Hsq&Hr1).
  pose proof (represents_sorted _ _ Hr) as Hso.
  unfold serviceOne. rewrite Hpop. cbn [mbind res_mbind]. rewrite (deref_ok _ _ _ He1). cbn [mbind res_mbind].
  destruct (squashed e1) eqn:Esq; cbn [negb].
  - assert (Hc1 := take_calm a c i l (Spec.tick a) Hc Hso Ho Hi (or_introl eq_refl)). specialize (Hsq eq_refl).
    destruct (squashed_ok x w c e1 q1 _ Hr1 Hc1) as (q2&->&Ht2&a2&Hr2&Hc2&Hl2&(e2&He2)); [apply take_live; auto|done..|].
    cbn [mbind res_mbind mret res_mret]. rewrite (deref_ok _ _ _ He2). cbn [mbind res_mbind].
    destruct (auto_delete_ok x w c q2 a2 e2) as (q3&->&Ht3&Hg); [done..|]. eexists _, q3. split; [done|].
    split; [|done]. rewrite Ht3, Ht2, <- (rep_tick _ _ Hr1). cbn. rewrite (rep_tick _ _ Hr). lia.
  - assert (Hwi : _when e1 = (i_key i).1) by (change (_when e1) with (i_key (info e1)).1; by rewrite Hinfo).
    assert (Hc1 := take_calm a c i l (_when e1) Hc Hso Ho Hi (or_intror Hwi)).
    pose proof (setCurTick_represents _ _ (_when e1) Hr1) as Hr2. cbn in Hr2.
    destruct (process_event_ok c e1 _ _ Hr2 Hc1) as (q3&->&Ht3&a3&e3&Hr3&Hc3&He3&Hfin); try done.
    { change (scheduled e1) with (Spec.scheduled (info e1)). rewrite Hinfo. apply scheduled_clear. }
    { intros Hne. by apply take_live. }
    { by eapply take_exits. }
    cbn [mbind res_mbind]. rewrite (deref_ok _ _ _ He3). cbn [mbind res_mbind]. cbn in Ht3.
    destruct (isExitEvent e3) eqn:Eex.
    + destruct (calm_flags _ Hc3 c (info e3)) as [_ Hm]; [by rewrite (rep_infos _ _ Hr3), lookup_fmap, He3|].
      cbn in Hm. rewrite Hm. cbn [negb]. rewrite orb_true_r. cbn [check mbind res_mbind mret res_mret].
      eexists _, q3. split; [done|]. split; [lia|eauto].
    + destruct (Hfin eq_refl) as [Hne Hl3]. cbn [mbind res_mbind mret res_mret]. rewrite (deref_ok _ _ _ He3). cbn [mbind res_mbind].
      destruct (auto_delete_ok x w c q3 a3 e3) as (q4&->&Ht4&Hg); [done..|]. eexists _, q4. split; [done|]. split; [lia|done].
Qed.

Lemma steps_good q q' : rtc (op_step x) q q' → good_exit x w q → good_exit x w q' ∧ _curTick q' = _curTick q.
Proof using Type.
  intros Hs (a&Hr&Hc&Hl). destruct (op_steps_calm x q q' a Hs Hr Hc) as (a'&Hr'&Hc'&Ht&Hlive&_).
  split; [exists a'; auto|]. by rewrite <- (rep_tick _ _ Hr'), <- (rep_tick _ _ Hr).
Qed.

Lemma service_good f b q :
  service_ok f → good_exit x w q →
  ∃ q', (if (b : bool) then f q else mret q) = Ok q' ∧ good_exit x w q' ∧ _curTick q' = _curTick q.
Proof using Type.
  intros Hf Hg. destruct b; [|by exists q]. pose proof Hg as (a&Hr&Hc&_).
  destruct (Hf q) as (q'&->&Hs); [by exists a|]. exists q'. split; [done|]. by apply steps_good.
Qed.

Lemma service_async_ok r q :
  good_exit x w q → ∃ q', service_async schedStatEvent pollService exitSimLoop r q
      = Ok (async_event r && async_exception r, q') ∧ good_exit x w q' ∧ _curTick q' = _curTick q.
Proof using Hstat Hpoll Hexit.
  intros Hg. unfold service_async. destruct (async_event r); [|by exists q].
  destruct (service_good _ (async_statdump r || async_statreset r) q (Hstat (async_statdump r) (async_statreset r)) Hg) as (q1&->&H1&T1).
  destruct (service_good _ (async_io r) q1 Hpoll H1) as (q2&E2&H2&T2).
  destruct (service_good _ (async_exit r) q2 Hexit H2) as (q3&E3&H3&T3).
  cbn [mbind res_mbind]. rewrite E2. cbn [mbind res_mbind]. rewrite E3. exists q3. split_and!; [done..|congruence].
Qed.

(** The tests at the top of the loop succeed. *)
Lemma loop_asserts q :
  good_exit x w q → _curTick q ≤ w ∧ empty q = false ∧ ∃ t, nextTick q = Ok t ∧ _curTick q ≤ t.
Proof using Type.
  intros (a&Hr&Hc&Hl). destruct (taken_ok x w q a Hr Hc Hl) as (c&q1&e1&l&i&_&_&Ho&_&Hi&_).
  destruct (pop_first x w q a Hr Hc Hl) as (c'&e&l'&_&Hhd&He&Ho'&_&_). split_and!.
  - destruct Hl as [Hx (j&Hj&<-&_)]. rewrite <- (rep_tick _ _ Hr). by eapply calm_time.
  - unfold empty. rewrite Hhd. done.
  - unfold nextTick. rewrite Hhd, (deref_ok _ _ _ He). eexists. split; [done|]. rewrite <- (rep_tick _ _ Hr).
    apply (calm_time _ Hc c' (info e)); [rewrite Ho'; by left|]. by rewrite (rep_infos _ _ Hr), lookup_fmap, He.
Qed.

Definition loop_post (q : EventQueue) (rs : list AsyncRequest) (r : LoopResult) (q' : EventQueue) : Prop :=
  _curTick q ≤ _curTick q' ≤ w ∧
  match r with
  | Running => good_exit x w q'
  | Returned (Some e) => ∃ ev, events q' !! e = Some ev ∧ isExitEvent ev = true
  | Returned None => ∃ req, req ∈ rs ∧ async_event req && async_exception req = true
  end.

Lemma simLoop_ok rs q :
  good_exit x w q →
  ∃ r q', simLoop process schedStatEvent pollService exitSimLoop rs q = Ok (r, q') ∧ loop_post q rs r q'.
Proof using Hprocess Hstat Hpoll Hexit.
  revert q. induction rs as [|req rs IH]; intros q Hg; destruct (loop_asserts q Hg) as (Hw&He&t&Ht&Hle).
  { exists Running, q. split; [done|]. split; [lia|done]. }
  cbn [simLoop]. rewrite He, Ht. cbn [negb check mbind res_mbind]. rewrite (proj2 (Z.leb_le _ _) Hle).
  destruct (service_async_ok req q Hg) as (q1&Hsa&Hg1&Ht1). cbn [check mbind res_mbind]. rewrite Hsa.
  cbn [mbind res_mbind]. destruct (async_event req && async_exception req) eqn:Hreq.
  { eexists _, q1. split; [done|]. split; [lia|]. exists req. split; [by left|done]. }
  destruct (serviceOne_ok q1 Hg1) as (r&q2&->&Hs). cbn [mbind res_mbind].
  destruct r as [e|]; destruct Hs as [Hs1 Hs2].
  - eexists _, q2. split; [done|]. split; [lia|done].
  - destruct (IH q2 Hs2) as (r&q3&->&Hq3&Hr). exists r, q3. split; [done|]. split; [lia|].
    destruct r as [|[e|]]; try done. destruct Hr as (req'&?&?). exists req'. split; [by right|done].
Qed.
End loop.

(** ** Entering the loop *)

(** As [good_exit], with the insertions of other threads still waiting. *)
Definition ready (x w : Z) (q : EventQueue) : Prop := ∃ a, represents q a ∧ inv a ∧
  (∀ y i, y ∈ pending a → Spec.infos a !! y = Some i → Spec.tick a ≤ (i_key i).1) ∧
  (∀ y i, Spec.infos a !! y = Some i → flags_ok (i_flags i)) ∧
  x ∈ pending a ∧ ∃ i, Spec.infos a !! x = Some i ∧ (i_key i).1 = w ∧
    Spec.has IsExitEvent i = true ∧ Spec.has Squashed i = false.

Lemma insert_all_total l a :
  (∀ x, x ∈ l → is_Some (Spec.infos a !! x)) → ∃ a', foldM (λ a x, Spec.insert x a) a l = Ok a'.
Proof.
  revert a. induction l as [|x l IH]; intros a Hl; [by exists a|]. cbn [foldM].
  destruct (Hl x) as [i Hi]; [by left|]. assert (∃ a1, Spec.insert x a = Ok a1 ∧ Spec.infos a1 = Spec.infos a) as (a1&->&Ha1).
  { unfold Spec.insert, Spec.deref. rewrite Hi. eexists. split; [reflexivity|done]. }
  apply IH. intros y Hy. rewrite Ha1. apply Hl. by right.
Qed.

Lemma handleAsyncInsertions_ready x w q :
  ready x w q → ∃ q', handleAsyncInsertions q = Ok q' ∧ good_exit x w q' ∧ _curTick q' = _curTick q.
Proof.
  intros (a&Hr&Hinv&Ht&Hf&Hx&Hi). pose proof (handleAsyncInsertions_refines q a Hr Hinv) as Hh.
  unfold Spec.handleAsyncInsertions in Hh. destruct (insert_all_total (Spec.async a) a) as (a'&Ha').
  { intros y Hy. destruct (inv_sched _ Hinv y) as (i&->&_); [unfold pending; set_solver|eauto]. }
  assert (Hinv' : inv (Spec.set_async [] a')).
  { apply (handleAsyncInsertions_inv a); [done|]. unfold Spec.handleAsyncInsertions. by rewrite Ha'. }
  rewrite Ha' in Hh. cbn in Hh. destruct (handleAsyncInsertions q) as [q'|]; [|done]. exists q'. split; [done|].
  apply insert_all_Ok in Ha' as (Hi'&Ht'&_&_&Ho'). split.
  - eexists. split; [exact Hh|]. split; [split; [done|done|..]|split]; cbn; rewrite ?Ho', ?Hi', ?Ht'; try done.
    intros y i. rewrite Ho', ?Hi', ?Ht'. apply Ht.
  - rewrite <- (rep_tick _ _ Hh), <- (rep_tick _ _ Hr). done.
Qed.

(** C24: the simulation loop never fails, whatever the events do through the interface of the
    queue.  If an exit event [x] that is not squashed is pending for tick [w], nothing
    pending lies in the past, and the actions of the events return, do not delete their own
    event and leave [x] alone (other than scheduling it again once it was serviced), then
    [doSimLoop] runs without a failed assertion (the queue is never empty, no event is in
    the past, no exit event on the main queue is deleted) or a dangling pointer; the time
    never goes backwards nor past [w]; the loop returns only an exit event, or nothing when
    an exception was signalled. *)
Theorem doSimLoop_safe process schedStatEvent pollService exitSimLoop x w rs q :
  process_ok process x → (∀ d r, service_ok x (schedStatEvent d r)) → service_ok x pollService →
  service_ok x exitSimLoop → ready x w q →
  ∃ r q', doSimLoop process schedStatEvent pollService exitSimLoop rs q = Ok (r, q') ∧ loop_post x w q rs r q'.
Proof.
  intros Hp Hs Hpo He Hq. unfold doSimLoop. destruct (handleAsyncInsertions_ready x w q Hq) as (q1&->&Hg&Ht).
  destruct (simLoop_ok process schedStatEvent pollService exitSimLoop x w Hp Hs Hpo He rs q1 Hg) as (r&q2&Hrun&Hpost).
  exists r, q2. split; [done|]. unfold loop_post in *. by rewrite <- Ht.
Qed.

(** ** An example *)

Module Example.

(** Event 1 schedules itself every ten ticks; event 2 ends the simulation at tick 25. *)
Definition periodic (e : Z) (q : EventQueue) : res EventQueue :=
  if e =? 1 then schedule false 1 (_curTick q + 10) q else mret q.
Definition steps : list Step :=
  [Call (New 1 0 0); Call (New 2 100 IsExitEvent); Call (Schedule 1 10); Foreign 2 25].
Definition start : EventQueue :=
  match foldM run_step ([], new_EventQueue 0 ∅) steps with Ok (_, q) => q | Err _ => new_EventQueue 0 ∅ end.
Definition spec_start : Spec.AQueue :=
  match foldM spec_step ([], Spec.mkA 0 ∅ [] 0 []) steps with Ok (_, a) => a | Err _ => Spec.mkA 0 ∅ [] 0 [] end.

Lemma start_represents : represents start spec_start ∧ inv spec_start.
Proof.
  assert (related ([], new_EventQueue 0 ∅) ([], Spec.mkA 0 ∅ [] 0 [])) as H0.
  { split_and!; cbn; [done| |split; [constructor|set_solver]|constructor]. split; cbn; try done.
    exists []. split; [|done]. split; [done|done|constructor|constructor]. }
  pose proof (run_steps_refine steps _ _ H0) as H. unfold start, spec_start.
  assert (∃ st, foldM spec_step ([], Spec.mkA 0 ∅ [] 0 []) steps = Ok st) as [[t a] E] by (eexists; vm_compute; reflexivity).
  rewrite E in *. destruct (foldM run_step _ steps) as [[t' q]|]; [|done]. by destruct H as (_&?&?&_).
Qed.

Lemma start_ready : ready 2 25 start.
Proof.
  destruct start_represents as [Hr Hi]. exists spec_start. split; [done|]. split; [done|]. split_and!.
  - assert (map_Forall (λ _ i, Spec.tick spec_start ≤ (i_key i).1) (Spec.infos spec_start)) as H.
    { apply (bool_decide_unpack _). vm_compute. exact I. }
    intros y i _ Hy. exact (H y i Hy).
  - assert (map_Forall (λ _ i, Z.land (i_flags i) InitMask = Initialized ∧ Flags.isSet (i_flags i) IsMainQueue = false) (Spec.infos spec_start)) as H.
    { apply (bool_decide_unpack _). vm_compute. exact I. }
    intros y i Hy. exact (H y i Hy).
  - apply (bool_decide_unpack _). vm_compute. exact I.
  - eexists. split; [vm_compute; reflexivity|]. split_and!; reflexivity.
Qed.

Lemma periodic_ok : process_ok periodic 2.
Proof.
  intros e q ev (a&Hr&Hc) He Hn Ht. unfold periodic. destruct (Z.eqb_spec e 1) as [->|]; [|exists q; split_and!; [done| |]; eauto using rtc_refl].
  assert (Hi : Spec.infos a !! 1 = Some (info ev)) by (by rewrite (rep_infos _ _ Hr), lookup_fmap, He).
  pose proof (schedule_refines false 1 (_curTick q + 10) q a Hr (calm_inv _ Hc)) as Hs.
  assert (∃ a', Spec.schedule false 1 (_curTick q + 10) a = Ok a' ∧ is_Some (Spec.infos a' !! 1)) as (a'&Ha'&i&Hi').
  { unfold Spec.schedule, Spec.on_event, Spec.insert, Spec.deref. rewrite (rep_tick _ _ Hr), Hi.
    rewrite (proj2 (Z.leb_le _ _)) by lia. cbn [check mbind res_mbind mret res_mret].
    change (Spec.scheduled (info ev)) with (scheduled ev). rewrite Hn. destruct (calm_flags _ Hc 1 _ Hi) as [-> _].
    cbn. rewrite !lookup_insert_eq. cbn. rewrite lookup_insert_eq. eexists. split; [done|]. cbn. rewrite lookup_insert_eq. eauto. }
  rewrite Ha' in Hs. destruct (schedule false 1 (_curTick q + 10) q) as [q'|] eqn:E; [|done]. exists q'. split; [done|]. split.
  - apply rtc_once. exists (Schedule 1 (_curTick q + 10)). by split.
  - destruct (represents_event _ _ _ _ Hs Hi') as (e'&->&_). eauto.
Qed.

Lemma nothing_ok : service_ok 2 (λ q, mret q).
Proof. intros q _. exists q. split; [done|apply rtc_refl]. Qed.

End Example.

Lemma doSimLoop_safe_witness :
  ∃ r q', doSimLoop Example.periodic (λ _ _ q, mret q) mret mret (replicate 5 (mkAsync false false false false false false)) Example.start
    = Ok (r, q') ∧ loop_post 2 25 Example.start (replicate 5 (mkAsync false false false false false false)) r q'.
Proof.
  exact (doSimLoop_safe Example.periodic (λ _ _ q, mret q) mret mret 2 25 _ Example.start Example.periodic_ok
    (λ _ _, Example.nothing_ok) Example.nothing_ok Example.nothing_ok Example.start_ready).
Defined.
