(* ===== verification/PktQueue.v ===== *)
(** * Packet queues (mem/packet_queue.hh, mem/packet_queue.cc, mem/qport.hh)

    The queue behind a port: packets wait in [transmitList], ordered by the tick
    they become ready, until the send event hands the first one to the peer; a
    peer that refuses it calls [retry] later.  Packets are named by their
    address in the simulator (a [Z]); their contents are in a heap. *)

From stdpp Require Import base gmap list sorting.
From S2P Require Import Prelude Packets Events.
Import Packet.
Local Open Scope Z_scope.

Module PacketQueue.

Record DeferredPacket := mkDeferred { tick : Tick; pkt : Z }.

Record PacketQueue := mkQueue {
  transmitList : list DeferredPacket;
  sendEvent : Event;
  waitingOnRetry : bool;
  drainState : DrainState;
}.

(** [PacketQueue(em, label)] *)
Definition new : PacketQueue := mkQueue [] None false Running.

Definition with_list (q : PacketQueue) (l : list DeferredPacket) : PacketQueue :=
  mkQueue l (sendEvent q) (waitingOnRetry q) (drainState q).
Definition with_event (q : PacketQueue) (e : Event) : PacketQueue :=
  mkQueue (transmitList q) e (waitingOnRetry q) (drainState q).
Definition with_waiting (q : PacketQueue) (b : bool) : PacketQueue :=
  mkQueue (transmitList q) (sendEvent q) b (drainState q).
Definition with_drain (q : PacketQueue) (d : DrainState) : PacketQueue :=
  mkQueue (transmitList q) (sendEvent q) (waitingOnRetry q) d.

Definition size (q : PacketQueue) : Z := Z.of_nat (length (transmitList q)).

Definition deferredPacketReady (now : Tick) (q : PacketQueue) : bool :=
  match transmitList q with [] => false | dp :: _ => tick dp <=? now end.

Definition deferredPacketReadyTime (q : PacketQueue) : Tick :=
  match transmitList q with [] => MaxTick | dp :: _ => tick dp end.

Definition hasAddr (heap : gmap Z Packet) (q : PacketQueue) (a : Z) : res bool :=
  let fix go l :=
    match l with
    | [] => mret false
    | dp :: l =>
        match heap !! pkt dp with
        | Some p => b ← getAddr p; if b =? a then mret true else go l
        | None => Err UB
        end
    end in go (transmitList q).

(** [checkFunctional(pkt)]: stops at the first buffered packet that answers the
    access; a write updates the buffered packets. *)
Fixpoint checkFunctional_list (heap : gmap Z Packet) (l : list DeferredPacket) (p : Packet) :
    res (bool * Packet * gmap Z Packet) :=
  match l with
  | [] => mret (false, p, heap)
  | dp :: l =>
      match heap !! pkt dp with
      | None => Err UB
      | Some other =>
          '(found, p, other) ← checkFunctional_pkt p other;
          let heap := <[pkt dp := other]> heap in
          if (found : bool) then mret (true, p, heap) else checkFunctional_list heap l p
      end
  end.
Definition checkFunctional (heap : gmap Z Packet) (q : PacketQueue) (p : Packet) :
    res (bool * Packet * gmap Z Packet) := checkFunctional_list heap (transmitList q) p.

Definition schedSendEvent (now : Tick) (q : PacketQueue) (when : Tick) : res PacketQueue :=
  if waitingOnRetry q then
    assert_ (negb (scheduled (sendEvent q)));; mret q
  else if negb (when =? MaxTick) then
    let when := Z.max when (add64 now 1) in
    match sendEvent q with
    | None => e ← schedule now None when; mret (with_event q e)
    | Some t =>
        if when <? t then e ← reschedule now (Some t) when; mret (with_event q e) else mret q
    end
  else if bool_decide (drainState q = Draining) && bool_decide (transmitList q = [])
          && negb (scheduled (sendEvent q)) then
    mret (with_drain q (signalDrainDone (drainState q)))
  else mret q.

(** The insertion loop: before the first element that is ready later. *)
Fixpoint emplace_sorted (dp : DeferredPacket) (l : list DeferredPacket) : list DeferredPacket :=
  match l with
  | [] => [dp]
  | i :: l => if tick i <=? tick dp then i :: emplace_sorted dp l else dp :: i :: l
  end.

(** [schedSendTiming(pkt, when, force_order)]; [p] is the contents of [pkt]. *)
Definition schedSendTiming (now : Tick) (q : PacketQueue) (ptr : Z) (p : Packet)
    (when : Tick) (force_order : bool) : res PacketQueue :=
  assert_ (now <=? when);;
  assert_ (negb (isExpressSnoop p));;
  panic_if (100 <? size q);;
  let when :=
    match last (transmitList q) with
    | Some back => if force_order && (when <? tick back) then tick back else when
    | None => when
    end in
  let dp := mkDeferred when ptr in
  match transmitList q, last (transmitList q) with
  | front :: rest, Some back =>
      if when <? tick front then
        assert_ (negb force_order);;
        schedSendEvent now (with_list q (dp :: front :: rest)) when
      else if tick back <=? when then
        mret (with_list q (transmitList q ++ [dp]))
      else
        assert_ (negb force_order);;
        mret (with_list q (front :: emplace_sorted dp rest))
  | _, _ => schedSendEvent now (with_list q [dp]) when
  end.

(** [sendTiming] hands the packet to the peer.  It returns whether the peer
    accepts it, and may itself enqueue packets before it returns. *)
Section Send.
Variable sendTiming : Z → PacketQueue → res (bool * PacketQueue).

Definition sendDeferredPacket (now : Tick) (q : PacketQueue) : res PacketQueue :=
  assert_ (negb (waitingOnRetry q));;
  assert_ (deferredPacketReady now q);;
  match transmitList q with
  | [] => Err UB
  | dp :: rest =>
      '(accepted, q) ← sendTiming (pkt dp) (with_list q rest);
      let q := with_waiting q (negb accepted) in
      if (accepted : bool) then schedSendEvent now q (deferredPacketReadyTime q)
      else mret (with_list q (dp :: transmitList q))
  end.

Definition retry (now : Tick) (q : PacketQueue) : res PacketQueue :=
  assert_ (waitingOnRetry q);;
  sendDeferredPacket now (with_waiting q false).

(** The event has been descheduled when its handler runs. *)
Definition processSendEvent (now : Tick) (q : PacketQueue) : res PacketQueue :=
  assert_ (negb (waitingOnRetry q));;
  sendDeferredPacket now q.

End Send.

Definition drain (q : PacketQueue) : DrainState :=
  match transmitList q with [] => Drained | _ => Draining end.

(** [QueuedSlavePort::schedTimingResp] *)
Definition schedTimingResp (now : Tick) (q : PacketQueue) (ptr : Z) (p : Packet)
    (when : Tick) : res PacketQueue := schedSendTiming now q ptr p when false.

End PacketQueue.
Import PacketQueue.

(** ** The order of the list *)

Definition earlier (a b : DeferredPacket) : Prop := tick a ≤ tick b.

#[global] Instance earlier_dec : RelDecision earlier.
Proof. intros a b. unfold earlier. apply _. Defined.

Lemma emplace_sorted_perm dp l : emplace_sorted dp l ≡ₚ dp :: l.
Proof.
  induction l as [|i l IH]; [done|]. cbn [emplace_sorted]. destruct (tick i <=? tick dp); [|done].
  rewrite IH. constructor.
Qed.

Lemma emplace_sorted_elem dp l x : x ∈ emplace_sorted dp l ↔ x = dp ∨ x ∈ l.
Proof. rewrite emplace_sorted_perm. apply elem_of_cons. Qed.

Lemma sorted_cons_inv dp l :
  StronglySorted earlier (dp :: l) ↔ (∀ x, x ∈ l → tick dp ≤ tick x) ∧ StronglySorted earlier l.
Proof.
  split.
  - intros H. inversion H as [|?? Hs Hf]; subst. rewrite Forall_forall in Hf. by split.
  - intros [H ?]. constructor; [done|]. by apply Forall_forall.
Qed.

Lemma emplace_sorted_sorted dp l :
  StronglySorted earlier l → StronglySorted earlier (emplace_sorted dp l).
Proof.
  induction l as [|i l IH]; intros Hs; cbn [emplace_sorted].
  { apply sorted_cons_inv. split; [|constructor]. intros x Hx. by apply elem_of_nil in Hx. }
  pose proof Hs as [Hi Hl]%sorted_cons_inv.
  destruct (Z.leb_spec (tick i) (tick dp)).
  - apply sorted_cons_inv. split; [|by apply IH]. intros x [->|Hx]%emplace_sorted_elem; [done|].
    by apply Hi.
  - apply sorted_cons_inv. split; [|done]. intros x [->|Hx]%elem_of_cons; [lia|].
    specialize (Hi _ Hx). lia.
Qed.

(** A packet that is not earlier than any other goes to the end. *)
Lemma emplace_sorted_end dp l :
  (∀ x, x ∈ l → tick x ≤ tick dp) → emplace_sorted dp l = l ++ [dp].
Proof.
  induction l as [|i l IH]; intros H; [done|]. cbn [emplace_sorted].
  rewrite (proj2 (Z.leb_le _ _)) by (apply H, elem_of_cons; by left).
  rewrite IH; [done|]. intros x Hx. apply H, elem_of_cons. by right.
Qed.

Lemma sorted_last l back x :
  StronglySorted earlier l → last l = Some back → x ∈ l → tick x ≤ tick back.
Proof.
  intros Hs Hl Hx. apply last_Some in Hl as [l' ->].
  apply elem_of_app in Hx as [Hx|Hx%list_elem_of_singleton]; [|by subst].
  apply StronglySorted_app in Hs as (H & _ & _). apply (H x back); [done|].
  by apply list_elem_of_singleton.
Qed.

(** ** The invariant

    The list is sorted.  While a retry is awaited no send event is pending and
    the packet at the head has been ready; otherwise, if there is a packet, a
    send event is pending for a tick at which the packet at the head is ready. *)

Definition head_ready (l : list DeferredPacket) (t : Tick) : Prop :=
  match l with [] => False | dp :: _ => tick dp ≤ t end.

Record pq_inv (now : Tick) (q : PacketQueue) : Prop := {
  pq_sorted : StronglySorted earlier (transmitList q);
  pq_waiting : waitingOnRetry q = true →
    sendEvent q = None ∧ head_ready (transmitList q) now;
  pq_event : ∀ t, sendEvent q = Some t → now ≤ t ∧ head_ready (transmitList q) t;
  pq_pending : waitingOnRetry q = false → transmitList q ≠ [] → is_Some (sendEvent q);
}.

(** While the peer is being called, the event of the remaining packets has not
    been scheduled yet. *)
Record pq_sending (now : Tick) (q : PacketQueue) : Prop := {
  ps_sorted : StronglySorted earlier (transmitList q);
  ps_waiting : waitingOnRetry q = false;
  ps_event : ∀ t, sendEvent q = Some t → now ≤ t ∧ head_ready (transmitList q) t;
}.

Lemma pq_inv_new now : pq_inv now new.
Proof. split; [constructor|done..]. Qed.

Lemma pq_inv_later now now' q :
  pq_inv now q → now ≤ now' → (∀ t, sendEvent q = Some t → now' ≤ t) → pq_inv now' q.
Proof.
  intros [] ? Ht. split; [done| | |done].
  - intros Hw. destruct (pq_waiting0 Hw) as [? Hh]. split; [done|].
    destruct (transmitList q); [done|]. simpl in *. lia.
  - intros t E. split; [by apply Ht|]. by apply pq_event0.
Qed.

Lemma add64_succ now : 0 ≤ now < MaxTick → add64 now 1 = now + 1.
Proof. intros. unfold MaxTick in *. apply add64_small. lia. Qed.

(** [schedSendEvent] for the packet at the head. *)
Lemma schedSendEvent_head now q dp l :
  0 ≤ now < MaxTick → waitingOnRetry q = false → transmitList q = dp :: l → tick dp < MaxTick →
  StronglySorted earlier (transmitList q) →
  (∀ t, sendEvent q = Some t → now ≤ t ∧ head_ready (transmitList q) t) →
  ∃ e, schedSendEvent now q (tick dp) = Ok (with_event q (Some e)) ∧
    pq_inv now (with_event q (Some e)).
Proof.
  intros Hnow Hw Hl Hdp Hs He. unfold schedSendEvent. rewrite Hw.
  rewrite (proj2 (Z.eqb_neq _ _)) by lia. cbn [negb]. rewrite add64_succ by done.
  assert (∀ e, now ≤ e → tick dp ≤ e → pq_inv now (with_event q (Some e))) as Hi.
  { intros e ??. split; simpl; [done|by rewrite Hw| |done]. intros t [= <-].
    rewrite Hl. simpl. lia. }
  set (w := Z.max (tick dp) (now + 1)). destruct (sendEvent q) as [t|] eqn:Ee.
  - destruct (He t eq_refl) as [? Hh]. rewrite Hl in Hh. simpl in Hh.
    destruct (Z.ltb_spec w t).
    + rewrite reschedule_ok by lia. exists w. split; [done|]. apply Hi; lia.
    + exists t. split; [|apply Hi; lia]. destruct q. simpl in *. by subst.
  - rewrite schedule_ok by lia. exists w. split; [done|]. apply Hi; lia.
Qed.

(** What [schedSendTiming] does to the list: the packet goes behind every packet
    that is ready no later. *)
Definition eff_when (q : PacketQueue) (when : Tick) (force_order : bool) : Tick :=
  match last (transmitList q) with
  | Some back => if force_order then Z.max when (tick back) else when
  | None => when
  end.

Lemma eff_when_eq q when fo :
  match last (transmitList q) with
  | Some back => if fo && (when <? tick back) then tick back else when
  | None => when
  end = eff_when q when fo.
Proof.
  unfold eff_when. destruct (last _) as [b|]; [|done]. destruct fo; [|done]. simpl.
  destruct (Z.ltb_spec when (tick b)); lia.
Qed.

Lemma head_ready_app l l' t : head_ready l t → head_ready (l ++ l') t.
Proof. by destruct l. Qed.

Section sched.
Context (now when : Tick) (q : PacketQueue) (ptr : Z) (p : Packet) (fo : bool).
Hypothesis Hnow : 0 ≤ now < MaxTick.
Hypothesis Hwhen : now ≤ when < MaxTick.
Hypothesis Hlist : ∀ x, x ∈ transmitList q → tick x < MaxTick.
Hypothesis Hexp : isExpressSnoop p = false.
Hypothesis Hsize : size q ≤ 100.
Hypothesis Hsorted : StronglySorted earlier (transmitList q).
Hypothesis Hwait : waitingOnRetry q = true →
  sendEvent q = None ∧ head_ready (transmitList q) now.
Hypothesis Hevent : ∀ t, sendEvent q = Some t → now ≤ t ∧ head_ready (transmitList q) t.

Let w := eff_when q when fo.
Let dp := mkDeferred w ptr.

Lemma eff_when_bounds : when ≤ w < MaxTick.
Proof.
  unfold w, eff_when. destruct (last _) as [b|] eqn:El; [|lia]. destruct fo; [|lia].
  apply last_Some_elem_of in El. specialize (Hlist _ El). lia.
Qed.

(** Either the packet goes to the head and the send event is set for it, or the
    head and the event stay as they are. *)
Lemma schedSendTiming_cases :
  ∃ q', schedSendTiming now q ptr p when fo = Ok q' ∧
    transmitList q' = emplace_sorted dp (transmitList q) ∧
    waitingOnRetry q' = waitingOnRetry q ∧
    (pq_inv now q' ∨ sendEvent q' = sendEvent q ∧ transmitList q ≠ [] ∧
       head (transmitList q') = head (transmitList q)).
Proof.
  pose proof eff_when_bounds as Hw. unfold schedSendTiming.
  rewrite (proj2 (Z.leb_le _ _)) by lia. rewrite Hexp.
  unfold panic_if. rewrite (proj2 (Z.ltb_ge _ _)) by lia.
  cbv [check mbind res_mbind negb]. rewrite eff_when_eq. fold w. fold dp.
  destruct (transmitList q) as [|front rest] eqn:El.
  { destruct (schedSendEvent_head now (with_list q [dp]) dp []) as (e & He & Hi);
      [done| |done|simpl; lia|simpl; apply (emplace_sorted_sorted dp []); constructor| |].
    - simpl. destruct (waitingOnRetry q) eqn:E; [|done]. by destruct (Hwait eq_refl).
    - intros t Ht. by destruct (Hevent t Ht).
    - exists (with_event (with_list q [dp]) (Some e)). split_and!; [exact He|done|done|by left]. }
  destruct (last (front :: rest)) as [back|] eqn:Eb; [|by apply last_None in Eb].
  assert (tick front ≤ tick back) as Hfb
    by (eapply sorted_last; [done..|apply elem_of_cons; by left]).
  assert (fo = true → tick back ≤ w) as Hfo.
  { intros ->. unfold w, eff_when. rewrite El, Eb. lia. }
  destruct (Z.ltb_spec w (tick front)) as [Hlt|Hge].
  - destruct fo; [specialize (Hfo eq_refl); lia|]. cbn [negb].
    assert (waitingOnRetry q = false) as Hw0.
    { destruct (waitingOnRetry q); [|done]. destruct (Hwait eq_refl) as [_ Hh]. simpl in Hh. lia. }
    assert (emplace_sorted dp (front :: rest) = dp :: front :: rest) as Hem
      by (cbn [emplace_sorted]; by rewrite (proj2 (Z.leb_gt _ _)) by done).
    destruct (schedSendEvent_head now (with_list q (dp :: front :: rest)) dp (front :: rest))
      as (e & He & Hi); [done|done|done|simpl; lia| | |].
    + simpl. rewrite <- Hem. by apply emplace_sorted_sorted.
    + intros t Ht. destruct (Hevent t Ht) as [? Hh]. simpl in *. lia.
    + eexists. split_and!; [exact He|by rewrite Hem|done|by left].
  - assert ((tick front <=? w) = true) as Hfw by (by apply Z.leb_le).
    destruct (Z.leb_spec (tick back) w) as [Hbw|Hbw].
    + eexists. split; [done|]. split; [|by split; [|right]].
      rewrite emplace_sorted_end; [done|]. intros x Hx. simpl.
      assert (tick x ≤ tick back) by (by eapply sorted_last). lia.
    + destruct fo; [specialize (Hfo eq_refl); lia|]. eexists. split; [done|].
      simpl. rewrite Hfw. by split_and!; [| |right].
Qed.

End sched.

Lemma head_ready_head l l' t :
  head l' = head l → l ≠ [] → head_ready l t → head_ready l' t.
Proof. by destruct l, l'; simpl; intros; simplify_eq. Qed.

Lemma emplace_sorted_ne dp l : emplace_sorted dp l ≠ [].
Proof. destruct l as [|i l]; simpl; [done|]. by destruct (_ <=? _). Qed.

Lemma schedSendTiming_ok now q ptr p when fo :
  0 ≤ now < MaxTick → now ≤ when < MaxTick → (∀ x, x ∈ transmitList q → tick x < MaxTick) →
  isExpressSnoop p = false → size q ≤ 100 → pq_inv now q →
  ∃ q', schedSendTiming now q ptr p when fo = Ok q' ∧ pq_inv now q' ∧
    transmitList q' = emplace_sorted (mkDeferred (eff_when q when fo) ptr) (transmitList q).
Proof.
  intros Hn Hw Hl Hx Hs [].
  destruct (schedSendTiming_cases now when q ptr p fo) as (q' & H & Ht & Hr & Hc); [done..|].
  exists q'. split_and!; [done| |done]. destruct Hc as [?|(He & Hne & Hh)]; [done|]. split.
  - rewrite Ht. by apply emplace_sorted_sorted.
  - rewrite Hr, He. intros W. destruct (pq_waiting0 W). split; [done|].
    by eapply head_ready_head.
  - rewrite He. intros t E. destruct (pq_event0 t E). split; [done|]. by eapply head_ready_head.
  - rewrite Hr, He. intros W _. by apply pq_pending0.
Qed.

(** ** Sending *)

Definition ticks_ok (q : PacketQueue) : Prop := ∀ x, x ∈ transmitList q → tick x < MaxTick.

(** The packets a peer enqueues while it is being handed one. *)
Inductive enqueues (now : Tick) : PacketQueue → PacketQueue → Prop :=
  | enq_nil q : enqueues now q q
  | enq_cons q ptr p when fo q1 q2 :
      when < MaxTick → schedSendTiming now q ptr p when fo = Ok q1 →
      enqueues now q1 q2 → enqueues now q q2.

Lemma schedSendTiming_pre now q ptr p when fo q1 :
  schedSendTiming now q ptr p when fo = Ok q1 →
  now ≤ when ∧ isExpressSnoop p = false ∧ size q ≤ 100.
Proof.
  unfold schedSendTiming, panic_if. intros H. res_inv.
  apply Z.leb_le in Hr. apply negb_true_iff in Hr0, Hr1. apply Z.ltb_ge in Hr1. done.
Qed.

Lemma enqueues_sending now q q' :
  0 ≤ now < MaxTick → enqueues now q q' → pq_sending now q → ticks_ok q →
  pq_sending now q' ∧ ticks_ok q'.
Proof.
  intros Hn. induction 1 as [|q ptr p when fo q1 q2 Hw Hs _ IH]; [done|]. intros [] Ht.
  destruct (schedSendTiming_pre _ _ _ _ _ _ _ Hs) as (Hnw & Hx & Hsz).
  destruct (schedSendTiming_cases now when q ptr p fo) as (q1' & H & Hl & Hr & Hc);
    [done..|by rewrite ps_waiting0|done|].
  rewrite Hs in H. simplify_eq. apply IH.
  - split.
    + rewrite Hl. by apply emplace_sorted_sorted.
    + by rewrite Hr.
    + destruct Hc as [[]|(He & Hne & Hh)]; [done|]. rewrite He. intros t E.
      destruct (ps_event0 t E). split; [done|]. by eapply head_ready_head.
  - unfold ticks_ok. rewrite Hl. intros x [->|?]%emplace_sorted_elem; [|by apply Ht].
    by eapply eff_when_bounds.
Qed.

(** What the queue relies on of its peer: the call returns, and a peer that
    refuses the packet has not used the queue. *)
Record peer_ok (now : Tick) (sendTiming : Z → PacketQueue → res (bool * PacketQueue)) : Prop := {
  peer_total : ∀ ptr q, ∃ b q', sendTiming ptr q = Ok (b, q') ∧ enqueues now q q';
  peer_refuse : ∀ ptr q q', sendTiming ptr q = Ok (false, q') → q' = q;
}.

Lemma sendDeferredPacket_ok now sendTiming q dp rest :
  0 ≤ now < MaxTick → peer_ok now sendTiming → pq_sending now q → ticks_ok q →
  sendEvent q = None → transmitList q = dp :: rest → tick dp ≤ now →
  ∃ q', sendDeferredPacket sendTiming now q = Ok q' ∧ pq_inv now q' ∧
    (waitingOnRetry q' = true ∧ transmitList q' = transmitList q ∨
     waitingOnRetry q' = false ∧
       ∃ q1, sendTiming (pkt dp) (with_list q rest) = Ok (true, q1) ∧
             transmitList q' = transmitList q1).
Proof.
  intros Hn [Htot Href] [Hs Hw He] Ht Hev Hl Hdp. unfold sendDeferredPacket.
  rewrite Hw. unfold deferredPacketReady. rewrite Hl, (proj2 (Z.leb_le _ _) Hdp).
  cbv [check mbind res_mbind negb]. rewrite Hl in Hs. pose proof Hs as [Hd Hr]%sorted_cons_inv.
  destruct (Htot (pkt dp) (with_list q rest)) as ([|] & q1 & E & Hq1).
  - rewrite E. destruct (enqueues_sending now (with_list q rest) q1) as [[Hs1 Hw1 He1] Ht1]; [done..| | |].
    { split; simpl; [done|done|by rewrite Hev]. }
    { intros x Hx. apply Ht. rewrite Hl. by right. }
    assert (with_waiting q1 false = q1) as -> by (destruct q1; simpl in *; by subst).
    unfold deferredPacketReadyTime. destruct (transmitList q1) as [|d l] eqn:E1.
    + unfold schedSendEvent. rewrite Hw1, Z.eqb_refl. cbn [negb].
      assert (∀ t, sendEvent q1 ≠ Some t) as Hne by (intros t Et; by destruct (He1 t Et)).
      assert (∀ d, pq_inv now (with_drain q1 d)) as Hinv.
      { intros d. split; simpl; rewrite ?E1, ?Hw1; [constructor|done| |done].
        intros t Et. by apply Hne in Et. }
      destruct (_ && _); eexists; (split; [reflexivity|]).
      * split; [apply Hinv|]. right. split; [done|]. by exists q1.
      * split; [|right; split; [done|]; by exists q1].
        specialize (Hinv (drainState q1)). by destruct q1.
    + destruct (schedSendEvent_head now q1 d l) as (e & H & Hi); [done|done|done| | | |].
      * apply Ht1. rewrite E1. by left.
      * by rewrite E1.
      * by rewrite E1.
      * exists (with_event q1 (Some e)). split_and!; [exact H|done|]. right. split; [done|].
        exists q1. by rewrite E1.
  - pose proof (Href _ _ _ E) as ->. rewrite E. eexists. split; [reflexivity|].
    split; [|by left]. split; simpl; [done| | |done].
    + intros _. by rewrite Hev.
    + by rewrite Hev.
Qed.

(** ** Properties *)

(** C25: scheduling a packet never fails on a queue with room, and puts it behind
    every packet that is ready no later (at the end, if the order is forced); the
    list stays sorted, and a send event or a retry stays pending for its head. *)
Theorem schedSendTiming_correct now q ptr p when fo :
  0 ≤ now < MaxTick → now ≤ when < MaxTick → ticks_ok q →
  isExpressSnoop p = false → size q ≤ 100 → pq_inv now q →
  ∃ q', schedSendTiming now q ptr p when fo = Ok q' ∧ pq_inv now q' ∧ ∃ before after,
    transmitList q = before ++ after ∧
    transmitList q' = before ++ mkDeferred (eff_when q when fo) ptr :: after ∧
    (∀ x, x ∈ before → tick x ≤ eff_when q when fo) ∧
    (∀ x, x ∈ after → eff_when q when fo < tick x) ∧ (fo = true → after = []).
Proof.
  intros Hn Hw Ht Hx Hsz Hi. pose proof (pq_sorted _ _ Hi) as Hs.
  destruct (schedSendTiming_ok now q ptr p when fo) as (q' & H & Hi' & Hl); [done..|].
  exists q'. split; [done|]. split; [done|]. rewrite Hl.
  assert (fo = true → ∀ x, x ∈ transmitList q → tick x ≤ eff_when q when fo) as Hfo.
  { intros -> x Hx'. unfold eff_when. destruct (last _) as [b|] eqn:E.
    - assert (tick x ≤ tick b) by (by eapply sorted_last). lia.
    - apply last_None in E. rewrite E in Hx'. by apply elem_of_nil in Hx'. }
  revert Hs Hfo. generalize (eff_when q when fo). clear. intros w.
  induction (transmitList q) as [|i l IH]; intros Hs Hfo; cbn [emplace_sorted tick].
  - exists [], []. split_and!; [done..|by intros x Hx%elem_of_nil|by intros x Hx%elem_of_nil|done].
  - pose proof Hs as [Hi Hl]%sorted_cons_inv. destruct (Z.leb_spec (tick i) w).
    + destruct IH as (b & a & -> & Heq & Hb & Ha & Hf); [done| |].
      { intros E x Hx. apply Hfo; [done|]. by right. }
      exists (i :: b), a. rewrite Heq. split_and!; [done|done| |done|done].
      intros x [->|Hx]%elem_of_cons; [done|by apply Hb].
    + exists [], (i :: l). split_and!; [done|done|by intros x Hx%elem_of_nil| |].
      * intros x [->|Hx]%elem_of_cons; [done|]. specialize (Hi _ Hx). lia.
      * intros E. assert (tick i ≤ w) by (apply Hfo; [done|by left]). lia.
Qed.


(** a retry by the peer is served the same way: the packet it refused is
    still at the head of the list and ready. *)
Theorem retry_correct now sendTiming q :
  0 ≤ now < MaxTick → peer_ok now sendTiming → pq_inv now q → ticks_ok q →
  waitingOnRetry q = true →
  ∃ dp rest q', transmitList q = dp :: rest ∧
    retry sendTiming now q = Ok q' ∧ pq_inv now q' ∧
    (waitingOnRetry q' = true ∧ transmitList q' = transmitList q ∨
     waitingOnRetry q' = false ∧
       ∃ q1, sendTiming (pkt dp) (with_list (with_waiting q false) rest) = Ok (true, q1) ∧
             transmitList q' = transmitList q1).
Proof.
  intros Hn Hp [Hs Hwt He Hpd] Ht Hw. destruct (Hwt Hw) as [Hev Hh].
  destruct (transmitList q) as [|dp rest] eqn:El; [done|]. simpl in Hh.
  destruct (sendDeferredPacket_ok now sendTiming (with_waiting q false) dp rest)
    as (q' & H & Hi & Hc); [done|done| |done|done|done|done|].
  { split; simpl; [by rewrite El|done|by rewrite Hev]. }
  exists dp, rest, q'. split_and!; [done| |done|by simpl in Hc; rewrite El in Hc].
  unfold retry. by rewrite Hw.
Qed.

(** ** Witnesses *)

Definition ex_queue : PacketQueue := mkQueue [mkDeferred 5 1; mkDeferred 9 2] (Some 5) false Running.
Definition ex_peer (accept : bool) (_ : Z) (q : PacketQueue) : res (bool * PacketQueue) :=
  Ok (accept, q).

Lemma ex_queue_inv now : now ≤ 5 → pq_inv now ex_queue.
Proof.
  intros. split; simpl; [|done| |done].
  - repeat (apply sorted_cons_inv; split; [intros x Hx; set_unfold; naive_solver lia|]). constructor.
  - intros t [= <-]. lia.
Qed.
Lemma ex_queue_ticks : ticks_ok ex_queue.
Proof. intros x Hx. unfold ex_queue, MaxTick in *. set_unfold. naive_solver lia. Qed.
Lemma ex_peer_ok now b : peer_ok now (ex_peer b).
Proof. split; [|intros ptr q q' [= _ ->]; done]. intros ptr q. exists b, q. split; [done|constructor]. Qed.

Lemma schedSendTiming_correct_witness :
  ∃ q', schedSendTiming 3 ex_queue 7 (ex_pkt MemCmd.ReadResp []) 5 false = Ok q' ∧
    transmitList q' = [mkDeferred 5 1; mkDeferred 5 7; mkDeferred 9 2].
Proof.
  destruct (schedSendTiming_correct 3 ex_queue 7 (ex_pkt MemCmd.ReadResp []) 5 false)
    as (q' & H & _); [unfold MaxTick; lia..|apply ex_queue_ticks|reflexivity|by vm_compute|
                      by apply ex_queue_inv|].
  exists q'. split; [exact H|]. vm_compute in H. by injection H as <-.
Defined.


Lemma retry_correct_witness :
  ∃ q', retry (ex_peer true) 6 (with_waiting (with_event ex_queue None) true) = Ok q' ∧
    transmitList q' = [mkDeferred 9 2] ∧ sendEvent q' = Some 9.
Proof.
  destruct (retry_correct 6 (ex_peer true) (with_waiting (with_event ex_queue None) true))
    as (dp & rest & q' & _ & H & _);
    [unfold MaxTick; lia|apply ex_peer_ok| |apply ex_queue_ticks|reflexivity|].
  { destruct (ex_queue_inv 5) as [Hs _ _ _]; [done|]. split; simpl; [exact Hs|done|done|done]. }
  exists q'. split; [exact H|]. vm_compute in H. by injection H as <-.
Defined.
