(* ===== verification/DRAMConfig.v ===== *)
(** * DRAM controller: configuration and address decoding
    (mem/dram_ctrl.hh, mem/dram_ctrl.cc, mem/DRAMCtrl.py)

    The constants the controller derives from its parameters, the sanity checks
    of its constructor and of [init], and [decodeAddr], which maps the address of
    a burst to a rank, bank and row under each of the three address mappings. *)

From stdpp Require Import base numbers list.
From S2P Require Import Prelude IntMath AddrRanges Packets Events.
Local Open Scope Z_scope.

Inductive MemSched := fcfs | frfcfs.
Inductive AddrMap := RoRaBaChCo | RoRaBaCoCh | RoCoRaBaCh.
Inductive PageManage := open | open_adaptive | close | close_adaptive.

#[global] Instance MemSched_eq_dec : EqDecision MemSched.
Proof. solve_decision. Defined.
#[global] Instance AddrMap_eq_dec : EqDecision AddrMap.
Proof. solve_decision. Defined.
#[global] Instance PageManage_eq_dec : EqDecision PageManage.
Proof. solve_decision. Defined.

(** The timing parameters, in ticks. *)
Record Timing := mkTiming {
  tCK : Tick; tWTR : Tick; tRTW : Tick; tCS : Tick; tBURST : Tick; tCCD_L : Tick;
  tRCD : Tick; tCL : Tick; tRP : Tick; tRAS : Tick; tWR : Tick; tRTP : Tick;
  tRFC : Tick; tREFI : Tick; tRRD : Tick; tRRD_L : Tick; tXAW : Tick;
  tWL : Tick; tWLOV : Tick;
}.

(** [DRAMCtrlParams] *)
Record DRAMCtrlParams := mkParams {
  device_size : Z; device_bus_width : Z; burst_length : Z; device_rowbuffer_size : Z;
  devices_per_rank : Z; ranks_per_channel : Z; bank_groups_per_rank : Z;
  banks_per_rank : Z; p_channels : Z; read_buffer_size : Z; write_buffer_size : Z;
  write_high_thresh_perc : Z; write_low_thresh_perc : Z; min_writes_per_switch : Z;
  timing : Timing; activation_limit : Z; mem_sched_policy : MemSched;
  addr_mapping : AddrMap; page_policy : PageManage; max_accesses_per_row : Z;
  static_frontend_latency : Tick; static_backend_latency : Tick;
}.

(** The constant members of [DRAMCtrl]. *)
Record Config := mkConfig {
  deviceSize : Z; deviceBusWidth : Z; burstLength : Z; deviceRowBufferSize : Z;
  devicesPerRank : Z; burstSize : Z; rowBufferSize : Z; columnsPerRowBuffer : Z;
  columnsPerStripe : Z; ranksPerChannel : Z; bankGroupsPerRank : Z; bankGroupArch : bool;
  banksPerRank : Z; channels : Z; rowsPerBank : Z; readBufferSize : Z; writeBufferSize : Z;
  writeHighThreshold : Z; writeLowThreshold : Z; minWritesPerSwitch : Z; tm : Timing;
  activationLimit : Z; memSchedPolicy : MemSched; addrMapping : AddrMap;
  pageMgmt : PageManage; maxAccessesPerRow : Z;
  frontendLatency : Tick; backendLatency : Tick;
}.

(** Unsigned division and remainder; by zero they are undefined. *)
Definition udiv (a b : Z) : res Z := if b =? 0 then Err UB else mret (a / b).
Definition umod (a b : Z) : res Z := if b =? 0 then Err UB else mret (a mod b).

(** The member initialisers of [DRAMCtrl(p)] up to [rowsPerBank], which is set
    in its body.  The thresholds are computed in double precision and truncated;
    for 32-bit operands that is the integer quotient. *)
Definition init_members (p : DRAMCtrlParams) (range : AddrRange.AddrRange) : res Config :=
  let burstSize :=
    u32 (u32 (devices_per_rank p * burst_length p) * device_bus_width p) / 8 in
  let rowBufferSize := u32 (devices_per_rank p * u32 (device_rowbuffer_size p)) in
  columnsPerRowBuffer ← udiv rowBufferSize burstSize;
  columnsPerStripe ←
    (if AddrRange.interleaved range
     then q ← udiv (AddrRange.granularity range) burstSize; mret (u32 q) else mret 1);
  mret (mkConfig (u32 (device_size p)) (device_bus_width p) (burst_length p)
    (u32 (device_rowbuffer_size p)) (devices_per_rank p) burstSize rowBufferSize
    columnsPerRowBuffer columnsPerStripe (ranks_per_channel p) (bank_groups_per_rank p)
    (0 <? bank_groups_per_rank p) (banks_per_rank p) (p_channels p) 0
    (read_buffer_size p) (write_buffer_size p)
    (u32 (write_buffer_size p * write_high_thresh_perc p) / 100)
    (u32 (write_buffer_size p * write_low_thresh_perc p) / 100)
    (min_writes_per_switch p) (timing p) (activation_limit p) (mem_sched_policy p)
    (addr_mapping p) (page_policy p) (max_accesses_per_row p)
    (static_frontend_latency p) (static_backend_latency p)).

Definition with_rowsPerBank (c : Config) (r : Z) : Config :=
  mkConfig (deviceSize c) (deviceBusWidth c) (burstLength c) (deviceRowBufferSize c)
    (devicesPerRank c) (burstSize c) (rowBufferSize c) (columnsPerRowBuffer c)
    (columnsPerStripe c) (ranksPerChannel c) (bankGroupsPerRank c) (bankGroupArch c)
    (banksPerRank c) (channels c) r (readBufferSize c) (writeBufferSize c)
    (writeHighThreshold c) (writeLowThreshold c) (minWritesPerSwitch c) (tm c)
    (activationLimit c) (memSchedPolicy c) (addrMapping c) (pageMgmt c)
    (maxAccessesPerRow c) (frontendLatency c) (backendLatency c).

(** The constant part of [DRAMCtrl(p)]: the members and the sanity checks of
    the body, in their order. *)
Definition DRAMCtrl_config (p : DRAMCtrlParams) (range : AddrRange.AddrRange) : res Config :=
  c ← init_members p range;
  fatal_if (negb (isPowerOf2 (ranksPerChannel c)));;
  fatal_if (negb (isPowerOf2 (burstSize c)));;
  fatal_if (write_high_thresh_perc p <=? write_low_thresh_perc p);;
  k ← ceilLog2 (AddrRange.size range);
  capacity ← (if k <? 64 then mret (shl64 1 k) else Err UB);
  rows ← udiv capacity
           (u32 (u32 (rowBufferSize c * banksPerRank c) * ranksPerChannel c));
  let c := with_rowsPerBank c (u32 rows) in
  fatal_if ((tREFI (tm c) <=? tRP (tm c)) || (tREFI (tm c) <=? tRFC (tm c)));;
  (if bankGroupArch c then
     fatal_if (banksPerRank c <? bankGroupsPerRank c);;
     fatal_if (negb (banksPerRank c mod bankGroupsPerRank c =? 0));;
     fatal_if (tCCD_L (tm c) <=? tBURST (tm c));;
     fatal_if (tRRD_L (tm c) <? tRRD (tm c))
   else mret tt);;
  mret c.

(** The interleaving checks of [init()]. *)
Definition init_checks (c : Config) (range : AddrRange.AddrRange) (cacheLineSize : Z) : res unit :=
  if AddrRange.interleaved range then
    fatal_if (negb (channels c =? AddrRange.stripes range));;
    match addrMapping c with
    | RoRaBaChCo => fatal_if (negb (rowBufferSize c =? AddrRange.granularity range))
    | RoRaBaCoCh | RoCoRaBaCh =>
        assert_ (1 <=? columnsPerStripe c);;
        fatal_if (AddrRange.granularity range <? cacheLineSize);;
        fatal_if (rowBufferSize c <? AddrRange.granularity range);;
        assert_ (columnsPerStripe c <=? columnsPerRowBuffer c)
    end
  else mret tt.

Definition burstAlign (c : Config) (addr : Z) : Z := Z.land addr (not64 (burstSize c - 1)).

(** ** Address decoding *)

Definition NO_ROW : Z := 2 ^ 32 - 1.

Record Decoded := mkDecoded { d_rank : Z; d_bank : Z; d_row : Z }.

(** The computation of [rank], [bank] and [row] in [decodeAddr].  [rank] and
    [bank] are [uint8_t]. *)
Definition decode_coords (c : Config) (dramPktAddr : Z) : res Decoded :=
  addr ← udiv dramPktAddr (burstSize c);
  '(bank, rank, row) ←
    match addrMapping c with
    | RoRaBaChCo =>
        addr ← udiv addr (columnsPerRowBuffer c);
        addr ← udiv addr (channels c);
        bank ← umod addr (banksPerRank c);
        addr ← udiv addr (banksPerRank c);
        rank ← umod addr (ranksPerChannel c);
        addr ← udiv addr (ranksPerChannel c);
        row ← umod addr (rowsPerBank c);
        mret (u8 bank, u8 rank, row)
    | RoRaBaCoCh =>
        addr ← udiv addr (columnsPerStripe c);
        addr ← udiv addr (channels c);
        cols ← udiv (columnsPerRowBuffer c) (columnsPerStripe c);
        addr ← udiv addr cols;
        bank ← umod addr (banksPerRank c);
        addr ← udiv addr (banksPerRank c);
        rank ← umod addr (ranksPerChannel c);
        addr ← udiv addr (ranksPerChannel c);
        row ← umod addr (rowsPerBank c);
        mret (u8 bank, u8 rank, row)
    | RoCoRaBaCh =>
        addr ← udiv addr (columnsPerStripe c);
        addr ← udiv addr (channels c);
        bank ← umod addr (banksPerRank c);
        addr ← udiv addr (banksPerRank c);
        rank ← umod addr (ranksPerChannel c);
        addr ← udiv addr (ranksPerChannel c);
        cols ← udiv (columnsPerRowBuffer c) (columnsPerStripe c);
        addr ← udiv addr cols;
        row ← umod addr (rowsPerBank c);
        mret (u8 bank, u8 rank, row)
    end;
  assert_ (rank <? ranksPerChannel c);;
  assert_ (bank <? banksPerRank c);;
  assert_ (row <? rowsPerBank c);;
  assert_ (row <? NO_ROW);;
  mret (mkDecoded rank bank row).

(** ** The geometry *)

(** What a usable configuration satisfies. *)
Record config_wf (c : Config) : Prop := {
  wf_burst : 0 < burstSize c;
  wf_cols : 0 < columnsPerRowBuffer c;
  wf_stripe : 0 < columnsPerStripe c;
  wf_stripe_div : (columnsPerStripe c | columnsPerRowBuffer c);
  wf_channels : 0 < channels c;
  wf_ranks : 0 < ranksPerChannel c ≤ 256;
  wf_banks : 0 < banksPerRank c ≤ 256;
  wf_rows : 0 < rowsPerBank c ≤ NO_ROW;
}.

(** Where a byte is stored, across all channels. *)
Record Location := mkLoc {
  l_row : Z; l_rank : Z; l_bank : Z; l_channel : Z; l_col : Z; l_off : Z }.

Record loc_ok (c : Config) (l : Location) : Prop := {
  lo_row : 0 ≤ l_row l < rowsPerBank c;
  lo_rank : 0 ≤ l_rank l < ranksPerChannel c;
  lo_bank : 0 ≤ l_bank l < banksPerRank c;
  lo_channel : 0 ≤ l_channel l < channels c;
  lo_col : 0 ≤ l_col l < columnsPerRowBuffer c;
  lo_off : 0 ≤ l_off l < burstSize c;
}.

(** The address of a location: its coordinates as the digits of a mixed-radix
    number, in the order the mapping is named after. *)
Definition location_addr (c : Config) (l : Location) : Z :=
  let col_hi := l_col l / columnsPerStripe c in
  let col_lo := l_col l mod columnsPerStripe c in
  let cols_hi := columnsPerRowBuffer c / columnsPerStripe c in
  match addrMapping c with
  | RoRaBaChCo =>
      ((((l_row l * ranksPerChannel c + l_rank l) * banksPerRank c + l_bank l) * channels c
        + l_channel l) * columnsPerRowBuffer c + l_col l) * burstSize c + l_off l
  | RoRaBaCoCh =>
      (((((l_row l * ranksPerChannel c + l_rank l) * banksPerRank c + l_bank l) * cols_hi
        + col_hi) * channels c + l_channel l) * columnsPerStripe c + col_lo) * burstSize c + l_off l
  | RoCoRaBaCh =>
      (((((l_row l * cols_hi + col_hi) * ranksPerChannel c + l_rank l) * banksPerRank c
        + l_bank l) * channels c + l_channel l) * columnsPerStripe c + col_lo) * burstSize c
      + l_off l
  end.

(** The bytes of all channels. *)
Definition total_bytes (c : Config) : Z :=
  rowsPerBank c * ranksPerChannel c * banksPerRank c * channels c * columnsPerRowBuffer c
  * burstSize c.

Lemma digit_div x n d : 0 ≤ d < n → (x * n + d) / n = x.
Proof. intros. rewrite Z.div_add_l, Z.div_small by lia. lia. Qed.
Lemma digit_mod x n d : 0 ≤ d < n → (x * n + d) mod n = d.
Proof. intros. rewrite Z.add_comm, Z.mod_add, Z.mod_small by lia. lia. Qed.

Lemma udiv_digit x n d : 0 ≤ d < n → udiv (x * n + d) n = Ok x.
Proof.
  intros. unfold udiv. rewrite (proj2 (Z.eqb_neq n 0)) by lia. by rewrite digit_div.
Qed.
Lemma umod_digit x n d : 0 ≤ d < n → umod (x * n + d) n = Ok d.
Proof.
  intros. unfold umod. rewrite (proj2 (Z.eqb_neq n 0)) by lia. by rewrite digit_mod.
Qed.
Lemma umod_small x n : 0 ≤ x < n → umod x n = Ok x.
Proof. intros. unfold umod. rewrite (proj2 (Z.eqb_neq n 0)) by lia. by rewrite Z.mod_small. Qed.
Lemma udiv_ok a b : 0 < b → udiv a b = Ok (a / b).
Proof. intros. unfold udiv. by rewrite (proj2 (Z.eqb_neq b 0)) by lia. Qed.

Section geometry.
Context (c : Config) (Hwf : config_wf c).

Lemma cols_hi_pos : 0 < columnsPerRowBuffer c / columnsPerStripe c.
Proof.
  destruct Hwf. apply Z.div_str_pos. split; [done|]. by apply Z.divide_pos_le.
Qed.

Lemma cols_split : columnsPerRowBuffer c =
  columnsPerRowBuffer c / columnsPerStripe c * columnsPerStripe c.
Proof.
  destruct Hwf as [_ _ ? [k ->] _ _ _ _]. by rewrite Z.div_mul by lia.
Qed.

Lemma col_hi_range l :
  loc_ok c l → 0 ≤ l_col l / columnsPerStripe c < columnsPerRowBuffer c / columnsPerStripe c.
Proof.
  intros []. destruct Hwf. split; [apply Z.div_pos; lia|].
  apply Z.div_lt_upper_bound; [lia|]. rewrite Z.mul_comm, <- cols_split. lia.
Qed.

Lemma col_lo_range l : 0 ≤ l_col l mod columnsPerStripe c < columnsPerStripe c.
Proof. destruct Hwf. apply Z.mod_pos_bound. lia. Qed.

(** Decoding the address of a location yields its rank, bank and row. *)
Lemma decode_location l :
  loc_ok c l →
  decode_coords c (location_addr c l) = Ok (mkDecoded (l_rank l) (l_bank l) (l_row l)).
Proof.
  intros Hl. pose proof (col_hi_range l Hl). pose proof (col_lo_range l).
  destruct Hl. destruct Hwf.
  assert (∀ n x, 0 ≤ x < n → n ≤ 256 → u8 x = x) as H8 by (intros; apply wrap_small; lia).
  unfold decode_coords, location_addr.
  destruct (addrMapping c); rewrite udiv_digit by done; cbv [mbind res_mbind];
    repeat first [rewrite (udiv_ok (columnsPerRowBuffer c)) by done | rewrite udiv_digit by done
                 | rewrite umod_digit by done | rewrite umod_small by done];
    rewrite (H8 (banksPerRank c) (l_bank l)), (H8 (ranksPerChannel c) (l_rank l)) by lia;
    cbv [mret res_mret];
    rewrite !(proj2 (Z.ltb_lt _ _)) by lia; done.
Qed.

(** The location of an address, digit by digit. *)
Definition locate (a : Z) : Location :=
  let cols_hi := columnsPerRowBuffer c / columnsPerStripe c in
  let off := a mod burstSize c in
  let a := a / burstSize c in
  match addrMapping c with
  | RoRaBaChCo =>
      let col := a mod columnsPerRowBuffer c in
      let a := a / columnsPerRowBuffer c in
      let ch := a mod channels c in
      let a := a / channels c in
      let bank := a mod banksPerRank c in
      let a := a / banksPerRank c in
      mkLoc (a / ranksPerChannel c) (a mod ranksPerChannel c) bank ch col off
  | RoRaBaCoCh =>
      let lo := a mod columnsPerStripe c in
      let a := a / columnsPerStripe c in
      let ch := a mod channels c in
      let a := a / channels c in
      let hi := a mod cols_hi in
      let a := a / cols_hi in
      let bank := a mod banksPerRank c in
      let a := a / banksPerRank c in
      mkLoc (a / ranksPerChannel c) (a mod ranksPerChannel c) bank ch
        (hi * columnsPerStripe c + lo) off
  | RoCoRaBaCh =>
      let lo := a mod columnsPerStripe c in
      let a := a / columnsPerStripe c in
      let ch := a mod channels c in
      let a := a / channels c in
      let bank := a mod banksPerRank c in
      let a := a / banksPerRank c in
      let rank := a mod ranksPerChannel c in
      let a := a / ranksPerChannel c in
      mkLoc (a / cols_hi) rank bank ch (a mod cols_hi * columnsPerStripe c + lo) off
  end.

Lemma div_bound x n m : 0 < m → 0 ≤ x < n * m → 0 ≤ x / m < n.
Proof. intros. split; [apply Z.div_pos; lia|apply Z.div_lt_upper_bound; lia]. Qed.

Lemma undigit x n : 0 < n → x / n * n + x mod n = x.
Proof. intros. pose proof (Z.div_mod x n). lia. Qed.

Lemma col_range hi lo :
  0 ≤ hi < columnsPerRowBuffer c / columnsPerStripe c → 0 ≤ lo < columnsPerStripe c →
  0 ≤ hi * columnsPerStripe c + lo < columnsPerRowBuffer c.
Proof. intros. rewrite cols_split at 1. nia. Qed.

Lemma locate_ok a : 0 ≤ a < total_bytes c → loc_ok c (locate a).
Proof.
  intros Ha. pose proof cols_hi_pos. pose proof cols_split as Hc. destruct Hwf. unfold locate.
  unfold total_bytes in Ha.
  assert (∀ x n, 0 < n → 0 ≤ x mod n < n) as Hm by (intros; by apply Z.mod_pos_bound).
  destruct (addrMapping c).
  - split; simpl; try (apply Hm; lia). repeat (apply div_bound; [lia|]). done.
  - split; simpl; try (apply Hm; lia); [|by apply col_range; apply Hm].
    rewrite Hc in Ha. repeat (apply div_bound; [lia|]). nia.
  - split; simpl; try (apply Hm; lia); [|by apply col_range; apply Hm].
    rewrite Hc in Ha. repeat (apply div_bound; [lia|]). nia.
Qed.

Lemma location_addr_locate a : location_addr c (locate a) = a.
Proof.
  pose proof cols_hi_pos. destruct Hwf. unfold locate, location_addr.
  assert (∀ x n, 0 < n → 0 ≤ x mod n < n) as Hm by (intros; by apply Z.mod_pos_bound).
  destruct (addrMapping c); simpl;
    rewrite ?digit_div, ?digit_mod by (apply Hm; lia); rewrite !undigit by lia; done.
Qed.

Lemma locate_location l : loc_ok c l → locate (location_addr c l) = l.
Proof.
  intros Hl. pose proof (col_hi_range l Hl). pose proof (col_lo_range l). destruct Hl. destruct Hwf.
  assert (l_col l / columnsPerStripe c * columnsPerStripe c + l_col l mod columnsPerStripe c
    = l_col l) as Hc by (by apply undigit).
  unfold locate, location_addr.
  destruct (addrMapping c); repeat rewrite ?digit_div, ?digit_mod by done;
    rewrite ?Hc; by destruct l.
Qed.

End geometry.

(** C21: [decodeAddr] is a bijection between the bytes of the memory and their
    locations: every address below the capacity is the address of exactly one
    location (row, rank, bank, channel, column, offset), and the decoder returns
    the rank, bank and row of that location, for each of the three address
    mappings. *)
Theorem decodeAddr_bijective c a :
  config_wf c → 0 ≤ a < total_bytes c →
  ∃ l, loc_ok c l ∧ location_addr c l = a ∧
    decode_coords c a = Ok (mkDecoded (l_rank l) (l_bank l) (l_row l)) ∧
    (∀ l', loc_ok c l' → location_addr c l' = a → l' = l).
Proof.
  intros Hwf Ha. exists (locate c a). pose proof (locate_ok c Hwf a Ha) as Hl.
  split_and!; [done|by apply location_addr_locate| |].
  - rewrite <- (location_addr_locate c Hwf a) at 1. by apply decode_location.
  - intros l' Hl' <-. symmetry. by apply locate_location.
Qed.

(** ** Rows of a row operation *)

Lemma decode_coords_RoRaBaChCo c a :
  config_wf c → addrMapping c = RoRaBaChCo → 0 ≤ a →
  decode_coords c a = decode_coords c (a / (burstSize c * columnsPerRowBuffer c)
                                       * (burstSize c * columnsPerRowBuffer c)).
Proof.
  intros [] Hm Ha. unfold decode_coords. rewrite Hm, !(udiv_ok _ (burstSize c)) by done.
  cbv [mbind res_mbind]. rewrite !(udiv_ok _ (columnsPerRowBuffer c)) by done.
  rewrite !Z.div_div by lia. by rewrite Z.div_mul by lia.
Qed.

Lemma decode_coords_RoRaBaCoCh c a :
  config_wf c → addrMapping c = RoRaBaCoCh → channels c = 1 → 0 ≤ a →
  decode_coords c a = decode_coords c (a / (burstSize c * columnsPerRowBuffer c)
                                       * (burstSize c * columnsPerRowBuffer c)).
Proof.
  intros Hwf Hm Hch Ha. pose proof (cols_hi_pos c Hwf). pose proof (cols_split c Hwf) as Hc.
  destruct Hwf. unfold decode_coords. rewrite Hm, Hch, !(udiv_ok _ (burstSize c)) by done.
  cbv [mbind res_mbind]. rewrite !(udiv_ok _ (columnsPerStripe c)), !(udiv_ok _ 1) by done.
  rewrite !(udiv_ok _ (_ / _)) by done. rewrite !Z.div_1_r, !Z.div_div by lia.
  rewrite (Z.mul_comm (columnsPerStripe c)), <- Hc. by rewrite Z.div_mul by lia.
Qed.

(** C22: with a row buffer of [ROW_SIZE] bytes, and columns below the banks in the
    address map, every byte of an aligned operand of a row operation lies in the
    same rank, bank and DRAM row. *)
Theorem rowop_operand_in_one_row c base i :
  config_wf c → burstSize c * columnsPerRowBuffer c = Request.ROW_SIZE →
  addrMapping c = RoRaBaChCo ∨ addrMapping c = RoRaBaCoCh ∧ channels c = 1 →
  0 ≤ base → base mod Request.ROW_SIZE = 0 → 0 ≤ i < Request.ROW_SIZE →
  decode_coords c (base + i) = decode_coords c base.
Proof.
  intros Hwf Hsz Hm Hb Hal Hi.
  assert ((base + i) / Request.ROW_SIZE = base / Request.ROW_SIZE) as Hq.
  { assert (base = base / Request.ROW_SIZE * Request.ROW_SIZE) as E
      by (pose proof (Z.div_mod base Request.ROW_SIZE); unfold Request.ROW_SIZE in *; lia).
    rewrite E at 1. by apply digit_div. }
  destruct Hm as [Hm|[Hm Hch]].
  - rewrite (decode_coords_RoRaBaChCo c (base + i)), (decode_coords_RoRaBaChCo c base) by (done || lia).
    by rewrite Hsz, Hq.
  - rewrite (decode_coords_RoRaBaCoCh c (base + i)), (decode_coords_RoRaBaCoCh c base) by (done || lia).
    by rewrite Hsz, Hq.
Qed.

(** under the bank-interleaving map two neighbouring bursts are never in the
    same bank, so the operand of a row operation is not a DRAM row; neither the
    constructor nor the row-operation path excludes this map. *)
Theorem rowop_operand_spans_banks c a d d' :
  config_wf c → addrMapping c = RoCoRaBaCh → channels c = 1 → columnsPerStripe c = 1 →
  1 < banksPerRank c → 0 ≤ a → decode_coords c a = Ok d →
  decode_coords c (a + burstSize c) = Ok d' → d_bank d' ≠ d_bank d.
Proof.
  intros Hwf Hm Hch Hst Hbk Ha Hd Hd'. pose proof (cols_hi_pos c Hwf). destruct Hwf.
  assert (∀ a d, decode_coords c a = Ok d → d_bank d = (a / burstSize c) mod banksPerRank c) as H'.
  { clear a d d' Ha Hd Hd'. intros a d Hd. unfold decode_coords in Hd. rewrite Hm, Hch, Hst in *.
    rewrite (udiv_ok _ (burstSize c)) in Hd by done. cbv [mbind res_mbind] in Hd.
    rewrite !(udiv_ok _ 1), !Z.div_1_r in Hd by done. unfold umod in Hd.
    rewrite !(proj2 (Z.eqb_neq _ 0)) in Hd by lia.
    rewrite !udiv_ok in Hd by lia. cbv [mret res_mret] in Hd.
    repeat (destruct (check _ _) in Hd; [|done]). injection Hd as <-. cbn [d_bank].
    apply wrap_small. pose proof (Z.mod_pos_bound (a / burstSize c) (banksPerRank c)). lia. }
  rewrite (H' _ _ Hd), (H' _ _ Hd'). rewrite <- (Z.mul_1_l (burstSize c)) at 1.
  rewrite Z.div_add by lia. set (q := a / burstSize c). intros E.
  assert ((q + 1 - q) mod banksPerRank c = 0) as E0
    by (rewrite Zminus_mod, E, Z.sub_diag; apply Z.mod_0_l; lia).
  replace (q + 1 - q) with 1 in E0 by lia. rewrite Z.mod_small in E0; lia.
Qed.

(** ** The DDR4-2400 x64 configuration of DRAMCtrl.py (1 tick = 1 ps) *)

Definition DDR4_timing : Timing :=
  mkTiming 833 5000 1666 1666 3333 5000 14160 14160 14160 32000 15000 7500
    350000 7800000 3300 4900 50000 32000 4000.

Definition DDR4_2400_x64 : DRAMCtrlParams :=
  mkParams (512 * 1024 * 1024) 8 8 1024 8 2 4 16 1 64 128 85 50 16 DDR4_timing 4
    frfcfs RoRaBaCoCh open_adaptive 16 10000 10000.

(** 8 GiB from address 0. *)
Definition DDR4_range : AddrRange.AddrRange := AddrRange.AddrRange_simple 0 (2 ^ 33 - 1).

Definition DDR4_config : Config :=
  match DRAMCtrl_config DDR4_2400_x64 DDR4_range with
  | Ok c => c
  | Err _ => mkConfig 0 0 0 0 0 0 0 0 0 0 0 false 0 0 0 0 0 0 0 0 DDR4_timing 0 fcfs RoRaBaChCo
      open 0 0 0
  end.

Definition with_mapping (c : Config) (m : AddrMap) : Config :=
  mkConfig (deviceSize c) (deviceBusWidth c) (burstLength c) (deviceRowBufferSize c)
    (devicesPerRank c) (burstSize c) (rowBufferSize c) (columnsPerRowBuffer c)
    (columnsPerStripe c) (ranksPerChannel c) (bankGroupsPerRank c) (bankGroupArch c)
    (banksPerRank c) (channels c) (rowsPerBank c) (readBufferSize c) (writeBufferSize c)
    (writeHighThreshold c) (writeLowThreshold c) (minWritesPerSwitch c) (tm c)
    (activationLimit c) (memSchedPolicy c) m (pageMgmt c)
    (maxAccessesPerRow c) (frontendLatency c) (backendLatency c).

Lemma DDR4_accepted : DRAMCtrl_config DDR4_2400_x64 DDR4_range = Ok DDR4_config.
Proof. by vm_compute. Qed.

Lemma DDR4_wf m : config_wf (with_mapping DDR4_config m).
Proof. split; try (vm_compute; done). by exists 128. Qed.

Lemma decodeAddr_bijective_witness :
  ∃ l, location_addr (with_mapping DDR4_config RoRaBaCoCh) l = 0x12345678 ∧
    decode_coords (with_mapping DDR4_config RoRaBaCoCh) 0x12345678
    = Ok (mkDecoded (l_rank l) (l_bank l) (l_row l)).
Proof.
  destruct (decodeAddr_bijective (with_mapping DDR4_config RoRaBaCoCh) 0x12345678)
    as (l & _ & Ha & Hd & _); [apply DDR4_wf|by vm_compute|].
  exists l. split; [exact Ha|exact Hd].
Defined.

Lemma rowop_operand_in_one_row_witness :
  decode_coords (with_mapping DDR4_config RoRaBaCoCh) (0x12344000 + 8191)
  = decode_coords (with_mapping DDR4_config RoRaBaCoCh) 0x12344000.
Proof.
  apply (rowop_operand_in_one_row (with_mapping DDR4_config RoRaBaCoCh) 0x12344000 8191);
    [apply DDR4_wf|reflexivity|by right|done|reflexivity|unfold Request.ROW_SIZE; lia].
Defined.

Lemma rowop_operand_spans_banks_witness :
  d_bank (mkDecoded 0 1 0) ≠ d_bank (mkDecoded 0 0 0).
Proof.
  apply (rowop_operand_spans_banks (with_mapping DDR4_config RoCoRaBaCh) 0);
    [apply DDR4_wf|by vm_compute..].
Defined.
