(* ===== verification/DRAMState.v ===== *)
(** * DRAM controller: banks and ranks (mem/dram_ctrl.hh)

    The state of a bank and of a rank, with one assignment function per member,
    and the constructors.  Bank and rank references are indices. *)

From stdpp Require Import base numbers list.
From S2P Require Import Prelude IntMath Events DRAMConfig.
Local Open Scope Z_scope.

(** The special row values of [Bank]; only [NO_ROW] and [DOUBLE_ROW] are ever
    stored in [openRow] together with ordinary rows and the designated rows of
    [apBank]. *)
Definition DOUBLE_ROW : Z := 2 ^ 32 - 2.
Definition B_T0 : Z := 2 ^ 32 - 3.
Definition B_T1 : Z := 2 ^ 32 - 4.
Definition B_T2 : Z := 2 ^ 32 - 5.
Definition B_DCC0 : Z := 2 ^ 32 - 7.
Definition B_DCC0N : Z := 2 ^ 32 - 8.
Definition B_DCC0N_T0 : Z := 2 ^ 32 - 11.
Definition B_DCC1N_T1 : Z := 2 ^ 32 - 12.
Definition B_T2_T3 : Z := 2 ^ 32 - 13.
Definition B_T0_T1_T2 : Z := 2 ^ 32 - 15.
Definition B_DCC0_T1_T2 : Z := 2 ^ 32 - 17.
Definition B_DCC1_T0_T3 : Z := 2 ^ 32 - 18.
Definition C_0 : Z := 2 ^ 32 - 19.
Definition C_1 : Z := 2 ^ 32 - 20.
Definition B_T0_SH : Z := 2 ^ 32 - 21.

Record Bank := mkBank {
  openRow : Z;
  bank : Z;
  bankgr : Z;
  colAllowedAt : Tick;
  preAllowedAt : Tick;
  actAllowedAt : Tick;
  rowAccesses : Z;
  bytesAccessed : Z;
}.

Definition set_openRow (v : Z) (b : Bank) : Bank :=
  mkBank v (bank b) (bankgr b) (colAllowedAt b) (preAllowedAt b) (actAllowedAt b)
    (rowAccesses b) (bytesAccessed b).
Definition set_bank (v : Z) (b : Bank) : Bank :=
  mkBank (openRow b) v (bankgr b) (colAllowedAt b) (preAllowedAt b) (actAllowedAt b)
    (rowAccesses b) (bytesAccessed b).
Definition set_bankgr (v : Z) (b : Bank) : Bank :=
  mkBank (openRow b) (bank b) v (colAllowedAt b) (preAllowedAt b) (actAllowedAt b)
    (rowAccesses b) (bytesAccessed b).
Definition set_colAllowedAt (v : Tick) (b : Bank) : Bank :=
  mkBank (openRow b) (bank b) (bankgr b) v (preAllowedAt b) (actAllowedAt b) (rowAccesses b)
    (bytesAccessed b).
Definition set_preAllowedAt (v : Tick) (b : Bank) : Bank :=
  mkBank (openRow b) (bank b) (bankgr b) (colAllowedAt b) v (actAllowedAt b) (rowAccesses b)
    (bytesAccessed b).
Definition set_actAllowedAt (v : Tick) (b : Bank) : Bank :=
  mkBank (openRow b) (bank b) (bankgr b) (colAllowedAt b) (preAllowedAt b) v (rowAccesses b)
    (bytesAccessed b).
Definition set_rowAccesses (v : Z) (b : Bank) : Bank :=
  mkBank (openRow b) (bank b) (bankgr b) (colAllowedAt b) (preAllowedAt b) (actAllowedAt b) v
    (bytesAccessed b).
Definition set_bytesAccessed (v : Z) (b : Bank) : Bank :=
  mkBank (openRow b) (bank b) (bankgr b) (colAllowedAt b) (preAllowedAt b) (actAllowedAt b)
    (rowAccesses b) v.

(** [Bank()] *)
Definition new_Bank : Bank := mkBank NO_ROW 0 0 0 0 0 0 0.

Inductive PowerState := PWR_IDLE | PWR_REF | PWR_PRE_PDN | PWR_ACT | PWR_ACT_PDN.
Inductive RefreshState := REF_IDLE | REF_DRAIN | REF_PRE | REF_RUN.

#[global] Instance PowerState_eq_dec : EqDecision PowerState.
Proof. solve_decision. Defined.
#[global] Instance RefreshState_eq_dec : EqDecision RefreshState.
Proof. solve_decision. Defined.

(** The commands handed to the power library: [doCommand] appends to its
    [cmdList]. *)
Inductive cmds := ACT | PRE | RD | WR | PREA | REF.
Record MemCommand := mkCommand { mc_type : cmds; mc_bank : Z; mc_time : Z }.

(** A rank.  [reported] are the batches of commands [updateCounters] has
    consumed, [bytesPerActivate] the samples the rank has added to that
    histogram. *)
Record Rank := mkRank {
  pwrStateTrans : PowerState;
  pwrState : PowerState;
  pwrStateTick : Tick;
  refreshState : RefreshState;
  refreshDueAt : Tick;
  rank : Z;
  cmdList : list MemCommand;
  reported : list (list MemCommand);
  pwrStateTime : PowerState → Z;
  banks : list Bank;
  numBanksActive : Z;
  actTicks : list Tick;
  activateEvent : Event;
  prechargeEvent : Event;
  refreshEvent : Event;
  powerEvent : Event;
  bytesPerActivate : list Z;
}.

Definition set_pwrStateTrans (v : PowerState) (r : Rank) : Rank :=
  mkRank v (pwrState r) (pwrStateTick r) (refreshState r) (refreshDueAt r) (rank r) (cmdList r)
    (reported r) (pwrStateTime r) (banks r) (numBanksActive r) (actTicks r) (activateEvent r)
    (prechargeEvent r) (refreshEvent r) (powerEvent r) (bytesPerActivate r).
Definition set_pwrState (v : PowerState) (r : Rank) : Rank :=
  mkRank (pwrStateTrans r) v (pwrStateTick r) (refreshState r) (refreshDueAt r) (rank r)
    (cmdList r) (reported r) (pwrStateTime r) (banks r) (numBanksActive r) (actTicks r)
    (activateEvent r) (prechargeEvent r) (refreshEvent r) (powerEvent r) (bytesPerActivate r).
Definition set_pwrStateTick (v : Tick) (r : Rank) : Rank :=
  mkRank (pwrStateTrans r) (pwrState r) v (refreshState r) (refreshDueAt r) (rank r) (cmdList r)
    (reported r) (pwrStateTime r) (banks r) (numBanksActive r) (actTicks r) (activateEvent r)
    (prechargeEvent r) (refreshEvent r) (powerEvent r) (bytesPerActivate r).
Definition set_refreshState (v : RefreshState) (r : Rank) : Rank :=
  mkRank (pwrStateTrans r) (pwrState r) (pwrStateTick r) v (refreshDueAt r) (rank r) (cmdList r)
    (reported r) (pwrStateTime r) (banks r) (numBanksActive r) (actTicks r) (activateEvent r)
    (prechargeEvent r) (refreshEvent r) (powerEvent r) (bytesPerActivate r).
Definition set_refreshDueAt (v : Tick) (r : Rank) : Rank :=
  mkRank (pwrStateTrans r) (pwrState r) (pwrStateTick r) (refreshState r) v (rank r) (cmdList r)
    (reported r) (pwrStateTime r) (banks r) (numBanksActive r) (actTicks r) (activateEvent r)
    (prechargeEvent r) (refreshEvent r) (powerEvent r) (bytesPerActivate r).
Definition set_rank (v : Z) (r : Rank) : Rank :=
  mkRank (pwrStateTrans r) (pwrState r) (pwrStateTick r) (refreshState r) (refreshDueAt r) v
    (cmdList r) (reported r) (pwrStateTime r) (banks r) (numBanksActive r) (actTicks r)
    (activateEvent r) (prechargeEvent r) (refreshEvent r) (powerEvent r) (bytesPerActivate r).
Definition set_cmdList (v : list MemCommand) (r : Rank) : Rank :=
  mkRank (pwrStateTrans r) (pwrState r) (pwrStateTick r) (refreshState r) (refreshDueAt r)
    (rank r) v (reported r) (pwrStateTime r) (banks r) (numBanksActive r) (actTicks r)
    (activateEvent r) (prechargeEvent r) (refreshEvent r) (powerEvent r) (bytesPerActivate r).
Definition set_reported (v : list (list MemCommand)) (r : Rank) : Rank :=
  mkRank (pwrStateTrans r) (pwrState r) (pwrStateTick r) (refreshState r) (refreshDueAt r)
    (rank r) (cmdList r) v (pwrStateTime r) (banks r) (numBanksActive r) (actTicks r)
    (activateEvent r) (prechargeEvent r) (refreshEvent r) (powerEvent r) (bytesPerActivate r).
Definition set_pwrStateTime (v : PowerState → Z) (r : Rank) : Rank :=
  mkRank (pwrStateTrans r) (pwrState r) (pwrStateTick r) (refreshState r) (refreshDueAt r)
    (rank r) (cmdList r) (reported r) v (banks r) (numBanksActive r) (actTicks r)
    (activateEvent r) (prechargeEvent r) (refreshEvent r) (powerEvent r) (bytesPerActivate r).
Definition set_banks (v : list Bank) (r : Rank) : Rank :=
  mkRank (pwrStateTrans r) (pwrState r) (pwrStateTick r) (refreshState r) (refreshDueAt r)
    (rank r) (cmdList r) (reported r) (pwrStateTime r) v (numBanksActive r) (actTicks r)
    (activateEvent r) (prechargeEvent r) (refreshEvent r) (powerEvent r) (bytesPerActivate r).
Definition set_numBanksActive (v : Z) (r : Rank) : Rank :=
  mkRank (pwrStateTrans r) (pwrState r) (pwrStateTick r) (refreshState r) (refreshDueAt r)
    (rank r) (cmdList r) (reported r) (pwrStateTime r) (banks r) v (actTicks r)
    (activateEvent r) (prechargeEvent r) (refreshEvent r) (powerEvent r) (bytesPerActivate r).
Definition set_actTicks (v : list Tick) (r : Rank) : Rank :=
  mkRank (pwrStateTrans r) (pwrState r) (pwrStateTick r) (refreshState r) (refreshDueAt r)
    (rank r) (cmdList r) (reported r) (pwrStateTime r) (banks r) (numBanksActive r) v
    (activateEvent r) (prechargeEvent r) (refreshEvent r) (powerEvent r) (bytesPerActivate r).
Definition set_activateEvent (v : Event) (r : Rank) : Rank :=
  mkRank (pwrStateTrans r) (pwrState r) (pwrStateTick r) (refreshState r) (refreshDueAt r)
    (rank r) (cmdList r) (reported r) (pwrStateTime r) (banks r) (numBanksActive r) (actTicks r)
    v (prechargeEvent r) (refreshEvent r) (powerEvent r) (bytesPerActivate r).
Definition set_prechargeEvent (v : Event) (r : Rank) : Rank :=
  mkRank (pwrStateTrans r) (pwrState r) (pwrStateTick r) (refreshState r) (refreshDueAt r)
    (rank r) (cmdList r) (reported r) (pwrStateTime r) (banks r) (numBanksActive r) (actTicks r)
    (activateEvent r) v (refreshEvent r) (powerEvent r) (bytesPerActivate r).
Definition set_refreshEvent (v : Event) (r : Rank) : Rank :=
  mkRank (pwrStateTrans r) (pwrState r) (pwrStateTick r) (refreshState r) (refreshDueAt r)
    (rank r) (cmdList r) (reported r) (pwrStateTime r) (banks r) (numBanksActive r) (actTicks r)
    (activateEvent r) (prechargeEvent r) v (powerEvent r) (bytesPerActivate r).
Definition set_powerEvent (v : Event) (r : Rank) : Rank :=
  mkRank (pwrStateTrans r) (pwrState r) (pwrStateTick r) (refreshState r) (refreshDueAt r)
    (rank r) (cmdList r) (reported r) (pwrStateTime r) (banks r) (numBanksActive r) (actTicks r)
    (activateEvent r) (prechargeEvent r) (refreshEvent r) v (bytesPerActivate r).
Definition set_bytesPerActivate (v : list Z) (r : Rank) : Rank :=
  mkRank (pwrStateTrans r) (pwrState r) (pwrStateTick r) (refreshState r) (refreshDueAt r)
    (rank r) (cmdList r) (reported r) (pwrStateTime r) (banks r) (numBanksActive r) (actTicks r)
    (activateEvent r) (prechargeEvent r) (refreshEvent r) (powerEvent r) v.

(** [Rank(memory, p)] followed by what the constructor of the controller does to
    it: [activationLimit] zero ticks, the banks and their bank groups. *)
Definition new_Rank (c : Config) (i : Z) : Rank :=
  mkRank PWR_IDLE PWR_IDLE 0 REF_IDLE 0 (u8 i) [] [] (λ _, 0)
    ((λ b, mkBank NO_ROW (u8 b)
             (u8 (if bankGroupArch c then b mod bankGroupsPerRank c else b)) 0 0 0 0 0)
       <$> seqZ 0 (banksPerRank c))
    0 (replicate (Z.to_nat (activationLimit c)) 0) None None None None [].

(** [isAvailable()] *)
Definition isAvailable (r : Rank) : bool := bool_decide (refreshState r = REF_IDLE).

(** [rank_ref.banks[b]], and an assignment through such a reference. *)
Definition get_bank (r : Rank) (b : Z) : res Bank := at_ (banks r) b.
Definition on_bank (b : Z) (f : Bank → Bank) (r : Rank) : Rank :=
  set_banks (alter f (Z.to_nat b) (banks r)) r.
Definition on_banks (f : Bank → Bank) (r : Rank) : Rank := set_banks (f <$> banks r) r.

(** [power.powerlib.doCommand(cmd, bank, divCeil(at, tCK) - timeStampOffset)] *)
Definition doCommand (c : Config) (ts : Z) (k : cmds) (bank : Z) (tick : Tick) (r : Rank) :
    res Rank :=
  q ← divCeil 64 tick (tCK (tm c));
  mret (set_cmdList (cmdList r ++ [mkCommand k bank (sub64 q ts)]) r).
