(* ===== verification/DRAMBank.v ===== *)
(** * DRAM controller: activating and precharging banks (mem/dram_ctrl.cc)

    [activateBank], [prechargeBank] and the row-operation primitives [apBank]
    and [aapBank], with the invariant of a rank: the number of active banks is
    the number of banks with an open row, and no activation can violate the
    activation window. *)

From stdpp Require Import base numbers list sets relations.
From S2P Require Import Prelude IntMath Events DRAMConfig DRAMState.
Local Open Scope Z_scope.

(** ** Operations *)

Section ops.
Context (c : Config) (ts : Z) (now : Tick).

(** "start by enforcing tRRD" *)
Definition enforce_tRRD (bgr : Z) (act_tick : Tick) (r : Rank) : Rank :=
  on_banks (λ b,
    set_actAllowedAt
      (Z.max (add64 act_tick
                (if bankGroupArch c && (bgr =? bankgr b) then tRRD_L (tm c) else tRRD (tm c)))
         (actAllowedAt b)) b) r.

(** The last [for] loops of the [tXAW] handling: no activate before [t]. *)
Definition no_act_before (t : Tick) (r : Rank) : Rank :=
  on_banks (λ b, set_actAllowedAt (Z.max t (actAllowedAt b)) b) r.

(** [actTicks.pop_back(); actTicks.push_front(act_tick);] *)
Definition push_act (act_tick : Tick) (r : Rank) : Rank :=
  set_actTicks (act_tick :: removelast (actTicks r)) r.

(** [actTicks.back() && (act_tick - actTicks.back()) < tXAW] *)
Definition in_window (act_tick : Tick) (r : Rank) : bool :=
  match last (actTicks r) with
  | Some back => negb (back =? 0) && (sub64 act_tick back <? tXAW (tm c))
  | None => false
  end.

Definition enforce_tXAW (act_tick : Tick) (r : Rank) : res Rank :=
  match actTicks r with
  | [] => mret r
  | _ =>
      panic_if (in_window act_tick r);;
      let r := push_act act_tick r in
      match last (actTicks r) with
      | Some back =>
          mret (if in_window act_tick r then no_act_before (add64 back (tXAW (tm c))) r else r)
      | None => mret r
      end
  end.

(** Opening a row: the start of [activateBank] and of [aapBank]. *)
Definition open_row (b row : Z) (r : Rank) : res Rank :=
  bk ← get_bank r b;
  assert_ (openRow bk =? NO_ROW);;
  let r := on_bank b (λ k, set_rowAccesses 0 (set_bytesAccessed 0 (set_openRow row k))) r in
  let r := set_numBanksActive (u32 (numBanksActive r + 1)) r in
  assert_ (numBanksActive r <=? banksPerRank c);;
  mret r.

Definition activateBank (b : Z) (act_tick : Tick) (row : Z) (r : Rank) : res Rank :=
  assert_ (Z.of_nat (length (actTicks r)) =? activationLimit c);;
  r ← open_row b row r;
  bk ← get_bank r b;
  r ← doCommand c ts ACT (bank bk) act_tick r;
  let r := on_bank b (λ k,
    set_colAllowedAt (Z.max (add64 act_tick (tRCD (tm c))) (colAllowedAt k))
      (set_preAllowedAt (add64 act_tick (tRAS (tm c))) k)) r in
  let r := enforce_tRRD (bankgr bk) act_tick r in
  r ← enforce_tXAW act_tick r;
  e ← schedule_min now (activateEvent r) act_tick;
  mret (set_activateEvent e r).

Definition prechargeBank (b : Z) (pre_at : Tick) (trace : bool) (r : Rank) : res Rank :=
  bk ← get_bank r b;
  assert_ (negb (openRow bk =? NO_ROW));;
  let r := set_bytesPerActivate (bytesPerActivate r ++ [bytesAccessed bk]) r in
  let pre_done_at := add64 pre_at (tRP (tm c)) in
  let r := on_bank b (λ k,
    set_actAllowedAt (Z.max (actAllowedAt k) pre_done_at)
      (set_preAllowedAt pre_at (set_openRow NO_ROW k))) r in
  assert_ (negb (numBanksActive r =? 0));;
  let r := set_numBanksActive (numBanksActive r - 1) r in
  r ← (if trace then doCommand c ts PRE (bank bk) pre_at r else mret r);
  e ← schedule_max now (prechargeEvent r) pre_done_at;
  mret (set_prechargeEvent e r).

Definition apBank (b : Z) (act_tick : Tick) (row : Z) (r : Rank) : res Rank :=
  r ← activateBank b act_tick row r;
  bk ← get_bank r b;
  prechargeBank b (preAllowedAt bk) true r.

(** The [tXAW] handling of [aapBank], which does not check the window. *)
Definition aap_tXAW (act_tick : Tick) (r : Rank) : Rank :=
  match actTicks r with
  | [] => r
  | _ =>
      let r := push_act act_tick r in
      match last (actTicks r) with
      | Some back =>
          let new_limit := add64 back (tXAW (tm c)) in
          if negb (back =? 0) && (act_tick <? new_limit) then no_act_before new_limit r else r
      | None => r
      end
  end.

(** [aapBank]; the rows only appear in traces. *)
Definition aapBank (b : Z) (act_tick : Tick) (row1 row2 : Z) (act_overlapped : bool)
    (r : Rank) : res Rank :=
  r ← open_row b DOUBLE_ROW r;
  bk ← get_bank r b;
  let r := on_bank b (set_preAllowedAt
    (add64 (add64 act_tick (tRAS (tm c)))
       (if act_overlapped then tWLOV (tm c) else tWL (tm c)))) r in
  let r := enforce_tRRD (bankgr bk) act_tick r in
  let r := aap_tXAW act_tick r in
  e ← schedule_min now (activateEvent r) act_tick;
  let r := set_activateEvent e r in
  bk ← get_bank r b;
  prechargeBank b (preAllowedAt bk) true r.

End ops.

(** ** Time bounds

    No tick wraps around while the simulation stays [n] command delays away from
    the end of the 64-bit range. *)

Definition span (c : Config) : Z :=
  let t := tm c in
  tCK t + tWTR t + tRTW t + tCS t + tBURST t + tCCD_L t + tRCD t + tCL t + tRP t + tRAS t
  + tWR t + tRTP t + tRFC t + tREFI t + tRRD t + tRRD_L t + tXAW t + tWL t + tWLOV t.

Definition fits (c : Config) (n : Z) (t : Tick) : Prop := 0 ≤ t ∧ t + n * span c < 2 ^ 64.

Record timing_wf (c : Config) : Prop := {
  tw_ck : 0 < tCK (tm c);
  tw_nonneg : 0 ≤ tWTR (tm c) ∧ 0 ≤ tRTW (tm c) ∧ 0 ≤ tCS (tm c) ∧ 0 ≤ tBURST (tm c) ∧
    0 ≤ tCCD_L (tm c) ∧ 0 ≤ tRCD (tm c) ∧ 0 ≤ tCL (tm c) ∧ 0 ≤ tRP (tm c) ∧ 0 ≤ tRAS (tm c) ∧
    0 ≤ tWR (tm c) ∧ 0 ≤ tRTP (tm c) ∧ 0 ≤ tRFC (tm c) ∧ 0 ≤ tREFI (tm c) ∧ 0 ≤ tRRD (tm c) ∧
    0 ≤ tXAW (tm c) ∧ 0 ≤ tWL (tm c) ∧ 0 ≤ tWLOV (tm c);
  tw_rrd : tRRD (tm c) ≤ tRRD_L (tm c);
}.

(** Splits the hypothesis on the timing parameters for [lia]. *)
Ltac timing H := destruct H as [? (?&?&?&?&?&?&?&?&?&?&?&?&?&?&?&?&?) ?].

(** Solves [0 ≤ d ≤ span c] for a sum of timing parameters. *)
Ltac delay :=
  match goal with H : timing_wf ?c |- _ => clear - H; timing H; unfold span; lia end.

Lemma span_pos c : timing_wf c → 0 < span c.
Proof. intros H. timing H. unfold span. lia. Qed.

Lemma fits_le c n t : timing_wf c → 0 ≤ n → fits c (n + 1) t → fits c n t.
Proof. intros Hw ? [? ?]. pose proof (span_pos c Hw). split; [done|]. lia. Qed.

Lemma fits_mono c n m t : timing_wf c → fits c m t → 0 ≤ n ≤ m → fits c n t.
Proof. intros Hw [? ?] ?. pose proof (span_pos c Hw). split; nia. Qed.

(** A command delay uses up one unit of the bound. *)
Lemma fits_add c n t d : 0 ≤ n → fits c (n + 1) t → 0 ≤ d ≤ span c → fits c n (t + d).
Proof. intros ? [? ?] ?. split; lia. Qed.

Lemma fits_add64 c t d : fits c 1 t → 0 ≤ d ≤ span c → add64 t d = t + d.
Proof. intros [? ?] ?. apply add64_small. lia. Qed.

Lemma fits_max c n t u : fits c n t → fits c n u → fits c n (Z.max t u).
Proof. intros [? ?] [? ?]. split; lia. Qed.

Lemma doCommand_ok c ts k b t r :
  timing_wf c → fits c 1 t → ∃ l, doCommand c ts k b t r = Ok (set_cmdList (cmdList r ++ [l]) r).
Proof.
  intros Hw [? ?]. assert (0 ≤ tCK (tm c) ≤ span c) by delay. destruct Hw as [? _ _].
  unfold doCommand. rewrite divCeil_eq by lia. eexists. reflexivity.
Qed.

(** ** Open rows *)

Definition is_open (k : Bank) : Z := if decide (openRow k = NO_ROW) then 0 else 1.
Fixpoint open_count (l : list Bank) : Z :=
  match l with [] => 0 | k :: l => is_open k + open_count l end.

Lemma is_open_range k : 0 ≤ is_open k ≤ 1.
Proof. unfold is_open. case_decide; lia. Qed.

Lemma is_open_0 k : openRow k = NO_ROW → is_open k = 0.
Proof. intros. unfold is_open. by rewrite decide_True. Qed.
Lemma is_open_1 k : openRow k ≠ NO_ROW → is_open k = 1.
Proof. intros. unfold is_open. by rewrite decide_False. Qed.

Lemma open_count_range l : 0 ≤ open_count l ≤ Z.of_nat (length l).
Proof. induction l as [|k l IH]; simpl; [lia|]. pose proof (is_open_range k). lia. Qed.

Lemma open_count_alter f i l k :
  l !! i = Some k → open_count (alter f i l) = open_count l - is_open k + is_open (f k).
Proof.
  revert i. induction l as [|k0 l IH]; intros [|i] Hl; simplify_eq/=; [lia|].
  rewrite IH by done. lia.
Qed.

Lemma open_count_fmap f l :
  (∀ k, openRow (f k) = openRow k) → open_count (f <$> l) = open_count l.
Proof.
  intros Hf. induction l as [|k l IH]; [done|]. rewrite fmap_cons. simpl.
  unfold is_open at 1. rewrite Hf, IH. done.
Qed.

(** A bank that is closed leaves room for another active one. *)
Lemma open_count_closed l i k :
  l !! i = Some k → openRow k = NO_ROW → open_count l < Z.of_nat (length l).
Proof.
  revert i. induction l as [|k0 l IH]; intros [|i] Hl Hk; simplify_eq/=.
  - rewrite is_open_0 by done. pose proof (open_count_range l). lia.
  - pose proof (is_open_range k0). specialize (IH _ Hl Hk). lia.
Qed.

(** ** The invariant of a rank *)

Record rank_ok (c : Config) (r : Rank) : Prop := {
  ro_banks : Z.of_nat (length (banks r)) = banksPerRank c;
  ro_small : banksPerRank c < 2 ^ 32;
  ro_ticks : Z.of_nat (length (actTicks r)) = activationLimit c;
  ro_active : numBanksActive r = open_count (banks r);
  ro_past : ∀ k t, k ∈ banks r → t ∈ actTicks r → 0 ≤ t ≤ actAllowedAt k;
  ro_window : ∀ k back, k ∈ banks r → last (actTicks r) = Some back → back ≠ 0 →
    back + tXAW (tm c) ≤ actAllowedAt k;
}.

(** The invariant as a test that evaluates. *)
Definition rank_okb (c : Config) (r : Rank) : bool :=
  bool_decide (Z.of_nat (length (banks r)) = banksPerRank c ∧ banksPerRank c < 2 ^ 32 ∧
    Z.of_nat (length (actTicks r)) = activationLimit c ∧ numBanksActive r = open_count (banks r) ∧
    Forall (λ k, Forall (λ t, 0 ≤ t ≤ actAllowedAt k) (actTicks r)) (banks r) ∧
    Forall (λ k, Forall (λ back, back = 0 ∨ back + tXAW (tm c) ≤ actAllowedAt k)
      (option_list (last (actTicks r)))) (banks r)).

Lemma rank_ok_check c r : rank_okb c r = true → rank_ok c r.
Proof.
  intros (?&?&?&?&Hp&Hw)%bool_decide_eq_true. split; [done..| |].
  - intros k t Hk Ht. by eapply Forall_forall in Hp; [eapply Forall_forall in Hp|].
  - intros k back Hk Hl Hb. eapply Forall_forall in Hw; [|done]. rewrite Hl in Hw. simpl in Hw.
    apply Forall_cons in Hw as [[?|?] _]; done.
Qed.

Lemma ranks_ok_check c l : forallb (rank_okb c) l = true → Forall (rank_ok c) l.
Proof.
  induction l as [|r l IH]; simpl; [constructor|].
  intros [??]%andb_true_iff. constructor; [by apply rank_ok_check|by apply IH].
Qed.

(** Column bookkeeping keeps the invariant. *)
Lemma rank_ok_on_banks c r f :
  rank_ok c r → (∀ k, openRow (f k) = openRow k ∧ actAllowedAt (f k) = actAllowedAt k) →
  rank_ok c (on_banks f r).
Proof.
  intros [] Hf. split; simpl; [by rewrite length_fmap|done|done| | |].
  - rewrite open_count_fmap; [done|]. intros k. apply Hf.
  - intros k' x (k & -> & Hk)%list_elem_of_fmap. rewrite (proj2 (Hf k)). by apply ro_past0.
  - intros k' back (k & -> & Hk)%list_elem_of_fmap. rewrite (proj2 (Hf k)). by apply ro_window0.
Qed.

Lemma rank_ok_on_bank c r b f :
  rank_ok c r → (∀ k, openRow (f k) = openRow k ∧ actAllowedAt k ≤ actAllowedAt (f k)) →
  rank_ok c (on_bank b f r).
Proof.
  intros [] Hf.
  assert (∀ k', k' ∈ alter f (Z.to_nat b) (banks r) →
    ∃ k, k ∈ banks r ∧ actAllowedAt k ≤ actAllowedAt k') as Hback.
  { intros k' [j Hj]%list_elem_of_lookup_1. rewrite list_lookup_alter in Hj. case_decide.
    - apply fmap_Some in Hj as (k & Hk & ->). exists k. split; [by eapply list_elem_of_lookup_2|apply Hf].
    - exists k'. split; [by eapply list_elem_of_lookup_2|done]. }
  split; simpl; [by rewrite length_alter|done|done| | |].
  - destruct (banks r !! Z.to_nat b) as [k|] eqn:E.
    + rewrite (open_count_alter _ _ _ _ E). unfold is_open. rewrite (proj1 (Hf k)). lia.
    + rewrite (list_alter_ext _ id _ (banks r)) by (done || (intros; congruence)).
      by rewrite list_alter_id.
  - intros k' x (k & Hk & Hle)%Hback Hx. specialize (ro_past0 k x Hk Hx). lia.
  - intros k' back (k & Hk & Hle)%Hback Hl Hb. specialize (ro_window0 k back Hk Hl Hb). lia.
Qed.

Lemma get_bank_ok r b k : 0 ≤ b → banks r !! Z.to_nat b = Some k → get_bank r b = Ok k.
Proof. intros ? Hl. unfold get_bank, at_. by rewrite decide_True, Hl by done. Qed.

Lemma get_bank_inv r b k : get_bank r b = Ok k → 0 ≤ b ∧ banks r !! Z.to_nat b = Some k.
Proof. apply at_Ok_inv. Qed.

Lemma on_bank_lookup b f r k :
  banks r !! Z.to_nat b = Some k → banks (on_bank b f r) !! Z.to_nat b = Some (f k).
Proof. intros H. simpl. by rewrite list_lookup_alter_eq, H. Qed.

(** The members that only the refresh and power state machines change. *)
Definition control (r : Rank) :=
  (pwrStateTrans r, pwrState r, pwrStateTick r, refreshState r, refreshDueAt r, rank r,
   refreshEvent r, powerEvent r, reported r).

(** [k'] is [k] with activates possibly pushed later, but not beyond [u]. *)
Definition later (u : Tick) (k k' : Bank) : Prop :=
  ∃ t, actAllowedAt k ≤ t ≤ Z.max (actAllowedAt k) u ∧ k' = set_actAllowedAt t k.

(** The banks of [r'] are those of [r], bank [b] changed by [f], with activates
    possibly pushed later, up to [u]. *)
Record bank_step (u : Tick) (b : Z) (f : Bank → Bank) (r r' : Rank) : Prop := {
  bs_len : length (banks r') = length (banks r);
  bs_this : ∀ k, banks r !! Z.to_nat b = Some k →
    ∃ k', banks r' !! Z.to_nat b = Some k' ∧ later u (f k) k';
  bs_other : ∀ j k, j ≠ Z.to_nat b → banks r !! j = Some k →
    ∃ k', banks r' !! j = Some k' ∧ later u k k';
  bs_control : control r' = control r;
}.

Lemma later_refl u k : later u k k.
Proof. exists (actAllowedAt k). split; [lia|]. by destruct k. Qed.

Lemma later_trans u k1 k2 k3 : later u k1 k2 → later u k2 k3 → later u k1 k3.
Proof.
  intros (t & ? & ->) (t2 & Ht2 & ->). simpl in Ht2. exists t2. split; [lia|]. by destruct k1.
Qed.

Lemma later_openRow u k k' : later u k k' → openRow k' = openRow k.
Proof. by intros (t & _ & ->). Qed.

Lemma later_act u k k' : later u k k' → actAllowedAt k ≤ actAllowedAt k'.
Proof. intros (t & ? & ->). simpl. lia. Qed.

(** Pushing activates later on all banks. *)
Lemma bank_step_on_banks u b f r r' (g : Bank → Z) :
  bank_step u b f r r' → (∀ k, actAllowedAt k ≤ g k ≤ Z.max (actAllowedAt k) u) →
  bank_step u b f r (on_banks (λ k, set_actAllowedAt (g k) k) r').
Proof.
  intros [Hl Ht Ho Hc] Hg. split; simpl; [by rewrite length_fmap| | |done].
  - intros k Hk. destruct (Ht k Hk) as (k' & Hk' & Hlt).
    rewrite list_lookup_fmap, Hk'. eexists. split; [done|].
    eapply later_trans; [done|]. exists (g k'). by split.
  - intros j k Hj Hk. destruct (Ho j k Hj Hk) as (k' & Hk' & Hlt).
    rewrite list_lookup_fmap, Hk'. eexists. split; [done|].
    eapply later_trans; [done|]. exists (g k'). by split.
Qed.

Lemma bank_step_on_bank u b f r : bank_step u b f r (on_bank b f r).
Proof.
  split; simpl; [by rewrite length_alter| | |done].
  - intros k Hk. exists (f k). rewrite list_lookup_alter_eq, Hk. split; [done|apply later_refl].
  - intros j k Hj Hk. exists k. rewrite list_lookup_alter_ne, Hk by done.
    split; [done|apply later_refl].
Qed.

(** The members [bank_step] does not look at may change freely. *)
Lemma bank_step_ext u b f r r1 r2 :
  bank_step u b f r r1 → banks r2 = banks r1 → control r2 = control r1 → bank_step u b f r r2.
Proof. intros [] Hb Hc. split; rewrite ?Hb, ?Hc; done. Qed.

(** The bank behind a bank of [r'], whose activate is no later. *)
Lemma bank_step_back u b f r r' j k' :
  bank_step u b f r r' → (∀ k, actAllowedAt k ≤ actAllowedAt (f k)) → banks r' !! j = Some k' →
  ∃ k, banks r !! j = Some k ∧ actAllowedAt k ≤ actAllowedAt k'.
Proof.
  intros [Hl Ht Ho _] Hf Hk'.
  destruct (lookup_lt_is_Some_2 (banks r) j) as [k Hk];
    [rewrite <- Hl; by eapply lookup_lt_Some|]. exists k. split; [done|].
  destruct (decide (j = Z.to_nat b)) as [->|].
  - destruct (Ht k Hk) as (k1 & ? & Hlt). simplify_eq. apply later_act in Hlt. specialize (Hf k). lia.
  - destruct (Ho j k) as (k1 & ? & Hlt); [done..|]. simplify_eq. by eapply later_act.
Qed.

(** How the number of open rows changes. *)
Lemma bank_step_count u b f r r' k :
  bank_step u b f r r' → banks r !! Z.to_nat b = Some k →
  open_count (banks r') = open_count (banks r) - is_open k + is_open (f k).
Proof.
  intros [Hl Ht Ho _] Hk.
  assert (∃ l, banks r' = l ∧ Forall2 (later u) (alter f (Z.to_nat b) (banks r)) l) as (l & -> & Hf).
  { eexists. split; [done|]. apply Forall2_same_length_lookup_2; [by rewrite length_alter, Hl|].
    intros j x y Hx Hy. destruct (decide (j = Z.to_nat b)) as [->|].
    - rewrite list_lookup_alter_eq, Hk in Hx. simplify_eq/=.
      destruct (Ht k Hk) as (k' & ? & ?). by simplify_eq.
    - rewrite list_lookup_alter_ne in Hx by done.
      destruct (Ho j x) as (k' & ? & ?); [done..|]. by simplify_eq. }
  rewrite <- (open_count_alter f _ _ _ Hk).
  induction Hf as [|x y l1 l2 Hxy _ IH]; [done|]. simpl. rewrite IH.
  unfold is_open. by rewrite (later_openRow _ _ _ Hxy).
Qed.

(** ** The activation window *)

Lemma on_banks_id r : on_banks (λ k, set_actAllowedAt (actAllowedAt k) k) r = r.
Proof.
  unfold on_banks. rewrite (list_fmap_ext _ id) by (by intros i []). rewrite list_fmap_id. by destruct r.
Qed.

Lemma last_push (t back : Tick) l : last (t :: removelast l) = Some back → back = t ∨ back ∈ l.
Proof.
  intros H%last_Some_elem_of. apply elem_of_cons in H as [->|H]; [by left|]. right.
  destruct l as [|x l] using rev_ind; [done|]. rewrite removelast_last in H. set_solver.
Qed.

Lemma elem_push (t x : Tick) l : x ∈ t :: removelast l → x = t ∨ x ∈ l.
Proof.
  intros [->|H]%elem_of_cons; [by left|]. right.
  destruct l as [|y l] using rev_ind; [done|]. rewrite removelast_last in H. set_solver.
Qed.

Lemma length_push (t : Tick) l : l ≠ [] → length (t :: removelast l) = length l.
Proof.
  destruct l as [|y l] using rev_ind; [done|]. intros _. rewrite removelast_last. simpl.
  rewrite length_app. simpl. lia.
Qed.

Lemma actTicks_set l r : actTicks (set_actTicks l r) = l.
Proof. done. Qed.

(** The window after an activation at [t]. *)
Definition push_ticks (t : Tick) (l : list Tick) : list Tick :=
  match l with [] => [] | _ => t :: removelast l end.

(** What recording an activation at [t] does. *)
Record window_post (c : Config) (t : Tick) (r r' : Rank) : Prop := {
  wp_banks : ∃ g, (∀ k, actAllowedAt k ≤ g k ≤ Z.max (actAllowedAt k) (t + tXAW (tm c))) ∧
    r' = on_banks (λ k, set_actAllowedAt (g k) k) (set_actTicks (actTicks r') r);
  wp_ticks : actTicks r' = push_ticks t (actTicks r);
  wp_window : ∀ k back, k ∈ banks r' → last (actTicks r') = Some back → back ≠ 0 →
    back + tXAW (tm c) ≤ actAllowedAt k;
}.

Lemma aap_tXAW_ok c t r :
  timing_wf c → fits c 1 t → (∀ x, x ∈ actTicks r → 0 ≤ x ≤ t) →
  (∀ k, k ∈ banks r → t ≤ actAllowedAt k) → window_post c t r (aap_tXAW c t r).
Proof.
  intros Hw Ht Hp Hb. unfold aap_tXAW. destruct (actTicks r) as [|t0 l] eqn:El.
  { split; rewrite ?El; [|done|done]. exists actAllowedAt. split; [lia|].
    rewrite on_banks_id, <- El. by destruct r. }
  assert (set_actTicks (t :: removelast (t0 :: l)) r = push_act t r) as Hpush
    by (unfold push_act; by rewrite El).
  cbv zeta. rewrite <- Hpush, actTicks_set.
  destruct (last (t :: removelast (t0 :: l))) as [back|] eqn:Eb; [|by apply last_None in Eb].
  assert (0 ≤ back ≤ t) as Hback.
  { destruct (last_push _ _ _ Eb) as [->|?]; [destruct Ht; lia|by apply Hp]. }
  assert (0 ≤ tXAW (tm c) ≤ span c) by delay.
  rewrite (fits_add64 c) by (destruct Ht; first [split; lia|lia]).
  destruct (negb (back =? 0) && (t <? back + tXAW (tm c))) eqn:E.
  - split; [|by rewrite El|].
    + exists (λ k, Z.max (back + tXAW (tm c)) (actAllowedAt k)). split; [lia|done].
    + intros k b Hk Hb' _. change (last (t :: removelast (t0 :: l)) = Some b) in Hb'.
      rewrite Eb in Hb'. injection Hb' as <-. simpl in Hk.
      apply list_elem_of_fmap in Hk as (k0 & -> & _). simpl. lia.
  - split; [|by rewrite El|].
    + exists actAllowedAt. split; [lia|]. by rewrite on_banks_id.
    + intros k b Hk Hb' Hne. change (last (t :: removelast (t0 :: l)) = Some b) in Hb'.
      rewrite Eb in Hb'. injection Hb' as <-. simpl in Hk.
      specialize (Hb k Hk). apply andb_false_iff in E as [E|E].
      * apply negb_false_iff, Z.eqb_eq in E. done.
      * apply Z.ltb_ge in E. lia.
Qed.

(** Under the invariant the check of [activateBank] never fires, and then it
    does the same as [aapBank]. *)
Lemma enforce_tXAW_ok c t r :
  timing_wf c → fits c 1 t → (∀ x, x ∈ actTicks r → 0 ≤ x ≤ t) →
  (∀ back, last (actTicks r) = Some back → back ≠ 0 → back + tXAW (tm c) ≤ t) →
  enforce_tXAW c t r = Ok (aap_tXAW c t r).
Proof.
  intros Hw Ht Hp Hwin. pose proof (span_pos c Hw). unfold enforce_tXAW, aap_tXAW.
  destruct (actTicks r) as [|t0 l] eqn:El; [done|].
  assert (in_window c t r = false) as ->.
  { unfold in_window. rewrite El. destruct (last (t0 :: l)) as [back|] eqn:E; [|done].
    assert (0 ≤ back ≤ t) by (by apply Hp, last_Some_elem_of).
    apply andb_false_iff. destruct (decide (back = 0)) as [->|Hne]; [by left|right].
    specialize (Hwin _ eq_refl Hne). apply Z.ltb_ge. destruct Ht.
    rewrite sub64_small by lia. lia. }
  cbv [panic_if check mbind res_mbind negb]. cbv zeta.
  unfold in_window, push_act. rewrite actTicks_set, El.
  destruct (last (t :: removelast (t0 :: l))) as [back|] eqn:Eb; [|done].
  assert (0 ≤ back ≤ t) as Hback.
  { destruct (last_push _ _ _ Eb) as [->|?]; [destruct Ht; lia|by apply Hp]. }
  assert (0 ≤ tXAW (tm c) ≤ span c) by delay. destruct Ht.
  rewrite sub64_small, add64_small by lia.
  assert ((t - back <? tXAW (tm c)) = (t <? back + tXAW (tm c))) as ->.
  { apply eq_true_iff_eq. rewrite !Z.ltb_lt. lia. }
  done.
Qed.

(** ** Activations *)

Definition opened_bank (row : Z) (k : Bank) : Bank :=
  set_rowAccesses 0 (set_bytesAccessed 0 (set_openRow row k)).
Definition act_bank (c : Config) (t : Tick) (row : Z) (k : Bank) : Bank :=
  set_colAllowedAt (Z.max (t + tRCD (tm c)) (colAllowedAt k))
    (set_preAllowedAt (t + tRAS (tm c)) (opened_bank row k)).

Definition rrd (c : Config) (bgr : Z) (k : Bank) : Tick :=
  if bankGroupArch c && (bgr =? bankgr k) then tRRD_L (tm c) else tRRD (tm c).

Lemma open_row_ok c b row r k :
  rank_ok c r → 0 ≤ b → banks r !! Z.to_nat b = Some k → openRow k = NO_ROW →
  open_row c b row r =
    Ok (set_numBanksActive (numBanksActive r + 1) (on_bank b (opened_bank row) r)).
Proof.
  intros [] Hb Hk Ho. pose proof (open_count_closed _ _ _ Hk Ho).
  pose proof (open_count_range (banks r)). unfold open_row.
  rewrite (get_bank_ok r b k) by done. cbv [mbind res_mbind]. rewrite Ho, Z.eqb_refl.
  simpl check. simpl numBanksActive. rewrite wrap_small by lia.
  by rewrite (proj2 (Z.leb_le _ _)) by lia.
Qed.

(** The constraints an activation at [t] puts on later ones. *)
Definition spaced (c : Config) (bgr : Z) (t : Tick) (r' : Rank) : Prop :=
  ∀ k', k' ∈ banks r' → t + rrd c bgr k' ≤ actAllowedAt k'.

Section activation.
Context (c : Config) (b : Z) (t : Tick) (r : Rank) (k : Bank) (F : Bank → Bank).
Hypothesis Hw : timing_wf c.
Hypothesis Hr : rank_ok c r.
Hypothesis Hb : 0 ≤ b.
Hypothesis Hk : banks r !! Z.to_nat b = Some k.
Hypothesis Hclosed : openRow k = NO_ROW.
Hypothesis Hallowed : actAllowedAt k ≤ t.
Hypothesis Ht : fits c 1 t.
Hypothesis HF : ∀ k, actAllowedAt (F k) = actAllowedAt k ∧ openRow (F k) ≠ NO_ROW ∧
  bankgr (F k) = bankgr k.

Lemma ticks_past x : x ∈ actTicks r → 0 ≤ x ≤ t.
Proof.
  intros Hx. assert (k ∈ banks r) as Hin by (by eapply list_elem_of_lookup_2).
  pose proof (ro_past _ _ Hr k x Hin Hx). lia.
Qed.

Lemma act_rrd_bounds k' : 0 ≤ rrd c (bankgr k) k' ≤ span c.
Proof. unfold rrd. destruct (_ && _); delay. Qed.

Lemma enforce_tRRD_eq r3 :
  enforce_tRRD c (bankgr k) t r3 =
    on_banks (λ k', set_actAllowedAt (Z.max (t + rrd c (bankgr k) k') (actAllowedAt k')) k') r3.
Proof.
  unfold enforce_tRRD, on_banks. f_equal. apply list_fmap_ext. intros i k' _. f_equal. f_equal.
  apply (fits_add64 c); [done|]. apply act_rrd_bounds.
Qed.

(** No constraint of this activation reaches beyond this tick. *)
Definition act_limit : Tick := t + Z.max (tRRD_L (tm c)) (tXAW (tm c)).

(** The [tRRD] and [tXAW] bookkeeping after the bank itself has been changed. *)
Lemma act_core r3 :
  bank_step act_limit b F r r3 → actTicks r3 = actTicks r → numBanksActive r3 = numBanksActive r + 1 →
  let r5 := aap_tXAW c t (enforce_tRRD c (bankgr k) t r3) in
  bank_step act_limit b F r r5 ∧ rank_ok c r5 ∧ spaced c (bankgr k) t r5 ∧
  activateEvent r5 = activateEvent r3 ∧ prechargeEvent r5 = prechargeEvent r3 ∧
  actTicks r5 = push_ticks t (actTicks r).
Proof.
  intros Hs Htk Hn r5. subst r5.
  set (g1 := λ k', Z.max (t + rrd c (bankgr k) k') (actAllowedAt k')).
  set (r4 := on_banks (λ k', set_actAllowedAt (g1 k') k') r3).
  assert (enforce_tRRD c (bankgr k) t r3 = r4) as -> by apply enforce_tRRD_eq.
  assert (bank_step act_limit b F r r4) as Hs4.
  { apply bank_step_on_banks; [done|]. intros k0. unfold g1, act_limit, rrd.
    destruct Hw as [_ _ ?]. destruct (_ && _); lia. }
  assert (∀ k', k' ∈ banks r4 → t + rrd c (bankgr k) k' ≤ actAllowedAt k') as Hsp4.
  { intros k' (k0 & -> & _)%list_elem_of_fmap. unfold g1, rrd. simpl. lia. }
  destruct (aap_tXAW_ok c t r4) as [(g & Hg & Heq) Htick Hwin]; [done|done| | |].
  { simpl. rewrite Htk. apply ticks_past. }
  { intros k' Hk'. specialize (Hsp4 _ Hk'). pose proof (act_rrd_bounds k'). lia. }
  simpl in Htick. rewrite Htk in Htick.
  set (r5 := aap_tXAW c t r4) in *.
  assert (bank_step act_limit b F r r5) as Hs5.
  { rewrite Heq. apply bank_step_on_banks; [by eapply bank_step_ext|]. intros k0.
    specialize (Hg k0). unfold act_limit. lia. }
  assert (spaced c (bankgr k) t r5) as Hsp5.
  { intros k' Hk'. rewrite Heq in Hk'. simpl in Hk'. apply list_elem_of_fmap in Hk' as (k0 & -> & Hk0).
    simpl. specialize (Hsp4 _ Hk0). specialize (Hg k0). unfold rrd in *. simpl. lia. }
  split_and!; [done| |done|by rewrite Heq|by rewrite Heq|done]. destruct Hr. split.
  - by rewrite (bs_len _ _ _ _ _ Hs5).
  - done.
  - rewrite Htick. unfold push_ticks. destruct (actTicks r) eqn:E; [done|]. by rewrite length_push.
  - rewrite (bank_step_count _ _ _ _ _ _ Hs5 Hk). assert (numBanksActive r5 = numBanksActive r + 1) as ->
      by (rewrite Heq; by rewrite <- Hn).
    rewrite (is_open_0 k), is_open_1 by (done || apply HF). lia.
  - intros k' x Hk' Hx. specialize (Hsp5 _ Hk'). pose proof (act_rrd_bounds k').
    rewrite Htick in Hx. unfold push_ticks in Hx. destruct (actTicks r) as [|t0 l] eqn:E; [by apply elem_of_nil in Hx|].
    apply elem_push in Hx as [->|Hx]; [destruct Ht; lia|].
    assert (0 ≤ x ≤ t) by (apply ticks_past; by rewrite E). lia.
  - apply Hwin.
Qed.

End activation.

Lemma act_bank_props c t row k :
  row ≠ NO_ROW → actAllowedAt (act_bank c t row k) = actAllowedAt k ∧
    openRow (act_bank c t row k) ≠ NO_ROW ∧ bankgr (act_bank c t row k) = bankgr k.
Proof. done. Qed.

(** [activateBank] at a tick the bank allows never fails. *)
Lemma activateBank_ok c ts now b t row r k :
  timing_wf c → rank_ok c r → 0 ≤ b → banks r !! Z.to_nat b = Some k → openRow k = NO_ROW →
  row ≠ NO_ROW → actAllowedAt k ≤ t → now ≤ t → fits c 1 t →
  ∃ r', activateBank c ts now b t row r = Ok r' ∧ rank_ok c r' ∧
    bank_step (act_limit c t) b (act_bank c t row) r r' ∧ spaced c (bankgr k) t r' ∧
    prechargeEvent r' = prechargeEvent r ∧
    actTicks r' = push_ticks t (actTicks r).
Proof.
  intros Hw Hr Hb Hk Ho Hrow Hal Hnow Ht. unfold activateBank.
  rewrite (ro_ticks _ _ Hr), Z.eqb_refl. cbv [check mbind res_mbind].
  rewrite (open_row_ok c b row r k) by done.
  rewrite (get_bank_ok _ b (opened_bank row k)) by (try done; by apply on_bank_lookup).
  destruct (doCommand_ok c ts ACT (bank (opened_bank row k)) t
    (set_numBanksActive (numBanksActive r + 1) (on_bank b (opened_bank row) r))) as [l ->]; [done..|].
  set (r2 := set_cmdList _ _).
  rewrite !(fits_add64 c) by (done || delay).
  set (f2 := λ k, set_colAllowedAt (Z.max (t + tRCD (tm c)) (colAllowedAt k))
                    (set_preAllowedAt (t + tRAS (tm c)) k)).
  destruct (act_core c b t r k (act_bank c t row) Hw Hr Hk Ho Hal Ht) with (r3 := on_bank b f2 r2)
    as (Hs & Hok & Hsp & Hea & Hep & Hti); [by intros; apply act_bank_props| |done|done|].
  { eapply bank_step_ext; [apply bank_step_on_bank| |done]. simpl. by rewrite list_alter_alter_eq. }
  rewrite enforce_tXAW_ok; [|done|done| |].
  - set (r5 := aap_tXAW _ _ _) in *.
    destruct (schedule_min_ok now (activateEvent r5) t) as (e & -> & _ & _); [done|].
    eexists. split; [reflexivity|]. split_and!; [by destruct Hok|by eapply bank_step_ext|done|done|done].
  - simpl. by eapply ticks_past.
  - simpl. intros back Hl Hne. assert (k ∈ banks r) as Hin by (by eapply list_elem_of_lookup_2).
    pose proof (ro_window _ _ Hr k back Hin Hl Hne). lia.
Qed.

Definition pre_bank (c : Config) (t : Tick) (k : Bank) : Bank :=
  set_actAllowedAt (Z.max (actAllowedAt k) (t + tRP (tm c)))
    (set_preAllowedAt t (set_openRow NO_ROW k)).

Lemma pre_bank_elem c t i (l : list Bank) k' :
  k' ∈ alter (pre_bank c t) i l → ∃ k, k ∈ l ∧ actAllowedAt k ≤ actAllowedAt k'.
Proof.
  intros [j Hj]%list_elem_of_lookup_1. rewrite list_lookup_alter in Hj. case_decide.
  - apply fmap_Some in Hj as (k & Hk & ->). exists k.
    split; [by eapply list_elem_of_lookup_2|unfold pre_bank; simpl; lia].
  - exists k'. split; [by eapply list_elem_of_lookup_2|done].
Qed.

Lemma prechargeBank_ok c ts now b t trace r k :
  timing_wf c → rank_ok c r → 0 ≤ b → banks r !! Z.to_nat b = Some k → openRow k ≠ NO_ROW →
  now ≤ t + tRP (tm c) → fits c 1 t →
  ∃ r', prechargeBank c ts now b t trace r = Ok r' ∧ rank_ok c r' ∧
    banks r' = alter (pre_bank c t) (Z.to_nat b) (banks r) ∧ control r' = control r ∧
    activateEvent r' = activateEvent r ∧ actTicks r' = actTicks r ∧
    ∃ e, prechargeEvent r' = Some e ∧ t + tRP (tm c) ≤ e ∧ (∀ e0, prechargeEvent r = Some e0 → e0 ≤ e).
Proof.
  intros Hw Hr Hb Hk Ho Hnow Ht. unfold prechargeBank. rewrite (get_bank_ok r b k) by done.
  cbv [mbind res_mbind]. rewrite (proj2 (Z.eqb_neq _ _) Ho). simpl check.
  rewrite (fits_add64 c) by (done || delay).
  assert (numBanksActive r ≠ 0) as Hn.
  { rewrite (ro_active _ _ Hr). pose proof (open_count_alter (λ k, set_openRow NO_ROW k) _ _ _ Hk) as E.
    pose proof (open_count_range (alter (λ k, set_openRow NO_ROW k) (Z.to_nat b) (banks r))).
    rewrite (is_open_1 k), is_open_0 in E by done. lia. }
  simpl numBanksActive. rewrite (proj2 (Z.eqb_neq _ _) Hn). simpl check.
  set (r1 := set_numBanksActive _ _).
  assert (rank_ok c r1) as Hr1.
  { destruct Hr. split; simpl; [by rewrite length_alter|done|done| | |].
    - rewrite (open_count_alter _ _ _ _ Hk), (is_open_1 k), is_open_0 by done. lia.
    - intros k' x (k0 & Hk0 & Hle)%(pre_bank_elem c t) Hx. specialize (ro_past0 _ _ Hk0 Hx). lia.
    - intros k' back (k0 & Hk0 & Hle)%(pre_bank_elem c t) Hl Hne.
      specialize (ro_window0 _ _ Hk0 Hl Hne). lia. }
  assert (∃ l, (if trace then doCommand c ts PRE (bank k) t r1 else mret r1)
               = Ok (set_cmdList l r1)) as [l ->].
  { destruct trace; [|exists (cmdList r1); by destruct r1].
    destruct (doCommand_ok c ts PRE (bank k) t r1 Hw Ht) as [l ->]. by eexists. }
  simpl prechargeEvent.
  destruct (schedule_max_ok now (prechargeEvent r) (t + tRP (tm c))) as (e & -> & He & Hm); [done|].
  eexists. split; [reflexivity|]. split; [by destruct Hr1|]. split_and!; [done..|].
  exists e. split_and!; [done|done|]. intros e0 E. rewrite E in Hm. lia.
Qed.

(** ** The row-operation primitives *)

Lemma spaced_tRRD c bgr t r k :
  timing_wf c → spaced c bgr t r → k ∈ banks r → t + tRRD (tm c) ≤ actAllowedAt k.
Proof.
  intros [_ _ ?] Hs Hk. specialize (Hs k Hk). unfold rrd in Hs. destruct (_ && _); lia.
Qed.

(** One activate-(activate-)precharge on bank [b], issued at [t] and occupying
    the bank for [d] ticks. *)
Record prim_post (c : Config) (b : Z) (t d : Tick) (r r' : Rank) : Prop := {
  pp_ok : rank_ok c r';
  pp_control : control r' = control r;
  pp_this : ∀ k, banks r !! Z.to_nat b = Some k → ∃ k', banks r' !! Z.to_nat b = Some k' ∧
    openRow k' = NO_ROW ∧ preAllowedAt k' = t + d - tRP (tm c) ∧ bankgr k' = bankgr k ∧
    colAllowedAt k ≤ colAllowedAt k' ≤ Z.max (colAllowedAt k) (t + tRCD (tm c)) ∧
    Z.max (actAllowedAt k) (t + d) ≤ actAllowedAt k'
      ≤ Z.max (actAllowedAt k) (Z.max (act_limit c t) (t + d));
  pp_other : ∀ j k, j ≠ Z.to_nat b → banks r !! j = Some k →
    ∃ k', banks r' !! j = Some k' ∧ later (act_limit c t) k k';
  pp_spaced : ∀ k', k' ∈ banks r' → t + tRRD (tm c) ≤ actAllowedAt k';
  pp_ticks : actTicks r' = push_ticks t (actTicks r);
}.

Definition ap_time (c : Config) : Tick := tRAS (tm c) + tRP (tm c).
Definition aap_time (c : Config) : Tick := tRAS (tm c) + tWLOV (tm c) + tRP (tm c).

(** Closing the bank an activation has opened. *)
Lemma prim_close c ts now b t d F r r1 k k1 :
  timing_wf c → rank_ok c r1 → bank_step (act_limit c t) b F r r1 →
  spaced c (bankgr k) t r1 → actTicks r1 = push_ticks t (actTicks r) → 0 ≤ b →
  banks r !! Z.to_nat b = Some k → banks r1 !! Z.to_nat b = Some k1 →
  openRow (F k) ≠ NO_ROW → actAllowedAt (F k) = actAllowedAt k → bankgr (F k) = bankgr k →
  preAllowedAt (F k) = t + d - tRP (tm c) → tRP (tm c) ≤ d →
  colAllowedAt k ≤ colAllowedAt (F k) ≤ Z.max (colAllowedAt k) (t + tRCD (tm c)) →
  now ≤ t → fits c 1 (t + d - tRP (tm c)) →
  ∃ r', prechargeBank c ts now b (preAllowedAt k1) true r1 = Ok r' ∧ prim_post c b t d r r'.
Proof.
  intros Hw Hr1 [Hl Ht Hoth Hc] Hsp Htk Hb Hk Hk1 Ho Hact Hgr Hpre Hd Hcol Hnow Hfit.
  assert (0 ≤ tRP (tm c)) by (destruct Hw as [_ Hn _]; lia).
  destruct (Ht k Hk) as (k2 & Hk2 & u & Hu & ->). rewrite Hk1 in Hk2. injection Hk2 as ->.
  simpl preAllowedAt. rewrite Hpre.
  destruct (prechargeBank_ok c ts now b (t + d - tRP (tm c)) true r1 _ Hw Hr1 Hb Hk1)
    as (r' & Hpc & Hok & Hbk & Hct & _ & Htk' & _); [done|lia|done|].
  exists r'. split; [done|]. split; [done|by rewrite Hct| | | |by rewrite Htk'].
  - intros k0 Hk0. rewrite Hk in Hk0. injection Hk0 as <-.
    exists (pre_bank c (t + d - tRP (tm c)) (set_actAllowedAt u (F k))).
    rewrite Hbk, list_lookup_alter_eq, Hk1. unfold pre_bank. simpl.
    split_and!; [done|done|done|done|lia..].
  - intros j k0 Hj Hk0. rewrite Hbk, list_lookup_alter_ne by done. by apply Hoth.
  - rewrite Hbk. intros k' (k0 & Hk0 & Hle)%pre_bank_elem.
    pose proof (spaced_tRRD _ _ _ _ _ Hw Hsp Hk0). lia.
Qed.

Section prims.
Context (c : Config) (ts : Z) (now : Tick) (b : Z) (t : Tick) (r : Rank) (k : Bank).
Hypothesis Hw : timing_wf c.
Hypothesis Hr : rank_ok c r.
Hypothesis Hb : 0 ≤ b.
Hypothesis Hk : banks r !! Z.to_nat b = Some k.
Hypothesis Hclosed : openRow k = NO_ROW.
Hypothesis Hallowed : actAllowedAt k ≤ t.
Hypothesis Hnow : now ≤ t.
Hypothesis Hfit : fits c 2 t.

Lemma fit1 d : 0 ≤ d ≤ span c → fits c 1 (t + d).
Proof. by apply (fits_add c 1). Qed.

Lemma fit0 : fits c 1 t.
Proof. by apply fits_le. Qed.

Lemma apBank_ok row :
  row ≠ NO_ROW → ∃ r', apBank c ts now b t row r = Ok r' ∧ prim_post c b t (ap_time c) r r'.
Proof.
  intros Hrow. unfold apBank.
  destruct (activateBank_ok c ts now b t row r k) as (r1 & -> & Hok & Hs & Hsp & _ & Htk);
    [done..|apply fit0|]. cbv [mbind res_mbind].
  destruct (bs_this _ _ _ _ _ Hs k Hk) as (k1 & Hk1 & _).
  rewrite (get_bank_ok r1 b k1) by done.
  eapply prim_close; [done..|done|done| | | |done|].
  - unfold act_bank. simpl. unfold ap_time. lia.
  - unfold ap_time. destruct Hw as [_ Hn _]. lia.
  - unfold act_bank. simpl. lia.
  - unfold ap_time. rewrite Z.add_assoc, Z.add_simpl_r. apply fit1. delay.
Qed.

Lemma aapBank_ok row1 row2 :
  ∃ r', aapBank c ts now b t row1 row2 true r = Ok r' ∧ prim_post c b t (aap_time c) r r'.
Proof.
  unfold aapBank. rewrite (open_row_ok c b DOUBLE_ROW r k) by done. cbv [mbind res_mbind].
  rewrite (get_bank_ok _ b (opened_bank DOUBLE_ROW k)) by (try done; by apply on_bank_lookup).
  rewrite (fits_add64 c t) by (apply fit0 || delay).
  rewrite (fits_add64 c (t + _)) by (first [apply fit1; delay|delay]).
  set (r1 := set_numBanksActive _ _).
  set (F := λ k, set_preAllowedAt (t + tRAS (tm c) + tWLOV (tm c)) (opened_bank DOUBLE_ROW k)).
  destruct (act_core c b t r k F Hw Hr Hk Hclosed Hallowed fit0) with
    (r3 := on_bank b (set_preAllowedAt (t + tRAS (tm c) + tWLOV (tm c))) r1)
    as (Hs & Hok & Hsp & _ & _ & Htk); [by intros| |done|done|].
  { eapply bank_step_ext; [apply bank_step_on_bank| |done]. simpl. by rewrite list_alter_alter_eq. }
  simpl bankgr. set (r5 := aap_tXAW _ _ _) in *.
  destruct (schedule_min_ok now (activateEvent r5) t) as (e & -> & _ & _); [done|].
  destruct (bs_this _ _ _ _ _ Hs k Hk) as (k1 & Hk1 & _).
  rewrite (get_bank_ok _ b k1) by done.
  eapply (prim_close c ts now b t (aap_time c) F);
    [done|by destruct Hok|by eapply bank_step_ext|done|done|done|done|done|done|done|done| | | |done|].
  - unfold F. simpl. unfold aap_time. lia.
  - unfold aap_time. destruct Hw as [_ Hn _]. lia.
  - unfold F. simpl. lia.
  - unfold aap_time. rewrite !Z.add_assoc, Z.add_simpl_r, <- Z.add_assoc. apply fit1. delay.
Qed.

End prims.

(** ** Activation histories

    The commands a rank receives, with the ticks of its activations, the latest
    first. *)

Inductive rank_step (c : Config) : Rank * list Tick → Rank * list Tick → Prop :=
  | rs_activate ts now b t row r r' k h :
      get_bank r b = Ok k → openRow k = NO_ROW → row ≠ NO_ROW → actAllowedAt k ≤ t →
      now ≤ t → 0 < t → fits c 2 t →
      activateBank c ts now b t row r = Ok r' → rank_step c (r, h) (r', t :: h)
  | rs_aap ts now b t row1 row2 r r' k h :
      get_bank r b = Ok k → openRow k = NO_ROW → actAllowedAt k ≤ t →
      now ≤ t → 0 < t → fits c 2 t →
      aapBank c ts now b t row1 row2 true r = Ok r' → rank_step c (r, h) (r', t :: h)
  | rs_precharge ts now b t trace r r' k h :
      get_bank r b = Ok k → openRow k ≠ NO_ROW → now ≤ t + tRP (tm c) → fits c 1 t →
      prechargeBank c ts now b t trace r = Ok r' → rank_step c (r, h) (r', h)
  | rs_column f r h :
      (∀ k, openRow (f k) = openRow k ∧ actAllowedAt (f k) = actAllowedAt k) →
      rank_step c (r, h) (on_banks f r, h).

Definition reachable (c : Config) (i : Z) : Rank * list Tick → Prop :=
  rtc (rank_step c) (new_Rank c i, []).

(** Consecutive activations are [tRRD] apart, and any [activationLimit + 1] of
    them span at least [tXAW]. *)
Definition history_ok (c : Config) (h : list Tick) : Prop :=
  (∀ i x y, h !! i = Some x → h !! S i = Some y → y + tRRD (tm c) ≤ x) ∧
  (∀ i x y, 0 < activationLimit c → h !! i = Some x →
     h !! (i + Z.to_nat (activationLimit c))%nat = Some y → y + tXAW (tm c) ≤ x).

Record hist_inv (c : Config) (s : Rank * list Tick) : Prop := {
  hi_rank : rank_ok c s.1;
  hi_pos : Forall (λ t, 0 < t) s.2;
  hi_ticks : actTicks s.1 = take (Z.to_nat (activationLimit c))
               (s.2 ++ replicate (Z.to_nat (activationLimit c)) 0);
  hi_spaced : ∀ k t, k ∈ banks s.1 → t ∈ s.2 → t + tRRD (tm c) ≤ actAllowedAt k;
  hi_history : history_ok c s.2;
}.

Lemma removelast_take {A} n (l : list A) :
  (S n ≤ length l)%nat → removelast (take (S n) l) = take n l.
Proof.
  revert l. induction n as [|n IH]; intros [|x l] H; simpl in *; [lia|done|lia|].
  destruct l as [|y l]; [simpl in H; lia|]. rewrite <- (IH (y :: l)) by (simpl in *; lia). done.
Qed.

Lemma push_take (t : Tick) n h :
  push_ticks t (take n (h ++ replicate n 0)) = take n ((t :: h) ++ replicate n 0).
Proof.
  unfold push_ticks. destruct n as [|n]; [done|]. rewrite removelast_take by (rewrite length_app, length_replicate; lia).
  destruct (take (S n) (h ++ replicate (S n) 0)) eqn:E.
  - apply (f_equal length) in E. rewrite length_take, length_app, length_replicate in E. cbn [length] in E. lia.
  - done.
Qed.

(** The tick that leaves the window is the one [activationLimit] activations ago. *)
Lemma last_window n (h : list Tick) y :
  (0 < n)%nat → h !! (n - 1)%nat = Some y → last (take n (h ++ replicate n 0)) = Some y.
Proof.
  intros Hn Hy. pose proof (lookup_lt_Some _ _ _ Hy). rewrite take_app_le by lia.
  rewrite last_lookup, length_take. replace (pred (n `min` length h)) with (n - 1)%nat by lia.
  by rewrite lookup_take_lt by lia.
Qed.

Lemma hist_inv_new c i :
  0 < banksPerRank c < 2 ^ 32 → 0 ≤ activationLimit c → hist_inv c (new_Rank c i, []).
Proof.
  intros Hb Ha. split; simpl; [|constructor| |by intros ?? _ []%elem_of_nil|by split].
  - split; simpl.
    + rewrite length_fmap, length_seqZ. lia.
    + lia.
    + rewrite length_replicate. lia.
    + generalize (seqZ 0 (banksPerRank c)). intros l. induction l as [|x l IH]; [done|].
      rewrite fmap_cons. simpl. rewrite is_open_0, <- IH by done. done.
    + intros k t (b & -> & _)%list_elem_of_fmap [-> _]%elem_of_replicate. simpl. lia.
    + intros k back _ Hl Hne. apply last_Some_elem_of, elem_of_replicate in Hl as [-> _]. done.
  - by rewrite take_ge by (by rewrite length_replicate).
Qed.

(** An activation at an allowed tick keeps the invariant of the history. *)
Lemma hist_inv_push c r r' k t h :
  timing_wf c → hist_inv c (r, h) → k ∈ banks r → actAllowedAt k ≤ t → 0 < t → rank_ok c r' →
  (∀ k', k' ∈ banks r' → t + tRRD (tm c) ≤ actAllowedAt k') →
  actTicks r' = push_ticks t (actTicks r) →
  hist_inv c (r', t :: h).
Proof.
  intros Hw [Hr Hp Htk Hs [H1 H2]] Hk Hal Hpos Hr' Hsp' Htk'. simpl in *.
  assert (0 ≤ tRRD (tm c)) by (destruct Hw as [_ Hn _]; lia).
  assert (∀ x, x ∈ h → x + tRRD (tm c) ≤ t) as Hlast
    by (intros x Hx; specialize (Hs _ _ Hk Hx); lia).
  split; simpl; [done|by constructor|by rewrite Htk', Htk, push_take| |split].
  - intros k' x Hk' [->|Hx]%elem_of_cons; [by apply Hsp'|].
    specialize (Hsp' _ Hk'). specialize (Hlast _ Hx). lia.
  - intros [|i] x y Hx Hy; simpl in *; simplify_eq; [|by eapply H1].
    apply Hlast. by eapply list_elem_of_lookup_2.
  - intros [|i] x y Ha Hx Hy; simpl in *; simplify_eq; [|by eapply H2].
    destruct (Z.to_nat (activationLimit c)) as [|n] eqn:En; [lia|]. simpl in Hy.
    assert (0 < y) by (by eapply Forall_lookup_1 in Hy; [|done]).
    pose proof (ro_window _ _ Hr k y Hk) as HW. rewrite Htk in HW.
    rewrite (last_window (S n) h y) in HW by (try lia; by rewrite Nat.sub_1_r). 
    specialize (HW eq_refl). lia.
Qed.

Lemma hist_inv_step c s s' : timing_wf c → rank_step c s s' → hist_inv c s → hist_inv c s'.
Proof.
  intros Hw [ts now b t row r r' k h [Hb Hk]%get_bank_inv Ho Hrow Hal Hnow Hpos Hfit E
            |ts now b t row1 row2 r r' k h [Hb Hk]%get_bank_inv Ho Hal Hnow Hpos Hfit E
            |ts now b t trace r r' k h [Hb Hk]%get_bank_inv Ho Hnow Hfit E
            |f r h Hf] Hi; pose proof (hi_rank _ _ Hi) as Hr; simpl in Hr.
  - destruct (activateBank_ok c ts now b t row r k) as (r1 & E1 & Hr1 & _ & Hsp & _ & Htk);
      [done..|by apply fits_le|]. rewrite E in E1. injection E1 as <-.
    eapply hist_inv_push; [done|done|by eapply list_elem_of_lookup_2|done|done|done| |done].
    intros k' Hk'. by eapply spaced_tRRD.
  - destruct (aapBank_ok c ts now b t r k Hw Hr Hb Hk Ho Hal Hnow Hfit row1 row2)
      as (r1 & E1 & [Hr1 _ _ _ Hsp Htk]). rewrite E in E1. injection E1 as <-.
    by eapply hist_inv_push; [done|done|eapply list_elem_of_lookup_2| | | | |].
  - destruct (prechargeBank_ok c ts now b t trace r k) as (r1 & E1 & Hr1 & Hbk & _ & _ & Htk & _); [done..|].
    rewrite E in E1. injection E1 as <-. destruct Hi as [_ Hp Ht Hs Hh]. simpl in *.
    split; simpl; [done|done|by rewrite Htk| |done].
    rewrite Hbk. intros k' x (k0 & Hk0 & Hle)%pre_bank_elem Hx. specialize (Hs _ _ Hk0 Hx). lia.
  - destruct Hi as [_ Hp Ht Hs Hh]. simpl in *. split; simpl; [|done|done| |done].
    + by apply rank_ok_on_banks.
    + intros k' x (k & -> & Hk)%list_elem_of_fmap. rewrite (proj2 (Hf k)). by apply Hs.
Qed.

Lemma reachable_inv c i s :
  timing_wf c → 0 < banksPerRank c < 2 ^ 32 → 0 ≤ activationLimit c →
  reachable c i s → hist_inv c s.
Proof.
  intros Hw Hb Ha. unfold reachable.
  assert (hist_inv c (new_Rank c i, [])) as Hi by (by apply hist_inv_new).
  revert Hi. generalize (new_Rank c i, @nil Tick). intros s0 Hi Hs.
  induction Hs as [|s0 s1 s2 H _ IH]; [done|]. apply IH. by eapply hist_inv_step.
Qed.



Lemma doCommand_inv c ts k b t r r' :
  doCommand c ts k b t r = Ok r' → ∃ n, r' = set_cmdList (cmdList r ++ [mkCommand k b n]) r.
Proof. unfold doCommand. intros H. res_inv. subst. by eexists. Qed.

Lemma prechargeBank_trace c ts now b t r r' :
  prechargeBank c ts now b t true r = Ok r' →
  ∃ bk n, cmdList r' = cmdList r ++ [mkCommand PRE bk n].
Proof.
  unfold prechargeBank. intros H. res_inv. subst.
  match goal with H : doCommand _ _ _ _ _ _ = Ok _ |- _ => apply doCommand_inv in H as [n ->] end.
  simpl. by eexists _, _.
Qed.

Lemma enforce_tXAW_cmdList c t r r' : enforce_tXAW c t r = Ok r' → cmdList r' = cmdList r.
Proof.
  unfold enforce_tXAW. destruct (actTicks r); [by intros [= ->]|]. intros H. res_inv.
  destruct (last _); [destruct (in_window c t (push_act t r))|]; res_inv; by subst.
Qed.

(** an activate-activate-precharge reports a precharge to the power library
    but neither of its two activates, whereas an activate-precharge reports
    both: the energy of row operations misses their activations. *)
Theorem aapBank_power_trace c ts now b t row1 row2 ov row r :
  (∀ r', aapBank c ts now b t row1 row2 ov r = Ok r' →
     ∃ bk n, cmdList r' = cmdList r ++ [mkCommand PRE bk n]) ∧
  (∀ r', apBank c ts now b t row r = Ok r' →
     ∃ bk n bk' n', cmdList r' = cmdList r ++ [mkCommand ACT bk n; mkCommand PRE bk' n']).
Proof.
  split; intros r' H.
  - unfold aapBank in H. apply bind_Ok_inv in H as (r1 & H1 & H).
    apply bind_Ok_inv in H as (bk & _ & H). apply bind_Ok_inv in H as (e & _ & H).
    apply bind_Ok_inv in H as (bk' & _ & H). apply prechargeBank_trace in H as (x & n & ->).
    exists x, n. f_equal. unfold open_row in H1. res_inv. subst. simpl.
    unfold aap_tXAW. simpl. destruct (actTicks r); [done|]. destruct (last _); [|done].
    by destruct (_ && _).
  - unfold apBank in H. apply bind_Ok_inv in H as (r1 & H1 & H).
    apply bind_Ok_inv in H as (bk & _ & H). apply prechargeBank_trace in H as (x & n & ->).
    unfold activateBank, open_row in H1. res_inv. subst.
    match goal with H : doCommand _ _ _ _ _ _ = Ok _ |- _ => apply doCommand_inv in H as [n1 ->] end.
    match goal with H : enforce_tXAW _ _ _ = Ok _ |- _ => apply enforce_tXAW_cmdList in H as Hc end.
    simpl in *. rewrite Hc, <- app_assoc. by eexists _, _, _, _.
Qed.

(** ** Witnesses: a DDR4 rank with two activated banks *)

Lemma DDR4_timing_wf : timing_wf DDR4_config.
Proof. split; vm_compute; [done|repeat split; discriminate|discriminate]. Qed.

Definition ok_or {A} (d : A) (m : res A) : A := match m with Ok a => a | Err _ => d end.
Definition ex_rank0 : Rank := new_Rank DDR4_config 0.
Definition ex_rank1 : Rank := ok_or ex_rank0 (activateBank DDR4_config 0 0 0 1000 5 ex_rank0).
Definition ex_rank2 : Rank := ok_or ex_rank1 (aapBank DDR4_config 0 0 1 6000 7 8 true ex_rank1).

Lemma ex_rank2_reachable : reachable DDR4_config 0 (ex_rank2, [6000; 1000]).
Proof.
  apply (rtc_l _ _ (ex_rank1, [1000])).
  - eapply (rs_activate _ 0 0 0 1000 5); [vm_compute; reflexivity|reflexivity|done|
      vm_compute; discriminate|lia|lia|split; [lia|by vm_compute]|vm_compute; reflexivity].
  - apply rtc_once. eapply (rs_aap _ 0 0 1 6000 7 8); [vm_compute; reflexivity|reflexivity|
      vm_compute; discriminate|lia|lia|split; [lia|by vm_compute]|vm_compute; reflexivity].
Qed.



Lemma aapBank_power_trace_witness :
  ∃ bk n, cmdList ex_rank2 = cmdList ex_rank1 ++ [mkCommand PRE bk n].
Proof.
  destruct (aapBank_power_trace DDR4_config 0 0 1 6000 7 8 true 0 ex_rank1) as [H _].
  apply H. vm_compute. reflexivity.
Defined.
