(* ===== verification/DRAMCtrlState.v ===== *)
(** * DRAM controller: the controller's state (mem/dram_ctrl.hh)

    DRAM packets, burst helpers and the members of [DRAMCtrl], with one
    assignment function per member.  Packets and burst helpers are shared, so
    they are in heaps and named by their address; a DRAM packet is in exactly one
    queue and is kept by value.  What the controller sends out is part of the
    state: [port] is the response queue of its port, [retriesSent] counts the
    retries it has sent to its peer. *)

From stdpp Require Import base numbers list gmap.
From S2P Require Import Prelude IntMath AddrRanges Packets AbstractMem Events PktQueue.
From S2P Require Import DRAMConfig DRAMState.
Import Request.
Local Open Scope Z_scope.

Module DRAMPacket.

Record DRAMPacket := mkDRAMPacket {
  entryTime : Tick;
  readyTime : Tick;
  pkt : Z;
  isRead : bool;
  rank : Z;
  bank : Z;
  row : Z;
  src1_row : Z;
  src2_row : Z;
  is_row_op : bool;
  row_op : option RowOp;
  bankId : Z;
  addr : Z;
  size : Z;
  burstHelper : option Z;
}.

(** The members that are assigned after construction. *)
Definition set_readyTime (v : Tick) (p : DRAMPacket) : DRAMPacket :=
  mkDRAMPacket (entryTime p) v (pkt p) (isRead p) (rank p) (bank p) (row p) (src1_row p)
    (src2_row p) (is_row_op p) (row_op p) (bankId p) (addr p) (size p) (burstHelper p).
Definition set_src1_row (v : Z) (p : DRAMPacket) : DRAMPacket :=
  mkDRAMPacket (entryTime p) (readyTime p) (pkt p) (isRead p) (rank p) (bank p) (row p) v
    (src2_row p) (is_row_op p) (row_op p) (bankId p) (addr p) (size p) (burstHelper p).
Definition set_src2_row (v : Z) (p : DRAMPacket) : DRAMPacket :=
  mkDRAMPacket (entryTime p) (readyTime p) (pkt p) (isRead p) (rank p) (bank p) (row p)
    (src1_row p) v (is_row_op p) (row_op p) (bankId p) (addr p) (size p) (burstHelper p).
Definition set_is_row_op (v : bool) (p : DRAMPacket) : DRAMPacket :=
  mkDRAMPacket (entryTime p) (readyTime p) (pkt p) (isRead p) (rank p) (bank p) (row p)
    (src1_row p) (src2_row p) v (row_op p) (bankId p) (addr p) (size p) (burstHelper p).
Definition set_row_op (v : option RowOp) (p : DRAMPacket) : DRAMPacket :=
  mkDRAMPacket (entryTime p) (readyTime p) (pkt p) (isRead p) (rank p) (bank p) (row p)
    (src1_row p) (src2_row p) (is_row_op p) v (bankId p) (addr p) (size p) (burstHelper p).
Definition set_burstHelper (v : option Z) (p : DRAMPacket) : DRAMPacket :=
  mkDRAMPacket (entryTime p) (readyTime p) (pkt p) (isRead p) (rank p) (bank p) (row p)
    (src1_row p) (src2_row p) (is_row_op p) (row_op p) (bankId p) (addr p) (size p) v.

End DRAMPacket.
Abbreviation DRAMPacket := DRAMPacket.DRAMPacket.

Record BurstHelper := mkHelper { burstCount : Z; burstsServiced : Z }.

Inductive BusState := READ | READ_TO_WRITE | WRITE | WRITE_TO_READ.

#[global] Instance BusState_eq_dec : EqDecision BusState.
Proof. solve_decision. Defined.

(** The scalar statistics, and the elements of the vector statistics. *)
Inductive Stat :=
  | readReqs | writeReqs | readBursts | writeBursts | bytesReadDRAM | bytesReadWrQ
  | bytesWritten | bytesReadSys | bytesWrittenSys | servicedByWrQ | mergedWrBursts
  | neitherReadNorWrite | perBankRdBursts (i : Z) | perBankWrBursts (i : Z) | numRdRetry
  | numWrRetry | totGap | readPktSize (i : Z) | writePktSize (i : Z) | rdQLenPdf (i : Z)
  | wrQLenPdf (i : Z) | totQLat | totMemAccLat | totBusLat | readRowHits | writeRowHits
  | avgRdQLen | avgWrQLen.

#[global] Instance Stat_eq_dec : EqDecision Stat.
Proof. solve_decision. Defined.

Module DRAMCtrl.

Record DRAMCtrl := mkDRAMCtrl {
  cfg : Config;
  mem : AbstractMemory.Memory;
  packets : gmap Z Packet.Packet;
  port : PacketQueue.PacketQueue;
  isTimingMode : bool;
  retryRdReq : bool;
  retryWrReq : bool;
  busState : BusState;
  pendingRowOps : Z;
  nextReqEvent : Event;
  respondEvent : Event;
  readQueue : list DRAMPacket;
  writeQueue : list DRAMPacket;
  isInWriteQueue : gset Z;
  respQueue : list DRAMPacket;
  helpers : gmap Z BurstHelper;
  ranks : list Rank;
  writesThisTime : Z;
  readsThisTime : Z;
  busBusyUntil : Tick;
  prevArrival : Tick;
  nextReqTime : Tick;
  activeRank : Z;
  timeStampOffset : Z;
  pendingDelete : list Z;
  drain_state : DrainState;
  retriesSent : Z;
  stats : Stat → Z;
  rdPerTurnAround : list Z;
  wrPerTurnAround : list Z;
}.

Definition set_cfg (v : Config) (s : DRAMCtrl) : DRAMCtrl :=
  mkDRAMCtrl v (mem s) (packets s) (port s) (isTimingMode s) (retryRdReq s) (retryWrReq s)
    (busState s) (pendingRowOps s) (nextReqEvent s) (respondEvent s) (readQueue s)
    (writeQueue s) (isInWriteQueue s) (respQueue s) (helpers s) (ranks s) (writesThisTime s)
    (readsThisTime s) (busBusyUntil s) (prevArrival s) (nextReqTime s) (activeRank s)
    (timeStampOffset s) (pendingDelete s) (drain_state s) (retriesSent s) (stats s)
    (rdPerTurnAround s) (wrPerTurnAround s).
Definition set_mem (v : AbstractMemory.Memory) (s : DRAMCtrl) : DRAMCtrl :=
  mkDRAMCtrl (cfg s) v (packets s) (port s) (isTimingMode s) (retryRdReq s) (retryWrReq s)
    (busState s) (pendingRowOps s) (nextReqEvent s) (respondEvent s) (readQueue s)
    (writeQueue s) (isInWriteQueue s) (respQueue s) (helpers s) (ranks s) (writesThisTime s)
    (readsThisTime s) (busBusyUntil s) (prevArrival s) (nextReqTime s) (activeRank s)
    (timeStampOffset s) (pendingDelete s) (drain_state s) (retriesSent s) (stats s)
    (rdPerTurnAround s) (wrPerTurnAround s).
Definition set_packets (v : gmap Z Packet.Packet) (s : DRAMCtrl) : DRAMCtrl :=
  mkDRAMCtrl (cfg s) (mem s) v (port s) (isTimingMode s) (retryRdReq s) (retryWrReq s)
    (busState s) (pendingRowOps s) (nextReqEvent s) (respondEvent s) (readQueue s)
    (writeQueue s) (isInWriteQueue s) (respQueue s) (helpers s) (ranks s) (writesThisTime s)
    (readsThisTime s) (busBusyUntil s) (prevArrival s) (nextReqTime s) (activeRank s)
    (timeStampOffset s) (pendingDelete s) (drain_state s) (retriesSent s) (stats s)
    (rdPerTurnAround s) (wrPerTurnAround s).
Definition set_port (v : PacketQueue.PacketQueue) (s : DRAMCtrl) : DRAMCtrl :=
  mkDRAMCtrl (cfg s) (mem s) (packets s) v (isTimingMode s) (retryRdReq s) (retryWrReq s)
    (busState s) (pendingRowOps s) (nextReqEvent s) (respondEvent s) (readQueue s)
    (writeQueue s) (isInWriteQueue s) (respQueue s) (helpers s) (ranks s) (writesThisTime s)
    (readsThisTime s) (busBusyUntil s) (prevArrival s) (nextReqTime s) (activeRank s)
    (timeStampOffset s) (pendingDelete s) (drain_state s) (retriesSent s) (stats s)
    (rdPerTurnAround s) (wrPerTurnAround s).
Definition set_isTimingMode (v : bool) (s : DRAMCtrl) : DRAMCtrl :=
  mkDRAMCtrl (cfg s) (mem s) (packets s) (port s) v (retryRdReq s) (retryWrReq s) (busState s)
    (pendingRowOps s) (nextReqEvent s) (respondEvent s) (readQueue s) (writeQueue s)
    (isInWriteQueue s) (respQueue s) (helpers s) (ranks s) (writesThisTime s) (readsThisTime s)
    (busBusyUntil s) (prevArrival s) (nextReqTime s) (activeRank s) (timeStampOffset s)
    (pendingDelete s) (drain_state s) (retriesSent s) (stats s) (rdPerTurnAround s)
    (wrPerTurnAround s).
Definition set_retryRdReq (v : bool) (s : DRAMCtrl) : DRAMCtrl :=
  mkDRAMCtrl (cfg s) (mem s) (packets s) (port s) (isTimingMode s) v (retryWrReq s) (busState s)
    (pendingRowOps s) (nextReqEvent s) (respondEvent s) (readQueue s) (writeQueue s)
    (isInWriteQueue s) (respQueue s) (helpers s) (ranks s) (writesThisTime s) (readsThisTime s)
    (busBusyUntil s) (prevArrival s) (nextReqTime s) (activeRank s) (timeStampOffset s)
    (pendingDelete s) (drain_state s) (retriesSent s) (stats s) (rdPerTurnAround s)
    (wrPerTurnAround s).
Definition set_retryWrReq (v : bool) (s : DRAMCtrl) : DRAMCtrl :=
  mkDRAMCtrl (cfg s) (mem s) (packets s) (port s) (isTimingMode s) (retryRdReq s) v (busState s)
    (pendingRowOps s) (nextReqEvent s) (respondEvent s) (readQueue s) (writeQueue s)
    (isInWriteQueue s) (respQueue s) (helpers s) (ranks s) (writesThisTime s) (readsThisTime s)
    (busBusyUntil s) (prevArrival s) (nextReqTime s) (activeRank s) (timeStampOffset s)
    (pendingDelete s) (drain_state s) (retriesSent s) (stats s) (rdPerTurnAround s)
    (wrPerTurnAround s).
Definition set_busState (v : BusState) (s : DRAMCtrl) : DRAMCtrl :=
  mkDRAMCtrl (cfg s) (mem s) (packets s) (port s) (isTimingMode s) (retryRdReq s) (retryWrReq s)
    v (pendingRowOps s) (nextReqEvent s) (respondEvent s) (readQueue s) (writeQueue s)
    (isInWriteQueue s) (respQueue s) (helpers s) (ranks s) (writesThisTime s) (readsThisTime s)
    (busBusyUntil s) (prevArrival s) (nextReqTime s) (activeRank s) (timeStampOffset s)
    (pendingDelete s) (drain_state s) (retriesSent s) (stats s) (rdPerTurnAround s)
    (wrPerTurnAround s).
Definition set_pendingRowOps (v : Z) (s : DRAMCtrl) : DRAMCtrl :=
  mkDRAMCtrl (cfg s) (mem s) (packets s) (port s) (isTimingMode s) (retryRdReq s) (retryWrReq s)
    (busState s) v (nextReqEvent s) (respondEvent s) (readQueue s) (writeQueue s)
    (isInWriteQueue s) (respQueue s) (helpers s) (ranks s) (writesThisTime s) (readsThisTime s)
    (busBusyUntil s) (prevArrival s) (nextReqTime s) (activeRank s) (timeStampOffset s)
    (pendingDelete s) (drain_state s) (retriesSent s) (stats s) (rdPerTurnAround s)
    (wrPerTurnAround s).
Definition set_nextReqEvent (v : Event) (s : DRAMCtrl) : DRAMCtrl :=
  mkDRAMCtrl (cfg s) (mem s) (packets s) (port s) (isTimingMode s) (retryRdReq s) (retryWrReq s)
    (busState s) (pendingRowOps s) v (respondEvent s) (readQueue s) (writeQueue s)
    (isInWriteQueue s) (respQueue s) (helpers s) (ranks s) (writesThisTime s) (readsThisTime s)
    (busBusyUntil s) (prevArrival s) (nextReqTime s) (activeRank s) (timeStampOffset s)
    (pendingDelete s) (drain_state s) (retriesSent s) (stats s) (rdPerTurnAround s)
    (wrPerTurnAround s).
Definition set_respondEvent (v : Event) (s : DRAMCtrl) : DRAMCtrl :=
  mkDRAMCtrl (cfg s) (mem s) (packets s) (port s) (isTimingMode s) (retryRdReq s) (retryWrReq s)
    (busState s) (pendingRowOps s) (nextReqEvent s) v (readQueue s) (writeQueue s)
    (isInWriteQueue s) (respQueue s) (helpers s) (ranks s) (writesThisTime s) (readsThisTime s)
    (busBusyUntil s) (prevArrival s) (nextReqTime s) (activeRank s) (timeStampOffset s)
    (pendingDelete s) (drain_state s) (retriesSent s) (stats s) (rdPerTurnAround s)
    (wrPerTurnAround s).
Definition set_readQueue (v : list DRAMPacket) (s : DRAMCtrl) : DRAMCtrl :=
  mkDRAMCtrl (cfg s) (mem s) (packets s) (port s) (isTimingMode s) (retryRdReq s) (retryWrReq s)
    (busState s) (pendingRowOps s) (nextReqEvent s) (respondEvent s) v (writeQueue s)
    (isInWriteQueue s) (respQueue s) (helpers s) (ranks s) (writesThisTime s) (readsThisTime s)
    (busBusyUntil s) (prevArrival s) (nextReqTime s) (activeRank s) (timeStampOffset s)
    (pendingDelete s) (drain_state s) (retriesSent s) (stats s) (rdPerTurnAround s)
    (wrPerTurnAround s).
Definition set_writeQueue (v : list DRAMPacket) (s : DRAMCtrl) : DRAMCtrl :=
  mkDRAMCtrl (cfg s) (mem s) (packets s) (port s) (isTimingMode s) (retryRdReq s) (retryWrReq s)
    (busState s) (pendingRowOps s) (nextReqEvent s) (respondEvent s) (readQueue s) v
    (isInWriteQueue s) (respQueue s) (helpers s) (ranks s) (writesThisTime s) (readsThisTime s)
    (busBusyUntil s) (prevArrival s) (nextReqTime s) (activeRank s) (timeStampOffset s)
    (pendingDelete s) (drain_state s) (retriesSent s) (stats s) (rdPerTurnAround s)
    (wrPerTurnAround s).
Definition set_isInWriteQueue (v : gset Z) (s : DRAMCtrl) : DRAMCtrl :=
  mkDRAMCtrl (cfg s) (mem s) (packets s) (port s) (isTimingMode s) (retryRdReq s) (retryWrReq s)
    (busState s) (pendingRowOps s) (nextReqEvent s) (respondEvent s) (readQueue s)
    (writeQueue s) v (respQueue s) (helpers s) (ranks s) (writesThisTime s) (readsThisTime s)
    (busBusyUntil s) (prevArrival s) (nextReqTime s) (activeRank s) (timeStampOffset s)
    (pendingDelete s) (drain_state s) (retriesSent s) (stats s) (rdPerTurnAround s)
    (wrPerTurnAround s).
Definition set_respQueue (v : list DRAMPacket) (s : DRAMCtrl) : DRAMCtrl :=
  mkDRAMCtrl (cfg s) (mem s) (packets s) (port s) (isTimingMode s) (retryRdReq s) (retryWrReq s)
    (busState s) (pendingRowOps s) (nextReqEvent s) (respondEvent s) (readQueue s)
    (writeQueue s) (isInWriteQueue s) v (helpers s) (ranks s) (writesThisTime s)
    (readsThisTime s) (busBusyUntil s) (prevArrival s) (nextReqTime s) (activeRank s)
    (timeStampOffset s) (pendingDelete s) (drain_state s) (retriesSent s) (stats s)
    (rdPerTurnAround s) (wrPerTurnAround s).
Definition set_helpers (v : gmap Z BurstHelper) (s : DRAMCtrl) : DRAMCtrl :=
  mkDRAMCtrl (cfg s) (mem s) (packets s) (port s) (isTimingMode s) (retryRdReq s) (retryWrReq s)
    (busState s) (pendingRowOps s) (nextReqEvent s) (respondEvent s) (readQueue s)
    (writeQueue s) (isInWriteQueue s) (respQueue s) v (ranks s) (writesThisTime s)
    (readsThisTime s) (busBusyUntil s) (prevArrival s) (nextReqTime s) (activeRank s)
    (timeStampOffset s) (pendingDelete s) (drain_state s) (retriesSent s) (stats s)
    (rdPerTurnAround s) (wrPerTurnAround s).
Definition set_ranks (v : list Rank) (s : DRAMCtrl) : DRAMCtrl :=
  mkDRAMCtrl (cfg s) (mem s) (packets s) (port s) (isTimingMode s) (retryRdReq s) (retryWrReq s)
    (busState s) (pendingRowOps s) (nextReqEvent s) (respondEvent s) (readQueue s)
    (writeQueue s) (isInWriteQueue s) (respQueue s) (helpers s) v (writesThisTime s)
    (readsThisTime s) (busBusyUntil s) (prevArrival s) (nextReqTime s) (activeRank s)
    (timeStampOffset s) (pendingDelete s) (drain_state s) (retriesSent s) (stats s)
    (rdPerTurnAround s) (wrPerTurnAround s).
Definition set_writesThisTime (v : Z) (s : DRAMCtrl) : DRAMCtrl :=
  mkDRAMCtrl (cfg s) (mem s) (packets s) (port s) (isTimingMode s) (retryRdReq s) (retryWrReq s)
    (busState s) (pendingRowOps s) (nextReqEvent s) (respondEvent s) (readQueue s)
    (writeQueue s) (isInWriteQueue s) (respQueue s) (helpers s) (ranks s) v (readsThisTime s)
    (busBusyUntil s) (prevArrival s) (nextReqTime s) (activeRank s) (timeStampOffset s)
    (pendingDelete s) (drain_state s) (retriesSent s) (stats s) (rdPerTurnAround s)
    (wrPerTurnAround s).
Definition set_readsThisTime (v : Z) (s : DRAMCtrl) : DRAMCtrl :=
  mkDRAMCtrl (cfg s) (mem s) (packets s) (port s) (isTimingMode s) (retryRdReq s) (retryWrReq s)
    (busState s) (pendingRowOps s) (nextReqEvent s) (respondEvent s) (readQueue s)
    (writeQueue s) (isInWriteQueue s) (respQueue s) (helpers s) (ranks s) (writesThisTime s) v
    (busBusyUntil s) (prevArrival s) (nextReqTime s) (activeRank s) (timeStampOffset s)
    (pendingDelete s) (drain_state s) (retriesSent s) (stats s) (rdPerTurnAround s)
    (wrPerTurnAround s).
Definition set_busBusyUntil (v : Tick) (s : DRAMCtrl) : DRAMCtrl :=
  mkDRAMCtrl (cfg s) (mem s) (packets s) (port s) (isTimingMode s) (retryRdReq s) (retryWrReq s)
    (busState s) (pendingRowOps s) (nextReqEvent s) (respondEvent s) (readQueue s)
    (writeQueue s) (isInWriteQueue s) (respQueue s) (helpers s) (ranks s) (writesThisTime s)
    (readsThisTime s) v (prevArrival s) (nextReqTime s) (activeRank s) (timeStampOffset s)
    (pendingDelete s) (drain_state s) (retriesSent s) (stats s) (rdPerTurnAround s)
    (wrPerTurnAround s).
Definition set_prevArrival (v : Tick) (s : DRAMCtrl) : DRAMCtrl :=
  mkDRAMCtrl (cfg s) (mem s) (packets s) (port s) (isTimingMode s) (retryRdReq s) (retryWrReq s)
    (busState s) (pendingRowOps s) (nextReqEvent s) (respondEvent s) (readQueue s)
    (writeQueue s) (isInWriteQueue s) (respQueue s) (helpers s) (ranks s) (writesThisTime s)
    (readsThisTime s) (busBusyUntil s) v (nextReqTime s) (activeRank s) (timeStampOffset s)
    (pendingDelete s) (drain_state s) (retriesSent s) (stats s) (rdPerTurnAround s)
    (wrPerTurnAround s).
Definition set_nextReqTime (v : Tick) (s : DRAMCtrl) : DRAMCtrl :=
  mkDRAMCtrl (cfg s) (mem s) (packets s) (port s) (isTimingMode s) (retryRdReq s) (retryWrReq s)
    (busState s) (pendingRowOps s) (nextReqEvent s) (respondEvent s) (readQueue s)
    (writeQueue s) (isInWriteQueue s) (respQueue s) (helpers s) (ranks s) (writesThisTime s)
    (readsThisTime s) (busBusyUntil s) (prevArrival s) v (activeRank s) (timeStampOffset s)
    (pendingDelete s) (drain_state s) (retriesSent s) (stats s) (rdPerTurnAround s)
    (wrPerTurnAround s).
Definition set_activeRank (v : Z) (s : DRAMCtrl) : DRAMCtrl :=
  mkDRAMCtrl (cfg s) (mem s) (packets s) (port s) (isTimingMode s) (retryRdReq s) (retryWrReq s)
    (busState s) (pendingRowOps s) (nextReqEvent s) (respondEvent s) (readQueue s)
    (writeQueue s) (isInWriteQueue s) (respQueue s) (helpers s) (ranks s) (writesThisTime s)
    (readsThisTime s) (busBusyUntil s) (prevArrival s) (nextReqTime s) v (timeStampOffset s)
    (pendingDelete s) (drain_state s) (retriesSent s) (stats s) (rdPerTurnAround s)
    (wrPerTurnAround s).
Definition set_timeStampOffset (v : Z) (s : DRAMCtrl) : DRAMCtrl :=
  mkDRAMCtrl (cfg s) (mem s) (packets s) (port s) (isTimingMode s) (retryRdReq s) (retryWrReq s)
    (busState s) (pendingRowOps s) (nextReqEvent s) (respondEvent s) (readQueue s)
    (writeQueue s) (isInWriteQueue s) (respQueue s) (helpers s) (ranks s) (writesThisTime s)
    (readsThisTime s) (busBusyUntil s) (prevArrival s) (nextReqTime s) (activeRank s) v
    (pendingDelete s) (drain_state s) (retriesSent s) (stats s) (rdPerTurnAround s)
    (wrPerTurnAround s).
Definition set_pendingDelete (v : list Z) (s : DRAMCtrl) : DRAMCtrl :=
  mkDRAMCtrl (cfg s) (mem s) (packets s) (port s) (isTimingMode s) (retryRdReq s) (retryWrReq s)
    (busState s) (pendingRowOps s) (nextReqEvent s) (respondEvent s) (readQueue s)
    (writeQueue s) (isInWriteQueue s) (respQueue s) (helpers s) (ranks s) (writesThisTime s)
    (readsThisTime s) (busBusyUntil s) (prevArrival s) (nextReqTime s) (activeRank s)
    (timeStampOffset s) v (drain_state s) (retriesSent s) (stats s) (rdPerTurnAround s)
    (wrPerTurnAround s).
Definition set_drain_state (v : DrainState) (s : DRAMCtrl) : DRAMCtrl :=
  mkDRAMCtrl (cfg s) (mem s) (packets s) (port s) (isTimingMode s) (retryRdReq s) (retryWrReq s)
    (busState s) (pendingRowOps s) (nextReqEvent s) (respondEvent s) (readQueue s)
    (writeQueue s) (isInWriteQueue s) (respQueue s) (helpers s) (ranks s) (writesThisTime s)
    (readsThisTime s) (busBusyUntil s) (prevArrival s) (nextReqTime s) (activeRank s)
    (timeStampOffset s) (pendingDelete s) v (retriesSent s) (stats s) (rdPerTurnAround s)
    (wrPerTurnAround s).
Definition set_retriesSent (v : Z) (s : DRAMCtrl) : DRAMCtrl :=
  mkDRAMCtrl (cfg s) (mem s) (packets s) (port s) (isTimingMode s) (retryRdReq s) (retryWrReq s)
    (busState s) (pendingRowOps s) (nextReqEvent s) (respondEvent s) (readQueue s)
    (writeQueue s) (isInWriteQueue s) (respQueue s) (helpers s) (ranks s) (writesThisTime s)
    (readsThisTime s) (busBusyUntil s) (prevArrival s) (nextReqTime s) (activeRank s)
    (timeStampOffset s) (pendingDelete s) (drain_state s) v (stats s) (rdPerTurnAround s)
    (wrPerTurnAround s).
Definition set_stats (v : Stat → Z) (s : DRAMCtrl) : DRAMCtrl :=
  mkDRAMCtrl (cfg s) (mem s) (packets s) (port s) (isTimingMode s) (retryRdReq s) (retryWrReq s)
    (busState s) (pendingRowOps s) (nextReqEvent s) (respondEvent s) (readQueue s)
    (writeQueue s) (isInWriteQueue s) (respQueue s) (helpers s) (ranks s) (writesThisTime s)
    (readsThisTime s) (busBusyUntil s) (prevArrival s) (nextReqTime s) (activeRank s)
    (timeStampOffset s) (pendingDelete s) (drain_state s) (retriesSent s) v (rdPerTurnAround s)
    (wrPerTurnAround s).
Definition set_rdPerTurnAround (v : list Z) (s : DRAMCtrl) : DRAMCtrl :=
  mkDRAMCtrl (cfg s) (mem s) (packets s) (port s) (isTimingMode s) (retryRdReq s) (retryWrReq s)
    (busState s) (pendingRowOps s) (nextReqEvent s) (respondEvent s) (readQueue s)
    (writeQueue s) (isInWriteQueue s) (respQueue s) (helpers s) (ranks s) (writesThisTime s)
    (readsThisTime s) (busBusyUntil s) (prevArrival s) (nextReqTime s) (activeRank s)
    (timeStampOffset s) (pendingDelete s) (drain_state s) (retriesSent s) (stats s) v
    (wrPerTurnAround s).
Definition set_wrPerTurnAround (v : list Z) (s : DRAMCtrl) : DRAMCtrl :=
  mkDRAMCtrl (cfg s) (mem s) (packets s) (port s) (isTimingMode s) (retryRdReq s) (retryWrReq s)
    (busState s) (pendingRowOps s) (nextReqEvent s) (respondEvent s) (readQueue s)
    (writeQueue s) (isInWriteQueue s) (respQueue s) (helpers s) (ranks s) (writesThisTime s)
    (readsThisTime s) (busBusyUntil s) (prevArrival s) (nextReqTime s) (activeRank s)
    (timeStampOffset s) (pendingDelete s) (drain_state s) (retriesSent s) (stats s)
    (rdPerTurnAround s) v.

(** [stat += n;] and [stat = n;] *)
Definition stat_set (k : Stat) (n : Z) (s : DRAMCtrl) : DRAMCtrl :=
  set_stats (λ x, if decide (x = k) then n else stats s x) s.
Definition inc (k : Stat) (n : Z) (s : DRAMCtrl) : DRAMCtrl := stat_set k (stats s k + n) s.

(** [ranks[i]], and an assignment to the rank. *)
Definition get_rank (s : DRAMCtrl) (i : Z) : res Rank := at_ (ranks s) i.
Definition put_rank (i : Z) (r : Rank) (s : DRAMCtrl) : DRAMCtrl :=
  set_ranks (<[Z.to_nat i := r]> (ranks s)) s.

(** [DRAMCtrl(p)] over a backing memory. *)
Definition new_DRAMCtrl (p : DRAMCtrlParams) (m : AbstractMemory.Memory) : res DRAMCtrl :=
  c ← DRAMCtrl_config p (AbstractMemory.range m);
  mret (mkDRAMCtrl c m ∅ PacketQueue.new false false false READ 0 None None [] [] ∅ [] ∅
          (new_Rank c <$> seqZ 0 (ranksPerChannel c)) 0 0 0 0 0 0 0 [] Running 0 (λ _, 0) [] []).

Definition readQueueFull (s : DRAMCtrl) (neededEntries : Z) : bool :=
  readBufferSize (cfg s) <?
    Z.of_nat (length (readQueue s)) + Z.of_nat (length (respQueue s)) + neededEntries.

Definition writeQueueFull (s : DRAMCtrl) (neededEntries : Z) : bool :=
  writeBufferSize (cfg s) <? Z.of_nat (length (writeQueue s)) + neededEntries.

(** [decodeAddr(pkt, dramPktAddr, size, isRead)]: the new DRAM packet. *)
Definition decodeAddr (now : Tick) (s : DRAMCtrl) (pkt dramPktAddr size : Z) (isRead : bool) :
    res DRAMPacket :=
  d ← decode_coords (cfg s) dramPktAddr;
  let bank_id := u16 (u32 (banksPerRank (cfg s) * d_rank d + d_bank d)) in
  _ ← (r ← get_rank s (d_rank d); get_bank r (d_bank d));
  mret (DRAMPacket.mkDRAMPacket now now pkt isRead (d_rank d) (d_bank d) (d_row d) 0 0 false
          None bank_id dramPktAddr size None).

End DRAMCtrl.
