(* ===== verification/DRAMAccess.v ===== *)
(** * DRAM controller: timing an access (mem/dram_ctrl.cc, [doDRAMAccess])

    The timing of one burst (row hit, row miss or bank conflict, bus and column
    constraints, auto-precharge) and of one row operation (its sequence of
    activate-activate-precharge primitives). *)

From stdpp Require Import base numbers list gmap sorting relations.
From S2P Require Import Prelude IntMath Packets AbstractMem Events PktQueue DRAMConfig DRAMState.
From S2P Require Import DRAMBank DRAMCtrlState.
Import Request DRAMCtrl.
Local Open Scope Z_scope.

(** ** Row operations *)

Inductive RowStep := AAP (row1 row2 : Z) | AP (row : Z).

(** The [switch (dram_pkt->row_op)]: the commands of a row operation. *)
Definition rowop_steps (o : RowOp) (row src1_row src2_row : Z) : list RowStep :=
  match o with
  | ROWAND => [AAP src1_row B_T0; AAP src2_row B_T1; AAP C_0 B_T2; AAP B_T0_T1_T2 row]
  | ROWOR => [AAP src1_row B_T0; AAP src2_row B_T1; AAP C_1 B_T2; AAP B_T0_T1_T2 row]
  | ROWNOT => [AAP src1_row B_DCC0N; AAP B_DCC0 row]
  | ROWXOR =>
      [AAP src1_row B_DCC0N_T0; AAP src2_row B_DCC1N_T1; AAP C_0 B_T2_T3; AP B_DCC0_T1_T2;
       AP B_DCC1_T0_T3; AAP C_1 B_T2; AAP B_T0_T1_T2 row]
  | ROWAP => [AP B_T0_T1_T2]
  | ROWAAP => [AAP 0 0]
  | ROWLS => [AAP src1_row B_T0; AAP B_T0_SH row]
  | ROWRS => [AAP src1_row B_T0_SH; AAP B_T0 row]
  end.

Definition run_step (c : Config) (ts : Z) (now : Tick) (b : Z) (cmd_at : Tick) (st : RowStep)
    (r : Rank) : res Rank :=
  match st with
  | AAP row1 row2 => aapBank c ts now b cmd_at row1 row2 true r
  | AP row => apBank c ts now b cmd_at row r
  end.

(** Each primitive is followed by [cmd_at = bank.actAllowedAt;]. *)
Fixpoint run_steps (c : Config) (ts : Z) (now : Tick) (b : Z) (cmd_at : Tick)
    (steps : list RowStep) (r : Rank) : res (Rank * Tick) :=
  match steps with
  | [] => mret (r, cmd_at)
  | st :: steps =>
      r ← run_step c ts now b cmd_at st r;
      bk ← get_bank r b;
      run_steps c ts now b (actAllowedAt bk) steps r
  end.

(** "If there is a page open, precharge it." *)
Definition close_open_row (c : Config) (ts : Z) (now : Tick) (b : Z) (r : Rank) : res Rank :=
  bk ← get_bank r b;
  if negb (openRow bk =? NO_ROW)
  then prechargeBank c ts now b (Z.max (preAllowedAt bk) now) true r
  else mret r.

(** [nextReqTime = busBusyUntil - (tRP + tRCD + tCL)] *)
Definition next_req_time (c : Config) (bus : Tick) : Tick :=
  sub64 bus (add64 (add64 (tRP (tm c)) (tRCD (tm c))) (tCL (tm c))).

(** The [is_row_op] branch. *)
Definition do_row_op (now : Tick) (s : DRAMCtrl) (dp : DRAMPacket) : res (DRAMCtrl * DRAMPacket) :=
  let c := cfg s in
  let ts := timeStampOffset s in
  let b := DRAMPacket.bank dp in
  r ← get_rank s (DRAMPacket.rank dp);
  bk ← get_bank r b;
  let cmd_at := Z.max (colAllowedAt bk) now in
  r ← close_open_row c ts now b r;
  bk ← get_bank r b;
  let cmd_at := Z.max cmd_at (actAllowedAt bk) in
  o ← (match DRAMPacket.row_op dp with Some o => mret o | None => Err UB end);
  '(r, cmd_at) ←
    run_steps c ts now b cmd_at
      (rowop_steps o (DRAMPacket.row dp) (DRAMPacket.src1_row dp) (DRAMPacket.src2_row dp)) r;
  let dp := DRAMPacket.set_readyTime (add64 cmd_at (tCL (tm c))) dp in
  let s := put_rank (DRAMPacket.rank dp) r s in
  let s := set_activeRank (DRAMPacket.rank dp) s in
  let s := set_busBusyUntil (DRAMPacket.readyTime dp) s in
  let s := set_nextReqTime (next_req_time c (busBusyUntil s)) s in
  let s := set_pendingRowOps (pendingRowOps s - 1) s in
  mret (s, dp).

(** ** Bursts *)

(** "Determine the access latency and update the bank state": the rank, the tick
    of the column command and whether the row was open. *)
Definition open_for_access (c : Config) (ts : Z) (now : Tick) (b row : Z) (r : Rank) :
    res (Rank * Tick * bool) :=
  bk ← get_bank r b;
  let cmd_at := Z.max (colAllowedAt bk) now in
  if openRow bk =? row then mret (r, cmd_at, true)
  else
    r ← close_open_row c ts now b r;
    bk ← get_bank r b;
    let act_tick := Z.max (actAllowedAt bk) now in
    r ← activateBank c ts now b act_tick row r;
    bk ← get_bank r b;
    mret (r, colAllowedAt bk, false).

(** The delay to the next column command on bank [k] of rank [j]. *)
Definition cmd_dly (c : Config) (rank bgr j : Z) (k : Bank) : Tick :=
  if rank =? j then
    if bankGroupArch c && (bgr =? bankgr k) then tCCD_L (tm c) else tBURST (tm c)
  else add64 (tBURST (tm c)) (tCS (tm c)).

(** "update the time for the next read/write burst for each bank" *)
Definition delay_column (c : Config) (rank bgr : Z) (cmd_at : Tick) (j : nat) (k : Bank) : Bank :=
  set_colAllowedAt (Z.max (add64 cmd_at (cmd_dly c rank bgr (Z.of_nat j) k)) (colAllowedAt k)) k.
Definition update_columns (c : Config) (rank bgr : Z) (cmd_at : Tick) (l : list Rank) : list Rank :=
  imap (λ j, on_banks (delay_column c rank bgr cmd_at j)) l.

(** The search for row hits and bank conflicts of the adaptive page policies. *)
Fixpoint scan_queue (dp : DRAMPacket) (q : list DRAMPacket) (got_more_hits got_bank_conflict : bool) :
    bool * bool :=
  match q with
  | [] => (got_more_hits, got_bank_conflict)
  | p :: q =>
      if got_more_hits then (got_more_hits, got_bank_conflict)
      else
        let same_rank_bank := (DRAMPacket.rank dp =? DRAMPacket.rank p)
                              && (DRAMPacket.bank dp =? DRAMPacket.bank p) in
        let same_row := DRAMPacket.row dp =? DRAMPacket.row p in
        scan_queue dp q (got_more_hits || (same_rank_bank && same_row))
          (got_bank_conflict || (same_rank_bank && negb same_row))
  end.

(** Whether the access closes the row. *)
Definition auto_precharge (s : DRAMCtrl) (dp : DRAMPacket) (bk : Bank) : bool :=
  let c := cfg s in
  if bool_decide (pageMgmt c = close) || (rowAccesses bk =? maxAccessesPerRow c) then true
  else if bool_decide (pageMgmt c = open_adaptive) || bool_decide (pageMgmt c = close_adaptive) then
    let queue := if DRAMPacket.isRead dp then readQueue s else writeQueue s in
    let '(hits, conflict) := scan_queue dp (tail queue) false false in
    negb hits && (conflict || bool_decide (pageMgmt c = close_adaptive))
  else false.

(** The statistics at the end. *)
Definition access_stats (s : DRAMCtrl) (dp : DRAMPacket) (cmd_at : Tick) (row_hit : bool) : DRAMCtrl :=
  let c := cfg s in
  if DRAMPacket.isRead dp then
    let s := set_readsThisTime (u32 (readsThisTime s + 1)) s in
    let s := if row_hit then inc readRowHits 1 s else s in
    let s := inc bytesReadDRAM (burstSize c) s in
    let s := inc (perBankRdBursts (DRAMPacket.bankId dp)) 1 s in
    let s := inc totMemAccLat (sub64 (DRAMPacket.readyTime dp) (DRAMPacket.entryTime dp)) s in
    let s := inc totBusLat (tBURST (tm c)) s in
    inc totQLat (sub64 cmd_at (DRAMPacket.entryTime dp)) s
  else
    let s := set_writesThisTime (u32 (writesThisTime s + 1)) s in
    let s := if row_hit then inc writeRowHits 1 s else s in
    let s := inc bytesWritten (burstSize c) s in
    inc (perBankWrBursts (DRAMPacket.bankId dp)) 1 s.

(** "If this is a write, we also need to respect the write recovery time before a
    precharge", and the bytes and accesses of the row. *)
Definition touch_bank (c : Config) (dp : DRAMPacket) (cmd_at : Tick) (k : Bank) : Bank :=
  set_rowAccesses (u32 (rowAccesses k + 1))
    (set_bytesAccessed (u32 (bytesAccessed k + burstSize c))
       (set_preAllowedAt
          (Z.max (preAllowedAt k)
             (if DRAMPacket.isRead dp then add64 cmd_at (tRTP (tm c))
              else add64 (DRAMPacket.readyTime dp) (tWR (tm c)))) k)).

(** The end of the branch for bursts: the bank's bookkeeping, the auto-precharge,
    the command for the power model, the next request and the statistics. *)
Definition finish_burst (now : Tick) (s : DRAMCtrl) (dp : DRAMPacket) (cmd_at : Tick) (row_hit : bool) :
    res (DRAMCtrl * DRAMPacket) :=
  let c := cfg s in
  let ts := timeStampOffset s in
  let b := DRAMPacket.bank dp in
  r ← get_rank s (DRAMPacket.rank dp);
  let r := on_bank b (touch_bank c dp cmd_at) r in
  bk ← get_bank r b;
  r ← (if auto_precharge s dp bk then prechargeBank c ts now b (Z.max now (preAllowedAt bk)) true r
       else mret r);
  let s := set_busBusyUntil (DRAMPacket.readyTime dp) s in
  r ← doCommand c ts (if DRAMPacket.isRead dp then RD else WR) b cmd_at r;
  let s := put_rank (DRAMPacket.rank dp) r s in
  let s := set_nextReqTime (next_req_time c (busBusyUntil s)) s in
  mret (access_stats s dp cmd_at row_hit, dp).

(** The branch for bursts. *)
Definition do_burst (now : Tick) (s : DRAMCtrl) (dp : DRAMPacket) : res (DRAMCtrl * DRAMPacket) :=
  let c := cfg s in
  let b := DRAMPacket.bank dp in
  let rk := DRAMPacket.rank dp in
  r ← get_rank s rk;
  '(r, cmd_at, row_hit) ← open_for_access c (timeStampOffset s) now b (DRAMPacket.row dp) r;
  let cmd_at := Z.max cmd_at (sub64 (busBusyUntil s) (tCL (tm c))) in
  let dp := DRAMPacket.set_readyTime (add64 (add64 cmd_at (tCL (tm c))) (tBURST (tm c))) dp in
  assert_ (tBURST (tm c) <=? sub64 (DRAMPacket.readyTime dp) (busBusyUntil s));;
  bk ← get_bank r b;
  let s := put_rank rk r s in
  let s := set_ranks (update_columns c rk (bankgr bk) cmd_at (ranks s)) s in
  let s := set_activeRank rk s in
  finish_burst now s dp cmd_at row_hit.

(** [doDRAMAccess(dram_pkt)]: the controller and the DRAM packet afterwards. *)
Definition doDRAMAccess (now : Tick) (s : DRAMCtrl) (dp : DRAMPacket) :
    res (DRAMCtrl * DRAMPacket) :=
  if DRAMPacket.is_row_op dp then do_row_op now s dp else do_burst now s dp.

(** ** Opening a row for an access *)

Definition bank_fits (c : Config) (n : Z) (k : Bank) : Prop :=
  fits c n (colAllowedAt k) ∧ fits c n (preAllowedAt k) ∧ fits c n (actAllowedAt k).

(** The bank after a conflicting row has been closed. *)
Definition closed_bank (c : Config) (now : Tick) (k : Bank) : Bank :=
  if decide (openRow k = NO_ROW) then k else pre_bank c (Z.max (preAllowedAt k) now) k.

(** The earliest activate, and the earliest column command for [row]. *)
Definition act_time (c : Config) (now : Tick) (k : Bank) : Tick :=
  Z.max (actAllowedAt (closed_bank c now k)) now.
Definition col_time (c : Config) (now : Tick) (row : Z) (k : Bank) : Tick :=
  if decide (openRow k = row) then Z.max (colAllowedAt k) now
  else Z.max (act_time c now k + tRCD (tm c)) (colAllowedAt k).

(** No column constraint is relaxed. *)
Definition cols_kept (r r' : Rank) : Prop :=
  length (banks r') = length (banks r) ∧
  ∀ j k, banks r !! j = Some k → ∃ k', banks r' !! j = Some k' ∧ colAllowedAt k ≤ colAllowedAt k' ∧
    bankgr k' = bankgr k.

Lemma cols_kept_refl r : cols_kept r r.
Proof. split; [done|]. intros j k Hk. by exists k. Qed.

Lemma cols_kept_trans r1 r2 r3 : cols_kept r1 r2 → cols_kept r2 r3 → cols_kept r1 r3.
Proof.
  intros [L1 H1] [L2 H2]. split; [congruence|]. intros j k Hk.
  destruct (H1 j k Hk) as (k' & Hk' & ? & ?). destruct (H2 j k' Hk') as (k2 & ? & ? & ?).
  exists k2. split_and!; [done|lia|congruence].
Qed.

Lemma cols_kept_alter f i r r' :
  banks r' = alter f i (banks r) →
  (∀ k, colAllowedAt k ≤ colAllowedAt (f k) ∧ bankgr (f k) = bankgr k) → cols_kept r r'.
Proof.
  intros E Hf. split; [by rewrite E, length_alter|]. intros j k Hk. rewrite E, list_lookup_alter.
  case_decide; subst; rewrite Hk; simpl; eexists; (split; [done|]); [apply Hf|done].
Qed.

Lemma cols_kept_step u b f r r' :
  bank_step u b f r r' →
  (∀ k, colAllowedAt k ≤ colAllowedAt (f k) ∧ bankgr (f k) = bankgr k) → cols_kept r r'.
Proof.
  intros [L Ht Ho _] Hf. split; [done|]. intros j k Hk.
  destruct (decide (j = Z.to_nat b)) as [->|Hj].
  - destruct (Ht k Hk) as (k' & Hk' & t & _ & ->). eexists. split; [done|]. apply Hf.
  - destruct (Ho j k Hj Hk) as (k' & Hk' & t & _ & ->). by eexists.
Qed.

Lemma closed_bank_closed c now k : openRow (closed_bank c now k) = NO_ROW.
Proof. unfold closed_bank. by case_decide. Qed.

Lemma closed_bank_kept c now k :
  colAllowedAt (closed_bank c now k) = colAllowedAt k ∧ bankgr (closed_bank c now k) = bankgr k.
Proof. unfold closed_bank. by case_decide. Qed.

Lemma close_open_row_ok c ts now b r k :
  timing_wf c → rank_ok c r → 0 ≤ b → banks r !! Z.to_nat b = Some k →
  fits c 1 (preAllowedAt k) → fits c 1 now →
  ∃ r', close_open_row c ts now b r = Ok r' ∧ rank_ok c r' ∧ control r' = control r ∧
    banks r' = alter (closed_bank c now) (Z.to_nat b) (banks r).
Proof.
  intros Hw Hr Hb Hk Hp Hn. unfold close_open_row. rewrite (get_bank_ok r b k) by done.
  cbv [mbind res_mbind]. destruct (Z.eqb_spec (openRow k) NO_ROW) as [E|E]; cbn [negb].
  - exists r. split_and!; [done..|]. rewrite (list_alter_ext _ id _ (banks r)); [|intros x Hx|done].
    + by rewrite list_alter_id.
    + rewrite Hk in Hx. injection Hx as <-. unfold closed_bank. by rewrite decide_True.
  - assert (0 ≤ tRP (tm c)) by (destruct Hw as [_ ? _]; lia).
    destruct (prechargeBank_ok c ts now b (Z.max (preAllowedAt k) now) true r k)
      as (r' & -> & Hok & Hbk & Hct & _); [done..|lia|by apply fits_max|].
    exists r'. split_and!; [done..|]. rewrite Hbk. apply list_alter_ext; [|done].
    intros x Hx. rewrite Hk in Hx. injection Hx as <-. unfold closed_bank. by rewrite decide_False.
Qed.

(** What [open_for_access] establishes. *)
Record opened_post (c : Config) (now : Tick) (b row : Z) (k : Bank) (r r' : Rank) : Prop := {
  op_ok : rank_ok c r';
  op_control : control r' = control r;
  op_cols : cols_kept r r';
  op_bank : ∃ k', banks r' !! Z.to_nat b = Some k' ∧ openRow k' = row ∧ bankgr k' = bankgr k ∧
    fits c 4 (preAllowedAt k');
}.

Lemma act_time_fits c now k :
  timing_wf c → bank_fits c 6 k → fits c 6 now → fits c 5 (act_time c now k).
Proof.
  intros Hw (Hc & Hp & Ha) Hn. unfold act_time, closed_bank.
  assert (∀ x, fits c 6 x → fits c 5 x) as H65 by (intros; by apply (fits_mono c 5 6)).
  apply fits_max; [|by apply H65]. case_decide; [by apply H65|]. unfold pre_bank. simpl.
  apply fits_max; [by apply H65|]. apply (fits_add c 5); [lia|by apply fits_max|delay].
Qed.

Lemma open_for_access_ok c ts now b row r k :
  timing_wf c → rank_ok c r → 0 ≤ b → banks r !! Z.to_nat b = Some k → row ≠ NO_ROW →
  bank_fits c 6 k → fits c 6 now →
  ∃ r', open_for_access c ts now b row r
          = Ok (r', col_time c now row k, bool_decide (openRow k = row)) ∧
    opened_post c now b row k r r'.
Proof.
  intros Hw Hr Hb Hk Hrow Hfit Hn. pose proof (act_time_fits _ _ _ Hw Hfit Hn) as Hact.
  destruct Hfit as (Hc & Hp & Ha). unfold open_for_access, col_time.
  rewrite (get_bank_ok r b k) by done. cbv [mbind res_mbind].
  destruct (Z.eqb_spec (openRow k) row) as [E|E].
  { exists r. rewrite decide_True, bool_decide_true by done. split; [done|].
    split; [done|done|apply cols_kept_refl|]. exists k. split_and!; [done..|by apply (fits_mono c 4 6)]. }
  rewrite decide_False, bool_decide_false by done.
  destruct (close_open_row_ok c ts now b r k) as (r1 & -> & Hr1 & Hc1 & Hb1);
    [done..|by apply (fits_mono c 1 6)|by apply (fits_mono c 1 6)|].
  assert (banks r1 !! Z.to_nat b = Some (closed_bank c now k)) as Hk1
    by (by rewrite Hb1, list_lookup_alter_eq, Hk).
  rewrite (get_bank_ok r1 b (closed_bank c now k)) by done. cbv zeta.
  change (Z.max (actAllowedAt (closed_bank c now k)) now) with (act_time c now k).
  destruct (activateBank_ok c ts now b (act_time c now k) row r1 (closed_bank c now k))
    as (r2 & -> & Hr2 & Hs2 & _); [done|done|done|done|apply closed_bank_closed|done|
      unfold act_time; lia|unfold act_time; lia|by apply (fits_mono c 1 5)|].
  destruct (bs_this _ _ _ _ _ Hs2 _ Hk1) as (k2 & Hk2 & t & _ & ->).
  rewrite (get_bank_ok r2 b _ Hb Hk2). exists r2. split.
  { simpl. by rewrite (proj1 (closed_bank_kept c now k)). }
  split; [done|by rewrite (bs_control _ _ _ _ _ Hs2)| |].
  - eapply cols_kept_trans; [eapply cols_kept_alter; [done|]|eapply cols_kept_step; [done|]].
    + intros k0. destruct (closed_bank_kept c now k0). lia.
    + intros k0. simpl. split; [lia|done].
  - eexists. split_and!; [done|done|apply closed_bank_kept|]. simpl.
    apply (fits_add c 4); [lia|done|delay].
Qed.

(** ** The command sequence of a row operation *)

Definition step_time (c : Config) (st : RowStep) : Tick :=
  match st with AAP _ _ => aap_time c | AP _ => ap_time c end.

Fixpoint steps_time (c : Config) (steps : list RowStep) : Tick :=
  match steps with [] => 0 | st :: steps => step_time c st + steps_time c steps end.

Definition step_ok (st : RowStep) : Prop :=
  match st with AAP _ _ => True | AP row => row ≠ NO_ROW end.

(** The activation limits do not delay the next primitive. *)
Definition step_covers (c : Config) (st : RowStep) : Prop :=
  Z.max (tRRD_L (tm c)) (tXAW (tm c)) ≤ step_time c st.

Lemma rowop_steps_ok o row src1_row src2_row : Forall step_ok (rowop_steps o row src1_row src2_row).
Proof. destruct o; simpl; repeat constructor; done. Qed.

Lemma rowop_steps_length o row src1_row src2_row :
  (length (rowop_steps o row src1_row src2_row) ≤ 7)%nat.
Proof. destruct o; simpl; lia. Qed.

Lemma step_time_bounds c st : timing_wf c → 0 ≤ step_time c st ≤ span c.
Proof. intros Hw. destruct st; unfold step_time, aap_time, ap_time; delay. Qed.

Lemma act_limit_bounds c t : timing_wf c → t ≤ act_limit c t ≤ t + span c.
Proof. intros Hw. unfold act_limit. split; [timing Hw; lia|]. clear -Hw. timing Hw. unfold span. lia. Qed.

Lemma run_step_ok c ts now b t st r k :
  timing_wf c → rank_ok c r → 0 ≤ b → banks r !! Z.to_nat b = Some k → openRow k = NO_ROW →
  actAllowedAt k ≤ t → now ≤ t → fits c 2 t → step_ok st →
  ∃ r', run_step c ts now b t st r = Ok r' ∧ prim_post c b t (step_time c st) r r'.
Proof. intros. destruct st; [by eapply aapBank_ok|by eapply apBank_ok]. Qed.

Lemma prim_cols c b t d r r' : rank_ok c r → prim_post c b t d r r' → cols_kept r r'.
Proof.
  intros Hr [Hok _ Ht Ho _ _]. split.
  { pose proof (ro_banks _ _ Hr). pose proof (ro_banks _ _ Hok). lia. }
  intros j k Hk. destruct (decide (j = Z.to_nat b)) as [->|Hj].
  - destruct (Ht k Hk) as (k' & ? & _ & _ & ? & ? & _). exists k'. split_and!; [done|lia|done].
  - destruct (Ho j k Hj Hk) as (k' & ? & u & _ & ->). by eexists.
Qed.

(** What [run_steps] establishes. *)
Record steps_post (c : Config) (b : Z) (t : Tick) (steps : list RowStep) (r r' : Rank) (t' : Tick) :
    Prop := {
  sp_ok : rank_ok c r';
  sp_control : control r' = control r;
  sp_cols : cols_kept r r';
  sp_closed : ∃ k', banks r' !! Z.to_nat b = Some k' ∧ openRow k' = NO_ROW;
  sp_fits : fits c 1 t';
  sp_lower : t + steps_time c steps ≤ t';
  sp_exact : Forall (step_covers c) steps → t' = t + steps_time c steps;
}.

Lemma run_steps_ok c ts now b steps : ∀ t r k,
  timing_wf c → rank_ok c r → 0 ≤ b → banks r !! Z.to_nat b = Some k → openRow k = NO_ROW →
  actAllowedAt k ≤ t → now ≤ t → fits c (Z.of_nat (length steps) + 1) t → Forall step_ok steps →
  ∃ r' t', run_steps c ts now b t steps r = Ok (r', t') ∧ steps_post c b t steps r r' t'.
Proof.
  induction steps as [|st steps IH]; intros t r k Hw Hr Hb Hk Ho Ha Hn Hfit Hs.
  { exists r, t. split; [done|]. split; [done|done|apply cols_kept_refl|by exists k|done|simpl; lia|].
    intros _. simpl. lia. }
  apply Forall_cons in Hs as [Hst Hs]. simpl length in Hfit. rewrite Nat2Z.inj_succ in Hfit.
  destruct (run_step_ok c ts now b t st r k) as (r1 & E1 & Hp);
    [done..|eapply fits_mono; [done|done|lia]|done|].
  simpl run_steps. rewrite E1. cbv [mbind res_mbind].
  destruct (pp_this _ _ _ _ _ _ Hp k Hk) as (k1 & Hk1 & Ho1 & _ & _ & _ & Ha1).
  rewrite (get_bank_ok r1 b k1) by done.
  pose proof (step_time_bounds c st Hw). pose proof (act_limit_bounds c t Hw).
  destruct (IH (actAllowedAt k1) r1 k1) as (r' & t' & E & [Hok Hc Hcl Hcd Hf Hl He]);
    [done|by destruct Hp|done|done|done|lia|lia| |done|].
  { destruct Hfit. split; lia. }
  exists r', t'. split; [done|].
  split; [done|by rewrite Hc, (pp_control _ _ _ _ _ _ Hp)| |done|done|simpl; lia|].
  - eapply cols_kept_trans; [by eapply prim_cols|done].
  - intros [Hcov Hcovs]%Forall_cons. simpl. rewrite (He Hcovs). unfold step_covers, act_limit in *. lia.
Qed.

(** ** Ranks of the controller *)

Definition ranks_kept (c : Config) (l l' : list Rank) : Prop :=
  Forall2 (λ r r', rank_ok c r' ∧ control r' = control r ∧ cols_kept r r') l l'.

Lemma get_rank_ok s i r : 0 ≤ i → ranks s !! Z.to_nat i = Some r → get_rank s i = Ok r.
Proof. intros ? Hl. unfold get_rank, at_. by rewrite decide_True, Hl by done. Qed.

Lemma ranks_kept_refl c l : Forall (rank_ok c) l → ranks_kept c l l.
Proof. intros H. induction H; constructor; [|done]. split_and!; [done|done|apply cols_kept_refl]. Qed.

Lemma ranks_kept_ok c l l' : ranks_kept c l l' → Forall (rank_ok c) l'.
Proof. induction 1 as [|????(?&_)]; by constructor. Qed.

Lemma ranks_kept_insert c l l' i r r1 :
  ranks_kept c l l' → l !! i = Some r → rank_ok c r1 → control r1 = control r → cols_kept r r1 →
  ranks_kept c l (<[i := r1]> l').
Proof.
  intros H Hi ???. rewrite <- (list_insert_id l i r) by done. by apply Forall2_insert.
Qed.

Lemma ranks_kept_trans c l1 l2 l3 : ranks_kept c l1 l2 → ranks_kept c l2 l3 → ranks_kept c l1 l3.
Proof.
  apply Forall2_trans. intros r1 r2 r3 (_ & E1 & K1) (Hok & E2 & K2).
  split_and!; [done|by rewrite E2|by eapply cols_kept_trans].
Qed.

(** The state [doDRAMAccess] needs: the invariants, a bank that exists, and ticks
    away from the end of the 64-bit range. *)
Record access_ready (now : Tick) (s : DRAMCtrl) (dp : DRAMPacket) (r : Rank) (k : Bank) : Prop := {
  ar_timing : timing_wf (cfg s);
  ar_ranks : Forall (rank_ok (cfg s)) (ranks s);
  ar_rank : 0 ≤ DRAMPacket.rank dp ∧ ranks s !! Z.to_nat (DRAMPacket.rank dp) = Some r;
  ar_bank : 0 ≤ DRAMPacket.bank dp ∧ banks r !! Z.to_nat (DRAMPacket.bank dp) = Some k;
  ar_row : DRAMPacket.row dp ≠ NO_ROW;
  ar_fits : bank_fits (cfg s) 9 k;
  ar_now : fits (cfg s) 9 now;
  ar_bus : tCL (tm (cfg s)) ≤ busBusyUntil s ∧ fits (cfg s) 9 (busBusyUntil s);
}.

(** The members that an access leaves alone. *)
Definition access_frame (s : DRAMCtrl) :=
  ((cfg s, mem s, packets s, port s, isTimingMode s, retryRdReq s, retryWrReq s, busState s),
   (nextReqEvent s, respondEvent s, readQueue s, writeQueue s, isInWriteQueue s, respQueue s),
   (helpers s, prevArrival s, timeStampOffset s, pendingDelete s, drain_state s, retriesSent s)).

(** What every access establishes; [ready] is when its data is available. *)
Record access_post (s : DRAMCtrl) (dp : DRAMPacket) (ready : Tick) (s' : DRAMCtrl) : Prop := {
  ap_frame : access_frame s' = access_frame s;
  ap_bus : busBusyUntil s' = ready;
  ap_next : nextReqTime s' = next_req_time (cfg s) ready;
  ap_active : activeRank s' = DRAMPacket.rank dp;
  ap_ranks : ranks_kept (cfg s) (ranks s) (ranks s');
}.

(** ** Row operations *)

(** When the first primitive of a row operation is issued. *)
Definition rowop_start (c : Config) (now : Tick) (k : Bank) : Tick :=
  Z.max (Z.max (colAllowedAt k) now) (actAllowedAt (closed_bank c now k)).

Definition packet_steps (o : RowOp) (dp : DRAMPacket) : list RowStep :=
  rowop_steps o (DRAMPacket.row dp) (DRAMPacket.src1_row dp) (DRAMPacket.src2_row dp).

Lemma rowop_start_fits c now k :
  timing_wf c → bank_fits c 9 k → fits c 9 now → fits c 8 (rowop_start c now k).
Proof.
  intros Hw (Hc & Hp & Ha) Hn. unfold rowop_start, closed_bank.
  assert (∀ x, fits c 9 x → fits c 8 x) as H98 by (intros; by apply (fits_mono c 8 9)).
  apply fits_max; [by apply H98, fits_max|]. case_decide; [by apply H98|]. unfold pre_bank. simpl.
  apply fits_max; [by apply H98|]. apply (fits_add c 8); [lia|by apply fits_max|delay].
Qed.

Lemma do_row_op_ok now s dp r k o :
  access_ready now s dp r k → DRAMPacket.row_op dp = Some o →
  ∃ s' r' t', do_row_op now s dp
      = Ok (s', DRAMPacket.set_readyTime (t' + tCL (tm (cfg s))) dp) ∧
    access_post s dp (t' + tCL (tm (cfg s))) s' ∧
    pendingRowOps s' = pendingRowOps s - 1 ∧
    ranks s' = <[Z.to_nat (DRAMPacket.rank dp) := r']> (ranks s) ∧
    rowop_start (cfg s) now k + steps_time (cfg s) (packet_steps o dp) ≤ t' ∧
    (Forall (step_covers (cfg s)) (packet_steps o dp) →
       t' = rowop_start (cfg s) now k + steps_time (cfg s) (packet_steps o dp)) ∧
    ∃ k', banks r' !! Z.to_nat (DRAMPacket.bank dp) = Some k' ∧ openRow k' = NO_ROW.
Proof.
  intros [Hw Hrs [Hi Hr] [Hb Hk] _ Hf Hn _] Ho. unfold do_row_op.
  pose proof (rowop_start_fits _ _ _ Hw Hf Hn) as Hst. destruct Hf as (_ & Hp & _).
  assert (rank_ok (cfg s) r) as Hr0 by (by eapply Forall_lookup_1).
  rewrite (get_rank_ok _ _ _ Hi Hr). cbv [mbind res_mbind]. rewrite (get_bank_ok _ _ _ Hb Hk).
  destruct (close_open_row_ok (cfg s) (timeStampOffset s) now (DRAMPacket.bank dp) r k)
    as (r1 & -> & Hr1 & Hc1 & Hb1); [done..|by apply (fits_mono _ 1 9)|by apply (fits_mono _ 1 9)|].
  assert (banks r1 !! Z.to_nat (DRAMPacket.bank dp) = Some (closed_bank (cfg s) now k)) as Hk1
    by (by rewrite Hb1, list_lookup_alter_eq, Hk).
  rewrite (get_bank_ok _ _ _ Hb Hk1), Ho. cbv zeta. cbv [mret res_mret].
  change (Z.max (Z.max (colAllowedAt k) now) (actAllowedAt (closed_bank (cfg s) now k)))
    with (rowop_start (cfg s) now k).
  destruct (run_steps_ok (cfg s) (timeStampOffset s) now (DRAMPacket.bank dp) (packet_steps o dp)
    (rowop_start (cfg s) now k) r1 (closed_bank (cfg s) now k))
    as (r' & t' & Erun & [Hok Hct Hcl Hcd Hft Hl He]);
    [done|done|done|done|apply closed_bank_closed|unfold rowop_start; lia|unfold rowop_start; lia| |
     apply rowop_steps_ok|].
  { pose proof (rowop_steps_length o (DRAMPacket.row dp) (DRAMPacket.src1_row dp) (DRAMPacket.src2_row dp)).
    eapply fits_mono; [done|done|]. unfold packet_steps. lia. }
  unfold packet_steps in Erun. rewrite Erun. rewrite (fits_add64 (cfg s)) by (done || delay).
  eexists _, r', t'. split; [reflexivity|]. split; [|done].
  split; [done|done|done|done|]. simpl. eapply ranks_kept_insert; [by apply ranks_kept_refl|done|done| |].
  - by rewrite Hct.
  - eapply cols_kept_trans; [eapply cols_kept_alter; [done|]|done]. intros k0.
    destruct (closed_bank_kept (cfg s) now k0). lia.
Qed.

(** ** Bursts *)

(** The column command of a burst. *)
Definition burst_cmd (s : DRAMCtrl) (now : Tick) (row : Z) (k : Bank) : Tick :=
  Z.max (col_time (cfg s) now row k) (busBusyUntil s - tCL (tm (cfg s))).

(** The guard of the constructor on bank-group timing. *)
Definition ccd_ok (c : Config) : Prop := bankGroupArch c = true → tBURST (tm c) < tCCD_L (tm c).

(** Every bank of the controller can take its next column command from [t] on. *)
Definition cols_from (t : Tick) (l : list Rank) : Prop :=
  ∀ r k, r ∈ l → k ∈ banks r → t ≤ colAllowedAt k.

Lemma cmd_dly_bounds c rk bgr j k t :
  timing_wf c → ccd_ok c → fits c 1 t →
  tBURST (tm c) ≤ cmd_dly c rk bgr j k ≤ span c ∧
  add64 t (cmd_dly c rk bgr j k) = t + cmd_dly c rk bgr j k.
Proof.
  intros Hw Hccd [Ht0 Ht].
  assert (tBURST (tm c) ≤ cmd_dly c rk bgr j k ≤ span c) as H.
  { unfold cmd_dly. destruct (rk =? j).
    - destruct (bankGroupArch c) eqn:E; simpl; [specialize (Hccd E)|]; [destruct (_ =? _)|];
        (split; [lia|delay]).
    - assert (0 ≤ tBURST (tm c) + tCS (tm c) ≤ span c) by delay. rewrite add64_small by lia.
      destruct Hw as [_ Hn _]. lia. }
  split; [done|]. apply add64_small. destruct Hw as [_ Hn _]. lia.
Qed.

Lemma update_columns_ok c rk bgr t l :
  timing_wf c → ccd_ok c → fits c 1 t → Forall (rank_ok c) l →
  ranks_kept c l (update_columns c rk bgr t l) ∧
  cols_from (t + tBURST (tm c)) (update_columns c rk bgr t l).
Proof.
  intros Hw Hccd Ht Hl. unfold update_columns. split.
  - apply Forall2_same_length_lookup_2; [by rewrite length_imap|]. intros j r r' Hr Hr'.
    rewrite list_lookup_imap, Hr in Hr'. injection Hr' as <-. split_and!; [|done|].
    + apply rank_ok_on_banks; [by eapply Forall_lookup_1|done].
    + split; [apply length_fmap|]. intros i k Hk. simpl. rewrite list_lookup_fmap, Hk. simpl.
      eexists. split; [done|]. simpl. split; [lia|done].
  - intros r' k' (j & r & -> & Hr)%elem_of_lookup_imap_1. simpl.
    intros (k & -> & Hk)%list_elem_of_fmap. simpl.
    destruct (cmd_dly_bounds c rk bgr (Z.of_nat j) k t) as [? ->]; [done..|]. lia.
Qed.

Lemma cols_from_kept c t l l' : cols_from t l → ranks_kept c l l' → cols_from t l'.
Proof.
  intros H Hk r' k' [j Hr']%list_elem_of_lookup_1 [i Hk']%list_elem_of_lookup_1.
  destruct (Forall2_lookup_r _ _ _ _ _ Hk Hr') as (r & Hr & _ & _ & Hlen & Hc).
  destruct (lookup_lt_is_Some_2 (banks r) i) as [k Hki].
  { rewrite <- Hlen. by eapply lookup_lt_Some. }
  destruct (Hc i k Hki) as (k2 & Hk2 & ? & _). rewrite Hk' in Hk2. injection Hk2 as <-.
  pose proof (H r k ltac:(by eapply list_elem_of_lookup_2) ltac:(by eapply list_elem_of_lookup_2)). lia.
Qed.

(** The end of a burst: the bank's bookkeeping, the auto-precharge, the command
    for the power model. *)
Lemma burst_end_ok c ts now b dp (close : Bank → bool) kind cmd r k :
  timing_wf c → rank_ok c r → 0 ≤ b → banks r !! Z.to_nat b = Some k → openRow k ≠ NO_ROW →
  fits c 3 (preAllowedAt k) → fits c 3 cmd → fits c 2 (DRAMPacket.readyTime dp) → fits c 1 now →
  ∃ r', (bk ← get_bank (on_bank b (touch_bank c dp cmd) r) b;
         r ← (if close bk then prechargeBank c ts now b (Z.max now (preAllowedAt bk)) true
                                (on_bank b (touch_bank c dp cmd) r)
              else mret (on_bank b (touch_bank c dp cmd) r));
         doCommand c ts kind b cmd r) = Ok r' ∧
    rank_ok c r' ∧ control r' = control r ∧ cols_kept r r'.
Proof.
  intros Hw Hr Hb Hk Ho Hp Hc Hrd Hn. set (r1 := on_bank b (touch_bank c dp cmd) r).
  assert (rank_ok c r1) as Hr1 by (by apply rank_ok_on_bank).
  assert (cols_kept r r1) as Hc1 by (by eapply cols_kept_alter).
  pose proof (on_bank_lookup b (touch_bank c dp cmd) r k Hk) as Hk1. fold r1 in Hk1.
  rewrite (get_bank_ok _ _ _ Hb Hk1). cbv [mbind res_mbind].
  assert (∀ r0, ∃ r', doCommand c ts kind b cmd r0 = Ok r' ∧ control r' = control r0 ∧
    banks r' = banks r0 ∧ (rank_ok c r0 → rank_ok c r')) as Hcmd.
  { intros r0. destruct (doCommand_ok c ts kind b cmd r0) as [l E]; [done|by apply (fits_mono c 1 3)|].
    eexists. split; [exact E|]. split_and!; [done|done|]. by intros []. }
  destruct (close _).
  - destruct (prechargeBank_ok c ts now b (Z.max now (preAllowedAt (touch_bank c dp cmd k))) true r1 _
      Hw Hr1 Hb Hk1) as (r2 & -> & Hr2 & Hb2 & Hc2 & _); [done|timing Hw; lia| |].
    { apply fits_max; [done|]. simpl. apply fits_max; [by apply (fits_mono c 1 3)|].
      destruct (DRAMPacket.isRead dp); rewrite (fits_add64 c) by (try delay; by eapply fits_mono);
        apply (fits_add c 1); try lia; try delay; by eapply fits_mono. }
    destruct (Hcmd r2) as (r' & -> & Hc' & Hb' & Hk'). exists r'.
    split_and!; [done|by apply Hk'|by rewrite Hc', Hc2|]. eapply cols_kept_trans; [done|].
    eapply cols_kept_alter; [by rewrite Hb'|done].
  - destruct (Hcmd r1) as (r' & E & Hc' & Hb' & Hk'). exists r'.
    split_and!; [done|by apply Hk'|done|]. eapply cols_kept_trans; [done|]. split; [by rewrite Hb'|].
    intros j k0 Hk0. rewrite Hb'. by exists k0.
Qed.

(** Where the burst's timing comes from, with the assertion that the data bus is
    free for the burst. *)
Lemma burst_cmd_fits now s dp r k :
  access_ready now s dp r k → fits (cfg s) 4 (burst_cmd s now (DRAMPacket.row dp) k).
Proof.
  intros [Hw _ _ _ _ (Hc & Hp & Ha) Hn [Hb0 Hb]]. unfold burst_cmd, col_time.
  assert (∀ x, fits (cfg s) 9 x → fits (cfg s) 4 x) as H94 by (intros; by apply (fits_mono _ 4 9)).
  apply fits_max.
  - case_decide; [by apply H94, fits_max|]. apply fits_max; [|by apply H94].
    apply (fits_add _ 4); [lia| |delay]. apply act_time_fits; [done|split_and!|]; by apply (fits_mono _ 6 9).
  - apply (H94 (busBusyUntil s)) in Hb as [? ?]. assert (0 ≤ tCL (tm (cfg s)) ≤ span (cfg s)) by delay.
    split; lia.
Qed.

Lemma burst_bus_free now s dp r k :
  access_ready now s dp r k →
  0 ≤ busBusyUntil s - tCL (tm (cfg s)) < 2 ^ 64 ∧
  tBURST (tm (cfg s)) ≤ sub64 (burst_cmd s now (DRAMPacket.row dp) k + tCL (tm (cfg s))
                                + tBURST (tm (cfg s))) (busBusyUntil s).
Proof.
  intros Hall. pose proof (burst_cmd_fits _ _ _ _ _ Hall) as [Hc0 Hc].
  destruct Hall as [Hw _ _ _ _ _ _ [Hb [Hb0 Hbf]]]. pose proof (span_pos _ Hw).
  assert (0 ≤ tCL (tm (cfg s)) + tBURST (tm (cfg s)) ≤ span (cfg s)) by delay.
  destruct Hw as [_ Hn _]. split; [lia|]. unfold burst_cmd in *. rewrite sub64_small; lia.
Qed.

Lemma access_stats_frame s dp cmd hit :
  access_frame (access_stats s dp cmd hit) = access_frame s ∧
  busBusyUntil (access_stats s dp cmd hit) = busBusyUntil s ∧
  nextReqTime (access_stats s dp cmd hit) = nextReqTime s ∧
  activeRank (access_stats s dp cmd hit) = activeRank s ∧
  ranks (access_stats s dp cmd hit) = ranks s ∧
  pendingRowOps (access_stats s dp cmd hit) = pendingRowOps s.
Proof. unfold access_stats. destruct (DRAMPacket.isRead dp), hit; done. Qed.

Lemma finish_burst_ok now s dp cmd hit r k :
  timing_wf (cfg s) → Forall (rank_ok (cfg s)) (ranks s) →
  0 ≤ DRAMPacket.rank dp → ranks s !! Z.to_nat (DRAMPacket.rank dp) = Some r →
  0 ≤ DRAMPacket.bank dp → banks r !! Z.to_nat (DRAMPacket.bank dp) = Some k → openRow k ≠ NO_ROW →
  fits (cfg s) 3 (preAllowedAt k) → fits (cfg s) 3 cmd → fits (cfg s) 2 (DRAMPacket.readyTime dp) →
  fits (cfg s) 1 now → activeRank s = DRAMPacket.rank dp →
  ∃ s', finish_burst now s dp cmd hit = Ok (s', dp) ∧
    access_post s dp (DRAMPacket.readyTime dp) s' ∧ pendingRowOps s' = pendingRowOps s.
Proof.
  intros Hw Hrs Hi Hr Hb Hk Ho Hp Hc Hrd Hn Hact. unfold finish_burst.
  assert (rank_ok (cfg s) r) as Hr0 by (by eapply Forall_lookup_1).
  destruct (burst_end_ok (cfg s) (timeStampOffset s) now (DRAMPacket.bank dp) dp (auto_precharge s dp)
    (if DRAMPacket.isRead dp then RD else WR) cmd r k) as (r' & E & Hok & Hct & Hcl); [done..|].
  rewrite (get_rank_ok _ _ _ Hi Hr). apply bind_Ok_inv in E as (bk & E1 & E).
  apply bind_Ok_inv in E as (r2 & E2 & E3). cbv [mbind res_mbind]. rewrite E1, E2. cbv zeta. rewrite E3.
  match goal with |- context [access_stats ?s' _ _ _] =>
    destruct (access_stats_frame s' dp cmd hit) as (F1 & F2 & F3 & F4 & F5 & F6) end.
  eexists. split; [reflexivity|]. split; [|by rewrite F6].
  split; [by rewrite F1|by rewrite F2|by rewrite F3|by rewrite F4|]. rewrite F5. simpl.
  by eapply ranks_kept_insert; [apply ranks_kept_refl|..].
Qed.

Lemma do_burst_ok now s dp r k :
  access_ready now s dp r k → ccd_ok (cfg s) →
  let cmd := burst_cmd s now (DRAMPacket.row dp) k in
  let ready := cmd + tCL (tm (cfg s)) + tBURST (tm (cfg s)) in
  ∃ s', do_burst now s dp = Ok (s', DRAMPacket.set_readyTime ready dp) ∧
    access_post s dp ready s' ∧ cols_from (cmd + tBURST (tm (cfg s))) (ranks s') ∧
    pendingRowOps s' = pendingRowOps s.
Proof.
  intros Hall Hccd cmd ready. pose proof (burst_cmd_fits _ _ _ _ _ Hall) as Hcmd. fold cmd in Hcmd.
  destruct (burst_bus_free _ _ _ _ _ Hall) as [Hsub Hfree]. fold cmd ready in Hfree.
  destruct Hall as [Hw Hrs [Hi Hr] [Hb Hk] Hrow Hf Hn [Hbus Hbusf]]. unfold do_burst.
  assert (rank_ok (cfg s) r) as Hr0 by (by eapply Forall_lookup_1).
  rewrite (get_rank_ok _ _ _ Hi Hr). cbv [mbind res_mbind].
  destruct (open_for_access_ok (cfg s) (timeStampOffset s) now (DRAMPacket.bank dp) (DRAMPacket.row dp) r k)
    as (r1 & -> & [Hr1 Hc1 Hcl1 (k1 & Hk1 & Ho1 & Hg1 & Hp1)]);
    [done..|split_and!; eapply fits_mono; [done|apply Hf|lia|done|apply Hf|lia|done|apply Hf|lia]|
     by apply (fits_mono _ 6 9)|].
  rewrite (sub64_small (busBusyUntil s)) by done. cbv zeta.
  change (Z.max (col_time _ _ _ _) _) with cmd.
  assert (fits (cfg s) 3 (cmd + tCL (tm (cfg s)))) as Hcl by (apply (fits_add _ 3); [lia|done|delay]).
  assert (fits (cfg s) 2 ready) as Hrd by (apply (fits_add _ 2); [lia|done|delay]).
  rewrite (fits_add64 (cfg s) cmd) by (try delay; by eapply fits_mono).
  rewrite (fits_add64 (cfg s) (cmd + _)) by (try delay; by eapply fits_mono). fold ready.
  simpl DRAMPacket.readyTime. rewrite (proj2 (Z.leb_le _ _)); cbn [check].
  2: { exact Hfree. }
  rewrite (get_bank_ok _ _ _ Hb Hk1). set (s1 := set_activeRank _ _).
  assert (ranks_kept (cfg s) (ranks s) (<[Z.to_nat (DRAMPacket.rank dp) := r1]> (ranks s))) as Hk0
    by (by eapply ranks_kept_insert; [apply ranks_kept_refl|..]).
  destruct (update_columns_ok (cfg s) (DRAMPacket.rank dp) (bankgr k1) cmd
    (<[Z.to_nat (DRAMPacket.rank dp) := r1]> (ranks s))) as [Hu1 Hu2];
    [done|done|by eapply fits_mono|by eapply ranks_kept_ok|].
  destruct (finish_burst_ok now s1 (DRAMPacket.set_readyTime ready dp) cmd
    (bool_decide (openRow k = DRAMPacket.row dp))
    (on_banks (delay_column (cfg s) (DRAMPacket.rank dp) (bankgr k1) cmd (Z.to_nat (DRAMPacket.rank dp))) r1)
    (delay_column (cfg s) (DRAMPacket.rank dp) (bankgr k1) cmd (Z.to_nat (DRAMPacket.rank dp)) k1))
    as (s' & -> & [Fr Fb Fx Fa Fk] & Hpend);
    [done|by eapply ranks_kept_ok|done| |done|simpl; by rewrite list_lookup_fmap, Hk1|by rewrite <- Ho1 in Hrow|
     by eapply fits_mono|by eapply fits_mono|done|by eapply fits_mono|done|].
  { simpl. unfold update_columns. rewrite list_lookup_imap, list_lookup_insert_eq; [done|].
    by eapply lookup_lt_Some. }
  exists s'. split; [done|]. split; [|split; [by eapply cols_from_kept|done]].
  split; [by rewrite Fr|done|done|done|].
  eapply ranks_kept_trans; [exact Hk0|]. eapply ranks_kept_trans; [exact Hu1|exact Fk].
Qed.

(** ** Sequences of accesses

    [bus_step] lists what happens to the controller between two accesses: a burst,
    a row operation, or anything that leaves the bus alone and only moves column
    constraints later (queueing, refresh).  The history has the ends of the data
    bursts, the latest first. *)

Inductive bus_step : DRAMCtrl * list Tick → DRAMCtrl * list Tick → Prop :=
  | bus_burst now s dp r k s' dp' h :
      access_ready now s dp r k → DRAMPacket.is_row_op dp = false →
      doDRAMAccess now s dp = Ok (s', dp') → bus_step (s, h) (s', DRAMPacket.readyTime dp' :: h)
  | bus_rowop now s dp r k s' dp' o h :
      access_ready now s dp r k → DRAMPacket.is_row_op dp = true → DRAMPacket.row_op dp = Some o →
      doDRAMAccess now s dp = Ok (s', dp') → bus_step (s, h) (s', h)
  | bus_other s s' h :
      cfg s' = cfg s → busBusyUntil s' = busBusyUntil s → Forall (rank_ok (cfg s)) (ranks s') →
      (∀ t, cols_from t (ranks s) → cols_from t (ranks s')) → bus_step (s, h) (s', h).

(** [e2] ends a burst that starts after the burst that ends at [e1]. *)
Definition after_burst (c : Config) (e2 e1 : Tick) : Prop := e1 + tBURST (tm c) ≤ e2.

Record bus_ok (c : Config) (x : DRAMCtrl * list Tick) : Prop := {
  bo_cfg : cfg x.1 = c;
  bo_ranks : Forall (rank_ok c) (ranks x.1);
  bo_bus : tCL (tm c) ≤ busBusyUntil x.1;
  bo_past : ∀ e, e ∈ x.2 → e ≤ busBusyUntil x.1 ∧ cols_from (e - tCL (tm c)) (ranks x.1);
  bo_order : StronglySorted (after_burst c) x.2;
}.

Lemma cols_from_bank t s dp r k now :
  cols_from t (ranks s) → access_ready now s dp r k → t ≤ colAllowedAt k.
Proof. intros H []. destruct_and!. eapply H; by eapply list_elem_of_lookup_2. Qed.

Lemma frame_cfg s s' : access_frame s' = access_frame s → cfg s' = cfg s.
Proof. unfold access_frame. congruence. Qed.

Lemma steps_time_nonneg c steps : timing_wf c → 0 ≤ steps_time c steps.
Proof.
  intros Hw. induction steps as [|st steps IH]; simpl; [lia|].
  pose proof (step_time_bounds c st Hw). lia.
Qed.

Lemma bus_ok_burst c now s dp r k s' dp' h :
  timing_wf c → ccd_ok c → bus_ok c (s, h) → access_ready now s dp r k →
  do_burst now s dp = Ok (s', dp') → bus_ok c (s', DRAMPacket.readyTime dp' :: h).
Proof.
  intros Hw Hccd [Hc Hrs Hb Hp Ho] Hall E. simpl in *. subst c.
  destruct (do_burst_ok _ _ _ _ _ Hall Hccd) as (s1 & E1 & [Hf Hbus _ _ Hk] & Hcols & _).
  rewrite E1 in E. injection E as <- <-. simpl in *.
  set (cmd := burst_cmd s now (DRAMPacket.row dp) k) in *.
  assert (∀ e, e ∈ h → e - tCL (tm (cfg s)) ≤ cmd) as Hcmd.
  { intros e He. destruct (Hp e He) as [_ Hce]. pose proof (cols_from_bank _ _ _ _ _ _ Hce Hall).
    unfold cmd, burst_cmd, col_time. case_decide; lia. }
  assert (busBusyUntil s - tCL (tm (cfg s)) ≤ cmd) by (unfold cmd, burst_cmd; lia).
  assert (0 ≤ tBURST (tm (cfg s))) by (destruct Hw as [_ Hn _]; lia).
  split; simpl; [by apply frame_cfg|by eapply ranks_kept_ok|rewrite Hbus; lia| |].
  - intros e [->|He]%elem_of_cons.
    + split; [lia|]. by replace (_ - _) with (cmd + tBURST (tm (cfg s))) by lia.
    + specialize (Hcmd e He). destruct (Hp e He) as [? ?].
      split; [lia|by eapply cols_from_kept].
  - constructor; [done|]. apply Forall_forall. intros e He. unfold after_burst. specialize (Hcmd e He). lia.
Qed.

Lemma bus_ok_rowop c now s dp r k s' dp' o h :
  timing_wf c → bus_ok c (s, h) → access_ready now s dp r k → DRAMPacket.row_op dp = Some o →
  do_row_op now s dp = Ok (s', dp') → bus_ok c (s', h).
Proof.
  intros Hw [Hc Hrs Hb Hp Ho] Hall Hop E. simpl in *. subst c.
  destruct (do_row_op_ok _ _ _ _ _ _ Hall Hop)
    as (s1 & r1 & t' & E1 & [Hf Hbus _ _ Hk] & _ & _ & Hl & _).
  rewrite E1 in E. injection E as <- <-.
  pose proof (steps_time_nonneg (cfg s) (packet_steps o dp) Hw).
  assert (colAllowedAt k ≤ t') by (unfold rowop_start in Hl; lia).
  assert (0 ≤ t') by (destruct (ar_fits _ _ _ _ _ Hall) as ([? _] & _); lia).
  split; simpl; [by apply frame_cfg|by eapply ranks_kept_ok|rewrite Hbus; lia| |done].
  intros e He. destruct (Hp e He) as [? Hce]. pose proof (cols_from_bank _ _ _ _ _ _ Hce Hall).
  split; [lia|by eapply cols_from_kept].
Qed.

Lemma bus_ok_step c x y :
  timing_wf c → ccd_ok c → bus_step x y → bus_ok c x → bus_ok c y.
Proof.
  intros Hw Hccd Hs Hx. destruct Hs as [now s dp r k s' dp' h Ha Hi E|now s dp r k s' dp' o h Ha Hi Ho E|
    s s' h Hc Hb Hr Hcols]; unfold doDRAMAccess in *.
  - rewrite Hi in E. by eapply bus_ok_burst.
  - rewrite Hi in E. by eapply bus_ok_rowop.
  - destruct Hx as [Hxc Hxr Hxb Hxp Hxo]. simpl in *. subst c.
    split; simpl; [done|done|by rewrite Hb| |done].
    intros e He. rewrite Hb. destruct (Hxp e He). split; [done|]. by apply Hcols.
Qed.

(** C7: A data burst is timed from the state of its bank.  On an open row the
    column command waits for the column constraint and the current tick; on a
    closed bank it follows an activate by [tRCD]; on a conflicting row the
    activate follows a precharge by [tRP].  The command also waits for the data
    bus, the data is ready [tCL + tBURST] later, the bus stays free before the
    burst, and no assertion of [doDRAMAccess] fails. *)
Theorem burst_timing (now : Tick) (s : DRAMCtrl) (dp : DRAMPacket) (r : Rank) (k : Bank) :
  access_ready now s dp r k → ccd_ok (cfg s) → DRAMPacket.is_row_op dp = false →
  let t := tm (cfg s) in
  let act := Z.max (actAllowedAt k) now in
  let col :=
    if decide (openRow k = DRAMPacket.row dp) then Z.max (colAllowedAt k) now
    else if decide (openRow k = NO_ROW) then Z.max (act + tRCD t) (colAllowedAt k)
    else Z.max (Z.max act (Z.max (preAllowedAt k) now + tRP t) + tRCD t) (colAllowedAt k) in
  let cmd := Z.max col (busBusyUntil s - tCL t) in
  let ready := cmd + tCL t + tBURST t in
  ∃ s', doDRAMAccess now s dp = Ok (s', DRAMPacket.set_readyTime ready dp) ∧
    access_post s dp ready s' ∧ busBusyUntil s + tBURST t ≤ ready ∧
    cols_from (cmd + tBURST t) (ranks s').
Proof.
  intros Hall Hccd Hop t act col cmd ready.
  assert (cmd = burst_cmd s now (DRAMPacket.row dp) k) as Ecmd.
  { unfold cmd, col, act, burst_cmd, col_time, act_time, closed_bank.
    case_decide; [done|]. case_decide; [done|]. unfold pre_bank. simpl. fold t.
    f_equal. f_equal. f_equal. lia. }
  destruct (do_burst_ok _ _ _ _ _ Hall Hccd) as (s' & E & Hp & Hc & _). rewrite <- Ecmd in E, Hp, Hc.
  exists s'. unfold doDRAMAccess. rewrite Hop. split_and!; [done|done|unfold ready, cmd; lia|done].
Qed.

(** C5: A bulk row operation occupies its bank for the whole command sequence:
    it starts once the bank can take a column command, and is precharged and
    allowed to activate; it takes at least the sum of its primitives, and exactly
    that sum when the activation window does not delay them; then [tCL].  The
    bank is left closed, one pending row operation is retired, and no other rank
    changes. *)
Theorem rowop_timing (now : Tick) (s : DRAMCtrl) (dp : DRAMPacket) (r : Rank) (k : Bank) (o : RowOp) :
  access_ready now s dp r k → DRAMPacket.is_row_op dp = true → DRAMPacket.row_op dp = Some o →
  let c := cfg s in
  let start := rowop_start c now k + steps_time c (packet_steps o dp) + tCL (tm c) in
  ∃ s' dp' r' k', doDRAMAccess now s dp = Ok (s', dp') ∧
    access_post s dp (DRAMPacket.readyTime dp') s' ∧
    start ≤ DRAMPacket.readyTime dp' ∧
    (Forall (step_covers c) (packet_steps o dp) → DRAMPacket.readyTime dp' = start) ∧
    pendingRowOps s' = pendingRowOps s - 1 ∧
    ranks s' = <[Z.to_nat (DRAMPacket.rank dp) := r']> (ranks s) ∧
    banks r' !! Z.to_nat (DRAMPacket.bank dp) = Some k' ∧ openRow k' = NO_ROW.
Proof.
  intros Hall Hi Ho c start. unfold doDRAMAccess. rewrite Hi.
  destruct (do_row_op_ok _ _ _ _ _ _ Hall Ho)
    as (s' & r' & t' & E & Hp & Hpend & Hr & Hl & He & k' & Hk' & Hcl).
  exists s', (DRAMPacket.set_readyTime (t' + tCL (tm c)) dp), r', k'. unfold start, c. simpl.
  split_and!; [done|done|lia| |done|done|done|done]. intros Hcov. rewrite (He Hcov). lia.
Qed.


(** ** Witnesses: a DDR4 channel serving a read, a row operation and a read *)

Definition ex_memory : AbstractMemory.Memory :=
  AbstractMemory.mkMemory DDR4_range None []
    (AbstractMemory.mkStats ∅ ∅ ∅ ∅ ∅ ∅) [].
Definition ex_ctrl : DRAMCtrl :=
  match new_DRAMCtrl DDR4_2400_x64 ex_memory with
  | Ok s => set_busBusyUntil (14160 + 14160 + 14160) s
  | Err _ => mkDRAMCtrl DDR4_config ex_memory ∅ PacketQueue.new false false false READ 0 None None [] []
               ∅ [] ∅ [] 0 0 0 0 0 0 0 [] Running 0 (λ _, 0) [] []
  end.

Definition ex_read (b row : Z) : DRAMPacket :=
  DRAMPacket.mkDRAMPacket 0 0 1 true 0 b row 0 0 false None b 0 64 None.
Definition ex_and : DRAMPacket :=
  DRAMPacket.mkDRAMPacket 0 0 2 false 0 5 100 101 102 true (Some ROWAND) 5 0 32 None.

Definition ex_serve (now : Tick) (dp : DRAMPacket) (s : DRAMCtrl) : DRAMCtrl * DRAMPacket :=
  ok_or (s, dp) (doDRAMAccess now s dp).
Definition ex_ctrl1 : DRAMCtrl := (ex_serve 20000 (ex_read 3 7) ex_ctrl).1.
Definition ex_ctrl2 : DRAMCtrl := (ex_serve 30000 ex_and ex_ctrl1).1.
Definition ex_ctrl3 : DRAMCtrl := (ex_serve 40000 (ex_read 3 8) ex_ctrl2).1.

Definition ex_rank (s : DRAMCtrl) : Rank := ok_or (new_Rank DDR4_config 0) (get_rank s 0).
Definition ex_bank (s : DRAMCtrl) (b : Z) : Bank := ok_or new_Bank (get_bank (ex_rank s) b).

(** Evaluates the premises of an access to a concrete bank. *)
Ltac ex_access :=
  split; [apply DDR4_timing_wf|apply ranks_ok_check; vm_compute; reflexivity|
    split; [by vm_compute|vm_compute; reflexivity]|split; [by vm_compute|vm_compute; reflexivity]|done|
    split_and!; by vm_compute|by vm_compute|split; [|split]; by vm_compute].

Lemma ex_access1 : access_ready 20000 ex_ctrl (ex_read 3 7) (ex_rank ex_ctrl) (ex_bank ex_ctrl 3).
Proof. ex_access. Qed.

Lemma ex_access2 : access_ready 30000 ex_ctrl1 ex_and (ex_rank ex_ctrl1) (ex_bank ex_ctrl1 5).
Proof. ex_access. Qed.

Lemma ex_access3 : access_ready 40000 ex_ctrl2 (ex_read 3 8) (ex_rank ex_ctrl2) (ex_bank ex_ctrl2 3).
Proof. ex_access. Qed.

Lemma DDR4_ccd : ccd_ok DDR4_config.
Proof. by vm_compute. Qed.

(** A read of a closed bank at tick 20000: activate, [tRCD], then the bus. *)
Lemma burst_timing_witness :
  ∃ s', doDRAMAccess 20000 ex_ctrl (ex_read 3 7)
        = Ok (s', DRAMPacket.set_readyTime 51653 (ex_read 3 7)) ∧ busBusyUntil s' = 51653.
Proof.
  destruct (burst_timing 20000 ex_ctrl (ex_read 3 7) (ex_rank ex_ctrl) (ex_bank ex_ctrl 3))
    as (s' & E & Hp & _); [apply ex_access1|apply DDR4_ccd|reflexivity|].
  exists s'. split; [exact E|exact (ap_bus _ _ _ _ Hp)].
Defined.

(** A row [AND] is four AAP primitives of 50160 ps. *)
Lemma rowop_timing_witness :
  ∃ s' dp', doDRAMAccess 30000 ex_ctrl1 ex_and = Ok (s', dp') ∧
    DRAMPacket.readyTime dp' = 37493 + 4 * 50160 + 14160.
Proof.
  destruct (rowop_timing 30000 ex_ctrl1 ex_and (ex_rank ex_ctrl1) (ex_bank ex_ctrl1 5) ROWAND)
    as (s' & dp' & _ & _ & E & _ & _ & Hx & _); [apply ex_access2|reflexivity|reflexivity|].
  exists s', dp'. split; [exact E|]. rewrite Hx; [by vm_compute|].
  repeat constructor; by vm_compute.
Defined.

