(* ===== verification/DRAMSched.v ===== *)
(** * DRAM controller: scheduling (mem/dram_ctrl.cc, [chooseNext],
    [reorderQueue], [minBankPrep])

    The choice of the next packet of a queue.  The chosen packet is moved to the
    front, as in the code. *)

From stdpp Require Import base numbers list gmap.
From S2P Require Import Prelude IntMath Packets AbstractMem Events PktQueue DRAMConfig DRAMState.
From S2P Require Import DRAMBank DRAMCtrlState DRAMAccess.
Import DRAMCtrl.
Local Open Scope Z_scope.

(** ** Bank preparation *)

(** [got_waiting[p->bankId] = true] for the packets to available ranks. *)
Definition mark_waiting (s : DRAMCtrl) (v : list bool) (p : DRAMPacket) : res (list bool) :=
  r ← get_rank s (DRAMPacket.rank p);
  if isAvailable r then
    _ ← at_ v (DRAMPacket.bankId p);
    mret (<[Z.to_nat (DRAMPacket.bankId p) := true]> v)
  else mret v.

Definition got_waiting (s : DRAMCtrl) (queue : list DRAMPacket) : res (list bool) :=
  foldM (mark_waiting s)
    (replicate (Z.to_nat (ranksPerChannel (cfg s) * banksPerRank (cfg s))) false) queue.

(** "simplistic approximation of when the bank can issue an activate", and the
    earliest column command after it. *)
Definition bank_act_at (c : Config) (now : Tick) (k : Bank) : Tick :=
  if openRow k =? NO_ROW then Z.max (actAllowedAt k) now
  else add64 (Z.max (preAllowedAt k) now) (tRP (tm c)).
Definition bank_col_at (c : Config) (now : Tick) (k : Bank) : Tick :=
  Z.max (colAllowedAt k) (add64 (bank_act_at c now k) (tRCD (tm c))).

(** The local variables of [minBankPrep]. *)
Record Prep := mkPrep {
  bank_mask : Z;
  min_act_at : Tick;
  found_seamless_bank : bool;
  hidden_bank_prep : bool;
}.

(** The body of the loop over the banks. *)
Definition prep_bank (now : Tick) (s : DRAMCtrl) (min_col_at hidden_act_max : Tick)
    (waiting : list bool) (st : Prep) (ij : Z * Z) : res Prep :=
  let i := ij.1 in
  let j := ij.2 in
  let c := cfg s in
  let bank_id := u16 (i * banksPerRank c + j) in
  w ← at_ waiting bank_id;
  if negb w then mret st
  else
    r ← get_rank s i;
    assert_ (isAvailable r);;
    k ← get_bank r j;
    let act_at := bank_act_at c now k in
    let new_seamless_bank := bank_col_at c now k <=? min_col_at in
    if new_seamless_bank || (negb (found_seamless_bank st) && (act_at <=? min_act_at st)) then
      let mask :=
        if negb (found_seamless_bank st) && (new_seamless_bank || (act_at <? min_act_at st))
        then 0 else bank_mask st in
      check UB (bank_id <? 64);;
      mret (mkPrep (BitField.replaceBits mask bank_id bank_id 1) act_at
              (found_seamless_bank st || new_seamless_bank) (act_at <=? hidden_act_max))
    else mret st.

Definition bank_coords (c : Config) : list (Z * Z) :=
  seqZ 0 (ranksPerChannel c) ≫= λ i, pair i <$> seqZ 0 (banksPerRank c).

(** [minBankPrep(queue, min_col_at)] *)
Definition minBankPrep (now : Tick) (s : DRAMCtrl) (queue : list DRAMPacket) (min_col_at : Tick) :
    res (Z * bool) :=
  let hidden_act_max := Z.max (sub64 min_col_at (tRCD (tm (cfg s)))) now in
  waiting ← got_waiting s queue;
  st ← foldM (prep_bank now s min_col_at hidden_act_max waiting) (mkPrep 0 MaxTick false false)
         (bank_coords (cfg s));
  mret (bank_mask st, hidden_bank_prep st).

(** ** First-ready scheduling *)

(** The local variables of [reorderQueue]; [selected] is the position in the queue. *)
Record Reorder := mkReorder {
  earliest_banks : Z;
  hidden_prep : bool;
  found_hidden_bank : bool;
  found_prepped_pkt : bool;
  found_earliest_pkt : bool;
  selected : option nat;
}.

Fixpoint reorder_loop (now : Tick) (s : DRAMCtrl) (queue : list DRAMPacket) (min_col_at : Tick)
    (rest : list DRAMPacket) (i : nat) (st : Reorder) : res Reorder :=
  match rest with
  | [] => mret st
  | p :: rest =>
      r ← get_rank s (DRAMPacket.rank p);
      k ← get_bank r (DRAMPacket.bank p);
      let next := reorder_loop now s queue min_col_at rest (S i) in
      if negb (isAvailable r) then next st
      else if openRow k =? DRAMPacket.row p then
        if colAllowedAt k <=? min_col_at then
          mret (mkReorder (earliest_banks st) (hidden_prep st) (found_hidden_bank st)
                  (found_prepped_pkt st) (found_earliest_pkt st) (Some i))
        else if negb (found_hidden_bank st) && negb (found_prepped_pkt st) then
          next (mkReorder (earliest_banks st) (hidden_prep st) (found_hidden_bank st) true
                  (found_earliest_pkt st) (Some i))
        else next st
      else if negb (found_earliest_pkt st) then
        '(banks, hidden) ←
          (if earliest_banks st =? 0 then minBankPrep now s queue min_col_at
           else mret (earliest_banks st, hidden_prep st));
        check UB (DRAMPacket.bankId p <? 64);;
        if negb (BitField.bits banks (DRAMPacket.bankId p) (DRAMPacket.bankId p) =? 0) then
          next (mkReorder banks hidden hidden (found_prepped_pkt st) true
                  (if hidden || negb (found_prepped_pkt st) then Some i else selected st))
        else
          next (mkReorder banks hidden (found_hidden_bank st) (found_prepped_pkt st)
                  (found_earliest_pkt st) (selected st))
      else next st
  end.

(** [queue.erase(it); queue.push_front(pkt);] *)
Definition move_front (i : nat) (queue : list DRAMPacket) : res (list DRAMPacket) :=
  match queue !! i with
  | Some p => mret (p :: delete i queue)
  | None => Err UB
  end.

(** [reorderQueue(queue, extra_col_delay)]: whether a packet was found, and the queue. *)
Definition reorderQueue (now : Tick) (s : DRAMCtrl) (queue : list DRAMPacket) (extra_col_delay : Tick) :
    res (bool * list DRAMPacket) :=
  let min_col_at :=
    Z.max (add64 (sub64 (busBusyUntil s) (tCL (tm (cfg s)))) extra_col_delay) now in
  st ← reorder_loop now s queue min_col_at queue 0 (mkReorder 0 false false false false None);
  match selected st with
  | Some i => q ← move_front i queue; mret (true, q)
  | None => mret (false, queue)
  end.

(** ** First-come first-served, and the dispatch *)

Fixpoint fcfs_loop (s : DRAMCtrl) (queue rest : list DRAMPacket) (i : nat) :
    res (bool * list DRAMPacket) :=
  match rest with
  | [] => mret (false, queue)
  | p :: rest =>
      r ← get_rank s (DRAMPacket.rank p);
      if isAvailable r then q ← move_front i queue; mret (true, q)
      else fcfs_loop s queue rest (S i)
  end.

Definition chooseNext (now : Tick) (s : DRAMCtrl) (queue : list DRAMPacket) (extra_col_delay : Tick) :
    res (bool * list DRAMPacket) :=
  match queue with
  | [] => Err Assert
  | [p] => r ← get_rank s (DRAMPacket.rank p); mret (isAvailable r, queue)
  | _ =>
      match memSchedPolicy (cfg s) with
      | fcfs => fcfs_loop s queue queue 0
      | frfcfs => reorderQueue now s queue extra_col_delay
      end
  end.

(** ** The state the scheduler works on *)

Definition rank_at (s : DRAMCtrl) (i : Z) : Rank := default (new_Rank (cfg s) 0) (ranks s !! Z.to_nat i).
Definition bank_at (s : DRAMCtrl) (ij : Z * Z) : Bank :=
  default new_Bank (banks (rank_at s ij.1) !! Z.to_nat ij.2).
Definition coords (p : DRAMPacket) : Z * Z := (DRAMPacket.rank p, DRAMPacket.bank p).
Definition coords_id (c : Config) (ij : Z * Z) : Z := ij.1 * banksPerRank c + ij.2.
Definition coords_ok (c : Config) (ij : Z * Z) : Prop :=
  0 ≤ ij.1 < ranksPerChannel c ∧ 0 ≤ ij.2 < banksPerRank c.

(** A DRAM packet made by [decodeAddr] for this controller. *)
Definition packet_ok (c : Config) (p : DRAMPacket) : Prop :=
  coords_ok c (coords p) ∧ DRAMPacket.bankId p = coords_id c (coords p).

Record sched_ok (now : Tick) (s : DRAMCtrl) (queue : list DRAMPacket) : Prop := {
  so_timing : timing_wf (cfg s);
  so_ranks : Forall (rank_ok (cfg s)) (ranks s);
  so_count : Z.of_nat (length (ranks s)) = ranksPerChannel (cfg s);
  so_small : ranksPerChannel (cfg s) * banksPerRank (cfg s) ≤ 64;
  so_now : fits (cfg s) 3 now;
  so_ticks : ∀ r k, r ∈ ranks s → k ∈ banks r → bank_fits (cfg s) 3 k;
  so_packets : Forall (packet_ok (cfg s)) queue;
}.

Definition avail (s : DRAMCtrl) (p : DRAMPacket) : bool := isAvailable (rank_at s (DRAMPacket.rank p)).

(** Some packet waits for the bank. *)
Definition waiting_for (s : DRAMCtrl) (queue : list DRAMPacket) (ij : Z * Z) : Prop :=
  ∃ p, p ∈ queue ∧ coords p = ij ∧ avail s p = true.

(** ** Bit masks and searches *)

Lemma replaceBits_one m b x :
  0 ≤ b < 64 → 0 ≤ x < 64 →
  Z.testbit (BitField.replaceBits m b b 1) x = bool_decide (x = b) || Z.testbit m x.
Proof.
  intros Hb Hx. unfold BitField.replaceBits. rewrite insertBits_testbit by lia.
  destruct (decide (x = b)) as [->|Hne].
  - rewrite bool_decide_true, Z.leb_refl, Z.sub_diag by done. done.
  - rewrite bool_decide_false by done. destruct (Z.leb_spec b x), (Z.leb_spec x b); simpl; try done. lia.
Qed.

Lemma bits_one m b : 0 ≤ b < 64 → negb (BitField.bits m b b =? 0) = Z.testbit m b.
Proof.
  intros Hb. rewrite bits_arith by lia. replace (b - b + 1) with 1 by lia.
  rewrite Z.testbit_eqb by lia. pose proof (Z.mod_pos_bound (m / 2 ^ b) 2). change (2 ^ 1) with 2.
  destruct (Z.eqb_spec ((m / 2 ^ b) mod 2) 0), (Z.eqb_spec ((m / 2 ^ b) mod 2) 1); simpl; lia || done.
Qed.

Definition has {A} (x : option A) : bool := match x with Some _ => true | None => false end.

Definition or_else {A} (x y : option A) : option A := match x with Some a => Some a | None => y end.

Fixpoint find_first (P : DRAMPacket → bool) (l : list DRAMPacket) (i : nat) : option nat :=
  match l with
  | [] => None
  | p :: l => if P p then Some i else find_first P l (S i)
  end.

Lemma find_first_Some P l : ∀ i n,
  find_first P l i = Some n ↔ ∃ j p, n = (i + j)%nat ∧ l !! j = Some p ∧ P p = true ∧
    ∀ j' p', (j' < j)%nat → l !! j' = Some p' → P p' = false.
Proof.
  induction l as [|x l IH]; intros i n; simpl.
  { split; [done|]. intros (j & p & _ & H & _). done. }
  destruct (P x) eqn:E.
  - split.
    + intros [= <-]. exists 0%nat, x. split_and!; [lia|done|done|lia].
    + intros ([|j] & p & -> & Hp & _ & Hj); [f_equal; lia|].
      specialize (Hj 0%nat x ltac:(lia) eq_refl). congruence.
  - rewrite IH. split.
    + intros (j & p & -> & Hp & HP & Hj). exists (S j), p. split_and!; [lia|done|done|].
      intros [|j'] p' Hlt Hp'; simpl in Hp'; [congruence|]. eapply (Hj j'); [lia|done].
    + intros ([|j] & p & -> & Hp & HP & Hj); simpl in Hp; [congruence|].
      exists j, p. split_and!; [lia|done|done|]. intros j' p' Hlt Hp'. by apply (Hj (S j')); [lia|].
Qed.

Lemma find_first_None P l i : find_first P l i = None ↔ ∀ p, p ∈ l → P p = false.
Proof.
  revert i. induction l as [|x l IH]; intros i; simpl; [split; [set_solver|done]|].
  destruct (P x) eqn:E; [|rewrite IH; set_solver].
  split; [done|]. intros H. specialize (H x ltac:(set_solver)). congruence.
Qed.

(** The priorities: an early bank that can be prepared behind the scenes, then a
    row hit, then any early bank. *)
Definition prefer (hidden : bool) (e h : option nat) : option nat :=
  match e, h with
  | Some e, Some h => Some (if hidden then e else h)
  | Some e, None => Some e
  | None, h => h
  end.

Section sched.
Context (now : Tick) (s : DRAMCtrl) (queue : list DRAMPacket).
Hypothesis Hs : sched_ok now s queue.
Abbreviation c := (cfg s).

Lemma rank_at_ok i : 0 ≤ i < ranksPerChannel c →
  get_rank s i = Ok (rank_at s i) ∧ rank_at s i ∈ ranks s ∧ rank_ok c (rank_at s i).
Proof.
  intros Hi. destruct Hs. destruct (lookup_lt_is_Some_2 (ranks s) (Z.to_nat i)) as [r Hr]; [lia|].
  unfold rank_at. rewrite Hr. simpl. split_and!.
  - apply get_rank_ok; [lia|done].
  - by eapply list_elem_of_lookup_2.
  - by eapply Forall_lookup_1.
Qed.

Lemma bank_at_ok ij : coords_ok c ij →
  get_bank (rank_at s ij.1) ij.2 = Ok (bank_at s ij) ∧ bank_fits c 3 (bank_at s ij).
Proof.
  intros [Hi Hj]. destruct (rank_at_ok _ Hi) as (_ & Hr & Hok).
  destruct (lookup_lt_is_Some_2 (banks (rank_at s ij.1)) (Z.to_nat ij.2)) as [k Hk].
  { pose proof (ro_banks _ _ Hok). lia. }
  unfold bank_at. rewrite Hk. simpl. split; [apply get_bank_ok; [lia|done]|].
  eapply so_ticks; [done|done|by eapply list_elem_of_lookup_2].
Qed.

Lemma coords_id_range ij : coords_ok c ij → 0 ≤ coords_id c ij < ranksPerChannel c * banksPerRank c.
Proof. unfold coords_ok, coords_id. intros [? ?]. nia. Qed.

Lemma coords_id_inj x y : coords_ok c x → coords_ok c y → coords_id c x = coords_id c y → x = y.
Proof.
  unfold coords_ok, coords_id. destruct x as [i j], y as [i' j']; simpl. intros [? ?] [? ?] E.
  assert (i = i') as -> by nia. f_equal. lia.
Qed.

Lemma packet_coords p : p ∈ queue → coords_ok c (coords p) ∧ DRAMPacket.bankId p = coords_id c (coords p).
Proof. intros Hp. pose proof (so_packets _ _ _ Hs) as H. by eapply Forall_forall in H. Qed.

Lemma got_waiting_ok :
  ∃ v, got_waiting s queue = Ok v ∧
    ∀ ij, coords_ok c ij → ∃ w, at_ v (coords_id c ij) = Ok w ∧ (w = true ↔ waiting_for s queue ij).
Proof.
  unfold got_waiting. set (n := Z.to_nat _).
  destruct (foldM_ok (λ l v, length v = n ∧ (∀ ij, coords_ok c ij →
    v !! Z.to_nat (coords_id c ij) = Some true ↔ waiting_for s l ij))
    (mark_waiting s) queue (replicate n false)) as (v & E & Hl & Hv).
  - split; [apply length_replicate|]. intros ij _. split; [|by intros (p & Hp%not_elem_of_nil & _)].
    by intros [? _]%lookup_replicate_1.
  - intros l1 p l2 v El [Hl Hv]. destruct (packet_coords p) as [Hc Hid]; [rewrite El; set_solver|].
    unfold mark_waiting. destruct (rank_at_ok (DRAMPacket.rank p)) as (-> & _ & _); [apply Hc|].
    cbv [mbind res_mbind]. pose proof (coords_id_range _ Hc).
    assert (∀ ij, waiting_for s (l1 ++ [p]) ij ↔ waiting_for s l1 ij ∨ (coords p = ij ∧ avail s p = true)) as Hw.
    { intros ij. unfold waiting_for. set_solver. }
    fold (avail s p). destruct (avail s p) eqn:Ea.
    + destruct (lookup_lt_is_Some_2 v (Z.to_nat (coords_id c (coords p)))) as [w Hw1]; [lia|].
      unfold at_. rewrite Hid, decide_True, Hw1 by lia. eexists. split; [done|].
      split; [by rewrite length_insert|]. intros ij Hij. rewrite Hw.
      pose proof (coords_id_range _ Hij).
      destruct (decide (coords p = ij)) as [<-|Hne].
      * rewrite list_lookup_insert_eq by lia. naive_solver.
      * rewrite list_lookup_insert_ne by (intros Heq; apply Hne, coords_id_inj; [done..|lia]).
        rewrite Hv by done. naive_solver.
    + eexists. split; [done|]. split; [done|]. intros ij Hij. rewrite Hw, Hv by done. naive_solver.
  - exists v. split; [done|]. intros ij Hij. pose proof (coords_id_range _ Hij).
    destruct (lookup_lt_is_Some_2 v (Z.to_nat (coords_id c ij))) as [w Hw]; [lia|].
    exists w. unfold at_. rewrite decide_True, Hw by lia. split; [done|]. rewrite <- Hv, Hw by done.
    naive_solver.
Qed.

(** ** What [minBankPrep] computes *)

Context (min_col_at : Tick).

Definition act_at (ij : Z * Z) : Tick := bank_act_at c now (bank_at s ij).
Definition seamless_bank (ij : Z * Z) : bool := bank_col_at c now (bank_at s ij) <=? min_col_at.
Definition hidden_act_max : Tick := Z.max (sub64 min_col_at (tRCD (tm c))) now.

Lemma act_at_fits ij : coords_ok c ij → fits c 2 (act_at ij).
Proof.
  intros Hij. destruct (bank_at_ok _ Hij) as [_ (_ & Hp & Ha)]. destruct Hs as [Hw _ _ _ Hn _ _].
  unfold act_at, bank_act_at. destruct (_ =? _).
  - apply fits_max; by apply (fits_mono _ 2 3).
  - assert (fits c 3 (Z.max (preAllowedAt (bank_at s ij)) now)) by (by apply fits_max).
    rewrite (fits_add64 c) by (try delay; by apply (fits_mono _ 1 3)). apply (fits_add _ 2); [lia|done|delay].
Qed.

Lemma act_at_max ij : coords_ok c ij → act_at ij ≤ MaxTick.
Proof.
  intros Hij. destruct (act_at_fits _ Hij). pose proof (span_pos _ (so_timing _ _ _ Hs)).
  unfold MaxTick. lia.
Qed.

(** A bank that is ready for a back-to-back burst can be activated in time. *)
Lemma seamless_hidden ij :
  coords_ok c ij → min_col_at < 2 ^ 64 → seamless_bank ij = true → act_at ij ≤ hidden_act_max.
Proof.
  intros Hij Hm Hse. pose proof (act_at_fits _ Hij) as Hf. unfold seamless_bank, bank_col_at in Hse.
  apply Z.leb_le in Hse. fold (act_at ij) in Hse. pose proof (so_timing _ _ _ Hs) as Hw.
  rewrite (fits_add64 c) in Hse by (try delay; by apply (fits_mono _ 1 2)).
  destruct Hf as [Hf _]. unfold hidden_act_max.
  assert (0 ≤ tRCD (tm c)) by (destruct Hw as [_ Hn _]; lia). rewrite sub64_small; lia.
Qed.

(** The banks of [l] some packet waits for. *)
Abbreviation waits l ij := (ij ∈ l ∧ waiting_for s queue ij).

Definition in_mask (m : Z) (ij : Z * Z) : bool := Z.testbit m (coords_id c ij).

(** The best banks of [l]: those for a seamless burst, or else those with the
    earliest activate. *)
Definition best_bank (l : list (Z * Z)) (ij : Z * Z) : Prop :=
  waits l ij ∧
  if seamless_bank ij then True
  else (∀ xy, waits l xy → seamless_bank xy = false ∧ act_at ij ≤ act_at xy).

(** What the loop knows of the banks it has seen. *)
Record prep_char (l : list (Z * Z)) (found : bool) (m : Tick) : Prop := {
  pc_found : found = true ↔ ∃ ij, waits l ij ∧ seamless_bank ij = true;
  pc_min : found = false → ∀ ij, waits l ij → m ≤ act_at ij;
  pc_attained : found = false →
    (∃ ij, waits l ij ∧ act_at ij = m) ∨ ((¬ ∃ ij, waits l ij) ∧ m = MaxTick);
}.

Record prep_inv (l : list (Z * Z)) (st : Prep) : Prop := {
  pi_range : 0 ≤ bank_mask st < 2 ^ 64;
  pi_char : prep_char l (found_seamless_bank st) (min_act_at st);
  pi_mask : ∀ ij, coords_ok c ij → in_mask (bank_mask st) ij = true ↔ best_bank l ij;
  pi_hidden : ∀ ij, best_bank l ij → hidden_bank_prep st = (act_at ij <=? hidden_act_max);
}.

Lemma waits_snoc l x ij : waits (l ++ [x]) ij ↔ waits l ij ∨ (ij = x ∧ waiting_for s queue x).
Proof. set_solver. Qed.

Lemma best_bank_char l found m ij :
  prep_char l found m →
  best_bank l ij ↔ waits l ij ∧ (if found then seamless_bank ij = true else act_at ij = m).
Proof.
  intros [Hf Hm Ha]. unfold best_bank. destruct found.
  - destruct (proj1 Hf eq_refl) as (xy & Hxy & E). destruct (seamless_bank ij) eqn:Eij; [naive_solver|].
    split; [|naive_solver]. intros [_ H]. destruct (H xy Hxy). congruence.
  - assert (∀ xy, waits l xy → seamless_bank xy = false) as Hn.
    { intros xy Hxy. apply not_true_is_false. intros E. assert (false = true) by (apply Hf; eauto). done. }
    split; intros [Hw H]; (split; [done|]); rewrite (Hn ij Hw) in *.
    + destruct (Ha eq_refl) as [(xy & Hxy & E)|[Hno _]]; [|exfalso; apply Hno; eauto].
      pose proof (Hm eq_refl ij Hw). destruct (H xy Hxy). lia.
    + intros xy Hxy. split; [by apply Hn|]. rewrite H. by apply Hm.
Qed.

(** A bank nobody waits for changes nothing. *)
Lemma prep_inv_skip l x st : ¬ waiting_for s queue x → prep_inv l st → prep_inv (l ++ [x]) st.
Proof.
  intros Hx [? [Hf Hm Ha] Hk Hh].
  assert (∀ ij, waits (l ++ [x]) ij ↔ waits l ij) as Hw by (intros; rewrite waits_snoc; naive_solver).
  assert (∀ ij, best_bank (l ++ [x]) ij ↔ best_bank l ij) as Hb.
  { intros ij. unfold best_bank. rewrite Hw. destruct (seamless_bank ij); [done|].
    by setoid_rewrite Hw. }
  split; [done|split| |].
  - rewrite Hf. by setoid_rewrite Hw.
  - intros Hn ij. rewrite Hw. by apply Hm.
  - intros Hn. setoid_rewrite Hw. by apply Ha.
  - intros ij Hij. rewrite Hb. by apply Hk.
  - intros ij. rewrite Hb. apply Hh.
Qed.

Definition updates (f : bool) (m : Tick) (x : Z * Z) : bool :=
  seamless_bank x || (negb f && (act_at x <=? m)).

Lemma prep_char_step l x f m :
  coords_ok c x → waiting_for s queue x → prep_char l f m →
  prep_char (l ++ [x]) (f || seamless_bank x) (if updates f m x then act_at x else m).
Proof.
  intros Hok Hx [Hf Hm Ha]. unfold updates. split.
  - rewrite orb_true_iff, Hf. setoid_rewrite waits_snoc. naive_solver.
  - intros [-> ->]%orb_false_iff ij. rewrite waits_snoc. simpl.
    destruct (Z.leb_spec (act_at x) m); intros [Hw|[-> _]]; [|lia| |lia].
    + pose proof (Hm eq_refl ij Hw). lia.
    + by apply Hm.
  - intros [-> ->]%orb_false_iff. setoid_rewrite waits_snoc. simpl.
    destruct (Z.leb_spec (act_at x) m); [left; exists x; naive_solver|].
    destruct (Ha eq_refl) as [(ij & Hw & E)|[_ ->]]; [left; exists ij; naive_solver|].
    pose proof (act_at_max x Hok). lia.
Qed.

(** The mask after a waiting bank [x] has been looked at. *)
Definition next_mask (f : bool) (m : Tick) (mask : Z) (x : Z * Z) : Z :=
  if updates f m x then
    BitField.replaceBits
      (if negb f && (seamless_bank x || (act_at x <? m)) then 0 else mask)
      (coords_id c x) (coords_id c x) 1
  else mask.

Lemma next_mask_best l x f m mask :
  coords_ok c x → waiting_for s queue x → prep_char l f m →
  (∀ ij, coords_ok c ij → in_mask mask ij = true ↔ best_bank l ij) →
  ∀ ij, coords_ok c ij → in_mask (next_mask f m mask x) ij = true ↔ best_bank (l ++ [x]) ij.
Proof.
  intros Hxok Hx Hc Hk ij Hij.
  rewrite (best_bank_char _ _ _ _ (prep_char_step l x f m Hxok Hx Hc)), waits_snoc.
  specialize (Hk ij Hij). rewrite (best_bank_char _ _ _ _ Hc) in Hk.
  assert (∀ m', in_mask (BitField.replaceBits m' (coords_id c x) (coords_id c x) 1) ij = true
    ↔ ij = x ∨ in_mask m' ij = true) as Hin.
  { intros m'. unfold in_mask. pose proof (coords_id_range _ Hij). pose proof (coords_id_range _ Hxok).
    pose proof (so_small _ _ _ Hs). rewrite replaceBits_one, orb_true_iff, bool_decide_eq_true by lia.
    split; (intros [E|E]; [left|by right]); [by apply coords_id_inj|by rewrite E]. }
  assert (in_mask 0 ij = false) as H0 by (unfold in_mask; apply Z.bits_0).
  destruct Hc as [Hf Hm _].
  assert (f = false → waits l ij → seamless_bank ij = false ∧ m ≤ act_at ij) as Hn.
  { intros -> Hw. split; [|by apply Hm]. apply not_true_is_false. intros E.
    assert (false = true) by (apply Hf; eauto). done. }
  clear Hm Hf. generalize dependent (waits l ij). intros W Hk Hn.
  assert (∀ P : Prop, (W ∨ ij = x ∧ waiting_for s queue x) ∧ P ↔ (W ∧ P) ∨ (ij = x ∧ P)) as -> by tauto.
  unfold next_mask, updates.
  destruct f, (seamless_bank x) eqn:Ex; cbn [negb orb andb]; rewrite ?Hin.
  - rewrite Hk. split; [intros [->|?]; auto|tauto].
  - rewrite Hk. split; [tauto|]. intros [?|[-> ?]]; [done|congruence].
  - rewrite H0. split; [intros [->|?]; [auto|done]|]. intros [[Hw ?]|[-> _]]; [|by left].
    destruct (Hn eq_refl Hw). congruence.
  - destruct (Z.leb_spec (act_at x) m), (Z.ltb_spec (act_at x) m); rewrite ?Hin, ?H0; try lia.
    + split; [intros [->|?]; [auto|done]|]. intros [[Hw ?]|[-> _]]; [|by left].
      destruct (Hn eq_refl Hw). lia.
    + rewrite Hk. replace m with (act_at x) by lia. split; [intros [->|?]; auto|tauto].
    + rewrite Hk. split; [tauto|]. intros [?|[-> ?]]; [done|lia].
Qed.

(** The banks of the mask are all hidden or none is. *)
Lemma hidden_step l x f m :
  coords_ok c x → Forall (coords_ok c) l → min_col_at < 2 ^ 64 → waiting_for s queue x → prep_char l f m →
  if updates f m x then ∀ ij, best_bank (l ++ [x]) ij →
    (act_at x <=? hidden_act_max) = (act_at ij <=? hidden_act_max)
  else f || seamless_bank x = f ∧ ∀ ij, best_bank (l ++ [x]) ij → best_bank l ij.
Proof.
  intros Hx Hl Hmc Hxw Hc. pose proof (prep_char_step l x f m Hx Hxw Hc) as Hc'.
  destruct (updates f m x) eqn:Eu; unfold updates in Eu.
  - intros ij Hb. rewrite (best_bank_char _ _ _ _ Hc') in Hb. destruct Hb as [[Hij _] Hb].
    assert (coords_ok c ij) as Hok.
    { apply elem_of_app in Hij as [Hij| ->%list_elem_of_singleton]; [|done]. by eapply Forall_forall in Hl. }
    destruct (seamless_bank x) eqn:Ex.
    + rewrite orb_true_r in Hb. pose proof (seamless_hidden ij Hok Hmc Hb).
      pose proof (seamless_hidden x Hx Hmc Ex). by rewrite !(proj2 (Z.leb_le _ _)).
    + destruct f; [done|]. by rewrite Hb.
  - apply orb_false_iff in Eu as [Ex Eu]. rewrite Ex, orb_false_r. split; [done|].
    intros ij. rewrite (best_bank_char _ _ _ _ Hc'), (best_bank_char _ _ _ _ Hc), waits_snoc, Ex, orb_false_r.
    intros [[Hw|[-> _]] H]; [done|]. destruct f; [congruence|]. simpl in Eu. apply Z.leb_gt in Eu. lia.
Qed.

Lemma prep_bank_step l x w st v :
  coords_ok c x → min_col_at < 2 ^ 64 → Forall (coords_ok c) l →
  at_ v (coords_id c x) = Ok w → (w = true ↔ waiting_for s queue x) → prep_inv l st →
  ∃ st', prep_bank now s min_col_at hidden_act_max v st x = Ok st' ∧ prep_inv (l ++ [x]) st'.
Proof.
  intros Hx Hmc Hl Hv Hwx Hst. pose proof (coords_id_range _ Hx) as Hid. pose proof (so_small _ _ _ Hs).
  unfold prep_bank. cbv zeta. fold (coords_id c x).
  rewrite wrap_small by lia. rewrite Hv. cbv [mbind res_mbind].
  destruct w; cbn [negb]; [|exists st; split; [done|]; apply prep_inv_skip; [|done]; by intros ?%Hwx].
  assert (waiting_for s queue x) as Hxw by (by apply Hwx).
  destruct (rank_at_ok x.1) as (-> & _ & _); [apply Hx|].
  destruct (bank_at_ok x) as (-> & _); [done|].
  assert (isAvailable (rank_at s x.1) = true) as ->
    by (destruct Hxw as (p & _ & <- & Ha); exact Ha). cbn [check].
  fold (act_at x) (seamless_bank x). destruct Hst as [Hrg Hc Hk Hh].
  pose proof (prep_char_step l x _ _ Hx Hxw Hc) as Hc'.
  pose proof (next_mask_best l x _ _ (bank_mask st) Hx Hxw Hc Hk) as Hk'.
  pose proof (hidden_step l x _ _ Hx Hl Hmc Hxw Hc) as Hh'. unfold next_mask, updates in *.
  destruct (seamless_bank x || _).
  - rewrite (proj2 (Z.ltb_lt _ _)) by lia. cbn [check]. eexists. split; [done|].
    split; simpl; [|done|done|done]. apply insertBits_range; [lia..|]. destruct (_ && _); lia.
  - exists st. split; [done|]. split; [done| |done|].
    + destruct Hh' as [E Hh']. by rewrite E in Hc'.
    + intros ij Hij. by apply Hh, Hh'.
Qed.

Lemma bank_coords_ok ij : ij ∈ bank_coords c ↔ coords_ok c ij.
Proof.
  unfold bank_coords, coords_ok. destruct ij as [i j]. rewrite list_elem_of_bind. simpl. split.
  - intros (i' & (j' & Hij & Hj)%list_elem_of_fmap & Hi). injection Hij as -> ->.
    apply elem_of_seqZ in Hi, Hj. lia.
  - intros [Hi Hj]. exists i. split; [apply list_elem_of_fmap; exists j; split; [done|]|]; apply elem_of_seqZ; lia.
Qed.

(** A bank is chosen for: a seamless burst, or without one the earliest activate. *)
Definition prep_choice (ij : Z * Z) : Prop :=
  waiting_for s queue ij ∧
  (seamless_bank ij = true ∨
   ∀ xy, waiting_for s queue xy → seamless_bank xy = false ∧ act_at ij ≤ act_at xy).

Lemma waits_all ij : waits (bank_coords c) ij ↔ waiting_for s queue ij.
Proof.
  split; [naive_solver|]. intros Hw. split; [|done]. destruct Hw as (p & Hp & <- & _).
  apply bank_coords_ok. by apply packet_coords.
Qed.

Lemma best_bank_all ij : best_bank (bank_coords c) ij ↔ prep_choice ij.
Proof.
  unfold best_bank, prep_choice. rewrite waits_all.
  destruct (seamless_bank ij) eqn:E; [tauto|]. setoid_rewrite waits_all.
  split; [tauto|]. intros [? [?|?]]; [done|tauto].
Qed.

Lemma minBankPrep_ok :
  min_col_at < 2 ^ 64 →
  ∃ mask hidden, minBankPrep now s queue min_col_at = Ok (mask, hidden) ∧ 0 ≤ mask < 2 ^ 64 ∧
    (∀ ij, coords_ok c ij → in_mask mask ij = true ↔ prep_choice ij) ∧
    (∀ ij, prep_choice ij → hidden = (act_at ij <=? hidden_act_max)) ∧
    ((∃ ij, waiting_for s queue ij) → ∃ ij, prep_choice ij).
Proof.
  intros Hmc. unfold minBankPrep. destruct got_waiting_ok as (v & -> & Hv). cbv [mbind res_mbind].
  fold hidden_act_max.
  destruct (foldM_ok (λ l st, Forall (coords_ok c) l ∧ prep_inv l st)
    (prep_bank now s min_col_at hidden_act_max v) (bank_coords c) (mkPrep 0 MaxTick false false))
    as (st & -> & _ & [Hr Hc Hk Hh]).
  - split; [constructor|]. assert (∀ ij, ¬ waits [] ij) as Hno by (by intros ij [?%elem_of_nil _]).
    split; [done|split| |]; simpl.
    + split; [done|]. intros (ij & H & _). by apply Hno in H.
    + intros _ ij H. by apply Hno in H.
    + intros _. right. split; [|done]. intros (ij & H). by apply Hno in H.
    + intros ij _. unfold in_mask. rewrite Z.bits_0. split; [done|]. intros [H _]. by apply Hno in H.
    + intros ij [H _]. by apply Hno in H.
  - intros l1 x l2 st E [Hl Hst]. assert (coords_ok c x) as Hx by (apply bank_coords_ok; rewrite E; set_solver).
    destruct (Hv x Hx) as (w & Hw & Hwx).
    destruct (prep_bank_step l1 x w st v Hx Hmc Hl Hw Hwx Hst) as (st' & ? & ?).
    exists st'. split; [done|]. split; [|done]. apply Forall_app. by split; [|apply Forall_singleton].
  - exists (bank_mask st), (hidden_bank_prep st). split; [done|]. split; [done|]. split_and!.
    + intros ij Hij. rewrite <- best_bank_all. by apply Hk.
    + intros ij Hij%best_bank_all. by apply Hh.
    + intros (xy & Hxy%waits_all). setoid_rewrite <- best_bank_all.
      setoid_rewrite (best_bank_char _ _ _ _ Hc). destruct Hc as [Hf _ Ha].
      destruct (found_seamless_bank st); [by apply Hf|]. destruct (Ha eq_refl) as [?|[Hno _]]; [done|].
      exfalso. apply Hno. eauto.
Qed.

(** ** The choice of [reorderQueue] *)

Definition row_hit (p : DRAMPacket) : bool := openRow (bank_at s (coords p)) =? DRAMPacket.row p.
Definition seamless_hit (p : DRAMPacket) : bool :=
  avail s p && row_hit p && (colAllowedAt (bank_at s (coords p)) <=? min_col_at).
Definition prepped (p : DRAMPacket) : bool := avail s p && row_hit p.
Definition early (mask : Z) (p : DRAMPacket) : bool :=
  avail s p && negb (row_hit p) && Z.testbit mask (DRAMPacket.bankId p).

Definition frfcfs_choice (mask : Z) (hidden : bool) (l : list DRAMPacket) : option nat :=
  match find_first seamless_hit l 0 with
  | Some i => Some i
  | None => prefer hidden (find_first (early mask) l 0) (find_first prepped l 0)
  end.

(** The local variables after a prefix of the queue in which [e] and [h] are the
    first early packet and the first row hit. *)
Record reorder_inv (mask : Z) (hidden : bool) (e h : option nat) (st : Reorder) : Prop := {
  ri_prep : earliest_banks st = 0 ∨ (earliest_banks st = mask ∧ hidden_prep st = hidden);
  ri_early : found_earliest_pkt st = has e;
  ri_hidden : found_hidden_bank st = has e && hidden;
  ri_prepped : found_hidden_bank st = false → found_prepped_pkt st = has h;
  ri_prepped' : found_hidden_bank st = true → found_prepped_pkt st = true → has h = true;
  ri_selected : selected st = prefer hidden e h;
}.

Lemma reorder_loop_ok mask hidden l : ∀ i st e h,
  minBankPrep now s queue min_col_at = Ok (mask, hidden) →
  l ⊆ queue → reorder_inv mask hidden e h st →
  ∃ st', reorder_loop now s queue min_col_at l i st = Ok st' ∧
    selected st' = or_else (find_first seamless_hit l i)
      (prefer hidden (or_else e (find_first (early mask) l i)) (or_else h (find_first prepped l i))).
Proof.
  induction l as [|p l IH]; intros i st e h Hprep Hl Hi.
  { exists st. split; [done|]. rewrite (ri_selected _ _ _ _ _ Hi). by destruct e, h. }
  destruct (packet_coords p) as [Hc Hid]; [set_solver|]. assert (l ⊆ queue) as Hl' by set_solver.
  simpl reorder_loop. destruct (rank_at_ok (DRAMPacket.rank p)) as (-> & _ & _); [apply Hc|].
  cbv [mbind res_mbind]. destruct (bank_at_ok (coords p) Hc) as (Hbk & _). simpl in Hbk. rewrite Hbk.
  fold (avail s p) (row_hit p). cbv zeta.
  change (find_first seamless_hit (p :: l) i) with
    (if seamless_hit p then Some i else find_first seamless_hit l (S i)).
  change (find_first (early mask) (p :: l) i) with
    (if early mask p then Some i else find_first (early mask) l (S i)).
  change (find_first prepped (p :: l) i) with
    (if prepped p then Some i else find_first prepped l (S i)).
  unfold seamless_hit at 1, early at 1, prepped at 1.
  destruct (avail s p); cbn [negb andb]; [|by apply IH].
  destruct (row_hit p); cbn [negb andb].
  - destruct (_ <=? _); [by eexists|].
    destruct (found_hidden_bank st) eqn:Efh; cbn [negb andb].
    + destruct (IH (S i) st e h) as (st' & E & Hst'); [done..|]. exists st'. split; [exact E|].
      rewrite Hst'. destruct Hi as [_ _ Hh _ _ _]. rewrite Efh in Hh. symmetry in Hh.
      apply andb_true_iff in Hh as [He ->]. destruct e as [e|]; [|done].
      by destruct h, (find_first prepped l (S i)).
    + rewrite (ri_prepped _ _ _ _ _ Hi Efh). destruct h as [h|]; cbn [negb has].
      * by apply (IH (S i) st e (Some h)).
      * destruct (IH (S i) (mkReorder (earliest_banks st) (hidden_prep st) false true
          (found_earliest_pkt st) (Some i)) e (Some i)) as (st' & E & Hst'); [done|done| |by exists st'].
        destruct Hi as [? ? Hh _ _ _]. rewrite Efh in Hh.
        split; simpl; [done|done|done|done|done|]. by destruct e, hidden.
  - rewrite (ri_early _ _ _ _ _ Hi). destruct e as [e|]; cbn [negb has]; [by apply (IH (S i) st (Some e) h)|].
    assert ((if earliest_banks st =? 0 then minBankPrep now s queue min_col_at
      else mret (earliest_banks st, hidden_prep st)) = Ok (mask, hidden)) as ->.
    { destruct (Z.eqb_spec (earliest_banks st) 0); [done|].
      destruct (ri_prep _ _ _ _ _ Hi) as [?|[-> ->]]; done. }
    pose proof (coords_id_range _ Hc). pose proof (so_small _ _ _ Hs).
    rewrite (proj2 (Z.ltb_lt _ _)) by lia. cbn [check]. rewrite bits_one by lia.
    destruct Hi as [_ Hie Hih Hip _ Hsel]. simpl in Hih. specialize (Hip Hih).
    destruct (Z.testbit mask (DRAMPacket.bankId p)).
    + destruct (IH (S i) (mkReorder mask hidden hidden (found_prepped_pkt st) true
        (if hidden || negb (found_prepped_pkt st) then Some i else selected st)) (Some i) h)
        as (st' & E & Hst'); [done|done| |by exists st'].
      rewrite Hip, Hsel. split; simpl; [auto|done|done|done|done|by destruct h, hidden].
    + apply IH; [done|done|]. split; simpl; [auto|done|done|done| |done]. congruence.
Qed.

(** Some packet is chosen exactly when some packet's rank is available. *)
Lemma frfcfs_choice_found mask hidden :
  (∀ ij, coords_ok c ij → in_mask mask ij = true ↔ prep_choice ij) →
  ((∃ ij, waiting_for s queue ij) → ∃ ij, prep_choice ij) →
  (∃ p, p ∈ queue ∧ avail s p = true) → is_Some (frfcfs_choice mask hidden queue).
Proof.
  intros Hm Hne (p & Hp & Ha). unfold frfcfs_choice. destruct (find_first seamless_hit queue 0); [done|].
  destruct (find_first prepped queue 0) as [h|] eqn:Eh.
  { destruct (find_first (early mask) queue 0); by eexists. }
  destruct Hne as [ij Hij]; [by exists (coords p), p|].
  destruct (proj1 Hij) as (q & Hq & <- & Haq). destruct (packet_coords q Hq) as [Hqc Hqid].
  destruct (find_first (early mask) queue 0) as [e|] eqn:Ee; [by eexists|].
  rewrite find_first_None in Ee, Eh. specialize (Ee q Hq). specialize (Eh q Hq).
  unfold early, prepped in *. rewrite Haq in *. simpl in *. rewrite Eh in Ee. simpl in Ee.
  apply Hm in Hij; [|done]. unfold in_mask in Hij. congruence.
Qed.

(** The chosen packet goes to an available rank. *)
Lemma frfcfs_choice_avail mask hidden i :
  frfcfs_choice mask hidden queue = Some i → ∃ p, queue !! i = Some p ∧ avail s p = true.
Proof.
  assert (∀ P n, (∀ p, P p = true → avail s p = true) → find_first P queue 0 = Some n →
    ∃ p, queue !! n = Some p ∧ avail s p = true) as H.
  { intros P n HP (j & p & -> & Hp & Hj & _)%find_first_Some. exists p. auto. }
  unfold frfcfs_choice. destruct (find_first seamless_hit queue 0) as [n|] eqn:E1.
  { intros [= <-]. eapply H; [|done]. unfold seamless_hit. intros q. by destruct (avail s q). }
  assert (∀ n, find_first (early mask) queue 0 = Some n → ∃ p, queue !! n = Some p ∧ avail s p = true) as He.
  { intros n. apply H. unfold early. intros q. by destruct (avail s q). }
  assert (∀ n, find_first prepped queue 0 = Some n → ∃ p, queue !! n = Some p ∧ avail s p = true) as Hh.
  { intros n. apply H. unfold prepped. intros q. by destruct (avail s q). }
  unfold prefer. destruct (find_first (early mask) queue 0), (find_first prepped queue 0), hidden;
    intros [= <-]; auto.
Qed.

End sched.

(** ** The arbitration *)

Definition sched_col_at (now : Tick) (s : DRAMCtrl) (extra_col_delay : Tick) : Tick :=
  Z.max (add64 (sub64 (busBusyUntil s) (tCL (tm (cfg s)))) extra_col_delay) now.

Lemma sched_col_at_max now s queue extra : sched_ok now s queue → sched_col_at now s extra < 2 ^ 64.
Proof.
  intros Hs. pose proof (wrap_range 64 (sub64 (busBusyUntil s) (tCL (tm (cfg s))) + extra)).
  pose proof (span_pos _ (so_timing _ _ _ Hs)). destruct (so_now _ _ _ Hs).
  unfold sched_col_at, add64. lia.
Qed.

(** The queue with position [i] moved to the front. *)
Definition front (i : nat) (queue : list DRAMPacket) : list DRAMPacket :=
  match queue !! i with Some p => p :: delete i queue | None => queue end.

Lemma move_front_ok i queue : is_Some (queue !! i) → move_front i queue = Ok (front i queue).
Proof. intros [p Hp]. unfold move_front, front. by rewrite Hp. Qed.

Lemma front_perm i queue : front i queue ≡ₚ queue.
Proof.
  unfold front. destruct (queue !! i) as [p|] eqn:E; [|done]. by rewrite <- delete_Permutation.
Qed.

Lemma reorderQueue_ok now s queue extra :
  sched_ok now s queue →
  let m := sched_col_at now s extra in
  ∃ mask hidden,
    minBankPrep now s queue m = Ok (mask, hidden) ∧
    (∀ ij, coords_ok (cfg s) ij → in_mask s mask ij = true ↔ prep_choice now s queue m ij) ∧
    (∀ ij, prep_choice now s queue m ij → hidden = (act_at now s ij <=? hidden_act_max now s m)) ∧
    ((∃ p, p ∈ queue ∧ avail s p = true) → is_Some (frfcfs_choice s m mask hidden queue)) ∧
    reorderQueue now s queue extra =
      Ok (match frfcfs_choice s m mask hidden queue with
          | Some i => (true, front i queue)
          | None => (false, queue)
          end).
Proof.
  intros Hs m. pose proof (sched_col_at_max now s queue extra Hs) as Hm. fold m in Hm.
  destruct (minBankPrep_ok now s queue Hs m Hm) as (mask & hidden & Hp & _ & Hk & Hh & Hne).
  exists mask, hidden. split; [done|]. split; [done|]. split; [done|].
  split; [by eapply frfcfs_choice_found|].
  unfold reorderQueue. cbv zeta. fold (sched_col_at now s extra). fold m.
  destruct (reorder_loop_ok now s queue Hs m mask hidden queue 0 (mkReorder 0 false false false false None)
    None None) as (st & -> & Hsel); [done|done|by split; auto|].
  cbv [mbind res_mbind]. rewrite Hsel. simpl or_else.
  change (or_else _ _) with (frfcfs_choice s m mask hidden queue).
  destruct (frfcfs_choice s m mask hidden queue) as [i|] eqn:E; [|done].
  apply frfcfs_choice_avail in E as (p & Hi & _). by rewrite move_front_ok.
Qed.

Lemma fcfs_loop_ok now s queue rest : ∀ i,
  sched_ok now s queue → (∀ j p, rest !! j = Some p → queue !! (i + j)%nat = Some p) →
  fcfs_loop s queue rest i =
    Ok (match find_first (avail s) rest i with
        | Some n => (true, front n queue)
        | None => (false, queue)
        end).
Proof.
  induction rest as [|p rest IH]; intros i Hs Hr; simpl; [done|].
  assert (queue !! i = Some p) as Hi by (rewrite <- (Hr 0%nat p eq_refl); f_equal; lia).
  destruct (packet_coords now s queue Hs p) as [Hc _]; [by eapply list_elem_of_lookup_2|].
  destruct (rank_at_ok now s queue Hs (DRAMPacket.rank p)) as (-> & _ & _); [apply Hc|].
  cbv [mbind res_mbind]. fold (avail s p). destruct (avail s p).
  - rewrite move_front_ok by (by eexists). done.
  - apply IH; [done|]. intros j p' Hp'. rewrite <- (Hr (S j) p' Hp'). f_equal. lia.
Qed.

(** The packet [chooseNext] picks. *)
Definition chosen (now : Tick) (s : DRAMCtrl) (queue : list DRAMPacket) (extra : Tick) (o : option nat) :
    Prop :=
  (is_Some o ↔ ∃ p, p ∈ queue ∧ avail s p = true) ∧
  (∀ i, o = Some i → ∃ p, queue !! i = Some p ∧ avail s p = true) ∧
  chooseNext now s queue extra =
    Ok (match o with Some i => (true, front i queue) | None => (false, queue) end).

Lemma chosen_ext now s queue extra o :
  (∀ i, o = Some i → ∃ p, queue !! i = Some p ∧ avail s p = true) →
  ((∃ p, p ∈ queue ∧ avail s p = true) → is_Some o) →
  chooseNext now s queue extra =
    Ok (match o with Some i => (true, front i queue) | None => (false, queue) end) →
  chosen now s queue extra o.
Proof.
  intros Ha Hf E. split_and!; [|done|done]. split; [|done]. intros [i Hi].
  destruct (Ha i Hi) as (p & Hp & ?). exists p. split; [by eapply list_elem_of_lookup_2|done].
Qed.

Lemma find_first_avail s queue :
  (∀ i, find_first (avail s) queue 0 = Some i → ∃ p, queue !! i = Some p ∧ avail s p = true) ∧
  ((∃ p, p ∈ queue ∧ avail s p = true) → is_Some (find_first (avail s) queue 0)).
Proof.
  split.
  - intros i (j & p & -> & Hp & Ha & _)%find_first_Some. by exists p.
  - intros (p & Hp & Ha). destruct (find_first (avail s) queue 0) eqn:E; [done|].
    rewrite find_first_None in E. specialize (E p Hp). congruence.
Qed.

Lemma chooseNext_ok now s queue extra :
  sched_ok now s queue → queue ≠ [] →
  ∃ o, chosen now s queue extra o ∧ (memSchedPolicy (cfg s) = fcfs → o = find_first (avail s) queue 0).
Proof.
  intros Hs Hq. destruct (find_first_avail s queue) as [Ha Hf].
  assert ((∃ p, queue = [p]) ∨ chooseNext now s queue extra =
    match memSchedPolicy (cfg s) with
    | fcfs => fcfs_loop s queue queue 0
    | frfcfs => reorderQueue now s queue extra
    end) as [[p ->]|E].
  { destruct queue as [|p [|]]; [done|left; eauto|by right]. }
  - exists (find_first (avail s) [p] 0). split; [|done]. apply chosen_ext; [done|done|].
    destruct (packet_coords now s [p] Hs p) as [Hc _]; [by apply list_elem_of_singleton|]. simpl.
    destruct (rank_at_ok now s [p] Hs (DRAMPacket.rank p)) as (-> & _ & _); [apply Hc|].
    simpl. fold (avail s p). by destruct (avail s p).
  - destruct (memSchedPolicy (cfg s)).
    + exists (find_first (avail s) queue 0). split; [|done]. apply chosen_ext; [done|done|].
      rewrite E. by eapply fcfs_loop_ok.
    + destruct (reorderQueue_ok now s queue extra Hs) as (mask & hidden & _ & _ & _ & Hx & Er).
      exists (frfcfs_choice s (sched_col_at now s extra) mask hidden queue). split; [|done].
      apply chosen_ext; [apply frfcfs_choice_avail|done|by rewrite E].
Qed.

(** C17: The arbitration of a queue never fails.  It finds a packet exactly when
    some packet goes to a rank that is not refreshing, moves such a packet to the
    front and keeps the others in their order, and leaves the queue alone when it
    finds none; under first-come first-served the packet is the oldest one. *)
Theorem chooseNext_correct (now : Tick) (s : DRAMCtrl) (queue : list DRAMPacket) (extra : Tick) :
  sched_ok now s queue → queue ≠ [] →
  ∃ found queue', chooseNext now s queue extra = Ok (found, queue') ∧
    queue' ≡ₚ queue ∧
    (found = true ↔ ∃ p, p ∈ queue ∧ avail s p = true) ∧
    (found = false → queue' = queue) ∧
    (found = true → ∃ q1 p q2, queue = q1 ++ p :: q2 ∧ queue' = p :: q1 ++ q2 ∧ avail s p = true ∧
       (memSchedPolicy (cfg s) = fcfs → ∀ q, q ∈ q1 → avail s q = false)).
Proof.
  intros Hs Hq. destruct (chooseNext_ok now s queue extra Hs Hq) as ([i|] & (Hx & Ha & E) & Hf).
  - exists true, (front i queue). split; [done|]. split; [apply front_perm|]. split; [naive_solver|].
    split; [done|]. intros _. destruct (Ha i eq_refl) as (p & Hp & Hav).
    exists (take i queue), p, (drop (S i) queue). unfold front. rewrite Hp, delete_take_drop.
    split_and!; [by rewrite take_drop_middle|done|done|]. intros Hpol q [j Hj]%list_elem_of_lookup_1.
    specialize (Hf Hpol). symmetry in Hf. apply find_first_Some in Hf as (n & p' & -> & _ & _ & Hlt).
    apply lookup_take_Some in Hj as [Hj ?]. by eapply Hlt.
  - exists false, queue. split_and!; [done|done| |done|done]. rewrite <- Hx.
    split; [done|]. by intros [??].
Qed.

(** C18: First-ready scheduling implements its priorities: the oldest row hit that
    keeps the data bus busy; else the oldest packet to a bank of the preparation
    mask if that bank can be prepared behind the current burst; else the oldest
    row hit; else the oldest packet to a bank of the mask.  The mask is exactly
    the waiting banks that can follow seamlessly, or if there are none the waiting
    banks with the earliest activate. *)
Theorem reorderQueue_priorities (now : Tick) (s : DRAMCtrl) (queue : list DRAMPacket) (extra : Tick) :
  sched_ok now s queue →
  let m := sched_col_at now s extra in
  ∃ mask hidden,
    minBankPrep now s queue m = Ok (mask, hidden) ∧
    (∀ ij, coords_ok (cfg s) ij →
       Z.testbit mask (coords_id (cfg s) ij) = true ↔ prep_choice now s queue m ij) ∧
    (∀ ij, prep_choice now s queue m ij → hidden = (act_at now s ij <=? hidden_act_max now s m)) ∧
    reorderQueue now s queue extra =
      Ok (match frfcfs_choice s m mask hidden queue with
          | Some i => (true, front i queue)
          | None => (false, queue)
          end).
Proof.
  intros Hs m. destruct (reorderQueue_ok now s queue extra Hs) as (mask & hidden & Hp & Hk & Hh & _ & E).
  by exists mask, hidden.
Qed.

(** ** Witnesses: two reads behind a conflicting one *)

Definition fitsb (c : Config) (n : Z) (t : Tick) : bool := (0 <=? t) && (t + n * span c <? 2 ^ 64).

Lemma fits_check c n t : fitsb c n t = true → fits c n t.
Proof. intros [?%Z.leb_le ?%Z.ltb_lt]%andb_true_iff. by split. Qed.

Lemma ticks_check c n l :
  forallb (λ r, forallb (λ k, fitsb c n (colAllowedAt k) && fitsb c n (preAllowedAt k)
                              && fitsb c n (actAllowedAt k)) (banks r)) l = true →
  ∀ r k, r ∈ l → k ∈ banks r → bank_fits c n k.
Proof.
  intros H r k Hr Hk. rewrite forallb_forall in H. specialize (H r). rewrite forallb_forall in H.
  specialize (H ltac:(by apply list_elem_of_In) k ltac:(by apply list_elem_of_In)).
  apply andb_true_iff in H as [[??]%andb_true_iff ?]. split_and!; by apply fits_check.
Qed.

Definition ex_queue : list DRAMPacket := [ex_read 3 9; ex_read 5 100; ex_read 3 7].

Lemma ex_sched_ok : sched_ok 40000 ex_ctrl1 ex_queue.
Proof.
  split; [apply DDR4_timing_wf|apply ranks_ok_check; vm_compute; reflexivity|reflexivity|by vm_compute|
    apply fits_check; vm_compute; reflexivity|apply ticks_check; vm_compute; reflexivity|].
  repeat constructor; by vm_compute.
Qed.

(** The row hit, the last of the queue, is served first. *)
Lemma chooseNext_correct_witness :
  chooseNext 40000 ex_ctrl1 ex_queue 0 = Ok (true, [ex_read 3 7; ex_read 3 9; ex_read 5 100]) ∧
  ∃ found queue', chooseNext 40000 ex_ctrl1 ex_queue 0 = Ok (found, queue') ∧ queue' ≡ₚ ex_queue.
Proof.
  split; [vm_compute; reflexivity|].
  destruct (chooseNext_correct 40000 ex_ctrl1 ex_queue 0 ex_sched_ok ltac:(done))
    as (found & queue' & E & Hp & _). exists found, queue'. exact (conj E Hp).
Defined.

Lemma reorderQueue_priorities_witness :
  ∃ mask hidden, minBankPrep 40000 ex_ctrl1 ex_queue 40000 = Ok (mask, hidden) ∧ mask = 32.
Proof.
  destruct (reorderQueue_priorities 40000 ex_ctrl1 ex_queue 0 ex_sched_ok) as (mask & hidden & E & _).
  change (sched_col_at _ _ _) with 40000 in E. exists mask, hidden. split; [exact E|].
  assert (minBankPrep 40000 ex_ctrl1 ex_queue 40000 = Ok (32, true)) as E' by (vm_compute; reflexivity).
  rewrite E in E'. by injection E'.
Defined.
