(* ===== verification/DRAMQueue.v ===== *)
(** * DRAM controller: queues and responses (mem/dram_ctrl.cc)

    Packets enter through [recvTimingReq], which splits them into bursts for the
    read and the write queue or turns a row operation into one DRAM packet, and
    leave through [accessAndRespond]: at once for writes, when the last of their
    bursts is ready for reads ([processRespondEvent]). *)

From stdpp Require Import base numbers list gmap sets.
From S2P Require Import Prelude IntMath AddrRanges Packets AbstractMem Events PktQueue DRAMConfig.
From S2P Require Import DRAMState DRAMBank DRAMCtrlState DRAMAccess DRAMSched.
Import DRAMCtrl.
Local Open Scope Z_scope.

(** [*pkt], and an assignment to the packet. *)
Definition get_packet (s : DRAMCtrl) (pkt : Z) : res Packet.Packet :=
  match packets s !! pkt with Some p => mret p | None => Err UB end.
Definition put_packet (pkt : Z) (p : Packet.Packet) (s : DRAMCtrl) : DRAMCtrl :=
  set_packets (<[pkt := p]> (packets s)) s.

(** [accessAndRespond(pkt, static_latency)] *)
Definition accessAndRespond (now : Tick) (s : DRAMCtrl) (pkt : Z) (static_latency : Tick) :
    res DRAMCtrl :=
  p ← get_packet s pkt;
  let needsResponse := Packet.needsResponse p in
  '(m, p) ← AbstractMemory.access (mem s) p;
  let s := put_packet pkt p (set_mem m s) in
  if needsResponse then
    assert_ (Packet.isResponse p);;
    let response_time :=
      add64 (add64 (add64 now static_latency) (Packet.headerDelay p)) (Packet.payloadDelay p) in
    let p := Packet.with_delays p 0 0 in
    let s := put_packet pkt p s in
    q ← PacketQueue.schedTimingResp now (port s) pkt p response_time;
    mret (set_port q s)
  else mret (set_pendingDelete (pendingDelete s ++ [pkt]) s).

(** "If we are not already scheduled to get a request out of the queue, do so now" *)
Definition kick (now : Tick) (s : DRAMCtrl) : res DRAMCtrl :=
  if scheduled (nextReqEvent s) then mret s
  else e ← schedule now (nextReqEvent s) now; mret (set_nextReqEvent e s).

(** ** Splitting into bursts *)

(** [(addr | (burstSize - 1)) + 1] *)
Definition next_burst (c : Config) (addr : Z) : Z := add64 (Z.lor addr (burstSize c - 1)) 1.

(** The bytes of the packet that end at [pkt_end] in the burst of [addr]. *)
Definition burst_bytes (c : Config) (pkt_end addr : Z) : Z :=
  u32 (sub64 (Z.min (next_burst c addr) pkt_end) addr).

(** "check if the read is subsumed in the write queue packet" *)
Definition subsumes (addr size : Z) (p : DRAMPacket) : bool :=
  (DRAMPacket.addr p <=? addr) && (add64 addr size <=? add64 (DRAMPacket.addr p) (DRAMPacket.size p)).

Definition queued_reads (s : DRAMCtrl) : Z :=
  Z.of_nat (length (readQueue s)) + Z.of_nat (length (respQueue s)).

(** The local variables of [addToReadQueue]. *)
Record ReadLoop := mkReadLoop {
  rl_addr : Z;
  pktsServicedByWrQ : Z;
  burst_helper : option Z;
}.

(** A burst that misses the write queue becomes a DRAM packet. *)
Definition enqueue_read (now : Tick) (s : DRAMCtrl) (pkt pktCount addr size : Z) (helper : option Z) :
    res (DRAMCtrl * option Z) :=
  let '(s, helper) :=
    match helper with
    | None =>
        if 1 <? pktCount then
          let h := fresh (dom (helpers s)) in
          (set_helpers (<[h := mkHelper pktCount 0]> (helpers s)) s, Some h)
        else (s, None)
    | Some h => (s, Some h)
    end in
  dram_pkt ← decodeAddr now s pkt addr size true;
  let dram_pkt := DRAMPacket.set_burstHelper helper dram_pkt in
  assert_ (negb (readQueueFull s 1));;
  let s := inc (rdQLenPdf (queued_reads s)) 1 s in
  let s := set_readQueue (readQueue s ++ [dram_pkt]) s in
  mret (stat_set avgRdQLen (queued_reads s) s, helper).

(** One iteration of the loop over the bursts. *)
Definition read_burst (now : Tick) (pkt pktCount pkt_end : Z) (s : DRAMCtrl) (st : ReadLoop) :
    res (DRAMCtrl * ReadLoop) :=
  let addr := rl_addr st in
  let size := burst_bytes (cfg s) pkt_end addr in
  k ← IntMath.ceilLog2_u32 size;
  let s := inc readBursts 1 (inc (readPktSize k) 1 s) in
  let foundInWrQ :=
    bool_decide (burstAlign (cfg s) addr ∈ isInWriteQueue s)
    && existsb (subsumes addr size) (writeQueue s) in
  if foundInWrQ then
    let s := inc bytesReadWrQ (burstSize (cfg s)) (inc servicedByWrQ 1 s) in
    mret (s, mkReadLoop (next_burst (cfg s) addr) (u32 (pktsServicedByWrQ st + 1)) (burst_helper st))
  else
    '(s, helper) ← enqueue_read now s pkt pktCount addr size (burst_helper st);
    mret (s, mkReadLoop (next_burst (cfg s) addr) (pktsServicedByWrQ st) helper).

Fixpoint read_bursts (n : nat) (now : Tick) (pkt pktCount pkt_end : Z) (s : DRAMCtrl) (st : ReadLoop) :
    res (DRAMCtrl * ReadLoop) :=
  match n with
  | O => mret (s, st)
  | S n =>
      '(s, st) ← read_burst now pkt pktCount pkt_end s st;
      read_bursts n now pkt pktCount pkt_end s st
  end.

(** [burst_helper->burstsServiced = n;] *)
Definition set_serviced (h : Z) (n : Z) (s : DRAMCtrl) : res DRAMCtrl :=
  match helpers s !! h with
  | Some b => mret (set_helpers (<[h := mkHelper (burstCount b) n]> (helpers s)) s)
  | None => Err UB
  end.

Definition addToReadQueue (now : Tick) (s : DRAMCtrl) (pkt pktCount : Z) : res DRAMCtrl :=
  p ← get_packet s pkt;
  assert_ (negb (Packet.isWrite p));;
  assert_ (negb (pktCount =? 0));;
  addr ← Packet.getAddr p;
  size ← Packet.getSize p;
  '(s, st) ← read_bursts (Z.to_nat pktCount) now pkt pktCount (add64 addr size) s
               (mkReadLoop addr 0 None);
  if pktsServicedByWrQ st =? pktCount then accessAndRespond now s pkt (frontendLatency (cfg s))
  else
    s ← (match burst_helper st with
         | Some h => set_serviced h (pktsServicedByWrQ st) s
         | None => mret s
         end);
    kick now s.

(** ** Writes and row operations *)

(** The [isRowOp()] branch of [addToWriteQueue].  A payload with an unknown
    operation fails here rather than in [access], which the same call reaches. *)
Definition enqueue_rowop (now : Tick) (s : DRAMCtrl) (pkt : Z) (p : Packet.Packet) : res DRAMCtrl :=
  bs ← Packet.getPtr p;
  addrs ← RowOps.payload_of bs;
  dram_pkt ← decodeAddr now s pkt (Request.dest addrs) 0 false;
  dram_pkt1 ← decodeAddr now s pkt (Request.src1 addrs) 0 false;
  dram_pkt2 ← decodeAddr now s pkt (Request.src2 addrs) 0 false;
  let dram_pkt := DRAMPacket.set_is_row_op true dram_pkt in
  let dram_pkt := DRAMPacket.set_row_op (Some (Request.op addrs)) dram_pkt in
  let dram_pkt := DRAMPacket.set_src1_row (DRAMPacket.row dram_pkt1) dram_pkt in
  let dram_pkt := DRAMPacket.set_src2_row (DRAMPacket.row dram_pkt2) dram_pkt in
  let s := set_writeQueue (writeQueue s ++ [dram_pkt]) s in
  mret (set_pendingRowOps (pendingRowOps s + 1) s).

(** One iteration of the loop over the bursts of a write. *)
Definition write_burst (now : Tick) (pkt pkt_end : Z) (s : DRAMCtrl) (addr : Z) : res (DRAMCtrl * Z) :=
  let size := burst_bytes (cfg s) pkt_end addr in
  k ← IntMath.ceilLog2_u32 size;
  let s := inc writeBursts 1 (inc (writePktSize k) 1 s) in
  let merged := bool_decide (burstAlign (cfg s) addr ∈ isInWriteQueue s) in
  s ← (if merged then mret (inc mergedWrBursts 1 s)
       else
         dram_pkt ← decodeAddr now s pkt addr size false;
         assert_ (Z.of_nat (length (writeQueue s)) <? writeBufferSize (cfg s));;
         let s := inc (wrQLenPdf (Z.of_nat (length (writeQueue s)))) 1 s in
         let s := set_writeQueue (writeQueue s ++ [dram_pkt]) s in
         let s := set_isInWriteQueue ({[ burstAlign (cfg s) addr ]} ∪ isInWriteQueue s) s in
         mret (stat_set avgWrQLen (Z.of_nat (length (writeQueue s))) s));
  mret (s, next_burst (cfg s) addr).

Fixpoint write_bursts (n : nat) (now : Tick) (pkt pkt_end : Z) (s : DRAMCtrl) (addr : Z) :
    res (DRAMCtrl * Z) :=
  match n with
  | O => mret (s, addr)
  | S n =>
      '(s, addr) ← write_burst now pkt pkt_end s addr;
      write_bursts n now pkt pkt_end s addr
  end.

Definition addToWriteQueue (now : Tick) (s : DRAMCtrl) (pkt pktCount : Z) : res DRAMCtrl :=
  p ← get_packet s pkt;
  assert_ (Packet.isWrite p);;
  s ← (if Packet.isRowOp p then enqueue_rowop now s pkt p
       else
         addr ← Packet.getAddr p;
         size ← Packet.getSize p;
         '(s, _) ← write_bursts (Z.to_nat pktCount) now pkt (add64 addr size) s addr;
         mret s);
  s ← accessAndRespond now s pkt (frontendLatency (cfg s));
  kick now s.

(** ** The entry points *)

(** The packets whose deletion was deferred are deleted. *)
Definition clean (s : DRAMCtrl) : DRAMCtrl :=
  set_pendingDelete [] (set_packets (foldr delete (packets s) (pendingDelete s)) s).

(** "Calc avg gap between requests" *)
Definition arrive (now : Tick) (s : DRAMCtrl) : DRAMCtrl :=
  set_prevArrival now
    (if negb (prevArrival s =? 0) then inc totGap (sub64 now (prevArrival s)) s else s).

(** [recvTimingReq(pkt)]: whether the packet is accepted. *)
Definition recvTimingReq (now : Tick) (s : DRAMCtrl) (pkt : Z) : res (DRAMCtrl * bool) :=
  let s := clean s in
  p ← get_packet s pkt;
  if Packet.memInhibitAsserted p || bool_decide (Packet.cmd p = MemCmd.CleanEvict)
  then mret (set_pendingDelete (pendingDelete s ++ [pkt]) s, true)
  else
    let s := arrive now s in
    size ← Packet.getSize p;
    addr ← Packet.getAddr p;
    let offset := u32 (Z.land addr (burstSize (cfg s) - 1)) in
    dram_pkt_count ← IntMath.divCeil 32 (u32 (offset + size)) (burstSize (cfg s));
    if Packet.isRead p then
      assert_ (negb (size =? 0));;
      if readQueueFull s dram_pkt_count then
        mret (inc numRdRetry 1 (set_retryRdReq true s), false)
      else
        s ← addToReadQueue now s pkt dram_pkt_count;
        mret (inc bytesReadSys size (inc readReqs 1 s), true)
    else if Packet.isWrite p then
      assert_ (negb (size =? 0));;
      if writeQueueFull s dram_pkt_count then
        mret (inc numWrRetry 1 (set_retryWrReq true s), false)
      else
        s ← addToWriteQueue now s pkt dram_pkt_count;
        mret (inc bytesWrittenSys size (inc writeReqs 1 s), true)
    else
      s ← accessAndRespond now (inc neitherReadNorWrite 1 s) pkt 1;
      mret (s, true).

(** The response part of [processRespondEvent]: the system packet is answered with
    the last of its bursts. *)
Definition respond_burst (now : Tick) (s : DRAMCtrl) (dram_pkt : DRAMPacket) : res DRAMCtrl :=
  let latency := add64 (frontendLatency (cfg s)) (backendLatency (cfg s)) in
  match DRAMPacket.burstHelper dram_pkt with
  | Some h =>
      match helpers s !! h with
      | Some b =>
          let n := u32 (burstsServiced b + 1) in
          let s := set_helpers (<[h := mkHelper (burstCount b) n]> (helpers s)) s in
          if n =? burstCount b then
            s ← accessAndRespond now s (DRAMPacket.pkt dram_pkt) latency;
            mret (set_helpers (delete h (helpers s)) s)
          else mret s
      | None => Err UB
      end
  | None => accessAndRespond now s (DRAMPacket.pkt dram_pkt) latency
  end.

(** The rest of [processRespondEvent], once the head of the queue is answered. *)
Definition finish_response (now : Tick) (rest : list DRAMPacket) (s : DRAMCtrl) : res DRAMCtrl :=
  let s := set_respQueue rest s in
  s ← (match rest with
       | front :: _ =>
           assert_ (now <=? DRAMPacket.readyTime front);;
           assert_ (negb (scheduled (respondEvent s)));;
           e ← schedule now (respondEvent s) (DRAMPacket.readyTime front);
           mret (set_respondEvent e s)
       | [] =>
           mret (if bool_decide (drain_state s = Draining) && bool_decide (writeQueue s = [])
                    && bool_decide (readQueue s = [])
                 then set_drain_state (signalDrainDone (drain_state s)) s else s)
       end);
  mret (if retryRdReq s
        then set_retriesSent (retriesSent s + 1) (set_retryRdReq false s) else s).

(** [processRespondEvent()]; the event has been descheduled when its handler runs. *)
Definition processRespondEvent (now : Tick) (s : DRAMCtrl) : res DRAMCtrl :=
  match respQueue s with
  | [] => Err UB
  | dram_pkt :: rest =>
      s ← respond_burst now s dram_pkt;
      finish_response now rest s
  end.

(** [recvAtomic(pkt)]: the latency. *)
Definition recvAtomic (s : DRAMCtrl) (pkt : Z) : res (DRAMCtrl * Tick) :=
  p ← get_packet s pkt;
  '(m, p) ← AbstractMemory.access (mem s) p;
  let s := put_packet pkt p (set_mem m s) in
  let t := tm (cfg s) in
  mret (s, if negb (Packet.memInhibitAsserted p) && Packet.hasData p
           then add64 (add64 (tRP t) (tRCD t)) (tCL t) else 0).

(** [MemoryPort::recvFunctional(pkt)]: queued responses first, then the memory. *)
Definition recvFunctional (s : DRAMCtrl) (pkt : Z) : res DRAMCtrl :=
  p ← get_packet s pkt;
  '(found, p, heap) ← PacketQueue.checkFunctional (packets s) (port s) p;
  let s := put_packet pkt p (set_packets heap s) in
  if (found : bool) then mret s
  else
    '(m, p) ← AbstractMemory.functionalAccess (mem s) p;
    mret (put_packet pkt p (set_mem m s)).

(** ** Splitting is exact *)

(** The bursts of a request [a, e), as (address, size). *)
Fixpoint pieces (c : Config) (n : nat) (a e : Z) : list (Z * Z) :=
  match n with
  | O => []
  | S n => (a, burst_bytes c e a) :: pieces c n (next_burst c a) e
  end.

(** [l] tiles [a, e) from left to right by pieces that stay in one burst. *)
Fixpoint tiles (B a e : Z) (l : list (Z * Z)) : Prop :=
  match l with
  | [] => a = e
  | (b, z) :: l => b = a ∧ 0 < z ∧ b / B = (b + z - 1) / B ∧ tiles B (b + z) e l
  end.

(** The number of bursts that [a, e) touches. *)
Definition windows (B a e : Z) : Z := (e - 1) / B - a / B + 1.

Definition burst_pow2 (c : Config) : Prop := ∃ k, 0 ≤ k < 32 ∧ burstSize c = 2 ^ k.

Lemma lor_ones a k : 0 ≤ a → 0 ≤ k → Z.lor a (2 ^ k - 1) + 1 = (a / 2 ^ k + 1) * 2 ^ k.
Proof.
  intros Ha Hk. assert (2 ^ k - 1 = Z.ones k) as E by (rewrite Z.ones_equiv; lia). rewrite E.
  assert (Z.lor a (Z.ones k) = Z.lor (Z.shiftl (Z.shiftr a k) k) (Z.ones k)) as ->.
  { apply Z.bits_inj'. intros i Hi. rewrite !Z.lor_spec, Z.shiftl_spec, Z.testbit_ones_nonneg by lia.
    destruct (Z.ltb_spec i k); [by rewrite !orb_true_r|].
    rewrite Z.shiftr_spec by lia. by replace (i - k + k) with i by lia. }
  rewrite lor_disjoint.
  - rewrite Z.shiftl_mul_pow2, Z.shiftr_div_pow2 by lia. lia.
  - apply Z.bits_inj'. intros i Hi. rewrite Z.land_spec, Z.shiftl_spec, Z.testbit_ones_nonneg, Z.bits_0 by lia.
    destruct (Z.ltb_spec i k); [|by rewrite andb_false_r]. by rewrite Z.testbit_neg_r by lia.
Qed.

Section split.
Context (c : Config) (e : Z).
Hypothesis Hpow : burst_pow2 c.
Hypothesis He : e + burstSize c < 2 ^ 64.
Abbreviation B := (burstSize c).

Lemma burst_pos : 0 < B.
Proof. destruct Hpow as (k & Hk & ->). apply Z.pow_pos_nonneg; lia. Qed.

Lemma next_burst_eq a : 0 ≤ a < e → next_burst c a = (a / B + 1) * B.
Proof.
  intros Ha. pose proof burst_pos. pose proof (Z.mul_div_le a B). pose proof (Z.mul_succ_div_gt a B).
  unfold next_burst.
  destruct Hpow as (k & Hk & E). rewrite E in *. unfold add64. rewrite lor_ones by lia.
  apply wrap_small. lia.
Qed.

Lemma burst_bytes_eq a :
  0 ≤ a < e → burst_bytes c e a = Z.min ((a / B + 1) * B) e - a ∧ 0 < burst_bytes c e a < 2 ^ 32.
Proof.
  intros Ha. pose proof burst_pos. pose proof (Z.mul_div_le a B). pose proof (Z.mul_succ_div_gt a B).
  assert (B < 2 ^ 32) by (destruct Hpow as (k & Hk & ->); apply Z.pow_lt_mono_r; lia).
  unfold burst_bytes. rewrite next_burst_eq by done. rewrite sub64_small by lia.
  rewrite wrap_small by lia. lia.
Qed.

Lemma windows_cons a :
  0 ≤ a < e →
  windows B a e = 1 ∧ e ≤ (a / B + 1) * B ∨
  (a / B + 1) * B < e ∧ windows B a e = windows B ((a / B + 1) * B) e + 1.
Proof.
  intros Ha. pose proof burst_pos. unfold windows. rewrite Z.div_mul by lia.
  destruct (Z.le_gt_cases e ((a / B + 1) * B)) as [Hle|Hgt]; [left|right; lia]. split; [|done].
  assert ((e - 1) / B < a / B + 1) by (apply Z.div_lt_upper_bound; lia).
  pose proof (Z.div_le_mono a (e - 1) B). lia.
Qed.

Lemma pieces_tile n : ∀ a,
  0 ≤ a < e → Z.of_nat n = windows B a e →
  tiles B a e (pieces c n a e) ∧ Forall (λ p, a ≤ p.1 ∧ 0 < p.2 < 2 ^ 32 ∧ p.1 + p.2 ≤ e) (pieces c n a e).
Proof.
  induction n as [|n IH]; intros a Ha Hn; pose proof burst_pos.
  { unfold windows in Hn. pose proof (Z.div_le_mono a (e - 1) B). lia. }
  destruct (burst_bytes_eq a Ha) as [Ez Hz]. simpl. rewrite next_burst_eq by done.
  pose proof (Z.mul_div_le a B). pose proof (Z.mul_succ_div_gt a B).
  assert (a / B = (a + burst_bytes c e a - 1) / B) as Hsame.
  { apply Z.div_unique with (a + burst_bytes c e a - 1 - B * (a / B)); lia. }
  destruct (windows_cons a Ha) as [[E Hle]|[Hgt E]].
  - assert (n = 0%nat) as -> by lia. simpl. split; [split_and!; [done|lia|done|lia]|].
    constructor; [simpl; lia|done].
  - destruct (IH ((a / B + 1) * B)) as [Ht Hf]; [lia|lia|]. split.
    + split_and!; [done|lia|done|]. by replace (a + burst_bytes c e a) with ((a / B + 1) * B) by lia.
    + constructor; [simpl; lia|]. eapply Forall_impl; [exact Hf|]. simpl. lia.
Qed.

(** The count of [recvTimingReq]. *)
Lemma count_windows a size :
  0 ≤ a → 0 < size → a + size = e → B + size + B < 2 ^ 32 →
  IntMath.divCeil 32 (u32 (u32 (Z.land a (B - 1)) + size)) B = Ok (windows B a e).
Proof.
  intros Ha Hs <- Hsmall. pose proof burst_pos.
  assert (Z.land a (B - 1) = a mod B) as ->.
  { destruct Hpow as (k & Hk & ->). rewrite <- Z.land_ones by lia. f_equal. rewrite Z.ones_equiv. lia. }
  pose proof (Z.mod_pos_bound a B). rewrite (wrap_small 32 (a mod B)) by lia. rewrite wrap_small by lia.
  rewrite divCeil_eq by lia. f_equal. unfold windows.
  replace (a + size - 1) with (a / B * B + (a mod B + size - 1)) by (rewrite (Z.div_mod a B) at 3; lia).
  rewrite Z.div_add_l by lia. replace (a mod B + size + B - 1) with (1 * B + (a mod B + size - 1)) by lia.
  rewrite Z.div_add_l by lia. lia.
Qed.

End split.

(** ** Decoding never fails on the addresses of the memory *)

Record geometry_ok (s : DRAMCtrl) : Prop := {
  go_config : config_wf (cfg s);
  go_burst : burst_pow2 (cfg s);
  go_ranks : Forall (rank_ok (cfg s)) (ranks s);
  go_count : Z.of_nat (length (ranks s)) = ranksPerChannel (cfg s);
  go_small : ranksPerChannel (cfg s) * banksPerRank (cfg s) ≤ 64;
}.

(** The DRAM packet [decodeAddr] makes. *)
Record decoded (c : Config) (now : Tick) (pkt a z : Z) (rd : bool) (dp : DRAMPacket) : Prop := {
  de_packet : packet_ok c dp;
  de_row : 0 ≤ DRAMPacket.row dp < rowsPerBank c ∧ DRAMPacket.row dp ≠ NO_ROW;
  de_entry : DRAMPacket.entryTime dp = now;
  de_ready : DRAMPacket.readyTime dp = now;
  de_pkt : DRAMPacket.pkt dp = pkt;
  de_read : DRAMPacket.isRead dp = rd;
  de_rowop : DRAMPacket.is_row_op dp = false;
  de_addr : DRAMPacket.addr dp = a;
  de_size : DRAMPacket.size dp = z;
  de_where : coords dp = (l_rank (locate c a), l_bank (locate c a)) ∧
    DRAMPacket.row dp = l_row (locate c a);
}.

Lemma decodeAddr_ok now s pkt a z rd :
  geometry_ok s → 0 ≤ a < total_bytes (cfg s) →
  ∃ dp, decodeAddr now s pkt a z rd = Ok dp ∧ decoded (cfg s) now pkt a z rd dp ∧
    DRAMPacket.burstHelper dp = None.
Proof.
  intros [Hc _ Hr Hn Hs] Ha. unfold decodeAddr.
  pose proof (locate_ok _ Hc a Ha) as Hl. pose proof (decode_location _ Hc _ Hl) as E.
  rewrite (location_addr_locate _ Hc) in E. rewrite E. cbv [mbind res_mbind].
  destruct Hl as [Hrow Hrank Hbank _ _ _]. set (l := locate (cfg s) a) in *. simpl.
  destruct (lookup_lt_is_Some_2 (ranks s) (Z.to_nat (l_rank l))) as [r Hlr]; [lia|].
  rewrite (get_rank_ok s (l_rank l) r) by (lia || done).
  assert (rank_ok (cfg s) r) as Hrk by (by eapply Forall_lookup_1).
  destruct (lookup_lt_is_Some_2 (banks r) (Z.to_nat (l_bank l))) as [k Hk];
    [pose proof (ro_banks _ _ Hrk); lia|].
  rewrite (get_bank_ok r (l_bank l) k) by (lia || done).
  eexists. split; [reflexivity|]. split; [|done].
  assert (0 ≤ banksPerRank (cfg s) * l_rank l + l_bank l < 64) by nia.
  split; simpl; try done.
  - split; [split; simpl; lia|]. unfold coords_id. simpl. rewrite (wrap_small 32), wrap_small by lia. lia.
  - pose proof (wf_rows _ Hc). split; lia.
Qed.

Definition in_wrq (s : DRAMCtrl) (b : Z * Z) : bool :=
  bool_decide (burstAlign (cfg s) b.1 ∈ isInWriteQueue s) && existsb (subsumes b.1 b.2) (writeQueue s).

(** The bursts that have to be read, and the number of the others. *)
Definition missing (s : DRAMCtrl) (l : list (Z * Z)) : list (Z * Z) :=
  filter (λ b, in_wrq s b = false) l.
Definition hits (s : DRAMCtrl) (l : list (Z * Z)) : Z :=
  Z.of_nat (length l) - Z.of_nat (length (missing s l)).

Lemma missing_cons s b l :
  missing s (b :: l) = if in_wrq s b then missing s l else b :: missing s l.
Proof.
  unfold missing. rewrite filter_cons. destruct (in_wrq s b); [by rewrite decide_False|by rewrite decide_True].
Qed.

(** The helper of a split packet: allocated with its first missing burst. *)
Definition next_helper (s : DRAMCtrl) (pktCount : Z) (h : option Z) : option Z :=
  match h with
  | Some h => Some h
  | None => if 1 <? pktCount then Some (fresh (dom (helpers s))) else None
  end.
Definition next_helpers (s : DRAMCtrl) (pktCount : Z) (h : option Z) : gmap Z BurstHelper :=
  match h with
  | Some _ => helpers s
  | None =>
      if 1 <? pktCount then <[fresh (dom (helpers s)) := mkHelper pktCount 0]> (helpers s) else helpers s
  end.

Lemma enqueue_read_ok now s pkt pktCount a z h :
  geometry_ok s → 0 ≤ a < total_bytes (cfg s) → queued_reads s + 1 ≤ readBufferSize (cfg s) →
  ∃ f dp, enqueue_read now s pkt pktCount a z h =
      Ok (set_stats f (set_helpers (next_helpers s pktCount h) (set_readQueue (readQueue s ++ [dp]) s)),
          next_helper s pktCount h) ∧
    decoded (cfg s) now pkt a z true dp ∧ DRAMPacket.burstHelper dp = next_helper s pktCount h.
Proof.
  intros Hg Ha Hq. unfold enqueue_read.
  destruct (decodeAddr_ok now s pkt a z true Hg Ha) as (dp & E & Hd & _).
  set (s1 := set_helpers (next_helpers s pktCount h) s).
  assert (match h with
    | Some h => (s, Some h)
    | None => if 1 <? pktCount
        then (set_helpers (<[fresh (dom (helpers s)) := mkHelper pktCount 0]> (helpers s)) s,
              Some (fresh (dom (helpers s)))) else (s, None)
    end = (s1, next_helper s pktCount h)) as ->.
  { unfold s1, next_helpers, next_helper. destruct s, h; [done|]. by destruct (1 <? pktCount). }
  change (decodeAddr now s1 pkt a z true) with (decodeAddr now s pkt a z true). rewrite E.
  cbv [mbind res_mbind]. change (readQueueFull s1 1) with (readQueueFull s 1).
  assert (readQueueFull s 1 = false) as -> by (apply Z.ltb_ge; exact Hq). cbn [negb check].
  eexists _, (DRAMPacket.set_burstHelper (next_helper s pktCount h) dp). split; [reflexivity|].
  split; [|done]. destruct Hd. by split.
Qed.

(** The controller after a run of bursts. *)
Definition with_reads (s : DRAMCtrl) (f : Stat → Z) (H : gmap Z BurstHelper) (new : list DRAMPacket) :
    DRAMCtrl :=
  set_stats f (set_helpers H (set_readQueue (readQueue s ++ new) s)).

Lemma next_helper_idem s f Q n h :
  let s1 := set_stats f (set_helpers (next_helpers s n h) (set_readQueue Q s)) in
  next_helper s1 n (next_helper s n h) = next_helper s n h ∧
  next_helpers s1 n (next_helper s n h) = next_helpers s n h.
Proof. unfold next_helper, next_helpers. destruct h; [done|]. by destruct (1 <? n) eqn:E; rewrite ?E. Qed.

(** The helper and the helpers after the bursts [new] have been enqueued. *)
Definition helper_after (s : DRAMCtrl) (n : Z) (h : option Z) (new : list DRAMPacket) : option Z :=
  match new with [] => h | _ => next_helper s n h end.
Definition helpers_after (s : DRAMCtrl) (n : Z) (h : option Z) (new : list DRAMPacket) :
    gmap Z BurstHelper :=
  match new with [] => helpers s | _ => next_helpers s n h end.

Lemma helper_after_idem s f Q n h dp new :
  let s1 := set_stats f (set_helpers (next_helpers s n h) (set_readQueue Q s)) in
  helper_after s1 n (next_helper s n h) new = helper_after s n h (dp :: new) ∧
  helpers_after s1 n (next_helper s n h) new = helpers_after s n h (dp :: new).
Proof.
  intros s1. destruct (next_helper_idem s f Q n h) as [E1 E2]. fold s1 in E1, E2.
  destruct new; simpl; by rewrite ?E1, ?E2.
Qed.

Definition new_read (c : Config) (now : Tick) (pkt : Z) (h : option Z) (b : Z * Z) (dp : DRAMPacket) : Prop :=
  decoded c now pkt b.1 b.2 true dp ∧ DRAMPacket.burstHelper dp = h.

Lemma read_bursts_ok now pkt cnt e n : ∀ s st,
  let ps := pieces (cfg s) n (rl_addr st) e in
  geometry_ok s → Forall (λ p, 0 ≤ p.1 < total_bytes (cfg s) ∧ 0 < p.2 < 2 ^ 32) ps →
  queued_reads s + Z.of_nat (length (missing s ps)) ≤ readBufferSize (cfg s) →
  0 ≤ pktsServicedByWrQ st → pktsServicedByWrQ st + Z.of_nat n < 2 ^ 32 →
  ∃ f new a', read_bursts n now pkt cnt e s st =
      Ok (with_reads s f (helpers_after s cnt (burst_helper st) new) new,
          mkReadLoop a' (pktsServicedByWrQ st + hits s ps) (helper_after s cnt (burst_helper st) new)) ∧
    Forall2 (new_read (cfg s) now pkt (next_helper s cnt (burst_helper st))) (missing s ps) new.
Proof.
  induction n as [|n IH]; intros s st ps Hg Hps Hq H0 Hn.
  { exists (stats s), [], (rl_addr st). split; [|constructor]. simpl. unfold with_reads, hits. simpl.
    rewrite app_nil_r, Z.add_0_r. by destruct s, st. }
  simpl in ps. apply Forall_cons in Hps as [[Ha Hz] Hps]. simpl in Ha, Hz. unfold ps in *. clear ps.
  set (ps := pieces (cfg s) n (next_burst (cfg s) (rl_addr st)) e) in *.
  set (b := (rl_addr st, burst_bytes (cfg s) e (rl_addr st))) in *. rewrite missing_cons in Hq |- *.
  simpl read_bursts. unfold read_burst. rewrite ceilLog2_u32_eq by done. cbv [mbind res_mbind mret res_mret].
  set (s0 := inc readBursts 1 _). change (_ && _) with (in_wrq s b) at 1.
  assert (hits s (b :: ps) = hits s ps + if in_wrq s b then 1 else 0) as Hh.
  { unfold hits. rewrite missing_cons. destruct (in_wrq s b); simpl length; lia. }
  rewrite Hh. destruct (in_wrq s b).
  - set (s1 := inc bytesReadWrQ _ _). rewrite wrap_small by lia.
    destruct (IH s1 (mkReadLoop (next_burst (cfg s) (rl_addr st)) (pktsServicedByWrQ st + 1) (burst_helper st)))
      as (f & new & a' & E & Hnew); [by destruct Hg|exact Hps|exact Hq|simpl; lia|simpl; lia|].
    change (cfg s1) with (cfg s). rewrite E. exists f, new, a'. split; [|exact Hnew].
    simpl. change (hits s1 _) with (hits s ps). replace (pktsServicedByWrQ st + 1 + hits s ps) with
      (pktsServicedByWrQ st + (hits s ps + 1)) by lia. done.
  - simpl length in Hq. change (cfg s0) with (cfg s).
    destruct (enqueue_read_ok now s0 pkt cnt (rl_addr st) b.2 (burst_helper st)) as (f & dp & E & Hd & Hdh);
      [by destruct Hg|done|change (queued_reads s0) with (queued_reads s); simpl; lia|].
    simpl in E. rewrite E. set (s1 := set_stats f _) in *.
    destruct (IH s1 (mkReadLoop (next_burst (cfg s) (rl_addr st)) (pktsServicedByWrQ st)
      (next_helper s0 cnt (burst_helper st)))) as (f2 & new & a' & E2 & Hnew);
      [by destruct Hg|exact Hps| |simpl; lia|simpl; lia|].
    { change (missing s1 _) with (missing s ps). unfold queued_reads in Hq |- *. simpl. rewrite length_app.
      simpl. lia. }
    change (cfg s1) with (cfg s). rewrite E2. exists f2, (dp :: new), a'.
    pose proof (helper_after_idem s0 f (readQueue s0 ++ [dp]) cnt (burst_helper st) dp new) as [Eh1 Eh2].
    change (helper_after s1 cnt (next_helper s0 cnt (burst_helper st)) new =
      helper_after s cnt (burst_helper st) (dp :: new)) in Eh1.
    change (helpers_after s1 cnt (next_helper s0 cnt (burst_helper st)) new =
      helpers_after s cnt (burst_helper st) (dp :: new)) in Eh2.
    cbn [burst_helper pktsServicedByWrQ]. rewrite Eh1, Eh2. split.
    + unfold with_reads. simpl. change (hits s1 _) with (hits s ps). rewrite Z.add_0_r, <- app_assoc. done.
    + constructor; [by split|].
      pose proof (proj1 (next_helper_idem s0 f (readQueue s0 ++ [dp]) cnt (burst_helper st))) as Eh.
      change (next_helper s1 cnt (next_helper s0 cnt (burst_helper st))
        = next_helper s cnt (burst_helper st)) in Eh.
      cbn [burst_helper] in Hnew. rewrite Eh in Hnew. exact Hnew.
Qed.

(** ** Burst helpers *)

Definition outstanding (s : DRAMCtrl) : list DRAMPacket := readQueue s ++ respQueue s.

Definition has_helper (h : Z) (dp : DRAMPacket) : Prop := DRAMPacket.burstHelper dp = Some h.

#[global] Instance has_helper_dec h dp : Decision (has_helper h dp).
Proof. unfold has_helper. apply _. Defined.

Definition count_helper (h : Z) (l : list DRAMPacket) : Z :=
  Z.of_nat (length (filter (has_helper h) l)).

(** Two outstanding bursts belong to the same packet iff they share a helper. *)
Definition same_packet (p q : DRAMPacket) : Prop :=
  DRAMPacket.pkt p = DRAMPacket.pkt q ↔ ∃ h, has_helper h p ∧ has_helper h q.

(** [H] are the helpers of the bursts [l]: each counts the bursts that are served. *)
Record helper_ok (H : gmap Z BurstHelper) (l : list DRAMPacket) : Prop := {
  ho_count : ∀ h b, H !! h = Some b → 0 ≤ burstsServiced b ∧ 0 < count_helper h l ∧
    burstsServiced b + count_helper h l = burstCount b ∧ burstCount b < 2 ^ 32;
  ho_known : ∀ dp h, dp ∈ l → has_helper h dp → is_Some (H !! h);
  ho_same : pairwise same_packet l;
}.

Lemma count_helper_app h l1 l2 : count_helper h (l1 ++ l2) = count_helper h l1 + count_helper h l2.
Proof. unfold count_helper. rewrite filter_app, length_app. lia. Qed.

Lemma count_helper_perm h l1 l2 : l1 ≡ₚ l2 → count_helper h l1 = count_helper h l2.
Proof. unfold count_helper. by intros ->. Qed.

Lemma count_helper_cons h dp l :
  count_helper h (dp :: l) = (if decide (has_helper h dp) then 1 else 0) + count_helper h l.
Proof. unfold count_helper. rewrite filter_cons. case_decide; simpl length; lia. Qed.

Lemma count_helper_zero h l : count_helper h l = 0 ↔ ∀ dp, dp ∈ l → ¬ has_helper h dp.
Proof.
  induction l as [|p l IH]; [split; [by intros _ dp ?%elem_of_nil|done]|].
  rewrite count_helper_cons. assert (0 ≤ count_helper h l) by (unfold count_helper; lia).
  case_decide; split; intros Hc; try lia.
  - exfalso. eapply (Hc p); [set_solver|done].
  - intros dp [->|Hdp]%elem_of_cons; [done|]. apply IH; [lia|done].
  - assert (count_helper h l = 0) by (apply IH; intros dp Hdp; apply Hc; set_solver). lia.
Qed.

Lemma same_packet_sym p q : same_packet p q → same_packet q p.
Proof.
  intros [H1 H2]. split.
  - intros E. destruct H1 as (h & ? & ?); [done|]. by exists h.
  - intros (h & ? & ?). symmetry. apply H2. by exists h.
Qed.

Lemma helper_ok_perm H l1 l2 : l1 ≡ₚ l2 → helper_ok H l1 → helper_ok H l2.
Proof.
  intros Hp [Hc Hk Hs]. split.
  - intros h b Hb. rewrite <- (count_helper_perm h _ _ Hp). by apply Hc.
  - intros dp h Hdp. apply Hk. by rewrite Hp.
  - eapply pairwise_perm; [exact same_packet_sym|done|done].
Qed.

(** The bursts of a packet that was not outstanding. *)
Lemma helper_ok_none H l dp :
  helper_ok H l → DRAMPacket.burstHelper dp = None →
  (∀ q, q ∈ l → DRAMPacket.pkt q ≠ DRAMPacket.pkt dp) → helper_ok H (dp :: l).
Proof.
  intros [Hc Hk Hs] Hn Hnew. split; [| |split; [|done]].
  - intros h b Hb. rewrite count_helper_cons, decide_False by (unfold has_helper; congruence). by apply Hc.
  - intros p h [->|Hp]%elem_of_cons Hh; [|by eapply Hk]. unfold has_helper in Hh. congruence.
  - apply Forall_forall. intros q Hq. split; [intros E; by destruct (Hnew q Hq)|].
    intros (h & Hh & _). unfold has_helper in Hh. congruence.
Qed.

Lemma helper_ok_split H l new h cnt pkt :
  helper_ok H l → H !! h = None → new ≠ [] → Z.of_nat (length new) ≤ cnt < 2 ^ 32 →
  Forall (λ dp, has_helper h dp ∧ DRAMPacket.pkt dp = pkt) new →
  (∀ q, q ∈ l → DRAMPacket.pkt q ≠ pkt) →
  helper_ok (<[h := mkHelper cnt (cnt - Z.of_nat (length new))]> H) (new ++ l).
Proof.
  intros [Hc Hk Hs] Hh Hne Hcnt Hnew Hpkt.
  assert (∀ q, q ∈ l → ¬ has_helper h q) as Hl.
  { intros q Hq Hqh. destruct (Hk q h Hq Hqh) as [b Hb]. congruence. }
  assert (∀ h', count_helper h' new = if decide (h = h') then Z.of_nat (length new) else 0) as Hcn.
  { intros h'. clear -Hnew. induction Hnew as [|dp new [Hd _] _ IH]; [by case_decide|].
    rewrite count_helper_cons, IH.
    destruct (decide (h = h')) as [->|]; [rewrite decide_True by done; simpl length; lia|].
    rewrite decide_False by (unfold has_helper in *; congruence). lia. }
  split.
  - intros h' b. rewrite count_helper_app, Hcn. destruct (decide (h = h')) as [<-|Hne'].
    + rewrite lookup_insert_eq. intros [= <-]. simpl. rewrite (proj2 (count_helper_zero h l) Hl).
      destruct new; [done|]. simpl length in *. lia.
    + rewrite lookup_insert_ne by done. intros Hb. destruct (Hc h' b Hb). lia.
  - intros dp h' [Hdp|Hdp]%elem_of_app Hdh; rewrite lookup_insert_is_Some'; [|right; by eapply Hk].
    left. eapply Forall_forall in Hdp; [|exact Hnew]. unfold has_helper in *. destruct Hdp. congruence.
  - apply pairwise_app. split_and!; [|done|].
    + clear -Hnew. induction Hnew as [|dp new [Hd Hp] Hnew IH]; simpl; [done|]. split; [|done].
      eapply Forall_impl; [exact Hnew|]. intros q [Hq Hqp]. split; [by exists h|congruence].
    + eapply Forall_impl; [exact Hnew|]. intros p [Hp Hpp]. apply Forall_forall. intros q Hq.
      split; [intros E; exfalso; eapply Hpkt; [done|congruence]|].
      intros (h' & Hp' & Hq'). exfalso. unfold has_helper in *. eapply Hl; [done|]. unfold has_helper. congruence.
Qed.

(** ** Responding *)

(** What [accessAndRespond] changes. *)
Definition with_access (s s1 : DRAMCtrl) : DRAMCtrl :=
  set_pendingDelete (pendingDelete s1) (set_port (port s1) (set_packets (packets s1) (set_mem (mem s1) s))).

Lemma accessAndRespond_frame now s pkt lat s1 :
  accessAndRespond now s pkt lat = Ok s1 → s1 = with_access s s1.
Proof.
  unfold accessAndRespond. intros H. apply bind_Ok_inv in H as (p & _ & H).
  apply bind_Ok_inv in H as ([m p'] & _ & H). destruct (Packet.needsResponse p).
  - apply bind_Ok_inv in H as ([] & _ & H). apply bind_Ok_inv in H as (q & _ & H).
    injection H as <-. by destruct s.
  - injection H as <-. by destruct s.
Qed.

Lemma accessAndRespond_helpers now s H pkt lat :
  accessAndRespond now (set_helpers H s) pkt lat = set_helpers H <$> accessAndRespond now s pkt lat.
Proof.
  unfold accessAndRespond, get_packet. simpl. destruct (packets s !! pkt) as [p|]; [|done]. simpl.
  destruct (AbstractMemory.access (mem s) p) as [[m p']|]; [|done]. simpl.
  destruct (Packet.needsResponse p); [|done]. destruct (Packet.isResponse p'); [|done]. simpl.
  by destruct (PacketQueue.schedTimingResp _ _ _ _ _).
Qed.

Lemma helper_ok_pop H dp l :
  helper_ok H (dp :: l) →
  match DRAMPacket.burstHelper dp with
  | None => (∀ q, q ∈ l → DRAMPacket.pkt q ≠ DRAMPacket.pkt dp) ∧ helper_ok H l
  | Some h => ∃ b, H !! h = Some b ∧ u32 (burstsServiced b + 1) = burstsServiced b + 1 ∧
      if decide (burstsServiced b + 1 = burstCount b)
      then (∀ q, q ∈ l → DRAMPacket.pkt q ≠ DRAMPacket.pkt dp) ∧ helper_ok (delete h H) l
      else (∃ q, q ∈ l ∧ DRAMPacket.pkt q = DRAMPacket.pkt dp) ∧
           helper_ok (<[h := mkHelper (burstCount b) (burstsServiced b + 1)]> H) l
  end.
Proof.
  intros [Hc Hk [Hs Hs']]. rewrite Forall_forall in Hs.
  destruct (DRAMPacket.burstHelper dp) as [h|] eqn:Eh.
  - destruct (Hk dp h) as [b Hb]; [set_solver|done|]. destruct (Hc h b Hb) as (H0 & H1 & H2 & H3).
    rewrite count_helper_cons, decide_True in H1, H2 by done.
    assert (∀ h' b', h' ≠ h → H !! h' = Some b' → 0 ≤ burstsServiced b' ∧ 0 < count_helper h' l ∧
      burstsServiced b' + count_helper h' l = burstCount b' ∧ burstCount b' < 2 ^ 32) as Hother.
    { intros h' b' Hne Hb'. specialize (Hc h' b' Hb').
      by rewrite count_helper_cons, decide_False in Hc by (unfold has_helper; congruence). }
    exists b. split; [done|]. assert (0 ≤ count_helper h l) by (unfold count_helper; lia).
    split; [apply wrap_small; lia|]. case_decide as Hcase.
    + assert (∀ q, q ∈ l → ¬ has_helper h q) as Hno by (apply count_helper_zero; lia).
      split; [|split; [| |done]].
      * intros q Hq E. destruct (proj1 (Hs q Hq)) as (h' & Hh' & Hqh); [done|]. unfold has_helper in Hh'.
        apply (Hno q Hq). congruence.
      * intros h' b' [Hne Hb']%lookup_delete_Some. by apply Hother.
      * intros q h' Hq Hqh. rewrite lookup_delete_ne; [by eapply (Hk q); [set_solver|]|].
        intros ->. by apply (Hno q Hq).
    + split; [|split; [| |done]].
      * destruct (decide (count_helper h l = 0)) as [E|E]; [lia|].
        unfold count_helper in E. destruct (filter (has_helper h) l) as [|q l'] eqn:Ef; [done|].
        assert (q ∈ filter (has_helper h) l) as [Hqh Hq]%list_elem_of_filter by (rewrite Ef; set_solver).
        exists q. split; [done|]. symmetry. apply Hs; [done|]. by exists h.
      * intros h' b'. destruct (decide (h' = h)) as [->|Hne].
        -- rewrite lookup_insert_eq. intros [= <-]. simpl. lia.
        -- rewrite lookup_insert_ne by done. by apply Hother.
      * intros q h' Hq Hqh. rewrite lookup_insert_is_Some'. right. eapply Hk; [|done]. set_solver.
  - split.
    + intros q Hq E. destruct (proj1 (Hs q Hq)) as (h & Hh & _); [done|]. unfold has_helper in Hh. congruence.
    + split; [|intros q h Hq; apply Hk; set_solver|done].
      intros h b Hb. specialize (Hc h b Hb).
      by rewrite count_helper_cons, decide_False in Hc by (unfold has_helper; congruence).
Qed.

(** The members a response is about. *)
Definition answers (s : DRAMCtrl) := (mem s, packets s, port s, pendingDelete s).

Record finished (now : Tick) (rest : list DRAMPacket) (s s' : DRAMCtrl) : Prop := {
  fi_resp : respQueue s' = rest;
  fi_frame : (answers s', helpers s', readQueue s', writeQueue s', ranks s', cfg s')
    = (answers s, helpers s, readQueue s, writeQueue s, ranks s, cfg s);
  fi_event : respondEvent s' = DRAMPacket.readyTime <$> head rest;
  fi_retry : retryRdReq s' = false ∧ retriesSent s' = retriesSent s + (if retryRdReq s then 1 else 0);
  fi_drain : drain_state s = Draining → rest = [] → writeQueue s = [] → readQueue s = [] →
    drain_state s' = Drained;
}.

Lemma finish_response_ok now rest s :
  respondEvent s = None → (∀ q, head rest = Some q → now ≤ DRAMPacket.readyTime q) →
  ∃ s', finish_response now rest s = Ok s' ∧ finished now rest s s'.
Proof.
  intros He Hr. unfold finish_response. destruct rest as [|q rest].
  - cbv [mbind res_mbind mret res_mret]. set (s1 := set_respQueue [] s).
    set (s2 := if _ : bool then set_drain_state _ _ else _).
    assert (respQueue s2 = [] ∧ respondEvent s2 = None ∧ (answers s2, helpers s2, readQueue s2, writeQueue s2,
      ranks s2, cfg s2) = (answers s, helpers s, readQueue s, writeQueue s, ranks s, cfg s) ∧
      retryRdReq s2 = retryRdReq s ∧ retriesSent s2 = retriesSent s) as (E1 & E2 & E3 & E4 & E5)
      by (unfold s2; destruct (_ && _); done).
    assert (drain_state s = Draining → writeQueue s = [] → readQueue s = [] → drain_state s2 = Drained) as Hd.
    { intros D W R. unfold s2, s1. simpl. by rewrite D, W, R. }
    eexists. split; [reflexivity|]. rewrite E4. destruct (retryRdReq s) eqn:Er.
    + split; simpl; rewrite ?E1, ?E2, ?E5, ?Er; auto.
    + split; rewrite ?E1, ?E2, ?E4, ?E5, ?Er; auto. split; [done|lia].
  - rewrite (proj2 (Z.leb_le _ _)) by (by apply Hr). simpl. rewrite He. simpl.
    rewrite schedule_ok by (by apply Hr). simpl.
    eexists. split; [reflexivity|]. destruct (retryRdReq s) eqn:Er; split; simpl; rewrite ?Er; try done; auto.
    split; [done|lia].
Qed.

(** Whether another burst of the packet of [dp] is outstanding. *)
Definition has_sibling (dp : DRAMPacket) (l : list DRAMPacket) : Prop :=
  ∃ q, q ∈ l ∧ DRAMPacket.pkt q = DRAMPacket.pkt dp.

Definition response_latency (c : Config) : Tick := add64 (frontendLatency c) (backendLatency c).

Lemma respond_burst_ok now s dp l :
  helper_ok (helpers s) (dp :: l) →
  (has_sibling dp l → ∃ H, respond_burst now s dp = Ok (set_helpers H s) ∧ helper_ok H l) ∧
  (¬ has_sibling dp l → ∃ H, helper_ok H l ∧ ∀ s1,
     accessAndRespond now s (DRAMPacket.pkt dp) (response_latency (cfg s)) = Ok s1 →
     respond_burst now s dp = Ok (set_helpers H s1)).
Proof.
  intros Hok. apply helper_ok_pop in Hok. unfold respond_burst. fold (response_latency (cfg s)).
  destruct (DRAMPacket.burstHelper dp) as [h|].
  - destruct Hok as (b & -> & -> & Hok).
    destruct (Z.eqb_spec (burstsServiced b + 1) (burstCount b)) as [E|E];
      [rewrite decide_True in Hok by done|rewrite decide_False in Hok by done]; destruct Hok as [Hq Hok].
    + split; [intros (q & Hin & Eq); by destruct (Hq q Hin)|]. intros _.
      exists (delete h (helpers s)). split; [done|]. intros s1 E1.
      rewrite accessAndRespond_helpers. change (cfg (set_helpers _ s)) with (cfg s). rewrite E1.
      cbv [fmap res_fmap mbind res_mbind mret res_mret].
      match goal with |- context [<[h := ?x]> (helpers s)] =>
        change (Ok (set_helpers (delete h (<[h := x]> (helpers s))) s1)
          = Ok (set_helpers (delete h (helpers s)) s1)) end.
      by rewrite delete_insert_eq.
    + split; [|intros Hn; exfalso; by apply Hn]. intros _. eexists. split; [reflexivity|done].
  - destruct Hok as [Hq Hok]. split; [intros (q & Hin & Eq); by destruct (Hq q Hin)|]. intros _.
    exists (helpers s). split; [done|]. intros s1 E1. rewrite E1. f_equal.
    rewrite (accessAndRespond_frame _ _ _ _ _ E1). by destruct s1.
Qed.

(** ** Accepting reads *)

Lemma kick_ok now s :
  ∃ e, kick now s = Ok (set_nextReqEvent e s) ∧ scheduled e = true ∧
    (scheduled (nextReqEvent s) = true → e = nextReqEvent s).
Proof.
  unfold kick. destruct (nextReqEvent s) as [t|] eqn:E; simpl.
  - exists (Some t). rewrite <- E. split_and!; [by destruct s|by rewrite E|done].
  - rewrite schedule_ok by lia. by exists (Some now).
Qed.

(** A read of the bytes [a, a + size), not yet outstanding. *)
Record read_req (s : DRAMCtrl) (pkt : Z) (p : Packet.Packet) (a size : Z) : Prop := {
  rr_packet : packets s !! pkt = Some p;
  rr_alive : pkt ∉ pendingDelete s;
  rr_addr : Packet.getAddr p = Ok a;
  rr_size : Packet.getSize p = Ok size;
  rr_read : Packet.isRead p = true ∧ Packet.isWrite p = false;
  rr_plain : Packet.memInhibitAsserted p = false ∧ Packet.cmd p ≠ MemCmd.CleanEvict;
  rr_range : 0 ≤ a ∧ 0 < size ∧ a + size ≤ total_bytes (cfg s);
  rr_small : total_bytes (cfg s) + burstSize (cfg s) < 2 ^ 64 ∧ size + 2 * burstSize (cfg s) < 2 ^ 32;
  rr_new : ∀ q, q ∈ outstanding s → DRAMPacket.pkt q ≠ pkt;
}.

(** The bursts of the request, and their number. *)
Definition req_count (c : Config) (a size : Z) : nat := Z.to_nat (windows (burstSize c) a (a + size)).
Definition req_bursts (c : Config) (a size : Z) : list (Z * Z) :=
  pieces c (req_count c a size) a (a + size).

Lemma pieces_length c n a e : length (pieces c n a e) = n.
Proof. revert a. induction n as [|n IH]; intros a; simpl; [done|]. by rewrite IH. Qed.

Lemma missing_length s l : Z.of_nat (length (missing s l)) = Z.of_nat (length l) - hits s l.
Proof. unfold hits. lia. Qed.

Lemma missing_le s l : (length (missing s l) ≤ length l)%nat.
Proof. unfold missing. apply length_filter. Qed.

Lemma req_count_ok c a size :
  burst_pow2 c → 0 ≤ a → 0 < size → size + 2 * burstSize c < 2 ^ 32 →
  Z.of_nat (req_count c a size) = windows (burstSize c) a (a + size) ∧
  0 < Z.of_nat (req_count c a size) < 2 ^ 32.
Proof.
  intros Hp H1 H2 H5. pose proof (burst_pos c Hp) as HB. unfold req_count.
  assert (a / burstSize c ≤ (a + size - 1) / burstSize c) as Hle by (apply Z.div_le_mono; lia).
  assert ((a + size - 1) / burstSize c ≤ (a + size * burstSize c) / burstSize c)
    by (apply Z.div_le_mono; nia).
  rewrite Z.div_add in * by lia. unfold windows in *. lia.
Qed.

Section read.
Context (now : Tick) (s : DRAMCtrl) (pkt : Z) (p : Packet.Packet) (a size : Z).
Hypothesis Hg : geometry_ok s.
Hypothesis Hreq : read_req s pkt p a size.
Abbreviation c := (cfg s).
Abbreviation n := (req_count c a size).
Abbreviation bursts := (req_bursts c a size).

Lemma req_windows : Z.of_nat n = windows (burstSize c) a (a + size) ∧ 0 < Z.of_nat n < 2 ^ 32.
Proof.
  destruct (rr_range _ _ _ _ _ Hreq) as (H1 & H2 & H3). destruct (rr_small _ _ _ _ _ Hreq) as [H4 H5].
  by apply req_count_ok; [apply Hg|..].
Qed.

Lemma req_tiles : tiles (burstSize c) a (a + size) bursts ∧
  Forall (λ b, 0 ≤ b.1 < total_bytes c ∧ 0 < b.2 < 2 ^ 32) bursts.
Proof.
  destruct req_windows as [Hw _]. destruct Hreq. destruct rr_range0 as (H1 & H2 & H3).
  destruct rr_small0 as [H4 H5].
  destruct (pieces_tile c (a + size) (go_burst _ Hg) ltac:(lia) n a ltac:(lia) Hw) as [Ht Hf].
  split; [exact Ht|]. eapply Forall_impl; [exact Hf|]. simpl. lia.
Qed.

Lemma new_helpers_ok f new cnt :
  helper_ok (helpers s) (outstanding s) → new ≠ [] → Z.of_nat (length new) ≤ cnt < 2 ^ 32 →
  Forall (λ dp, DRAMPacket.burstHelper dp = next_helper s cnt None ∧ DRAMPacket.pkt dp = pkt) new →
  ∃ H, match helper_after s cnt None new with
       | Some h => set_serviced h (cnt - Z.of_nat (length new)) (with_reads s f (helpers_after s cnt None new) new)
       | None => Ok (with_reads s f (helpers_after s cnt None new) new)
       end = Ok (with_reads s f H new) ∧ helper_ok H (new ++ outstanding s).
Proof.
  intros Hok Hne Hcnt Hnew. pose proof (rr_new _ _ _ _ _ Hreq) as Hfresh.
  assert (∀ A (x y : A), match new with [] => x | _ => y end = y) as Hm by (by destruct new).
  unfold helper_after, helpers_after. rewrite !Hm. unfold next_helper, next_helpers in *.
  destruct (Z.ltb_spec 1 cnt) as [H1|H1].
  - set (h := fresh (dom (helpers s))) in *.
    assert (helpers s !! h = None) as Hh by (apply not_elem_of_dom, is_fresh).
    unfold set_serviced. simpl. rewrite lookup_insert_eq. simpl. rewrite insert_insert_eq.
    exists (<[h := mkHelper cnt (cnt - Z.of_nat (length new))]> (helpers s)).
    split; [done|]. by eapply helper_ok_split.
  - exists (helpers s). split; [done|]. destruct new as [|dp [|]]; [done| |simpl in Hcnt; lia].
    apply Forall_singleton in Hnew as [Hh Hp]. simpl. apply helper_ok_none; [done|done|].
    rewrite Hp. exact Hfresh.
Qed.

(** The bursts enter the read queue, with a helper if there are several. *)
Lemma addToReadQueue_ok :
  queued_reads s + Z.of_nat n ≤ readBufferSize c → helper_ok (helpers s) (outstanding s) →
  (missing s bursts = [] → ∃ f, addToReadQueue now s pkt (Z.of_nat n) =
     accessAndRespond now (set_stats f s) pkt (frontendLatency c)) ∧
  (missing s bursts ≠ [] → ∃ f new H e,
     addToReadQueue now s pkt (Z.of_nat n) = Ok (set_nextReqEvent e (with_reads s f H new)) ∧
     scheduled e = true ∧ helper_ok H (new ++ outstanding s) ∧
     Forall2 (λ b dp, decoded c now pkt b.1 b.2 true dp) (missing s bursts) new).
Proof.
  intros Hq Hok. destruct req_windows as [Hw [Hn0 Hn]]. destruct req_tiles as [_ Hf].
  assert (length bursts = n) as Hlen by apply pieces_length.
  pose proof (missing_le s bursts) as Hml. unfold addToReadQueue, get_packet.
  rewrite (rr_packet _ _ _ _ _ Hreq). cbv [mbind res_mbind mret res_mret].
  rewrite (proj2 (rr_read _ _ _ _ _ Hreq)), (proj2 (Z.eqb_neq _ _)) by lia. cbn [negb check].
  rewrite (rr_addr _ _ _ _ _ Hreq), (rr_size _ _ _ _ _ Hreq), Nat2Z.id.
  rewrite add64_small by (destruct (rr_range _ _ _ _ _ Hreq), (rr_small _ _ _ _ _ Hreq);
    pose proof (burst_pos c (go_burst _ Hg)); lia).
  destruct (read_bursts_ok now pkt (Z.of_nat n) (a + size) n s (mkReadLoop a 0 None))
    as (f & new & a' & -> & Hnew); [done|exact Hf| |done|simpl; lia|].
  { change (queued_reads s + Z.of_nat (length (missing s bursts)) ≤ readBufferSize c). lia. }
  cbn [pktsServicedByWrQ burst_helper rl_addr] in Hnew |- *. fold bursts in Hnew |- *. unfold hits. rewrite Hlen. split.
  - intros Hm. rewrite Hm in *. apply Forall2_nil_inv_l in Hnew as ->.
    rewrite (proj2 (Z.eqb_eq _ _)) by (simpl; lia). exists f. unfold with_reads. simpl. rewrite app_nil_r.
    by destruct s.
  - intros Hm. assert (0 < length (missing s bursts))%nat by (destruct (missing s bursts); [done|simpl; lia]).
    rewrite (proj2 (Z.eqb_neq _ _)) by lia. pose proof (Forall2_length _ _ _ Hnew) as Hln.
    assert (new ≠ []) as Hne by (intros ->; simpl in *; lia).
    destruct (new_helpers_ok f new (Z.of_nat n) Hok Hne) as (H1 & E & HH); [lia| |].
    { clear -Hnew. induction Hnew as [|b dp l new [Hd Hh] _ IH]; constructor; [|done].
      split; [done|by destruct Hd]. }
    rewrite Z.add_0_l, Hln, E. destruct (kick_ok now (with_reads s f H1 new)) as (e & -> & He & _).
    exists f, new, H1, e. split_and!; [done|done|done|].
    eapply Forall2_impl; [exact Hnew|]. by intros b dp [? _].
Qed.

End read.

(** The state in which a request is looked at differs in bookkeeping only. *)
Lemma arrive_frame now s :
  ∃ f, arrive now (clean s) = set_prevArrival now (set_stats f (clean s)).
Proof. unfold arrive. destruct (negb _); [by eexists|]. exists (stats s). by destruct s. Qed.

Lemma clean_lookup s pkt p :
  packets s !! pkt = Some p → pkt ∉ pendingDelete s → packets (clean s) !! pkt = Some p.
Proof.
  intros Hp. simpl. induction (pendingDelete s) as [|x l IH]; simpl; [done|].
  intros [? ?]%not_elem_of_cons. rewrite lookup_delete_ne by done. by apply IH.
Qed.

Lemma read_req_arrive now s pkt p a size :
  geometry_ok s → read_req s pkt p a size →
  geometry_ok (arrive now (clean s)) ∧ read_req (arrive now (clean s)) pkt p a size.
Proof.
  intros [] []. destruct (arrive_frame now s) as [f ->]. split; [by split|].
  split; try done; [by apply clean_lookup|set_solver].
Qed.

Lemma recvTimingReq_read now s pkt p a size :
  geometry_ok s → read_req s pkt p a size →
  let s0 := arrive now (clean s) in
  let n := Z.of_nat (req_count (cfg s) a size) in
  recvTimingReq now s pkt =
    if readBufferSize (cfg s) <? queued_reads s + n
    then Ok (inc numRdRetry 1 (set_retryRdReq true s0), false)
    else (λ s1, (inc bytesReadSys size (inc readReqs 1 s1), true)) <$> addToReadQueue now s0 pkt n.
Proof.
  intros Hg Hreq s0 n. destruct (read_req_arrive now s pkt p a size Hg Hreq) as [Hg0 Hreq0].
  destruct (req_windows s pkt p a size Hg Hreq) as [Hw Hn]. unfold recvTimingReq, get_packet.
  rewrite (clean_lookup s pkt p (rr_packet _ _ _ _ _ Hreq) (rr_alive _ _ _ _ _ Hreq)).
  cbv [mbind res_mbind mret res_mret]. destruct (rr_plain _ _ _ _ _ Hreq) as [-> Hce].
  rewrite bool_decide_false by done. cbn [orb]. fold s0.
  rewrite (rr_size _ _ _ _ _ Hreq), (rr_addr _ _ _ _ _ Hreq). destruct (arrive_frame now s) as [f Ef].
  assert (cfg s0 = cfg s ∧ queued_reads s0 = queued_reads s) as [Ec Eq] by (unfold s0; by rewrite Ef).
  rewrite Ec. destruct (rr_range _ _ _ _ _ Hreq) as (Ha & Hs & Ht). destruct (rr_small _ _ _ _ _ Hreq).
  rewrite (count_windows (cfg s) (a + size) (go_burst _ Hg)) by lia.
  rewrite (proj1 (rr_read _ _ _ _ _ Hreq)), (proj2 (Z.eqb_neq size 0)) by lia. cbn [negb check].
  rewrite <- Hw. fold n. unfold readQueueFull. fold (queued_reads s0). rewrite Ec, Eq.
  destruct (_ <? _); [done|]. by destruct (addToReadQueue now s0 pkt n).
Qed.

(** ** Row operations *)

Section rowop.
Import Request Packet RowOps AbstractMemory.

(** A response to [pkt] as the port expects it. *)
Record responded (pkt pkt' : Packet.Packet) : Prop := {
  rs_response : Packet.isResponse pkt' = true;
  rs_express : Packet.isExpressSnoop pkt' = false;
  rs_header : Packet.headerDelay pkt' = Packet.headerDelay pkt;
  rs_payload : Packet.payloadDelay pkt' = Packet.payloadDelay pkt;
}.

Lemma access_rowop_responded m pkt a h m' pkt' :
  rowop_req m pkt a h → AbstractMemory.access m pkt = Ok (m', pkt') → responded pkt pkt'.
Proof.
  intros [Hf Hi Hc Hr Hn Hp Hw Hm _]. unfold AbstractMemory.access.
  rewrite Hi, bool_decide_false, Hf by done. unfold access_rowop. rewrite Hp. cbv [mbind res_mbind].
  rewrite payload_roundtrip, Hm by done. unfold respond, makeResponse. rewrite Hn, Hr. cbn [check].
  destruct (response_table (Packet.cmd pkt)) as (?&?&_); [done|done|].
  assert (responded pkt (with_flags (with_cmd pkt (MemCmd.responseCommand (Packet.cmd pkt)))
    (Flags.clear 32 (Packet.flags (with_cmd pkt (MemCmd.responseCommand (Packet.cmd pkt)))) EXPRESS_SNOOP)))
    as Hres by (split; [done|apply isSet_clear|done|done]).
  destruct (op a); try (destruct (do_rowop _ _ _ _ _); [|done]); cbn [mret res_mret];
    intros E; injection E as _ <-; exact Hres.
Qed.

(** The response queue takes one more packet. *)
Record port_ready (now : Tick) (q : PacketQueue.PacketQueue) (when : Tick) : Prop := {
  po_now : 0 ≤ now ≤ when ∧ when < MaxTick;
  po_inv : pq_inv now q;
  po_ticks : ticks_ok q;
  po_size : PacketQueue.size q ≤ 100;
}.

Definition response_time (now lat : Tick) (p : Packet.Packet) : Tick :=
  now + lat + Packet.headerDelay p + Packet.payloadDelay p.

Lemma accessAndRespond_ok now s pkt lat p m' p' :
  packets s !! pkt = Some p → Packet.needsResponse p = true →
  AbstractMemory.access (mem s) p = Ok (m', p') → responded p p' →
  0 ≤ lat → 0 ≤ Packet.headerDelay p → 0 ≤ Packet.payloadDelay p →
  port_ready now (port s) (response_time now lat p) →
  ∃ q', accessAndRespond now s pkt lat
      = Ok (set_port q' (put_packet pkt (with_delays p' 0 0) (set_mem m' s))) ∧ pq_inv now q' ∧
    PacketQueue.transmitList q' = PacketQueue.emplace_sorted
      (PacketQueue.mkDeferred (response_time now lat p) pkt) (PacketQueue.transmitList (port s)).
Proof.
  intros Hp Hn Ha [Hr He Hh Hpl] Hlat H1 H2 [[Hnow Hmax] Hinv Ht Hsz]. unfold accessAndRespond, get_packet.
  rewrite Hp. cbv [mbind res_mbind mret res_mret]. rewrite Ha, Hn, Hr. cbn [check]. rewrite Hh, Hpl.
  unfold response_time, MaxTick in *.
  rewrite (add64_small now), (add64_small (now + lat)), (add64_small (now + lat + _)) by lia.
  destruct (schedSendTiming_ok now (port s) pkt (with_delays p' 0 0)
    (now + lat + Packet.headerDelay p + Packet.payloadDelay p) false) as (q' & E & Hi & Hl);
    [unfold MaxTick; lia|unfold MaxTick; lia|done|exact He|done|done|].
  exists q'. unfold PacketQueue.schedTimingResp.
  change (port (put_packet _ _ (put_packet _ _ _))) with (port s). rewrite E. split; [|split; [done|]].
  - unfold put_packet. simpl. by rewrite insert_insert_eq.
  - rewrite Hl. unfold eff_when. by destruct (last _).
Qed.

(** The DRAM packet of a row operation. *)
Record rowop_packet (c : Config) (pkt : Z) (a : RowOpPayload) (dp : DRAMPacket) : Prop := {
  rp_is : DRAMPacket.is_row_op dp = true ∧ DRAMPacket.row_op dp = Some (op a) ∧ DRAMPacket.isRead dp = false;
  rp_pkt : DRAMPacket.pkt dp = pkt ∧ DRAMPacket.addr dp = dest a ∧ packet_ok c dp;
  rp_bank : coords dp = (l_rank (locate c (dest a)), l_bank (locate c (dest a)));
  rp_rows : DRAMPacket.row dp = l_row (locate c (dest a)) ∧
    DRAMPacket.src1_row dp = l_row (locate c (src1 a)) ∧ DRAMPacket.src2_row dp = l_row (locate c (src2 a));
  rp_size : DRAMPacket.size dp = 0 ∧ DRAMPacket.row dp ≠ NO_ROW;
}.

Lemma enqueue_rowop_ok now s pkt p a :
  geometry_ok s → Packet.getPtr p = Ok (payload_bytes a) → payload_wf a →
  0 ≤ dest a < total_bytes (cfg s) → 0 ≤ src1 a < total_bytes (cfg s) → 0 ≤ src2 a < total_bytes (cfg s) →
  ∃ dp, enqueue_rowop now s pkt p
      = Ok (set_pendingRowOps (pendingRowOps s + 1) (set_writeQueue (writeQueue s ++ [dp]) s)) ∧
    rowop_packet (cfg s) pkt a dp.
Proof.
  intros Hg Hp Hw Hd H1 H2. unfold enqueue_rowop. rewrite Hp. cbv [mbind res_mbind].
  rewrite payload_roundtrip by done.
  destruct (decodeAddr_ok now s pkt (dest a) 0 false Hg Hd) as (dp & -> & D & _).
  destruct (decodeAddr_ok now s pkt (src1 a) 0 false Hg H1) as (dp1 & -> & D1 & _).
  destruct (decodeAddr_ok now s pkt (src2 a) 0 false Hg H2) as (dp2 & -> & D2 & _).
  eexists. split; [reflexivity|]. destruct D, D1, D2. destruct_and!.
  split; simpl; done.
Qed.

(** A row-operation write that reaches a controller with room for it. *)
Record rowop_write (now : Tick) (s : DRAMCtrl) (pkt : Z) (p : Packet.Packet) (a : RowOpPayload)
    (m : hostmem) (ad size : Z) : Prop := {
  rw_packet : packets s !! pkt = Some p;
  rw_alive : pkt ∉ pendingDelete s;
  rw_addr : Packet.getAddr p = Ok ad;
  rw_size : Packet.getSize p = Ok size;
  rw_write : Packet.isRead p = false ∧ Packet.isWrite p = true;
  rw_req : rowop_req (mem s) p a m;
  rw_range : 0 ≤ ad ∧ 0 < size ∧ ad + size + burstSize (cfg s) < 2 ^ 64 ∧
    size + 2 * burstSize (cfg s) < 2 ^ 32;
  rw_operands : 0 ≤ dest a < total_bytes (cfg s) ∧ 0 ≤ src1 a < total_bytes (cfg s) ∧
    0 ≤ src2 a < total_bytes (cfg s);
  rw_room : Z.of_nat (length (writeQueue s)) + windows (burstSize (cfg s)) ad (ad + size)
    ≤ writeBufferSize (cfg s);
  rw_delays : 0 ≤ frontendLatency (cfg s) ∧ 0 ≤ Packet.headerDelay p ∧ 0 ≤ Packet.payloadDelay p;
  rw_port : port_ready now (port s) (response_time now (frontendLatency (cfg s)) p);
}.

Lemma recvTimingReq_rowop now s pkt p a m ad size :
  geometry_ok s → rowop_write now s pkt p a m ad size →
  recvTimingReq now s pkt =
    (λ s1, (inc bytesWrittenSys size (inc writeReqs 1 s1), true)) <$>
      addToWriteQueue now (arrive now (clean s)) pkt (windows (burstSize (cfg s)) ad (ad + size)).
Proof.
  intros Hg [Hp Hal Had Hsz [Hrd Hwr] Hreq (Ha & Hs & H64 & H32) _ Hroom _ _].
  unfold recvTimingReq, get_packet. rewrite (clean_lookup s pkt p Hp Hal).
  cbv [mbind res_mbind mret res_mret]. rewrite (rq_inhibit _ _ _ _ Hreq), bool_decide_false by apply Hreq.
  cbn [orb]. rewrite Hsz, Had. destruct (arrive_frame now s) as [f Ef].
  assert (cfg (arrive now (clean s)) = cfg s ∧ writeQueue (arrive now (clean s)) = writeQueue s) as [Ec Eq]
    by (by rewrite Ef).
  rewrite Ec, (count_windows (cfg s) (ad + size) (go_burst _ Hg)) by lia.
  rewrite Hrd, Hwr, (proj2 (Z.eqb_neq size 0)) by lia. cbn [negb check].
  unfold writeQueueFull. rewrite Ec, Eq, (proj2 (Z.ltb_ge _ _)) by done.
  by destruct (addToWriteQueue _ _ _ _).
Qed.

Lemma addToWriteQueue_rowop now s pkt p a m ad size m' p' cnt :
  geometry_ok s → rowop_write now s pkt p a m ad size →
  AbstractMemory.access (mem s) p = Ok (m', p') →
  ∃ dp q' e,
    addToWriteQueue now s pkt cnt =
      Ok (set_nextReqEvent e (set_port q' (put_packet pkt (with_delays p' 0 0)
           (set_mem m' (set_pendingRowOps (pendingRowOps s + 1) (set_writeQueue (writeQueue s ++ [dp]) s)))))) ∧
    rowop_packet (cfg s) pkt a dp ∧ scheduled e = true ∧ pq_inv now q' ∧
    PacketQueue.transmitList q' = PacketQueue.emplace_sorted
      (PacketQueue.mkDeferred (response_time now (frontendLatency (cfg s)) p) pkt)
      (PacketQueue.transmitList (port s)).
Proof.
  intros Hg [Hp _ _ _ [Hrd Hwr] Hreq _ (Hd & H1 & H2) _ (Hl & Hh & Hpl) Hport] Hacc.
  pose proof (access_rowop_responded _ _ _ _ _ _ Hreq Hacc) as Hres.
  unfold addToWriteQueue, get_packet. rewrite Hp. cbv [mbind res_mbind mret res_mret].
  rewrite Hwr, (rq_flag _ _ _ _ Hreq). cbn [check].
  destruct (enqueue_rowop_ok now s pkt p a Hg (rq_ptr _ _ _ _ Hreq) (rq_payload _ _ _ _ Hreq) Hd H1 H2)
    as (dp & -> & Hdp).
  set (s1 := set_pendingRowOps _ _).
  destruct (accessAndRespond_ok now s1 pkt (frontendLatency (cfg s)) p m' p') as (q' & E & Hi & Ht);
    [done|apply Hreq|done|done|done|done|done|done|].
  change (cfg s1) with (cfg s). rewrite E.
  match goal with |- context [kick now ?s2] => destruct (kick_ok now s2) as (e & -> & He & _) end.
  by exists dp, q', e.
Qed.

Lemma rowop_write_arrive now s pkt p a m ad size :
  geometry_ok s → rowop_write now s pkt p a m ad size →
  geometry_ok (arrive now (clean s)) ∧ rowop_write now (arrive now (clean s)) pkt p a m ad size.
Proof.
  intros [] []. destruct (arrive_frame now s) as [f ->]. split; [by split|].
  split; try done; [by apply clean_lookup|set_solver].
Qed.

End rowop.

(** C9: A timing read is split into bursts that tile its bytes exactly, each
    within one DRAM burst.  If the buffer has no room for them, the read is
    refused and a retry is remembered.  Otherwise the bursts that the write queue
    does not cover become DRAM packets, in order, at the end of the read queue,
    the queue stays within its bound, a request event is scheduled, and the burst
    helpers account for every outstanding burst; if the write queue covers all of
    them, the packet is answered at once. *)
Theorem recvTimingReq_read_correct (now : Tick) (s : DRAMCtrl) (pkt : Z) (p : Packet.Packet) (a size : Z) :
  geometry_ok s → helper_ok (helpers s) (outstanding s) → read_req s pkt p a size →
  let c := cfg s in
  let bursts := req_bursts c a size in
  let n := Z.of_nat (length bursts) in
  tiles (burstSize c) a (a + size) bursts ∧
  (readBufferSize c < queued_reads s + n →
     ∃ s', recvTimingReq now s pkt = Ok (s', false) ∧ retryRdReq s' = true ∧
       outstanding s' = outstanding s ∧ helpers s' = helpers s) ∧
  (queued_reads s + n ≤ readBufferSize c → missing s bursts ≠ [] →
     ∃ s' new, recvTimingReq now s pkt = Ok (s', true) ∧
       readQueue s' = readQueue s ++ new ∧ respQueue s' = respQueue s ∧
       Forall2 (λ b dp, decoded c now pkt b.1 b.2 true dp) (missing s bursts) new ∧
       queued_reads s' ≤ readBufferSize c ∧ helper_ok (helpers s') (outstanding s') ∧
       scheduled (nextReqEvent s') = true ∧ mem s' = mem s ∧ port s' = port s) ∧
  (queued_reads s + n ≤ readBufferSize c → missing s bursts = [] →
     ∃ f, recvTimingReq now s pkt =
       (λ s1, (inc bytesReadSys size (inc readReqs 1 s1), true)) <$>
         accessAndRespond now (set_stats f (arrive now (clean s))) pkt (frontendLatency c)).
Proof.
  intros Hg Hh Hreq c bursts n. destruct (req_tiles s pkt p a size Hg Hreq) as [Ht _].
  assert (n = Z.of_nat (req_count c a size)) as En by (unfold n, bursts, req_bursts; by rewrite pieces_length).
  destruct (read_req_arrive now s pkt p a size Hg Hreq) as [Hg0 Hreq0].
  pose proof (recvTimingReq_read now s pkt p a size Hg Hreq) as E. fold c in E. rewrite <- En in E.
  destruct (arrive_frame now s) as [f Ef]. rewrite Ef in E, Hg0, Hreq0 |- *. set (s0 := set_prevArrival _ _) in *.
  pose proof (addToReadQueue_ok now s0 pkt p a size Hg0 Hreq0) as Hadd.
  change (cfg s0) with c in Hadd. change (queued_reads s0) with (queued_reads s) in Hadd.
  rewrite <- En in Hadd. fold bursts in Hadd. change (missing s0 bursts) with (missing s bursts) in Hadd.
  split_and!; [done| | |].
  - intros Hfull. rewrite E, (proj2 (Z.ltb_lt _ _)) by done. by eexists.
  - intros Hroom Hm. rewrite E, (proj2 (Z.ltb_ge _ _)) by done.
    destruct (proj2 (Hadd Hroom Hh) Hm) as (f' & new & H & e & -> & He & Hok & Hnew).
    pose proof (Forall2_length _ _ _ Hnew). pose proof (missing_le s bursts). simpl.
    eexists _, new. split_and!; [done|done|done|done| | |done|done|done].
    + unfold queued_reads. simpl. rewrite length_app. unfold queued_reads in Hroom. lia.
    + simpl. unfold outstanding. simpl. eapply helper_ok_perm; [|exact Hok].
      unfold outstanding. simpl. rewrite (Permutation_app_comm (readQueue s) new). by rewrite app_assoc.
  - intros Hroom Hm. rewrite E, (proj2 (Z.ltb_ge _ _)) by done.
    destruct (proj1 (Hadd Hroom Hh) Hm) as (f' & ->). by exists f'.
Qed.

(** C10: A read packet is answered exactly once, with the last of its bursts.
    When the head of the response queue has a sibling burst that is still
    outstanding, only the helper's count changes; otherwise the memory access and
    the response happen now, at the static latency.  In both cases the response
    event is armed for the next burst, a refused reader is told to retry, and the
    helpers still account for every outstanding burst. *)
Theorem answered_with_last_burst (now : Tick) (s : DRAMCtrl) (dp : DRAMPacket) (rest : list DRAMPacket) :
  respQueue s = dp :: rest → helper_ok (helpers s) (outstanding s) → respondEvent s = None →
  (∀ q, head rest = Some q → now ≤ DRAMPacket.readyTime q) →
  let others := readQueue s ++ rest in
  let done_ s1 s' :=
    answers s' = answers s1 ∧ readQueue s' = readQueue s ∧ respQueue s' = rest ∧
    helper_ok (helpers s') (outstanding s') ∧ respondEvent s' = DRAMPacket.readyTime <$> head rest ∧
    retryRdReq s' = false ∧ retriesSent s' = retriesSent s + (if retryRdReq s then 1 else 0) in
  (has_sibling dp others → ∃ s', processRespondEvent now s = Ok s' ∧ done_ s s') ∧
  (¬ has_sibling dp others → ∀ s1,
     accessAndRespond now s (DRAMPacket.pkt dp) (response_latency (cfg s)) = Ok s1 →
     ∃ s', processRespondEvent now s = Ok s' ∧ done_ s1 s').
Proof.
  intros Hq Hok He Hr others done_. unfold processRespondEvent. rewrite Hq.
  assert (helper_ok (helpers s) (dp :: others)) as Hok'.
  { eapply helper_ok_perm; [|exact Hok]. unfold outstanding, others. rewrite Hq.
    by rewrite <- Permutation_middle. }
  destruct (respond_burst_ok now s dp others Hok') as [Hsib Hlast]. cbv [mbind res_mbind].
  assert (∀ s1 H, respondEvent s1 = None → readQueue s1 = readQueue s → retryRdReq s1 = retryRdReq s →
    retriesSent s1 = retriesSent s → helper_ok H others →
    ∃ s', finish_response now rest (set_helpers H s1) = Ok s' ∧ done_ s1 s') as Hfin.
  { intros s1 H E1 E2 E3 E4 HH.
    destruct (finish_response_ok now rest (set_helpers H s1) E1 Hr) as (s' & -> & [F1 F2 F3 [F4 F5] _]).
    exists s'. split; [done|]. unfold done_. injection F2 as Fa Fb Fc Fd Fh Fi _ _ _.
    unfold outstanding, answers. rewrite Fh, F1, Fi, Fa, Fb, Fc, Fd. simpl. rewrite E2.
    simpl in F5. rewrite E3, E4 in F5. by split_and!. }
  split.
  - intros Hs. destruct (Hsib Hs) as (H & -> & HH). by apply Hfin.
  - intros Hs s1 E1. destruct (Hlast Hs) as (H & HH & Hrb). rewrite (Hrb s1 E1).
    pose proof (accessAndRespond_frame _ _ _ _ _ E1) as Ef. apply Hfin; [by rewrite Ef..|done].
Qed.

(** C8: A bulk row operation sent to the controller is accepted and takes effect
    on the spot: the destination row holds the word-wise function of the source
    rows and nothing else of the memory changes, the response is queued at the
    static latency in order of time, and one DRAM packet for the bank of the
    destination, with the rows of all three operands, enters the write queue and
    is counted as a pending row operation. *)
Theorem rowop_request_executes (now : Tick) (s : DRAMCtrl) (pkt : Z) (p : Packet.Packet)
    (a : Request.RowOpPayload) (m : hostmem) (ad size : Z) (f : Z → Z → Z) :
  geometry_ok s → rowop_write now s pkt p a m ad size → rowop_word (Request.op a) = Some f →
  row_exists (mem s) m (Request.dest a) → row_exists (mem s) m (Request.src1 a) →
  fwd_safe (Request.dest a) (Request.src1 a) RowOps.row_words →
  (rowop_binary (Request.op a) = true →
     row_exists (mem s) m (Request.src2 a) ∧ fwd_safe (Request.dest a) (Request.src2 a) RowOps.row_words) →
  let off := row_off (mem s) in
  ∃ s' m' dp, recvTimingReq now s pkt = Ok (s', true) ∧
    AbstractMemory.pmem (mem s') = Some m' ∧
    row_post m m' (off (Request.dest a)) 1024
      (λ i, f (word m (off (Request.src1 a) + 8 * i)) (word m (off (Request.src2 a) + 8 * i))) ∧
    writeQueue s' = writeQueue s ++ [dp] ∧ rowop_packet (cfg s) pkt a dp ∧
    pendingRowOps s' = pendingRowOps s + 1 ∧ scheduled (nextReqEvent s') = true ∧
    pq_inv now (port s') ∧
    PacketQueue.transmitList (port s') = PacketQueue.emplace_sorted
      (PacketQueue.mkDeferred (response_time now (frontendLatency (cfg s)) p) pkt)
      (PacketQueue.transmitList (port s)).
Proof.
  intros Hg Hw Hf Md M1 S1 H2 off. pose proof (rw_req _ _ _ _ _ _ _ _ Hw) as Hreq.
  destruct (do_rowop_word (Request.op a) f m (off (Request.dest a)) (off (Request.src1 a))
    (off (Request.src2 a))) as (m' & Hdo & Hpost);
    [done|apply Hreq|done|done|unfold fwd_safe, off, row_off in *; lia| |].
  { intros Hb. destruct (H2 Hb). split; [done|]. unfold fwd_safe, off, row_off in *; lia. }
  destruct (access_rowop_do (mem s) p a m m') as (p' & Hacc & _); [done|by intros E; rewrite E in Hf|done|].
  rewrite (recvTimingReq_rowop now s pkt p a m ad size Hg Hw).
  destruct (rowop_write_arrive now s pkt p a m ad size Hg Hw) as [Hg0 Hw0].
  destruct (arrive_frame now s) as [f0 Ef]. rewrite Ef in Hg0, Hw0 |- *.
  destruct (addToWriteQueue_rowop now _ pkt p a m ad size (AbstractMemory.with_pmem (mem s) (Some m')) p'
    (windows (burstSize (cfg s)) ad (ad + size)) Hg0 Hw0 Hacc) as (dp & q' & e & -> & Hdp & He & Hq & Hl).
  eexists _, m', dp. split; [reflexivity|]. by split_and!.
Qed.

(** ** Witnesses: a DDR4 channel *)

(** A read of 200 bytes at [0x12345], which touches four bursts. *)
Definition ex_pkt : Packet.Packet := Packet.new_Packet (Request.Request_phys 0 0x12345 200 0 0) MemCmd.ReadReq.
Definition ex_reader : DRAMCtrl := set_packets {[ 7 := ex_pkt ]} ex_ctrl.

Lemma ex_geometry s :
  cfg s = DDR4_config → ranks s = ranks ex_ctrl → geometry_ok s.
Proof.
  intros Ec Er. split; rewrite ?Ec, ?Er;
    [exact (DDR4_wf (addrMapping DDR4_config))|exists 6; split; [lia|vm_compute; reflexivity]|
     apply ranks_ok_check; vm_compute; reflexivity|reflexivity|by vm_compute].
Qed.

Lemma helper_ok_empty : helper_ok ∅ [].
Proof. split; [|by intros dp h ?%elem_of_nil|done]. intros h b. by rewrite lookup_empty. Qed.

Lemma ex_read_req : read_req ex_reader 7 ex_pkt 0x12345 200.
Proof.
  split; [reflexivity|apply not_elem_of_nil|reflexivity|reflexivity|done|done|split_and!; by vm_compute|
    split_and!; by vm_compute|by intros q ?%elem_of_nil].
Qed.

Lemma recvTimingReq_read_correct_witness :
  ∃ s' new, recvTimingReq 1000 ex_reader 7 = Ok (s', true) ∧ readQueue s' = new ∧
    map DRAMPacket.addr new = [0x12345; 0x12380; 0x123c0; 0x12400].
Proof.
  destruct (recvTimingReq_read_correct 1000 ex_reader 7 ex_pkt 0x12345 200) as (_ & _ & H & _);
    [by apply ex_geometry|apply helper_ok_empty|apply ex_read_req|].
  destruct H as (s' & new & E & Hr & _ & Hnew & _); [by vm_compute|by vm_compute|].
  exists s', new. split; [exact E|]. split; [exact Hr|].
  change (missing ex_reader _) with [(0x12345, 59); (0x12380, 64); (0x123c0, 64); (0x12400, 13)] in Hnew.
  repeat match goal with
  | H : Forall2 _ (_ :: _) _ |- _ => apply Forall2_cons_inv_l in H as (? & ? & [] & ? & ->)
  | H : Forall2 _ [] _ |- _ => apply Forall2_nil_inv_l in H as ->
  end. clear E Hr. cbn [map fst snd] in *. congruence.
Defined.

(** Two bursts of one packet, the first of which is at the head. *)
Definition ex_burst : DRAMPacket :=
  DRAMPacket.mkDRAMPacket 0 2000 7 true 0 3 7 0 0 false None 3 0x12380 64 (Some 1).
Definition ex_responder : DRAMCtrl :=
  set_respQueue [ex_burst; ex_burst] (set_helpers {[ 1 := mkHelper 2 0 ]} ex_reader).

Lemma ex_helper_ok : helper_ok {[ 1 := mkHelper 2 0 ]} [ex_burst; ex_burst].
Proof.
  split.
  - intros h b [<- <-]%lookup_singleton_Some. by vm_compute.
  - intros dp h Hdp Hh. assert (h = 1) as ->; [|by rewrite lookup_singleton_eq]. unfold has_helper in Hh.
    repeat apply elem_of_cons in Hdp as [->|Hdp]; [by injection Hh..|by apply elem_of_nil in Hdp].
  - split; [|by split]. constructor; [|done]. split; [by exists 1|done].
Qed.

Lemma answered_with_last_burst_witness :
  ∃ s', processRespondEvent 2000 ex_responder = Ok s' ∧ respQueue s' = [ex_burst] ∧
    respondEvent s' = Some 2000 ∧ packets s' = packets ex_responder.
Proof.
  destruct (answered_with_last_burst 2000 ex_responder ex_burst [ex_burst]) as [H _];
    [reflexivity|exact ex_helper_ok|reflexivity|by intros q [= <-]|].
  destruct H as (s' & E & Ha & _ & Hq & _ & He & _); [exists ex_burst; split; [by left|done]|].
  exists s'. split; [exact E|]. split; [exact Hq|]. split; [exact He|]. exact (f_equal (λ x, x.1.1.2) Ha).
Defined.

(** The XOR of two rows, as in the memory's examples. *)
Definition ex_rowop_ctrl (m : hostmem) : DRAMCtrl :=
  set_packets {[ 9 := ex_rowop Request.ROWXOR 0x10000 0x12000 0x14000 ]} (set_mem (ex_mem m) ex_ctrl).

Lemma ex_rowop_write m :
  bytes_ok m →
  rowop_write 1000 (ex_rowop_ctrl m) 9 (ex_rowop Request.ROWXOR 0x10000 0x12000 0x14000)
    (Request.mkPayload Request.ROWXOR 0x10000 0x12000 0x14000) m 0x10000 Request.ROW_SIZE.
Proof.
  intros Hm. split; [reflexivity|apply not_elem_of_nil|reflexivity|reflexivity|done| |
    split_and!; by vm_compute|split_and!; by vm_compute|by vm_compute|split_and!; by vm_compute|].
  - apply ex_rowop_req; [unfold payload_wf; simpl; lia|done].
  - split; [by vm_compute|apply pq_inv_new|by intros x ?%elem_of_nil|by vm_compute].
Qed.

Lemma rowop_request_executes_witness :
  ∃ s' m', recvTimingReq 1000 (ex_rowop_ctrl (uniform 0x6000 0x5a)) 9 = Ok (s', true) ∧
    AbstractMemory.pmem (mem s') = Some m' ∧ word m' 8184 = 0 ∧ pendingRowOps s' = 1.
Proof.
  destruct (rowop_request_executes 1000 (ex_rowop_ctrl (uniform 0x6000 0x5a)) 9
    (ex_rowop Request.ROWXOR 0x10000 0x12000 0x14000)
    (Request.mkPayload Request.ROWXOR 0x10000 0x12000 0x14000) (uniform 0x6000 0x5a) 0x10000 Request.ROW_SIZE
    Z.lxor) as (s' & m' & dp & E & Em & [_ Hw] & _ & _ & Hp & _);
    [by apply ex_geometry|apply ex_rowop_write, uniform_bytes_ok; lia|reflexivity|ex_row|ex_row
    |unfold fwd_safe; simpl; lia|intros _; split; [ex_row|unfold fwd_safe; simpl; lia]|].
  exists s', m'. split; [exact E|]. split; [exact Em|]. split; [|exact Hp].
  change (word m' (row_off (ex_mem (uniform 0x6000 0x5a)) 0x10000 + 8 * 1023) = 0).
  rewrite Hw by lia. change (row_off (mem (ex_rowop_ctrl (uniform 0x6000 0x5a)))) with
    (row_off (ex_mem (uniform 0x6000 0x5a))).
  by rewrite !uniform_word by (unfold row_off; simpl; lia).
Defined.
