(* ===== verification/DRAMRefresh.v ===== *)
(** * DRAM controller: refresh and power states (mem/dram_ctrl.cc, [Rank])

    A rank has a refresh state machine (idle, draining, precharging, running)
    and a power state machine (idle, active, refresh), which drive each other
    through events.  The handlers are functions on the rank; what they read of
    the controller are arguments. *)

From stdpp Require Import base numbers list sorting.
From S2P Require Import Prelude IntMath Packets Events DRAMConfig DRAMState DRAMBank DRAMAccess.
Local Open Scope Z_scope.

(** [Rank::startup(ref_tick)] *)
Definition startup (now ref_tick : Tick) (r : Rank) : res Rank :=
  assert_ (now <? ref_tick);;
  let r := set_pwrStateTick now r in
  e ← schedule now (refreshEvent r) ref_tick;
  mret (set_refreshEvent e r).

(** [Rank::suspend()] *)
Definition suspend (r : Rank) : res Rank :=
  e ← deschedule (refreshEvent r);
  mret (set_refreshEvent e r).

(** [Rank::checkDrainDone()] *)
Definition checkDrainDone (now : Tick) (r : Rank) : res Rank :=
  if bool_decide (refreshState r = REF_DRAIN) then
    let r := set_refreshState REF_PRE r in
    e ← schedule now (refreshEvent r) now;
    mret (set_refreshEvent e r)
  else mret r.

(** [Rank::schedulePowerEvent(pwr_state, tick)] *)
Definition schedulePowerEvent (now : Tick) (st : PowerState) (tick : Tick) (r : Rank) : res Rank :=
  assert_ (now <=? tick);;
  if scheduled (powerEvent r) then Err Panic
  else
    let r := set_pwrStateTrans st r in
    e ← schedule now (powerEvent r) tick;
    mret (set_powerEvent e r).

(** [Rank::processActivateEvent()] and [Rank::processPrechargeEvent()]; an event has
    been descheduled when its handler runs. *)
Definition processActivateEvent (now : Tick) (r : Rank) : res Rank :=
  if negb (bool_decide (pwrState r = PWR_ACT)) then schedulePowerEvent now PWR_ACT now r else mret r.

Definition processPrechargeEvent (now : Tick) (r : Rank) : res Rank :=
  if numBanksActive r =? 0 then schedulePowerEvent now PWR_IDLE now r else mret r.

(** ** Refresh *)

(** "first determine when we can precharge" *)
Definition all_pre_at (now : Tick) (l : list Bank) : Tick :=
  foldl (λ pre_at b, Z.max (preAllowedAt b) pre_at) now l.

(** "make sure all banks per rank are precharged, and for those that already are,
    update their availability" *)
Definition precharge_for_refresh (c : Config) (ts : Z) (now pre_at : Tick) (r : Rank) (b : Z) : res Rank :=
  bk ← get_bank r b;
  if negb (openRow bk =? NO_ROW) then prechargeBank c ts now b pre_at false r
  else
    mret (on_bank b (λ k,
      set_preAllowedAt (Z.max (preAllowedAt k) pre_at)
        (set_actAllowedAt (Z.max (actAllowedAt k) (add64 pre_at (tRP (tm c)))) k)) r).

(** The branch [refreshState == REF_PRE]. *)
Definition refresh_precharge (c : Config) (ts : Z) (now : Tick) (r : Rank) : res Rank :=
  r ← (if negb (bool_decide (pwrState r = PWR_IDLE)) then
         let pre_at := all_pre_at now (banks r) in
         r ← foldM (precharge_for_refresh c ts now pre_at) r (seqZ 0 (Z.of_nat (length (banks r))));
         doCommand c ts PREA 0 pre_at r
       else schedulePowerEvent now PWR_REF now r);
  let r := set_refreshState REF_RUN r in
  assert_ (numBanksActive r =? 0);;
  mret r.

(** [sortTime(m1, m2)] *)
Definition sortTime (m1 m2 : MemCommand) : bool := mc_time m1 <? mc_time m2.

(** [sort(cmdList.begin(), cmdList.end(), sortTime)]; commands of equal time are
    kept in order, which [std::sort] does not promise. *)
Definition not_after (a b : MemCommand) : Prop := sortTime b a = false.

#[global] Instance not_after_dec : RelDecision not_after.
Proof. unfold not_after. intros a b. apply _. Defined.

(** [powerlib.updateCounters(false)] takes the commands over. *)
Definition report_commands (r : Rank) : Rank :=
  set_cmdList [] (set_reported (reported r ++ [merge_sort not_after (cmdList r)]) r).

(** The branch [refreshState == REF_RUN]. *)
Definition refresh_run (c : Config) (ts : Z) (now : Tick) (r : Rank) : res Rank :=
  assert_ (numBanksActive r =? 0);;
  assert_ (bool_decide (pwrState r = PWR_REF));;
  let ref_done_at := add64 now (tRFC (tm c)) in
  let r := on_banks (set_actAllowedAt ref_done_at) r in
  r ← doCommand c ts REF 0 now r;
  let r := report_commands r in
  fatal_if (add64 (refreshDueAt r) (tREFI (tm c)) <? ref_done_at);;
  e ← schedule now (refreshEvent r) (sub64 (add64 (refreshDueAt r) (tREFI (tm c))) (tRP (tm c)));
  let r := set_refreshEvent e r in
  assert_ (negb (scheduled (powerEvent r)));;
  schedulePowerEvent now PWR_IDLE ref_done_at r.

(** [Rank::processRefreshEvent()]; [busy] is whether a request to this rank is being
    handled: [rank == memory.activeRank && memory.nextReqEvent.scheduled()]. *)
Definition processRefreshEvent (c : Config) (ts : Z) (now : Tick) (busy : bool) (r : Rank) : res Rank :=
  let r :=
    if bool_decide (refreshState r = REF_IDLE)
    then set_refreshState REF_DRAIN (set_refreshDueAt now r) else r in
  if bool_decide (refreshState r = REF_DRAIN) && busy then mret r
  else
    let r := if bool_decide (refreshState r = REF_DRAIN) then set_refreshState REF_PRE r else r in
    if bool_decide (refreshState r = REF_PRE) then refresh_precharge c ts now r
    else if bool_decide (refreshState r = REF_RUN) then refresh_run c ts now r
    else mret r.

(** [Rank::processPowerEvent()]: the rank and the controller's [nextReqEvent]. *)
Definition processPowerEvent (c : Config) (ts : Z) (now : Tick) (busy : bool) (nextReq : Event) (r : Rank) :
    res (Rank * Event) :=
  let duration := sub64 now (pwrStateTick r) in
  let prev_state := pwrState r in
  let r := set_pwrStateTime
    (λ st, pwrStateTime r st + if decide (st = prev_state) then duration else 0) r in
  let r := set_pwrState (pwrStateTrans r) r in
  let r := set_pwrStateTick now r in
  '(r, nextReq) ←
    (if bool_decide (pwrState r = PWR_IDLE) then
       if bool_decide (prev_state = PWR_REF) then
         let r := set_refreshState REF_IDLE r in
         e ← (if negb (scheduled nextReq) then schedule now nextReq now else mret nextReq);
         mret (r, e)
       else
         assert_ (bool_decide (prev_state = PWR_ACT));;
         if bool_decide (refreshState r = REF_RUN) then
           assert_ (negb (scheduled (powerEvent r)));;
           mret (set_pwrState PWR_REF r, nextReq)
         else mret (r, nextReq)
     else mret (r, nextReq));
  if bool_decide (pwrState r = PWR_REF) then
    assert_ (bool_decide (refreshState r = REF_RUN));;
    r ← processRefreshEvent c ts now busy r;
    mret (r, nextReq)
  else mret (r, nextReq).

(** ** Precharging all banks *)

Lemma all_pre_at_spec now l :
  now ≤ all_pre_at now l ∧ (∀ k, k ∈ l → preAllowedAt k ≤ all_pre_at now l) ∧
  (∀ c n, fits c n now → (∀ k, k ∈ l → fits c n (preAllowedAt k)) → fits c n (all_pre_at now l)).
Proof.
  unfold all_pre_at. revert now. induction l as [|k l IH]; intros now; simpl.
  { split_and!; [lia|by intros k ?%elem_of_nil|done]. }
  destruct (IH (Z.max (preAllowedAt k) now)) as (H1 & H2 & H3). split_and!; [lia| |].
  - intros k' [->|Hk]%elem_of_cons; [lia|by apply H2].
  - intros c n Hn Hl. apply H3; [apply fits_max; [apply Hl; by left|done]|].
    intros k' Hk'. apply Hl. by right.
Qed.

Lemma open_count_zero l : (∀ k, k ∈ l → openRow k = NO_ROW) → open_count l = 0.
Proof.
  induction l as [|k l IH]; intros H; simpl; [done|].
  rewrite IH by (intros; apply H; by right). rewrite is_open_0; [done|]. apply H. by left.
Qed.

Lemma open_count_open l : open_count l ≠ 0 → ∃ k, k ∈ l ∧ openRow k ≠ NO_ROW.
Proof.
  induction l as [|k l IH]; simpl; [done|]. intros H.
  destruct (decide (openRow k = NO_ROW)) as [E|E]; [|exists k; split; [by left|done]].
  rewrite (is_open_0 k E) in H. destruct IH as (k' & ? & ?); [lia|]. exists k'. split; [by right|done].
Qed.

(** The state of the loop: the first [n] banks are precharged. *)
Record precharging (c : Config) (pre_at : Tick) (r : Rank) (n : nat) (r' : Rank) : Prop := {
  pg_ok : rank_ok c r';
  pg_banks : banks r' = (pre_bank c pre_at <$> take n (banks r)) ++ drop n (banks r);
  pg_control : control r' = control r;
  pg_events : activateEvent r' = activateEvent r ∧ actTicks r' = actTicks r;
  pg_kept : ∀ e, prechargeEvent r = Some e → ∃ e', prechargeEvent r' = Some e' ∧ e ≤ e';
  pg_open : ∀ k, k ∈ take n (banks r) → openRow k ≠ NO_ROW →
    ∃ e, prechargeEvent r' = Some e ∧ pre_at + tRP (tm c) ≤ e;
}.

Lemma precharge_step c ts now pre_at r n r1 :
  timing_wf c → now ≤ pre_at → fits c 1 pre_at → (∀ k, k ∈ banks r → preAllowedAt k ≤ pre_at) →
  (n < length (banks r))%nat → precharging c pre_at r n r1 →
  ∃ r2, precharge_for_refresh c ts now pre_at r1 (Z.of_nat n) = Ok r2 ∧ precharging c pre_at r (S n) r2.
Proof.
  intros Hw Hnow Hf Hpre Hn [Hok Hb Hc [He1 He2] Hk Ho].
  destruct (lookup_lt_is_Some_2 (banks r) n Hn) as [k Hkn].
  assert (banks r1 !! n = Some k) as Hk1.
  { rewrite Hb, lookup_app_r by (rewrite length_fmap, length_take; lia).
    rewrite length_fmap, length_take, Nat.min_l, lookup_drop, Nat.sub_diag, Nat.add_0_r by lia. done. }
  assert (∀ r2, banks r2 = alter (pre_bank c pre_at) n (banks r1) →
    banks r2 = (pre_bank c pre_at <$> take (S n) (banks r)) ++ drop (S n) (banks r)) as Hb2.
  { intros r2 ->. rewrite Hb, (take_S_r _ _ k), fmap_app, (drop_S _ k) by done. simpl.
    rewrite <- (Nat.add_0_r n) at 1. replace n with (length (pre_bank c pre_at <$> take n (banks r))) at 1
      by (rewrite length_fmap, length_take; lia).
    rewrite alter_app_r. by rewrite <- app_assoc. }
  assert (0 ≤ tRP (tm c)) by (destruct Hw as [_ Hnn _]; lia).
  unfold precharge_for_refresh. rewrite (get_bank_ok r1 (Z.of_nat n) k) by (rewrite ?Nat2Z.id; done || lia).
  cbv [mbind res_mbind]. destruct (Z.eqb_spec (openRow k) NO_ROW) as [E|E]; cbn [negb].
  - rewrite (fits_add64 c) by (done || delay). eexists. split; [reflexivity|].
    assert (∀ k', k' ∈ take (S n) (banks r) → openRow k' ≠ NO_ROW → k' ∈ take n (banks r)) as Hold.
    { intros k'. rewrite (take_S_r _ _ k), elem_of_app, list_elem_of_singleton by done. naive_solver. }
    split; [|apply Hb2|done|done|done|intros k' Hk' Hk'o; apply (Ho k'); [by apply Hold|done]].
    + apply rank_ok_on_bank; [done|]. intros k0. simpl. split; [done|lia].
    + simpl. rewrite Nat2Z.id. apply list_alter_ext; [|done]. intros x Hx. rewrite Hk1 in Hx.
      injection Hx as <-. specialize (Hpre k ltac:(by eapply list_elem_of_lookup_2)).
      unfold pre_bank. rewrite Z.max_r by lia. destruct k; simpl in *. by subst.
  - destruct (prechargeBank_ok c ts now (Z.of_nat n) pre_at false r1 k)
      as (r2 & -> & Hr2 & Hbk & Hct & Hev & Htk & e & Ee & Hle & Hmax);
      [done|done|lia|by rewrite Nat2Z.id|done|lia|done|].
    exists r2. split; [done|]. rewrite Nat2Z.id in Hbk.
    split; [done|by apply Hb2|by rewrite Hct|by rewrite Hev, Htk| |].
    + intros e0 He0. destruct (Hk e0 He0) as (e' & He' & ?). exists e. split; [done|].
      specialize (Hmax e' He'). lia.
    + intros _ _ _. by exists e.
Qed.

Lemma precharge_all_ok c ts now pre_at r :
  timing_wf c → rank_ok c r → now ≤ pre_at → fits c 1 pre_at →
  (∀ k, k ∈ banks r → preAllowedAt k ≤ pre_at) →
  ∃ r', foldM (precharge_for_refresh c ts now pre_at) r (seqZ 0 (Z.of_nat (length (banks r)))) = Ok r' ∧
    precharging c pre_at r (length (banks r)) r'.
Proof.
  intros Hw Hr Hnow Hf Hpre.
  destruct (foldM_ok (λ l r', precharging c pre_at r (length l) r')
    (precharge_for_refresh c ts now pre_at) (seqZ 0 (Z.of_nat (length (banks r)))) r) as (r' & E & H).
  - split; [done|done|done|done|intros e He; exists e; split; [done|lia]|by intros k ?%elem_of_nil].
  - intros l1 x l2 r1 El H1.
    assert (seqZ 0 (Z.of_nat (length (banks r))) !! length l1 = Some x) as Hx
      by (rewrite El; by apply list_lookup_middle).
    apply lookup_seqZ in Hx as [Hx Hlt]. replace x with (Z.of_nat (length l1)) by lia.
    rewrite length_app. simpl. rewrite Nat.add_1_r. apply precharge_step; [done..|lia|done].
  - exists r'. split; [done|]. by rewrite length_seqZ, Nat2Z.id in H.
Qed.

(** ** The refresh cycle *)

Lemma schedulePowerEvent_ok now st t r :
  now ≤ t → powerEvent r = None →
  schedulePowerEvent now st t r = Ok (set_powerEvent (Some t) (set_pwrStateTrans st r)).
Proof.
  intros Ht He. unfold schedulePowerEvent. rewrite (proj2 (Z.leb_le _ _)) by done. simpl.
  rewrite He. simpl. by rewrite schedule_ok.
Qed.

(** All banks are closed and none can be activated before [t]. *)
Definition closed_until (t : Tick) (r : Rank) : Prop :=
  numBanksActive r = 0 ∧ ∀ k, k ∈ banks r → openRow k = NO_ROW ∧ t ≤ actAllowedAt k.

(** A precharged rank that waits for its refresh. *)
Record precharged (c : Config) (due : Tick) (r r' : Rank) : Prop := {
  pd_ok : rank_ok c r';
  pd_state : refreshState r' = REF_RUN ∧ refreshDueAt r' = due;
  pd_power : pwrState r' = pwrState r ∧ pwrStateTick r' = pwrStateTick r;
  pd_events : refreshEvent r' = refreshEvent r ∧ activateEvent r' = activateEvent r;
  pd_ticks : actTicks r' = actTicks r;
  pd_closed : numBanksActive r' = 0;
}.

Lemma refresh_precharge_active c ts now r :
  timing_wf c → rank_ok c r → pwrState r ≠ PWR_IDLE → fits c 1 now →
  (∀ k, k ∈ banks r → fits c 1 (preAllowedAt k)) →
  let pre_at := all_pre_at now (banks r) in
  ∃ r', refresh_precharge c ts now r = Ok r' ∧ precharged c (refreshDueAt r) r r' ∧
    closed_until (pre_at + tRP (tm c)) r' ∧ powerEvent r' = powerEvent r ∧
    pwrStateTrans r' = pwrStateTrans r ∧
    (∀ e, prechargeEvent r = Some e → ∃ e', prechargeEvent r' = Some e' ∧ e ≤ e') ∧
    (numBanksActive r ≠ 0 → ∃ e, prechargeEvent r' = Some e ∧ pre_at + tRP (tm c) ≤ e).
Proof.
  intros Hw Hr Hp Hn Hf pre_at. destruct (all_pre_at_spec now (banks r)) as (H1 & H2 & H3).
  fold pre_at in H1, H2, H3. specialize (H3 c 1 Hn Hf). unfold refresh_precharge.
  rewrite bool_decide_false by done. cbn [negb]. fold pre_at.
  destruct (precharge_all_ok c ts now pre_at r) as (r1 & -> & [Hok Hb Hc [He1 He2] Hk Ho]); [done..|].
  cbv [mbind res_mbind]. destruct (doCommand_ok c ts PREA 0 pre_at r1 Hw H3) as [l ->].
  rewrite take_ge, drop_ge, app_nil_r in Hb by lia. rewrite take_ge in Ho by lia.
  assert (∀ k, k ∈ banks r1 → openRow k = NO_ROW ∧ pre_at + tRP (tm c) ≤ actAllowedAt k) as Hcl.
  { rewrite Hb. intros k' (k & -> & Hkin)%list_elem_of_fmap. unfold pre_bank. simpl. split; [done|lia]. }
  assert (numBanksActive r1 = 0) as H0.
  { rewrite (ro_active _ _ Hok). apply open_count_zero. intros k Hkin. by apply Hcl. }
  unfold control in Hc. injection Hc as C1 C2 C3 C4 C5 C6 C7 C8 C9.
  simpl. rewrite H0. simpl. eexists. split; [reflexivity|].
  split_and!; [|by split|done|done|done|].
  - split; simpl; [by destruct Hok|by rewrite C5|by rewrite C2, C3|by rewrite C7|done|done].
  - intros Hne. rewrite (ro_active _ _ Hr) in Hne. destruct (open_count_open _ Hne) as (k & Hkin & Hko).
    by apply (Ho k).
Qed.

Lemma refresh_precharge_idle c ts now r :
  rank_ok c r → pwrState r = PWR_IDLE → numBanksActive r = 0 → powerEvent r = None →
  ∃ r', refresh_precharge c ts now r = Ok r' ∧ precharged c (refreshDueAt r) r r' ∧
    banks r' = banks r ∧ powerEvent r' = Some now ∧ pwrStateTrans r' = PWR_REF.
Proof.
  intros Hr Hp H0 He. unfold refresh_precharge. rewrite bool_decide_true by done. cbn [negb].
  rewrite schedulePowerEvent_ok by (done || lia). simpl. rewrite H0. simpl. eexists. split; [reflexivity|].
  split_and!; [|done|done|done]. split; simpl; [by destruct Hr|done|done|done|done|done].
Qed.

(** What a running refresh leaves behind. *)
Record refreshed (c : Config) (due t : Tick) (r : Rank) : Prop := {
  rf_ok : rank_ok c r;
  rf_power : pwrState r = PWR_REF ∧ pwrStateTrans r = PWR_IDLE ∧ powerEvent r = Some (t + tRFC (tm c));
  rf_refresh : refreshState r = REF_RUN ∧ refreshEvent r = Some (due + tREFI (tm c) - tRP (tm c));
  rf_banks : numBanksActive r = 0 ∧
    ∀ k, k ∈ banks r → openRow k = NO_ROW ∧ actAllowedAt k = t + tRFC (tm c);
  rf_commands : cmdList r = [];
}.

Lemma refresh_run_ok c ts now r :
  timing_wf c → rank_ok c r → numBanksActive r = 0 → pwrState r = PWR_REF → refreshState r = REF_RUN →
  powerEvent r = None → refreshEvent r = None → fits c 1 now → fits c 1 (refreshDueAt r) →
  tXAW (tm c) ≤ tRFC (tm c) → tRP (tm c) ≤ tRFC (tm c) → (∀ x, x ∈ actTicks r → x ≤ now) →
  now + tRFC (tm c) ≤ refreshDueAt r + tREFI (tm c) →
  ∃ r', refresh_run c ts now r = Ok r' ∧ refreshed c (refreshDueAt r) now r' ∧
    pwrStateTick r' = pwrStateTick r.
Proof.
  intros Hw Hr H0 Hp Hs He1 He2 Hn Hd Hxaw Hrp Hpast Hdue. unfold refresh_run.
  rewrite H0, bool_decide_true by done. cbn [check]. cbv [mbind res_mbind].
  rewrite (fits_add64 c) by (done || delay). set (r1 := on_banks _ r). simpl.
  assert (rank_ok c r1) as Hr1.
  { destruct Hr as [A1 A2 A3 A4 A5 _]. unfold r1. split; simpl; [by rewrite length_fmap|done|done| | |].
    - rewrite open_count_fmap by done. done.
    - intros k' x (k & -> & Hk)%list_elem_of_fmap Hx. simpl. destruct (A5 k x Hk Hx).
      specialize (Hpast x Hx). destruct Hw as [_ Hnn _]. lia.
    - intros k' back (k & -> & Hk)%list_elem_of_fmap Hl _. simpl.
      specialize (Hpast back ltac:(by eapply last_Some_elem_of)). lia. }
  destruct (doCommand_ok c ts REF 0 now r1 Hw Hn) as [l ->]. simpl.
  rewrite (fits_add64 c) by (done || delay). unfold fatal_if.
  rewrite (proj2 (Z.ltb_ge _ _)) by done. cbn [negb check].
  assert (0 ≤ tRP (tm c)) by (destruct Hw as [_ Hnn _]; lia).
  rewrite sub64_small by (destruct Hd, Hn; assert (0 ≤ tREFI (tm c) ≤ span c) by delay; lia).
  rewrite He2, schedule_ok by lia. rewrite He1. simpl.
  rewrite schedulePowerEvent_ok by (done || (destruct Hw as [_ Hnn _]; lia)).
  eexists. split; [reflexivity|]. split; [|done]. split; simpl; [by destruct Hr1|done|done| |done].
  split; [done|]. intros k' (k & -> & Hk)%list_elem_of_fmap. simpl. split; [|done].
  destruct (decide (openRow k = NO_ROW)) as [|Hno]; [done|]. exfalso.
  apply list_elem_of_lookup_1 in Hk as [i Hi].
  pose proof (open_count_alter (λ k, set_openRow NO_ROW k) _ _ _ Hi) as E.
  rewrite (is_open_1 k Hno), is_open_0 in E by done.
  pose proof (open_count_range (alter (λ k, set_openRow NO_ROW k) i (banks r))).
  rewrite <- (ro_active _ _ Hr), H0 in E. lia.
Qed.

(** A rank whose refresh is due: the event has fired, either for the first time or
    again after the requests to the rank have been drained. *)
Definition refresh_due (now due : Tick) (busy : bool) (r : Rank) : Prop :=
  (refreshState r = REF_IDLE ∧ busy = false ∧ due = now ∨
   refreshState r = REF_PRE ∧ due = refreshDueAt r) ∧
  refreshEvent r = None ∧ powerEvent r = None.

Definition refresh_start (due : Tick) (r : Rank) : Rank :=
  set_refreshState REF_PRE (set_refreshDueAt due r).

Lemma refresh_start_ok c due r : rank_ok c r → rank_ok c (refresh_start due r).
Proof. intros []. by split. Qed.

Lemma processRefreshEvent_due c ts now due busy r :
  refresh_due now due busy r →
  processRefreshEvent c ts now busy r = refresh_precharge c ts now (refresh_start due r).
Proof.
  intros [[(E & -> & ->)|(E & ->)] _]; unfold processRefreshEvent.
  - rewrite (bool_decide_true (refreshState r = REF_IDLE)) by done. by destruct r.
  - rewrite E. simpl. unfold refresh_start. destruct r; simpl in *. by subst.
Qed.

Lemma processRefreshEvent_run c ts now busy r :
  refreshState r = REF_RUN → processRefreshEvent c ts now busy r = refresh_run c ts now r.
Proof. intros E. unfold processRefreshEvent. by repeat (rewrite E; simpl). Qed.

(** A rank whose banks are closed and which waits for its refresh. *)
Record waiting (c : Config) (due t : Tick) (r : Rank) : Prop := {
  wt_ok : rank_ok c r;
  wt_closed : numBanksActive r = 0;
  wt_state : refreshState r = REF_RUN ∧ refreshDueAt r = due;
  wt_events : powerEvent r = None ∧ refreshEvent r = None;
  wt_past : ∀ x, x ∈ actTicks r → x ≤ t;
}.

(** The power event that starts the refresh. *)
Lemma power_starts_refresh c ts now due busy nextReq r :
  timing_wf c → waiting c due now r → fits c 1 now → fits c 1 due →
  tXAW (tm c) ≤ tRFC (tm c) → tRP (tm c) ≤ tRFC (tm c) → now + tRFC (tm c) ≤ due + tREFI (tm c) →
  pwrState r = PWR_IDLE ∧ pwrStateTrans r = PWR_REF ∨ pwrState r = PWR_ACT ∧ pwrStateTrans r = PWR_IDLE →
  ∃ r', processPowerEvent c ts now busy nextReq r = Ok (r', nextReq) ∧ refreshed c due now r'.
Proof.
  intros Hw [Hok H0 [Hs <-] [He1 He2] Hpast] Hn Hd Hx Hrp Hdue Hp.
  unfold processPowerEvent. set (r0 := set_pwrStateTime _ r).
  set (r1 := set_pwrStateTick now (set_pwrState PWR_REF r0)).
  assert (∃ r', refresh_run c ts now r1 = Ok r' ∧ refreshed c (refreshDueAt r) now r') as (r' & E & H).
  { destruct (refresh_run_ok c ts now r1) as (r' & ? & ? & _); [|eauto..]; try done. by destruct Hok. }
  exists r'. split; [|done]. cbv zeta.
  destruct Hp as [[P1 P2]|[P1 P2]].
  - change (pwrStateTrans r0) with (pwrStateTrans r). rewrite P2. simpl. rewrite Hs. simpl.
    rewrite processRefreshEvent_run by done. fold r1. by rewrite E.
  - change (pwrStateTrans r0) with (pwrStateTrans r). rewrite P2, P1. simpl. rewrite Hs, He1. simpl.
    rewrite Hs. simpl. rewrite processRefreshEvent_run by done.
    change (set_pwrState PWR_REF _) with r1. by rewrite E.
Qed.

(** The power event that ends it. *)
Lemma power_ends_refresh c ts now due t busy nextReq r :
  refreshed c due t r → (∀ e, nextReq = Some e → now ≤ e) →
  ∃ r', processPowerEvent c ts now busy nextReq (set_powerEvent None r) =
      Ok (r', Some (default now nextReq)) ∧
    rank_ok c r' ∧ refreshState r' = REF_IDLE ∧ pwrState r' = PWR_IDLE ∧ powerEvent r' = None ∧
    refreshEvent r' = Some (due + tREFI (tm c) - tRP (tm c)) ∧ banks r' = banks r ∧ cmdList r' = [] ∧
    pwrStateTime r' PWR_REF = pwrStateTime r PWR_REF + sub64 now (pwrStateTick r).
Proof.
  intros [Hok (P1 & P2 & P3) [R1 R2] _ Hc] He. unfold processPowerEvent. simpl. rewrite P2, P1. simpl.
  assert ((if negb (scheduled nextReq) then schedule now nextReq now else mret nextReq) =
    Ok (Some (default now nextReq))) as Es.
  { destruct nextReq as [e|]; simpl; [done|]. apply schedule_ok. lia. }
  rewrite Es. simpl. eexists. split; [reflexivity|]. simpl.
  split_and!; try done. by destruct Hok.
Qed.

(** The refresh parameters: a refresh covers the activation window and a precharge. *)
Definition refresh_wf (c : Config) : Prop :=
  timing_wf c ∧ tXAW (tm c) ≤ tRFC (tm c) ∧ tRP (tm c) ≤ tRFC (tm c).

(** From [t] the rank is refreshed, for [tRFC], and back in service afterwards, with
    the next refresh scheduled and the controller woken up. *)
Definition refresh_runs (c : Config) (ts : Z) (due t : Tick) (nextReq : Event) (r : Rank) : Prop :=
  ∃ r1 r2, (∀ busy, processPowerEvent c ts t busy nextReq r = Ok (r1, nextReq)) ∧
    refreshed c due t r1 ∧
    (∀ busy, processPowerEvent c ts (t + tRFC (tm c)) busy None (set_powerEvent None r1) =
      Ok (r2, Some (t + tRFC (tm c)))) ∧
    rank_ok c r2 ∧ refreshState r2 = REF_IDLE ∧ pwrState r2 = PWR_IDLE ∧ banks r2 = banks r1 ∧
    refreshEvent r2 = Some (due + tREFI (tm c) - tRP (tm c)).

Lemma processPowerEvent_run_busy c ts now due b1 b2 nextReq r :
  waiting c due now r →
  pwrState r = PWR_IDLE ∧ pwrStateTrans r = PWR_REF ∨ pwrState r = PWR_ACT ∧ pwrStateTrans r = PWR_IDLE →
  processPowerEvent c ts now b1 nextReq r = processPowerEvent c ts now b2 nextReq r.
Proof.
  intros [_ _ [Hs _] [He1 _] _] Hp. unfold processPowerEvent. set (r0 := set_pwrStateTime _ r). cbv zeta.
  change (pwrStateTrans r0) with (pwrStateTrans r). destruct Hp as [[P1 P2]|[P1 P2]].
  - rewrite P2. simpl. rewrite Hs. simpl. by rewrite !processRefreshEvent_run.
  - rewrite P2, P1. simpl. rewrite Hs, He1. simpl. rewrite Hs. simpl. by rewrite !processRefreshEvent_run.
Qed.

Lemma refresh_runs_ok c ts due t nextReq r :
  refresh_wf c → waiting c due t r → fits c 1 t → fits c 1 due → t + tRFC (tm c) ≤ due + tREFI (tm c) →
  pwrState r = PWR_IDLE ∧ pwrStateTrans r = PWR_REF ∨ pwrState r = PWR_ACT ∧ pwrStateTrans r = PWR_IDLE →
  refresh_runs c ts due t nextReq r.
Proof.
  intros (Hw & Hx & Hrp) Hr Ht Hd Hdue Hp.
  destruct (power_starts_refresh c ts t due false nextReq r) as (r1 & E1 & H1); [done..|].
  destruct (power_ends_refresh c ts (t + tRFC (tm c)) due t false None r1 H1)
    as (r2 & E2 & ? & ? & ? & ? & ? & ? & _); [done|].
  exists r1, r2. split_and!; [|done| |done..].
  - intros busy. by rewrite (processPowerEvent_run_busy c ts t due busy false).
  - intros busy. simpl in E2. rewrite <- E2. destruct H1 as [_ (P1 & P2 & _) [R1 _] _ _].
    unfold processPowerEvent. simpl. rewrite P2, P1. simpl. by rewrite schedule_ok by lia.
Qed.

(** C16: a refresh that comes due while the rank has open rows: the handler finds the
    first tick at which every bank may be precharged, closes every bank, none of which
    can be activated again before [tRP] has passed, and waits for the precharge to
    complete; the precharge event requests the idle power state, whose event goes to
    the refresh state directly and starts the refresh.  If that meets the deadline
    the code checks, no step fails: no bank can be activated for [tRFC], the commands
    have been handed to the power model, and the rank then returns to service with
    the next refresh scheduled at the cadence of [tREFI] from the due time. *)
Theorem refresh_of_active_rank c ts now due busy nextReq r :
  refresh_wf c → rank_ok c r → refresh_due now due busy r → pwrState r = PWR_ACT →
  fits c 1 now → fits c 1 due → (∀ k, k ∈ banks r → fits c 1 (preAllowedAt k)) →
  numBanksActive r ≠ 0 →
  let pre_at := all_pre_at now (banks r) in
  ∃ r1 e, processRefreshEvent c ts now busy r = Ok r1 ∧ prechargeEvent r1 = Some e ∧
    pre_at + tRP (tm c) ≤ e ∧ closed_until (pre_at + tRP (tm c)) r1 ∧ refreshState r1 = REF_RUN ∧
    (fits c 1 e → e + tRFC (tm c) ≤ due + tREFI (tm c) → (∀ x, x ∈ actTicks r → x ≤ e) →
     ∃ r2, processPrechargeEvent e (set_prechargeEvent None r1) = Ok r2 ∧ powerEvent r2 = Some e ∧
       refresh_runs c ts due e nextReq (set_powerEvent None r2)).
Proof.
  intros Hwf Hr Hdue Hp Hn Hd Hf H0 pre_at. pose proof Hwf as (Hw & _). pose proof Hdue as (_ & He1 & He2).
  rewrite (processRefreshEvent_due c ts now due busy r Hdue).
  destruct (refresh_precharge_active c ts now (refresh_start due r))
    as (r1 & -> & [Hok [S1 S2] [P1 _] [V1 _] Htk H1] & Hcl & Hpe & _ & _ & Hpre);
    [done|by apply refresh_start_ok|simpl; by rewrite Hp|done|done|].
  destruct (Hpre H0) as (e & Ee & Hle). exists r1, e. split_and!; [done..|].
  intros He Hdl Hx. unfold processPrechargeEvent. simpl. rewrite H1. simpl.
  rewrite schedulePowerEvent_ok by (lia || (simpl; by rewrite Hpe)). eexists. split_and!; [reflexivity|done|].
  apply refresh_runs_ok; [done| |done..|right; simpl; by rewrite P1].
  split; simpl; [by destruct Hok|done|done|by rewrite V1|by rewrite Htk].
Qed.

(** a refresh that comes due while the rank is idle starts at once: the power
    event of the same tick runs it, and the rank is back in service after [tRFC]. *)
Theorem refresh_of_idle_rank c ts now due busy nextReq r :
  refresh_wf c → rank_ok c r → refresh_due now due busy r → pwrState r = PWR_IDLE →
  fits c 1 now → fits c 1 due → numBanksActive r = 0 → (∀ x, x ∈ actTicks r → x ≤ now) →
  now + tRFC (tm c) ≤ due + tREFI (tm c) →
  ∃ r1, processRefreshEvent c ts now busy r = Ok r1 ∧ powerEvent r1 = Some now ∧
    refresh_runs c ts due now nextReq (set_powerEvent None r1).
Proof.
  intros Hwf Hr Hdue Hp Hn Hd H0 Hx Hdl. pose proof Hdue as (_ & He1 & He2).
  rewrite (processRefreshEvent_due c ts now due busy r Hdue).
  destruct (refresh_precharge_idle c ts now (refresh_start due r))
    as (r1 & -> & [Hok [S1 S2] [P1 _] [V1 _] Htk H1] & _ & Ee & Et);
    [by apply refresh_start_ok|done..|].
  exists r1. split_and!; [done..|]. apply refresh_runs_ok; [done| |done..|left; simpl; by rewrite P1].
  split; simpl; [by destruct Hok|done|done|by rewrite V1|by rewrite Htk].
Qed.

(** ** Examples *)

Lemma DDR4_refresh_wf : refresh_wf DDR4_config.
Proof. split; [apply DDR4_timing_wf|split; by vm_compute]. Qed.

(** The rank with row 7 of bank 3 open, and the rank as constructed. *)
Definition ex_open_rank : Rank :=
  set_pwrState PWR_ACT (set_activateEvent None (set_actTicks [20000; 0; 0; 0]
    (on_bank 3 (λ k, set_preAllowedAt 90000 (set_openRow 7 k))
      (on_banks (set_actAllowedAt 50000) (set_numBanksActive 1 (new_Rank DDR4_config 0)))))).

Definition ex_prechargeEvent : Event :=
  match processRefreshEvent DDR4_config 0 100000 false ex_open_rank with
  | Ok r => prechargeEvent r
  | Err _ => None
  end.

Lemma fits_preAllowedAt c (l : list Bank) :
  Forall (λ k, 0 ≤ preAllowedAt k ∧ preAllowedAt k + 1 * span c < 2 ^ 64) l →
  ∀ k, k ∈ l → fits c 1 (preAllowedAt k).
Proof. intros H k Hk. by eapply Forall_forall in H. Qed.

Lemma refresh_of_active_rank_witness :
  ∃ r1 r2, processRefreshEvent DDR4_config 0 100000 false ex_open_rank = Ok r1 ∧
    ex_prechargeEvent = Some 114160 ∧
    processPrechargeEvent 114160 (set_prechargeEvent None r1) = Ok r2 ∧
    refresh_runs DDR4_config 0 100000 114160 None (set_powerEvent None r2).
Proof.
  assert (ex_prechargeEvent = Some 114160) as Ee by by vm_compute.
  destruct (refresh_of_active_rank DDR4_config 0 100000 100000 false None ex_open_rank)
    as (r1 & e & E & E1 & _ & _ & _ & H).
  - apply DDR4_refresh_wf.
  - apply rank_ok_check. vm_compute. reflexivity.
  - split; [left; split_and!; reflexivity|split; reflexivity].
  - by vm_compute.
  - split; by vm_compute.
  - split; by vm_compute.
  - apply fits_preAllowedAt. by apply (bool_decide_unpack _); vm_compute.
  - by vm_compute.
  - assert (e = 114160) as ->.
    { unfold ex_prechargeEvent in Ee. rewrite E, E1 in Ee. by injection Ee. }
    destruct H as (r2 & E2 & _ & H2).
    + split; by vm_compute.
    + by vm_compute.
    + apply Forall_forall. by apply (bool_decide_unpack _); vm_compute.
    + exact (ex_intro _ r1 (ex_intro _ r2 (conj E (conj Ee (conj E2 H2))))).
Defined.

Lemma refresh_of_idle_rank_witness :
  ∃ r1, processRefreshEvent DDR4_config 0 100000 false (new_Rank DDR4_config 0) = Ok r1 ∧
    refresh_runs DDR4_config 0 100000 100000 None (set_powerEvent None r1).
Proof.
  destruct (refresh_of_idle_rank DDR4_config 0 100000 100000 false None (new_Rank DDR4_config 0))
    as (r1 & E & _ & H).
  - apply DDR4_refresh_wf.
  - apply rank_ok_check. vm_compute. reflexivity.
  - split; [left; split_and!; reflexivity|split; reflexivity].
  - by vm_compute.
  - split; by vm_compute.
  - split; by vm_compute.
  - by vm_compute.
  - apply Forall_forall. by apply (bool_decide_unpack _); vm_compute.
  - by vm_compute.
  - exact (ex_intro _ r1 (conj E H)).
Defined.
