(* ===== verification/DRAMNext.v ===== *)
(** * DRAM controller: the bus state machine (mem/dram_ctrl.cc)

    [processNextReqEvent] is the heart of the controller: it turns the bus
    between reads and writes, serves one request and schedules itself again.
    The file also has the entry points of the simulation kernel (startup,
    draining) and the handlers of the rank events, which connect the state
    machines of the ranks with the controller. *)

From stdpp Require Import base numbers list gmap sorting.
From S2P Require Import Prelude IntMath Packets AbstractMem Events PktQueue DRAMConfig DRAMState.
From S2P Require Import DRAMBank DRAMCtrlState DRAMAccess DRAMSched DRAMQueue DRAMRefresh.
Import DRAMCtrl.
Local Open Scope Z_scope.

(** ** The handler of [nextReqEvent] *)

(** "let the rank know that if it was waiting to drain, it is now done": the loop
    over the ranks, with the number of ranks that are refreshing. *)
Definition check_rank (now : Tick) (st : DRAMCtrl * Z) (i : Z) : res (DRAMCtrl * Z) :=
  let '(s, busyRanks) := st in
  r ← get_rank s i;
  if negb (isAvailable r) then
    r ← checkDrainDone now r;
    mret (put_rank i r s, busyRanks + 1)
  else mret (s, busyRanks).

Definition check_ranks (now : Tick) (s : DRAMCtrl) : res (DRAMCtrl * Z) :=
  foldM (check_rank now) (s, 0) (seqZ 0 (Z.of_nat (length (ranks s)))).

(** The turnaround: the state, and [switched_cmd_type]. *)
Definition turn_around (s : DRAMCtrl) : DRAMCtrl * bool :=
  match busState s with
  | READ_TO_WRITE =>
      let s := set_rdPerTurnAround (rdPerTurnAround s ++ [readsThisTime s]) s in
      let s := set_readsThisTime 0 s in
      (set_busState WRITE s, true)
  | WRITE_TO_READ =>
      let s := set_wrPerTurnAround (wrPerTurnAround s ++ [writesThisTime s]) s in
      let s := set_writesThisTime 0 s in
      (set_busState READ s, true)
  | _ => (s, false)
  end.

(** [busBusyUntil += delay] when the command type changes on the active rank. *)
Definition bubble (switched_cmd_type : bool) (dram_pkt : DRAMPacket) (delay : Tick) (s : DRAMCtrl) : DRAMCtrl :=
  if switched_cmd_type && (DRAMPacket.rank dram_pkt =? activeRank s)
  then set_busBusyUntil (add64 (busBusyUntil s) delay) s else s.

(** The insertion into the response queue. *)
Definition push_response (now : Tick) (dram_pkt : DRAMPacket) (s : DRAMCtrl) : res DRAMCtrl :=
  s ← (match last (respQueue s) with
       | None =>
           assert_ (negb (scheduled (respondEvent s)));;
           e ← schedule now (respondEvent s) (DRAMPacket.readyTime dram_pkt);
           mret (set_respondEvent e s)
       | Some back =>
           assert_ (DRAMPacket.readyTime back <=? DRAMPacket.readyTime dram_pkt);;
           assert_ (scheduled (respondEvent s));;
           mret s
       end);
  mret (set_respQueue (respQueue s ++ [dram_pkt]) s).

(** The branch [busState == READ] with a read waiting; the flag says whether the
    handler goes on, which it does not when no rank with a read is available. *)
Definition serve_read (now : Tick) (switched_cmd_type : bool) (s : DRAMCtrl) : res (DRAMCtrl * bool) :=
  '(found_read, q) ← chooseNext now s (readQueue s) (if switched_cmd_type then tCS (tm (cfg s)) else 0);
  let s := set_readQueue q s in
  if negb found_read then mret (s, false)
  else
    match q with
    | [] => Err UB
    | dram_pkt :: _ =>
        r ← get_rank s (DRAMPacket.rank dram_pkt);
        assert_ (isAvailable r);;
        let t := tm (cfg s) in
        let s := bubble switched_cmd_type dram_pkt (add64 (tWTR t) (tCL t)) s in
        '(s, dram_pkt) ← doDRAMAccess now s dram_pkt;
        let s := set_readQueue (tail (readQueue s)) s in
        assert_ (DRAMPacket.size dram_pkt <=? burstSize (cfg s));;
        assert_ (now <=? DRAMPacket.readyTime dram_pkt);;
        s ← push_response now dram_pkt s;
        mret (if (writeHighThreshold (cfg s) <? Z.of_nat (length (writeQueue s))) || (0 <? pendingRowOps s)
              then set_busState READ_TO_WRITE s else s, true)
    end.

(** The branch [busState == READ] without reads. *)
Definition idle_read (s : DRAMCtrl) : DRAMCtrl * bool :=
  if negb (bool_decide (writeQueue s = [])) &&
     (bool_decide (drain_state s = Draining)
      || (writeLowThreshold (cfg s) <? Z.of_nat (length (writeQueue s)))
      || (0 <? pendingRowOps s))
  then (set_busState READ_TO_WRITE s, true)
  else
    (if bool_decide (drain_state s = Draining) && bool_decide (respQueue s = [])
     then set_drain_state (signalDrainDone (drain_state s)) s else s, false).

(** The condition to "turn the bus back around for reads again". *)
Definition back_to_reads (s : DRAMCtrl) : bool :=
  let n := Z.of_nat (length (writeQueue s)) in
  (pendingRowOps s =? 0) &&
  (bool_decide (writeQueue s = [])
   || ((n + minWritesPerSwitch (cfg s) <? writeLowThreshold (cfg s))
       && negb (bool_decide (drain_state s = Draining)))
   || (negb (bool_decide (readQueue s = [])) && (minWritesPerSwitch (cfg s) <=? writesThisTime s))).

(** The branch for writes. *)
Definition serve_write (now : Tick) (switched_cmd_type : bool) (s : DRAMCtrl) : res (DRAMCtrl * bool) :=
  let t := tm (cfg s) in
  '(found_write, q) ← chooseNext now s (writeQueue s)
    (if switched_cmd_type then Z.min (tRTW t) (tCS t) else 0);
  let s := set_writeQueue q s in
  if negb found_write then mret (s, false)
  else
    match q with
    | [] => Err UB
    | dram_pkt :: _ =>
        r ← get_rank s (DRAMPacket.rank dram_pkt);
        assert_ (isAvailable r);;
        assert_ (DRAMPacket.size dram_pkt <=? burstSize (cfg s));;
        let s := bubble switched_cmd_type dram_pkt (tRTW t) s in
        '(s, dram_pkt) ← doDRAMAccess now s dram_pkt;
        let s := set_writeQueue (tail (writeQueue s)) s in
        let s := set_isInWriteQueue
          (isInWriteQueue s ∖ {[ burstAlign (cfg s) (DRAMPacket.addr dram_pkt) ]}) s in
        mret (if back_to_reads s then set_busState WRITE_TO_READ s else s, true)
    end.

(** The end of the handler: the next request, and the retry of a refused write. *)
Definition next_request (now : Tick) (s : DRAMCtrl) : res DRAMCtrl :=
  s ← (if negb (scheduled (nextReqEvent s)) then
         e ← schedule now (nextReqEvent s) (Z.max (nextReqTime s) now);
         mret (set_nextReqEvent e s)
       else mret s);
  mret (if retryWrReq s && (Z.of_nat (length (writeQueue s)) <? writeBufferSize (cfg s))
        then set_retriesSent (retriesSent s + 1) (set_retryWrReq false s) else s).

(** [processNextReqEvent()]; the event has been descheduled when its handler runs. *)
Definition processNextReqEvent (now : Tick) (s : DRAMCtrl) : res DRAMCtrl :=
  '(s, busyRanks) ← check_ranks now s;
  if busyRanks =? ranksPerChannel (cfg s) then mret s
  else
    let '(s, switched_cmd_type) := turn_around s in
    '(s, go_on) ←
      (if bool_decide (busState s = READ) then
         if bool_decide (readQueue s = []) then mret (idle_read s)
         else serve_read now switched_cmd_type s
       else serve_write now switched_cmd_type s);
    if (go_on : bool) then next_request now s else mret s.

(** ** The kernel's entry points *)

(** [startup()], with the mode of the system. *)
Definition startup_rank (now : Tick) (s : DRAMCtrl) (i : Z) : res DRAMCtrl :=
  r ← get_rank s i;
  let t := tm (cfg s) in
  r ← DRAMRefresh.startup now (sub64 (add64 now (tREFI t)) (tRP t)) r;
  mret (put_rank i r s).

Definition startup (now : Tick) (timing : bool) (s : DRAMCtrl) : res DRAMCtrl :=
  let s := set_isTimingMode timing s in
  if isTimingMode s then
    off ← IntMath.divCeil 64 now (tCK (tm (cfg s)));
    let s := set_timeStampOffset off s in
    s ← foldM (startup_rank now) s (seqZ 0 (Z.of_nat (length (ranks s))));
    let t := tm (cfg s) in
    mret (set_busBusyUntil (add64 (add64 (add64 now (tRP t)) (tRCD t)) (tCL t)) s)
  else mret s.

(** [drain()] *)
Definition drain (now : Tick) (s : DRAMCtrl) : res (DRAMCtrl * DrainState) :=
  if negb (bool_decide (writeQueue s = []) && bool_decide (readQueue s = [])
           && bool_decide (respQueue s = [])) then
    s ← (if negb (bool_decide (writeQueue s = [])) && negb (scheduled (nextReqEvent s)) then
           e ← schedule now (nextReqEvent s) now;
           mret (set_nextReqEvent e s)
         else mret s);
    mret (s, Draining)
  else mret (s, Drained).

Definition suspend_rank (s : DRAMCtrl) (i : Z) : res DRAMCtrl :=
  r ← get_rank s i;
  r ← suspend r;
  mret (put_rank i r s).

(** [drainResume()], with the mode of the system. *)
Definition drainResume (now : Tick) (timing : bool) (s : DRAMCtrl) : res DRAMCtrl :=
  s ← (if negb (isTimingMode s) && timing then startup now timing s
       else if isTimingMode s && negb timing
       then foldM suspend_rank s (seqZ 0 (Z.of_nat (length (ranks s))))
       else mret s);
  mret (set_isTimingMode timing s).

(** [Drainable::dmDrain()] and [Drainable::dmDrainResume()] *)
Definition dmDrain (now : Tick) (s : DRAMCtrl) : res DRAMCtrl :=
  '(s, d) ← drain now (set_drain_state Draining s);
  mret (set_drain_state d s).

Definition dmDrainResume (now : Tick) (timing : bool) (s : DRAMCtrl) : res DRAMCtrl :=
  if negb (bool_decide (drain_state s = Drained)) then Err Panic
  else drainResume now timing (set_drain_state Running s).

(** ** The events of the ranks

    The handlers run with their event descheduled.  [rank_busy] is
    [rank == memory.activeRank && memory.nextReqEvent.scheduled()]. *)
Definition rank_busy (s : DRAMCtrl) (i : Z) : bool := (i =? activeRank s) && scheduled (nextReqEvent s).

Definition refreshEvent_fires (now : Tick) (i : Z) (s : DRAMCtrl) : res DRAMCtrl :=
  r ← get_rank s i;
  r ← processRefreshEvent (cfg s) (timeStampOffset s) now (rank_busy s i) (set_refreshEvent None r);
  mret (put_rank i r s).

Definition powerEvent_fires (now : Tick) (i : Z) (s : DRAMCtrl) : res DRAMCtrl :=
  r ← get_rank s i;
  '(r, e) ← processPowerEvent (cfg s) (timeStampOffset s) now (rank_busy s i) (nextReqEvent s)
    (set_powerEvent None r);
  mret (set_nextReqEvent e (put_rank i r s)).

Definition activateEvent_fires (now : Tick) (i : Z) (s : DRAMCtrl) : res DRAMCtrl :=
  r ← get_rank s i;
  r ← processActivateEvent now (set_activateEvent None r);
  mret (put_rank i r s).

Definition prechargeEvent_fires (now : Tick) (i : Z) (s : DRAMCtrl) : res DRAMCtrl :=
  r ← get_rank s i;
  r ← processPrechargeEvent now (set_prechargeEvent None r);
  mret (put_rank i r s).
