(* ===== verification/DRAMServe.v ===== *)
(** * DRAM controller: correctness of the bus state machine

    The invariant of the controller between two events, and what one run of
    [processNextReqEvent] does: it never fails, it keeps the invariant, and it
    serves a request of the direction of the bus whenever a rank is available.
    From this follow bounds on the number of runs after which pending row
    operations have been executed and a draining controller is empty. *)

From stdpp Require Import base numbers list gmap sorting relations.
From S2P Require Import Prelude IntMath Packets AbstractMem Events PktQueue DRAMConfig DRAMState.
From S2P Require Import DRAMBank DRAMCtrlState DRAMAccess DRAMSched DRAMQueue DRAMRefresh DRAMNext.
Import DRAMCtrl.
Local Open Scope Z_scope.

(** ** The invariant *)

(** A DRAM packet that the controller can serve. *)
Record servable (c : Config) (p : DRAMPacket) : Prop := {
  sv_packet : packet_ok c p;
  sv_row : DRAMPacket.row p ≠ NO_ROW;
  sv_size : DRAMPacket.size p ≤ burstSize c;
  sv_op : DRAMPacket.is_row_op p = true → is_Some (DRAMPacket.row_op p);
}.

Definition row_ops (l : list DRAMPacket) : Z :=
  Z.of_nat (length (filter (λ p, DRAMPacket.is_row_op p = true) l)).

(** The head of the response queue is the next to be answered. *)
Definition ready_order (p q : DRAMPacket) : Prop := DRAMPacket.readyTime p ≤ DRAMPacket.readyTime q.

(** Every entry of [isInWriteQueue] is the burst of a queued write. *)
Definition burst_set_ok (s : DRAMCtrl) : Prop :=
  ∀ a, a ∈ isInWriteQueue s → ∃ p, p ∈ writeQueue s ∧ DRAMPacket.is_row_op p = false ∧
    burstAlign (cfg s) (DRAMPacket.addr p) = a.

Record ctrl_ok (s : DRAMCtrl) : Prop := {
  co_geometry : geometry_ok s;
  co_timing : timing_wf (cfg s) ∧ ccd_ok (cfg s);
  co_thresholds : 0 ≤ writeHighThreshold (cfg s) ∧ 0 ≤ minWritesPerSwitch (cfg s);
  co_bus : tCL (tm (cfg s)) ≤ busBusyUntil s;
  co_reads : Forall (λ p, servable (cfg s) p ∧ DRAMPacket.is_row_op p = false) (readQueue s);
  co_writes : Forall (servable (cfg s)) (writeQueue s);
  co_pending : pendingRowOps s = row_ops (writeQueue s);
  co_turn : busState s = WRITE ∨ busState s = READ_TO_WRITE → writeQueue s ≠ [];
  co_order : StronglySorted ready_order (respQueue s);
  co_resp : ∀ p, p ∈ respQueue s → cols_from (DRAMPacket.readyTime p - tCL (tm (cfg s))) (ranks s);
  co_respond : respondEvent s = DRAMPacket.readyTime <$> head (respQueue s);
  co_helpers : helper_ok (helpers s) (outstanding s);
  co_room : queued_reads s ≤ readBufferSize (cfg s);
  co_set : burst_set_ok s;
  co_draining : ∀ r, r ∈ ranks s → refreshState r = REF_DRAIN → refreshEvent r = None;
}.

(** The ticks are far from the limit of 64 bits. *)
Record ticks_ok (now : Tick) (s : DRAMCtrl) : Prop := {
  tk_now : fits (cfg s) 10 now;
  tk_bus : fits (cfg s) 10 (busBusyUntil s);
  tk_banks : ∀ r k, r ∈ ranks s → k ∈ banks r → bank_fits (cfg s) 10 k;
}.

Lemma row_ops_perm l1 l2 : l1 ≡ₚ l2 → row_ops l1 = row_ops l2.
Proof. intros H. unfold row_ops. by rewrite H. Qed.

Lemma row_ops_cons p l :
  row_ops (p :: l) = (if DRAMPacket.is_row_op p then 1 else 0) + row_ops l.
Proof. unfold row_ops. rewrite filter_cons. destruct (DRAMPacket.is_row_op p); simpl length; lia. Qed.

Lemma row_ops_nonneg l : 0 ≤ row_ops l.
Proof. unfold row_ops. lia. Qed.

Lemma bank_fits_mono c n m k : timing_wf c → bank_fits c m k → 0 ≤ n ≤ m → bank_fits c n k.
Proof. intros Hw (?&?&?) ?. split_and!; by eapply fits_mono. Qed.

(** ** Ranks that refresh *)

(** What the loop over the ranks does to a rank. *)
Definition drain_rank (now : Tick) (r : Rank) : Rank :=
  if bool_decide (refreshState r = REF_DRAIN)
  then set_refreshEvent (Some now) (set_refreshState REF_PRE r) else r.

Definition busy_ranks (l : list Rank) : Z :=
  Z.of_nat (length (filter (λ r, isAvailable r = false) l)).

Lemma isAvailable_drain now r : isAvailable (drain_rank now r) = isAvailable r.
Proof.
  unfold drain_rank. case_bool_decide as E; [|done]. unfold isAvailable. simpl. by rewrite E.
Qed.

Lemma checkDrainDone_ok now r :
  (refreshState r = REF_DRAIN → refreshEvent r = None) → checkDrainDone now r = Ok (drain_rank now r).
Proof.
  intros H. unfold checkDrainDone, drain_rank. case_bool_decide as E; [|done]. simpl.
  by rewrite (H E), schedule_ok by lia.
Qed.

Lemma drain_rank_idle now r : isAvailable r = true → drain_rank now r = r.
Proof.
  unfold isAvailable, drain_rank. intros E%bool_decide_eq_true. by rewrite E.
Qed.

Lemma check_ranks_ok now s :
  (∀ r, r ∈ ranks s → refreshState r = REF_DRAIN → refreshEvent r = None) →
  check_ranks now s = Ok (set_ranks (drain_rank now <$> ranks s) s, busy_ranks (ranks s)).
Proof.
  intros Hd. unfold check_ranks.
  destruct (foldM_ok (λ l st, st = (set_ranks ((drain_rank now <$> take (length l) (ranks s)) ++
      drop (length l) (ranks s)) s, busy_ranks (take (length l) (ranks s)))) (check_rank now)
    (seqZ 0 (Z.of_nat (length (ranks s)))) (s, 0)) as (st & -> & ->).
  - simpl. by destruct s.
  - intros l1 x l2 st El ->. set (n := length l1).
    assert (seqZ 0 (Z.of_nat (length (ranks s))) !! n = Some x) as Hx
      by (rewrite El; by apply list_lookup_middle).
    apply lookup_seqZ in Hx as [-> Hlt]. rewrite Z.add_0_l.
    destruct (lookup_lt_is_Some_2 (ranks s) n) as [r Hr]; [lia|].
    assert (length (drain_rank now <$> take n (ranks s)) = n) as Hn
      by (rewrite length_fmap, length_take; lia).
    unfold check_rank. rewrite (get_rank_ok _ _ r); [|lia|].
    2: { simpl. rewrite Nat2Z.id, lookup_app_r, Hn, Nat.sub_diag, lookup_drop, Nat.add_0_r by lia. done. }
    assert ((drain_rank now <$> take (S n) (ranks s)) ++ drop (S n) (ranks s) =
      <[n := drain_rank now r]> ((drain_rank now <$> take n (ranks s)) ++ drop n (ranks s))) as Hl.
    { rewrite (take_S_r _ _ r), fmap_app, (drop_S _ r n) by done. simpl.
      rewrite <- Hn at 3. rewrite <- (Nat.add_0_r (length _)) at 1. rewrite insert_app_r.
      by rewrite <- app_assoc. }
    cbv [mbind res_mbind]. rewrite length_app. simpl. rewrite Nat.add_1_r. fold n. rewrite Hl.
    unfold busy_ranks. rewrite (take_S_r _ _ r), filter_app, length_app, filter_cons by done.
    destruct (isAvailable r) eqn:Ea; cbn [negb].
    + eexists. split; [reflexivity|]. rewrite decide_False by congruence. simpl.
      rewrite drain_rank_idle, Nat.add_0_r, list_insert_id by
        (done || (rewrite lookup_app_r, Hn, Nat.sub_diag, lookup_drop, Nat.add_0_r by lia; done)). done.
    + rewrite checkDrainDone_ok by (intros; apply Hd; [by eapply list_elem_of_lookup_2|done]).
      eexists. split; [reflexivity|]. rewrite decide_True by done. simpl. unfold put_rank. simpl.
      rewrite Nat2Z.id. f_equal. lia.
  - rewrite length_seqZ, Nat2Z.id, take_ge, drop_ge, app_nil_r by lia. done.
Qed.

Lemma drain_rank_kept now r :
  banks (drain_rank now r) = banks r ∧ refreshState (drain_rank now r) ≠ REF_DRAIN ∧
  (∀ c, rank_ok c r → rank_ok c (drain_rank now r)).
Proof.
  unfold drain_rank. case_bool_decide; [|done]. split_and!; [done|done|]. intros c []. by split.
Qed.

Lemma ctrl_ok_drain now s : ctrl_ok s → ctrl_ok (set_ranks (drain_rank now <$> ranks s) s).
Proof.
  intros [[G1 G2 G3 G4 G5] ???????? Hresp ?????]. split; simpl; try done.
  - split; simpl; [done|done| |by rewrite length_fmap|done].
    apply Forall_fmap. eapply Forall_impl; [done|]. intros r. apply drain_rank_kept.
  - intros p Hp r' k (r & -> & Hr)%list_elem_of_fmap. destruct (drain_rank_kept now r) as (-> & _).
    by apply (Hresp p Hp r k).
  - intros r' (r & -> & Hr)%list_elem_of_fmap. by destruct (drain_rank_kept now r) as (_ & ? & _).
Qed.

Lemma ticks_ok_drain now s : ticks_ok now s → ticks_ok now (set_ranks (drain_rank now <$> ranks s) s).
Proof.
  intros [? ? Hb]. split; simpl; [done|done|]. intros r' k (r & -> & Hr)%list_elem_of_fmap.
  destruct (drain_rank_kept now r) as (-> & _). by apply Hb.
Qed.

Lemma turn_around_ok now s :
  ctrl_ok s → ticks_ok now s → let s' := (turn_around s).1 in
  ctrl_ok s' ∧ ticks_ok now s' ∧
  busState s' = (match busState s with READ | WRITE_TO_READ => READ | _ => WRITE end).
Proof.
  intros [G1 G2 G3 G4 G5 G6 G7 G8 G9 G10 G11 G12 G13 G14 G15] [T1 T2 T3]. unfold turn_around.
  destruct (busState s) eqn:E; simpl.
  all: split; [|split; [split; simpl; done|done]].
  all: split; simpl; try done; try (destruct G1; by split).
  - by rewrite E.
  - intros _. apply G8. by right.
  - rewrite E. intros _. apply G8. by left.
  - intros [?|?]; done.
Qed.

(** ** One access *)

Lemma packet_place now s dp :
  ctrl_ok s → ticks_ok now s → servable (cfg s) dp →
  ∃ r k, access_ready now s dp r k ∧ r = rank_at s (DRAMPacket.rank dp).
Proof.
  intros Hc [T1 T2 T3] [[Hco _] Hrow _ _]. destruct Hc as [[_ _ Hr Hn _] [Hw _] _ Hb _ _ _ _ _ _ _ _ _ _ _].
  destruct Hco as [Hi Hj]. simpl in Hi, Hj.
  destruct (lookup_lt_is_Some_2 (ranks s) (Z.to_nat (DRAMPacket.rank dp))) as [r Hlr]; [lia|].
  assert (rank_ok (cfg s) r) as Hrk by (by eapply Forall_lookup_1).
  destruct (lookup_lt_is_Some_2 (banks r) (Z.to_nat (DRAMPacket.bank dp))) as [k Hk];
    [pose proof (ro_banks _ _ Hrk); lia|].
  exists r, k. split; [|unfold rank_at; by rewrite Hlr].
  split; [done|done|split; [lia|done]|split; [lia|done]|done| | |].
  - eapply bank_fits_mono; [done|apply (T3 r k); by eapply list_elem_of_lookup_2|lia].
  - by eapply fits_mono.
  - split; [done|]. by eapply fits_mono.
Qed.

(** What serving a packet does to the controller. *)
Record served (now : Tick) (s : DRAMCtrl) (dp : DRAMPacket) (ready : Tick) (s' : DRAMCtrl) : Prop := {
  sd_frame : access_frame s' = access_frame s;
  sd_pending : pendingRowOps s' = pendingRowOps s - if DRAMPacket.is_row_op dp then 1 else 0;
  sd_ranks : ranks_kept (cfg s) (ranks s) (ranks s');
  sd_bus : tCL (tm (cfg s)) ≤ busBusyUntil s';
  sd_ready : now ≤ ready;
  sd_cols : DRAMPacket.is_row_op dp = false → cols_from (ready - tCL (tm (cfg s))) (ranks s');
  sd_after : ∀ e, DRAMPacket.is_row_op dp = false → cols_from (e - tCL (tm (cfg s))) (ranks s) → e ≤ ready;
}.

Lemma bubble_ok now sw dp d s :
  timing_wf (cfg s) → ticks_ok now s → 0 ≤ d ≤ span (cfg s) →
  ∃ bus, bubble sw dp d s = set_busBusyUntil bus s ∧ busBusyUntil s ≤ bus ∧ fits (cfg s) 9 bus.
Proof.
  intros Hw [_ Hb _] Hd. unfold bubble. destruct (_ && _).
  - rewrite (fits_add64 (cfg s)) by (done || (by eapply fits_mono)).
    eexists. split; [done|]. split; [lia|]. by apply (fits_add _ 9).
  - exists (busBusyUntil s). split; [by destruct s|]. split; [lia|]. by eapply fits_mono.
Qed.

Lemma access_ready_bus now s dp r k bus :
  access_ready now s dp r k → busBusyUntil s ≤ bus → fits (cfg s) 9 bus →
  access_ready now (set_busBusyUntil bus s) dp r k.
Proof. intros [? ? ? ? ? ? ? [? ?]] ? ?. split; try done. split; simpl; [lia|done]. Qed.

Lemma col_time_from c now row k :
  0 ≤ tRCD (tm c) → colAllowedAt k ≤ col_time c now row k ∧ now ≤ col_time c now row k.
Proof. unfold col_time, act_time. case_decide; lia. Qed.

Lemma serve_access now s sw dp d :
  ctrl_ok s → ticks_ok now s → servable (cfg s) dp → 0 ≤ d ≤ span (cfg s) →
  ∃ s' ready, doDRAMAccess now (bubble sw dp d s) dp = Ok (s', DRAMPacket.set_readyTime ready dp) ∧
    served now s dp ready s'.
Proof.
  intros Hc Ht Hs Hd. destruct (packet_place now s dp Hc Ht Hs) as (r & k & Ha & _).
  pose proof (co_timing _ Hc) as [Hw Hccd]. destruct (bubble_ok now sw dp d s Hw Ht Hd) as (bus & -> & Hle & Hf).
  pose proof (access_ready_bus _ _ _ _ _ _ Ha Hle Hf) as Ha'. unfold doDRAMAccess.
  pose proof (co_bus _ Hc) as Hb. assert (0 ≤ tBURST (tm (cfg s)) ∧ 0 ≤ tCL (tm (cfg s)) ∧ 0 ≤ tRCD (tm (cfg s)))
    by (destruct Hw as [_ ? _]; lia).
  destruct (DRAMPacket.is_row_op dp) eqn:Eop.
  - destruct (sv_op _ _ Hs Eop) as [o Ho].
    destruct (do_row_op_ok _ _ _ _ _ o Ha' Ho) as (s' & r' & t' & -> & [F B _ _ K] & Hp & _ & Hl & _).
    change (cfg (set_busBusyUntil bus s)) with (cfg s) in *. exists s', (t' + tCL (tm (cfg s))). split; [done|].
    pose proof (steps_time_nonneg (cfg s) (packet_steps o dp) Hw).
    pose proof (tk_now _ _ Ht) as [? _]. unfold rowop_start in Hl.
    split; [done|by rewrite Eop|done|lia|lia|congruence|congruence].
  - destruct (do_burst_ok _ _ _ _ _ Ha' Hccd) as (s' & -> & [F B _ _ K] & Hcols & Hp).
    simpl in *. unfold burst_cmd in *. simpl in *.
    set (ct := col_time (cfg s) now (DRAMPacket.row dp) k) in *.
    pose proof (col_time_from (cfg s) now (DRAMPacket.row dp) k ltac:(lia)) as [Hct Hnow]. fold ct in Hct, Hnow.
    eexists _, _. split; [reflexivity|]. split; [done|rewrite Eop; lia|done|lia|lia| |].
    + intros _. by replace (_ - _) with (Z.max ct (bus - tCL (tm (cfg s))) + tBURST (tm (cfg s))) by lia.
    + intros e _ He. pose proof (cols_from_bank _ _ _ _ _ _ He Ha). lia.
Qed.

Lemma helper_ok_same H p p' l :
  DRAMPacket.pkt p' = DRAMPacket.pkt p → DRAMPacket.burstHelper p' = DRAMPacket.burstHelper p →
  helper_ok H (p :: l) → helper_ok H (p' :: l).
Proof.
  intros E1 E2 [Hc Hk [Hs Hs']].
  assert (∀ h, has_helper h p' ↔ has_helper h p) as Eh by (intros; unfold has_helper; by rewrite E2).
  split.
  - intros h b Hb. specialize (Hc h b Hb). rewrite count_helper_cons in *.
    by rewrite (decide_ext _ _ _ _ (Eh h)).
  - intros dp h [->|Hdp]%elem_of_cons Hh; [eapply (Hk p); [set_solver|by apply Eh]|].
    eapply Hk; [|done]. set_solver.
  - split; [|done]. eapply Forall_impl; [done|]. intros q. unfold same_packet. rewrite E1.
    by setoid_rewrite Eh.
Qed.

Lemma ranks_kept_draining c l l' :
  ranks_kept c l l' → (∀ r, r ∈ l → refreshState r = REF_DRAIN → refreshEvent r = None) →
  ∀ r, r ∈ l' → refreshState r = REF_DRAIN → refreshEvent r = None.
Proof.
  intros Hk H r' [i Hi]%list_elem_of_lookup_1.
  destruct (Forall2_lookup_r _ _ _ _ _ Hk Hi) as (r & Hr & _ & Ec & _).
  unfold control in Ec. injection Ec as _ _ _ Es _ _ Ee _ _. rewrite Es, Ee. apply H.
  by eapply list_elem_of_lookup_2.
Qed.

Lemma ranks_kept_geometry s s' :
  geometry_ok s → cfg s' = cfg s → ranks_kept (cfg s) (ranks s) (ranks s') → geometry_ok s'.
Proof.
  intros [? ? ? Hn ?] Ec Hk. split; rewrite ?Ec; [done|done|by eapply ranks_kept_ok| |done].
  by rewrite <- Hn, <- (Forall2_length _ _ _ Hk).
Qed.

(** ** Serving a read *)

Lemma ctrl_ok_reads s q : ctrl_ok s → q ≡ₚ readQueue s → ctrl_ok (set_readQueue q s).
Proof.
  intros [G1 G2 G3 G4 G5 G6 G7 G8 G9 G10 G11 G12 G13 G14 G15] Hq.
  split; simpl; try done; [by destruct G1|by rewrite Hq| |].
  - eapply helper_ok_perm; [|done]. unfold outstanding. simpl. by rewrite Hq.
  - unfold queued_reads in *. simpl. by rewrite Hq.
Qed.

Lemma ctrl_ok_writes s q : ctrl_ok s → q ≡ₚ writeQueue s → ctrl_ok (set_writeQueue q s).
Proof.
  intros [G1 G2 G3 G4 G5 G6 G7 G8 G9 G10 G11 G12 G13 G14 G15] Hq.
  split; simpl; try done; [by destruct G1|by rewrite Hq|by rewrite G7; apply row_ops_perm| |].
  - intros Hb ->. apply (G8 Hb). by apply Permutation_nil_l in Hq.
  - intros a (p & Hp & ?)%G14. exists p. simpl. by rewrite Hq.
Qed.

Lemma ticks_ok_reads now s q : ticks_ok now s → ticks_ok now (set_readQueue q s).
Proof. intros []. by split. Qed.
Lemma ticks_ok_writes now s q : ticks_ok now s → ticks_ok now (set_writeQueue q s).
Proof. intros []. by split. Qed.

(** The state after a read has been served, before the bus is turned. *)
Definition read_served (p : DRAMPacket) (q : list DRAMPacket) (e : Event) (s : DRAMCtrl) : DRAMCtrl :=
  set_respQueue (respQueue s ++ [p]) (set_respondEvent e (set_readQueue q s)).

Lemma push_response_ok now p s :
  respondEvent s = DRAMPacket.readyTime <$> head (respQueue s) →
  (∀ q, q ∈ respQueue s → DRAMPacket.readyTime q ≤ DRAMPacket.readyTime p) →
  now ≤ DRAMPacket.readyTime p →
  push_response now p s = Ok (set_respQueue (respQueue s ++ [p])
    (set_respondEvent (DRAMPacket.readyTime <$> head (respQueue s ++ [p])) s)).
Proof.
  intros He Hle Hnow. unfold push_response. destruct (respQueue s) as [|p0 l] eqn:El.
  - simpl in *. rewrite He, schedule_ok by done. simpl. by rewrite El.
  - destruct (last (p0 :: l)) as [b|] eqn:Eb; [|by apply last_None in Eb].
    rewrite (proj2 (Z.leb_le _ _)) by (apply Hle; by apply last_Some_elem_of). simpl in *.
    rewrite He. simpl. rewrite El. f_equal. destruct s. simpl in *. by subst.
Qed.

Lemma StronglySorted_snoc {A} (R : A → A → Prop) l x :
  StronglySorted R l → (∀ y, y ∈ l → R y x) → StronglySorted R (l ++ [x]).
Proof.
  intros Hs Hx. induction Hs as [|y l Hs IH Hy]; simpl; [by repeat constructor|].
  constructor; [apply IH; intros; apply Hx; set_solver|].
  apply Forall_app. split; [done|]. constructor; [apply Hx; set_solver|done].
Qed.

Lemma ctrl_ok_read_served now s p q ready s1 :
  ctrl_ok s → readQueue s ≡ₚ p :: q → DRAMPacket.is_row_op p = false →
  served now s p ready s1 → let p' := DRAMPacket.set_readyTime ready p in
  ctrl_ok (read_served p' q (DRAMPacket.readyTime <$> head (respQueue s ++ [p'])) s1).
Proof.
  intros [G1 [G2 G2'] G3 G4 G5 G6 G7 G8 G9 G10 G11 G12 G13 G14 G15] Hq Hop [F P K B R C A] p'.
  unfold access_frame in F.
  injection F as F1 F2 F3 F4 F5 F6 F7 F8 F9 F10 F11 F12 F13 F14 F15 F16 F17 F18 F19 F20.
  rewrite Hop, Z.sub_0_r in P. unfold read_served. specialize (C Hop). rewrite F14.
  rewrite Hq in G5. apply Forall_cons in G5 as [_ G5].
  assert (∀ x, x ∈ respQueue s → DRAMPacket.readyTime x ≤ ready) as Hle by (intros; by apply A, G10).
  split; simpl; rewrite ?F1, ?F8, ?F12, ?F13, ?P; try done.
  - eapply ranks_kept_geometry; [done|done|done].
  - by apply StronglySorted_snoc.
  - intros x. rewrite elem_of_app, list_elem_of_singleton. intros [Hx| ->]; [by eapply cols_from_kept; [apply G10|]|done].
  - unfold outstanding. simpl. rewrite F15. eapply (helper_ok_perm _ (p' :: q ++ respQueue s)); [|eapply (helper_ok_same _ p p')].
    + rewrite app_assoc. apply Permutation_cons_append.
    + done.
    + done.
    + eapply helper_ok_perm; [|exact G12]. unfold outstanding. by rewrite Hq.
  - unfold queued_reads in *. simpl in *. rewrite length_app. simpl. rewrite Hq in G13. simpl in G13. lia.
  - intros a. simpl. rewrite F12, F13, F1. apply G14.
  - by eapply ranks_kept_draining.
Qed.

Lemma ctrl_sched_ok now s q :
  ctrl_ok s → ticks_ok now s → Forall (servable (cfg s)) q → sched_ok now s q.
Proof.
  intros [[_ _ Gr Gn Gs] [G2 _] _ _ _ _ _ _ _ _ _ _ _ _ _] [T1 _ T3] Hq.
  split; [done|done|done|done|by eapply fits_mono| |].
  - intros r k Hr Hk. eapply bank_fits_mono; [done|by apply (T3 r)|lia].
  - eapply Forall_impl; [done|]. by intros p [].
Qed.

(** The arbitration, in the form the handler uses it. *)
Lemma choose_ok now s q extra :
  ctrl_ok s → ticks_ok now s → Forall (servable (cfg s)) q → q ≠ [] →
  (∃ q1 p q2, q = q1 ++ p :: q2 ∧ avail s p = true ∧
     chooseNext now s q extra = Ok (true, p :: q1 ++ q2)) ∨
  ((∀ p, p ∈ q → avail s p = false) ∧ chooseNext now s q extra = Ok (false, q)).
Proof.
  intros Hc Ht Hq Hne. pose proof (ctrl_sched_ok now s q Hc Ht Hq) as Hs.
  destruct (chooseNext_ok now s q extra Hs Hne) as ([i|] & (Hx & Ha & E) & _).
  - left. destruct (Ha i eq_refl) as (p & Hp & Hav). exists (take i q), p, (drop (S i) q).
    split; [by rewrite take_drop_middle|]. split; [done|]. rewrite E. unfold front.
    by rewrite Hp, delete_take_drop.
  - right. split; [|done]. intros p Hp. destruct (avail s p) eqn:Ep; [|done].
    assert (is_Some (@None nat)) as [? ?] by (apply Hx; by exists p). done.
Qed.

Definition reads_full (s : DRAMCtrl) : bool :=
  (writeHighThreshold (cfg s) <? Z.of_nat (length (writeQueue s))) || (0 <? pendingRowOps s).

(** What serving a read does to the queues. *)
Record read_done (now : Tick) (s : DRAMCtrl) (q1 : list DRAMPacket) (p : DRAMPacket) (q2 : list DRAMPacket)
    (s' : DRAMCtrl) : Prop := {
  rd_read : readQueue s' = q1 ++ q2;
  rd_resp : ∃ ready, now ≤ ready ∧ respQueue s' = respQueue s ++ [DRAMPacket.set_readyTime ready p];
  rd_write : writeQueue s' = writeQueue s ∧ pendingRowOps s' = pendingRowOps s ∧
    isInWriteQueue s' = isInWriteQueue s;
  rd_bus : busState s' = if reads_full s then READ_TO_WRITE else READ;
  rd_ranks : ranks_kept (cfg s) (ranks s) (ranks s');
  rd_frame : cfg s' = cfg s ∧ nextReqEvent s' = nextReqEvent s ∧ drain_state s' = drain_state s ∧
    mem s' = mem s ∧ packets s' = packets s ∧ port s' = port s;
}.

Lemma ctrl_ok_to_write s : ctrl_ok s → writeQueue s ≠ [] → ctrl_ok (set_busState READ_TO_WRITE s).
Proof.
  intros [G1 G2 G3 G4 G5 G6 G7 G8 G9 G10 G11 G12 G13 G14 G15] Hne. split; simpl; try done. by destruct G1.
Qed.

Lemma reads_full_writes s : ctrl_ok s → reads_full s = true → writeQueue s ≠ [].
Proof.
  intros [_ _ [Hh _] _ _ _ Hp _ _ _ _ _ _ _ _] [H%Z.ltb_lt|H%Z.ltb_lt]%orb_true_iff E;
    rewrite ?Hp, E in H; simpl in H; [lia|done].
Qed.

Lemma rank_at_get s i :
  geometry_ok s → 0 ≤ i < ranksPerChannel (cfg s) → get_rank s i = Ok (rank_at s i).
Proof.
  intros [_ _ _ Hn _] Hi. destruct (lookup_lt_is_Some_2 (ranks s) (Z.to_nat i)) as [r Hr]; [lia|].
  rewrite (get_rank_ok s i r) by (lia || done). unfold rank_at. by rewrite Hr.
Qed.

Lemma serve_read_ok now sw s :
  ctrl_ok s → ticks_ok now s → busState s = READ → readQueue s ≠ [] →
  (∃ q1 p q2 s', readQueue s = q1 ++ p :: q2 ∧ avail s p = true ∧
     serve_read now sw s = Ok (s', true) ∧ ctrl_ok s' ∧ read_done now s q1 p q2 s') ∨
  ((∀ p, p ∈ readQueue s → avail s p = false) ∧ serve_read now sw s = Ok (s, false)).
Proof.
  intros Hc Ht Hb Hne. unfold serve_read. pose proof (co_timing _ Hc) as [Hw _].
  assert (Forall (servable (cfg s)) (readQueue s)) as Hsv
    by (eapply Forall_impl; [apply (co_reads _ Hc)|]; by intros ? []).
  destruct (choose_ok now s (readQueue s) (if sw then tCS (tm (cfg s)) else 0) Hc Ht Hsv Hne)
    as [(q1 & p & q2 & Eq & Hav & ->)|(Hno & ->)]; cbv [mbind res_mbind]; cbn [negb].
  2: { right. split; [done|]. f_equal. f_equal. by destruct s. }
  left. exists q1, p, q2. assert (p :: q1 ++ q2 ≡ₚ readQueue s) as Hq by (rewrite Eq; solve_Permutation).
  set (s1 := set_readQueue (p :: q1 ++ q2) s). pose proof (ctrl_ok_reads s _ Hc Hq) as Hc1. fold s1 in Hc1.
  pose proof (ticks_ok_reads now s (p :: q1 ++ q2) Ht) as Ht1. fold s1 in Ht1.
  assert (servable (cfg s1) p ∧ DRAMPacket.is_row_op p = false) as [Hp Hop].
  { pose proof (co_reads _ Hc) as H. rewrite Eq in H. by apply Forall_app in H as [_ [H _]%Forall_cons]. }
  pose proof Hp as [[[Hi _] _] _ Hsz _]. simpl in Hi, Hsz.
  rewrite (rank_at_get s1) by (apply Hc1 || done).
  change (isAvailable (rank_at s1 _)) with (avail s p). rewrite Hav. cbn [check].
  assert (add64 (tWTR (tm (cfg s))) (tCL (tm (cfg s))) = tWTR (tm (cfg s)) + tCL (tm (cfg s))) as Hd.
  { apply add64_small. pose proof (tk_now _ _ Ht) as [? ?].
    assert (0 ≤ tWTR (tm (cfg s)) + tCL (tm (cfg s)) ≤ span (cfg s)) by delay. lia. }
  change (cfg s1) with (cfg s). rewrite Hd.
  destruct (serve_access now s1 sw p (tWTR (tm (cfg s)) + tCL (tm (cfg s))) Hc1 Ht1 Hp)
    as (s2 & ready & -> & Hsd); [change (cfg s1) with (cfg s); delay|].
  pose proof (ctrl_ok_read_served now s1 p (q1 ++ q2) ready s2 Hc1 (reflexivity _) Hop Hsd) as Hc3.
  destruct Hsd as [F P K B R C A]. unfold access_frame in F.
  injection F as F1 F2 F3 F4 F5 F6 F7 F8 F9 F10 F11 F12 F13 F14 F15 F16 F17 F18 F19 F20. simpl in *.
  rewrite Hop, Z.sub_0_r in P. rewrite F1, !(proj2 (Z.leb_le _ _)) by done. cbn [check assert_].
  rewrite F11. simpl tail. set (p' := DRAMPacket.set_readyTime ready p) in *.
  rewrite push_response_ok; simpl.
  2: { rewrite F10, F14. apply (co_respond _ Hc). }
  2: { rewrite F14. intros x Hx. apply A; [done|]. by apply (co_resp _ Hc). }
  2: { done. }
  rewrite F14. set (s3 := set_respQueue _ _). unfold read_served in Hc3. rewrite F14 in Hc3.
  fold s3 in Hc3.
  assert (reads_full s3 = reads_full s) as Hf by (unfold reads_full; simpl; by rewrite F1, F12, P).
  change (_ || _) with (reads_full s3). rewrite Hf. eexists. split_and!; [done|done|reflexivity| |].
  - destruct (reads_full s) eqn:Ef; [|done]. apply ctrl_ok_to_write; [done|]. by apply reads_full_writes.
  - assert (read_done now s q1 p q2 (if reads_full s then set_busState READ_TO_WRITE s3 else s3)); [|done].
    destruct (reads_full s) eqn:Ef.
    all: split; simpl; rewrite ?F1, ?F2, ?F3, ?F4, ?F9, ?F12, ?F13, ?F19, ?P, ?Ef; try done.
    all: try (by exists ready). by rewrite F8, Hb.
Qed.

(** ** Serving a write or a row operation *)

(** What serving a write does to the queues. *)
Record write_done (s : DRAMCtrl) (q1 : list DRAMPacket) (p : DRAMPacket) (q2 : list DRAMPacket)
    (s' : DRAMCtrl) : Prop := {
  wd_write : writeQueue s' = q1 ++ q2;
  wd_pending : pendingRowOps s' = pendingRowOps s - if DRAMPacket.is_row_op p then 1 else 0;
  wd_set : isInWriteQueue s' = isInWriteQueue s ∖ {[ burstAlign (cfg s) (DRAMPacket.addr p) ]};
  wd_read : readQueue s' = readQueue s ∧ respQueue s' = respQueue s;
  wd_bus : busState s' = if back_to_reads s' then WRITE_TO_READ else WRITE;
  wd_ranks : ranks_kept (cfg s) (ranks s) (ranks s');
  wd_frame : cfg s' = cfg s ∧ nextReqEvent s' = nextReqEvent s ∧ drain_state s' = drain_state s ∧
    mem s' = mem s ∧ packets s' = packets s ∧ port s' = port s;
}.

Definition write_served (p : DRAMPacket) (q : list DRAMPacket) (s : DRAMCtrl) : DRAMCtrl :=
  set_isInWriteQueue (isInWriteQueue s ∖ {[ burstAlign (cfg s) (DRAMPacket.addr p) ]}) (set_writeQueue q s).

Definition turn_back (s : DRAMCtrl) : DRAMCtrl :=
  if back_to_reads s then set_busState WRITE_TO_READ s else s.

Lemma back_to_reads_empty s : ctrl_ok s → writeQueue s = [] → back_to_reads s = true.
Proof.
  intros Hc E. unfold back_to_reads. by rewrite (co_pending _ Hc), E.
Qed.

Lemma ctrl_ok_write_served now s p q ready s1 :
  ctrl_ok s → writeQueue s ≡ₚ p :: q → busState s = WRITE → served now s p ready s1 →
  ctrl_ok (turn_back (write_served p q s1)).
Proof.
  intros [G1 [G2 G2'] G3 G4 G5 G6 G7 G8 G9 G10 G11 G12 G13 G14 G15] Hq Hb [F P K B R C A].
  unfold access_frame in F.
  injection F as F1 F2 F3 F4 F5 F6 F7 F8 F9 F10 F11 F12 F13 F14 F15 F16 F17 F18 F19 F20.
  rewrite Hq in G6. apply Forall_cons in G6 as [_ G6].
  rewrite (row_ops_perm _ _ Hq), row_ops_cons in G7.
  assert (∀ st, (st = WRITE ∨ st = READ_TO_WRITE → q ≠ []) →
    ctrl_ok (set_busState st (write_served p q s1))) as H.
  { intros st Hst. unfold write_served. split; simpl; rewrite ?F1, ?F11, ?F14, ?F15, ?P; try done.
    - eapply ranks_kept_geometry; [done|done|done].
    - lia.
    - intros x Hx. eapply cols_from_kept; [by apply G10|done].
    - by rewrite F10.
    - unfold outstanding. simpl. by rewrite F11, F14.
    - unfold queued_reads in *. simpl. by rewrite F11, F14.
    - intros a. simpl. rewrite F13, F1. intros [Ha Hn]%elem_of_difference.
      destruct (G14 a Ha) as (x & Hx & Hx1 & Hx2). exists x. split_and!; [|done|done].
      rewrite Hq in Hx. apply elem_of_cons in Hx as [->|Hx]; [|done].
      rewrite Hx2 in Hn. set_solver.
    - by eapply ranks_kept_draining. }
  unfold turn_back. destruct (back_to_reads _) eqn:Eb.
  - apply H. by intros [?|?].
  - assert (write_served p q s1 = set_busState WRITE (write_served p q s1)) as ->
      by (unfold write_served; destruct s1; simpl in *; by rewrite F8, Hb).
    apply H. intros _ ->. unfold back_to_reads in Eb. simpl in Eb. rewrite P in Eb.
    unfold row_ops in G7. simpl in G7. rewrite (proj2 (Z.eqb_eq _ _)) in Eb by lia. done.
Qed.

Lemma serve_write_ok now sw s :
  ctrl_ok s → ticks_ok now s → busState s = WRITE →
  (∃ q1 p q2 s', writeQueue s = q1 ++ p :: q2 ∧ avail s p = true ∧
     serve_write now sw s = Ok (s', true) ∧ ctrl_ok s' ∧ write_done s q1 p q2 s') ∨
  ((∀ p, p ∈ writeQueue s → avail s p = false) ∧ serve_write now sw s = Ok (s, false)).
Proof.
  intros Hc Ht Hb. unfold serve_write. pose proof (co_timing _ Hc) as [Hw _].
  pose proof (co_writes _ Hc) as Hsv. assert (writeQueue s ≠ []) as Hne by (apply (co_turn _ Hc); by left).
  destruct (choose_ok now s (writeQueue s) (if sw then Z.min (tRTW (tm (cfg s))) (tCS (tm (cfg s))) else 0)
    Hc Ht Hsv Hne) as [(q1 & p & q2 & Eq & Hav & ->)|(Hno & ->)]; cbv [mbind res_mbind]; cbn [negb].
  2: { right. split; [done|]. f_equal. f_equal. by destruct s. }
  left. exists q1, p, q2. assert (p :: q1 ++ q2 ≡ₚ writeQueue s) as Hq by (rewrite Eq; solve_Permutation).
  set (s1 := set_writeQueue (p :: q1 ++ q2) s). pose proof (ctrl_ok_writes s _ Hc Hq) as Hc1. fold s1 in Hc1.
  pose proof (ticks_ok_writes now s (p :: q1 ++ q2) Ht) as Ht1. fold s1 in Ht1.
  assert (servable (cfg s1) p) as Hp.
  { rewrite Eq in Hsv. by apply Forall_app in Hsv as [_ [H _]%Forall_cons]. }
  pose proof Hp as [[[Hi _] _] _ Hsz _]. simpl in Hi, Hsz.
  rewrite (rank_at_get s1) by (apply Hc1 || done).
  change (isAvailable (rank_at s1 _)) with (avail s p). rewrite Hav. cbn [check].
  change (cfg s1) with (cfg s). rewrite (proj2 (Z.leb_le _ _)) by done. cbn [check].
  destruct (serve_access now s1 sw p (tRTW (tm (cfg s))) Hc1 Ht1 Hp)
    as (s2 & ready & -> & Hsd); [change (cfg s1) with (cfg s); delay|].
  pose proof (ctrl_ok_write_served now s1 p (q1 ++ q2) ready s2 Hc1 (reflexivity _) Hb Hsd) as Hc3.
  destruct Hsd as [F P K B R C A]. unfold access_frame in F.
  injection F as F1 F2 F3 F4 F5 F6 F7 F8 F9 F10 F11 F12 F13 F14 F15 F16 F17 F18 F19 F20. simpl in *.
  rewrite F12. simpl tail. eexists. split_and!; [done|done|reflexivity|exact Hc3|].
  assert (write_done s q1 p q2 (turn_back (write_served p (q1 ++ q2) s2))); [|done].
  unfold turn_back. destruct (back_to_reads _) eqn:Eb.
  all: split; simpl; rewrite ?F1, ?F2, ?F3, ?F4, ?F9, ?F13, ?F19, ?P; try done.
  all: unfold back_to_reads in *; simpl in *; by rewrite ?Eb, ?F8.
Qed.

(** ** One run of the handler *)

Definition reading (s : DRAMCtrl) : Prop := busState s = READ ∨ busState s = WRITE_TO_READ.
Definition writing (s : DRAMCtrl) : Prop := busState s = WRITE ∨ busState s = READ_TO_WRITE.

(** The condition to serve writes when there are no reads. *)
Definition wants_writes (s : DRAMCtrl) : bool :=
  negb (bool_decide (writeQueue s = [])) &&
  (bool_decide (drain_state s = Draining)
   || (writeLowThreshold (cfg s) <? Z.of_nat (length (writeQueue s))) || (0 <? pendingRowOps s)).

Definition reads_kept (s s' : DRAMCtrl) : Prop :=
  readQueue s' = readQueue s ∧ respQueue s' = respQueue s.
Definition writes_kept (s s' : DRAMCtrl) : Prop :=
  writeQueue s' = writeQueue s ∧ pendingRowOps s' = pendingRowOps s ∧ isInWriteQueue s' = isInWriteQueue s.

(** The handler has scheduled itself again. *)
Definition continues (now : Tick) (s' : DRAMCtrl) : Prop :=
  ∃ t, nextReqEvent s' = Some t ∧ now ≤ t.

(** Every rank is refreshing, or every rank that has a request of the bus direction. *)
Definition stalled (s : DRAMCtrl) : Prop :=
  (∀ r, r ∈ ranks s → isAvailable r = false) ∨
  let q := if bool_decide (reading s) then readQueue s else writeQueue s in
  q ≠ [] ∧ ∀ p, p ∈ q → avail s p = false.

(** The outcomes of [processNextReqEvent]: a read is served, a write or row operation
    is served, the bus is turned to writes, there is nothing to do, or the requests
    wait for a refresh. *)
Inductive request_step (now : Tick) (s s' : DRAMCtrl) : Prop :=
  | rq_read q1 p q2 ready :
      reading s → readQueue s = q1 ++ p :: q2 → avail s p = true →
      readQueue s' = q1 ++ q2 → now ≤ ready →
      respQueue s' = respQueue s ++ [DRAMPacket.set_readyTime ready p] → writes_kept s s' →
      busState s' = (if reads_full s then READ_TO_WRITE else READ) →
      drain_state s' = drain_state s → continues now s' → request_step now s s'
  | rq_write q1 p q2 :
      writing s → writeQueue s = q1 ++ p :: q2 → avail s p = true →
      writeQueue s' = q1 ++ q2 →
      pendingRowOps s' = pendingRowOps s - (if DRAMPacket.is_row_op p then 1 else 0) →
      isInWriteQueue s' = isInWriteQueue s ∖ {[ burstAlign (cfg s) (DRAMPacket.addr p) ]} →
      reads_kept s s' → busState s' = (if back_to_reads s' then WRITE_TO_READ else WRITE) →
      drain_state s' = drain_state s → continues now s' → request_step now s s'
  | rq_turn :
      reading s → readQueue s = [] → wants_writes s = true → reads_kept s s' → writes_kept s s' →
      busState s' = READ_TO_WRITE → drain_state s' = drain_state s → continues now s' →
      request_step now s s'
  | rq_idle :
      reading s → readQueue s = [] → wants_writes s = false → reads_kept s s' → writes_kept s s' →
      busState s' = READ →
      drain_state s' = (if bool_decide (drain_state s = Draining) && bool_decide (respQueue s = [])
                        then Drained else drain_state s) →
      nextReqEvent s' = None → request_step now s s'
  | rq_stall :
      stalled s →
      reads_kept s s' → writes_kept s s' → drain_state s' = drain_state s →
      nextReqEvent s' = None → request_step now s s'.

Lemma busy_ranks_all l :
  busy_ranks l = Z.of_nat (length l) → ∀ r, r ∈ l → isAvailable r = false.
Proof.
  unfold busy_ranks. induction l as [|r0 l IH]; intros H r; [by intros ?%elem_of_nil|].
  rewrite filter_cons in H. pose proof (length_filter (λ r, isAvailable r = false) l).
  case_decide; simpl length in H; [|lia]. intros [->|Hr]%elem_of_cons; [done|]. apply IH; [lia|done].
Qed.

(** The state in which the request is chosen. *)
Definition turned (now : Tick) (s : DRAMCtrl) : DRAMCtrl * bool :=
  turn_around (set_ranks (drain_rank now <$> ranks s) s).

Lemma turned_frame now s :
  let s1 := (turned now s).1 in
  reads_kept s s1 ∧ writes_kept s s1 ∧ cfg s1 = cfg s ∧ drain_state s1 = drain_state s ∧
  nextReqEvent s1 = nextReqEvent s ∧ (mem s1, packets s1, port s1) = (mem s, packets s, port s) ∧
  ranks s1 = drain_rank now <$> ranks s.
Proof. unfold turned, turn_around. simpl. by destruct (busState s). Qed.

Lemma turned_avail now s p : avail (turned now s).1 p = avail s p.
Proof.
  destruct (turned_frame now s) as (_ & _ & Ec & _ & _ & _ & Er). unfold avail, rank_at.
  rewrite Ec, Er, list_lookup_fmap. destruct (ranks s !! _) as [r|]; simpl; [|done].
  apply isAvailable_drain.
Qed.

Lemma turned_ok now s :
  ctrl_ok s → ticks_ok now s → let s1 := (turned now s).1 in
  ctrl_ok s1 ∧ ticks_ok now s1 ∧ (reading s → busState s1 = READ) ∧ (writing s → busState s1 = WRITE).
Proof.
  intros Hc Ht. destruct (turn_around_ok now (set_ranks (drain_rank now <$> ranks s) s)) as (? & ? & E);
    [by apply ctrl_ok_drain|by apply ticks_ok_drain|].
  split_and!; [done|done| |]; intros [Eb|Eb]; unfold turned; rewrite E; simpl; by rewrite Eb.
Qed.

Lemma next_request_ok now s :
  nextReqEvent s = None → ∃ s', next_request now s = Ok s' ∧ continues now s' ∧
    (ctrl_ok s → ctrl_ok s') ∧ reads_kept s s' ∧ writes_kept s s' ∧ busState s' = busState s ∧
    drain_state s' = drain_state s ∧ ranks s' = ranks s ∧ cfg s' = cfg s ∧ back_to_reads s' = back_to_reads s ∧
    (mem s', packets s', port s') = (mem s, packets s, port s).
Proof.
  intros E. unfold next_request. rewrite E. simpl. rewrite schedule_ok by lia. simpl.
  assert (∀ s', ctrl_ok s → cfg s' = cfg s → ranks s' = ranks s → geometry_ok s') as Hg.
  { intros s' [[] _ _ _ _ _ _ _ _ _ _ _ _ _ _] E1 E2. split; by rewrite ?E1, ?E2. }
  destruct (_ && _); (eexists; split; [reflexivity|]);
    (split; [eexists; split; [done|lia]|]); (split; [|done]); intros Hc; pose proof (λ s', Hg s' Hc) as Hg'.
  all: destruct Hc; split; simpl; try done; by apply Hg'.
Qed.

(** What no run changes. *)
Record request_frame (now : Tick) (s s' : DRAMCtrl) : Prop := {
  rf_cfg : cfg s' = cfg s;
  rf_data : (mem s', packets s', port s') = (mem s, packets s, port s);
  rf_ranks : ranks_kept (cfg s) (drain_rank now <$> ranks s) (ranks s');
}.

Lemma turned_frame_ok now s : ctrl_ok s → request_frame now s (turned now s).1.
Proof.
  intros Hc. destruct (turned_frame now s) as (_ & _ & Ec & _ & _ & Ed & Er). split; [done|done|].
  rewrite Er. apply ranks_kept_refl. apply Forall_fmap.
  eapply Forall_impl; [apply (go_ranks _ (co_geometry _ Hc))|]. intros r. apply drain_rank_kept.
Qed.

Lemma run_read now s :
  ctrl_ok s → ticks_ok now s → nextReqEvent s = None → reading s → readQueue s ≠ [] →
  ∃ s', ('(s2, go_on) ← serve_read now (turned now s).2 (turned now s).1;
         if (go_on : bool) then next_request now s2 else mret s2) = Ok s' ∧
    ctrl_ok s' ∧ request_step now s s' ∧ request_frame now s s'.
Proof.
  intros Hc Ht He Hr Hne. destruct (turned_ok now s Hc Ht) as (Hc1 & Ht1 & Hb & _). specialize (Hb Hr).
  pose proof (turned_frame_ok now s Hc) as [E1 E2 E3].
  destruct (turned_frame now s) as ([R1 R2] & (W1 & W2 & W3) & Ec & Ed & En & _ & _).
  set (s1 := (turned now s).1) in *. rewrite <- R1 in Hne.
  destruct (serve_read_ok now (turned now s).2 s1 Hc1 Ht1 Hb Hne)
    as [(q1 & p & q2 & s2 & Eq & Hav & -> & Hc2 & [D1 (ready & D2 & D3) (D4 & D5 & D5b) D6 D7 (D8 & D9 & D10 & D11 & D12 & D13)])
       |(Hno & ->)]; simpl.
  - destruct (next_request_ok now s2) as (s' & -> & Hcont & Hk & [K1 K2] & (K3 & K4 & K5) & K6 & K7 & K8 & K9 & _ & K11);
      [by rewrite D9, En|].
    exists s'. split; [done|]. split; [by apply Hk|]. split; [|split].
    + eapply (rq_read _ _ _ q1 p q2 ready); try done.
      * by rewrite <- R1.
      * by rewrite <- (turned_avail now s p).
      * by rewrite K1.
      * by rewrite K2, D3, R2.
      * split_and!; [by rewrite K3, D4|by rewrite K4, D5|by rewrite K5, D5b].
      * rewrite K6, D6. unfold reads_full. by rewrite Ec, W1, W2.
      * by rewrite K7, D10.
    + by rewrite K9, D8.
    + rewrite K11, D11, D12, D13. done.
    + rewrite K8. rewrite <- E1 in E3 |- *. by eapply ranks_kept_trans.
  - exists s1. split; [done|]. split; [done|]. split; [|by split].
    eapply rq_stall; [|done|done|done|by rewrite En]. right.
    rewrite bool_decide_true by done. rewrite <- R1. split; [done|].
    intros p Hp. rewrite <- (turned_avail now s p). by apply Hno.
Qed.

Lemma run_write now s :
  ctrl_ok s → ticks_ok now s → nextReqEvent s = None → writing s →
  ∃ s', ('(s2, go_on) ← serve_write now (turned now s).2 (turned now s).1;
         if (go_on : bool) then next_request now s2 else mret s2) = Ok s' ∧
    ctrl_ok s' ∧ request_step now s s' ∧ request_frame now s s'.
Proof.
  intros Hc Ht He Hr. destruct (turned_ok now s Hc Ht) as (Hc1 & Ht1 & _ & Hb). specialize (Hb Hr).
  pose proof (turned_frame_ok now s Hc) as [E1 E2 E3].
  destruct (turned_frame now s) as ([R1 R2] & (W1 & W2 & W3) & Ec & Ed & En & _ & _).
  set (s1 := (turned now s).1) in *.
  destruct (serve_write_ok now (turned now s).2 s1 Hc1 Ht1 Hb)
    as [(q1 & p & q2 & s2 & Eq & Hav & -> & Hc2 & [D1 D2 D3 [D4 D5] D6 D7 (D8 & D9 & D10 & D11 & D12 & D13)])
       |(Hno & ->)]; simpl.
  - destruct (next_request_ok now s2)
      as (s' & -> & Hcont & Hk & [K1 K2] & (K3 & K4 & K5) & K6 & K7 & K8 & K9 & K10 & K11);
      [by rewrite D9, En|].
    exists s'. split; [done|]. split; [by apply Hk|]. split; [|split].
    + eapply (rq_write _ _ _ q1 p q2); try done.
      * by rewrite <- W1.
      * by rewrite <- (turned_avail now s p).
      * by rewrite K3.
      * by rewrite K4, D2, W2.
      * by rewrite K5, D3, W3, Ec.
      * split; [by rewrite K1, D4|by rewrite K2, D5].
      * by rewrite K6, D6, K10.
      * by rewrite K7, D10.
    + by rewrite K9, D8.
    + rewrite K11, D11, D12, D13. done.
    + rewrite K8. rewrite <- E1 in E3 |- *. by eapply ranks_kept_trans.
  - exists s1. split; [done|]. split; [done|]. split; [|by split].
    eapply rq_stall; [|done|done|done|by rewrite En]. right.
    rewrite bool_decide_false by (intros [?|?]; destruct Hr; congruence). rewrite <- W1.
    split; [apply (co_turn _ Hc1); by left|].
    intros p Hp. rewrite <- (turned_avail now s p). by apply Hno.
Qed.

Lemma run_idle now s :
  ctrl_ok s → ticks_ok now s → nextReqEvent s = None → reading s → readQueue s = [] →
  ∃ s', ('(s2, go_on) ← mret (idle_read (turned now s).1);
         if (go_on : bool) then next_request now s2 else mret s2) = Ok s' ∧
    ctrl_ok s' ∧ request_step now s s' ∧ request_frame now s s'.
Proof.
  intros Hc Ht He Hr Hq. destruct (turned_ok now s Hc Ht) as (Hc1 & Ht1 & Hb & _). specialize (Hb Hr).
  pose proof (turned_frame_ok now s Hc) as [E1 E2 E3].
  destruct (turned_frame now s) as ([R1 R2] & (W1 & W2 & W3) & Ec & Ed & En & _ & _).
  set (s1 := (turned now s).1) in *.
  assert (wants_writes s1 = wants_writes s) as Ew by (unfold wants_writes; by rewrite W1, W2, Ec, Ed).
  unfold idle_read. fold (wants_writes s1). destruct (wants_writes s1) eqn:E; simpl.
  - destruct (next_request_ok now (set_busState READ_TO_WRITE s1))
      as (s' & -> & Hcont & Hk & [K1 K2] & (K3 & K4 & K5) & K6 & K7 & K8 & K9 & K10 & K11);
      [by simpl; rewrite En|]. simpl in *.
    exists s'. split; [done|]. split.
    { apply Hk, ctrl_ok_to_write; [done|]. by apply andb_true_iff in E as [?%negb_true_iff%bool_decide_eq_false _]. }
    split; [|split; [by rewrite K9|by rewrite K11|by rewrite K8]].
    apply rq_turn; try done; [split; [by rewrite K1|by rewrite K2]|
      split_and!; [by rewrite K3|by rewrite K4|by rewrite K5]|by rewrite K7].
  - assert (∀ d, ctrl_ok (set_drain_state d s1)) as Hd
      by (intros d; destruct Hc1 as [[]]; split; simpl; try done; by split).
    exists (if bool_decide (drain_state s1 = Draining) && bool_decide (respQueue s1 = [])
      then set_drain_state (signalDrainDone (drain_state s1)) s1 else s1). split; [done|].
    destruct (_ && _) eqn:E'; (split; [done|]); (split; [|by split]).
    + apply rq_idle; try done; [|by simpl; rewrite En].
      simpl. rewrite <- Ed, <- R2, E'. by apply andb_true_iff in E' as [->%bool_decide_eq_true _].
    + apply rq_idle; try done; [|by rewrite En]. by rewrite <- Ed, <- R2, E'.
Qed.

Lemma processNextReqEvent_ok now s :
  ctrl_ok s → ticks_ok now s → nextReqEvent s = None →
  ∃ s', processNextReqEvent now s = Ok s' ∧ ctrl_ok s' ∧ request_step now s s' ∧ request_frame now s s'.
Proof.
  intros Hc Ht He. unfold processNextReqEvent. rewrite check_ranks_ok by apply (co_draining _ Hc).
  cbv [mbind res_mbind]. change (cfg (set_ranks _ s)) with (cfg s).
  destruct (Z.eqb_spec (busy_ranks (ranks s)) (ranksPerChannel (cfg s))) as [Eb|Eb].
  - rewrite <- (go_count _ (co_geometry _ Hc)) in Eb.
    eexists. split; [reflexivity|]. split; [by apply ctrl_ok_drain|]. split.
    + apply rq_stall; try done. left. by apply busy_ranks_all.
    + split; [done|done|]. apply ranks_kept_refl, Forall_fmap.
      eapply Forall_impl; [apply (go_ranks _ (co_geometry _ Hc))|]. intros r. apply drain_rank_kept.
  - fold (turned now s). pose proof (run_read now s Hc Ht He) as Hr. pose proof (run_write now s Hc Ht He) as Hw.
    pose proof (run_idle now s Hc Ht He) as Hi. destruct (turned_ok now s Hc Ht) as (_ & _ & Hb1 & Hb2).
    destruct (turned_frame now s) as ([R1 _] & _).
    destruct (turned now s) as [s1 sw] eqn:Et. cbn [fst snd] in *.
    assert (reading s ∨ writing s) as [Hd|Hd] by (unfold reading, writing; destruct (busState s); tauto).
    + rewrite bool_decide_true, R1 by auto. case_bool_decide; [by apply Hi|by apply Hr].
    + rewrite bool_decide_false by (rewrite Hb2 by done; done). by apply Hw.
Qed.

(** ** Sequences of runs *)

Definition all_available (s : DRAMCtrl) : Prop := ∀ r, r ∈ ranks s → isAvailable r = true.

(** What may happen between two runs, a response for instance: the requests and the
    direction of the bus stay as they are, and no rank starts a refresh. *)
Record quiet (s s' : DRAMCtrl) : Prop := {
  qt_ok : ctrl_ok s';
  qt_cfg : cfg s' = cfg s;
  qt_queues : readQueue s' = readQueue s ∧ writeQueue s' = writeQueue s ∧ pendingRowOps s' = pendingRowOps s;
  qt_bus : busState s' = busState s;
  qt_drain : drain_state s = Draining → drain_state s' = Draining ∨ readQueue s = [] ∧ writeQueue s = [];
  qt_next : nextReqEvent s' = nextReqEvent s;
  qt_ranks : all_available s → all_available s';
}.

(** [runs n s s']: [n] runs of the handler, each at the tick it was scheduled for, lead
    from [s] to [s']. *)
Inductive runs : nat → DRAMCtrl → DRAMCtrl → Prop :=
  | runs_done s : runs 0 s s
  | runs_quiet n s s1 s2 : quiet s s1 → runs n s1 s2 → runs n s s2
  | runs_next n now s s1 s2 :
      nextReqEvent s = Some now → ticks_ok now s →
      processNextReqEvent now (set_nextReqEvent None s) = Ok s1 → runs n s1 s2 → runs (S n) s s2.

Lemma request_available now s s' : request_frame now s s' → all_available s → all_available s'.
Proof.
  intros [_ _ Hk] Ha r' [i Hi]%list_elem_of_lookup_1.
  destruct (Forall2_lookup_r _ _ _ _ _ Hk Hi) as (r0 & Hr0 & _ & Ec & _).
  apply list_lookup_fmap_Some in Hr0 as (r & -> & Hr). unfold control in Ec.
  injection Ec as _ _ _ Es _ _ _ _ _. unfold isAvailable. rewrite Es.
  change (isAvailable (drain_rank now r) = true). rewrite isAvailable_drain. apply Ha.
  by eapply list_elem_of_lookup_2.
Qed.

Lemma available_not_stalled s : ctrl_ok s → all_available s → ¬ stalled s.
Proof.
  intros Hc Ha [Hs|[Hne Hs]].
  - pose proof (go_count _ (co_geometry _ Hc)) as Hn.
    pose proof (wf_ranks _ (go_config _ (co_geometry _ Hc))). destruct (ranks s) as [|r l] eqn:E; [simpl in *; lia|].
    assert (r ∈ ranks s) as Hr by (rewrite E; set_solver). specialize (Hs r ltac:(set_solver)).
    by rewrite (Ha r Hr) in Hs.
  - destruct (if bool_decide (reading s) then readQueue s else writeQueue s) as [|p q]; [done|].
    specialize (Hs p ltac:(set_solver)). unfold avail, rank_at in Hs.
    destruct (ranks s !! _) as [r|] eqn:Er; simpl in Hs; [|done].
    rewrite Ha in Hs; [done|]. by eapply list_elem_of_lookup_2.
Qed.

Lemma ctrl_ok_next s e : ctrl_ok s → ctrl_ok (set_nextReqEvent e s).
Proof. intros [[]]; split; simpl; try done; by split. Qed.

(** One counted run, without a refresh. *)
Lemma run_ok now s s1 :
  ctrl_ok s → all_available s → ticks_ok now s →
  processNextReqEvent now (set_nextReqEvent None s) = Ok s1 →
  ctrl_ok s1 ∧ all_available s1 ∧ request_step now (set_nextReqEvent None s) s1 ∧ cfg s1 = cfg s ∧
  ¬ stalled (set_nextReqEvent None s).
Proof.
  intros Hc Ha Ht E.
  pose proof (ctrl_ok_next s None Hc) as Hc0.
  destruct (processNextReqEvent_ok now (set_nextReqEvent None s)) as (s' & E' & Hc' & Hr & Hf);
    [done|destruct Ht; by split|done|].
  rewrite E in E'. injection E' as <-.
  split_and!; [done|by eapply request_available|done|apply (rf_cfg _ _ _ Hf)|].
  by apply available_not_stalled.
Qed.

Lemma runs_ok n s s' : runs n s s' → ctrl_ok s → all_available s → ctrl_ok s' ∧ all_available s'.
Proof.
  induction 1 as [s|n s s1 s2 Q _ IH|n now s s1 s2 E Ht Ep _ IH]; intros Hc Ha; [done| |].
  - apply IH; [apply Q|by apply (qt_ranks _ _ Q)].
  - destruct (run_ok now s s1 Hc Ha Ht Ep) as (Hc1 & Ha1 & _). by apply IH.
Qed.

(** *** Row operations *)

(** Bounds the runs until the pending row operations have been executed. *)
Definition rowop_measure (s : DRAMCtrl) : nat :=
  (length (writeQueue s) + if bool_decide (reading s) then 1 else 0)%nat.

Lemma rowop_progress now s s1 :
  ctrl_ok s → all_available s → ticks_ok now s →
  processNextReqEvent now (set_nextReqEvent None s) = Ok s1 →
  pendingRowOps s1 ≤ pendingRowOps s ∧
  (0 < pendingRowOps s → is_Some (nextReqEvent s1)) ∧
  (0 < pendingRowOps s1 → (rowop_measure s1 < rowop_measure s)%nat).
Proof.
  intros Hc Ha Ht E. destruct (run_ok now s s1 Hc Ha Ht E) as (Hc1 & _ & Hr & Ecfg & Hst).
  assert (0 < pendingRowOps s → wants_writes s = true) as Hww.
  { intros Hp. pose proof Hp as Hp'. rewrite (co_pending _ Hc) in Hp'. unfold wants_writes.
    rewrite (proj2 (Z.ltb_lt 0 _)), orb_true_r, andb_true_r by done.
    rewrite bool_decide_false; [done|]. intros En. by rewrite En in Hp'. }
  assert (∀ s0, busState s0 = READ_TO_WRITE ∨ busState s0 = WRITE → bool_decide (reading s0) = false) as Hnr.
  { intros s0 Hs0. apply bool_decide_eq_false. unfold reading. destruct Hs0; intros [?|?]; congruence. }
  change (wants_writes s) with (wants_writes (set_nextReqEvent None s)) in Hww.
  unfold rowop_measure. destruct Hr as [q1 p q2 ready Hd Eq Hav Eq' _ _ (W1 & W2 & _) Hb _ (t & Hn & _)|
    q1 p q2 Hd Eq Hav Eq' Hpend _ _ Hb _ (t & Hn & _)|
    Hd Eq Hw _ (W1 & W2 & _) Hb _ (t & Hn & _)|Hd Eq Hw _ (W1 & W2 & _) _ _ Hn|Hs]; [| | | |done]; simpl in *.
  - split_and!; [lia|by intros; eexists|]. intros Hp. rewrite W2 in Hp.
    unfold reads_full in Hb. simpl in Hb. rewrite (proj2 (Z.ltb_lt 0 _) Hp), orb_true_r in Hb.
    rewrite W1, (Hnr s1) by auto. rewrite (bool_decide_true (reading s)) by done. lia.
  - split_and!; [rewrite Hpend; destruct (DRAMPacket.is_row_op p); lia|by intros; eexists|].
    intros Hp. rewrite (Hnr s1).
    2: { right. rewrite Hb. unfold back_to_reads. by rewrite (proj2 (Z.eqb_neq _ _)) by lia. }
    rewrite Eq', Eq, !length_app. simpl. lia.
  - split_and!; [lia|by intros; eexists|]. intros Hp.
    rewrite W1, (Hnr s1) by auto. rewrite (bool_decide_true (reading s)) by done. lia.
  - split_and!; [lia| |].
    + intros Hp. by rewrite (Hww Hp) in Hw.
    + intros Hp. rewrite W2 in Hp. by rewrite (Hww Hp) in Hw.
Qed.

Lemma runs_pending n s s' :
  runs n s s' → ctrl_ok s → all_available s → pendingRowOps s = 0 → pendingRowOps s' = 0.
Proof.
  induction 1 as [s|n s s1 s2 [Q1 Q2 (Q3 & Q4 & Q5) Q6 Q7 Q8 Q9] _ IH|n now s s1 s2 E Ht Ep _ IH];
    intros Hc Ha Hn; [done|apply IH; [done|by apply Q9|by rewrite Q5]|].
  destruct (rowop_progress now s s1 Hc Ha Ht Ep) as (H1 & _).
  destruct (run_ok now s s1 Hc Ha Ht Ep) as (Hc1 & Ha1 & _). apply IH; [done|done|].
  rewrite (co_pending _ Hc1) in *. pose proof (row_ops_nonneg (writeQueue s1)). lia.
Qed.

Lemma rowop_runs n s s' :
  runs n s s' → ctrl_ok s → all_available s → is_Some (nextReqEvent s) ∨ pendingRowOps s = 0 →
  pendingRowOps s' = 0 ∨ is_Some (nextReqEvent s') ∧ (n + rowop_measure s' ≤ rowop_measure s)%nat.
Proof.
  induction 1 as [s|n s s1 s2 [Q1 Q2 (Q3 & Q4 & Q5) Q6 Q7 Q8 Q9] _ IH|n now s s1 s2 E Ht Ep Hrs IH];
    intros Hc Ha Hn.
  - destruct Hn; [right|by left]. split; [done|lia].
  - destruct IH as [?|[? Hm]]; [done|by apply Q9|by rewrite Q8, Q5|by left|]. right. split; [done|].
    unfold rowop_measure, reading in *. by rewrite Q4, Q6 in Hm.
  - destruct (rowop_progress now s s1 Hc Ha Ht Ep) as (H1 & H2 & H3).
    destruct (run_ok now s s1 Hc Ha Ht Ep) as (Hc1 & Ha1 & _).
    pose proof (co_pending _ Hc1) as Hp1. pose proof (row_ops_nonneg (writeQueue s1)).
    destruct IH as [?|[? Hm]]; [done|done| |by left|].
    + destruct (decide (pendingRowOps s1 = 0)); [by right|left]. apply H2. lia.
    + destruct (decide (pendingRowOps s1 = 0)) as [E0|E0].
      * left. by apply (runs_pending _ _ _ Hrs).
      * right. specialize (H3 ltac:(lia)). split; [done|lia].
Qed.

(** *** Draining *)

(** Bounds the runs until both queues are empty. *)
Definition drain_measure (s : DRAMCtrl) : nat :=
  (2 * (length (readQueue s) + length (writeQueue s)) +
   if bool_decide (reading s) && bool_decide (readQueue s = []) then 1 else 0)%nat.

Definition queues_empty (s : DRAMCtrl) : Prop := readQueue s = [] ∧ writeQueue s = [].

Lemma drain_progress now s s1 :
  ctrl_ok s → all_available s → ticks_ok now s → drain_state s = Draining →
  processNextReqEvent now (set_nextReqEvent None s) = Ok s1 →
  (is_Some (nextReqEvent s1) ∧ drain_state s1 = Draining ∧ (drain_measure s1 < drain_measure s)%nat) ∨
  (nextReqEvent s1 = None ∧ queues_empty s1 ∧ (respQueue s1 = [] → drain_state s1 = Drained)).
Proof.
  intros Hc Ha Ht Hdr E. destruct (run_ok now s s1 Hc Ha Ht E) as (Hc1 & _ & Hr & Ecfg & Hst).
  assert (writeQueue s ≠ [] → wants_writes (set_nextReqEvent None s) = true) as Hww.
  { intros Hp. unfold wants_writes. simpl. by rewrite Hdr, bool_decide_false by done. }
  unfold drain_measure. destruct Hr as [q1 p q2 ready Hd Eq Hav Eq' _ _ (W1 & W2 & _) Hb Hds (t & Hn & _)|
    q1 p q2 Hd Eq Hav Eq' Hpend _ [R1 R2] Hb Hds (t & Hn & _)|
    Hd Eq Hw [R1 R2] (W1 & W2 & _) Hb Hds (t & Hn & _)|Hd Eq Hw [R1 R2] (W1 & W2 & _) _ Hds Hn|Hs];
    [| | | |done]; cbn [readQueue writeQueue drain_state respQueue set_nextReqEvent] in *.
  - left. split_and!; [by eexists|by rewrite Hds|]. rewrite Eq', Eq, W1, !length_app. simpl.
    destruct (_ && _), (_ && _); lia.
  - left. split_and!; [by eexists|by rewrite Hds|]. rewrite Eq', Eq, R1, !length_app. simpl.
    destruct (_ && _), (_ && _); lia.
  - left. split_and!; [by eexists|by rewrite Hds|]. rewrite R1, W1, Eq.
    rewrite (bool_decide_true (reading s)) by done.
    rewrite bool_decide_false by (unfold reading; rewrite Hb; by intros [?|?]). simpl. lia.
  - right. split; [done|]. unfold queues_empty. rewrite R1, W1, R2, Hds, Hdr, Eq. split.
    + split; [done|]. destruct (decide (writeQueue s = [])) as [|Hne]; [done|]. by rewrite (Hww Hne) in Hw.
    + by intros ->.
Qed.

Lemma runs_empty n s s' :
  runs n s s' → ctrl_ok s → all_available s → queues_empty s → queues_empty s'.
Proof.
  unfold queues_empty.
  induction 1 as [s|n s s1 s2 [Q1 Q2 (Q3 & Q4 & Q5) Q6 Q7 Q8 Q9] _ IH|n now s s1 s2 E Ht Ep _ IH];
    intros Hc Ha [Er Ew]; [done|apply IH; [done|by apply Q9|by rewrite Q3, Q4]|].
  destruct (run_ok now s s1 Hc Ha Ht Ep) as (Hc1 & Ha1 & Hr & _ & Hst). apply IH; [done|done|].
  destruct Hr as [q1 p q2 ready Hd Eq|q1 p q2 Hd Eq|Hd Eq Hw [R1 R2] (W1 & _)|Hd Eq Hw [R1 R2] (W1 & _)|Hs];
    [| | | |done]; cbn [readQueue writeQueue set_nextReqEvent] in *.
  - rewrite Er in Eq. by destruct q1.
  - rewrite Ew in Eq. by destruct q1.
  - by rewrite R1, W1.
  - by rewrite R1, W1.
Qed.

Lemma drain_runs n s s' :
  runs n s s' → ctrl_ok s → all_available s → drain_state s = Draining ∨ queues_empty s →
  is_Some (nextReqEvent s) ∨ queues_empty s →
  queues_empty s' ∨ is_Some (nextReqEvent s') ∧ (n + drain_measure s' ≤ drain_measure s)%nat.
Proof.
  induction 1 as [s|n s s1 s2 [Q1 Q2 (Q3 & Q4 & Q5) Q6 Q7 Q8 Q9] _ IH|n now s s1 s2 E Ht Ep Hrs IH];
    intros Hc Ha Hd Hn.
  - destruct Hn; [right|by left]. split; [done|lia].
  - destruct IH as [?|[? Hm]]; [done|by apply Q9| | |by left|].
    + unfold queues_empty in *. rewrite Q3, Q4. destruct Hd as [Hd|?]; [|by right]. by apply Q7.
    + unfold queues_empty in *. by rewrite Q8, Q3, Q4.
    + right. split; [done|]. unfold drain_measure, reading in *. by rewrite Q3, Q4, Q6 in Hm.
  - destruct (run_ok now s s1 Hc Ha Ht Ep) as (Hc1 & Ha1 & _).
    destruct Hd as [Hd|Hd]; [|left; apply (runs_empty (S n) s); [by eapply runs_next|done..]].
    destruct (drain_progress now s s1 Hc Ha Ht Hd Ep) as [(Hn1 & Hd1 & Hlt)|(_ & He & _)].
    + destruct IH as [?|[? Hm]]; [done|done|by left|by left|by left|]. right. split; [done|lia].
    + left. by apply (runs_empty _ _ _ Hrs).
Qed.

(** ** Properties *)

(** C13: One run of the request handler.  With the invariant of the controller and
    ticks away from the 64-bit limit, no assertion of the handler or of anything it
    calls fails, the invariant holds again, memory, packets and port are not touched,
    and the run is one of five: the arbitrated read moves to the response queue with
    a ready time that is not in the past; the arbitrated write or row operation leaves
    the write queue; the bus turns to writes; there is nothing to do; or the requests
    wait for a refresh.  In the first three the handler has scheduled itself again. *)
Theorem processNextReqEvent_correct (now : Tick) (s : DRAMCtrl) :
  ctrl_ok s → ticks_ok now s → nextReqEvent s = None →
  ∃ s', processNextReqEvent now s = Ok s' ∧ ctrl_ok s' ∧ request_step now s s' ∧ request_frame now s s'.
Proof. apply processNextReqEvent_ok. Qed.

(** C14: Pending row operations are executed soon.  While the ranks are available and
    no request arrives, the handler keeps scheduling itself as long as a row operation
    is pending, and after more runs than there are queued writes none is: a bus that
    serves reads is turned at the next run, and it is not turned back before all row
    operations are done. *)
Theorem rowops_complete (n : nat) (s s' : DRAMCtrl) :
  ctrl_ok s → all_available s → is_Some (nextReqEvent s) → runs n s s' →
  ((length (writeQueue s) < n)%nat → pendingRowOps s' = 0) ∧
  (0 < pendingRowOps s' → is_Some (nextReqEvent s')).
Proof.
  intros Hc Ha Hn Hr. destruct (rowop_runs n s s' Hr Hc Ha (or_introl Hn)) as [E|[He Hm]].
  - split; [done|lia].
  - split; [|done]. intros Hlt. destruct (decide (pendingRowOps s' = 0)) as [|Hne]; [done|exfalso].
    destruct (runs_ok n s s' Hr Hc Ha) as [Hc' _]. rewrite (co_pending _ Hc') in Hne.
    unfold rowop_measure in Hm. destruct (writeQueue s'); [done|]. simpl in Hm.
    destruct (bool_decide _), (bool_decide _); lia.
Qed.


(** ** Witnesses *)

(** A controller with a read, a write and the AND of two rows in its queues. *)
Definition ex_write : DRAMPacket :=
  DRAMPacket.mkDRAMPacket 0 0 3 false 0 2 9 0 0 false None 2 0x20 16 None.
Definition ex_serving : DRAMCtrl :=
  set_readQueue [ex_read 3 7] (set_writeQueue [ex_and; ex_write] (set_pendingRowOps 1
    (set_isInWriteQueue {[ 0 ]} (set_drain_state Draining ex_ctrl)))).

Lemma ex_servable p :
  bool_decide (DRAMPacket.rank p = 0 ∧ 0 ≤ DRAMPacket.bank p < 16 ∧ DRAMPacket.bankId p = DRAMPacket.bank p ∧
    DRAMPacket.row p ≠ NO_ROW ∧ DRAMPacket.size p ≤ 64) = true →
  (DRAMPacket.is_row_op p = true → is_Some (DRAMPacket.row_op p)) → servable DDR4_config p.
Proof.
  intros (H1 & H2 & H3 & H4 & H5)%bool_decide_eq_true Hop. split; [|done|done|done].
  unfold packet_ok, coords_ok, coords_id, coords. cbn [fst snd].
  change (banksPerRank DDR4_config) with 16. change (ranksPerChannel DDR4_config) with 2. lia.
Qed.

Lemma ex_helpers_one p : DRAMPacket.burstHelper p = None → helper_ok ∅ [p].
Proof.
  intros E. split; [intros h b; by rewrite lookup_empty| |by repeat constructor].
  intros dp h ->%list_elem_of_singleton Hh. unfold has_helper in Hh. congruence.
Qed.

Lemma ex_ranks_idle : Forall (λ r, refreshState r = REF_IDLE) (ranks ex_ctrl).
Proof. apply (bool_decide_unpack _). vm_compute. exact I. Qed.

Lemma ex_serving_ok : ctrl_ok ex_serving.
Proof.
  split.
  - by apply ex_geometry.
  - split; [apply DDR4_timing_wf|apply DDR4_ccd].
  - by vm_compute.
  - by vm_compute.
  - apply Forall_singleton. split; [|done]. by apply ex_servable; [vm_compute|].
  - apply Forall_cons. rewrite Forall_singleton.
    split; (apply ex_servable; [vm_compute; reflexivity|]); [by eexists|done].
  - reflexivity.
  - by intros [?|?].
  - constructor.
  - by intros p ?%elem_of_nil.
  - reflexivity.
  - by apply ex_helpers_one.
  - by vm_compute.
  - intros a. change (isInWriteQueue ex_serving) with ({[ 0 ]} : gset Z). intros ->%elem_of_singleton. exists ex_write. split; [set_solver|]. split; [done|]. by vm_compute.
  - intros r Hr E. pose proof ex_ranks_idle as H. eapply Forall_forall in H; [|exact Hr]. congruence.
Qed.

Lemma ex_available : all_available ex_serving.
Proof.
  intros r Hr. pose proof ex_ranks_idle as H. eapply Forall_forall in H; [|exact Hr].
  unfold isAvailable. by rewrite H.
Qed.

Lemma ex_ticks_ok now s :
  cfg s = DDR4_config → fitsb DDR4_config 10 now = true → fitsb DDR4_config 10 (busBusyUntil s) = true →
  forallb (λ r, forallb (λ k, fitsb DDR4_config 10 (colAllowedAt k) && fitsb DDR4_config 10 (preAllowedAt k)
    && fitsb DDR4_config 10 (actAllowedAt k)) (banks r)) (ranks s) = true → ticks_ok now s.
Proof.
  intros Ec H1 H2 H3. split; rewrite Ec; [by apply fits_check|by apply fits_check|].
  by apply ticks_check.
Qed.

Lemma processNextReqEvent_correct_witness :
  ∃ s', processNextReqEvent 20000 ex_serving = Ok s' ∧ ctrl_ok s' ∧ request_step 20000 ex_serving s'.
Proof.
  destruct (processNextReqEvent_correct 20000 ex_serving) as (s' & E & Hc & Hr & _).
  - exact ex_serving_ok.
  - apply ex_ticks_ok; vm_compute; reflexivity.
  - reflexivity.
  - exact (ex_intro _ s' (conj E (conj Hc Hr))).
Defined.

(** The read, then the row operation: two runs, with the bus turned in between. *)
Definition ex_run (s : DRAMCtrl) : DRAMCtrl :=
  match nextReqEvent s with
  | Some now => ok_or s (processNextReqEvent now (set_nextReqEvent None s))
  | None => s
  end.
Definition ex_run0 : DRAMCtrl := set_nextReqEvent (Some 20000) ex_serving.
Definition ex_run1 : DRAMCtrl := ex_run ex_run0.
Definition ex_run2 : DRAMCtrl := ex_run ex_run1.
Definition ex_run3 : DRAMCtrl := ex_run ex_run2.

Definition ex_run4 : DRAMCtrl := ex_run ex_run3.

Ltac ex_next t s :=
  eapply (runs_next _ t _ s);
  [vm_compute; reflexivity|apply ex_ticks_ok; vm_compute; reflexivity|vm_compute; reflexivity|].

Lemma ex_runs : runs 3 ex_run0 ex_run3.
Proof. ex_next 20000 ex_run1. ex_next 20000 ex_run2. ex_next 209813 ex_run3. apply runs_done. Qed.

Lemma ex_runs_all : runs 4 ex_run0 ex_run4.
Proof.
  ex_next 20000 ex_run1. ex_next 20000 ex_run2. ex_next 209813 ex_run3. ex_next 213146 ex_run4.
  apply runs_done.
Qed.

Lemma ex_run0_ok : ctrl_ok ex_run0.
Proof. apply ctrl_ok_next, ex_serving_ok. Qed.

Lemma ex_run0_next : is_Some (nextReqEvent ex_run0).
Proof. by exists 20000. Qed.

Lemma ex_run0_available : all_available ex_run0.
Proof. exact ex_available. Qed.

Lemma rowops_complete_witness : pendingRowOps ex_run0 = 1 ∧ pendingRowOps ex_run3 = 0.
Proof.
  split; [reflexivity|].
  apply (rowops_complete 3 ex_run0 ex_run3 ex_run0_ok ex_run0_available ex_run0_next ex_runs).
  apply Nat.lt_succ_diag_r.
Defined.


(** A row operation whose destination shares a burst with a queued write takes
    the write's entry out of [isInWriteQueue] when it is served, although it never had
    an entry of its own: the write is still queued, but a read of its bytes is no longer
    recognised as covered by the write queue and a second write to the burst would not
    be merged. *)
Theorem rowop_erases_burst :
  ∃ s now s', ctrl_ok s ∧ processNextReqEvent now (set_nextReqEvent None s) = Ok s' ∧
    writeQueue s = [ex_and; ex_write] ∧ writeQueue s' = [ex_write] ∧
    in_wrq s (0x20, 16) = true ∧ in_wrq s' (0x20, 16) = false.
Proof.
  exists ex_run1, 20000, ex_run2. split_and!; try (vm_compute; reflexivity).
  apply (runs_ok 1 ex_run0 ex_run1); [|exact ex_run0_ok|exact ex_run0_available].
  ex_next 20000 ex_run1. apply runs_done.
Qed.
