(* ===== verification/DRAMWrite.v ===== *)
(** * DRAM controller: the write path (mem/dram_ctrl.cc)

    A write is split into bursts; a burst that is queued already is merged into
    the queued one, the others become DRAM packets. *)

From stdpp Require Import base numbers list gmap sets sorting relations.
From S2P Require Import Prelude IntMath AddrRanges Packets AbstractMem Events PktQueue DRAMConfig.
From S2P Require Import DRAMState DRAMBank DRAMCtrlState DRAMAccess DRAMSched DRAMQueue DRAMRefresh.
From S2P Require Import DRAMNext DRAMServe.
Import DRAMCtrl.
Local Open Scope Z_scope.

(** ** Merging *)

Definition aligned (c : Config) (b : Z * Z) : Z := burstAlign c b.1.

(** The bursts of a write that are not queued yet. *)
Definition unmerged (s : DRAMCtrl) (l : list (Z * Z)) : list (Z * Z) :=
  filter (λ b, aligned (cfg s) b ∉ isInWriteQueue s) l.

(** The controller after the bursts [ps] of a write. *)
Definition with_writes (s : DRAMCtrl) (f : Stat → Z) (ps : list (Z * Z)) (new : list DRAMPacket) : DRAMCtrl :=
  set_stats f (set_isInWriteQueue (list_to_set (aligned (cfg s) <$> ps) ∪ isInWriteQueue s)
    (set_writeQueue (writeQueue s ++ new) s)).

Lemma burstAlign_eq c a : burst_pow2 c → 0 ≤ a < 2 ^ 64 → burstAlign c a = a / burstSize c * burstSize c.
Proof.
  intros (k & Hk & E) Ha. unfold burstAlign. rewrite E. apply land_not64_low; lia.
Qed.

Lemma filter_ext_elem {A} (P Q : A → Prop) `{!∀ x, Decision (P x), !∀ x, Decision (Q x)} (l : list A) :
  (∀ x, x ∈ l → P x ↔ Q x) → filter P l = filter Q l.
Proof.
  induction l as [|x l IH]; intros Hl; [done|]. rewrite !filter_cons.
  rewrite IH by (intros; apply Hl; by right). pose proof (Hl x ltac:(by left)).
  repeat case_decide; tauto.
Qed.

Lemma with_writes_set s f ps new S :
  list_to_set (aligned (cfg s) <$> ps) ∪ isInWriteQueue s = S →
  with_writes s f ps new = set_stats f (set_isInWriteQueue S (set_writeQueue (writeQueue s ++ new) s)).
Proof. by intros <-. Qed.

Lemma with_writes_merged s f f' b ps new :
  aligned (cfg s) b ∈ isInWriteQueue s → with_writes (set_stats f s) f' ps new = with_writes s f' (b :: ps) new.
Proof.
  intros Hin. rewrite (with_writes_set s f' (b :: ps) new
    (list_to_set (aligned (cfg s) <$> ps) ∪ isInWriteQueue s)); [done|].
  rewrite fmap_cons, list_to_set_cons. set_solver.
Qed.

Lemma with_writes_new s f f' b ps dp new :
  with_writes (with_writes s f [b] [dp]) f' ps new = with_writes s f' (b :: ps) (dp :: new).
Proof.
  rewrite (with_writes_set s f' (b :: ps) (dp :: new)
    (list_to_set (aligned (cfg s) <$> ps) ∪ (list_to_set (aligned (cfg s) <$> [b]) ∪ isInWriteQueue s))).
  - unfold with_writes. cbn [set_writeQueue writeQueue set_stats set_isInWriteQueue]. by rewrite <- app_assoc.
  - rewrite !fmap_cons, !list_to_set_cons. set_solver.
Qed.

Lemma write_burst_merged now pkt e s a :
  0 < burst_bytes (cfg s) e a < 2 ^ 32 → burstAlign (cfg s) a ∈ isInWriteQueue s →
  ∃ f, write_burst now pkt e s a = Ok (set_stats f s, next_burst (cfg s) a).
Proof.
  intros Hz Hin. unfold write_burst. rewrite ceilLog2_u32_eq by done. cbv [mbind res_mbind mret res_mret].
  change (isInWriteQueue (inc _ _ _)) with (isInWriteQueue s). rewrite bool_decide_true by done.
  by eexists.
Qed.

Lemma write_burst_new now pkt e s a :
  geometry_ok s → 0 ≤ a < total_bytes (cfg s) → 0 < burst_bytes (cfg s) e a < 2 ^ 32 →
  burstAlign (cfg s) a ∉ isInWriteQueue s → Z.of_nat (length (writeQueue s)) < writeBufferSize (cfg s) →
  ∃ f dp, write_burst now pkt e s a = Ok (with_writes s f [(a, burst_bytes (cfg s) e a)] [dp],
      next_burst (cfg s) a) ∧
    decoded (cfg s) now pkt a (burst_bytes (cfg s) e a) false dp.
Proof.
  intros Hg Ha Hz Hin Hroom. unfold write_burst. rewrite ceilLog2_u32_eq by done.
  cbv [mbind res_mbind mret res_mret]. set (s0 := inc writeBursts 1 _).
  change (isInWriteQueue s0) with (isInWriteQueue s). change (cfg s0) with (cfg s).
  rewrite bool_decide_false by done.
  destruct (decodeAddr_ok now s0 pkt a (burst_bytes (cfg s) e a) false) as (dp & -> & Hd & _);
    [by destruct Hg|done|].
  change (writeQueue s0) with (writeQueue s). rewrite (proj2 (Z.ltb_lt _ _)) by done. cbn [check].
  eexists _, dp. split; [|exact Hd]. unfold with_writes. simpl.
  replace ({[burstAlign (cfg s) a]} ∪ ∅ ∪ isInWriteQueue s) with
    ({[burstAlign (cfg s) a]} ∪ isInWriteQueue s) by set_solver. reflexivity.
Qed.

Lemma write_bursts_ok now pkt e n : ∀ s a,
  let ps := pieces (cfg s) n a e in
  geometry_ok s → Forall (λ p, 0 ≤ p.1 < total_bytes (cfg s) ∧ 0 < p.2 < 2 ^ 32) ps →
  NoDup (aligned (cfg s) <$> ps) →
  Z.of_nat (length (writeQueue s)) + Z.of_nat (length (unmerged s ps)) ≤ writeBufferSize (cfg s) →
  ∃ f new a', write_bursts n now pkt e s a = Ok (with_writes s f ps new, a') ∧
    Forall2 (λ b dp, decoded (cfg s) now pkt b.1 b.2 false dp) (unmerged s ps) new.
Proof.
  induction n as [|n IH]; intros s a ps Hg Hps Hnd Hroom.
  { exists (stats s), [], a. split; [|constructor]. simpl. unfold with_writes. simpl.
    rewrite app_nil_r, (left_id_L ∅ (∪)). by destruct s. }
  simpl in ps. apply Forall_cons in Hps as [[Ha Hz] Hps]. simpl in Ha, Hz. unfold ps in *. clear ps.
  set (ps := pieces (cfg s) n (next_burst (cfg s) a) e) in *. set (b := (a, burst_bytes (cfg s) e a)) in *.
  rewrite fmap_cons, NoDup_cons in Hnd. destruct Hnd as [Hni Hnd]. simpl write_bursts.
  unfold unmerged in Hroom |- *. rewrite filter_cons in Hroom |- *.
  destruct (decide (aligned (cfg s) b ∈ isInWriteQueue s)) as [Hin|Hin].
  - rewrite decide_False in * by auto.
    destruct (write_burst_merged now pkt e s a Hz Hin) as (f & ->). cbv [mbind res_mbind].
    destruct (IH (set_stats f s) (next_burst (cfg s) a)) as (f' & new & a' & -> & Hnew);
      [by destruct Hg|exact Hps|exact Hnd|exact Hroom|].
    exists f', new, a'. split; [|exact Hnew]. by rewrite <- (with_writes_merged s f f' b ps new Hin).
  - rewrite decide_True in * by auto. simpl length in Hroom.
    destruct (write_burst_new now pkt e s a Hg Ha Hz Hin) as (f & dp & -> & Hd); [lia|].
    cbv [mbind res_mbind]. set (s1 := with_writes _ _ _ _).
    assert (unmerged s1 ps = unmerged s ps) as Eu.
    { apply filter_ext_elem. intros x Hx. simpl.
      assert (aligned (cfg s) x ≠ aligned (cfg s) b) by (intros E; apply Hni; rewrite <- E; by apply list_elem_of_fmap_2).
      set_solver. }
    destruct (IH s1 (next_burst (cfg s) a)) as (f' & new & a' & E & Hnew);
      [by destruct Hg|exact Hps|exact Hnd| |].
    { change (cfg s1) with (cfg s). fold ps. rewrite Eu. simpl. rewrite length_app. unfold unmerged. simpl. lia. }
    rewrite E. exists f', (dp :: new), a'. split.
    + by rewrite <- (with_writes_new s f f' b ps dp new).
    + constructor; [exact Hd|]. change (cfg s1) with (cfg s) in Hnew. fold ps in Hnew. by rewrite Eu in Hnew.
Qed.

(** The bursts of a request lie in different DRAM bursts. *)
Lemma pieces_nodup c e (Hpow : burst_pow2 c) (He : e + burstSize c < 2 ^ 64) n : ∀ a,
  0 ≤ a < e → Z.of_nat n = windows (burstSize c) a e →
  NoDup (aligned c <$> pieces c n a e) ∧
  Forall (λ b, a / burstSize c * burstSize c ≤ aligned c b) (pieces c n a e).
Proof.
  pose proof (burst_pos c Hpow) as HB.
  assert (∀ x, 0 ≤ x → x < 2 ^ 64 → burstAlign c x = x / burstSize c * burstSize c) as Hal
    by (intros; by apply burstAlign_eq).
  induction n as [|n IH]; intros a Ha Hn; [split; constructor|]. cbn [pieces]. rewrite fmap_cons.
  rewrite (next_burst_eq c e Hpow He a Ha).
  destruct (windows_cons c e Hpow a Ha) as [[E Hle]|[Hgt E]].
  - assert (n = 0%nat) as -> by lia. simpl. split.
    + apply NoDup_singleton.
    + constructor; [|done]. unfold aligned. simpl. rewrite Hal by lia. lia.
  - pose proof (Z.mul_succ_div_gt a (burstSize c)).
    destruct (IH ((a / burstSize c + 1) * burstSize c)) as [Hnd Hf]; [lia|lia|].
    rewrite Z.div_mul in Hf by lia. split.
    + constructor; [|done]. intros (b & Eb & Hb)%list_elem_of_fmap. eapply Forall_forall in Hf; [|exact Hb].
      rewrite <- Eb in Hf. unfold aligned in Hf. simpl in Hf. rewrite Hal in Hf by lia. lia.
    + constructor; [unfold aligned; simpl; rewrite Hal by lia; lia|].
      eapply Forall_impl; [exact Hf|]. simpl. lia.
Qed.

(** A plain write of the bytes [a, a + size), and its effect [m'], [p'] on the memory. *)
Record write_req (now : Tick) (s : DRAMCtrl) (pkt : Z) (p : Packet.Packet) (a size : Z)
    (m' : AbstractMemory.Memory) (p' : Packet.Packet) : Prop := {
  wr_packet : packets s !! pkt = Some p;
  wr_alive : pkt ∉ pendingDelete s;
  wr_addr : Packet.getAddr p = Ok a;
  wr_size : Packet.getSize p = Ok size;
  wr_write : Packet.isRead p = false ∧ Packet.isWrite p = true ∧ Packet.isRowOp p = false;
  wr_plain : Packet.memInhibitAsserted p = false ∧ Packet.cmd p ≠ MemCmd.CleanEvict;
  wr_range : 0 ≤ a ∧ 0 < size ∧ a + size ≤ total_bytes (cfg s);
  wr_small : total_bytes (cfg s) + burstSize (cfg s) < 2 ^ 64 ∧ size + 2 * burstSize (cfg s) < 2 ^ 32;
  wr_access : AbstractMemory.access (mem s) p = Ok (m', p');
  wr_response : Packet.needsResponse p = true ∧ responded p p';
  wr_delays : 0 ≤ frontendLatency (cfg s) ∧ 0 ≤ Packet.headerDelay p ∧ 0 ≤ Packet.payloadDelay p;
  wr_port : port_ready now (port s) (response_time now (frontendLatency (cfg s)) p);
}.

Section write.
Context (now : Tick) (s : DRAMCtrl) (pkt : Z) (p : Packet.Packet) (a size : Z).
Context (m' : AbstractMemory.Memory) (p' : Packet.Packet).
Hypothesis Hg : geometry_ok s.
Hypothesis Hreq : write_req now s pkt p a size m' p'.
Abbreviation c := (cfg s).
Abbreviation n := (req_count c a size).
Abbreviation bursts := (req_bursts c a size).

Lemma write_windows : Z.of_nat n = windows (burstSize c) a (a + size) ∧ 0 < Z.of_nat n < 2 ^ 32.
Proof.
  destruct (wr_range _ _ _ _ _ _ _ _ Hreq) as (H1 & H2 & H3).
  destruct (wr_small _ _ _ _ _ _ _ _ Hreq) as [H4 H5]. by apply req_count_ok; [apply Hg|..].
Qed.

Lemma write_tiles : tiles (burstSize c) a (a + size) bursts ∧
  Forall (λ b, 0 ≤ b.1 < total_bytes c ∧ 0 < b.2 < 2 ^ 32) bursts ∧ NoDup (aligned c <$> bursts).
Proof.
  destruct write_windows as [Hw _]. destruct (wr_range _ _ _ _ _ _ _ _ Hreq) as (H1 & H2 & H3).
  destruct (wr_small _ _ _ _ _ _ _ _ Hreq) as [H4 H5].
  destruct (pieces_tile c (a + size) (go_burst _ Hg) ltac:(lia) n a ltac:(lia) Hw) as [Ht Hf].
  destruct (pieces_nodup c (a + size) (go_burst _ Hg) ltac:(lia) n a ltac:(lia) Hw) as [Hnd _].
  split_and!; [exact Ht| |exact Hnd]. eapply Forall_impl; [exact Hf|]. simpl. lia.
Qed.

(** The state after an accepted write, from the state [s] in which it is looked at. *)
Definition write_accepted (f : Stat → Z) (new : list DRAMPacket) (q : PacketQueue.PacketQueue) (e : Event)
    (s : DRAMCtrl) : DRAMCtrl :=
  set_nextReqEvent e (set_port q (put_packet pkt (Packet.with_delays p' 0 0)
    (set_mem m' (with_writes s f (req_bursts (cfg s) a size) new)))).

Lemma addToWriteQueue_write :
  Z.of_nat (length (writeQueue s)) + Z.of_nat n ≤ writeBufferSize c →
  ∃ f new q e, addToWriteQueue now s pkt (Z.of_nat n) = Ok (write_accepted f new q e s) ∧
    Forall2 (λ b dp, decoded c now pkt b.1 b.2 false dp) (unmerged s bursts) new ∧
    scheduled e = true ∧ pq_inv now q ∧
    PacketQueue.transmitList q = PacketQueue.emplace_sorted
      (PacketQueue.mkDeferred (response_time now (frontendLatency c) p) pkt)
      (PacketQueue.transmitList (port s)).
Proof.
  intros Hroom. destruct write_tiles as (_ & Hf & Hnd). destruct write_windows as [_ Hn].
  pose proof Hreq as [Hp _ Ha Hs (Hrd & Hwr & Hro) _ (R1 & R2 & R3) (R4 & R5) Hacc [Hnr Hres] (Hl & Hh & Hpl) Hport].
  unfold addToWriteQueue, get_packet. rewrite Hp. cbv [mbind res_mbind mret res_mret].
  rewrite Hwr, Hro, Ha, Hs. cbn [check]. rewrite Nat2Z.id.
  pose proof (burst_pos c (go_burst _ Hg)). rewrite add64_small by lia.
  destruct (write_bursts_ok now pkt (a + size) n s a Hg Hf Hnd) as (f & new & a' & -> & Hnew).
  { change (pieces c n a (a + size)) with bursts. pose proof (length_filter (λ b, aligned c b ∉ isInWriteQueue s) bursts).
    assert (length bursts = n) by apply pieces_length. unfold unmerged. lia. }
  set (s1 := with_writes _ _ _ _).
  destruct (accessAndRespond_ok now s1 pkt (frontendLatency c) p m' p') as (q' & E & Hi & Ht); [done..|].
  change (cfg s1) with c. rewrite E.
  match goal with |- context [kick now ?s2] => destruct (kick_ok now s2) as (e & -> & He & _) end.
  by exists f, new, q', e.
Qed.

End write.

Lemma write_req_arrive now s pkt p a size m' p' :
  geometry_ok s → write_req now s pkt p a size m' p' →
  geometry_ok (arrive now (clean s)) ∧ write_req now (arrive now (clean s)) pkt p a size m' p'.
Proof.
  intros [] []. destruct (arrive_frame now s) as [f ->]. split; [by split|].
  split; try done; [by apply clean_lookup|set_solver].
Qed.

Lemma recvTimingReq_write now s pkt p a size m' p' :
  geometry_ok s → write_req now s pkt p a size m' p' →
  let s0 := arrive now (clean s) in
  let n := Z.of_nat (req_count (cfg s) a size) in
  recvTimingReq now s pkt =
    if writeBufferSize (cfg s) <? Z.of_nat (length (writeQueue s)) + n
    then Ok (inc numWrRetry 1 (set_retryWrReq true s0), false)
    else (λ s1, (inc bytesWrittenSys size (inc writeReqs 1 s1), true)) <$> addToWriteQueue now s0 pkt n.
Proof.
  intros Hg Hreq s0 n. destruct (write_windows now s pkt p a size m' p' Hg Hreq) as [Hw Hn].
  pose proof Hreq as [Hp Hal Ha Hs (Hrd & Hwr & Hro) [Hmi Hce] (R1 & R2 & R3) (R4 & R5) _ _ _ _].
  unfold recvTimingReq, get_packet. rewrite (clean_lookup s pkt p Hp Hal).
  cbv [mbind res_mbind mret res_mret]. rewrite Hmi, bool_decide_false by done. cbn [orb]. fold s0.
  rewrite Hs, Ha. destruct (arrive_frame now s) as [f Ef].
  assert (cfg s0 = cfg s ∧ writeQueue s0 = writeQueue s) as [Ec Eq] by (unfold s0; by rewrite Ef).
  rewrite Ec, (count_windows (cfg s) (a + size) (go_burst _ Hg)) by lia.
  rewrite Hrd, Hwr, (proj2 (Z.eqb_neq size 0)) by lia. cbn [negb check].
  rewrite <- Hw. fold n. unfold writeQueueFull. rewrite Ec, Eq.
  destruct (_ <? _); [done|]. by destruct (addToWriteQueue now s0 pkt n).
Qed.

(** ** The handlers keep the invariant *)

(** The members the invariant is about. *)
Definition view (s : DRAMCtrl) :=
  ((cfg s, ranks s, busBusyUntil s, busState s),
   (readQueue s, writeQueue s, pendingRowOps s, isInWriteQueue s),
   (respQueue s, respondEvent s, helpers s)).

Lemma ctrl_ok_view s s' : view s' = view s → ctrl_ok s → ctrl_ok s'.
Proof.
  intros E [[] G2 G3 G4 G5 G6 G7 G8 G9 G10 G11 G12 G13 G14 G15].
  unfold view in E. injection E as E1 E2 E3 E4 E5 E6 E7 E8 E9 E10 E11.
  split; unfold outstanding, queued_reads, burst_set_ok; rewrite ?E1, ?E2, ?E3, ?E4, ?E5, ?E6, ?E7, ?E8, ?E9, ?E10, ?E11;
    try assumption.
  split; by rewrite ?E1, ?E2.
Qed.

Lemma tiles_small B l : ∀ a e, 0 < B → tiles B a e l → Forall (λ b, b.2 ≤ B) l.
Proof.
  induction l as [|[b z] l IH]; intros a e HB; simpl; [constructor|]. intros (-> & Hz & Hs & Ht).
  constructor; [|by eapply IH]. simpl. pose proof (Z.mul_div_le a B HB).
  pose proof (Z.mul_succ_div_gt (a + z - 1) B HB). nia.
Qed.

Lemma decoded_servable c now pkt b rd dp :
  decoded c now pkt b.1 b.2 rd dp → b.2 ≤ burstSize c → servable c dp ∧ DRAMPacket.is_row_op dp = false.
Proof. intros [] Hz. destruct_and!. split; [|done]. split; [done|done|lia|congruence]. Qed.

Lemma decoded_all c now pkt rd l new :
  Forall2 (λ b dp, decoded c now pkt b.1 b.2 rd dp) l new → Forall (λ b, b.2 ≤ burstSize c) l →
  Forall (λ p, servable c p ∧ DRAMPacket.is_row_op p = false) new.
Proof.
  induction 1 as [|b dp l new Hd _ IH]; [by constructor|]. intros [Hz Hl]%Forall_cons.
  constructor; [by eapply decoded_servable|by apply IH].
Qed.

Lemma row_ops_app l1 l2 : row_ops (l1 ++ l2) = row_ops l1 + row_ops l2.
Proof. unfold row_ops. rewrite filter_app, length_app. lia. Qed.

Lemma row_ops_none l : Forall (λ p, DRAMPacket.is_row_op p = false) l → row_ops l = 0.
Proof.
  induction 1 as [|p l Hp _ IH]; [done|]. rewrite row_ops_cons, Hp, IH. lia.
Qed.

(** The part of the state that a request at the write queue changes. *)
Lemma ctrl_ok_push_writes s s' new :
  ctrl_ok s → Forall (servable (cfg s)) new →
  (cfg s', ranks s', busBusyUntil s', busState s') = (cfg s, ranks s, busBusyUntil s, busState s) →
  (readQueue s', respQueue s', respondEvent s', helpers s') = (readQueue s, respQueue s, respondEvent s, helpers s) →
  writeQueue s' = writeQueue s ++ new → pendingRowOps s' = pendingRowOps s + row_ops new → burst_set_ok s' →
  ctrl_ok s'.
Proof.
  intros [[] G2 G3 G4 G5 G6 G7 G8 G9 G10 G11 G12 G13 G14 G15] Hnew [= E1 E2 E3 E4] [= E5 E6 E7 E8] Ew Ep Hset.
  split; unfold outstanding, queued_reads; rewrite ?E1, ?E2, ?E3, ?E4, ?E5, ?E6, ?E7, ?E8, ?Ew, ?Ep; try assumption.
  - split; by rewrite ?E1, ?E2.
  - by apply Forall_app.
  - by rewrite row_ops_app, G7.
  - intros Hb Hnil. apply (G8 Hb). by apply app_eq_nil in Hnil as [? _].
Qed.

Lemma burst_set_writes s f l new now pkt :
  burst_set_ok s → Forall2 (λ b dp, decoded (cfg s) now pkt b.1 b.2 false dp) (unmerged s l) new →
  burst_set_ok (with_writes s f l new).
Proof.
  intros Hs Hnew x. simpl. setoid_rewrite elem_of_app.
  assert (x ∈ isInWriteQueue s → ∃ p, (p ∈ writeQueue s ∨ p ∈ new) ∧ DRAMPacket.is_row_op p = false ∧
    burstAlign (cfg s) (DRAMPacket.addr p) = x) as Hold by (intros (q & ? & ? & ?)%Hs; exists q; auto).
  rewrite elem_of_union, elem_of_list_to_set. intros [(b & -> & Hb)%list_elem_of_fmap|?]; [|by apply Hold].
  destruct (decide (aligned (cfg s) b ∈ isInWriteQueue s)) as [Hin|Hin]; [by apply Hold|].
  assert (b ∈ unmerged s l) as [i Hi]%list_elem_of_lookup_1 by (by apply list_elem_of_filter).
  destruct (Forall2_lookup_l _ _ _ _ _ Hnew Hi) as (dp & Hdp & []).
  exists dp. split_and!; [right; by eapply list_elem_of_lookup_2|done|]. unfold aligned. by rewrite de_addr.
Qed.

Lemma unmerged_small s l B : Forall (λ b, b.2 ≤ B) l → Forall (λ b, b.2 ≤ B) (unmerged s l).
Proof.
  intros H. apply Forall_forall. intros b [_ Hb]%list_elem_of_filter. by eapply (Forall_forall _ l) in H.
Qed.

Lemma write_accepted_ok s now pkt p a size m' p' f new q e :
  ctrl_ok s → write_req now s pkt p a size m' p' →
  Forall2 (λ b dp, decoded (cfg s) now pkt b.1 b.2 false dp) (unmerged s (req_bursts (cfg s) a size)) new →
  ctrl_ok (write_accepted pkt a size m' p' f new q e s).
Proof.
  intros Hc Hreq Hnew. destruct (write_tiles now s pkt p a size m' p' (co_geometry _ Hc) Hreq) as (Ht & _).
  assert (Forall (λ p, servable (cfg s) p ∧ DRAMPacket.is_row_op p = false) new) as Hsv.
  { eapply decoded_all; [exact Hnew|]. apply unmerged_small. eapply tiles_small; [|exact Ht].
    apply burst_pos, (co_geometry _ Hc). }
  apply (ctrl_ok_push_writes s _ new); [done| |done|done|done| |].
  - eapply Forall_impl; [exact Hsv|]. by intros ? [].
  - simpl. rewrite row_ops_none; [lia|]. eapply Forall_impl; [exact Hsv|]. by intros ? [].
  - exact (burst_set_writes s f _ new now pkt (co_set _ Hc) Hnew).
Qed.

Lemma write_queued (now : Tick) (s : DRAMCtrl) (pkt : Z) (p : Packet.Packet) (a size : Z)
    (m' : AbstractMemory.Memory) (p' : Packet.Packet) :
  ctrl_ok s → write_req now s pkt p a size m' p' →
  let c := cfg s in
  let bursts := req_bursts c a size in
  let n := Z.of_nat (length bursts) in
  tiles (burstSize c) a (a + size) bursts ∧
  (writeBufferSize c < Z.of_nat (length (writeQueue s)) + n →
     ∃ s', recvTimingReq now s pkt = Ok (s', false) ∧ ctrl_ok s' ∧ retryWrReq s' = true ∧
       view s' = view s ∧ mem s' = mem s) ∧
  (Z.of_nat (length (writeQueue s)) + n ≤ writeBufferSize c →
     ∃ s' new, recvTimingReq now s pkt = Ok (s', true) ∧ ctrl_ok s' ∧ mem s' = m' ∧
       writeQueue s' = writeQueue s ++ new ∧
       Forall2 (λ b dp, decoded c now pkt b.1 b.2 false dp) (unmerged s bursts) new ∧
       isInWriteQueue s' = list_to_set (aligned c <$> bursts) ∪ isInWriteQueue s ∧
       Z.of_nat (length (writeQueue s')) ≤ writeBufferSize c ∧ scheduled (nextReqEvent s') = true ∧
       pq_inv now (port s') ∧
       PacketQueue.transmitList (port s') = PacketQueue.emplace_sorted
         (PacketQueue.mkDeferred (response_time now (frontendLatency c) p) pkt)
         (PacketQueue.transmitList (port s))).
Proof.
  intros Hc Hreq c bursts n. pose proof (co_geometry _ Hc) as Hg.
  destruct (write_tiles now s pkt p a size m' p' Hg Hreq) as (Ht & _).
  assert (n = Z.of_nat (req_count c a size)) as En by (unfold n, bursts, req_bursts; by rewrite pieces_length).
  pose proof (recvTimingReq_write now s pkt p a size m' p' Hg Hreq) as E. fold c in E. rewrite <- En in E.
  destruct (write_req_arrive now s pkt p a size m' p' Hg Hreq) as [Hg0 Hreq0].
  destruct (arrive_frame now s) as [f Ef]. rewrite Ef in E, Hg0, Hreq0. set (s0 := set_prevArrival _ _) in *.
  assert (ctrl_ok s0) as Hc0 by (by apply (ctrl_ok_view s)).
  split_and!; [done| |].
  - intros Hfull. rewrite E, (proj2 (Z.ltb_lt _ _)) by done. eexists. split; [reflexivity|].
    split; [|done]. by apply (ctrl_ok_view s).
  - intros Hroom. rewrite E, (proj2 (Z.ltb_ge _ _)) by done.
    destruct (addToWriteQueue_write now s0 pkt p a size m' p' Hg0 Hreq0) as (f' & new & q & e & Eadd & Hnew & He & Hi & Hl);
      [change (cfg s0) with c; rewrite <- En; exact Hroom|].
    change (cfg s0) with c in Eadd. rewrite <- En in Eadd. rewrite Eadd. simpl. eexists _, new.
    pose proof (write_accepted_ok s0 now pkt p a size m' p' f' new q e Hc0 Hreq0 Hnew) as Hc1.
    pose proof (Forall2_length _ _ _ Hnew) as Hln.
    pose proof (length_filter (λ b, aligned c b ∉ isInWriteQueue s) bursts).
    split_and!; [reflexivity|by eapply ctrl_ok_view; [|exact Hc1]|done|done|exact Hnew|done| |done|done|done].
    simpl. rewrite length_app, <- Hln. unfold n in Hroom. unfold unmerged.
    change (cfg s0) with c. change (isInWriteQueue s0) with (isInWriteQueue s). fold bursts. lia.
Qed.

(** C12: A timing write.  If the write queue has no room for its bursts it is refused and
    a retry is remembered.  Otherwise the memory access happens now and the response is
    queued at the static latency in order of time; the bursts that are already queued
    are merged, the others, in order, become DRAM packets at the end of the write queue;
    afterwards every burst of the write is recorded as queued, the queue is within its
    bound, a request event is scheduled, and the invariant of the controller holds. *)
Theorem recvTimingReq_write_correct (now : Tick) (s : DRAMCtrl) (pkt : Z) (p : Packet.Packet) (a size : Z)
    (m' : AbstractMemory.Memory) (p' : Packet.Packet) :
  ctrl_ok s → write_req now s pkt p a size m' p' →
  let c := cfg s in
  let bursts := req_bursts c a size in
  let n := Z.of_nat (length bursts) in
  tiles (burstSize c) a (a + size) bursts ∧
  (writeBufferSize c < Z.of_nat (length (writeQueue s)) + n →
     ∃ s', recvTimingReq now s pkt = Ok (s', false) ∧ ctrl_ok s' ∧ retryWrReq s' = true ∧
       view s' = view s ∧ mem s' = mem s) ∧
  (Z.of_nat (length (writeQueue s)) + n ≤ writeBufferSize c →
     ∃ s' new, recvTimingReq now s pkt = Ok (s', true) ∧ ctrl_ok s' ∧ mem s' = m' ∧
       writeQueue s' = writeQueue s ++ new ∧
       Forall2 (λ b dp, decoded c now pkt b.1 b.2 false dp) (unmerged s bursts) new ∧
       isInWriteQueue s' = list_to_set (aligned c <$> bursts) ∪ isInWriteQueue s ∧
       Z.of_nat (length (writeQueue s')) ≤ writeBufferSize c ∧ scheduled (nextReqEvent s') = true ∧
       pq_inv now (port s') ∧
       PacketQueue.transmitList (port s') = PacketQueue.emplace_sorted
         (PacketQueue.mkDeferred (response_time now (frontendLatency c) p) pkt)
         (PacketQueue.transmitList (port s))).
Proof. apply write_queued. Qed.

(** ** Witness: a write of two bursts *)

Definition ex_wpkt : Packet.Packet := Packet.new_Packet (Request.Request_phys 0 0x12345 100 0 0) MemCmd.WriteReq.
Definition ex_writer : DRAMCtrl := set_packets {[ 7 := ex_wpkt ]} ex_serving.
Definition ex_written : AbstractMemory.Memory * Packet.Packet :=
  ok_or (mem ex_writer, ex_wpkt) (AbstractMemory.access (mem ex_writer) ex_wpkt).

Lemma ex_write_req : write_req 1000 ex_writer 7 ex_wpkt 0x12345 100 ex_written.1 ex_written.2.
Proof.
  split; [reflexivity|apply not_elem_of_nil|reflexivity|reflexivity|done|done|split_and!; by vm_compute|
    split_and!; by vm_compute|vm_compute; reflexivity| |split_and!; by vm_compute|].
  - split; [reflexivity|]. split; vm_compute; reflexivity.
  - split; [by vm_compute|apply pq_inv_new|by intros x ?%elem_of_nil|by vm_compute].
Qed.

Lemma recvTimingReq_write_correct_witness :
  ∃ s', recvTimingReq 1000 ex_writer 7 = Ok (s', true) ∧ ctrl_ok s' ∧
    DRAMPacket.addr <$> writeQueue s' = (DRAMPacket.addr <$> writeQueue ex_writer) ++ [0x12345; 0x12380].
Proof.
  destruct (recvTimingReq_write_correct 1000 ex_writer 7 ex_wpkt 0x12345 100 ex_written.1 ex_written.2)
    as (_ & _ & H); [exact (ctrl_ok_view ex_serving ex_writer eq_refl ex_serving_ok)|apply ex_write_req|].
  destruct H as (s' & new & E & Hc & _ & Hq & Hnew & _); [by vm_compute|].
  exists s'. split; [exact E|]. split; [exact Hc|]. rewrite Hq, fmap_app. apply (f_equal (app _)).
  change (unmerged ex_writer _) with [(0x12345, 59); (0x12380, 41)] in Hnew.
  apply Forall2_cons_inv_l in Hnew as (d1 & l1 & D1 & Hnew & ->).
  apply Forall2_cons_inv_l in Hnew as (d2 & l2 & D2 & Hnew & ->). apply Forall2_nil_inv_l in Hnew as ->.
  clear E Hq Hc. destruct D1, D2. cbn [fmap list_fmap fst snd] in *. congruence.
Defined.
