(* ===== verification/DRAMInv.v ===== *)
(** * DRAM controller: the invariant of the whole controller (mem/dram_ctrl.cc)

    Every event of the controller, in any order: a request of each kind arrives,
    the request handler or the response handler runs, an event of a rank fires,
    the simulator asks for a drain.  [ctrl_step] is one such event, run by the
    code's own handler, and the invariant [ctrl_ok] holds after any number. *)

From stdpp Require Import base numbers list gmap sorting relations.
From S2P Require Import Prelude IntMath Packets AbstractMem Events PktQueue DRAMConfig DRAMState.
From S2P Require Import DRAMBank DRAMCtrlState DRAMAccess DRAMSched DRAMQueue DRAMRefresh DRAMNext.
From S2P Require Import DRAMServe DRAMWrite.
Import DRAMCtrl.
Local Open Scope Z_scope.

Lemma accessAndRespond_view now s pkt lat s1 : accessAndRespond now s pkt lat = Ok s1 → view s1 = view s.
Proof. intros E. by rewrite (accessAndRespond_frame _ _ _ _ _ E). Qed.

Lemma kick_view now s s' : kick now s = Ok s' → view s' = view s.
Proof. intros E. destruct (kick_ok now s) as (e & E' & _). rewrite E in E'. by injection E' as ->. Qed.

Lemma ctrl_ok_push_reads s s' H new :
  ctrl_ok s → Forall (λ p, servable (cfg s) p ∧ DRAMPacket.is_row_op p = false) new →
  (cfg s', ranks s', busBusyUntil s', busState s') = (cfg s, ranks s, busBusyUntil s, busState s) →
  (writeQueue s', pendingRowOps s', isInWriteQueue s') = (writeQueue s, pendingRowOps s, isInWriteQueue s) →
  (respQueue s', respondEvent s') = (respQueue s, respondEvent s) →
  readQueue s' = readQueue s ++ new → helpers s' = H → helper_ok H (new ++ outstanding s) →
  queued_reads s + Z.of_nat (length new) ≤ readBufferSize (cfg s) → ctrl_ok s'.
Proof.
  intros [[] G2 G3 G4 G5 G6 G7 G8 G9 G10 G11 G12 G13 G14 G15] Hnew [= E1 E2 E3 E4] [= E5 E6 E7] [= E8 E9] Er <- HH Hroom.
  split; unfold outstanding, queued_reads, burst_set_ok in *;
    rewrite ?E1, ?E2, ?E3, ?E4, ?E5, ?E6, ?E7, ?E8, ?E9, ?Er; try assumption.
  - split; by rewrite ?E1, ?E2.
  - by apply Forall_app.
  - eapply helper_ok_perm; [|exact HH]. rewrite (Permutation_app_comm (readQueue s) new). by rewrite app_assoc.
  - rewrite length_app. lia.
Qed.

Lemma read_step now s pkt p a size s' acc :
  ctrl_ok s → read_req s pkt p a size → recvTimingReq now s pkt = Ok (s', acc) → ctrl_ok s'.
Proof.
  intros Hc Hreq E. pose proof (co_geometry _ Hc) as Hg.
  rewrite (recvTimingReq_read now s pkt p a size Hg Hreq) in E.
  destruct (read_req_arrive now s pkt p a size Hg Hreq) as [Hg0 Hreq0].
  destruct (arrive_frame now s) as [f Ef]. rewrite Ef in *. set (s0 := set_prevArrival _ _) in *.
  assert (ctrl_ok s0) as Hc0 by (by apply (ctrl_ok_view s)).
  destruct (_ <? _) eqn:Efull.
  { injection E as <- _. by apply (ctrl_ok_view s). }
  apply Z.ltb_ge in Efull. set (n := req_count (cfg s) a size) in *.
  destruct (addToReadQueue_ok now s0 pkt p a size Hg0 Hreq0) as [Hhit Hmiss];
    [exact Efull|apply (co_helpers _ Hc0)|].
  destruct (decide (missing s0 (req_bursts (cfg s0) a size) = [])) as [Hm|Hm].
  - destruct (Hhit Hm) as (f' & Eadd). change (req_count (cfg s0) a size) with n in Eadd. rewrite Eadd in E.
    destruct (accessAndRespond _ _ _ _) as [s1|] eqn:Ea; [|done]. injection E as <- _.
    apply accessAndRespond_view in Ea. apply (ctrl_ok_view s1); [done|]. by apply (ctrl_ok_view s0).
  - destruct (Hmiss Hm) as (f' & new & H & e & Eadd & _ & HH & Hnew).
    change (req_count (cfg s0) a size) with n in Eadd. rewrite Eadd in E. injection E as <- _.
    destruct (req_tiles s0 pkt p a size Hg0 Hreq0) as [Ht _].
    apply (ctrl_ok_push_reads s0 _ H new); try done.
    + eapply decoded_all; [exact Hnew|]. apply Forall_forall. intros b [_ Hb]%list_elem_of_filter.
      apply tiles_small in Ht; [|apply burst_pos, Hg0]. by eapply (Forall_forall _ _) in Ht.
    + pose proof (Forall2_length _ _ _ Hnew). pose proof (missing_le s0 (req_bursts (cfg s0) a size)).
      assert (length (req_bursts (cfg s0) a size) = n) by apply pieces_length.
      change (queued_reads s0) with (queued_reads s). change (cfg s0) with (cfg s) in *. lia.
Qed.

Lemma rowop_step now s pkt p a m ad size s' acc :
  ctrl_ok s → rowop_write now s pkt p a m ad size → recvTimingReq now s pkt = Ok (s', acc) → ctrl_ok s'.
Proof.
  intros Hc Hw E. pose proof (co_geometry _ Hc) as Hg.
  rewrite (recvTimingReq_rowop now s pkt p a m ad size Hg Hw) in E.
  destruct (rowop_write_arrive now s pkt p a m ad size Hg Hw) as [Hg0 Hw0].
  destruct (arrive_frame now s) as [f Ef]. rewrite Ef in *. set (s0 := set_prevArrival _ _) in *.
  assert (ctrl_ok s0) as Hc0 by (by apply (ctrl_ok_view s)).
  destruct (addToWriteQueue now s0 pkt _) as [s1|] eqn:Ea; [|done]. injection E as <- _.
  apply (ctrl_ok_view s1); [done|]. destruct Hw0 as [Hp _ _ _ [_ Hwr] Hreq _ (Hd & H1 & H2) _ _ _].
  unfold addToWriteQueue, get_packet in Ea. rewrite Hp in Ea. cbv [mbind res_mbind mret res_mret] in Ea.
  rewrite Hwr, (rq_flag _ _ _ _ Hreq) in Ea. cbn [check assert_] in Ea.
  destruct (enqueue_rowop_ok now s0 pkt p a Hg0 (rq_ptr _ _ _ _ Hreq) (rq_payload _ _ _ _ Hreq) Hd H1 H2)
    as (dp & Eq & [(I1 & I2 & I3) (I4 & I5 & I6) _ _ [I7 I8]]).
  rewrite Eq in Ea. destruct (accessAndRespond _ _ _ _) as [s3|] eqn:E3; [|done].
  apply accessAndRespond_view in E3. apply kick_view in Ea. eapply ctrl_ok_view; [exact (eq_trans Ea E3)|].
  apply (ctrl_ok_push_writes s0 _ [dp]); try done.
  - apply Forall_singleton. split; [done|done| |by rewrite I2].
    rewrite I7. pose proof (burst_pos _ (go_burst _ Hg0)). lia.
  - simpl. by rewrite row_ops_cons, I1.
  - intros x Hx. destruct (co_set _ Hc0 x Hx) as (q & ? & ?). exists q. simpl. rewrite elem_of_app. auto.
Qed.

Lemma finish_response_view now rest s s' :
  finish_response now rest s = Ok s' →
  view s' = view (set_respondEvent (respondEvent s') (set_respQueue rest s)).
Proof.
  unfold finish_response. destruct rest as [|q rest]; intros E.
  - injection E as <-. by destruct (_ && _), (retryRdReq _).
  - cbv [mbind res_mbind mret res_mret] in E. destruct (check _ _); [|done]. destruct (check _ _); [|done].
    destruct (schedule _ _ _) as [e|]; [|done]. injection E as <-. by destruct (retryRdReq _).
Qed.

Lemma respond_burst_view now s dp s1 :
  respond_burst now s dp = Ok s1 → view s1 = view (set_helpers (helpers s1) s).
Proof.
  unfold respond_burst. destruct (DRAMPacket.burstHelper dp) as [h|].
  - destruct (helpers s !! h) as [b|]; [|done]. destruct (_ =? _); intros E.
    + apply bind_Ok_inv in E as (s2 & E2 & E). injection E as <-. simpl.
      rewrite (accessAndRespond_frame _ _ _ _ _ E2). done.
    + by injection E as <-.
  - intros E. rewrite (accessAndRespond_frame _ _ _ _ _ E). by destruct s.
Qed.

Lemma respond_burst_helpers now s dp l s1 :
  helper_ok (helpers s) (dp :: l) → respond_burst now s dp = Ok s1 → helper_ok (helpers s1) l.
Proof.
  intros Hok E. apply helper_ok_pop in Hok. unfold respond_burst in E.
  destruct (DRAMPacket.burstHelper dp) as [h|].
  - destruct Hok as (b & Eb & Eu & Hok). rewrite Eb, Eu in E.
    destruct (Z.eqb_spec (burstsServiced b + 1) (burstCount b)) as [Ec|Ec];
      [rewrite decide_True in Hok by done|rewrite decide_False in Hok by done]; destruct Hok as [_ Hok].
    + apply bind_Ok_inv in E as (s2 & E2 & E). injection E as <-. simpl.
      rewrite (accessAndRespond_frame _ _ _ _ _ E2). simpl. by rewrite delete_insert_eq.
    + by injection E as <-.
  - rewrite (accessAndRespond_frame _ _ _ _ _ E). simpl. by destruct Hok.
Qed.

Lemma respond_step now s s' :
  ctrl_ok s → respondEvent s = Some now → processRespondEvent now (set_respondEvent None s) = Ok s' → ctrl_ok s'.
Proof.
  intros [G1 G2 G3 G4 G5 G6 G7 G8 G9 G10 G11 G12 G13 G14 G15] He E. unfold processRespondEvent in E. simpl in E.
  destruct (respQueue s) as [|dp rest] eqn:Eq; [done|]. apply bind_Ok_inv in E as (s1 & E1 & E).
  pose proof (respond_burst_view _ _ _ _ E1) as V1. pose proof (finish_response_view _ _ _ _ E) as V2.
  assert (helper_ok (helpers s1) (readQueue s ++ rest)) as HH.
  { eapply (respond_burst_helpers now (set_respondEvent None s)); [|exact E1]. eapply helper_ok_perm; [|exact G12].
    unfold outstanding. rewrite Eq. by rewrite <- Permutation_middle. }
  simpl in G11. rewrite G11 in He. injection He as Et. apply StronglySorted_inv in G9 as [G9 Hle].
  unfold view in V1, V2. simpl in V1, V2.
  injection V1 as A1 A2 A3 A4 A5 A6 A7 A8 A9 A10. injection V2 as B1 B2 B3 B4 B5 B6 B7 B8 B9 B10.
  assert (respondEvent s' = DRAMPacket.readyTime <$> head rest) as Hev.
  { destruct (finish_response_ok now rest s1) as (s2 & E2 & [_ _ F _ _]); [done| |congruence].
    intros q Hq. rewrite <- Et. eapply (Forall_forall _ rest) in Hle; [exact Hle|].
    destruct rest; [done|]. injection Hq as ->. by left. }
  assert (cfg s' = cfg s ∧ ranks s' = ranks s ∧ readQueue s' = readQueue s ∧ writeQueue s' = writeQueue s) as (C1 & C2 & C3 & C4)
    by (split_and!; congruence).
  split; unfold outstanding, queued_reads, burst_set_ok in *;
    rewrite ?C1, ?C2, ?C3, ?C4, ?B3, ?A3, ?B4, ?A4, ?B7, ?A7, ?B8, ?A8, ?B9, ?B10; try done.
  - destruct G1. split; by rewrite ?C1, ?C2.
  - intros x Hx. apply G10. by right.
  - rewrite Eq in G13. simpl in G13. lia.
Qed.

(** ** The events of the ranks *)

(** What the handlers of a rank's events keep: the columns of its banks stay as they
    are, and a rank that drains has no refresh scheduled. *)
Record event_kept (c : Config) (r r' : Rank) : Prop := {
  ek_ok : rank_ok c r';
  ek_cols : colAllowedAt <$> banks r' = colAllowedAt <$> banks r;
  ek_drain : refreshState r' = REF_DRAIN → refreshEvent r' = None;
}.

(** The parts of a rank that the invariant reads. *)
Definition rank_view (r : Rank) := (banks r, actTicks r, numBanksActive r).

Lemma rank_ok_view c r r' : rank_view r' = rank_view r → rank_ok c r → rank_ok c r'.
Proof. unfold rank_view. intros [= E1 E2 E3] []. split; by rewrite ?E1, ?E2, ?E3. Qed.

Lemma schedulePowerEvent_view now st t r r' :
  schedulePowerEvent now st t r = Ok r' →
  rank_view r' = rank_view r ∧ (refreshState r', refreshEvent r') = (refreshState r, refreshEvent r).
Proof.
  unfold schedulePowerEvent. destruct (assert_ _); [|done]. simpl. destruct (scheduled _); [done|].
  destruct (schedule _ _ _); [|done]. by intros [= <-].
Qed.

Lemma refresh_precharge_kept c ts now r r' :
  timing_wf c → rank_ok c r → fits c 1 now → (∀ k, k ∈ banks r → fits c 1 (preAllowedAt k)) →
  refresh_precharge c ts now r = Ok r' → event_kept c r r'.
Proof.
  intros Hw Hr Hn Hf. unfold refresh_precharge.
  destruct (all_pre_at_spec now (banks r)) as (H1 & H2 & H3). specialize (H3 c 1 Hn Hf).
  intros E. apply bind_Ok_inv in E as (r1 & E1 & E). apply bind_Ok_inv in E as (_ & _ & E). injection E as <-.
  assert (rank_ok c r1 ∧ colAllowedAt <$> banks r1 = colAllowedAt <$> banks r) as [Hok Hcol].
  { case_bool_decide; cbn [negb] in E1.
    - apply schedulePowerEvent_view in E1 as [V _]. split; [by eapply rank_ok_view|].
      by injection V as -> _ _.
    - destruct (precharge_all_ok c ts now (all_pre_at now (banks r)) r) as (r2 & E2 & [Hok Hb _ _ _ _]); [done..|].
      rewrite E2 in E1. cbv [mbind res_mbind] in E1.
      destruct (doCommand_ok c ts PREA 0 _ r2 Hw H3) as [l El]. rewrite El in E1. injection E1 as <-.
      rewrite take_ge, drop_ge, app_nil_r in Hb by lia. simpl. split; [by destruct Hok|].
      by rewrite Hb, <- list_fmap_compose. }
  split; [by apply (rank_ok_view c r1)|done|done].
Qed.

Lemma refresh_run_kept c ts now r r' :
  refresh_wf c → rank_ok c r → fits c 1 now → (∀ x, x ∈ actTicks r → x ≤ now) → refreshState r = REF_RUN →
  refresh_run c ts now r = Ok r' → event_kept c r r'.
Proof.
  intros (Hw & Hx & Hrp) [A1 A2 A3 A4 A5 _] Hn Hpast Hs E. unfold refresh_run in E.
  rewrite (fits_add64 c) in E by (done || delay).
  apply bind_Ok_inv in E as (_ & _ & E). apply bind_Ok_inv in E as (_ & _ & E).
  set (r1 := on_banks _ r) in E. destruct (doCommand_ok c ts REF 0 now r1 Hw Hn) as [l El].
  rewrite El in E. cbv [mbind res_mbind] in E.
  destruct (fatal_if _); [|done]. destruct (schedule _ _ _); [|done]. destruct (assert_ _); [|done].
  apply schedulePowerEvent_view in E as [V E]. injection E as E _.
  split; [|injection V as -> _ _; simpl; by rewrite <- list_fmap_compose|intros E'; simpl in E; congruence].
  eapply rank_ok_view; [exact V|]. split; simpl; [by rewrite length_fmap|done|done| | |].
  - rewrite open_count_fmap by done. done.
  - intros k' x (k & -> & Hk)%list_elem_of_fmap Hxin. simpl. destruct (A5 k x Hk Hxin).
    specialize (Hpast x Hxin). destruct Hw as [_ Hnn _]. lia.
  - intros k' back (k & -> & Hk)%list_elem_of_fmap Hl _. simpl.
    specialize (Hpast back ltac:(by eapply last_Some_elem_of)). lia.
Qed.

Lemma processRefreshEvent_kept c ts now busy r r' :
  refresh_wf c → rank_ok c r → fits c 1 now → (∀ k, k ∈ banks r → fits c 1 (preAllowedAt k)) →
  (∀ x, x ∈ actTicks r → x ≤ now) → (refreshState r ≠ REF_RUN → refreshEvent r = None) →
  processRefreshEvent c ts now busy r = Ok r' → event_kept c r r'.
Proof.
  intros Hw Hr Hn Hf Hp He E. unfold processRefreshEvent in E.
  destruct (decide (refreshState r = REF_RUN)) as [Hs|Hs].
  { rewrite Hs in E. simpl in E. rewrite Hs in E. simpl in E. rewrite Hs in E. simpl in E. by eapply refresh_run_kept. }
  specialize (He Hs). set (r0 := if bool_decide _ then _ else r) in E.
  assert (rank_view r0 = rank_view r ∧ refreshEvent r0 = None ∧
    (refreshState r0 = REF_DRAIN ∨ refreshState r0 = REF_PRE)) as (V & He0 & Hs0).
  { unfold r0. destruct (decide (refreshState r = REF_IDLE));
      [rewrite bool_decide_true by done; simpl; auto|rewrite bool_decide_false by done].
    by destruct (refreshState r); auto. }
  pose proof (rank_ok_view c _ _ V Hr) as Hr0. injection V as V1 V2 V3.
  assert (∀ r1, rank_view r1 = rank_view r0 → refresh_precharge c ts now r1 = Ok r' → event_kept c r r') as Hpre.
  { intros r1 V E1. destruct (refresh_precharge_kept c ts now r1 r') as [K1 K2 K3];
      [apply Hw|by eapply rank_ok_view|done| |done|].
    - injection V as -> _ _. by rewrite V1.
    - split; [done| |done]. rewrite K2. injection V as -> _ _. by rewrite V1. }
  destruct Hs0 as [Hs0|Hs0]; rewrite Hs0 in E; simpl in E.
  - destruct busy; simpl in E.
    + injection E as <-. split; [done|by rewrite V1|done].
    + by eapply Hpre; [|exact E].
  - rewrite Hs0 in E. simpl in E. by eapply Hpre; [|exact E].
Qed.

Lemma processPowerEvent_kept c ts now busy nextReq r r' e :
  refresh_wf c → rank_ok c r → fits c 1 now → (∀ k, k ∈ banks r → fits c 1 (preAllowedAt k)) →
  (∀ x, x ∈ actTicks r → x ≤ now) → (refreshState r = REF_DRAIN → refreshEvent r = None) →
  processPowerEvent c ts now busy nextReq r = Ok (r', e) → event_kept c r r'.
Proof.
  intros Hw Hr Hn Hf Hp He E. unfold processPowerEvent in E.
  apply bind_Ok_inv in E as ([r1 e1] & E1 & E).
  assert (rank_view r1 = rank_view r ∧ refreshEvent r1 = refreshEvent r ∧
    (refreshState r1 = refreshState r ∨ refreshState r1 = REF_IDLE)) as (V & Hv1 & Hv2).
  { repeat first [case_bool_decide | apply bind_Ok_inv in E1 as (? & ? & E1)]; injection E1 as <- <-; simpl; auto. }
  pose proof (rank_ok_view c _ _ V Hr) as Hr1. injection V as V1 V2 V3.
  case_bool_decide.
  - apply bind_Ok_inv in E as (u & Hs & E). apply bind_Ok_inv in E as (r2 & E2 & E). injection E as <- _.
    assert (refreshState r1 = REF_RUN) as Hs1.
    { unfold assert_, check in Hs. case_bool_decide; done. }
    destruct (processRefreshEvent_kept c ts now busy r1 r2) as [K1 K2 K3]; try done; [by rewrite V1|by rewrite V2|].
    split; [done|by rewrite K2, V1|done].
  - injection E as <- _. split; [done|by rewrite V1|]. rewrite Hv1. intros Hd. destruct Hv2; [|congruence].
    apply He. congruence.
Qed.

Lemma ctrl_ok_rank_event s i r r' :
  ctrl_ok s → get_rank s i = Ok r → event_kept (cfg s) r r' → ctrl_ok (put_rank i r' s).
Proof.
  intros [[] G2 G3 G4 G5 G6 G7 G8 G9 G10 G11 G12 G13 G14 G15] Hg [K1 K2 K3].
  assert (ranks s !! Z.to_nat i = Some r) as Hi.
  { by apply at_Ok_inv in Hg as [_ Hg]. }
  assert (∀ x, x ∈ ranks (put_rank i r' s) → x = r' ∨ x ∈ ranks s) as Hin.
  { intros x. simpl. intros [j Hj]%list_elem_of_lookup_1. apply list_lookup_insert_Some in Hj as [(_ & -> & _)|[_ Hj]]; [auto|].
    right. by eapply list_elem_of_lookup_2. }
  split; try done.
  - split; simpl; [done|done| |by rewrite length_insert|done]. by apply Forall_insert.
  - intros p Hp x k Hx Hk. simpl. destruct (Hin x Hx) as [->|Hx']; [|by apply (G10 p Hp x k)].
    assert (colAllowedAt k ∈ colAllowedAt <$> banks r) as (k' & -> & Hk')%list_elem_of_fmap.
    { rewrite <- K2. by apply list_elem_of_fmap_2. }
    apply (G10 p Hp r k'); [|done]. by eapply list_elem_of_lookup_2.
  - intros x Hx. destruct (Hin x Hx) as [->|]; auto.
Qed.

(** ** All events of the controller *)

(** The ticks are small and the activations of the rank have happened when one of its
    refresh events fires. *)
Record rank_event_ok (now : Tick) (s : DRAMCtrl) (i : Z) (r : Rank) : Prop := {
  re_rank : get_rank s i = Ok r;
  re_wf : refresh_wf (cfg s);
  re_ticks : ticks_ok now s;
  re_past : ∀ x, x ∈ actTicks r → x ≤ now;
}.

(** One event.  A timing request arrives at the port, of any of the three kinds; the
    event of the request handler, of the response handler or of a rank fires at the tick
    it is scheduled for; a drain is requested; or the rest of the system (the port, the
    packets, the memory, the statistics) changes and leaves the queues alone. *)
Inductive ctrl_step (s s' : DRAMCtrl) : Prop :=
  | step_read now pkt p a size acc :
      read_req s pkt p a size → recvTimingReq now s pkt = Ok (s', acc) → ctrl_step s s'
  | step_write now pkt p a size m' p' acc :
      write_req now s pkt p a size m' p' → recvTimingReq now s pkt = Ok (s', acc) → ctrl_step s s'
  | step_rowop now pkt p a m ad size acc :
      rowop_write now s pkt p a m ad size → recvTimingReq now s pkt = Ok (s', acc) → ctrl_step s s'
  | step_next now :
      nextReqEvent s = Some now → ticks_ok now s →
      processNextReqEvent now (set_nextReqEvent None s) = Ok s' → ctrl_step s s'
  | step_respond now :
      respondEvent s = Some now → processRespondEvent now (set_respondEvent None s) = Ok s' → ctrl_step s s'
  | step_refresh now i r :
      rank_event_ok now s i r → refreshEvent r = Some now → refreshEvent_fires now i s = Ok s' → ctrl_step s s'
  | step_power now i r :
      rank_event_ok now s i r → powerEvent r = Some now → powerEvent_fires now i s = Ok s' → ctrl_step s s'
  | step_activate now i r :
      get_rank s i = Ok r → activateEvent r = Some now → activateEvent_fires now i s = Ok s' → ctrl_step s s'
  | step_precharge now i r :
      get_rank s i = Ok r → prechargeEvent r = Some now → prechargeEvent_fires now i s = Ok s' → ctrl_step s s'
  | step_drain now : dmDrain now s = Ok s' → ctrl_step s s'
  | step_env : view s' = view s → ctrl_step s s'.

Lemma write_step now s pkt p a size m' p' s' acc :
  ctrl_ok s → write_req now s pkt p a size m' p' → recvTimingReq now s pkt = Ok (s', acc) → ctrl_ok s'.
Proof.
  intros Hc Hreq E. destruct (write_queued now s pkt p a size m' p' Hc Hreq) as (_ & Hfull & Hroom).
  destruct (Z.lt_ge_cases (writeBufferSize (cfg s))
    (Z.of_nat (length (writeQueue s)) + Z.of_nat (length (req_bursts (cfg s) a size)))) as [H|H].
  - destruct (Hfull H) as (s1 & E1 & Hc1 & _). congruence.
  - destruct (Hroom H) as (s1 & new & E1 & Hc1 & _). congruence.
Qed.

Lemma rank_bank_fits now s r k :
  timing_wf (cfg s) → ticks_ok now s → r ∈ ranks s → k ∈ banks r → fits (cfg s) 1 (preAllowedAt k).
Proof. intros Hw Ht Hr Hk. destruct (tk_banks _ _ Ht r k Hr Hk) as (?&?&?). by eapply fits_mono; [|done|lia]. Qed.

Lemma schedulePowerEvent_kept c now st t r r' :
  rank_ok c r → (refreshState r = REF_DRAIN → refreshEvent r = None) →
  schedulePowerEvent now st t r = Ok r' → event_kept c r r'.
Proof.
  intros Hr Hd E. apply schedulePowerEvent_view in E as [V E]. injection E as E1 E2.
  split; [by eapply rank_ok_view|by injection V as -> _ _|by rewrite E1, E2].
Qed.

Lemma event_kept_refl c r :
  rank_ok c r → (refreshState r = REF_DRAIN → refreshEvent r = None) → event_kept c r r.
Proof. by split. Qed.

Lemma event_kept_trans c r r1 r' :
  banks r1 = banks r → event_kept c r1 r' → event_kept c r r'.
Proof. intros E [K1 K2 K3]. split; [done|by rewrite K2, E|done]. Qed.

Lemma event_rank s i r :
  ctrl_ok s → get_rank s i = Ok r →
  r ∈ ranks s ∧ rank_ok (cfg s) r ∧ (refreshState r = REF_DRAIN → refreshEvent r = None).
Proof.
  intros Hc [_ Hi]%at_Ok_inv. pose proof (list_elem_of_lookup_2 _ _ _ Hi) as Hin.
  split_and!; [done| |by apply Hc]. pose proof (go_ranks _ (co_geometry _ Hc)) as Hf.
  rewrite Forall_forall in Hf. by apply Hf.
Qed.

Lemma refresh_step now i r s s' :
  ctrl_ok s → rank_event_ok now s i r → refreshEvent_fires now i s = Ok s' → ctrl_ok s'.
Proof.
  intros Hc [Hg Hw Ht Hp] E. destruct (event_rank s i r Hc Hg) as (Hin & Hr & _).
  unfold refreshEvent_fires in E. rewrite Hg in E. cbv [mbind res_mbind] in E.
  destruct (processRefreshEvent _ _ _ _ _) as [r'|] eqn:Er; [|done]. injection E as <-.
  apply (ctrl_ok_rank_event s i r r' Hc Hg). apply (event_kept_trans _ r (set_refreshEvent None r)); [done|].
  eapply processRefreshEvent_kept; [done|by apply (rank_ok_view _ r)|..|exact Er]; [|intros k Hk|done|done].
  - eapply fits_mono; [|apply Ht|lia]. apply Hw.
  - by eapply rank_bank_fits; [apply Hw|done|exact Hin|].
Qed.

Lemma power_step now i r s s' :
  ctrl_ok s → rank_event_ok now s i r → powerEvent_fires now i s = Ok s' → ctrl_ok s'.
Proof.
  intros Hc [Hg Hw Ht Hp] E. destruct (event_rank s i r Hc Hg) as (Hin & Hr & Hd).
  unfold powerEvent_fires in E. rewrite Hg in E. cbv [mbind res_mbind] in E.
  destruct (processPowerEvent _ _ _ _ _ _) as [[r' e]|] eqn:Er; [|done]. injection E as <-. apply ctrl_ok_next.
  apply (ctrl_ok_rank_event s i r r' Hc Hg). apply (event_kept_trans _ r (set_powerEvent None r)); [done|].
  eapply processPowerEvent_kept; [done|by apply (rank_ok_view _ r)|..|exact Er]; [|intros k Hk|done|done].
  - eapply fits_mono; [|apply Ht|lia]. apply Hw.
  - by eapply rank_bank_fits; [apply Hw|done|exact Hin|].
Qed.

Lemma activate_step now i r s s' :
  ctrl_ok s → get_rank s i = Ok r → activateEvent_fires now i s = Ok s' → ctrl_ok s'.
Proof.
  intros Hc Hg E. destruct (event_rank s i r Hc Hg) as (_ & Hr & Hd).
  unfold activateEvent_fires in E. rewrite Hg in E. cbv [mbind res_mbind] in E.
  destruct (processActivateEvent _ _) as [r'|] eqn:Er; [|done]. injection E as <-.
  apply (ctrl_ok_rank_event s i r r' Hc Hg). apply (event_kept_trans _ r (set_activateEvent None r)); [done|].
  assert (rank_ok (cfg s) (set_activateEvent None r)) by (by apply (rank_ok_view _ r)).
  unfold processActivateEvent in Er. destruct (negb _); [by eapply schedulePowerEvent_kept|].
  injection Er as <-. by apply event_kept_refl.
Qed.

Lemma precharge_event_step now i r s s' :
  ctrl_ok s → get_rank s i = Ok r → prechargeEvent_fires now i s = Ok s' → ctrl_ok s'.
Proof.
  intros Hc Hg E. destruct (event_rank s i r Hc Hg) as (_ & Hr & Hd).
  unfold prechargeEvent_fires in E. rewrite Hg in E. cbv [mbind res_mbind] in E.
  destruct (processPrechargeEvent _ _) as [r'|] eqn:Er; [|done]. injection E as <-.
  apply (ctrl_ok_rank_event s i r r' Hc Hg). apply (event_kept_trans _ r (set_prechargeEvent None r)); [done|].
  assert (rank_ok (cfg s) (set_prechargeEvent None r)) by (by apply (rank_ok_view _ r)).
  unfold processPrechargeEvent in Er. destruct (_ =? 0); [by eapply schedulePowerEvent_kept|].
  injection Er as <-. by apply event_kept_refl.
Qed.

Lemma dmDrain_view now s s' : dmDrain now s = Ok s' → view s' = view s.
Proof.
  unfold dmDrain, drain. simpl. intros E. apply bind_Ok_inv in E as ([s1 d] & E1 & E). injection E as <-.
  destruct (negb _); [|by injection E1 as <- _].
  apply bind_Ok_inv in E1 as (s2 & E2 & E1). injection E1 as <- _.
  destruct (_ && _); [|by injection E2 as <-]. apply bind_Ok_inv in E2 as (e & _ & E2). by injection E2 as <-.
Qed.

Lemma ctrl_step_ok s s' : ctrl_step s s' → ctrl_ok s → ctrl_ok s'.
Proof.
  intros Hs Hc. destruct Hs.
  - by eapply read_step.
  - by eapply write_step.
  - by eapply rowop_step.
  - destruct (processNextReqEvent_ok now (set_nextReqEvent None s)) as (s1 & E1 & Hc1 & _);
      [by apply ctrl_ok_next|by destruct H0; split|done|congruence].
  - by eapply respond_step.
  - by eapply refresh_step.
  - by eapply power_step.
  - by eapply activate_step.
  - by eapply precharge_event_step.
  - eapply ctrl_ok_view; [by eapply dmDrain_view|done].
  - by eapply ctrl_ok_view.
Qed.

Lemma ctrl_steps_ok s s' : rtc ctrl_step s s' → ctrl_ok s → ctrl_ok s'.
Proof. induction 1 as [|x y z Hxy _ IH]; [done|]. intros Hx. by apply IH, (ctrl_step_ok x). Qed.

(** ** The first state *)

(** The configurations the constructor is used with. *)
Record configured (c : Config) : Prop := {
  cf_config : config_wf c;
  cf_burst : burst_pow2 c;
  cf_small : ranksPerChannel c * banksPerRank c ≤ 64;
  cf_timing : timing_wf c ∧ ccd_ok c;
  cf_limit : 0 ≤ activationLimit c;
  cf_thresholds : 0 ≤ writeHighThreshold c ∧ 0 ≤ minWritesPerSwitch c ∧ 0 ≤ readBufferSize c;
  cf_refresh : tRP (tm c) < tREFI (tm c);
}.

(** A rank whose first refresh is scheduled. *)
Definition started (now ref_tick : Tick) (r : Rank) : Rank :=
  set_refreshEvent (Some ref_tick) (set_pwrStateTick now r).

Lemma new_Rank_ok c i : configured c → rank_ok c (new_Rank c i).
Proof.
  intros H. pose proof (cf_small _ H). destruct (cf_config _ H) as [].
  apply (hist_inv_new c i); [nia|apply H].
Qed.

Lemma startup_ranks now c s :
  cfg s = c → configured c → fits c 2 now → (∀ r, r ∈ ranks s → refreshEvent r = None) →
  let ref_tick := now + tREFI (tm c) - tRP (tm c) in
  foldM (startup_rank now) s (seqZ 0 (Z.of_nat (length (ranks s))))
    = Ok (set_ranks (started now ref_tick <$> ranks s) s).
Proof.
  intros Ec Hc Hn He t. destruct (cf_timing _ Hc) as [Hw _]. pose proof (cf_refresh _ Hc).
  assert (0 ≤ tRP (tm c) ∧ 0 ≤ tREFI (tm c) ≤ span c) as [H1 H2] by (split; [destruct Hw as [_ Hnn _]; lia|delay]).
  destruct (foldM_ok (λ l s', s' = set_ranks ((started now t <$> take (length l) (ranks s))
    ++ drop (length l) (ranks s)) s) (startup_rank now) (seqZ 0 (Z.of_nat (length (ranks s)))) s) as (s' & E & ->).
  - by destruct s.
  - intros l1 x l2 s1 El ->.
    assert (seqZ 0 (Z.of_nat (length (ranks s))) !! length l1 = Some x) as Hx
      by (rewrite El; by apply list_lookup_middle).
    apply lookup_seqZ in Hx as [Hx Hlt]. replace x with (Z.of_nat (length l1)) by lia. clear Hx El.
    set (n := length l1) in *. destruct (lookup_lt_is_Some_2 (ranks s) n ltac:(lia)) as [r Hr].
    assert (length (started now t <$> take n (ranks s)) = n) as Hlen by (rewrite length_fmap, length_take; lia).
    unfold startup_rank, get_rank, at_. rewrite decide_True by lia. simpl. rewrite Nat2Z.id.
    rewrite lookup_app_r, Hlen, Nat.sub_diag, lookup_drop, Nat.add_0_r, Hr by lia. cbn -[DRAMRefresh.startup].
    rewrite Ec. rewrite (fits_add64 c) by (first [delay | by eapply fits_mono; [|done|lia]]).
    destruct Hn as [Hn1 Hn2]. rewrite sub64_small by nia. fold t.
    unfold DRAMRefresh.startup. rewrite (proj2 (Z.ltb_lt _ _)) by lia. simpl.
    rewrite (He r) by (by eapply list_elem_of_lookup_2). rewrite schedule_ok by lia. simpl.
    eexists. split; [reflexivity|]. unfold put_rank. simpl. rewrite Nat2Z.id, length_app, Nat.add_1_r. fold n.
    rewrite (take_S_r _ _ r), fmap_app, (drop_S _ r) by done. simpl.
    rewrite <- (Nat.add_0_r n) at 1. rewrite <- Hlen at 1. rewrite insert_app_r. simpl. by rewrite <- app_assoc.
  - rewrite E. rewrite length_seqZ, Nat2Z.id, firstn_all, drop_all, app_nil_r. done.
Qed.

Lemma new_DRAMCtrl_started p m now s0 :
  new_DRAMCtrl p m = Ok s0 → configured (cfg s0) → fits (cfg s0) 3 now →
  ∃ s1, startup now true s0 = Ok s1 ∧ ctrl_ok s1 ∧ cfg s1 = cfg s0 ∧
    (∀ r, r ∈ ranks s1 → refreshEvent r = Some (now + tREFI (tm (cfg s0)) - tRP (tm (cfg s0)))) ∧
    busBusyUntil s1 = now + tRP (tm (cfg s0)) + tRCD (tm (cfg s0)) + tCL (tm (cfg s0)).
Proof.
  unfold new_DRAMCtrl. intros E Hc Hn. apply bind_Ok_inv in E as (c & _ & E).
  assert (cfg s0 = c) as Ecfg by (by injection E as <-). rewrite Ecfg in *.
  destruct (cf_timing _ Hc) as [Hw Hccd]. unfold startup.
  assert (∃ off, divCeil 64 now (tCK (tm c)) = Ok off) as [off Hoff].
  { unfold divCeil. rewrite (proj2 (Z.eqb_neq _ 0)) by (destruct Hw; lia). by eexists. }
  simpl. rewrite Ecfg, Hoff. cbv [mbind res_mbind]. set (s1 := set_timeStampOffset off _).
  assert (∀ r, r ∈ ranks s1 → ∃ i, r = new_Rank c i) as Hnew.
  { subst s1. injection E as <-. simpl. intros r (i & -> & _)%list_elem_of_fmap. by exists i. }
  change (length (ranks s0)) with (length (ranks s1)).
  rewrite (startup_ranks now c s1 Ecfg Hc); [|by eapply fits_mono; [|done|lia]|by intros r [i ->]%Hnew].
  simpl. rewrite Ecfg. destruct Hn as [Hn1 Hn2].
  assert (0 ≤ tRP (tm c) ≤ span c ∧ 0 ≤ tRCD (tm c) ≤ span c ∧ 0 ≤ tCL (tm c) ≤ span c) as (B1 & B2 & B3).
  { split_and!; try delay; destruct Hw as [_ Hnn _]; lia. }
  rewrite (add64_small now), (add64_small (now + _)), (add64_small (now + _ + _)) by lia.
  eexists. split; [reflexivity|]. split_and!; [|by simpl|by simpl; intros r (r0 & -> & _)%list_elem_of_fmap|done].
  destruct (cf_thresholds _ Hc) as (T1 & T2 & T3).
  assert (Z.of_nat (length (ranks s1)) = ranksPerChannel c) as Hlen.
  { subst s1. injection E as <-. simpl. rewrite length_fmap, length_seqZ.
    destruct (cf_config _ Hc). lia. }
  subst s1. injection E as <-. simpl in *.
  split; simpl; [|done|done|lia|done|done|done|by intros [|]|constructor|by intros p' ?%elem_of_nil|done| |done| |].
  - split; simpl; [apply Hc|apply Hc| |by rewrite length_fmap|apply Hc].
    apply Forall_forall. intros r' (r & -> & Hr)%list_elem_of_fmap. destruct (Hnew r Hr) as [i ->].
    by apply (rank_ok_view _ (new_Rank c i)), new_Rank_ok.
  - split; [intros h b; by rewrite lookup_empty|by intros dp h ?%elem_of_nil|constructor].
  - by intros x ?%elem_of_empty.
  - intros r' (r & -> & Hr)%list_elem_of_fmap. by destruct (Hnew r Hr) as [i ->].
Qed.


Definition ex_new : DRAMCtrl := ok_or ex_ctrl (new_DRAMCtrl DDR4_2400_x64 ex_memory).
Definition ex_started : DRAMCtrl := ok_or ex_new (startup 1000 true ex_new).
Definition ex_drained : DRAMCtrl := ok_or ex_started (dmDrain 2000 ex_started).

Lemma ex_configured : configured (cfg ex_new).
Proof.
  change (cfg ex_new) with DDR4_config. split.
  - apply (DDR4_wf RoRaBaCoCh).
  - exists 6. split; [lia|done].
  - vm_compute. congruence.
  - split; [apply DDR4_timing_wf|apply DDR4_ccd].
  - vm_compute. congruence.
  - by vm_compute.
  - by vm_compute.
Qed.

