(* ===== verification/Translation.v ===== *)
(** * Address translation of split accesses and row operations (cpu/translation.hh)

    An access that is translated in parts (the two halves of a split access,
    the operands of a row operation) shares one [WholeTranslationState]: each
    part reports to it when the TLB is done, and the last one completes the
    whole.  Requests and data buffers are heap objects, which the CPU, the TLB
    and the state share. *)

From stdpp Require Import base gmap list.
From S2P Require Import Prelude Packets.
Import Request.
Local Open Scope Z_scope.

(** ** The heap *)

(** A fault is a pointer to a fault object; [NoFault] is the null pointer. *)
Abbreviation Fault := (option Z).
Abbreviation NoFault := (@None Z).

(** What [uint8_t *data] points to: the bytes of a plain access or the payload of a row
    operation. *)
Inductive buffer :=
  | BData (bs : list Z)
  | BRowOp (a : RowOpPayload).

Record heap := mkHeap {
  h_next : Z;
  h_reqs : gmap Z Request;
  h_bufs : gmap Z buffer;
}.

(** [new Request(...)], [*p], [*p = r] and [delete p]. *)
Definition new_req (r : Request) (h : heap) : heap * Z :=
  (mkHeap (h_next h + 1) (<[h_next h := r]> (h_reqs h)) (h_bufs h), h_next h).
Definition new_opt_req (r : option Request) (h : heap) : heap * option Z :=
  match r with
  | Some r => let '(h, p) := new_req r h in (h, Some p)
  | None => (h, None)
  end.
Definition deref {A} (p : option A) : res A := match p with Some p => Ok p | None => Err UB end.
Definition get_req (h : heap) (p : Z) : res Request := deref (h_reqs h !! p).
Definition put_req (p : Z) (r : Request) (h : heap) : heap :=
  mkHeap (h_next h) (<[p := r]> (h_reqs h)) (h_bufs h).
Definition delete_req (p : option Z) (h : heap) : heap :=
  match p with
  | Some p => mkHeap (h_next h) (delete p (h_reqs h)) (h_bufs h)
  | None => h
  end.

Definition new_buf (b : buffer) (h : heap) : heap * Z :=
  (mkHeap (h_next h + 1) (h_reqs h) (<[h_next h := b]> (h_bufs h)), h_next h).
Definition get_buf (h : heap) (p : Z) : res buffer := deref (h_bufs h !! p).
Definition put_buf (p : Z) (b : buffer) (h : heap) : heap :=
  mkHeap (h_next h) (h_reqs h) (<[p := b]> (h_bufs h)).
Definition delete_buf (p : Z) (h : heap) : heap :=
  mkHeap (h_next h) (h_reqs h) (delete p (h_bufs h)).

(** [(Request::RowOpPayload* ) data] *)
Definition get_payload (h : heap) (p : option Z) : res RowOpPayload :=
  p ← deref p;
  b ← get_buf h p;
  match b with BRowOp a => mret a | BData _ => Err UB end.
Definition put_payload (p : option Z) (a : RowOpPayload) (h : heap) : res heap :=
  p ← deref p; mret (put_buf p (BRowOp a) h).

(** [addrs->dest = x] and the like. *)
Definition set_dest (x : Z) (a : RowOpPayload) : RowOpPayload := mkPayload (op a) x (src1 a) (src2 a).
Definition set_src1 (x : Z) (a : RowOpPayload) : RowOpPayload := mkPayload (op a) (dest a) x (src2 a).
Definition set_src2 (x : Z) (a : RowOpPayload) : RowOpPayload := mkPayload (op a) (dest a) (src1 a) x.

(** [req->splitRowOp(addrs, req_dest, req_src1, req_src2)]: the requests are new. *)
Definition split_rowop (req : Z) (addrs : RowOpPayload) (h : heap) : res (heap * Z * option Z * option Z) :=
  r ← get_req h req;
  '(rd, r1, r2) ← splitRowOp r addrs;
  let '(h, req_dest) := new_req rd h in
  let '(h, req_src1) := new_opt_req r1 h in
  let '(h, req_src2) := new_opt_req r2 h in
  mret (h, req_dest, req_src1, req_src2).

(** [setTranslateLatency()] and [taskId(id)] of a request. *)
Definition setTranslateLatency (now : Z) (r : Request) : Request :=
  mkRequest (_paddr r) (_size r) (_masterId r) (_flags r) (privateFlags r) (_time r)
    (_taskId r) (_asid r) (_vaddr r) (_extraData r) (_contextId r) (_threadId r) (_pc r)
    (sub64 now (_time r)) (accessDelta r) (depth r).
Definition setTaskId (id : Z) (r : Request) : Request :=
  mkRequest (_paddr r) (_size r) (_masterId r) (_flags r) (privateFlags r) (_time r)
    id (_asid r) (_vaddr r) (_extraData r) (_contextId r) (_threadId r) (_pc r)
    (translateDelta r) (accessDelta r) (depth r).

(** ** [WholeTranslationState] *)

(** [BaseTLB::Mode] *)
Inductive Mode := Read | Write | Execute.

#[global] Instance Mode_eq_dec : EqDecision Mode.
Proof. solve_decision. Defined.

Record WholeTranslationState := mkState {
  outstanding : Z;
  faults : list Fault;
  delay : bool;
  isSplit : bool;
  isRowOp : bool;
  mainReq : Z;
  sreqLow : option Z;
  sreqHigh : option Z;
  sreqDest : option Z;
  sreqSrc1 : option Z;
  sreqSrc2 : option Z;
  data : option Z;
  res_ : option Z;
  mode : Mode;
}.
Definition set_outstanding (v : Z) (st : WholeTranslationState) : WholeTranslationState :=
  mkState v (faults st) (delay st) (isSplit st) (isRowOp st) (mainReq st) (sreqLow st)
    (sreqHigh st) (sreqDest st) (sreqSrc1 st) (sreqSrc2 st) (data st) (res_ st) (mode st).
Definition set_faults (v : list Fault) (st : WholeTranslationState) : WholeTranslationState :=
  mkState (outstanding st) v (delay st) (isSplit st) (isRowOp st) (mainReq st) (sreqLow st)
    (sreqHigh st) (sreqDest st) (sreqSrc1 st) (sreqSrc2 st) (data st) (res_ st) (mode st).
Definition set_delay (v : bool) (st : WholeTranslationState) : WholeTranslationState :=
  mkState (outstanding st) (faults st) v (isSplit st) (isRowOp st) (mainReq st) (sreqLow st)
    (sreqHigh st) (sreqDest st) (sreqSrc1 st) (sreqSrc2 st) (data st) (res_ st) (mode st).

Definition no_faults : list Fault := [NoFault; NoFault; NoFault].

(** The three constructors: a single translation, a split one and that of a row operation. *)
Definition state_single (req : Z) (data res_ : option Z) (m : Mode) : res WholeTranslationState :=
  assert_ (bool_decide (m = Read) || bool_decide (m = Write));;
  mret (mkState 1 no_faults false false false req None None None None None data res_ m).

Definition state_split (req low high : Z) (data res_ : option Z) (m : Mode) : res WholeTranslationState :=
  assert_ (bool_decide (m = Read) || bool_decide (m = Write));;
  mret (mkState 2 no_faults false true false req (Some low) (Some high) None None None data res_ m).

Definition state_rowop (req dest : Z) (src1 src2 data res_ : option Z) (m : Mode) :
    res WholeTranslationState :=
  assert_ (bool_decide (m = Write));;
  let n := match src1, src2 with None, _ => 1 | Some _, None => 2 | Some _, Some _ => 3 end in
  mret (mkState n no_faults false false true req None None (Some dest) src1 src2 data res_ m).

(** [faults[i]]; there are three. *)
Definition fault_at (st : WholeTranslationState) (i : nat) : Fault := default NoFault (faults st !! i).
Definition set_fault_at (index : Z) (fault : Fault) (st : WholeTranslationState) : res WholeTranslationState :=
  if (0 <=? index) && (index <? 3) then mret (set_faults (<[Z.to_nat index := fault]> (faults st)) st)
  else Err UB.

(** [mainReq->setFlags(p->getFlags())] *)
Definition copy_flags (main p : Z) (h : heap) : res heap :=
  r ← get_req h p;
  f ← getFlags r;
  m ← get_req h main;
  m ← setFlags m f;
  mret (put_req main m h).

(** The end of a split translation. *)
Definition finish_split (st : WholeTranslationState) (h : heap) : res heap :=
  low ← deref (sreqLow st);
  h ← (if bool_decide (fault_at st 0 = NoFault) then
         r ← get_req h low;
         pa ← getPaddr r;
         m ← get_req h (mainReq st);
         mret (put_req (mainReq st) (setPaddr m pa) h)
       else mret h);
  h ← copy_flags (mainReq st) low h;
  high ← deref (sreqHigh st);
  copy_flags (mainReq st) high h.

(** One operand: [if (faults[i] == NoFault) addrs->x = req->getPaddr();], and the flags. *)
Definition finish_operand (st : WholeTranslationState) (i : nat) (set : Z → RowOpPayload → RowOpPayload)
    (req : Z) (h : heap) : res heap :=
  h ← (if bool_decide (fault_at st i = NoFault) then
         r ← get_req h req;
         pa ← getPaddr r;
         a ← get_payload h (data st);
         put_payload (data st) (set pa a) h
       else mret h);
  copy_flags (mainReq st) req h.

(** The end of the translation of a row operation. *)
Definition finish_rowop (st : WholeTranslationState) (h : heap) : res heap :=
  d ← deref (sreqDest st);
  h ← finish_operand st 0 set_dest d h;
  h ← (match sreqSrc1 st with Some r => finish_operand st 1 set_src1 r h | None => mret h end);
  h ← (match sreqSrc2 st with Some r => finish_operand st 2 set_src2 r h | None => mret h end);
  m ← get_req h (mainReq st);
  mret (put_req (mainReq st) (setPaddr m 0) h).

(** [finish(fault, index)] *)
Definition finish (fault : Fault) (index : Z) (st : WholeTranslationState) (h : heap) :
    res (heap * WholeTranslationState * bool) :=
  assert_ (negb (outstanding st =? 0));;
  st ← set_fault_at index fault st;
  let st := set_outstanding (outstanding st - 1) st in
  h ← (if isSplit st && (outstanding st =? 0) then finish_split st h else mret h);
  h ← (if isRowOp st && (outstanding st =? 0) then finish_rowop st h else mret h);
  mret (h, st, outstanding st =? 0).

(** [getFault()] *)
Definition getFault (st : WholeTranslationState) : Fault :=
  if negb (isSplit st) then fault_at st 0
  else
    match fault_at st 0, fault_at st 1 with
    | Some f, _ => Some f
    | None, Some f => Some f
    | None, None => fault_at st 2
    end.

(** [setNoFault()] *)
Definition setNoFault (st : WholeTranslationState) : WholeTranslationState := set_faults no_faults st.

(** [isPrefetch()] and [isStrictlyOrdered()] *)
Definition isPrefetch (st : WholeTranslationState) (h : heap) : res bool :=
  m ← get_req h (mainReq st); mret (Request.isPrefetch m).
Definition isStrictlyOrdered (st : WholeTranslationState) (h : heap) : res bool :=
  m ← get_req h (mainReq st); mret (Request.isStrictlyOrdered m).

(** [deleteReqs()] *)
Definition deleteReqs (st : WholeTranslationState) (h : heap) : heap :=
  let h := delete_req (Some (mainReq st)) h in
  let h := if isSplit st then delete_req (sreqHigh st) (delete_req (sreqLow st) h) else h in
  if isRowOp st then delete_req (sreqSrc2 st) (delete_req (sreqSrc1 st) (delete_req (sreqDest st) h)) else h.

(** ** [DataTranslation] *)

(** The execution context of a part ([ExecContextPtr]): it has the heap and at most one
    translation under way, and is told when that is complete. *)
Class ExecContext (X : Type) := {
  get_heap : X → heap;
  set_heap : heap → X → X;
  get_state : X → option WholeTranslationState;
  set_state : option WholeTranslationState → X → X;
  finishTranslation : WholeTranslationState → X → res X;
}.

Section data_translation.
Context {X : Type} `{!ExecContext X}.

(** The request of part [index]. *)
Definition part_req (st : WholeTranslationState) (index : Z) : option Z :=
  if isRowOp st then
    if index =? 0 then sreqDest st else if index =? 1 then sreqSrc1 st else sreqSrc2 st
  else if isSplit st then
    if index =? 0 then sreqLow st else sreqHigh st
  else Some (mainReq st).

(** [DataTranslation::finish(fault, req, tc, mode)] of part [index]. *)
Definition part_finish (now : Z) (index : Z) (fault : Fault) (req : Z) (m : Mode) (x : X) : res X :=
  match get_state x with
  | None => Err UB
  | Some st =>
      assert_ (bool_decide (m = mode st));;
      '(h, st, complete) ← finish fault index st (get_heap x);
      if (complete : bool) then
        h ← (if bool_decide (getFault st = NoFault)
             then r ← get_req h req; mret (put_req req (setTranslateLatency now r) h) else mret h);
        finishTranslation st (set_heap h x)
      else mret (set_state (Some st) (set_heap h x))
  end.

(** The TLB reports the result of a part: it has updated the request, and calls [finish]. *)
Definition tlb_reports (now : Z) (m : Mode) (index : Z) (fault : Fault) (r : Request) (x : X) : res X :=
  match get_state x with
  | None => Err UB
  | Some st =>
      p ← deref (part_req st index);
      part_finish now index fault p m (set_heap (put_req p r (get_heap x)) x)
  end.

(** [translateTiming(req, tc, translation, mode)]: [tlb] gives the fault and the updated
    request, or [None] if a page walk delays the answer. *)
Definition translateTiming (tlb : Request → Mode → option (Fault * Request)) (now : Z) (m : Mode)
    (index : Z) (x : X) : res X :=
  match get_state x with
  | None => Err UB
  | Some st =>
      p ← deref (part_req st index);
      r ← get_req (get_heap x) p;
      match tlb r m with
      | Some (fault, r') => tlb_reports now m index fault r' x
      | None => mret x
      end
  end.

(** The translations of the operands of a row operation, those it has. *)
Definition translate_operands (tlb : Request → Mode → option (Fault * Request)) (now : Z)
    (req_src1 req_src2 : option Z) (x : X) : res X :=
  x ← translateTiming tlb now Write 0 x;
  x ← (match req_src1 with Some _ => translateTiming tlb now Write 1 x | None => mret x end);
  match req_src2 with Some _ => translateTiming tlb now Write 2 x | None => mret x end.

(** [markDelayed()] *)
Definition markDelayed (x : X) : X :=
  match get_state x with Some st => set_state (Some (set_delay true st)) x | None => x end.

End data_translation.

(** ** Finishing the parts in any order *)

Class ExecContextLaws (X : Type) `{!ExecContext X} := {
  get_heap_set_heap h (x : X) : get_heap (set_heap h x) = h;
  get_heap_set_state o (x : X) : get_heap (set_state o x) = get_heap x;
  get_state_set_heap h (x : X) : get_state (set_heap h x) = get_state x;
  get_state_set_state o (x : X) : get_state (set_state o x) = o;
  set_heap_set_heap h h' (x : X) : set_heap h (set_heap h' x) = set_heap h x;
  set_state_set_state o o' (x : X) : set_state o (set_state o' x) = set_state o x;
  set_heap_set_state h o (x : X) : set_heap h (set_state o x) = set_state o (set_heap h x);
}.

(** The number of parts. *)
Definition parts (st : WholeTranslationState) : list Z :=
  if isRowOp st then
    [0] ++ (match sreqSrc1 st with Some _ => [1] | None => [] end)
        ++ (match sreqSrc2 st with Some _ => [2] | None => [] end)
  else if isSplit st then [0; 1] else [0].

(** A translation that has just begun: every part is outstanding. *)
Record begun (st : WholeTranslationState) : Prop := {
  bg_count : outstanding st = Z.of_nat (length (parts st));
  bg_faults : faults st = no_faults;
  bg_dest : isRowOp st = true → is_Some (sreqDest st);
  bg_split : isSplit st = true → is_Some (sreqLow st) ∧ is_Some (sreqHigh st);
  bg_kind : isRowOp st = true → isSplit st = false;
}.

Lemma parts_range st0 i : i ∈ parts st0 → 0 ≤ i < 3.
Proof.
  unfold parts. destruct (isRowOp st0), (isSplit st0), (sreqSrc1 st0), (sreqSrc2 st0);
    rewrite ?elem_of_app, ?elem_of_cons, ?elem_of_nil; naive_solver lia.
Qed.

Lemma parts_nodup st0 : NoDup (parts st0).
Proof. unfold parts. destruct (isRowOp st0), (isSplit st0), (sreqSrc1 st0), (sreqSrc2 st0); by apply (bool_decide_unpack _). Qed.

Lemma part_req_some st0 i : begun st0 → i ∈ parts st0 → is_Some (part_req st0 i).
Proof.
  intros Hst Hi. destruct Hst as [_ _ Hd Hs _]. unfold part_req, parts in *.
  destruct (isRowOp st0); [|destruct (isSplit st0)].
  - destruct (Hd eq_refl) as [d ->]. destruct (sreqSrc1 st0), (sreqSrc2 st0); simpl in Hi;
      rewrite ?elem_of_cons, ?elem_of_nil in Hi; naive_solver.
  - destruct (Hs eq_refl) as [[? ->] [? ->]]. destruct (i =? 0); by eexists.
  - by eexists.
Qed.

Section any_order.
Context {X : Type} `{!ExecContext X, !ExecContextLaws X}.
Context (N : Z → Z) (st0 : WholeTranslationState) (F : Z → Fault) (R : Z → Request).
Hypothesis Hst : begun st0.

(** The state and the heap when the parts [l] have finished: part [i] with fault [F i] and
    its request updated to [R i]. *)
Definition faults_after (l : list Z) : list Fault :=
  (λ i, if decide (i ∈ l) then F i else NoFault) <$> [0; 1; 2].
Definition state_after (l : list Z) : WholeTranslationState :=
  set_outstanding (outstanding st0 - Z.of_nat (length l)) (set_faults (faults_after l) st0).
Definition report (h : heap) (i : Z) : heap :=
  match part_req st0 i with Some p => put_req p (R i) h | None => h end.
Definition heap_after (l : list Z) (h : heap) : heap := foldl report h l.

(** The TLB reports the parts [l], one after the other, part [i] at tick [N i]. *)
Fixpoint reports (l : list Z) (x : X) : res X :=
  match l with
  | [] => mret x
  | i :: l => x ← tlb_reports (N i) (mode st0) i (F i) (R i) x; reports l x
  end.

(** What completes the translation once all parts are done. *)
Definition finish_all (h : heap) : res heap :=
  let st := state_after (parts st0) in
  h ← (if isSplit st then finish_split st h else mret h);
  if isRowOp st then finish_rowop st h else mret h.

Lemma faults_after_snoc l i :
  0 ≤ i < 3 → faults_after (l ++ [i]) = <[Z.to_nat i := F i]> (faults_after l).
Proof using Type.
  intros Hi. unfold faults_after. assert (i = 0 ∨ i = 1 ∨ i = 2) as [->|[->| ->]] by lia; simpl;
    repeat case_decide; rewrite ?elem_of_app, ?list_elem_of_singleton in *; naive_solver.
Qed.

Lemma faults_after_perm l l' : l ≡ₚ l' → faults_after l = faults_after l'.
Proof using Type.
  intros Hp. unfold faults_after. apply list_fmap_ext. intros n i _.
  destruct (decide (i ∈ l)), (decide (i ∈ l')); try done; by rewrite Hp in *.
Qed.

Lemma state_after_perm l l' : l ≡ₚ l' → state_after l = state_after l'.
Proof using Type. intros Hp. unfold state_after. by rewrite (faults_after_perm l l' Hp), Hp. Qed.

Lemma state_after_nil : state_after [] = st0.
Proof.
  unfold state_after. rewrite Z.sub_0_r. destruct Hst as [_ Hf _ _ _].
  replace (faults_after []) with no_faults by done. destruct st0; simpl in *. by subst.
Qed.

Lemma part_req_after l i : part_req (state_after l) i = part_req st0 i.
Proof using Type. done. Qed.

Lemma finish_step l i h :
  i ∈ parts st0 → (length l < length (parts st0))%nat →
  finish (F i) i (state_after l) h =
    h ← (if decide (S (length l) = length (parts st0)) then
           (h ← (if isSplit st0 then finish_split (state_after (l ++ [i])) h else mret h);
            if isRowOp st0 then finish_rowop (state_after (l ++ [i])) h else mret h)
         else mret h);
    mret (h, state_after (l ++ [i]), bool_decide (S (length l) = length (parts st0))).
Proof.
  intros Hi Hl. pose proof (parts_range st0 i Hi) as Hr. pose proof (bg_count _ Hst) as Hc.
  unfold finish. rewrite (proj2 (Z.eqb_neq _ 0)) by (simpl; lia). simpl.
  unfold set_fault_at. rewrite (proj2 (Z.leb_le _ _)), (proj2 (Z.ltb_lt _ _)) by lia. simpl.
  assert (set_outstanding (outstanding st0 - Z.of_nat (length l) - 1)
    (set_faults (<[Z.to_nat i := F i]> (faults_after l)) (state_after l)) = state_after (l ++ [i])) as ->.
  { unfold state_after. rewrite faults_after_snoc by done. rewrite length_app. cbn [length].
    by replace (outstanding st0 - Z.of_nat (length l + 1)) with (outstanding st0 - Z.of_nat (length l) - 1) by lia. }
  replace (outstanding st0 - Z.of_nat (length l) - 1 =? 0) with (bool_decide (S (length l) = length (parts st0))).
  2:{ case_bool_decide; symmetry; [apply Z.eqb_eq|apply Z.eqb_neq]; lia. }
  case_bool_decide; [rewrite decide_True by done|rewrite decide_False by done].
  - rewrite !andb_true_r. destruct (isSplit st0); simpl; [|done]. by destruct (finish_split _ h).
  - by rewrite !andb_false_r.
Qed.

Lemma reports_app l1 l2 x : reports (l1 ++ l2) x = x ← reports l1 x; reports l2 x.
Proof using Type.
  revert x. induction l1 as [|i l1 IH]; intros x; simpl; [done|].
  destruct (tlb_reports _ _ _ _ _ _); [apply IH|done].
Qed.

(** The context after the parts [l]. *)
Definition context_after (l : list Z) (h : heap) (x : X) : X := set_state (Some (state_after l)) (set_heap h x).

Lemma get_state_after l h x : get_state (context_after l h x) = Some (state_after l).
Proof. apply get_state_set_state. Qed.
Lemma get_heap_after l h x : get_heap (context_after l h x) = h.
Proof. unfold context_after. by rewrite get_heap_set_state, get_heap_set_heap. Qed.

Lemma tlb_reports_eq l i h x :
  i ∈ parts st0 → (length l < length (parts st0))%nat →
  tlb_reports (N i) (mode st0) i (F i) (R i) (context_after l h x) =
    '(h, st, complete) ← finish (F i) i (state_after l) (report h i);
    if (complete : bool) then
      h ← (if bool_decide (getFault st = NoFault)
           then p ← deref (part_req st0 i); r ← get_req h p; mret (put_req p (setTranslateLatency (N i) r) h)
           else mret h);
      finishTranslation st (set_state (Some (state_after l)) (set_heap h x))
    else mret (set_state (Some st) (set_heap h x)).
Proof.
  intros Hi Hl. unfold tlb_reports, part_finish, context_after, report. rewrite get_state_set_state, part_req_after.
  destruct (part_req_some st0 i Hst Hi) as [p Hp]. rewrite Hp. simpl.
  rewrite get_state_set_heap, get_state_set_state, bool_decide_true by done. simpl.
  rewrite get_heap_set_heap, get_heap_set_state, get_heap_set_heap.
  destruct (finish _ _ _ _) as [[[h' st'] b]|]; simpl; [|done].
  destruct b; [case_bool_decide|]; rewrite ?set_heap_set_heap, ?set_heap_set_state, ?set_heap_set_heap; simpl.
  - destruct (get_req h' p); simpl; [|done].
    by rewrite ?set_heap_set_heap, ?set_heap_set_state, ?set_heap_set_heap.
  - by rewrite set_heap_set_state, set_heap_set_heap.
  - by rewrite set_state_set_state.
Qed.

Lemma reports_prefix l : ∀ l0 h x,
  (length (l0 ++ l) < length (parts st0))%nat → Forall (λ i, i ∈ parts st0) l →
  reports l (context_after l0 h x) = Ok (context_after (l0 ++ l) (heap_after l h) x).
Proof.
  induction l as [|i l IH]; intros l0 h x Hl Hin; simpl; [by rewrite app_nil_r|].
  rewrite length_app in Hl. simpl in Hl. apply Forall_cons in Hin as [Hi Hin].
  rewrite tlb_reports_eq, finish_step by (done || lia).
  rewrite decide_False, bool_decide_false by lia. simpl.
  fold (context_after (l0 ++ [i]) (report h i) x).
  rewrite IH by (done || (rewrite !length_app; simpl; lia)). by rewrite <- app_assoc.
Qed.

Lemma reports_all l i h x :
  l ++ [i] ≡ₚ parts st0 →
  reports (l ++ [i]) (context_after [] h x) =
    h ← finish_all (heap_after (l ++ [i]) h);
    h ← (if bool_decide (getFault (state_after (parts st0)) = NoFault)
         then p ← deref (part_req st0 i); r ← get_req h p; mret (put_req p (setTranslateLatency (N i) r) h)
         else mret h);
    finishTranslation (state_after (parts st0)) (set_state (Some (state_after l)) (set_heap h x)).
Proof.
  intros Hp. pose proof (Permutation_length Hp) as Hlen. rewrite length_app in Hlen. simpl in Hlen.
  assert (Forall (λ j, j ∈ parts st0) l) as Hl.
  { apply Forall_forall. intros j Hj. rewrite <- Hp. set_solver. }
  assert (∀ m : res X, (x ← m; mret x) = m) as Hret by (by intros []).
  rewrite reports_app, reports_prefix by (simpl; done || lia). cbn [mbind res_mbind reports app].
  fold (@mbind res _ X X). rewrite Hret.
  rewrite tlb_reports_eq, finish_step by (first [lia|rewrite <- Hp; set_solver]).
  rewrite decide_True, bool_decide_true by lia. unfold finish_all, heap_after. rewrite foldl_snoc.
  rewrite (state_after_perm _ _ Hp). change (isSplit (state_after (parts st0))) with (isSplit st0).
  change (isRowOp (state_after (parts st0))) with (isRowOp st0).
  destruct (if isSplit st0 then _ else _); simpl; [|done]. by destruct (if isRowOp st0 then _ else _).
Qed.

(** The requests of distinct parts are updated independently. *)
Lemma heap_after_get l h p :
  (∀ i, i ∈ l → part_req st0 i ≠ Some p) → h_reqs (heap_after l h) !! p = h_reqs h !! p.
Proof using Type.
  unfold heap_after. revert h. induction l as [|i l IH]; intros h Hl; simpl; [done|].
  rewrite IH by (intros j Hj; apply Hl; by right). unfold report. specialize (Hl i ltac:(by left)).
  destruct (part_req st0 i); simpl; [|done]. by rewrite lookup_insert_ne by congruence.
Qed.

Lemma heap_after_part l h i p :
  NoDup l → i ∈ l → part_req st0 i = Some p → (∀ j, j ∈ l → part_req st0 j = Some p → j = i) →
  h_reqs (heap_after l h) !! p = Some (R i).
Proof using Type.
  unfold heap_after. revert h. induction l as [|j l IH]; intros h Hn Hi Hp Hinj; [by apply elem_of_nil in Hi|].
  apply NoDup_cons in Hn as [Hj Hn]. simpl. apply elem_of_cons in Hi as [->|Hi].
  - fold (heap_after l (report h j)). rewrite heap_after_get.
    + unfold report. rewrite Hp. simpl. by rewrite lookup_insert_eq.
    + intros k Hk E. assert (k = j) as -> by (apply Hinj; [by right|done]). done.
  - apply IH; [done|done|done|]. intros k Hk. apply Hinj. by right.
Qed.

Lemma heap_after_next l h : h_next (heap_after l h) = h_next h.
Proof using Type.
  unfold heap_after. revert h. induction l as [|i l IH]; intros h; simpl; [done|]. rewrite IH.
  unfold report. by destruct (part_req st0 i).
Qed.

Lemma heap_after_delete_buf l b h : heap_after l (delete_buf b h) = delete_buf b (heap_after l h).
Proof using Type.
  unfold heap_after. revert h. induction l as [|i l IH]; intros h; simpl; [done|]. rewrite <- IH. f_equal.
  unfold report. by destruct (part_req st0 i).
Qed.

Lemma heap_after_bufs l h : h_bufs (heap_after l h) = h_bufs h.
Proof using Type.
  unfold heap_after. revert h. induction l as [|i l IH]; intros h; simpl; [done|]. rewrite IH.
  unfold report. by destruct (part_req st0 i).
Qed.

(** ** Issuing the parts *)

(** [translateTiming] of the parts [l], in order. *)
Definition issue (tlb : Request → Mode → option (Fault * Request)) (now : Z) : list Z → X → res X :=
  fix go l x := match l with
  | [] => mret x
  | i :: l => x ← translateTiming tlb now (mode st0) i x; go l x
  end.

(** The parts whose translation is not delayed. *)
Definition immediate (tlb : Request → Mode → option (Fault * Request)) (R0 : Z → Request) (l : list Z) : list Z :=
  filter (λ i, is_Some (tlb (R0 i) (mode st0))) l.

(** The requests of the parts before they are translated, at distinct addresses. *)
Record parts_heap (R0 : Z → Request) (h : heap) : Prop := {
  ph_reqs : ∀ i p, i ∈ parts st0 → part_req st0 i = Some p → h_reqs h !! p = Some (R0 i);
  ph_inj : ∀ i j p, i ∈ parts st0 → j ∈ parts st0 → part_req st0 i = Some p → part_req st0 j = Some p → i = j;
}.

Lemma issue_reports tlb now R0 h x :
  parts_heap R0 h → (∀ i, i ∈ parts st0 → is_Some (tlb (R0 i) (mode st0)) → tlb (R0 i) (mode st0) = Some (F i, R i) ∧ N i = now) →
  ∀ l dn, (length dn + length l ≤ length (parts st0))%nat → NoDup (dn ++ l) → Forall (λ i, i ∈ parts st0) (dn ++ l) →
  issue tlb now l (context_after dn (heap_after dn h) x) =
    reports (immediate tlb R0 l) (context_after dn (heap_after dn h) x).
Proof.
  intros [Hreqs Hinj] Htlb. induction l as [|i l IH]; intros dn Hlen Hnd Hin; [done|].
  simpl in Hlen. assert (i ∈ parts st0 ∧ Forall (λ j, j ∈ parts st0) dn ∧ Forall (λ j, j ∈ parts st0) l) as (Hi & Hd & Hl)
    by (apply Forall_app in Hin as [? Hc]; by apply Forall_cons in Hc as [? ?]).
  apply NoDup_app in Hnd as (Hn1 & Hdis & Hn2). apply NoDup_cons in Hn2 as [Hil Hn2].
  destruct (part_req_some st0 i Hst Hi) as [p Hp].
  assert (h_reqs (heap_after dn h) !! p = Some (R0 i)) as Hr.
  { rewrite heap_after_get; [by apply Hreqs|]. intros j Hj Hpj. assert (j = i) as ->.
    { apply (Hinj j i p); [|done..]. by eapply Forall_forall in Hd. }
    apply (Hdis i Hj). by left. }
  assert (translateTiming tlb now (mode st0) i (context_after dn (heap_after dn h) x) =
    match tlb (R0 i) (mode st0) with
    | Some _ => tlb_reports (N i) (mode st0) i (F i) (R i) (context_after dn (heap_after dn h) x)
    | None => mret (context_after dn (heap_after dn h) x)
    end) as E.
  { unfold translateTiming. rewrite get_state_after, part_req_after, Hp. cbn [deref mbind res_mbind].
    rewrite get_heap_after. unfold get_req. rewrite Hr. cbn [deref mbind res_mbind].
    destruct (tlb (R0 i) (mode st0)) as [[f r']|] eqn:Et; [|done].
    destruct (Htlb i Hi) as [Et' <-]; [by eexists|]. rewrite Et in Et'. by injection Et' as -> ->. }
  unfold immediate. rewrite filter_cons. simpl. rewrite E. destruct (tlb (R0 i) (mode st0)) as [[f r']|] eqn:Et.
  - rewrite decide_True by (by eexists). cbn [reports]. destruct l as [|j l].
    { by destruct (tlb_reports _ _ _ _ _ _). }
    assert (tlb_reports (N i) (mode st0) i (F i) (R i) (context_after dn (heap_after dn h) x) =
      Ok (context_after (dn ++ [i]) (heap_after (dn ++ [i]) h) x)) as ->.
    { rewrite tlb_reports_eq, finish_step by (simpl in Hlen; done || lia). simpl in Hlen.
      rewrite decide_False, bool_decide_false by lia. unfold heap_after at 2. by rewrite foldl_snoc. }
    cbn [mbind res_mbind]. apply IH; [rewrite length_app; simpl in *; lia| |].
    + rewrite <- app_assoc. simpl. apply NoDup_app. split; [done|]. split; [done|]. by apply NoDup_cons.
    + rewrite <- app_assoc. exact Hin.
  - rewrite decide_False by (intros [? ?]; done). cbn [mbind res_mbind mret res_mret].
    apply IH; [lia| |by apply Forall_app].
    apply NoDup_app. split; [done|]. split; [|done]. intros j Hj Hjl. apply (Hdis j Hj). by right.
Qed.

End any_order.

(** ** The result of a row operation's translation *)

(** The flags of a request can be read. *)
Definition has_addr (r : Request) : Prop := Flags.isSet (privateFlags r) (Z.lor VALID_PADDR VALID_VADDR) = true.

(** A result of the TLB: the physical address is there unless there is a fault. *)
Definition tlb_ok (f : Fault) (r : Request) : Prop := has_addr r ∧ (f = NoFault → hasPaddr r = true).

(** [setFlags] of a request, as a value. *)
Definition or_flags (r : Request) (f : Z) : Request := set_flags r (Flags.set (_flags r) f).

Lemma copy_flags_ok main p h r M :
  h_reqs h !! p = Some r → has_addr r → h_reqs h !! main = Some M → has_addr M →
  copy_flags main p h = Ok (put_req main (or_flags M (_flags r)) h).
Proof.
  unfold copy_flags, get_req, has_addr. intros -> Hr -> HM. simpl. unfold getFlags, setFlags.
  rewrite Hr. simpl. by rewrite HM.
Qed.

Lemma put_buf_id b v h : h_bufs h !! b = Some v → put_buf b v h = h.
Proof. intros E. unfold put_buf. rewrite insert_id by done. by destruct h. Qed.

(** The address of an operand: physical, unless its translation faulted. *)
Definition operand (f : Fault) (r : Request) (va : Z) : Z := if decide (f = NoFault) then _paddr r else va.

Lemma finish_operand_ok st i (set : Z → RowOpPayload → RowOpPayload) get req h r a M b :
  h_reqs h !! req = Some r → tlb_ok (fault_at st i) r →
  h_reqs h !! mainReq st = Some M → has_addr M → data st = Some b → h_bufs h !! b = Some (BRowOp a) →
  set (get a) a = a →
  finish_operand st i set req h =
    Ok (put_req (mainReq st) (or_flags M (_flags r))
         (put_buf b (BRowOp (set (operand (fault_at st i) r (get a)) a)) h)).
Proof.
  intros Hr [Ha Hp] HM HMa Hd Hb Hid. unfold finish_operand, operand.
  destruct (decide (fault_at st i = NoFault)) as [E|E].
  - rewrite bool_decide_true by done. unfold get_req, getPaddr, get_payload, put_payload, get_buf.
    rewrite Hr. simpl. unfold hasPaddr in Hp. rewrite (Hp E). simpl. rewrite Hd. simpl. rewrite Hb. simpl.
    by apply copy_flags_ok.
  - rewrite bool_decide_false by done. simpl. rewrite Hid, put_buf_id by done. by apply copy_flags_ok.
Qed.

(** The requests of a row operation, with the results of the TLB. *)
Record rowop_heap (st : WholeTranslationState) (F : Z → Fault) (R : Z → Request) (a : RowOpPayload)
    (M : Request) (b : Z) (h : heap) : Prop := {
  rh_parts : ∀ i p, i ∈ parts st → part_req st i = Some p → h_reqs h !! p = Some (R i) ∧ p ≠ mainReq st;
  rh_results : ∀ i, i ∈ parts st → tlb_ok (F i) (R i);
  rh_main : h_reqs h !! mainReq st = Some M;
  rh_addr : has_addr M;
  rh_data : data st = Some b;
  rh_buf : h_bufs h !! b = Some (BRowOp a);
}.

(** The payload and the main request once all parts are done. *)
Definition translated (st : WholeTranslationState) (F : Z → Fault) (R : Z → Request) (a : RowOpPayload) :
    RowOpPayload :=
  mkPayload (op a) (operand (F 0) (R 0) (dest a))
    (if sreqSrc1 st then operand (F 1) (R 1) (src1 a) else src1 a)
    (if sreqSrc2 st then operand (F 2) (R 2) (src2 a) else src2 a).
Definition main_after (st : WholeTranslationState) (R : Z → Request) (M : Request) : Request :=
  setPaddr (foldl (λ M i, or_flags M (_flags (R i))) M (parts st)) 0.

Lemma fault_at_after st F i :
  i ∈ parts st → fault_at (state_after st F (parts st)) (Z.to_nat i) = F i.
Proof.
  intros Hi. pose proof (parts_range st i Hi). unfold fault_at, state_after. simpl.
  assert (i = 0 ∨ i = 1 ∨ i = 2) as [->|[->| ->]] by lia; simpl; by rewrite decide_True by done.
Qed.

(** The operand a part translates. *)
Definition set_op (i : Z) : Z → RowOpPayload → RowOpPayload :=
  if i =? 0 then set_dest else if i =? 1 then set_src1 else set_src2.
Definition get_op (i : Z) : RowOpPayload → Z := if i =? 0 then dest else if i =? 1 then src1 else src2.

(** The heap after the operands [l]. *)
Definition operand_step (F : Z → Fault) (R : Z → Request) (x : RowOpPayload * Request) (i : Z) :
    RowOpPayload * Request :=
  (set_op i (operand (F i) (R i) (get_op i x.1)) x.1, or_flags x.2 (_flags (R i))).
Definition operands_heap (st : WholeTranslationState) (b : Z) (h : heap) (x : RowOpPayload * Request) : heap :=
  put_req (mainReq st) x.2 (put_buf b (BRowOp x.1) h).

Lemma finish_operand_step st F R a M b h x i p :
  rowop_heap st F R a M b h → i ∈ parts st → part_req st i = Some p → has_addr x.2 →
  finish_operand (state_after st F (parts st)) (Z.to_nat i) (set_op i) p (operands_heap st b h x) =
    Ok (operands_heap st b h (operand_step F R x i)).
Proof.
  intros [Hp Ht HM HMa Hd Hb] Hi Hpi Hx. destruct (Hp i p Hi Hpi) as [Hr Hne].
  rewrite (finish_operand_ok _ _ (set_op i) (get_op i) p _ (R i) x.1 x.2 b).
  - rewrite fault_at_after by done. unfold operands_heap, operand_step, put_req, put_buf. simpl.
    by rewrite !insert_insert_eq.
  - simpl. by rewrite lookup_insert_ne by done.
  - rewrite fault_at_after by done. by apply Ht.
  - simpl. by rewrite lookup_insert_eq.
  - done.
  - done.
  - simpl. by rewrite lookup_insert_eq.
  - unfold set_op, get_op. destruct x.1. by destruct (i =? 0), (i =? 1).
Qed.

Lemma finish_rowop_ok st F R a M b h :
  begun st → isRowOp st = true → rowop_heap st F R a M b h →
  finish_rowop (state_after st F (parts st)) h =
    Ok (put_req (mainReq st) (main_after st R M) (put_buf b (BRowOp (translated st F R a)) h)).
Proof.
  intros Hst Hrow Hh. destruct (bg_dest _ Hst Hrow) as [d Ed].
  pose proof (λ x i p, finish_operand_step st F R a M b h x i p Hh) as step.
  assert (h = operands_heap st b h (a, M)) as E.
  { destruct Hh as [_ _ HM _ _ Hb]. unfold operands_heap, put_req, put_buf. simpl. rewrite !insert_id by done.
    by destruct h. }
  unfold finish_rowop. change (sreqDest (state_after st F (parts st))) with (sreqDest st).
  change (sreqSrc1 (state_after st F (parts st))) with (sreqSrc1 st).
  change (sreqSrc2 (state_after st F (parts st))) with (sreqSrc2 st).
  change (mainReq (state_after st F (parts st))) with (mainReq st). rewrite Ed. cbn [deref mbind res_mbind].
  assert (parts st = [0] ++ (if sreqSrc1 st then [1] else []) ++ (if sreqSrc2 st then [2] else [])) as Hparts
    by (unfold parts; rewrite Hrow; by destruct (sreqSrc1 st), (sreqSrc2 st)).
  assert (∀ i p, part_req st i = Some p → i = 0 ∨ i = 1 ∧ sreqSrc1 st = Some p ∨ i = 2 ∧ sreqSrc2 st = Some p →
    i ∈ parts st) as Hin.
  { intros i p _ [->|[[-> Es]|[-> Es]]]; rewrite Hparts; rewrite ?Es; set_solver. }
  pose proof (rh_addr _ _ _ _ _ _ _ Hh) as HMa. unfold part_req in step, Hin. rewrite Hrow in step, Hin.
  rewrite E at 1. rewrite (step _ 0 d) by (try done; apply (Hin 0 d); auto). cbn [mbind res_mbind].
  unfold translated. clear E.
  destruct (sreqSrc1 st) as [p1|]; [rewrite (step _ 1 p1) by (try done; apply (Hin 1 p1); auto)|]; cbn [mbind res_mbind mret res_mret];
    (destruct (sreqSrc2 st) as [p2|]; [rewrite (step _ 2 p2) by (try done; apply (Hin 2 p2); auto)|]);
    cbn [mbind res_mbind mret res_mret]; unfold get_req, operands_heap, put_req at 1; simpl;
    rewrite lookup_insert_eq; simpl; unfold put_req, main_after; rewrite Hparts; simpl; by rewrite insert_insert_eq.
Qed.

(** A row operation whose parts are about to be translated: the requests [R0] of the parts
    and the main request [M] are in the heap. *)
Record rowop_begun (st : WholeTranslationState) (R0 : Z → Request) (M : Request) (h : heap) : Prop := {
  rb_begun : begun st;
  rb_rowop : isRowOp st = true;
  rb_parts : parts_heap st R0 h;
  rb_main : h_reqs h !! mainReq st = Some M;
  rb_addr : has_addr M;
  rb_other : ∀ i, i ∈ parts st → part_req st i ≠ Some (mainReq st);
}.

Section rowop_any_order.
Context {X : Type} `{!ExecContext X, !ExecContextLaws X}.
Context (N : Z → Z) (st : WholeTranslationState) (F : Z → Fault) (R R0 : Z → Request) (M : Request) (h : heap).
Hypothesis Hb : rowop_begun st R0 M h.
Hypothesis Ht : ∀ i, i ∈ parts st → tlb_ok (F i) (R i).

Lemma rowop_heap_reported l a b :
  l ≡ₚ parts st → data st = Some b → h_bufs h !! b = Some (BRowOp a) →
  rowop_heap st F R a M b (heap_after st R l h).
Proof.
  intros Hl Hd Hbuf. destruct Hb as [Hbg Hrow [Hreqs Hinj] Hm Ha Ho]. split; try done.
  - intros i p Hi Hp. split.
    + apply heap_after_part; [by rewrite Hl; apply parts_nodup|by rewrite Hl|done|].
      intros j Hj Hpj. apply (Hinj j i p); [by rewrite <- Hl|done..].
    + intros ->. by apply (Ho i Hi).
  - rewrite heap_after_get; [done|]. intros i Hi. apply Ho. by rewrite <- Hl.
  - by rewrite heap_after_bufs.
Qed.

(** The parts are reported in any order: the translation completes with the last, with
    the addresses in the payload and the flags in the main request. *)
Lemma rowop_reports l i a b x :
  l ++ [i] ≡ₚ parts st → data st = Some b → h_bufs h !! b = Some (BRowOp a) →
  ∃ h' : heap,
    reports N st F R (l ++ [i]) (context_after st F [] h x) =
      finishTranslation (state_after st F (parts st)) (set_state (Some (state_after st F l)) (set_heap h' x)) ∧
    h_bufs h' = <[b := BRowOp (translated st F R a)]> (h_bufs h) ∧
    h_reqs h' !! mainReq st = Some (main_after st R M) ∧ h_next h' = h_next h.
Proof.
  intros Hl Hd Hbuf. pose proof (rowop_heap_reported (l ++ [i]) a b Hl Hd Hbuf) as Hh.
  assert (i ∈ parts st) as Hi by (rewrite <- Hl; set_solver).
  pose proof Hb as [Hbg Hrow _ _ _ Ho]. rewrite reports_all by done.
  unfold finish_all. change (isSplit (state_after st F (parts st))) with (isSplit st).
  change (isRowOp (state_after st F (parts st))) with (isRowOp st). rewrite Hrow, (bg_kind _ Hbg Hrow). simpl.
  rewrite (finish_rowop_ok st F R a M b) by done. cbn [mbind res_mbind].
  set (h1 := put_req (mainReq st) _ _).
  pose proof (heap_after_next st R (l ++ [i]) h) as Hnx.
  assert (h_bufs h1 = <[b := BRowOp (translated st F R a)]> (h_bufs h)) as B1 by (simpl; by rewrite heap_after_bufs).
  assert (h_reqs h1 !! mainReq st = Some (main_after st R M)) as M1 by (simpl; by rewrite lookup_insert_eq).
  case_bool_decide; [|by exists h1].
  destruct (part_req_some st i Hbg Hi) as [p Hp]. rewrite Hp. simpl.
  destruct (rh_parts _ _ _ _ _ _ _ Hh i p Hi Hp) as [Hr Hne].
  unfold get_req. simpl. rewrite lookup_insert_ne by done. simpl in Hr. rewrite Hr. simpl.
  eexists. split; [reflexivity|]. split; [done|]. split; [|done]. simpl.
  by rewrite lookup_insert_ne, lookup_insert_eq.
Qed.

(** If the buffer of the payload is gone, the last report writes to freed memory. *)
Lemma rowop_reports_dead l i b x :
  l ++ [i] ≡ₚ parts st → data st = Some b → h_bufs h !! b = None → F 0 = NoFault →
  reports N st F R (l ++ [i]) (context_after st F [] h x) = Err UB.
Proof.
  intros Hl Hd Hbuf HF. pose proof Hb as [Hbg Hrow [Hreqs Hinj] _ _ Ho]. rewrite reports_all by done.
  unfold finish_all. change (isSplit (state_after st F (parts st))) with (isSplit st).
  change (isRowOp (state_after st F (parts st))) with (isRowOp st). rewrite Hrow, (bg_kind _ Hbg Hrow). simpl.
  unfold finish_rowop. change (sreqDest (state_after st F (parts st))) with (sreqDest st).
  destruct (bg_dest _ Hbg Hrow) as [d Ed]. rewrite Ed. cbn [deref mbind res_mbind].
  assert (0 ∈ parts st) as H0 by (unfold parts; rewrite Hrow; simpl; set_solver).
  assert (part_req st 0 = Some d) as Hp by (unfold part_req; by rewrite Hrow).
  pose proof (fault_at_after st F 0 H0) as F0. rewrite HF in F0. simpl in F0.
  unfold finish_operand. rewrite (bool_decide_true (fault_at _ 0%nat = NoFault)) by exact F0.
  assert (h_reqs (heap_after st R (l ++ [i]) h) !! d = Some (R 0)) as Hr.
  { apply heap_after_part; [by rewrite Hl; apply parts_nodup|by rewrite Hl|done|].
    intros j Hj Hpj. apply (Hinj j 0 d); [by rewrite <- Hl|done..]. }
  unfold get_req. rewrite Hr. destruct (Ht 0 H0) as [_ Hpa]. specialize (Hpa HF).
  unfold hasPaddr in Hpa. unfold getPaddr. simpl. rewrite Hpa. simpl. rewrite Hd. simpl.
  assert (get_payload (heap_after st R (l ++ [i]) h) (Some b) = Err UB) as ->; [|done].
  unfold get_payload, get_buf. simpl. by rewrite heap_after_bufs, Hbuf.
Qed.

End rowop_any_order.

(** ** Starting the translation of a row operation *)

(** The parts of an operation. *)
Definition rowop_parts (o : RowOp) : list Z :=
  match o with
  | ROWAP => [0]
  | ROWNOT | ROWAAP | ROWLS | ROWRS => [0; 1]
  | ROWAND | ROWOR | ROWXOR => [0; 1; 2]
  end.

(** The request of an operand. *)
Definition operand_req (r : Request) (a : RowOpPayload) (i : Z) : Request := with_vaddr r (get_op i a) (_size r).

(** A request that has not been translated. *)
Definition virtual (r : Request) : Prop :=
  Flags.isSet (privateFlags r) VALID_VADDR = true ∧ Flags.noneSet (privateFlags r) VALID_PADDR = true.

(** New objects are at new addresses. *)
Definition heap_fresh (h : heap) : Prop := ∀ p, h_next h ≤ p → h_reqs h !! p = None ∧ h_bufs h !! p = None.

Lemma virtual_has_addr r : virtual r → has_addr r.
Proof.
  unfold virtual, has_addr, Flags.isSet, Flags.noneSet. intros [H _]. apply negb_true_iff, Z.eqb_neq.
  apply negb_true_iff, Z.eqb_neq in H. intros E. apply H. apply Z.bits_inj'. intros i Hi.
  apply (f_equal (λ z, Z.testbit z i)) in E. rewrite Z.land_spec, Z.lor_spec, Z.bits_0 in E.
  rewrite Z.land_spec, Z.bits_0. destruct (Z.testbit (privateFlags r) i); [|done].
  simpl in *. by apply orb_false_iff in E as [_ ?].
Qed.

(** Splits a hypothesis [i ∈ [0; 1; 2]]. *)
Ltac part_cases Hi :=
  unfold parts in Hi; simpl in Hi; rewrite ?elem_of_cons, ?elem_of_nil in Hi; destruct_or! Hi; try contradiction; subst.

(** The parts of a row operation that was just split. *)
Lemma rowop_begun_new st r a h :
  begun st → isRowOp st = true → h_reqs h !! mainReq st = Some r → virtual r →
  (∀ i p, i ∈ parts st → part_req st i = Some p →
    h_reqs h !! p = Some (operand_req r a i) ∧ p ≠ mainReq st) →
  (∀ i j p, i ∈ parts st → j ∈ parts st → part_req st i = Some p → part_req st j = Some p → i = j) →
  rowop_begun st (operand_req r a) r h.
Proof.
  intros Hb Hr Hm Hv Hp Hi. split; [done|done| |done|by apply virtual_has_addr|].
  - split; [|done]. intros i p Hin E. by apply (Hp i p).
  - intros i Hin E. by apply (Hp i _ Hin E).
Qed.

Lemma split_rowop_ok req r a h dat res_ :
  h_reqs h !! req = Some r → virtual r → heap_fresh h →
  ∃ h' d s1 s2 st, split_rowop req a h = Ok (h', d, s1, s2) ∧
    state_rowop req d s1 s2 dat res_ Write = Ok st ∧ rowop_begun st (operand_req r a) r h' ∧
    parts st = rowop_parts (op a) ∧ h_bufs h' = h_bufs h ∧ h_next h ≤ h_next h' ∧
    mainReq st = req ∧ data st = dat ∧ mode st = Write ∧ sreqSrc1 st = s1 ∧ sreqSrc2 st = s2.
Proof.
  intros Hr Hv Hf. assert (req < h_next h) as Hlt.
  { destruct (Z.lt_ge_cases req (h_next h)) as [|Hge]; [done|]. destruct (Hf req Hge) as [E _]. congruence. }
  unfold split_rowop, get_req. rewrite Hr. simpl. unfold splitRowOp. rewrite (proj1 Hv), (proj2 Hv). simpl.
  set (n := h_next h) in *.
  destruct (op a) eqn:Eo; simpl; (do 5 eexists; split; [reflexivity|]; split; [reflexivity|]);
    (split; [apply rowop_begun_new; [by split| done| | done| |]|split_and!; simpl; done || lia]); simpl.
  all: try (rewrite ?lookup_insert_ne by lia; done).
  all: intros i; (intros j p Hi Hj; part_cases Hi; part_cases Hj) || (intros p Hi; part_cases Hi);
    unfold part_req; simpl; intros; simplify_eq; try done; try lia.
  all: split; [|lia]; by repeat first [rewrite lookup_insert_eq|rewrite lookup_insert_ne by lia].
Qed.

Section rowop_issue.
Context {X : Type} `{!ExecContext X, !ExecContextLaws X}.
Context (tlb : Request → Mode → option (Fault * Request)) (now : Z) (N : Z → Z).
Context (st : WholeTranslationState) (F : Z → Fault) (R R0 : Z → Request) (M : Request) (h : heap).
Hypothesis Hb : rowop_begun st R0 M h.
Hypothesis Hm : mode st = Write.
Hypothesis Ht : ∀ i, i ∈ parts st → tlb_ok (F i) (R i).
Hypothesis Htlb : ∀ i, i ∈ parts st → is_Some (tlb (R0 i) Write) → tlb (R0 i) Write = Some (F i, R i) ∧ N i = now.

Abbreviation imm := (immediate st tlb R0 (parts st)).
Abbreviation start x := (set_state (Some st) (set_heap h x)).

Lemma translate_operands_issue (x : X) :
  translate_operands tlb now (sreqSrc1 st) (sreqSrc2 st) x = issue st tlb now (parts st) x.
Proof using Hb Hm.
  unfold translate_operands, parts. rewrite (rb_rowop _ _ _ _ Hb), <- Hm. simpl.
  destruct (translateTiming tlb now (mode st) 0 x) as [x1|]; [|done]. simpl.
  destruct (sreqSrc1 st); simpl; [destruct (translateTiming _ _ _ _ _) as [x2|]; [|done]; simpl|];
    destruct (sreqSrc2 st); simpl; try done; by destruct (translateTiming _ _ _ _ _).
Qed.

Lemma issue_start x : issue st tlb now (parts st) (start x) = reports N st F R imm (context_after st F [] h x).
Proof using All.
  assert (start x = context_after st F [] (heap_after st R [] h) x) as ->.
  { unfold context_after. by rewrite state_after_nil by apply Hb. }
  apply (issue_reports N st F R); [apply Hb| | |simpl; lia|simpl; apply parts_nodup|by apply Forall_forall].
  - apply Hb.
  - rewrite Hm. apply Htlb.
Qed.

Lemma imm_late late :
  late ≡ₚ filter (λ i, tlb (R0 i) Write = None) (parts st) → imm ++ late ≡ₚ parts st.
Proof using Hm.
  intros ->. unfold immediate. rewrite Hm. generalize (parts st). induction l as [|i l IH]; [done|].
  rewrite !filter_cons. destruct (tlb (R0 i) Write) as [?|] eqn:E.
  - rewrite decide_True by (by eexists). rewrite decide_False by done. simpl. by rewrite IH.
  - rewrite decide_False by (intros [? ?]; done). rewrite decide_True by done.
    rewrite <- Permutation_middle. by rewrite IH.
Qed.

(** The translation of a row operation: whatever is delayed and whatever the order of
    the late reports [late], it completes with the last part, with the translated payload. *)
Lemma rowop_translated late a b x :
  late ≡ₚ filter (λ i, tlb (R0 i) Write = None) (parts st) →
  data st = Some b → h_bufs h !! b = Some (BRowOp a) →
  ∃ (h' : heap) l,
    (x1 ← translate_operands tlb now (sreqSrc1 st) (sreqSrc2 st) (start x); reports N st F R late x1) =
      finishTranslation (state_after st F (parts st)) (set_state (Some (state_after st F l)) (set_heap h' x)) ∧
    h_bufs h' = <[b := BRowOp (translated st F R a)]> (h_bufs h) ∧
    h_reqs h' !! mainReq st = Some (main_after st R M) ∧ h_next h' = h_next h.
Proof using All.
  intros Hl Hd Hbuf. pose proof (imm_late late Hl) as Hp. rewrite translate_operands_issue, issue_start.
  rewrite <- reports_app.
  destruct (imm ++ late) as [|i l] eqn:E using rev_ind; [|clear IHl].
  { symmetry in Hp. apply Permutation_nil_r in Hp. pose proof (rb_rowop _ _ _ _ Hb) as Hr. unfold parts in Hp. by rewrite Hr in Hp. }
  destruct (rowop_reports N st F R R0 M h Hb Ht l i a b x) as (h' & ? & ? & ? & ?); [done..|].
  by exists h', l.
Qed.

(** Nothing is complete while a report is missing. *)
Lemma rowop_waiting late x :
  late ≡ₚ filter (λ i, tlb (R0 i) Write = None) (parts st) → late ≠ [] →
  translate_operands tlb now (sreqSrc1 st) (sreqSrc2 st) (start x) =
    Ok (context_after st F imm (heap_after st R imm h) x).
Proof using All.
  intros Hl Hne. pose proof (imm_late late Hl) as Hp. apply Permutation_length in Hp. rewrite length_app in Hp.
  rewrite translate_operands_issue, issue_start, reports_prefix; [done|apply Hb| |].
  - simpl. destruct late; [done|simpl in *; lia].
  - apply Forall_forall. intros i Hi. unfold immediate in Hi. by apply list_elem_of_filter in Hi as [_ ?].
Qed.

End rowop_issue.

(** The payload of a row operation after translation. *)
Definition translated_payload (F : Z → Fault) (R : Z → Request) (a : RowOpPayload) : RowOpPayload :=
  let at_op i := if decide (i ∈ rowop_parts (op a)) then operand (F i) (R i) (get_op i a) else get_op i a in
  mkPayload (op a) (at_op 0) (at_op 1) (at_op 2).

Lemma translated_eq st F R a :
  isRowOp st = true → parts st = rowop_parts (op a) → translated st F R a = translated_payload F R a.
Proof.
  unfold parts, translated, translated_payload. intros -> Hp.
  rewrite decide_True by (by destruct (op a); set_solver). f_equal.
  - destruct (sreqSrc1 st), (sreqSrc2 st), (op a); simpl in Hp; by simplify_eq.
  - destruct (sreqSrc1 st), (sreqSrc2 st), (op a); simpl in Hp; by simplify_eq.
Qed.

Lemma getFault_rowop st R0 M h F :
  rowop_begun st R0 M h → getFault (state_after st F (parts st)) = F 0.
Proof.
  intros [Hb Hr _ _ _ _]. unfold getFault. change (isSplit (state_after st F (parts st))) with (isSplit st).
  rewrite (bg_kind _ Hb Hr). simpl. apply (fault_at_after st F 0). unfold parts. rewrite Hr. simpl. set_solver.
Qed.
