(* ===== verification/MemInst.v ===== *)
(** * Memory instructions of the CPU models (cpu/base_dyn_inst.hh, cpu/simple/timing.cc)

    How a memory access of an instruction becomes translated requests: in the
    out-of-order CPU ([BaseDynInst]) the instruction is executed again when its
    translation was delayed; in [TimingSimpleCPU] the access continues when the
    last part is translated.  Row operations come from the x86 instructions of
    arch/x86/isa/microops/rowbit.isa. *)

From stdpp Require Import base gmap list.
From S2P Require Import Prelude IntMath Packets Translation.
Import Request.
Local Open Scope Z_scope.

(** What the CPU puts into its requests. *)
Record Thread := mkThread { asid : Z; masterId : Z; pc : Z; contextId : Z; threadId : Z; taskId : Z }.

Definition new_request (now : Z) (t : Thread) (addr size flags : Z) : Request :=
  setTaskId (taskId t)
    (Request_virt now (asid t) addr size flags (masterId t) (pc t) (contextId t) (threadId t)).

(** ** [BaseDynInst] *)

Module DynInst.

Record DynInst := mkInst {
  fault : Fault;
  translationStarted : bool;
  translationCompleted : bool;
  savedReq : option Z;
  savedSreqLow : option Z;
  savedSreqHigh : option Z;
  effAddr : Z;
  effSize : Z;
  effAddrValid : bool;
  physEffAddrLow : Z;
  physEffAddrHigh : Z;
  memReqFlags : Z;
  strictlyOrdered : bool;
  executed : bool;
}.
Definition set_fault (v : Fault) (i : DynInst) : DynInst :=
  mkInst v (translationStarted i) (translationCompleted i) (savedReq i) (savedSreqLow i)
    (savedSreqHigh i) (effAddr i) (effSize i) (effAddrValid i) (physEffAddrLow i)
    (physEffAddrHigh i) (memReqFlags i) (strictlyOrdered i) (executed i).
Definition set_translationStarted (v : bool) (i : DynInst) : DynInst :=
  mkInst (fault i) v (translationCompleted i) (savedReq i) (savedSreqLow i) (savedSreqHigh i)
    (effAddr i) (effSize i) (effAddrValid i) (physEffAddrLow i) (physEffAddrHigh i)
    (memReqFlags i) (strictlyOrdered i) (executed i).
Definition set_translationCompleted (v : bool) (i : DynInst) : DynInst :=
  mkInst (fault i) (translationStarted i) v (savedReq i) (savedSreqLow i) (savedSreqHigh i)
    (effAddr i) (effSize i) (effAddrValid i) (physEffAddrLow i) (physEffAddrHigh i)
    (memReqFlags i) (strictlyOrdered i) (executed i).
Definition set_executed (v : bool) (i : DynInst) : DynInst :=
  mkInst (fault i) (translationStarted i) (translationCompleted i) (savedReq i) (savedSreqLow i)
    (savedSreqHigh i) (effAddr i) (effSize i) (effAddrValid i) (physEffAddrLow i)
    (physEffAddrHigh i) (memReqFlags i) (strictlyOrdered i) v.

(** What the load/store queue is given: the requests, and the data of a store. *)
Record Access := mkAccess { a_req : Z; a_low : option Z; a_high : option Z; a_data : option buffer }.

(** The instruction with its heap and the translation under way. *)

Record Exec := mkExec {
  heap_ : heap;
  state : option WholeTranslationState;
  inst : DynInst;
  stored : list Access;
  loaded : list Access;
}.
Definition set_heap_ (v : heap) (x : Exec) : Exec :=
  mkExec v (state x) (inst x) (stored x) (loaded x).
Definition set_state (v : option WholeTranslationState) (x : Exec) : Exec :=
  mkExec (heap_ x) v (inst x) (stored x) (loaded x).
Definition set_inst (v : DynInst) (x : Exec) : Exec :=
  mkExec (heap_ x) (state x) v (stored x) (loaded x).
Definition set_stored (v : list Access) (x : Exec) : Exec :=
  mkExec (heap_ x) (state x) (inst x) v (loaded x).
Definition set_loaded (v : list Access) (x : Exec) : Exec :=
  mkExec (heap_ x) (state x) (inst x) (stored x) v.

Definition on_inst (f : DynInst → DynInst) (x : Exec) : Exec := set_inst (f (inst x)) x.

(** [finishTranslation(state)] *)
Definition finishTranslation (st : WholeTranslationState) (x : Exec) : res Exec :=
  let x := on_inst (set_fault (getFault st)) x in
  so ← Translation.isStrictlyOrdered st (heap_ x);
  x ← (if bool_decide (fault (inst x) = NoFault) then
         m ← get_req (heap_ x) (mainReq st);
         low ← getPaddr m;
         '(low, high) ← (if isSplit st then
             l ← deref (sreqLow st); h ← deref (sreqHigh st);
             l ← get_req (heap_ x) l; l ← getPaddr l;
             h ← get_req (heap_ x) h; h ← getPaddr h;
             mret (l, h)
           else mret (low, physEffAddrHigh (inst x)));
         f ← getFlags m;
         h ← (if isCondSwap m then
                assert_ (bool_decide (is_Some (res_ st)));;
                v ← deref (res_ st);
                mret (put_req (mainReq st) (setExtraData m v) (heap_ x))
              else mret (heap_ x));
         let i := inst x in
         mret (set_heap_ h (set_inst
           (mkInst (fault i) (translationStarted i) (translationCompleted i) (savedReq i) (savedSreqLow i)
              (savedSreqHigh i) (effAddr i) (effSize i) (effAddrValid i) low high f so (executed i)) x))
       else
         let i := inst x in
         mret (set_heap_ (deleteReqs st (heap_ x)) (set_inst
           (mkInst (fault i) (translationStarted i) (translationCompleted i) (savedReq i) (savedSreqLow i)
              (savedSreqHigh i) (effAddr i) (effSize i) (effAddrValid i) (physEffAddrLow i)
              (physEffAddrHigh i) (memReqFlags i) so (executed i)) x)));
  mret (on_inst (set_translationCompleted true) (set_state None x)).

#[global] Instance Exec_context : ExecContext Exec := {
  get_heap := heap_;
  set_heap := set_heap_;
  get_state := state;
  Translation.set_state := set_state;
  Translation.finishTranslation := finishTranslation;
}.

#[global] Instance Exec_laws : ExecContextLaws Exec.
Proof. split; done. Qed.

Section mem.
(** The TLB, and the size of a cache line. *)
Context (tlb : Request → Mode → option (Fault * Request)) (cacheLineSize : Z).
(** [cpu->read]: the fault of the load/store queue. *)
Context (cpu_read : Request → Fault).

(** [splitRequest(req, sreqLow, sreqHigh)]: the request has been split if it spans two
    blocks. *)
Definition splitRequest (req : Z) (h : heap) : res (heap * option Z * option Z) :=
  r ← get_req h req;
  addr ← getVaddr r;
  size ← getSize r;
  let split_addr := IntMath.roundDown (sub64 (add64 addr size) 1) cacheLineSize in
  assert_ ((split_addr <=? addr) || (sub64 split_addr addr <? cacheLineSize));;
  if addr <? split_addr then
    '(r1, r2) ← splitOnVaddr r split_addr;
    let '(h, p1) := new_req r1 h in
    let '(h, p2) := new_req r2 h in
    mret (h, Some p1, Some p2)
  else mret (h, None, None).

(** "Save memory requests", when the translation is not complete. *)
Definition save_requests (x : Exec) : res Exec :=
  if translationCompleted (inst x) then mret x
  else
    st ← deref (state x);
    let i := inst x in
    mret (set_inst (mkInst NoFault (translationStarted i) (translationCompleted i) (Some (mainReq st))
      (sreqLow st) (sreqHigh st) (effAddr i) (effSize i) (effAddrValid i) (physEffAddrLow i)
      (physEffAddrHigh i) (memReqFlags i) (strictlyOrdered i) (executed i)) x).

(** [initiateTranslation(req, sreqLow, sreqHigh, res, mode)]; x86 supports unaligned
    accesses. *)
Definition initiateTranslation (now : Z) (req : Z) (low high res_ : option Z) (m : Mode) (x : Exec) :
    res Exec :=
  let x := on_inst (set_translationStarted true) x in
  match low with
  | None =>
      st ← state_single req None res_ m;
      x ← translateTiming tlb now m 0 (set_state (Some st) x);
      save_requests x
  | Some low =>
      high ← deref high;
      st ← state_split req low high None res_ m;
      x ← translateTiming tlb now m 0 (set_state (Some st) x);
      x ← translateTiming tlb now m 1 x;
      save_requests x
  end.

(** "round down" *)
Definition round_row (a : Z) : Z := a / ROW_SIZE * ROW_SIZE.

(** The branch of [writeMem] for row operations, with "3 translations". *)
Definition rowop_translation (now : Z) (req : Z) (data res_ : option Z) (x : Exec) : res Exec :=
  addrs ← get_payload (heap_ x) data;
  let addrs := mkPayload (op addrs) (round_row (dest addrs)) (round_row (src1 addrs)) (round_row (src2 addrs)) in
  h ← put_payload data addrs (heap_ x);
  '(h, req_dest, req_src1, req_src2) ← split_rowop req addrs h;
  let x := on_inst (set_translationStarted true) (set_heap_ h x) in
  st ← state_rowop req req_dest req_src1 req_src2 data res_ Write;
  x ← translate_operands tlb now req_src1 req_src2 (set_state (Some st) x);
  save_requests x.

(** The effective address of the access is known. *)
Definition set_eff (addr size : Z) (i : DynInst) : DynInst :=
  mkInst (fault i) (translationStarted i) (translationCompleted i) (savedReq i) (savedSreqLow i)
    (savedSreqHigh i) addr (u8 size) true (physEffAddrLow i) (physEffAddrHigh i) (memReqFlags i)
    (strictlyOrdered i) (executed i).

(** The first part of [readMem] and [writeMem]: the saved requests if the translation has
    started before, new ones otherwise. *)
Definition get_requests (now : Z) (t : Thread) (data : option Z) (size addr flags : Z) (res_ : option Z)
    (m : Mode) (x : Exec) : res (Exec * option Z * option Z * option Z) :=
  if translationStarted (inst x) then
    mret (x, savedReq (inst x), savedSreqLow (inst x), savedSreqHigh (inst x))
  else
    let '(h, req) := new_req (new_request now t addr size flags) (heap_ x) in
    let x := set_heap_ h x in
    if bool_decide (m = Write) && negb (Z.land flags ROWOP =? 0) then
      x ← rowop_translation now req data res_ x;
      mret (x, Some req, None, None)
    else
      '(h, low, high) ← splitRequest req (heap_ x);
      x ← initiateTranslation now req low high res_ m (set_heap_ h x);
      mret (x, Some req, low, high).

(** The end of [writeMem]: [cpu->write] puts the access into the store queue. *)
Definition write_access (data : option Z) (size : Z) (req low high : option Z) (x : Exec) : res Exec :=
  if bool_decide (fault (inst x) = NoFault) && translationCompleted (inst x) then
    p ← deref req;
    r ← get_req (heap_ x) p;
    va ← getVaddr r;
    let x := on_inst (set_eff va size) x in
    b ← (p ← deref data; get_buf (heap_ x) p);
    mret (on_inst (set_fault NoFault) (set_stored (stored x ++ [mkAccess p low high (Some b)]) x))
  else mret x.

(** [writeMem(data, size, addr, flags, res)]: the instruction's fault is its result. *)
Definition writeMem (now : Z) (t : Thread) (data : option Z) (size addr flags : Z) (res_ : option Z)
    (x : Exec) : res Exec :=
  '(x, req, low, high) ← get_requests now t data size addr flags res_ Write x;
  write_access data size req low high x.

(** [readMem(addr, data, size, flags)] *)
Definition readMem (now : Z) (t : Thread) (data : option Z) (size addr flags : Z) (x : Exec) : res Exec :=
  '(x, req, low, high) ← get_requests now t data size addr flags None Read x;
  if translationCompleted (inst x) then
    x ← (if bool_decide (fault (inst x) = NoFault) then
           p ← deref req;
           r ← get_req (heap_ x) p;
           va ← getVaddr r;
           let x := on_inst (set_eff va size) x in
           mret (on_inst (set_fault (cpu_read r))
                   (set_loaded (loaded x ++ [mkAccess p low high None]) x))
         else mret (on_inst (set_executed true) x));
    if bool_decide (fault (inst x) = NoFault) then mret x
    else
      match data with
      | Some p => mret (set_heap_ (put_buf p (BData (replicate (Z.to_nat size) 0)) (heap_ x)) x)
      | None => mret x
      end
  else mret x.

(** The x86 row operations ([RowOpInitiateAcc]): the payload is a local variable. *)
Definition rowop_payload (o : RowOp) (rdi rsi rdx : Z) : RowOpPayload :=
  mkPayload o rdi
    (if bool_decide (o = ROWAP) then 0 else rsi)
    (if bool_decide (o ∈ [ROWNOT; ROWAP; ROWAAP; ROWLS; ROWRS]) then 0 else rdx).

(** [sizeof(RowOpPayload)] *)
Definition payload_size : Z := 32.

Definition initiateAcc (now : Z) (t : Thread) (o : RowOp) (rdi rsi rdx : Z) (x : Exec) : res Exec :=
  let '(h, data) := new_buf (BRowOp (rowop_payload o rdi rsi rdx)) (heap_ x) in
  x ← writeMem now t (Some data) payload_size 0 (Z.lor UNCACHEABLE ROWOP) None (set_heap_ h x);
  mret (set_heap_ (delete_buf data (heap_ x)) x).

End mem.
End DynInst.


(** ** [TimingSimpleCPU] *)

Module TimingSimpleCPU.

Inductive Status :=
  | Idle | Running | Faulting | ITBWaitResponse | IcacheRetry | IcacheWaitResponse | IcacheWaitSwitch
  | DTBWaitResponse | DcacheRetry | DcacheWaitResponse | DcacheWaitSwitch.

(** The calls [sendData(req, data, res, read)] and [sendSplitData(req1, req2, req, data, read)]. *)
Inductive Sent :=
  | SendData (req : Z) (data res_ : option Z) (read : bool)
  | SendSplitData (req1 req2 : option Z) (req : Z) (data : option Z) (read : bool).

(** [advanced]: the faults that [translationFault] has advanced the instruction with. *)
Record CPU := mkCPU {
  heap_ : heap;
  state : option WholeTranslationState;
  _status : Status;
  sent : list Sent;
  advanced : list Fault;
}.
Definition set_heap_ (v : heap) (x : CPU) : CPU :=
  mkCPU v (state x) (_status x) (sent x) (advanced x).
Definition set_state (v : option WholeTranslationState) (x : CPU) : CPU :=
  mkCPU (heap_ x) v (_status x) (sent x) (advanced x).
Definition set__status (v : Status) (x : CPU) : CPU :=
  mkCPU (heap_ x) (state x) v (sent x) (advanced x).
Definition set_sent (v : list Sent) (x : CPU) : CPU :=
  mkCPU (heap_ x) (state x) (_status x) v (advanced x).
Definition set_advanced (v : list Fault) (x : CPU) : CPU :=
  mkCPU (heap_ x) (state x) (_status x) (sent x) v.

(** [finishTranslation(state)] *)
Definition finishTranslation (st : WholeTranslationState) (x : CPU) : res CPU :=
  let x := set__status Running x in
  x ← (if negb (bool_decide (getFault st = NoFault)) then
         pf ← Translation.isPrefetch st (heap_ x);
         let st := if (pf : bool) then setNoFault st else st in
         let h := match data st with Some p => delete_buf p (heap_ x) | None => heap_ x end in
         let h := deleteReqs st h in
         mret (set_advanced (advanced x ++ [getFault st]) (set_heap_ h x))
       else if negb (isSplit st) then
         mret (set_sent (sent x ++ [SendData (mainReq st) (data st) (res_ st) (bool_decide (mode st = Read))]) x)
       else
         mret (set_sent (sent x ++
           [SendSplitData (sreqLow st) (sreqHigh st) (mainReq st) (data st) (bool_decide (mode st = Read))]) x));
  mret (set_state None x).

#[global] Instance CPU_context : ExecContext CPU := {
  get_heap := heap_;
  set_heap := set_heap_;
  get_state := state;
  Translation.set_state := set_state;
  Translation.finishTranslation := finishTranslation;
}.

#[global] Instance CPU_laws : ExecContextLaws CPU.
Proof. split; done. Qed.

Section mem.
Context (tlb : Request → Mode → option (Fault * Request)) (cacheLineSize : Z).

(** [roundDown(addr + size - 1, block_size)], with its assertion. *)
Definition split_address (addr size : Z) : res Z :=
  let split_addr := IntMath.roundDown (sub64 (add64 addr size) 1) cacheLineSize in
  assert_ ((split_addr <=? addr) || (sub64 split_addr addr <? cacheLineSize));;
  mret split_addr.

(** The branch for an access that spans two blocks. *)
Definition split_translation (now : Z) (req split_addr : Z) (newData res_ : option Z) (m : Mode) (x : CPU) :
    res CPU :=
  r ← get_req (heap_ x) req;
  assert_ (negb (isLLSC r) && negb (isSwap r));;
  '(r1, r2) ← splitOnVaddr r split_addr;
  let '(h, req1) := new_req r1 (heap_ x) in
  let '(h, req2) := new_req r2 h in
  st ← state_split req req1 req2 newData res_ m;
  x ← translateTiming tlb now m 0 (set_state (Some st) (set_heap_ h x));
  translateTiming tlb now m 1 x.

(** The branch for row operations. *)
Definition rowop_translation (now : Z) (req : Z) (newData res_ : option Z) (x : CPU) : res CPU :=
  addrs ← get_payload (heap_ x) newData;
  '(h, req_dest, req_src1, req_src2) ← split_rowop req addrs (heap_ x);
  st ← state_rowop req req_dest req_src1 req_src2 newData res_ Write;
  translate_operands tlb now req_src1 req_src2 (set_state (Some st) (set_heap_ h x)).

(** [writeMem(data, size, addr, flags, res)]; the fault it returns is always [NoFault]. *)
Definition writeMem (now : Z) (t : Thread) (data : option Z) (size addr flags : Z) (res_ : option Z) (x : CPU) :
    res CPU :=
  b ← (match data with
       | None => assert_ (negb (Z.land flags CACHE_BLOCK_ZERO =? 0));; mret (BData (replicate (Z.to_nat size) 0))
       | Some p => get_buf (heap_ x) p
       end);
  let '(h, newData) := new_buf b (heap_ x) in
  let '(h, req) := new_req (new_request now t addr size flags) h in
  let x := set_heap_ h x in
  split_addr ← split_address addr size;
  let x := set__status DTBWaitResponse x in
  if addr <? split_addr then split_translation now req split_addr (Some newData) res_ Write x
  else if negb (Z.land flags ROWOP =? 0) then rowop_translation now req (Some newData) res_ x
  else
    st ← state_single req (Some newData) res_ Write;
    translateTiming tlb now Write 0 (set_state (Some st) x).

(** [readMem(addr, data, size, flags)] *)
Definition readMem (now : Z) (t : Thread) (size addr flags : Z) (x : CPU) : res CPU :=
  let '(h, req) := new_req (new_request now t addr size flags) (heap_ x) in
  split_addr ← split_address addr size;
  let '(h, newData) := new_buf (BData (replicate (Z.to_nat size) 0)) h in
  let x := set__status DTBWaitResponse (set_heap_ h x) in
  if addr <? split_addr then split_translation now req split_addr (Some newData) None Read x
  else
    st ← state_single req (Some newData) None Read;
    translateTiming tlb now Read 0 (set_state (Some st) x).

End mem.
End TimingSimpleCPU.

(** ** Row operations *)

(** The flags of a row operation's request. *)
Definition rowop_flags : Z := Z.lor UNCACHEABLE ROWOP.

Lemma new_request_virtual now t addr size flags : virtual (new_request now t addr size flags).
Proof. done. Qed.

(** The TLB gives part [i] the fault [F i] and the request [R i]: at once, or at the later
    tick [N i] if a page walk delays it. *)
Record tlb_gives (tlb : Request → Mode → option (Fault * Request)) (now : Z) (N : Z → Z) (r : Request)
    (a : RowOpPayload) (F : Z → Fault) (R : Z → Request) : Prop := {
  tg_ok : ∀ i, i ∈ rowop_parts (op a) → tlb_ok (F i) (R i);
  tg_now : ∀ i, i ∈ rowop_parts (op a) → is_Some (tlb (operand_req r a i) Write) →
    tlb (operand_req r a i) Write = Some (F i, R i) ∧ N i = now;
}.

(** The parts that are delayed. *)
Definition delayed (tlb : Request → Mode → option (Fault * Request)) (r : Request) (a : RowOpPayload) : list Z :=
  filter (λ i, tlb (operand_req r a i) Write = None) (rowop_parts (op a)).

Lemma line_of_payload k : 5 ≤ k < 64 → IntMath.roundDown (sub64 (add64 0 32) 1) (2 ^ k) = 0.
Proof.
  intros Hk. change (sub64 (add64 0 32) 1) with 31. rewrite IntMath.roundDown_eq by lia.
  rewrite Z.div_small; [done|]. pose proof (Z.pow_le_mono_r 2 5 k). lia.
Qed.

Lemma isSet_set_keep f m g : Flags.isSet f m = true → Flags.isSet (Flags.set f g) m = true.
Proof. intros H. by rewrite isSet_set, H. Qed.

(** The main request of a row operation after its translation. *)
Lemma main_after_rowop st R M :
  Request.isRowOp M = true → getPaddr (main_after st R M) = Ok 0 ∧ Request.isRowOp (main_after st R M) = true.
Proof.
  intros HM. unfold main_after. split.
  - unfold getPaddr. simpl. replace (Flags.isSet _ VALID_PADDR) with true; [done|]. symmetry.
    unfold Flags.isSet, Flags.set. rewrite negb_true_iff, Z.eqb_neq. intros E.
    apply (f_equal (λ z, Z.testbit z 1)) in E. rewrite Z.land_spec, Z.lor_spec in E. simpl in E.
    by rewrite orb_true_r in E.
  - unfold Request.isRowOp. simpl. generalize (parts st). intros l. revert M HM. induction l as [|i l IH]; intros M HM; [done|].
    apply IH. by apply isSet_set_keep.
Qed.

Lemma timing_rowop_start tlb k now t p a x :
  let r := new_request now t 0 DynInst.payload_size rowop_flags in
  5 ≤ k < 64 → heap_fresh (TimingSimpleCPU.heap_ x) → h_bufs (TimingSimpleCPU.heap_ x) !! p = Some (BRowOp a) →
  ∃ st h b, rowop_begun st (operand_req r a) r h ∧ mode st = Write ∧ parts st = rowop_parts (op a) ∧
    data st = Some b ∧ h_bufs h !! b = Some (BRowOp a) ∧ res_ st = None ∧
    TimingSimpleCPU.writeMem tlb (2 ^ k) now t (Some p) DynInst.payload_size 0 rowop_flags None x =
      translate_operands tlb now (sreqSrc1 st) (sreqSrc2 st)
        (set_state (Some st) (set_heap h (TimingSimpleCPU.set__status TimingSimpleCPU.DTBWaitResponse x))).
Proof.
  intros r Hk Hf Hbuf. unfold TimingSimpleCPU.writeMem, get_buf. rewrite Hbuf. simpl.
  unfold TimingSimpleCPU.split_address. unfold DynInst.payload_size at 1. rewrite line_of_payload by done. simpl.
  unfold TimingSimpleCPU.rowop_translation, get_payload, get_buf. simpl. rewrite lookup_insert_eq. simpl.
  set (n := h_next (TimingSimpleCPU.heap_ x)) in *. set (h0 := mkHeap _ _ _).
  destruct (split_rowop_ok (n + 1) r a h0 (Some n) None) as (h & d & s1 & s2 & st & E1 & E2 & H1 & H2 & H3 & H4 & _ & H5 & H6 & H7 & H8).
  - simpl. by rewrite lookup_insert_eq.
  - done.
  - intros q Hq. simpl in Hq. destruct (Hf q ltac:(lia)). simpl. by rewrite !lookup_insert_ne by lia.
  - rewrite E1. simpl. injection E2 as E2. exists st, h, n. rewrite H3. simpl. rewrite lookup_insert_eq.
    rewrite H7, H8. by rewrite <- E2 in *.
Qed.

(** The end of the translation in the timing CPU. *)
Lemma timing_finish st R0 R M h F h' b l y :
  rowop_begun st R0 M h → Request.isRowOp M = true → data st = Some b → res_ st = None → mode st = Write →
  h_reqs h' !! mainReq st = Some (main_after st R M) →
  ∃ x2, finishTranslation (state_after st F (parts st)) (set_state (Some (state_after st F l)) (set_heap h' y)) = Ok x2 ∧
    TimingSimpleCPU.state x2 = None ∧
    match F 0 with
    | None =>
        TimingSimpleCPU.sent x2 = TimingSimpleCPU.sent y ++
          [TimingSimpleCPU.SendData (mainReq st) (Some b) None false] ∧ TimingSimpleCPU.heap_ x2 = h'
    | Some _ =>
        TimingSimpleCPU.sent x2 = TimingSimpleCPU.sent y ∧
        ∃ f, TimingSimpleCPU.advanced x2 = TimingSimpleCPU.advanced y ++ [f]
    end.
Proof.
  intros Hb HM Hd Hr Hm Hreq. pose proof (getFault_rowop st _ _ _ F Hb) as Hg.
  pose proof Hb as [Hbg Hrow _ _ _ _]. pose proof (bg_kind _ Hbg Hrow) as Hs. simpl.
  unfold TimingSimpleCPU.finishTranslation. rewrite Hg. destruct (F 0) as [f|] eqn:E.
  - rewrite bool_decide_false by done. simpl. unfold Translation.isPrefetch, get_req.
    change (mainReq (state_after st F (parts st))) with (mainReq st). simpl. rewrite Hreq. simpl.
    eexists. split; [reflexivity|]. simpl. split; [done|]. split; [done|]. by eexists.
  - rewrite bool_decide_true by done. simpl. rewrite Hs. simpl. eexists. split; [reflexivity|]. simpl.
    rewrite Hd, Hr, Hm. by split_and!.
Qed.

(** C28: A row operation of the timing CPU.  The row addresses are translated one by one, and
    the TLB may answer each at once or later, in any order: the operation is sent to the
    memory exactly once, after the last answer, with the physical address of every operand
    whose translation succeeded in its payload and the request at physical address zero.  If
    the destination faults nothing is sent and the instruction advances with a fault. *)
Theorem timing_rowop_translated tlb k now N t p a x F R late :
  let r := new_request now t 0 DynInst.payload_size rowop_flags in
  5 ≤ k < 64 → heap_fresh (TimingSimpleCPU.heap_ x) → TimingSimpleCPU.state x = None →
  h_bufs (TimingSimpleCPU.heap_ x) !! p = Some (BRowOp a) →
  tlb_gives tlb now N r a F R → late ≡ₚ delayed tlb r a →
  ∃ x1 x2 st req newData,
    TimingSimpleCPU.writeMem tlb (2 ^ k) now t (Some p) DynInst.payload_size 0 rowop_flags None x = Ok x1 ∧
    (late ≠ [] → TimingSimpleCPU.sent x1 = TimingSimpleCPU.sent x) ∧
    reports N st F R late x1 = Ok x2 ∧ TimingSimpleCPU.state x2 = None ∧
    match F 0 with
    | None =>
        TimingSimpleCPU.sent x2 = TimingSimpleCPU.sent x ++
          [TimingSimpleCPU.SendData req (Some newData) None false] ∧
        h_bufs (TimingSimpleCPU.heap_ x2) !! newData = Some (BRowOp (translated_payload F R a)) ∧
        (∃ m, h_reqs (TimingSimpleCPU.heap_ x2) !! req = Some m ∧ getPaddr m = Ok 0 ∧ Request.isRowOp m = true)
    | Some _ =>
        TimingSimpleCPU.sent x2 = TimingSimpleCPU.sent x ∧
        ∃ f, TimingSimpleCPU.advanced x2 = TimingSimpleCPU.advanced x ++ [f]
    end.
Proof.
  intros r Hk Hf Hst Hbuf [Hok Hnow] Hlate.
  destruct (timing_rowop_start tlb k now t p a x Hk Hf Hbuf) as (st & h & b & Hb & Hm & Hp & Hd & Hbf & Hres & E).
  fold r in Hb. set (y := TimingSimpleCPU.set__status _ x) in E.
  destruct (rowop_translated tlb now N st F R (operand_req r a) r h Hb Hm) with (late := late) (a := a) (b := b) (x := y)
    as (h' & l & Er & Hb' & Hm' & _); [by rewrite Hp|by rewrite Hp|by rewrite Hp|done|done|].
  rewrite translated_eq in Hb' by (apply Hb || done).
  destruct (timing_finish st _ R r h F h' b l y Hb) as (x2 & Ef & Hs2 & H2); [done..|].
  rewrite Ef, <- E in Er. apply bind_Ok_inv in Er as (x1 & E1 & E2). exists x1, x2, st, (mainReq st), b.
  split; [done|]. split; [|split; [done|]; split; [done|]].
  - intros Hne. rewrite E in E1. rewrite (rowop_waiting tlb now N st F R (operand_req r a) r h Hb Hm) with (late := late) in E1;
      [|by rewrite Hp|by rewrite Hp|by rewrite Hp|done]. by injection E1 as <-.
  - destruct (F 0); [done|]. destruct H2 as [H2 ->]. split; [done|]. rewrite Hb', lookup_insert_eq. split; [done|].
    exists (main_after st R r). split; [done|]. by apply main_after_rowop.
Qed.

(** The payload of a row operation after the rounding of [writeMem]. *)
Definition rounded (a : RowOpPayload) : RowOpPayload :=
  mkPayload (op a) (DynInst.round_row (dest a)) (DynInst.round_row (src1 a)) (DynInst.round_row (src2 a)).

(** An instruction that has not been executed. *)
Record unexecuted (x : DynInst.Exec) : Prop := {
  ue_started : DynInst.translationStarted (DynInst.inst x) = false;
  ue_completed : DynInst.translationCompleted (DynInst.inst x) = false;
  ue_fresh : heap_fresh (DynInst.heap_ x);
}.

Lemma o3_rowop_start tlb line now t o rdi rsi rdx x :
  let a := rounded (DynInst.rowop_payload o rdi rsi rdx) in
  let r := new_request now t 0 DynInst.payload_size rowop_flags in
  unexecuted x →
  ∃ st h b, rowop_begun st (operand_req r a) r h ∧ mode st = Write ∧ parts st = rowop_parts o ∧
    data st = Some b ∧ h_bufs h !! b = Some (BRowOp a) ∧
    DynInst.initiateAcc tlb line now t o rdi rsi rdx x =
      x1 ← (x1 ← translate_operands tlb now (sreqSrc1 st) (sreqSrc2 st)
              (set_state (Some st) (set_heap h (DynInst.on_inst (DynInst.set_translationStarted true) x)));
            DynInst.save_requests x1);
      x2 ← DynInst.write_access (Some b) DynInst.payload_size (Some (mainReq st)) None None x1;
      mret (DynInst.set_heap_ (delete_buf b (DynInst.heap_ x2)) x2).
Proof.
  intros a r [Hs Hc Hf]. unfold DynInst.initiateAcc, DynInst.writeMem, DynInst.get_requests. simpl. rewrite Hs. simpl.
  unfold DynInst.rowop_translation, get_payload, get_buf. simpl. rewrite lookup_insert_eq. simpl.
  set (n := h_next (DynInst.heap_ x)) in *. 
  change (mkPayload _ _ _ _) with a. change (Z.lor UNCACHEABLE ROWOP) with rowop_flags. fold r.
  set (h0 := put_buf n (BRowOp a) _).
  destruct (split_rowop_ok (n + 1) r a h0 (Some n) None) as (h & d & s1 & s2 & st & E1 & E2 & H1 & H2 & H3 & H4 & H9 & H5 & H6 & H7 & H8).
  - simpl. by rewrite lookup_insert_eq.
  - done.
  - intros q Hq. simpl in Hq. destruct (Hf q ltac:(lia)). simpl. by rewrite !lookup_insert_ne by lia.
  - rewrite E1. simpl. injection E2 as E2. exists st, h, n. rewrite H3. simpl. rewrite lookup_insert_eq.
    rewrite H7, H8, H9. rewrite <- E2 in *. split_and!; try done.
    destruct (translate_operands _ _ _ _ _) as [x1|]; simpl; [|done]. by destruct (DynInst.save_requests x1).
Qed.

Lemma isSet_or f g m : Flags.isSet (Flags.set f g) m = Flags.isSet f m || Flags.isSet g m.
Proof.
  destruct (Flags.isSet f m) eqn:E; [by apply isSet_set_keep|]. simpl. unfold Flags.isSet, Flags.set in *.
  apply negb_false_iff, Z.eqb_eq in E. by rewrite Z.land_lor_distr_l, E, Z.lor_0_l.
Qed.

(** What the main request keeps through the translation. *)
Lemma main_after_kept st R M :
  virtual M → isCondSwap M = false → (∀ i, i ∈ parts st → isCondSwap (R i) = false) →
  getVaddr (main_after st R M) = Ok (_vaddr M) ∧ isCondSwap (main_after st R M) = false ∧
  has_addr (main_after st R M).
Proof.
  intros [Hv _] Hc HR. unfold main_after. generalize (parts st) HR. clear HR. intros l. revert M Hv Hc.
  induction l as [|i l IH]; intros M Hv Hc HR; simpl.
  - unfold getVaddr, has_addr, isCondSwap in *. simpl. rewrite !isSet_or, Hv. split; [done|]. split; [done|].
    apply orb_true_intro. by right.
  - apply (IH (or_flags M (_flags (R i)))); [done| |intros j Hj; apply HR; by right].
    unfold isCondSwap, or_flags in *. simpl. rewrite isSet_or, Hc. apply HR. by left.
Qed.

Lemma o3_finish st R0 R M h F h' l y :
  rowop_begun st R0 M h → Request.isRowOp M = true → virtual M → isCondSwap M = false →
  (∀ i, i ∈ parts st → isCondSwap (R i) = false) →
  h_reqs h' !! mainReq st = Some (main_after st R M) →
  ∃ x2, finishTranslation (state_after st F (parts st)) (set_state (Some (state_after st F l)) (set_heap h' y)) = Ok x2 ∧
    DynInst.state x2 = None ∧ DynInst.fault (DynInst.inst x2) = F 0 ∧ DynInst.stored x2 = DynInst.stored y ∧
    DynInst.translationCompleted (DynInst.inst x2) = true ∧ (F 0 = NoFault → DynInst.heap_ x2 = h').
Proof.
  intros Hb HM Hv Hc HR Hreq. pose proof (getFault_rowop st _ _ _ F Hb) as Hg.
  pose proof Hb as [Hbg Hrow _ _ _ _]. pose proof (bg_kind _ Hbg Hrow) as Hs.
  destruct (main_after_kept st R M Hv Hc HR) as (Ev & Ec & Ea). destruct (main_after_rowop st R M HM) as [Ep _].
  simpl. unfold DynInst.finishTranslation, Translation.isStrictlyOrdered, get_req.
  change (mainReq (state_after st F (parts st))) with (mainReq st). simpl. rewrite Hreq, Hg. simpl.
  destruct (F 0) as [f|] eqn:E.
  - rewrite bool_decide_false by done. simpl. eexists. by split; [reflexivity|].
  - rewrite bool_decide_true by done. rewrite Ep. simpl. rewrite Hs. simpl.
    unfold getFlags. unfold has_addr in Ea. rewrite Ea. simpl. rewrite Ec. simpl. eexists. by split; [reflexivity|].
Qed.

(** C29: A row operation of the out-of-order CPU whose translations do not miss in the TLB.
    The operands are rounded down to rows.  If the destination is translated, the operation
    enters the store queue once, with the physical address of every operand whose
    translation succeeded, as an access at address zero without a fault; an operand whose
    translation faulted keeps its virtual address.  If the destination faults, the
    instruction has that fault and nothing is stored. *)
Theorem o3_rowop_translated tlb line now t o rdi rsi rdx x F R :
  let a := rounded (DynInst.rowop_payload o rdi rsi rdx) in
  let r := new_request now t 0 DynInst.payload_size rowop_flags in
  unexecuted x →
  (∀ i, i ∈ rowop_parts o → tlb (operand_req r a i) Write = Some (F i, R i) ∧ tlb_ok (F i) (R i) ∧
    isCondSwap (R i) = false) →
  ∃ x' req, DynInst.initiateAcc tlb line now t o rdi rsi rdx x = Ok x' ∧ DynInst.state x' = None ∧
    DynInst.fault (DynInst.inst x') = F 0 ∧ DynInst.translationCompleted (DynInst.inst x') = true ∧
    match F 0 with
    | None =>
        DynInst.stored x' = DynInst.stored x ++
          [DynInst.mkAccess req None None (Some (BRowOp (translated_payload F R a)))] ∧
        DynInst.effAddr (DynInst.inst x') = 0 ∧ DynInst.effSize (DynInst.inst x') = 32 ∧
        (∃ m, h_reqs (DynInst.heap_ x') !! req = Some m ∧ getPaddr m = Ok 0 ∧ Request.isRowOp m = true)
    | Some _ => DynInst.stored x' = DynInst.stored x
    end.
Proof.
  intros a r Hx Htlb.
  destruct (o3_rowop_start tlb line now t o rdi rsi rdx x Hx) as (st & h & b & Hb & Hm & Hp & Hd & Hbf & E).
  fold a r in Hb, Hbf. set (y := DynInst.on_inst _ x) in E.
  assert ([] ≡ₚ filter (λ i, tlb (operand_req r a i) Write = None) (parts st)) as Hnil.
  { destruct (filter _ (parts st)) as [|i q] eqn:Eq; [done|].
    assert (i ∈ i :: q) as Hi by left. rewrite <- Eq in Hi. apply list_elem_of_filter in Hi as [Hn Hi].
    rewrite Hp in Hi. destruct (Htlb i Hi) as [Hi' _]. congruence. }
  destruct (rowop_translated (X := DynInst.Exec) tlb now (λ _, now) st F R (operand_req r a) r h Hb Hm)
    with (late := @nil Z) (a := a) (b := b) (x := y) as (h' & l & Er & Hb' & Hm' & _);
    [intros i Hi; rewrite Hp in Hi; by apply Htlb|intros i Hi _; rewrite Hp in Hi; by destruct (Htlb i Hi)|done..|].
  destruct (o3_finish st _ R r h F h' l y Hb) as (x2 & Ef & Hs2 & Hf2 & Hst2 & Hc2 & Hh2); try done.
  { rewrite Hp. intros i Hi. by apply Htlb. }
  rewrite Ef in Er. apply bind_Ok_inv in Er as (x1 & E1 & [= ->]). rewrite E, E1. cbn [mbind res_mbind].
  unfold DynInst.save_requests. rewrite Hc2. cbn [mbind res_mbind mret res_mret].
  unfold DynInst.write_access. rewrite Hf2, Hc2. destruct (F 0) as [f|].
  { rewrite bool_decide_false by done. simpl. exists (DynInst.set_heap_ (delete_buf b (DynInst.heap_ x2)) x2), 0. by split_and!. }
  rewrite bool_decide_true by done. rewrite translated_eq in Hb' by (apply Hb || by rewrite Hp).
  destruct (main_after_kept st R r) as (Ev & _); [done|done|rewrite Hp; intros i Hi; by apply Htlb|].
  simpl. unfold get_req, get_buf. rewrite (Hh2 eq_refl), Hm'. simpl. rewrite Ev. simpl. rewrite Hb', lookup_insert_eq. simpl.
  eexists _, (mainReq st). split; [reflexivity|]. simpl. rewrite Hs2, Hc2, Hst2. split_and!; try done.
  exists (main_after st R r). split; [|by apply main_after_rowop]. by rewrite (Hh2 eq_refl).
Qed.

Lemma rowop_begun_delete_buf st R0 M b h : rowop_begun st R0 M h → rowop_begun st R0 M (delete_buf b h).
Proof. intros [A1 A2 [A3 A4] A5 A6 A7]. split; [done|done|by split|done|done|done]. Qed.

(** C30: A row operation of the out-of-order CPU that misses in the TLB.  The first execution
    returns without a fault and stores nothing, and the payload, a local variable of the
    instruction, is gone.  When the page walks end, in any order, the last one writes the
    translated addresses through the pointer to it: undefined behaviour, as soon as the
    destination has been translated. *)
Theorem o3_rowop_delayed_undefined tlb line now N t o rdi rsi rdx x F R late :
  let a := rounded (DynInst.rowop_payload o rdi rsi rdx) in
  let r := new_request now t 0 DynInst.payload_size rowop_flags in
  unexecuted x → tlb_gives tlb now N r a F R → late ≡ₚ delayed tlb r a → late ≠ [] → F 0 = NoFault →
  ∃ x1 st, DynInst.initiateAcc tlb line now t o rdi rsi rdx x = Ok x1 ∧
    DynInst.stored x1 = DynInst.stored x ∧ DynInst.fault (DynInst.inst x1) = NoFault ∧
    DynInst.translationCompleted (DynInst.inst x1) = false ∧
    reports N st F R late x1 = Err UB.
Proof.
  intros a r Hx [Hok Hnow] Hlate Hne HF.
  destruct (o3_rowop_start tlb line now t o rdi rsi rdx x Hx) as (st & h & b & Hb & Hm & Hp & Hd & Hbf & E).
  fold a r in Hb, Hbf. set (y := DynInst.on_inst _ x) in E.
  pose proof Hok as Hok'. pose proof Hnow as Hnow'. pose proof Hlate as Hlate'.
  change (op a) with o in Hok', Hnow'. rewrite <- Hp in Hok', Hnow'.
  unfold delayed in Hlate'. change (op a) with o in Hlate'. rewrite <- Hp in Hlate'.
  rewrite (rowop_waiting (X := DynInst.Exec) tlb now N st F R (operand_req r a) r h Hb Hm Hok' Hnow' late) in E by done.
  set (imm := immediate st tlb (operand_req r a) (parts st)) in E. cbn [mbind res_mbind] in E.
  unfold DynInst.save_requests in E. change (DynInst.translationCompleted (DynInst.inst (context_after _ _ _ _ y))) with
    (DynInst.translationCompleted (DynInst.inst x)) in E. rewrite (ue_completed _ Hx) in E.
  change (DynInst.state (context_after st F imm (heap_after st R imm h) y)) with (Some (state_after st F imm)) in E.
  cbn [deref mbind res_mbind mret res_mret] in E. unfold DynInst.write_access in E. simpl in E.
  match type of E with _ = mret ?z => set (x1 := z) in E end. exists x1, st. split; [exact E|].
  split; [done|]. split; [done|]. split; [done|].
  pose proof (imm_late tlb st (operand_req r a) Hm late Hlate') as Hperm. fold imm in Hperm.
  set (z := DynInst.set_inst (DynInst.inst x1) y).
  assert (x1 = context_after st F imm (heap_after st R imm (delete_buf b h)) z) as Ex
    by (by rewrite heap_after_delete_buf).
  rewrite Ex. clear E. pose proof (rowop_begun_delete_buf _ _ _ b _ Hb) as Hbd.
  assert (reports N st F R late (context_after st F imm (heap_after st R imm (delete_buf b h)) z) =
    reports N st F R (imm ++ late) (context_after st F [] (delete_buf b h) z)) as ->.
  { rewrite reports_app, (reports_prefix _ _ _ _ (rb_begun _ _ _ _ Hb) imm); [reflexivity| |].
    - apply Permutation_length in Hperm. rewrite length_app in Hperm. simpl. destruct late; [done|simpl in *; lia].
    - apply Forall_forall. intros i Hi. unfold imm, immediate in Hi. by apply list_elem_of_filter in Hi as [_ ?]. }
  destruct (imm ++ late) as [|i l] eqn:El using rev_ind; [|clear IHl].
  { destruct late; [done|]. by destruct imm. }
  apply (rowop_reports_dead N st F R (operand_req r a) r _ Hbd Hok' l i b); [done|done| |done].
  simpl. by rewrite lookup_delete_eq.
Qed.

(** ** Accesses that span two cache lines *)

(** The access [a, a + n) lies in one line. *)
Definition in_line (k a n : Z) : Prop := a / 2 ^ k = (a + n - 1) / 2 ^ k.

(** C31: A plain access is split at the boundary of a cache line: an access of at most a line
    that lies in one line is left alone, and one that does not becomes two new requests, each
    in one line, which follow each other and cover it exactly; the rest of the heap, and with
    it the original request, is unchanged. *)
Theorem splitRequest_lines k h req r a n :
  0 ≤ k < 32 → h_reqs h !! req = Some r → virtual r → getSize r = Ok n → _vaddr r = a →
  0 ≤ a → 0 < n ≤ 2 ^ k → a + n < 2 ^ 64 →
  (in_line k a n ∧ DynInst.splitRequest (2 ^ k) req h = Ok (h, None, None)) ∨
  (¬ in_line k a n ∧ ∃ n1, 0 < n1 < n ∧ in_line k a n1 ∧ in_line k (a + n1) (n - n1) ∧ (2 ^ k | a + n1) ∧
     DynInst.splitRequest (2 ^ k) req h =
       Ok ((new_req (with_vaddr r (a + n1) (n - n1)) (new_req (with_vaddr r a n1) h).1).1,
           Some (h_next h), Some (h_next h + 1))).
Proof.
  intros Hk Hr [Hv Hp] Hn Ea Ha Hsz Hw. unfold DynInst.splitRequest, get_req. rewrite Hr. cbn [deref mbind res_mbind].
  unfold getVaddr. rewrite Hv. cbn [check mbind res_mbind mret res_mret]. rewrite Hn, Ea. cbn [mbind res_mbind].
  pose proof (Z.pow_pos_nonneg 2 k). pose proof (Z.pow_lt_mono_r 2 k 32).
  rewrite add64_small, sub64_small, IntMath.roundDown_eq by lia.
  set (L := 2 ^ k) in *. set (q := (a + n - 1) / L).
  pose proof (Z.mul_div_le (a + n - 1) L ltac:(lia)) as H1. pose proof (Z.mul_succ_div_gt (a + n - 1) L ltac:(lia)) as H2.
  pose proof (Z.mul_div_le a L ltac:(lia)) as H3. pose proof (Z.mul_succ_div_gt a L ltac:(lia)) as H4. fold q in H1, H2.
  unfold in_line. fold L q. set (p := a / L) in *.
  assert (p = q ∨ q = p + 1) as [Epq|Epq] by nia.
  - left. split; [done|]. rewrite (proj2 (Z.leb_le _ _)) by nia. simpl. by rewrite (proj2 (Z.ltb_ge _ _)) by nia.
  - destruct (Z.eq_dec (q * L) a) as [Eq|Nq]; [exfalso; nia|].
    assert (a < q * L) by nia. right. split; [lia|]. exists (q * L - a). split; [nia|].
    split; [apply Z.div_unique with (a + (q * L - a) - 1 - p * L); nia|].
    split; [replace (a + (q * L - a)) with (q * L) by lia; rewrite Z.div_mul by lia;
            replace (q * L + (n - (q * L - a)) - 1) with (a + n - 1) by lia; done|].
    split; [exists q; lia|].
    rewrite sub64_small, (proj2 (Z.leb_gt _ _)), (proj2 (Z.ltb_lt _ L)), (proj2 (Z.ltb_lt a _)) by nia. simpl.
    unfold splitOnVaddr. rewrite Hv, Hp, Ea. assert (_size r = n) as ->.
    { unfold getSize in Hn. apply bind_Ok_inv in Hn as (_ & _ & Hn). by injection Hn. }
    rewrite add64_small by lia. rewrite (proj2 (Z.ltb_lt _ _)), (proj2 (Z.ltb_lt (q * L) _)) by nia. simpl.
    rewrite !wrap_small by (rewrite ?wrap_small; nia). by replace (a + (q * L - a)) with (q * L) by lia.
Qed.

(** ** Witnesses: the XOR of two rows *)

Definition ex_thread : Thread := mkThread 0 3 0x400000 0 0 0.
Definition ex_payload : RowOpPayload := DynInst.rowop_payload ROWXOR 0x10000 0x12000 0x14000.
Definition ex_request : Request := new_request 1000 ex_thread 0 DynInst.payload_size rowop_flags.

(** A TLB that maps a page one megabyte up, with a page walk for the addresses in [slow]. *)
Definition ex_mapped (r : Request) : Request := setPaddr r (_vaddr r + 0x100000).
Definition ex_tlb (slow : list Z) (r : Request) (m : Mode) : option (Fault * Request) :=
  if bool_decide (_vaddr r ∈ slow) then None else Some (NoFault, ex_mapped r).
Definition ex_result (i : Z) : Request := ex_mapped (operand_req ex_request ex_payload i).

Lemma ex_tlb_ok i : i ∈ rowop_parts ROWXOR → tlb_ok NoFault (ex_result i).
Proof. intros Hi. part_cases Hi; by vm_compute. Qed.

Lemma ex_tlb_gives slow :
  tlb_gives (ex_tlb slow) 1000 (λ i, if bool_decide (get_op i ex_payload ∈ slow) then 2000 else 1000)
    ex_request ex_payload (λ _, NoFault) ex_result.
Proof.
  split; [exact ex_tlb_ok|]. intros i Hi. unfold ex_tlb. change (_vaddr (operand_req ex_request ex_payload i)) with
    (get_op i ex_payload). case_bool_decide; [by intros [? ?]|done].
Qed.

Definition ex_cpu : TimingSimpleCPU.CPU :=
  TimingSimpleCPU.mkCPU (mkHeap 1 ∅ {[ 0 := BRowOp ex_payload ]}) None TimingSimpleCPU.Running [] [].

Lemma ex_fresh h : h_next h = 1 → h_reqs h = ∅ → (∀ p, 1 ≤ p → h_bufs h !! p = None) → heap_fresh h.
Proof. intros E1 E2 E3 p Hp. rewrite E1 in Hp. rewrite E2, lookup_empty. split; [done|]. by apply E3. Qed.

Lemma timing_rowop_translated_witness :
  ∃ x2 req newData,
    TimingSimpleCPU.sent x2 = [TimingSimpleCPU.SendData req (Some newData) None false] ∧
    h_bufs (TimingSimpleCPU.heap_ x2) !! newData = Some (BRowOp (mkPayload ROWXOR 0x110000 0x112000 0x114000)).
Proof.
  destruct (timing_rowop_translated (ex_tlb [0x12000; 0x10000]) 6 1000
    (λ i, if bool_decide (get_op i ex_payload ∈ [0x12000; 0x10000]) then 2000 else 1000) ex_thread 0 ex_payload ex_cpu
    (λ _, NoFault) ex_result [1; 0]) as (x1 & x2 & st & req & nd & _ & _ & _ & _ & Hs & Hb & _).
  - lia.
  - apply ex_fresh; [done|done|]. intros p Hp. simpl. by rewrite lookup_singleton_ne by lia.
  - done.
  - done.
  - apply ex_tlb_gives.
  - apply Permutation_swap.
  - exists x2, req, nd. split; [exact Hs|]. rewrite Hb. vm_compute. reflexivity.
Defined.

Definition ex_inst : DynInst.DynInst :=
  DynInst.mkInst NoFault false false None None None 0 0 false 0 0 0 false false.
Definition ex_exec : DynInst.Exec := DynInst.mkExec (mkHeap 1 ∅ ∅) None ex_inst [] [].

Lemma ex_unexecuted : unexecuted ex_exec.
Proof. split; [done|done|]. by apply ex_fresh. Qed.

(** The second source faults, and the operation is stored with its virtual address. *)
Definition ex_fault_tlb (r : Request) (m : Mode) : option (Fault * Request) :=
  if _vaddr r =? 0x14000 then Some (Some 14, r) else Some (NoFault, ex_mapped r).
Definition ex_fault (i : Z) : Fault := if i =? 2 then Some 14 else NoFault.
Definition ex_fault_result (i : Z) : Request :=
  if i =? 2 then operand_req ex_request ex_payload i else ex_result i.

Lemma o3_rowop_translated_witness :
  ∃ x' req, DynInst.initiateAcc ex_fault_tlb 64 1000 ex_thread ROWXOR 0x10000 0x12000 0x14000 ex_exec = Ok x' ∧
    DynInst.fault (DynInst.inst x') = NoFault ∧
    DynInst.stored x' =
      [DynInst.mkAccess req None None (Some (BRowOp (mkPayload ROWXOR 0x110000 0x112000 0x14000)))].
Proof.
  destruct (o3_rowop_translated ex_fault_tlb 64 1000 ex_thread ROWXOR 0x10000 0x12000 0x14000 ex_exec ex_fault
    ex_fault_result) as (x' & req & E & _ & Hf & _ & Hs & _).
  - apply ex_unexecuted.
  - intros i Hi. part_cases Hi; by vm_compute.
  - exists x', req. split; [exact E|]. split; [exact Hf|]. rewrite Hs. vm_compute. reflexivity.
Defined.

Lemma o3_rowop_delayed_undefined_witness :
  ∃ x1 st, DynInst.initiateAcc (ex_tlb [0x12000]) 64 1000 ex_thread ROWXOR 0x10000 0x12000 0x14000 ex_exec = Ok x1 ∧
    reports (λ i, if bool_decide (get_op i ex_payload ∈ [0x12000]) then 2000 else 1000) st (λ _, NoFault) ex_result
      [1] x1 = Err UB.
Proof.
  destruct (o3_rowop_delayed_undefined (ex_tlb [0x12000]) 64 1000
    (λ i, if bool_decide (get_op i ex_payload ∈ [0x12000]) then 2000 else 1000) ex_thread ROWXOR 0x10000 0x12000 0x14000
    ex_exec (λ _, NoFault) ex_result [1]) as (x1 & st & E & _ & _ & _ & Hu).
  - apply ex_unexecuted.
  - apply ex_tlb_gives.
  - reflexivity.
  - done.
  - done.
  - exists x1, st. split; [exact E|exact Hu].
Defined.

Lemma splitRequest_lines_witness :
  ∃ n1, 0 < n1 < 32 ∧ DynInst.splitRequest 64 0 (mkHeap 1 {[ 0 := new_request 0 ex_thread 0x1030 32 0 ]} ∅) =
    Ok ((new_req (with_vaddr (new_request 0 ex_thread 0x1030 32 0) (0x1030 + n1) (32 - n1))
          (new_req (with_vaddr (new_request 0 ex_thread 0x1030 32 0) 0x1030 n1)
            (mkHeap 1 {[ 0 := new_request 0 ex_thread 0x1030 32 0 ]} ∅)).1).1, Some 1, Some 2).
Proof.
  destruct (splitRequest_lines 6 (mkHeap 1 {[ 0 := new_request 0 ex_thread 0x1030 32 0 ]} ∅) 0
    (new_request 0 ex_thread 0x1030 32 0) 0x1030 32) as [[H _]|[_ (n1 & Hn & _ & _ & _ & E)]];
    [lia|reflexivity|done|reflexivity|reflexivity|lia|lia|lia|by vm_compute in H|].
  exists n1. split; [exact Hn|]. exact E.
Defined.
