(* ===== verification/LSQ.v ===== *)
(** * The load/store queue of the out-of-order CPU (cpu/o3/lsq_unit.hh, cpu/o3/lsq_unit_impl.hh)

    Loads and stores of one thread wait in two circular queues.  A load takes its
    value from the youngest older store that has all of it, waits for a store that
    has part of it (or for a row operation on its row) and otherwise reads memory;
    a store that executes after a younger load to its address is a memory ordering
    violation. *)

From stdpp Require Import base gmap list.
From S2P Require Import Prelude Packets AbstractMem.
Import Request.
Local Open Scope Z_scope.

Module LSQUnit.

(** What the queue reads and writes of an instruction; [reExec] is a pending [ReExec]
    fault.  Instructions are shared: the queues hold pointers to them. *)
Record DynInst := mkInst {
  seqNum : Z;
  isLoad : bool;
  effAddr : Z;
  effSize : Z;
  effAddrValid : bool;
  strictlyOrdered : bool;
  isAtCommit : bool;
  isExecuted : bool;
  isSquashed : bool;
  isCompleted : bool;
  hitExternalSnoop : bool;
  possibleLoadViolation : bool;
  reExec : bool;
  isStoreConditional : bool;
  physEffAddrLow : Z;
  physEffAddrHigh : Z;
  lqIdx : Z;
  sqIdx : Z;
  memData : option (list Z);
}.
Definition set_isSquashed (v : bool) (i : DynInst) : DynInst :=
  mkInst (seqNum i) (isLoad i) (effAddr i) (effSize i) (effAddrValid i) (strictlyOrdered i)
    (isAtCommit i) (isExecuted i) v (isCompleted i) (hitExternalSnoop i)
    (possibleLoadViolation i) (reExec i) (isStoreConditional i) (physEffAddrLow i)
    (physEffAddrHigh i) (lqIdx i) (sqIdx i) (memData i).
Definition set_isCompleted (v : bool) (i : DynInst) : DynInst :=
  mkInst (seqNum i) (isLoad i) (effAddr i) (effSize i) (effAddrValid i) (strictlyOrdered i)
    (isAtCommit i) (isExecuted i) (isSquashed i) v (hitExternalSnoop i)
    (possibleLoadViolation i) (reExec i) (isStoreConditional i) (physEffAddrLow i)
    (physEffAddrHigh i) (lqIdx i) (sqIdx i) (memData i).
Definition set_hitExternalSnoop (v : bool) (i : DynInst) : DynInst :=
  mkInst (seqNum i) (isLoad i) (effAddr i) (effSize i) (effAddrValid i) (strictlyOrdered i)
    (isAtCommit i) (isExecuted i) (isSquashed i) (isCompleted i) v (possibleLoadViolation i)
    (reExec i) (isStoreConditional i) (physEffAddrLow i) (physEffAddrHigh i) (lqIdx i) (sqIdx i)
    (memData i).
Definition set_possibleLoadViolation (v : bool) (i : DynInst) : DynInst :=
  mkInst (seqNum i) (isLoad i) (effAddr i) (effSize i) (effAddrValid i) (strictlyOrdered i)
    (isAtCommit i) (isExecuted i) (isSquashed i) (isCompleted i) (hitExternalSnoop i) v
    (reExec i) (isStoreConditional i) (physEffAddrLow i) (physEffAddrHigh i) (lqIdx i) (sqIdx i)
    (memData i).
Definition set_reExec (v : bool) (i : DynInst) : DynInst :=
  mkInst (seqNum i) (isLoad i) (effAddr i) (effSize i) (effAddrValid i) (strictlyOrdered i)
    (isAtCommit i) (isExecuted i) (isSquashed i) (isCompleted i) (hitExternalSnoop i)
    (possibleLoadViolation i) v (isStoreConditional i) (physEffAddrLow i) (physEffAddrHigh i)
    (lqIdx i) (sqIdx i) (memData i).
Definition set_lqIdx (v : Z) (i : DynInst) : DynInst :=
  mkInst (seqNum i) (isLoad i) (effAddr i) (effSize i) (effAddrValid i) (strictlyOrdered i)
    (isAtCommit i) (isExecuted i) (isSquashed i) (isCompleted i) (hitExternalSnoop i)
    (possibleLoadViolation i) (reExec i) (isStoreConditional i) (physEffAddrLow i)
    (physEffAddrHigh i) v (sqIdx i) (memData i).
Definition set_sqIdx (v : Z) (i : DynInst) : DynInst :=
  mkInst (seqNum i) (isLoad i) (effAddr i) (effSize i) (effAddrValid i) (strictlyOrdered i)
    (isAtCommit i) (isExecuted i) (isSquashed i) (isCompleted i) (hitExternalSnoop i)
    (possibleLoadViolation i) (reExec i) (isStoreConditional i) (physEffAddrLow i)
    (physEffAddrHigh i) (lqIdx i) v (memData i).
Definition set_memData (v : option (list Z)) (i : DynInst) : DynInst :=
  mkInst (seqNum i) (isLoad i) (effAddr i) (effSize i) (effAddrValid i) (strictlyOrdered i)
    (isAtCommit i) (isExecuted i) (isSquashed i) (isCompleted i) (hitExternalSnoop i)
    (possibleLoadViolation i) (reExec i) (isStoreConditional i) (physEffAddrLow i)
    (physEffAddrHigh i) (lqIdx i) (sqIdx i) v.

(** A store queue entry; [data] has 32 bytes. *)
Record SQEntry := mkEntry {
  data : list Z;
  inst : option Z;
  req : option Request;
  sreqLow : option Request;
  sreqHigh : option Request;
  size : Z;
  isSplit : bool;
  canWB : bool;
  committed : bool;
  completed : bool;
  isAllZeros : bool;
}.
Definition set_inst (v : option Z) (e : SQEntry) : SQEntry :=
  mkEntry (data e) v (req e) (sreqLow e) (sreqHigh e) (size e) (isSplit e) (canWB e)
    (committed e) (completed e) (isAllZeros e).
Definition set_req (v : option Request) (e : SQEntry) : SQEntry :=
  mkEntry (data e) (inst e) v (sreqLow e) (sreqHigh e) (size e) (isSplit e) (canWB e)
    (committed e) (completed e) (isAllZeros e).
Definition set_canWB (v : bool) (e : SQEntry) : SQEntry :=
  mkEntry (data e) (inst e) (req e) (sreqLow e) (sreqHigh e) (size e) (isSplit e) v
    (committed e) (completed e) (isAllZeros e).
Definition set_completed (v : bool) (e : SQEntry) : SQEntry :=
  mkEntry (data e) (inst e) (req e) (sreqLow e) (sreqHigh e) (size e) (isSplit e) (canWB e)
    (committed e) v (isAllZeros e).

(** [SQEntry()] and [SQEntry(inst)] *)
Definition SQEntry_default : SQEntry :=
  mkEntry (replicate 32 0) None None None None 0 false false false false false.
Definition SQEntry_new (i : Z) : SQEntry :=
  mkEntry (replicate 32 0) (Some i) None None None 0 false false false false false.

#[global] Instance SQEntry_inhabited : Inhabited SQEntry := populate SQEntry_default.

(** Calls of the IEW stage. *)
Inductive IewCall :=
  | rescheduleMemInst (i : Z)
  | replayMemInst (i : Z)
  | blockMemInst (i : Z).

(** The queues; statistics are not modelled. *)
Record LSQ := mkLSQ {
  LQEntries : Z;
  SQEntries : Z;
  depCheckShift : Z;
  needsTSO : bool;
  cacheBlockMask : Z;
  insts : gmap Z DynInst;
  loadQueue : list (option Z);
  storeQueue : list SQEntry;
  loads : Z;
  stores : Z;
  storesToWB : Z;
  loadHead : Z;
  loadTail : Z;
  storeHead : Z;
  storeWBIdx : Z;
  storeTail : Z;
  usedPorts : Z;
  stalled : bool;
  stallingStoreIsn : Z;
  stallingLoadIdx : Z;
  memDepViolator : option Z;
  storeInFlight : bool;
  iew : list IewCall;
}.
Definition set_insts (v : gmap Z DynInst) (s : LSQ) : LSQ :=
  mkLSQ (LQEntries s) (SQEntries s) (depCheckShift s) (needsTSO s) (cacheBlockMask s) v
    (loadQueue s) (storeQueue s) (loads s) (stores s) (storesToWB s) (loadHead s) (loadTail s)
    (storeHead s) (storeWBIdx s) (storeTail s) (usedPorts s) (stalled s) (stallingStoreIsn s)
    (stallingLoadIdx s) (memDepViolator s) (storeInFlight s) (iew s).
Definition set_loadQueue (v : list (option Z)) (s : LSQ) : LSQ :=
  mkLSQ (LQEntries s) (SQEntries s) (depCheckShift s) (needsTSO s) (cacheBlockMask s) (insts s)
    v (storeQueue s) (loads s) (stores s) (storesToWB s) (loadHead s) (loadTail s) (storeHead s)
    (storeWBIdx s) (storeTail s) (usedPorts s) (stalled s) (stallingStoreIsn s)
    (stallingLoadIdx s) (memDepViolator s) (storeInFlight s) (iew s).
Definition set_storeQueue (v : list SQEntry) (s : LSQ) : LSQ :=
  mkLSQ (LQEntries s) (SQEntries s) (depCheckShift s) (needsTSO s) (cacheBlockMask s) (insts s)
    (loadQueue s) v (loads s) (stores s) (storesToWB s) (loadHead s) (loadTail s) (storeHead s)
    (storeWBIdx s) (storeTail s) (usedPorts s) (stalled s) (stallingStoreIsn s)
    (stallingLoadIdx s) (memDepViolator s) (storeInFlight s) (iew s).
Definition set_loads (v : Z) (s : LSQ) : LSQ :=
  mkLSQ (LQEntries s) (SQEntries s) (depCheckShift s) (needsTSO s) (cacheBlockMask s) (insts s)
    (loadQueue s) (storeQueue s) v (stores s) (storesToWB s) (loadHead s) (loadTail s)
    (storeHead s) (storeWBIdx s) (storeTail s) (usedPorts s) (stalled s) (stallingStoreIsn s)
    (stallingLoadIdx s) (memDepViolator s) (storeInFlight s) (iew s).
Definition set_stores (v : Z) (s : LSQ) : LSQ :=
  mkLSQ (LQEntries s) (SQEntries s) (depCheckShift s) (needsTSO s) (cacheBlockMask s) (insts s)
    (loadQueue s) (storeQueue s) (loads s) v (storesToWB s) (loadHead s) (loadTail s)
    (storeHead s) (storeWBIdx s) (storeTail s) (usedPorts s) (stalled s) (stallingStoreIsn s)
    (stallingLoadIdx s) (memDepViolator s) (storeInFlight s) (iew s).
Definition set_storesToWB (v : Z) (s : LSQ) : LSQ :=
  mkLSQ (LQEntries s) (SQEntries s) (depCheckShift s) (needsTSO s) (cacheBlockMask s) (insts s)
    (loadQueue s) (storeQueue s) (loads s) (stores s) v (loadHead s) (loadTail s) (storeHead s)
    (storeWBIdx s) (storeTail s) (usedPorts s) (stalled s) (stallingStoreIsn s)
    (stallingLoadIdx s) (memDepViolator s) (storeInFlight s) (iew s).
Definition set_loadHead (v : Z) (s : LSQ) : LSQ :=
  mkLSQ (LQEntries s) (SQEntries s) (depCheckShift s) (needsTSO s) (cacheBlockMask s) (insts s)
    (loadQueue s) (storeQueue s) (loads s) (stores s) (storesToWB s) v (loadTail s)
    (storeHead s) (storeWBIdx s) (storeTail s) (usedPorts s) (stalled s) (stallingStoreIsn s)
    (stallingLoadIdx s) (memDepViolator s) (storeInFlight s) (iew s).
Definition set_loadTail (v : Z) (s : LSQ) : LSQ :=
  mkLSQ (LQEntries s) (SQEntries s) (depCheckShift s) (needsTSO s) (cacheBlockMask s) (insts s)
    (loadQueue s) (storeQueue s) (loads s) (stores s) (storesToWB s) (loadHead s) v
    (storeHead s) (storeWBIdx s) (storeTail s) (usedPorts s) (stalled s) (stallingStoreIsn s)
    (stallingLoadIdx s) (memDepViolator s) (storeInFlight s) (iew s).
Definition set_storeHead (v : Z) (s : LSQ) : LSQ :=
  mkLSQ (LQEntries s) (SQEntries s) (depCheckShift s) (needsTSO s) (cacheBlockMask s) (insts s)
    (loadQueue s) (storeQueue s) (loads s) (stores s) (storesToWB s) (loadHead s) (loadTail s) v
    (storeWBIdx s) (storeTail s) (usedPorts s) (stalled s) (stallingStoreIsn s)
    (stallingLoadIdx s) (memDepViolator s) (storeInFlight s) (iew s).
Definition set_storeWBIdx (v : Z) (s : LSQ) : LSQ :=
  mkLSQ (LQEntries s) (SQEntries s) (depCheckShift s) (needsTSO s) (cacheBlockMask s) (insts s)
    (loadQueue s) (storeQueue s) (loads s) (stores s) (storesToWB s) (loadHead s) (loadTail s)
    (storeHead s) v (storeTail s) (usedPorts s) (stalled s) (stallingStoreIsn s)
    (stallingLoadIdx s) (memDepViolator s) (storeInFlight s) (iew s).
Definition set_storeTail (v : Z) (s : LSQ) : LSQ :=
  mkLSQ (LQEntries s) (SQEntries s) (depCheckShift s) (needsTSO s) (cacheBlockMask s) (insts s)
    (loadQueue s) (storeQueue s) (loads s) (stores s) (storesToWB s) (loadHead s) (loadTail s)
    (storeHead s) (storeWBIdx s) v (usedPorts s) (stalled s) (stallingStoreIsn s)
    (stallingLoadIdx s) (memDepViolator s) (storeInFlight s) (iew s).
Definition set_usedPorts (v : Z) (s : LSQ) : LSQ :=
  mkLSQ (LQEntries s) (SQEntries s) (depCheckShift s) (needsTSO s) (cacheBlockMask s) (insts s)
    (loadQueue s) (storeQueue s) (loads s) (stores s) (storesToWB s) (loadHead s) (loadTail s)
    (storeHead s) (storeWBIdx s) (storeTail s) v (stalled s) (stallingStoreIsn s)
    (stallingLoadIdx s) (memDepViolator s) (storeInFlight s) (iew s).
Definition set_stalled (v : bool) (s : LSQ) : LSQ :=
  mkLSQ (LQEntries s) (SQEntries s) (depCheckShift s) (needsTSO s) (cacheBlockMask s) (insts s)
    (loadQueue s) (storeQueue s) (loads s) (stores s) (storesToWB s) (loadHead s) (loadTail s)
    (storeHead s) (storeWBIdx s) (storeTail s) (usedPorts s) v (stallingStoreIsn s)
    (stallingLoadIdx s) (memDepViolator s) (storeInFlight s) (iew s).
Definition set_stallingStoreIsn (v : Z) (s : LSQ) : LSQ :=
  mkLSQ (LQEntries s) (SQEntries s) (depCheckShift s) (needsTSO s) (cacheBlockMask s) (insts s)
    (loadQueue s) (storeQueue s) (loads s) (stores s) (storesToWB s) (loadHead s) (loadTail s)
    (storeHead s) (storeWBIdx s) (storeTail s) (usedPorts s) (stalled s) v (stallingLoadIdx s)
    (memDepViolator s) (storeInFlight s) (iew s).
Definition set_stallingLoadIdx (v : Z) (s : LSQ) : LSQ :=
  mkLSQ (LQEntries s) (SQEntries s) (depCheckShift s) (needsTSO s) (cacheBlockMask s) (insts s)
    (loadQueue s) (storeQueue s) (loads s) (stores s) (storesToWB s) (loadHead s) (loadTail s)
    (storeHead s) (storeWBIdx s) (storeTail s) (usedPorts s) (stalled s) (stallingStoreIsn s) v
    (memDepViolator s) (storeInFlight s) (iew s).
Definition set_memDepViolator (v : option Z) (s : LSQ) : LSQ :=
  mkLSQ (LQEntries s) (SQEntries s) (depCheckShift s) (needsTSO s) (cacheBlockMask s) (insts s)
    (loadQueue s) (storeQueue s) (loads s) (stores s) (storesToWB s) (loadHead s) (loadTail s)
    (storeHead s) (storeWBIdx s) (storeTail s) (usedPorts s) (stalled s) (stallingStoreIsn s)
    (stallingLoadIdx s) v (storeInFlight s) (iew s).
Definition set_storeInFlight (v : bool) (s : LSQ) : LSQ :=
  mkLSQ (LQEntries s) (SQEntries s) (depCheckShift s) (needsTSO s) (cacheBlockMask s) (insts s)
    (loadQueue s) (storeQueue s) (loads s) (stores s) (storesToWB s) (loadHead s) (loadTail s)
    (storeHead s) (storeWBIdx s) (storeTail s) (usedPorts s) (stalled s) (stallingStoreIsn s)
    (stallingLoadIdx s) (memDepViolator s) v (iew s).
Definition set_iew (v : list IewCall) (s : LSQ) : LSQ :=
  mkLSQ (LQEntries s) (SQEntries s) (depCheckShift s) (needsTSO s) (cacheBlockMask s) (insts s)
    (loadQueue s) (storeQueue s) (loads s) (stores s) (storesToWB s) (loadHead s) (loadTail s)
    (storeHead s) (storeWBIdx s) (storeTail s) (usedPorts s) (stalled s) (stallingStoreIsn s)
    (stallingLoadIdx s) (memDepViolator s) (storeInFlight s) v.

Definition get_inst (s : LSQ) (i : Z) : res DynInst :=
  match insts s !! i with Some d => Ok d | None => Err UB end.
Definition on_inst (i : Z) (f : DynInst → DynInst) (s : LSQ) : LSQ := set_insts (alter f i (insts s)) s.
(** [ptr->member] *)
Definition inst_at (s : LSQ) (p : option Z) : res DynInst :=
  match p with Some i => get_inst s i | None => Err UB end.
Definition call_iew (c : IewCall) (s : LSQ) : LSQ := set_iew (iew s ++ [c]) s.

(** [storeQueue[i]] and [loadQueue[i]], and assignments to them. *)
Definition store_at (s : LSQ) (i : Z) : res SQEntry := at_ (storeQueue s) i.
Definition load_at (s : LSQ) (i : Z) : res (option Z) := at_ (loadQueue s) i.
Definition put_store (i : Z) (e : SQEntry) (s : LSQ) : LSQ :=
  set_storeQueue (<[Z.to_nat i := e]> (storeQueue s)) s.
Definition put_load (i : Z) (p : option Z) (s : LSQ) : LSQ :=
  set_loadQueue (<[Z.to_nat i := p]> (loadQueue s)) s.

(** [incrStIdx], [decrStIdx], [incrLdIdx], [decrLdIdx] *)
Definition incrIdx (n i : Z) : Z := if n <=? i + 1 then 0 else i + 1.
Definition decrIdx (n i : Z) : Z := if i - 1 <? 0 then i - 1 + n else i - 1.
Definition incrStIdx (s : LSQ) (i : Z) : Z := incrIdx (SQEntries s) i.
Definition decrStIdx (s : LSQ) (i : Z) : Z := decrIdx (SQEntries s) i.
Definition incrLdIdx (s : LSQ) (i : Z) : Z := incrIdx (LQEntries s) i.
Definition decrLdIdx (s : LSQ) (i : Z) : Z := decrIdx (LQEntries s) i.

(** [init(...)] followed by [resetState()] *)
Definition init (maxLQEntries maxSQEntries shift : Z) (tso : bool) (lineSize : Z) : res LSQ :=
  let lq := maxLQEntries + 1 in
  let sq := maxSQEntries + 1 in
  assert_ (lq <=? 256);;
  assert_ (sq <=? 256);;
  mret (mkLSQ lq sq shift tso (not64 (sub64 lineSize 1)) ∅ (replicate (Z.to_nat lq) None)
          (replicate (Z.to_nat sq) SQEntry_default) 0 0 0 0 0 0 0 0 0 false 0 0 None false []).

(** ** Inserting *)

Definition insertLoad (i : Z) (s : LSQ) : res LSQ :=
  assert_ (negb ((loadTail s + 1) mod LQEntries s =? loadHead s));;
  assert_ (loads s <? LQEntries s);;
  let s := on_inst i (set_lqIdx (loadTail s)) s in
  let s := on_inst i (set_sqIdx (if stores s =? 0 then -1 else storeTail s)) s in
  let s := put_load (loadTail s) (Some i) s in
  let s := set_loadTail (incrLdIdx s (loadTail s)) s in
  mret (set_loads (loads s + 1) s).

Definition insertStore (i : Z) (s : LSQ) : res LSQ :=
  assert_ (negb ((storeTail s + 1) mod SQEntries s =? storeHead s));;
  assert_ (stores s <? SQEntries s);;
  let s := on_inst i (set_sqIdx (storeTail s)) s in
  let s := on_inst i (set_lqIdx (loadTail s)) s in
  let s := put_store (storeTail s) (SQEntry_new i) s in
  let s := set_storeTail (incrStIdx s (storeTail s)) s in
  mret (set_stores (stores s + 1) s).

Definition insert (i : Z) (s : LSQ) : res LSQ :=
  d ← get_inst s i;
  if isLoad d then insertLoad i s else insertStore i s.

Definition numFreeLoadEntries (s : LSQ) : Z := LQEntries s - loads s - 1.
Definition numFreeStoreEntries (s : LSQ) : Z := SQEntries s - stores s - 1.
Definition lqFull (s : LSQ) : bool := LQEntries s - 1 <=? loads s.
Definition sqFull (s : LSQ) : bool := SQEntries s - 1 <=? stores s.

(** ** Loads *)

(** What [read] does with a load. *)
Inductive ReadResult :=
  | RStrict        (** a strictly ordered load that is not at the head: rescheduled, with a fault *)
  | RIpr           (** a read of a memory-mapped register *)
  | RForward (bs : list Z)   (** the bytes of a store *)
  | RStall         (** wait for a store *)
  | RMemory (sent : bool).   (** read memory; the cache has accepted the packets or not *)

(** [memcpy(data, storeQueue[i].data + shift_amt, size)], or zeros. *)
Definition store_bytes (e : SQEntry) (shift n : Z) : res (list Z) :=
  if isAllZeros e then mret (replicate (Z.to_nat n) 0)
  else if (0 <=? shift) && (shift + n <=? Z.of_nat (length (data e)))
  then mret (take (Z.to_nat n) (drop (Z.to_nat shift) (data e)))
  else Err UB.

(** The limits of the load against those of a store, with the overlap with a row
    operation "pretended" to be partial. *)
Definition limits (va n pa ea sz : Z) (e : SQEntry) : res (bool * bool * bool * bool) :=
  let lower := ea <=? va in
  let upper := add64 va n <=? add64 ea sz in
  let lower_part := va <? add64 ea sz in
  let upper_part := ea <? add64 va n in
  match req e with
  | None => Err UB
  | Some q =>
      if isRowOp q then
        addrs ← RowOps.payload_of (data e);
        let ld_addr_high := add64 pa n in
        let st_addr_high := add64 (dest addrs) ROW_SIZE in
        mret (if (dest addrs <? ld_addr_high) && (pa <? st_addr_high)
              then (true, false, true, false) else (lower, upper, lower_part, upper_part))
      else mret (lower, upper, lower_part, upper_part)
  end.

(** What the store at an index means for the load: it is passed over, it has the data,
    or it has part of it. *)
Inductive Verdict := VSkip | VForward (bs : list Z) | VStall.

Definition check_store (s : LSQ) (va n pa : Z) (store_idx : Z) : res Verdict :=
  e ← store_at s store_idx;
  d ← (assert_ (bool_decide (is_Some (inst e)));; inst_at s (inst e));
  if size e =? 0 then mret VSkip
  else if strictlyOrdered d then mret VSkip
  else
    assert_ (effAddrValid d);;
    '(lower, upper, lower_part, upper_part) ← limits va n pa (effAddr d) (size e) e;
    if lower && upper then
      bs ← store_bytes e (va - effAddr d) n;
      mret (VForward bs)
    else if (lower && lower_part) || (upper && upper_part) || (lower_part && upper_part) then
      if completed e then Err Panic else mret VStall
    else mret VSkip.

(** The search, from the load's [sqIdx] to the oldest store not written back: the verdict
    and its index. *)
Fixpoint search (fuel : nat) (s : LSQ) (va n pa : Z) (store_idx : Z) : res (Verdict * Z) :=
  if store_idx =? -1 then mret (VSkip, store_idx)
  else if store_idx =? storeWBIdx s then mret (VSkip, store_idx)
  else
    match fuel with
    | O => Err UB
    | S fuel =>
        let store_idx := decrStIdx s store_idx in
        v ← check_store s va n pa store_idx;
        match v with
        | VSkip => search fuel s va n pa store_idx
        | _ => mret (v, store_idx)
        end
    end.

(** [read(req, sreqLow, sreqHigh, data, load_idx)]; [accept1] and [accept2] are the answers
    of the cache to the packets, [ipr] is the buffer after a read of a register.  The
    bytes of a new buffer are written by the response. *)
Definition read (r : Request) (split : bool) (load_idx : Z) (accept1 accept2 : bool) (ipr : list Z) (s : LSQ) :
    res (LSQ * ReadResult) :=
  p ← load_at s load_idx;
  i ← (match p with Some i => Ok i | None => Err Assert end);
  d ← get_inst s i;
  assert_ (negb (isExecuted d));;
  if isStrictlyOrdered r && (negb (load_idx =? loadHead s) || negb (isAtCommit d)) then
    mret (call_iew (rescheduleMemInst i) s, RStrict)
  else if isMmappedIpr r then
    assert_ (bool_decide (memData d = None));;
    mret (on_inst i (set_memData (Some ipr)) s, RIpr)
  else
    va ← getVaddr r;
    n ← getSize r;
    pa ← getPaddr r;
    '(v, store_idx) ← search (Z.to_nat (SQEntries s)) s va n pa (sqIdx d);
    match v with
    | VForward bs =>
        mret (on_inst i (set_memData (Some bs)) s, RForward bs)
    | VStall =>
        e ← store_at s store_idx;
        st ← inst_at s (inst e);
        older ← (if stalled s then
                   q ← load_at s (stallingLoadIdx s); l ← inst_at s q; mret (seqNum d <? seqNum l)
                 else mret true);
        let s := if (older : bool)
                 then set_stalled true (set_stallingStoreIsn (seqNum st) (set_stallingLoadIdx load_idx s))
                 else s in
        mret (call_iew (rescheduleMemInst i) s, RStall)
    | VSkip =>
        let s := match memData d with
                 | None => on_inst i (set_memData (Some (replicate (Z.to_nat n) 0))) s
                 | Some _ => s
                 end in
        let s := set_usedPorts (usedPorts s + 1) s in
        let s := if split && accept1 then set_usedPorts (usedPorts s + 1) s else s in
        let ok := accept1 && (negb split || accept2) in
        mret (if ok then s else call_iew (blockMemInst i) s, RMemory ok)
    end.

(** ** Stores *)

(** [write(req, sreqLow, sreqHigh, data, store_idx)] *)
Definition write (r : Request) (low high : option Request) (bs : list Z) (store_idx : Z) (s : LSQ) : res LSQ :=
  e ← store_at s store_idx;
  assert_ (bool_decide (is_Some (inst e)));;
  n ← getSize r;
  f ← getFlags r;
  let zeros := negb (Z.land f CACHE_BLOCK_ZERO =? 0) in
  assert_ ((n <=? 32) || zeros);;
  let split := match low with Some _ => true | None => isSplit e end in
  d ← (if zeros then mret (data e)
       else if n <=? Z.of_nat (length bs) then mret (take (Z.to_nat n) bs ++ drop (Z.to_nat n) (data e)) else Err UB);
  mret (put_store store_idx
    (mkEntry d (inst e) (Some r) low high (u8 n) split (canWB e) (committed e) (completed e) zeros) s).

(** ** Ordering violations *)

(** The blocks of [2^depCheckShift] bytes an access touches. *)
Definition first_block (s : LSQ) (d : DynInst) : Z := Z.shiftr (effAddr d) (depCheckShift s).
Definition last_block (s : LSQ) (d : DynInst) : Z :=
  Z.shiftr (sub64 (add64 (effAddr d) (effSize d)) 1) (depCheckShift s).

(** [checkViolations(load_idx, inst)]: the queue and whether there is a fault. *)
Fixpoint checkViolations (fuel : nat) (load_idx : Z) (d : DynInst) (s : LSQ) : res (LSQ * bool) :=
  if load_idx =? loadTail s then mret (s, false)
  else
    match fuel with
    | O => Err UB
    | S fuel =>
        p ← load_at s load_idx;
        i ← (match p with Some i => Ok i | None => Err UB end);
        ld ← get_inst s i;
        if negb (effAddrValid ld) || strictlyOrdered ld
        then checkViolations fuel (incrLdIdx s load_idx) d s
        else if (first_block s ld <=? last_block s d) && (first_block s d <=? last_block s ld) then
          if isLoad d then
            worse ← (match memDepViolator s with
                     | None => mret true
                     | Some v => vd ← get_inst s v; mret (seqNum ld <? seqNum vd)
                     end);
            if hitExternalSnoop ld && (worse : bool) then mret (set_memDepViolator (Some i) s, true)
            else
              let s := on_inst i (set_possibleLoadViolation true) s in
              checkViolations fuel (incrLdIdx s load_idx) d s
          else
            newer ← (match memDepViolator s with
                     | None => mret false
                     | Some v => vd ← get_inst s v; mret (seqNum vd <? seqNum ld)
                     end);
            if (newer : bool) then mret (s, false) else mret (set_memDepViolator (Some i) s, true)
        else checkViolations fuel (incrLdIdx s load_idx) d s
    end.

(** The loads after the first one, when an external invalidation of a block arrives. *)
Fixpoint snoop_loads (fuel : nat) (invalidate_addr : Z) (force_squash : bool) (load_idx : Z) (s : LSQ) : res LSQ :=
  if load_idx =? loadTail s then mret s
  else
    match fuel with
    | O => Err UB
    | S fuel =>
        p ← load_at s load_idx;
        i ← (match p with Some i => Ok i | None => Err UB end);
        ld ← get_inst s i;
        if negb (effAddrValid ld) || strictlyOrdered ld
        then snoop_loads fuel invalidate_addr force_squash (incrLdIdx s load_idx) s
        else
          let low := Z.land (physEffAddrLow ld) (cacheBlockMask s) in
          let high := Z.land (physEffAddrHigh ld) (cacheBlockMask s) in
          if (low =? invalidate_addr) || (high =? invalidate_addr) || force_squash then
            let force_squash := force_squash || needsTSO s in
            let s := if possibleLoadViolation ld || force_squash
                     then on_inst i (set_reExec true) s
                     else on_inst i (set_hitExternalSnoop true) s in
            snoop_loads fuel invalidate_addr force_squash (incrLdIdx s load_idx) s
          else snoop_loads fuel invalidate_addr force_squash (incrLdIdx s load_idx) s
    end.

(** [checkSnoop(pkt)]; the hooks for locked accesses do nothing on x86. *)
Definition checkSnoop (pkt_addr : Z) (s : LSQ) : res LSQ :=
  if loadHead s =? loadTail s then mret s
  else snoop_loads (Z.to_nat (LQEntries s)) (Z.land pkt_addr (cacheBlockMask s)) false
         (incrLdIdx s (loadHead s)) s.

(** ** Commit *)

Definition commitLoad (s : LSQ) : res LSQ :=
  p ← load_at s (loadHead s);
  assert_ (bool_decide (is_Some p));;
  let s := put_load (loadHead s) None s in
  let s := set_loadHead (incrLdIdx s (loadHead s)) s in
  mret (set_loads (loads s - 1) s).

Fixpoint commit_loads (fuel : nat) (youngest : Z) (s : LSQ) : res LSQ :=
  if loads s =? 0 then mret s
  else
    match fuel with
    | O => Err UB
    | S fuel =>
        p ← load_at s (loadHead s);
        d ← inst_at s p;
        if seqNum d <=? youngest then s ← commitLoad s; commit_loads fuel youngest s else mret s
    end.

Definition commitLoads (youngest : Z) (s : LSQ) : res LSQ :=
  p ← load_at s (loadHead s);
  assert_ ((loads s =? 0) || bool_decide (is_Some p));;
  commit_loads (Z.to_nat (LQEntries s)) youngest s.

Fixpoint commit_stores (fuel : nat) (youngest : Z) (store_idx : Z) (s : LSQ) : res LSQ :=
  if store_idx =? storeTail s then mret s
  else
    match fuel with
    | O => Err UB
    | S fuel =>
        e ← store_at s store_idx;
        d ← (assert_ (bool_decide (is_Some (inst e)));; inst_at s (inst e));
        if canWB e then commit_stores fuel youngest (incrStIdx s store_idx) s
        else if youngest <? seqNum d then mret s
        else
          let s := put_store store_idx (set_canWB true e) s in
          let s := set_storesToWB (storesToWB s + 1) s in
          commit_stores fuel youngest (incrStIdx s store_idx) s
    end.

Definition commitStores (youngest : Z) (s : LSQ) : res LSQ :=
  e ← store_at s (storeHead s);
  assert_ ((stores s =? 0) || bool_decide (is_Some (inst e)));;
  commit_stores (Z.to_nat (SQEntries s)) youngest (storeHead s) s.

(** ** Squash *)

Fixpoint squash_loads (fuel : nat) (squashed_num load_idx : Z) (s : LSQ) : res LSQ :=
  if loads s =? 0 then mret s
  else
    match fuel with
    | O => Err UB
    | S fuel =>
        p ← load_at s load_idx;
        i ← (match p with Some i => Ok i | None => Err UB end);
        d ← get_inst s i;
        if squashed_num <? seqNum d then
          let s := if stalled s && (load_idx =? stallingLoadIdx s)
                   then set_stalled false (set_stallingStoreIsn 0 (set_stallingLoadIdx 0 s)) else s in
          let s := on_inst i (set_isSquashed true) s in
          let s := put_load load_idx None s in
          let s := set_loads (loads s - 1) s in
          let s := set_loadTail load_idx s in
          squash_loads fuel squashed_num (decrLdIdx s load_idx) s
        else mret s
    end.

Fixpoint squash_stores (fuel : nat) (squashed_num store_idx : Z) (s : LSQ) : res LSQ :=
  if stores s =? 0 then mret s
  else
    match fuel with
    | O => Err UB
    | S fuel =>
        e ← store_at s store_idx;
        i ← (match inst e with Some i => Ok i | None => Err UB end);
        d ← get_inst s i;
        if negb (squashed_num <? seqNum d) then mret s
        else if canWB e then mret s
        else if stalled s && (seqNum d =? stallingStoreIsn s) then Err Panic
        else
          let s := on_inst i (set_isSquashed true) s in
          let s := put_store store_idx
            (mkEntry (data e) None None (if isSplit e then None else sreqLow e)
               (if isSplit e then None else sreqHigh e) (size e) (isSplit e) false (committed e)
               (completed e) (isAllZeros e)) s in
          let s := set_stores (stores s - 1) s in
          let s := set_storeTail store_idx s in
          squash_stores fuel squashed_num (decrStIdx s store_idx) s
    end.

(** [squash(squashed_num)] *)
Definition squash (squashed_num : Z) (s : LSQ) : res LSQ :=
  s ← squash_loads (Z.to_nat (LQEntries s)) squashed_num (decrLdIdx s (loadTail s)) s;
  s ← (match memDepViolator s with
       | Some v => d ← get_inst s v; mret (if squashed_num <? seqNum d then set_memDepViolator None s else s)
       | None => mret s
       end);
  squash_stores (Z.to_nat (SQEntries s)) squashed_num (decrStIdx s (storeTail s)) s.

(** ** Write-back *)

(** The stalled load is replayed when its store has been sent. *)
Definition unstall (isn : Z) (s : LSQ) : res LSQ :=
  if stalled s && (isn =? stallingStoreIsn s) then
    p ← load_at s (stallingLoadIdx s);
    i ← (match p with Some i => Ok i | None => Err UB end);
    mret (call_iew (replayMemInst i) (set_stalled false (set_stallingStoreIsn 0 s)))
  else mret s.

(** [storePostSend(pkt)]; there is no checker CPU. *)
Definition storePostSend (s : LSQ) : res LSQ :=
  e ← store_at s (storeWBIdx s);
  i ← (match inst e with Some i => Ok i | None => Err UB end);
  d ← get_inst s i;
  s ← unstall (seqNum d) s;
  let s := if isStoreConditional d then s else on_inst i (set_isCompleted true) s in
  let s := if needsTSO s then set_storeInFlight true s else s in
  mret (set_storeWBIdx (incrStIdx s (storeWBIdx s)) s).

(** The loop of [completeStore] that moves the head over completed stores. *)
Fixpoint pop_completed (fuel : nat) (s : LSQ) : res LSQ :=
  match fuel with
  | O => Err UB
  | S fuel =>
      let s := set_storeHead (incrStIdx s (storeHead s)) s in
      let s := set_stores (stores s - 1) s in
      e ← store_at s (storeHead s);
      if completed e && negb (storeHead s =? storeTail s) then pop_completed fuel s else mret s
  end.

(** [completeStore(store_idx)] *)
Definition completeStore (store_idx : Z) (s : LSQ) : res LSQ :=
  e ← store_at s store_idx;
  i ← (match inst e with Some i => Ok i | None => Err Assert end);
  let s := put_store store_idx (set_completed true e) s in
  let s := set_storesToWB (storesToWB s - 1) s in
  s ← (if store_idx =? storeHead s then pop_completed (Z.to_nat (SQEntries s)) s else mret s);
  d ← get_inst s i;
  s ← unstall (seqNum d) s;
  let s := on_inst i (set_isCompleted true) s in
  mret (if needsTSO s then set_storeInFlight false s else s).

End LSQUnit.
Import LSQUnit.

(** ** Circular indices *)

Lemma decrIdx_mod N i : 0 < N → 0 ≤ i < N → decrIdx N i = (i - 1) mod N.
Proof.
  intros HN Hi. unfold decrIdx. destruct (Z.ltb_spec (i - 1) 0).
  - replace i with 0 by lia. rewrite <- (Z.mod_add _ 1) by lia. rewrite Z.mod_small by lia. lia.
  - by rewrite Z.mod_small by lia.
Qed.

Lemma incrIdx_mod N i : 0 < N → 0 ≤ i < N → incrIdx N i = (i + 1) mod N.
Proof.
  intros HN Hi. unfold incrIdx. destruct (Z.leb_spec N (i + 1)).
  - replace (i + 1) with N by lia. by rewrite Z_mod_same_full.
  - by rewrite Z.mod_small by lia.
Qed.

(** The slots at distances [j] and [k] below [N] from [w] differ. *)
Lemma ring_inj N w j k : 0 < N → 0 ≤ j < N → 0 ≤ k < N → (w + j) mod N = (w + k) mod N → j = k.
Proof.
  intros HN Hj Hk E. assert ((j - k) mod N = 0) as E0.
  { replace (j - k) with ((w + j) - (w + k)) by lia. rewrite Zminus_mod, E, Z.sub_diag. by apply Zmod_0_l. }
  apply Z.mod_divide in E0 as [q Hq]; [|lia].
  destruct (Z.lt_trichotomy q 0) as [|[|]]; nia.
Qed.

Lemma ring_decr N w j : 0 < N → decrIdx N ((w + j) mod N) = (w + (j - 1)) mod N.
Proof.
  intros HN. rewrite decrIdx_mod by (done || by apply Z.mod_pos_bound). rewrite Zminus_mod_idemp_l. f_equal. lia.
Qed.

Lemma ring_incr N w j : 0 < N → incrIdx N ((w + j) mod N) = (w + (j + 1)) mod N.
Proof.
  intros HN. rewrite incrIdx_mod by (done || by apply Z.mod_pos_bound). rewrite Zplus_mod_idemp_l. f_equal. lia.
Qed.

(** ** Forwarding *)

(** The bytes of a store. *)
Definition store_byte (e : SQEntry) (j : Z) : Z := if isAllZeros e then 0 else default 0 (data e !! Z.to_nat j).

(** The row a pending row operation writes, if it is one. *)
Definition row_of (e : SQEntry) : option Z :=
  match req e with
  | Some q => if isRowOp q then match RowOps.payload_of (data e) with Ok a => Some (dest a) | Err _ => None end else None
  | None => None
  end.

(** An executed store ([size] is set) whose addresses do not wrap; a row operation is an
    access of its payload's size at address zero. *)
Record executed_store (e : SQEntry) (d : DynInst) : Prop := {
  es_valid : effAddrValid d = true;
  es_req : is_Some (req e);
  es_open : completed e = false;
  es_size : 0 < size e ∧ 0 ≤ effAddr d ∧ effAddr d + size e < 2 ^ 64;
  es_data : isAllZeros e = false → size e ≤ Z.of_nat (length (data e));
  es_row : (∃ q, req e = Some q ∧ isRowOp q = true) →
    ∃ a, RowOps.payload_of (data e) = Ok a ∧ 0 ≤ dest a ∧ dest a + ROW_SIZE < 2 ^ 64 ∧ effAddr d = 0 ∧ size e = 32;
}.
Definition pending_store (e : SQEntry) (d : DynInst) : Prop := size e = 0 ∨ executed_store e d.

Section forwarding.
(** The load of [n] bytes at [va], physically at [pa]. *)
Context (va n pa : Z).
Hypothesis Hn : 0 < n.
Hypothesis Hva : 32 ≤ va ∧ va + n < 2 ^ 64.
Hypothesis Hpa : 0 ≤ pa ∧ pa + n < 2 ^ 64.

Definition overlaps (a1 n1 a2 n2 : Z) : bool := (a1 <? a2 + n2) && (a2 <? a1 + n1).

(** What a store means for the load. *)
Definition judge (e : SQEntry) (d : DynInst) : Verdict :=
  if (size e =? 0) || strictlyOrdered d then VSkip
  else
    match row_of e with
    | Some row => if overlaps row ROW_SIZE pa n then VStall else VSkip
    | None =>
        if (effAddr d <=? va) && (va + n <=? effAddr d + size e)
        then VForward (store_byte e <$> seqZ (va - effAddr d) n)
        else if overlaps (effAddr d) (size e) va n then VStall else VSkip
    end.

Lemma forwarded_bytes e d :
  executed_store e d → effAddr d ≤ va → va + n ≤ effAddr d + size e →
  store_bytes e (va - effAddr d) n = Ok (store_byte e <$> seqZ (va - effAddr d) n).
Proof.
  intros He H1 H2. pose proof (es_data _ _ He) as Hd. unfold store_bytes, store_byte. destruct (isAllZeros e).
  - simpl. f_equal. apply list_eq. intros i. rewrite list_lookup_fmap.
    destruct (decide (Z.of_nat i < n)).
    + rewrite lookup_seqZ_lt by lia. simpl. by apply lookup_replicate_2; lia.
    + rewrite lookup_seqZ_ge by lia. simpl. apply lookup_replicate_None. lia.
  - specialize (Hd eq_refl). rewrite (proj2 (Z.leb_le _ _)), (proj2 (Z.leb_le (_ + _) _)) by lia. simpl. f_equal.
    apply list_eq. intros i. rewrite list_lookup_fmap. destruct (decide (Z.of_nat i < n)).
    + rewrite lookup_seqZ_lt by lia. simpl. rewrite lookup_take_lt, lookup_drop by lia.
      replace (Z.to_nat (va - effAddr d + Z.of_nat i)) with (Z.to_nat (va - effAddr d) + i)%nat by lia.
      destruct (lookup_lt_is_Some_2 (data e) (Z.to_nat (va - effAddr d) + i)) as [b ->]; [lia|done].
    + rewrite lookup_seqZ_ge by lia. simpl. apply lookup_take_ge. lia.
Qed.

(** The tests of the code on a plain store. *)
Lemma plain_verdict e d :
  executed_store e d →
  let lower := effAddr d <=? va in
  let upper := va + n <=? effAddr d + size e in
  let lower_part := va <? effAddr d + size e in
  let upper_part := effAddr d <? va + n in
  (if lower && upper then bs ← store_bytes e (va - effAddr d) n; mret (VForward bs)
   else if (lower && lower_part) || (upper && upper_part) || (lower_part && upper_part)
        then if completed e then Err Panic else mret VStall else mret VSkip) =
  Ok (if lower && upper then VForward (store_byte e <$> seqZ (va - effAddr d) n)
      else if overlaps (effAddr d) (size e) va n then VStall else VSkip).
Proof using Hn.
  intros He. pose proof He as [_ _ Ho Hsz _ _]. simpl. unfold overlaps. rewrite Ho.
  destruct (Z.leb_spec (effAddr d) va) as [L1|L1], (Z.leb_spec (va + n) (effAddr d + size e)) as [L2|L2]; simpl;
    [by rewrite (forwarded_bytes e d He L1 L2)|..];
    destruct (Z.ltb_spec va (effAddr d + size e)), (Z.ltb_spec (effAddr d) (va + n)); simpl; done || lia.
Qed.

Lemma check_store_ok s idx e d :
  store_at s idx = Ok e → is_Some (inst e) → inst_at s (inst e) = Ok d → pending_store e d →
  check_store s va n pa idx = Ok (judge e d).
Proof using All.
  intros Hs Hi Hd Hp. unfold check_store, judge. rewrite Hs. cbn [mbind res_mbind].
  rewrite (bool_decide_true (is_Some (inst e))) by done. cbn [check mbind res_mbind]. rewrite Hd. cbn [mbind res_mbind].
  destruct (Z.eqb_spec (size e) 0) as [E0|E0]; [done|]. destruct Hp as [|He]; [done|]. simpl.
  destruct (strictlyOrdered d); [done|]. pose proof He as [Hv [q Hq] Ho Hsz _ Hrow].
  rewrite Hv. cbn [check mbind res_mbind]. unfold limits, row_of. rewrite Hq, !add64_small by lia.
  destruct (isRowOp q) eqn:Eq; [|by apply plain_verdict].
  destruct (Hrow (ex_intro _ q (conj Hq Eq))) as (a & Ea & Hd0 & Hd1 & Hz & Hz').
  rewrite Ea. cbn [mbind res_mbind]. rewrite add64_small by (unfold ROW_SIZE in *; lia). unfold overlaps.
  rewrite (andb_comm (dest a <? _)). destruct ((pa <? dest a + ROW_SIZE) && (dest a <? pa + n)) eqn:Eo.
  - simpl. by rewrite Ho.
  - simpl. rewrite Hz, Hz'.
    rewrite (proj2 (Z.leb_gt (va + n) _)), (proj2 (Z.ltb_ge va _)) by lia. by rewrite !andb_false_r.
Qed.

(** The oldest pending store is at [storeWBIdx]; the load comes after the stores [es]. *)
Definition older_stores (s : LSQ) (es : list (SQEntry * DynInst)) (idx : Z) : Prop :=
  0 < SQEntries s ∧ Z.of_nat (length es) < SQEntries s ∧
  (idx = (storeWBIdx s + Z.of_nat (length es)) mod SQEntries s ∨ idx = -1 ∧ es = []) ∧
  0 ≤ storeWBIdx s < SQEntries s ∧
  ∀ j e d, es !! j = Some (e, d) →
    store_at s ((storeWBIdx s + Z.of_nat j) mod SQEntries s) = Ok e ∧ is_Some (inst e) ∧
    inst_at s (inst e) = Ok d ∧ pending_store e d.

(** The youngest store that matters. *)
Fixpoint decide_load (es : list (SQEntry * DynInst)) : Verdict :=
  match es with
  | [] => VSkip
  | (e, d) :: es => match judge e d with VSkip => decide_load es | v => v end
  end.

Lemma search_ok s es : ∀ fuel idx,
  older_stores s es idx → (length es ≤ fuel)%nat →
  ∃ k, search fuel s va n pa idx = Ok (decide_load (reverse es), k) ∧
    (decide_load (reverse es) = VStall → ∃ e d, store_at s k = Ok e ∧ inst_at s (inst e) = Ok d).
Proof using All.
  induction es as [|[e d] es IH] using rev_ind; intros fuel idx (HN & Hlt & Hidx & Hw & Hes) Hf.
  - destruct Hidx as [->|[-> _]]; [|exists (-1); split; [by destruct fuel|done]].
    simpl. rewrite Z.add_0_r, Z.mod_small by lia. exists (storeWBIdx s). split; [|done].
    destruct fuel; simpl; rewrite Z.eqb_refl; by destruct (_ =? -1).
  - rewrite length_app in *. simpl in *. destruct Hidx as [->|[_ Hnil]]; [|by destruct es].
    destruct fuel as [|fuel]; [lia|]. set (N := SQEntries s) in *. set (w := storeWBIdx s) in *. simpl.
    fold N w. pose proof (Z.mod_pos_bound (w + Z.of_nat (length es + 1)) N HN).
    rewrite (proj2 (Z.eqb_neq _ (-1))) by lia.
    rewrite (proj2 (Z.eqb_neq _ w)).
    2:{ intros E. rewrite <- (Z.add_0_r w) in E at 2. rewrite <- (Z.mod_small (w + 0) N) in E by lia.
        apply ring_inj in E; lia. }
    unfold decrStIdx. fold N. rewrite ring_decr by done.
    replace (Z.of_nat (length es + 1) - 1) with (Z.of_nat (length es)) by lia.
    destruct (Hes (length es) e d) as (H1 & H2 & H3 & H4); [by apply list_lookup_middle|]. fold N w in H1.
    rewrite (check_store_ok s _ e d) by done. cbn [mbind res_mbind]. rewrite reverse_snoc. simpl.
    destruct (judge e d) eqn:Ej; [|by eexists; split; [reflexivity|]; eauto..].
    apply IH; [|lia]. split; [done|]. split; [lia|]. split; [by left|]. split; [done|].
    intros j e' d' Hj. apply Hes. apply lookup_app_l_Some. done.
Qed.

End forwarding.

(** ** The value a load must see *)

(** One store on memory.  [tr] is the address translation.  A plain store writes its bytes;
    a row operation writes its destination row (what it writes is not said here); a store
    that has not executed, or that is strictly ordered and goes to a device, does not
    change memory. *)
Record store_effect (tr : Z → Z) (e : SQEntry) (d : DynInst) (m m' : Z → Z) : Prop := {
  se_none : size e = 0 ∨ strictlyOrdered d = true → ∀ p, m' p = m p;
  se_row row : size e ≠ 0 → row_of e = Some row → ∀ p, ¬ (row ≤ p < row + ROW_SIZE) → m' p = m p;
  se_plain : size e ≠ 0 → strictlyOrdered d = false → row_of e = None →
    (∀ j, 0 ≤ j < size e → m' (tr (effAddr d + j)) = store_byte e j) ∧
    (∀ p, (∀ j, 0 ≤ j < size e → p ≠ tr (effAddr d + j)) → m' p = m p);
}.

(** The stores, oldest first. *)
Inductive stores_effect (tr : Z → Z) : list (SQEntry * DynInst) → (Z → Z) → (Z → Z) → Prop :=
  | stores_nil m : stores_effect tr [] m m
  | stores_snoc es e d m m1 m2 :
      stores_effect tr es m m1 → store_effect tr e d m1 m2 → stores_effect tr (es ++ [(e, d)]) m m2.

(** Virtual addresses are not aliased, and the load is contiguous in memory. *)
Record translation (tr : Z → Z) (va n pa : Z) : Prop := {
  tr_inj x y : 0 ≤ x < 2 ^ 64 → 0 ≤ y < 2 ^ 64 → tr x = tr y → x = y;
  tr_load i : 0 ≤ i < n → tr (va + i) = pa + i;
}.

Section memory.
Context (tr : Z → Z) (va n pa : Z).
Hypothesis Hn : 0 < n.
Hypothesis Hva : 32 ≤ va ∧ va + n < 2 ^ 64.
Hypothesis Htr : translation tr va n pa.

Lemma skip_keeps e d m m' :
  pending_store e d → judge va n pa e d = VSkip → store_effect tr e d m m' →
  ∀ i, 0 ≤ i < n → m' (pa + i) = m (pa + i).
Proof using All.
  intros Hp Hj [Hnone Hrow Hplain] i Hi. unfold judge in Hj.
  destruct (Z.eqb_spec (size e) 0) as [E0|E0]; [apply Hnone; auto|].
  destruct (strictlyOrdered d) eqn:Es; [apply Hnone; auto|]. simpl in Hj. destruct Hp as [|He]; [done|].
  destruct (row_of e) as [row|] eqn:Er.
  - destruct (overlaps _ _ _ _) eqn:Eo; [done|]. apply (Hrow row); [done|done|]. unfold overlaps in Eo.
    destruct (Z.ltb_spec row (pa + n)), (Z.ltb_spec pa (row + ROW_SIZE)); simpl in Eo; done || lia.
  - destruct (Hplain E0 eq_refl eq_refl) as [_ Hk]. destruct (_ && _); [done|].
    destruct (overlaps _ _ _ _) eqn:Eo; [done|]. apply Hk. intros j Hj'.
    rewrite <- (tr_load _ _ _ _ Htr) by done. intros E. pose proof (es_size _ _ He).
    apply (tr_inj _ _ _ _ Htr) in E; [|lia|lia]. unfold overlaps in Eo.
    destruct (Z.ltb_spec (effAddr d) (va + n)), (Z.ltb_spec va (effAddr d + size e)); simpl in Eo; done || lia.
Qed.

Lemma forward_sees e d m m' bs :
  pending_store e d → judge va n pa e d = VForward bs → store_effect tr e d m m' →
  ∀ i, 0 ≤ i < n → bs !! Z.to_nat i = Some (m' (pa + i)).
Proof using All.
  intros Hp Hj [_ _ Hplain] i Hi. unfold judge in Hj.
  destruct (Z.eqb_spec (size e) 0) as [E0|E0]; [done|]. destruct (strictlyOrdered d) eqn:Es; [done|]. simpl in Hj.
  destruct (row_of e) as [row|] eqn:Er; [by destruct (overlaps _ _ _ _)|].
  destruct (Hplain E0 eq_refl eq_refl) as [Hb _].
  destruct (Z.leb_spec (effAddr d) va), (Z.leb_spec (va + n) (effAddr d + size e)); simpl in Hj;
    try (by destruct (overlaps _ _ _ _)).
  injection Hj as <-. rewrite list_lookup_fmap, lookup_seqZ_lt by lia. simpl. f_equal.
  rewrite <- (tr_load _ _ _ _ Htr) by done. replace (va + i) with (effAddr d + (va - effAddr d + i)) by lia.
  rewrite Hb by lia. f_equal. lia.
Qed.

(** The decision against the memory after all older stores. *)
Lemma decide_load_correct es m0 m :
  stores_effect tr es m0 m → Forall (λ p, pending_store p.1 p.2) es →
  match decide_load va n pa (reverse es) with
  | VForward bs => ∀ i, 0 ≤ i < n → bs !! Z.to_nat i = Some (m (pa + i))
  | VSkip => ∀ i, 0 ≤ i < n → m (pa + i) = m0 (pa + i)
  | VStall => ∃ e d, (e, d) ∈ es ∧ judge va n pa e d = VStall
  end.
Proof using All.
  induction 1 as [m|es e d m m1 m2 _ IH He]; intros Hp; [done|].
  apply Forall_app in Hp as [Hp Hpe]. apply Forall_cons in Hpe as [Hpe _]. simpl in Hpe. specialize (IH Hp).
  rewrite reverse_snoc. simpl. destruct (judge va n pa e d) as [|bs|] eqn:Ej.
  - pose proof (skip_keeps e d m1 m2 Hpe Ej He) as Hk.
    destruct (decide_load _ _ _ _) as [|bs|].
    + intros i Hi. by rewrite Hk, IH.
    + intros i Hi. rewrite (Hk i Hi). by apply IH.
    + destruct IH as (e' & d' & Hin & Hj). exists e', d'. split; [set_solver|done].
  - by eapply forward_sees.
  - exists e, d. split; [set_solver|done].
Qed.

End memory.

(** A load that may execute: it is in the queue, not strictly ordered and not of a register,
    with its addresses known. *)
Record load_ready (s : LSQ) (idx i : Z) (d : DynInst) (r : Request) (va n pa : Z) : Prop := {
  lr_at : load_at s idx = Ok (Some i);
  lr_inst : get_inst s i = Ok d;
  lr_executed : isExecuted d = false;
  lr_plain : isStrictlyOrdered r = false ∧ isMmappedIpr r = false;
  lr_va : getVaddr r = Ok va ∧ 32 ≤ va ∧ va + n < 2 ^ 64;
  lr_size : getSize r = Ok n ∧ 0 < n;
  lr_pa : getPaddr r = Ok pa ∧ 0 ≤ pa ∧ pa + n < 2 ^ 64;
  lr_stalled : stalled s = true → ∃ q l, load_at s (stallingLoadIdx s) = Ok (Some q) ∧ get_inst s q = Ok l;
}.


(** ** The circular store queue as a list *)

(** The [n] slots from [h] on of a ring of [N]. *)
Definition slots {A} `{!Inhabited A} (q : list A) (N h n : Z) : list A :=
  (λ j, q !!! Z.to_nat ((h + j) mod N)) <$> seqZ 0 n.

Section ring.
Context {A : Type} `{!Inhabited A} (q : list A) (N : Z).
Hypothesis HN : 0 < N.
Hypothesis Hq : Z.of_nat (length q) = N.

Lemma slots_length h n : length (slots q N h n) = Z.to_nat n.
Proof using Type. unfold slots. by rewrite length_fmap, length_seqZ. Qed.

Lemma slots_lookup h n j :
  0 ≤ j < n → slots q N h n !! Z.to_nat j = Some (q !!! Z.to_nat ((h + j) mod N)).
Proof using Type.
  intros Hj. unfold slots. rewrite list_lookup_fmap, lookup_seqZ_lt by lia. simpl. by rewrite Z2Nat.id by lia.
Qed.

Lemma slot_bound i : 0 ≤ i mod N < N ∧ (Z.to_nat (i mod N) < length q)%nat.
Proof using HN Hq. pose proof (Z.mod_pos_bound i N HN). lia. Qed.

(** [v[i]] of a slot. *)
Lemma slot_at i : at_ q (i mod N) = Ok (q !!! Z.to_nat (i mod N)).
Proof using HN Hq.
  destruct (slot_bound i) as [Hb Hl]. unfold at_. rewrite decide_True by lia.
  destruct (lookup_lt_is_Some_2 _ _ Hl) as [x Hx]. rewrite Hx. by rewrite (list_lookup_total_correct _ _ _ Hx).
Qed.

(** A slot past the window is not in it. *)
Lemma slots_outside h n x : 0 ≤ n < N → slots (<[Z.to_nat ((h + n) mod N) := x]> q) N h n = slots q N h n.
Proof using HN Hq.
  intros Hn. unfold slots. apply list_fmap_ext. intros i j Hj. apply lookup_seqZ in Hj as [-> Hlt].
  apply list_lookup_total_insert_ne. intros E. destruct (slot_bound (h + n)), (slot_bound (h + (0 + Z.of_nat i))).
  assert ((h + n) mod N = (h + (0 + Z.of_nat i)) mod N) as E' by lia. apply ring_inj in E'; lia.
Qed.

Lemma slots_snoc h n x :
  0 ≤ n < N → slots (<[Z.to_nat ((h + n) mod N) := x]> q) N h (n + 1) = slots q N h n ++ [x].
Proof using HN Hq.
  intros Hn. unfold slots. rewrite seqZ_app by lia. rewrite fmap_app. simpl. f_equal.
  - by apply slots_outside.
  - rewrite Z.add_0_l. replace (h + (n + 0)) with (h + n) by lia.
    rewrite list_lookup_total_insert_eq by apply slot_bound. done.
Qed.

Lemma slots_insert h n j x :
  0 ≤ j < n → n ≤ N → slots (<[Z.to_nat ((h + j) mod N) := x]> q) N h n = <[Z.to_nat j := x]> (slots q N h n).
Proof using HN Hq.
  intros Hj Hn. apply list_eq. intros i. destruct (decide (Z.of_nat i < n)) as [Hi|Hi].
  - replace i with (Z.to_nat (Z.of_nat i)) by lia. unfold slots. rewrite list_lookup_fmap, lookup_seqZ_lt by lia. simpl.
    destruct (decide (Z.of_nat i = j)) as [E|E].
    + rewrite E, list_lookup_insert_eq by (rewrite length_fmap, length_seqZ; lia). f_equal.
      replace (h + (0 + Z.of_nat (Z.to_nat j))) with (h + j) by lia.
      rewrite list_lookup_total_insert_eq by apply slot_bound. done.
    + rewrite list_lookup_insert_ne by lia. rewrite list_lookup_fmap, lookup_seqZ_lt by lia. simpl. f_equal.
      apply list_lookup_total_insert_ne. intros E'. destruct (slot_bound (h + j)), (slot_bound (h + (0 + Z.of_nat (Z.to_nat (Z.of_nat i))))).
      assert ((h + j) mod N = (h + (0 + Z.of_nat (Z.to_nat (Z.of_nat i)))) mod N) as E2 by lia. apply ring_inj in E2; lia.
  - rewrite !lookup_ge_None_2; [done|rewrite length_insert, slots_length; lia|].
    unfold slots. rewrite length_fmap, length_seqZ. lia.
Qed.

Lemma slots_tail h n : 0 < n → slots q N ((h + 1) mod N) (n - 1) = tail (slots q N h n).
Proof using HN.
  intros Hn. unfold slots. replace n with (1 + (n - 1)) at 2 by lia. rewrite seqZ_app by lia.
  rewrite fmap_app. simpl. apply list_eq. intros i. rewrite !list_lookup_fmap.
  destruct (decide (Z.of_nat i < n - 1)).
  - rewrite !lookup_seqZ_lt by lia. simpl. do 3 f_equal. rewrite Zplus_mod_idemp_l. f_equal. lia.
  - by rewrite !lookup_seqZ_ge by lia.
Qed.

Lemma slots_init h n : 0 < n → slots q N h n = slots q N h (n - 1) ++ [q !!! Z.to_nat ((h + (n - 1)) mod N)].
Proof using Type.
  intros Hn. unfold slots. replace n with ((n - 1) + 1) at 1 by lia. rewrite seqZ_app by lia. rewrite fmap_app. simpl.
  done.
Qed.

End ring.

(** The store queue as a list of entries, oldest first. *)
Record queue (s : LSQ) (l : list SQEntry) : Prop := {
  qu_size : 1 < SQEntries s ∧ Z.of_nat (length (storeQueue s)) = SQEntries s;
  qu_head : 0 ≤ storeHead s < SQEntries s;
  qu_count : stores s = Z.of_nat (length l) ∧ stores s < SQEntries s;
  qu_tail : storeTail s = (storeHead s + stores s) mod SQEntries s;
  qu_list : slots (storeQueue s) (SQEntries s) (storeHead s) (stores s) = l;
}.

Lemma queue_at s l j e :
  queue s l → l !! j = Some e → store_at s ((storeHead s + Z.of_nat j) mod SQEntries s) = Ok e.
Proof.
  intros [Hs Hh Hc _ Hl] Hj. pose proof (lookup_lt_Some _ _ _ Hj). unfold store_at.
  rewrite (slot_at _ (SQEntries s)) by lia. f_equal. subst l.
  replace j with (Z.to_nat (Z.of_nat j)) in Hj by lia. rewrite slots_lookup in Hj by lia. by injection Hj.
Qed.

Lemma queue_put s l j e :
  queue s l → (j < length l)%nat →
  queue (put_store ((storeHead s + Z.of_nat j) mod SQEntries s) e s) (<[j := e]> l).
Proof.
  intros [Hs Hh Hc Ht Hl] Hj. split; simpl; rewrite ?length_insert; try done.
  rewrite slots_insert by lia. rewrite Nat2Z.id. by f_equal.
Qed.

Lemma queue_at_tail s l j :
  queue s l → (j ≤ length l)%nat →
  (storeHead s + Z.of_nat j) mod SQEntries s =? storeTail s = bool_decide (j = length l).
Proof.
  intros [Hs Hh Hc Ht Hl] Hj. rewrite Ht. case_bool_decide as E.
  - apply Z.eqb_eq. f_equal. lia.
  - apply Z.eqb_neq. intros E'. apply ring_inj in E'; lia.
Qed.

(** The same queue in a state that differs in other fields only. *)
Lemma queue_view s s' l :
  queue s l → SQEntries s' = SQEntries s → storeQueue s' = storeQueue s → storeHead s' = storeHead s →
  storeTail s' = storeTail s → stores s' = stores s → queue s' l.
Proof. intros [? ? ? ? ?] E1 E2 E3 E4 E5. by split; rewrite ?E1, ?E2, ?E3, ?E4, ?E5. Qed.

Section store_queue.
(** The sequence numbers of the instructions, which never change. *)
Context (seq : Z → Z).

Definition known (s : LSQ) (e : SQEntry) : Prop :=
  ∃ i d, inst e = Some i ∧ insts s !! i = Some d ∧ seqNum d = seq i.
Definition seq_of (e : SQEntry) : Z := match inst e with Some i => seq i | None => 0 end.

(** Stores that may write memory and have not. *)
Definition waiting (e : SQEntry) : Prop := canWB e = true ∧ completed e = false.
#[local] Instance waiting_dec e : Decision (waiting e).
Proof. unfold waiting. apply _. Defined.

(** *** What the operations do to the list *)

(** Stores up to [youngest] commit, in order. *)
Fixpoint mark (youngest : Z) (l : list SQEntry) : list SQEntry :=
  match l with
  | [] => []
  | e :: l =>
      if canWB e then e :: mark youngest l
      else if youngest <? seq_of e then e :: l else set_canWB true e :: mark youngest l
  end.

(** Uncommitted stores younger than [n] leave, youngest first. *)
Fixpoint drop_young (n : Z) (l : list SQEntry) : list SQEntry :=
  match l with
  | [] => []
  | e :: l' => if (n <? seq_of e) && negb (canWB e) then drop_young n l' else l
  end.
Definition squashed (n : Z) (l : list SQEntry) : list SQEntry := reverse (drop_young n (reverse l)).

(** A store completes; completed stores leave at the head. *)
Fixpoint drop_completed (l : list SQEntry) : list SQEntry :=
  match l with [] => [] | e :: l' => if completed e then drop_completed l' else l end.
Definition complete (j : nat) (l : list SQEntry) : list SQEntry :=
  let l := alter (set_completed true) j l in
  match j with O => drop_completed l | S _ => l end.

(** The first [k] stores have been sent to memory. *)
Definition sent_prefix (k : nat) (l : list SQEntry) : Prop :=
  (k ≤ length l)%nat ∧
  ∀ j e, l !! j = Some e → ((j < k)%nat → canWB e = true) ∧ ((k ≤ j)%nat → completed e = false).

(** The store queue holds the stores [l], of which [k] have been sent. *)
Record represents (s : LSQ) (l : list SQEntry) (k : nat) : Prop := {
  rp_queue : queue s l;
  rp_known : Forall (known s) l;
  rp_sent : sent_prefix k l;
  rp_wb : storeWBIdx s = (storeHead s + Z.of_nat k) mod SQEntries s;
  rp_count : storesToWB s = Z.of_nat (length (filter waiting l));
}.

Lemma known_inst s e : known s e → ∃ i d, inst e = Some i ∧ get_inst s i = Ok d ∧ insts s !! i = Some d ∧ seqNum d = seq_of e.
Proof using Type. intros (i & d & Hi & Hd & Hs). exists i, d. unfold get_inst, seq_of. by rewrite Hi, Hd. Qed.

Lemma known_mono s s' e :
  (∀ i d, insts s !! i = Some d → ∃ d', insts s' !! i = Some d' ∧ seqNum d' = seqNum d) → known s e → known s' e.
Proof using Type.
  intros Hm (i & d & Hi & Hd & Hs). destruct (Hm i d Hd) as (d' & Hd' & Hs'). exists i, d'. by rewrite Hs', Hs.
Qed.

(** Changes of an instruction that keep its sequence number. *)
Lemma on_inst_mono f k s :
  (∀ d, seqNum (f d) = seqNum d) →
  ∀ i d, insts s !! i = Some d → ∃ d', insts (on_inst k f s) !! i = Some d' ∧ seqNum d' = seqNum d.
Proof using Type.
  intros Hf i d Hd. simpl. destruct (decide (k = i)) as [->|].
  - exists (f d). by rewrite lookup_alter_eq, Hd, Hf.
  - exists d. by rewrite lookup_alter_ne.
Qed.


(** *** Insertion *)

Lemma insertStore_refines s l k i d :
  represents s l k → insts s !! i = Some d → seqNum d = seq i → sqFull s = false →
  ∃ s', insertStore i s = Ok s' ∧ represents s' (l ++ [SQEntry_new i]) k.
Proof using Type.
  intros [Hq Hk Hs Hw Hc] Hd Hseq Hf. pose proof Hq as [Hsz Hh Hn Ht Hl]. unfold sqFull in Hf. apply Z.leb_gt in Hf.
  unfold insertStore. rewrite Ht, Zplus_mod_idemp_l.
  replace ((storeHead s + stores s + 1) mod SQEntries s =? storeHead s) with false.
  2:{ symmetry. apply Z.eqb_neq. intros E. rewrite <- (Z.mod_small (storeHead s) (SQEntries s)) in E at 2 by lia.
      rewrite <- (Z.add_0_r (storeHead s)), <- !Z.add_assoc in E. apply ring_inj in E; lia. }
  rewrite (proj2 (Z.ltb_lt _ _)) by lia. cbn [check negb mbind res_mbind]. eexists. split; [reflexivity|].
  destruct Hs as [Hlen Hpre]. split.
  - split; simpl; rewrite ?length_insert, ?length_app; simpl; try done; [lia| |].
    + unfold incrStIdx. simpl. rewrite Ht, ring_incr by lia. done.
    + rewrite Ht, slots_snoc by lia. by rewrite Hl.
  - apply Forall_app. split.
    + eapply Forall_impl; [exact Hk|]. intros e. apply known_mono. intros j d' Hd'. simpl.
      destruct (decide (i = j)) as [->|]; [|rewrite !lookup_alter_ne by done; by eauto].
      rewrite !lookup_alter_eq, Hd'. simpl. by eauto.
    + apply Forall_singleton. exists i. eexists. split; [done|]. simpl. rewrite !lookup_alter_eq, Hd. simpl. by split.
  - split; [rewrite length_app; lia|]. intros j e [Hj|[Hj He]]%lookup_app_Some; [by apply Hpre|].
    apply list_lookup_singleton_Some in He as [_ <-]. split; [lia|done].
  - done.
  - simpl. rewrite filter_app, filter_cons_False by (by intros [? _]). by rewrite app_nil_r.
Qed.

Lemma insertStore_full s l k i :
  represents s l k → sqFull s = true → insertStore i s = Err Assert.
Proof using Type.
  intros [[Hsz Hh Hn Ht Hl] _ _ _ _] Hf. unfold sqFull in Hf. apply Z.leb_le in Hf.
  assert ((storeTail s + 1) mod SQEntries s = storeHead s) as E.
  { rewrite Ht, Zplus_mod_idemp_l. replace (storeHead s + stores s + 1) with (storeHead s + 1 * SQEntries s) by lia.
    rewrite Z.mod_add by lia. apply Z.mod_small. lia. }
  unfold insertStore. by rewrite E, Z.eqb_refl.
Qed.

(** *** Commit *)

Lemma commit_stores_ok y : ∀ l2 l1 fuel s,
  queue s (l1 ++ l2) → Forall (known s) l2 → (length l2 ≤ fuel)%nat →
  ∃ q c, commit_stores fuel y ((storeHead s + Z.of_nat (length l1)) mod SQEntries s) s =
    Ok (set_storesToWB c (set_storeQueue q s)) ∧
    queue (set_storesToWB c (set_storeQueue q s)) (l1 ++ mark y l2) ∧
    (Forall (λ e, canWB e = false → completed e = false) l2 →
     c - storesToWB s = Z.of_nat (length (filter waiting (mark y l2))) - Z.of_nat (length (filter waiting l2))).
Proof using Type.
  induction l2 as [|e l2 IH]; intros l1 fuel s Hq Hk Hf.
  - exists (storeQueue s), (storesToWB s). assert (set_storesToWB (storesToWB s) (set_storeQueue (storeQueue s) s) = s) as -> by by destruct s.
    split; [|split; [done|simpl; lia]]. unfold commit_stores.
    destruct fuel; rewrite (queue_at_tail s (l1 ++ [])), bool_decide_true by (done || rewrite length_app; simpl; lia); done.
  - destruct fuel as [|fuel]; [simpl in Hf; lia|]. apply Forall_cons in Hk as [Hke Hk]. simpl.
    rewrite (queue_at_tail s _ _ Hq), bool_decide_false by (rewrite length_app; simpl; lia).
    rewrite (queue_at s _ _ e Hq) by by apply list_lookup_middle. cbn [mbind res_mbind].
    destruct (known_inst _ _ Hke) as (i & d & Hi & Hd & _ & Hsq). rewrite Hi. cbn [inst_at bool_decide].
    rewrite bool_decide_true by done. cbn [check mbind res_mbind]. rewrite Hd. cbn [mbind res_mbind]. rewrite Hsq.
    assert (∀ e', incrIdx (SQEntries s) ((storeHead s + Z.of_nat (length l1)) mod SQEntries s) =
      (storeHead s + Z.of_nat (length (l1 ++ [e']))) mod SQEntries s) as Hinc.
    { intros e'. rewrite ring_incr by (destruct Hq; lia). f_equal. rewrite length_app. simpl. lia. }
    destruct (canWB e) eqn:Ec; [|destruct (y <? seq_of e) eqn:Ey].
    + unfold incrStIdx. rewrite (Hinc e). destruct (IH (l1 ++ [e]) fuel s) as (q & c & E & Hq' & Hc); [by rewrite <- app_assoc|done|simpl in Hf; lia|].
      exists q, c. split; [exact E|]. rewrite <- app_assoc in Hq'. split; [done|]. intros [_ Hc']%Forall_cons.
      specialize (Hc Hc'). rewrite !filter_cons. destruct (decide (waiting e)); simpl; lia.
    + exists (storeQueue s), (storesToWB s). assert (set_storesToWB (storesToWB s) (set_storeQueue (storeQueue s) s) = s) as -> by by destruct s.
      split; [done|]. split; [done|]. lia.
    + pose proof (queue_put s _ (length l1) (set_canWB true e) Hq) as Hp. rewrite length_app in Hp. simpl in Hp.
      specialize (Hp ltac:(lia)). rewrite insert_app_r_alt, Nat.sub_diag in Hp by lia. simpl in Hp.
      set (s1 := put_store _ _ s) in *.
      destruct (IH (l1 ++ [set_canWB true e]) fuel (set_storesToWB (storesToWB s + 1) s1)) as (q & c & E & Hq' & Hc).
      { rewrite <- app_assoc. by eapply queue_view. }
      { done. } { simpl in Hf; lia. }
      exists q, c. split; [unfold incrStIdx; simpl; rewrite (Hinc (set_canWB true e)); exact E|]. rewrite <- app_assoc in Hq'. split; [exact Hq'|].
      intros [Hc1 Hc']%Forall_cons. specialize (Hc Hc'). simpl in Hc. specialize (Hc1 Ec).
      rewrite filter_cons_True by done. rewrite (filter_cons_False _ e) by (intros [? _]; congruence). simpl. lia.
Qed.

Lemma mark_lookup y l : ∀ j e', mark y l !! j = Some e' →
  ∃ e, l !! j = Some e ∧ (e' = e ∨ e' = set_canWB true e).
Proof using Type.
  induction l as [|e l IH]; intros j e'; [done|]. simpl.
  destruct (canWB e); [|destruct (y <? seq_of e); [by eauto|]]; (destruct j as [|j]; [intros [= <-]; by eauto|]; apply IH).
Qed.

Lemma mark_length y l : length (mark y l) = length l.
Proof using Type. induction l as [|e l IH]; simpl; [done|]. destruct (canWB e), (y <? seq_of e); simpl; lia. Qed.

Lemma commitStores_refines s l k y :
  represents s l k → ∃ s', commitStores y s = Ok s' ∧ represents s' (mark y l) k.
Proof using Type.
  intros [Hq Hk [Hlen Hpre] Hw Hc]. unfold commitStores.
  destruct (commit_stores_ok y l [] (Z.to_nat (SQEntries s)) s Hq Hk) as (q & c & E & Hq' & Hcn); [destruct Hq; lia|].
  simpl in E, Hq'. rewrite Z.add_0_r, Z.mod_small in E by (destruct Hq; lia).
  assert (∃ e, store_at s (storeHead s) = Ok e ∧ (stores s =? 0) || bool_decide (is_Some (inst e)) = true) as (e & He & Hb).
  { pose proof Hq as [Hsz Hh [Hn _] _ _]. destruct l as [|e l].
    - exists (storeQueue s !!! Z.to_nat (storeHead s mod SQEntries s)). rewrite Hn. split; [|done].
      rewrite <- (Z.mod_small (storeHead s) (SQEntries s)) at 1 by lia. apply slot_at; lia.
    - exists e. split; [rewrite <- (queue_at s _ 0 e Hq eq_refl); f_equal; rewrite Z.add_0_r, Z.mod_small; lia|].
      apply Forall_cons in Hk as [(i & d & -> & _) _]. rewrite bool_decide_true by done. apply orb_true_r. }
  rewrite He. cbn [mbind res_mbind]. rewrite Hb. cbn [check mbind res_mbind]. rewrite E. eexists. split; [reflexivity|].
  split; [exact Hq'| | |done|].
  - apply Forall_lookup. intros j e' (e0 & He0 & Hor)%mark_lookup. pose proof (Forall_lookup_1 _ _ _ _ Hk He0) as Hk0.
    destruct Hor as [->| ->]; exact Hk0.
  - split; [by rewrite mark_length|]. intros j e' (e0 & He0 & Hor)%mark_lookup. specialize (Hpre j e0 He0) as [H1 H2].
    destruct Hor as [->| ->]; auto.
  - simpl. assert (Forall (λ e, canWB e = false → completed e = false) l) as Hall.
    { apply Forall_lookup. intros j e0 He0 Hcw. specialize (Hpre j e0 He0) as [H1 H2].
      apply H2. destruct (decide (j < k)%nat) as [Hj|]; [|lia]. rewrite H1 in Hcw; done. }
    specialize (Hcn Hall). lia.
Qed.

(** *** Squash *)

Lemma squashed_snoc n l e :
  squashed n (l ++ [e]) = if (n <? seq_of e) && negb (canWB e) then squashed n l else l ++ [e].
Proof using Type.
  unfold squashed. rewrite reverse_snoc. simpl. destruct (_ && _); [done|].
  by rewrite reverse_cons, reverse_involutive.
Qed.

(** The youngest store leaves. *)
Lemma queue_drop s l e i x f :
  queue s (l ++ [e]) →
  queue (set_storeTail ((storeHead s + Z.of_nat (length l)) mod SQEntries s)
    (set_stores (stores s - 1) (put_store ((storeHead s + Z.of_nat (length l)) mod SQEntries s) x (on_inst i f s)))) l.
Proof using Type.
  intros [Hs Hh Hn Ht Hl]. rewrite length_app in Hn. simpl in Hn. split; simpl; rewrite ?length_insert; try done; try lia.
  - f_equal. lia.
  - replace (stores s - 1) with (Z.of_nat (length l)) by lia. rewrite slots_outside by lia.
    rewrite slots_init in Hl by lia. apply app_inj_tail in Hl as [<- _]. f_equal. rewrite slots_length. lia.
Qed.

Lemma squash_stores_ok n : ∀ l fuel s,
  queue s l → Forall (known s) l → (length l ≤ fuel)%nat →
  (stalled s = true → ∀ e, e ∈ l → n < seq_of e → canWB e = false → seq_of e ≠ stallingStoreIsn s) →
  ∃ s', squash_stores fuel n (decrStIdx s (storeTail s)) s = Ok s' ∧ queue s' (squashed n l) ∧
    SQEntries s' = SQEntries s ∧ storeHead s' = storeHead s ∧ storeWBIdx s' = storeWBIdx s ∧
    storesToWB s' = storesToWB s ∧
    ∀ i d, insts s !! i = Some d → ∃ d', insts s' !! i = Some d' ∧ seqNum d' = seqNum d.
Proof using Type.
  induction l as [|e l IH] using rev_ind; intros fuel s Hq Hk Hf Hst; pose proof Hq as [Hs Hh Hn Ht Hl].
  { exists s. split; [destruct fuel; simpl; by rewrite (proj1 Hn)|]. split; [done|]. by eauto 10. }
  rewrite length_app in *. simpl in *. destruct fuel as [|fuel]; [lia|].
  apply Forall_app in Hk as [Hk [Hke _]%Forall_cons].
  assert (decrStIdx s (storeTail s) = (storeHead s + Z.of_nat (length l)) mod SQEntries s) as Hi.
  { unfold decrStIdx. rewrite Ht, ring_decr by lia. f_equal. lia. }
  rewrite Hi. simpl. rewrite (proj2 (Z.eqb_neq _ _)) by lia.
  rewrite (queue_at s _ _ e Hq) by by apply list_lookup_middle. cbn [mbind res_mbind].
  destruct (known_inst _ _ Hke) as (i & d & Hei & Hd & Hid & Hsq). rewrite Hei. cbn [mbind res_mbind]. rewrite Hd.
  cbn [mbind res_mbind]. rewrite Hsq, squashed_snoc.
  destruct (n <? seq_of e) eqn:En, (canWB e) eqn:Ec; simpl;
    [by eexists; split; [reflexivity|]; eauto 10| |by eexists; split; [reflexivity|]; eauto 10..].
  replace (stalled s && (seq_of e =? stallingStoreIsn s)) with false.
  2:{ symmetry. destruct (stalled s); [|done]. simpl. apply Z.eqb_neq. apply Hst; [done|set_solver|lia|done]. }
  match goal with |- context [squash_stores fuel n _ ?x] => set (s1 := x) end.
  assert (queue s1 l) as Hq1 by (by eapply queue_drop).
  assert (∀ j d0, insts s !! j = Some d0 → ∃ d', insts s1 !! j = Some d' ∧ seqNum d' = seqNum d0) as Hm.
  { intros j d0 Hj. by apply (on_inst_mono (set_isSquashed true) i s). }
  destruct (IH fuel s1 Hq1) as (s' & E & Hq' & E1 & E2 & E3 & E4 & E5).
  { eapply Forall_impl; [exact Hk|]. intros e'. by apply known_mono. }
  { lia. }
  { intros Hstl e' He'. apply Hst; [done|set_solver]. }
  exists s'. split; [exact E|]. do 5 (split; [done|]). intros j d0 Hj. destruct (Hm j d0 Hj) as (d1 & Hd1 & Hs1).
  destruct (E5 j d1 Hd1) as (d2 & Hd2 & Hs2). exists d2. by rewrite Hs2, Hs1.
Qed.

(** What is left of the queue, and that no committed store leaves it. *)
Lemma squashed_prefix n l :
  ∃ l', l = squashed n l ++ l' ∧ Forall (λ e, canWB e = false ∧ n < seq_of e) l'.
Proof using Type.
  induction l as [|e l IH] using rev_ind; [by exists []|]. rewrite squashed_snoc.
  destruct (Z.ltb_spec n (seq_of e)) as [Hn|], (canWB e) eqn:Ec; simpl; [by exists []; rewrite app_nil_r| |by exists []; rewrite app_nil_r..].
  destruct IH as (l' & E & Hl'). exists (l' ++ [e]). split; [by rewrite app_assoc, <- E|].
  apply Forall_app. by split; [|apply Forall_singleton].
Qed.

Lemma squash_refines s l k n :
  represents s l k →
  (stalled s = true → ∀ e, e ∈ l → n < seq_of e → canWB e = false → seq_of e ≠ stallingStoreIsn s) →
  ∃ s', squash_stores (Z.to_nat (SQEntries s)) n (decrStIdx s (storeTail s)) s = Ok s' ∧
    represents s' (squashed n l) k.
Proof using Type.
  intros [Hq Hk [Hlen Hpre] Hw Hc] Hst.
  destruct (squash_stores_ok n l (Z.to_nat (SQEntries s)) s Hq Hk) as (s' & E & Hq' & E1 & E2 & E3 & E4 & E5).
  { destruct Hq; lia. } { done. }
  exists s'. split; [exact E|]. destruct (squashed_prefix n l) as (l' & El & Hl').
  clear E. remember (squashed n l) as l0 eqn:E0. clear E0. subst l. split.
  - done.
  - apply Forall_app in Hk as [Hk _]. eapply Forall_impl; [exact Hk|]. intros e. by apply known_mono.
  - split.
    + destruct (decide (k ≤ length l0)%nat) as [|Hgt]; [done|]. exfalso.
      rewrite length_app in Hlen.
      destruct l' as [|e l']; [simpl in Hlen; lia|]. apply Forall_cons in Hl' as [[He _] _].
      destruct (Hpre (length l0) e) as [H1 _]; [by apply list_lookup_middle|].
      rewrite H1 in He by lia. done.
    + intros j e Hj. apply Hpre. by apply lookup_app_l_Some.
  - by rewrite E1, E2, E3.
  - rewrite E4, Hc, filter_app, length_app. replace (filter waiting l') with (@nil SQEntry); [simpl; lia|].
    clear -Hl'. induction Hl' as [|e l' [He _] _ IH]; [done|]. rewrite filter_cons_False; [done|]. intros [? _]; congruence.
Qed.

(** *** Write-back *)

(** A stalled load, if there is one, is in the load queue. *)
Definition stall_known (s : LSQ) : Prop :=
  stalled s = true → ∃ q, load_at s (stallingLoadIdx s) = Ok (Some q).

Lemma unstall_ok isn s :
  stall_known s → ∃ b n c, unstall isn s = Ok (set_iew c (set_stalled b (set_stallingStoreIsn n s))).
Proof using Type.
  intros Hs. unfold unstall. destruct (stalled s) eqn:Es; simpl.
  - destruct (isn =? _).
    + destruct (Hs Es) as [q Hq]. rewrite Hq. simpl. eexists false, 0, _. reflexivity.
    + exists true, (stallingStoreIsn s), (iew s). simpl. f_equal. rewrite <- Es. by destruct s.
  - exists false, (stallingStoreIsn s), (iew s). simpl. f_equal. rewrite <- Es. by destruct s.
Qed.

Lemma storePostSend_refines s l k e :
  represents s l k → l !! k = Some e → canWB e = true → stall_known s →
  ∃ s', storePostSend s = Ok s' ∧ represents s' l (S k).
Proof using Type.
  intros [Hq Hk [Hlen Hpre] Hw Hc] He Hcw Hst. pose proof (lookup_lt_Some _ _ _ He). unfold storePostSend.
  rewrite Hw, (queue_at s l k e Hq He). cbn [mbind res_mbind].
  destruct (known_inst s e (Forall_lookup_1 _ _ _ _ Hk He)) as (i & d & Hi & Hd & _ & Hsq). rewrite Hi.
  cbn [mbind res_mbind]. rewrite Hd. cbn [mbind res_mbind].
  destruct (unstall_ok (seqNum d) s Hst) as (b & n & c & ->). cbn [mbind res_mbind]. eexists. split; [reflexivity|].
  set (s1 := set_iew _ _). set (s2 := if isStoreConditional d then s1 else _).
  set (s3 := if needsTSO s2 then set_storeInFlight true s2 else s2).
  assert (storeQueue s3 = storeQueue s ∧ SQEntries s3 = SQEntries s ∧ storeHead s3 = storeHead s ∧ storeTail s3 = storeTail s ∧
    stores s3 = stores s ∧ storeWBIdx s3 = storeWBIdx s ∧ storesToWB s3 = storesToWB s) as (F1 & F2 & F3 & F4 & F5 & F6 & F7).
  { subst s3. destruct (needsTSO s2); subst s2; by destruct (isStoreConditional d). }
  assert (∀ j d0, insts s !! j = Some d0 → ∃ d', insts s3 !! j = Some d' ∧ seqNum d' = seqNum d0) as Hm.
  { assert (insts s3 = insts s2) as -> by (by subst s3; destruct (needsTSO s2)). subst s2.
    destruct (isStoreConditional d); [by eauto|]. by apply (on_inst_mono (set_isCompleted true) i s1). }
  split.
  - by eapply queue_view.
  - eapply Forall_impl; [exact Hk|]. intros e'. by apply known_mono.
  - split; [done|]. intros j e' Hj. destruct (Hpre j e' Hj) as [H1 H2]. split; [|intros; apply H2; lia].
    intros Hjk. destruct (decide (j = k)) as [->|]; [congruence|apply H1; lia].
  - simpl. unfold incrStIdx. rewrite F6, F2, F3, Hw, ring_incr by (destruct Hq; lia). f_equal. lia.
  - simpl. by rewrite F7.
Qed.

(** *** Completion *)

Definition popped (m : nat) (l : list SQEntry) (s : LSQ) : LSQ :=
  set_stores (Z.of_nat (length l)) (set_storeHead ((storeHead s + Z.of_nat m) mod SQEntries s) s).

Lemma queue_pop s e l : queue s (e :: l) → queue (popped 1 l s) l.
Proof using Type.
  intros [Hs Hh Hn Ht Hl]. simpl in Hn. split; simpl; [done|apply Z.mod_pos_bound; lia|lia| |].
  - rewrite Ht, Zplus_mod_idemp_l. f_equal. lia.
  - change l with (tail (e :: l)) at 2. rewrite <- Hl. rewrite <- slots_tail by lia. f_equal. lia.
Qed.

Lemma popped_popped a b l l' s : popped a l' (popped b l s) = popped (b + a) l' s.
Proof using Type.
  unfold popped. simpl. rewrite Zplus_mod_idemp_l. unfold set_stores, set_storeHead. simpl. do 2 f_equal. lia.
Qed.

(** The head moves over completed stores; only the head and the count change. *)
Lemma pop_completed_ok : ∀ l fuel s e,
  queue s (e :: l) → (length l < fuel)%nat →
  let l' := drop_completed l in
  pop_completed fuel s = Ok (popped (S (length l) - length l') l' s) ∧ queue (popped (S (length l) - length l') l' s) l'.
Proof using Type.
  induction l as [|e1 l IH]; intros fuel s e Hq Hf; (destruct fuel as [|fuel]; [simpl in Hf; lia|]);
    pose proof Hq as [Hs Hh Hn Ht Hl]; simpl in Hn; pose proof (queue_pop _ _ _ Hq) as Hq1; simpl;
    unfold incrStIdx; rewrite incrIdx_mod by lia.
  - replace (stores s - 1) with 0 by lia. change (set_stores 0 _) with (popped 1 [] s).
    pose proof Hq1 as [Hs1 Hh1 _ _ _]. simpl in Hs1, Hh1.
    assert ((storeHead s + 1) mod SQEntries s =? storeTail s = true) as Et by (apply Z.eqb_eq; rewrite Ht; f_equal; lia).
    unfold store_at. rewrite (slot_at _ (SQEntries s)) by (simpl; lia). cbn [mbind res_mbind].
    by rewrite Et, andb_false_r.
  - replace (stores s - 1) with (Z.of_nat (length (e1 :: l))) by (simpl; lia). change (set_stores (Z.of_nat (length (e1 :: l))) _) with (popped 1 (e1 :: l) s).
    pose proof (queue_at _ _ 0 e1 Hq1 eq_refl) as Hat. 
    pose proof (queue_at_tail _ _ 0 Hq1) as Htl.
    pose proof Hq1 as [Hs1 Hh1 _ _ _]. rewrite Z.add_0_r, Z.mod_small in Hat, Htl by done.
    change (store_at (popped 1 (e1 :: l) s) ((storeHead s + 1) mod SQEntries s)) with (store_at (popped 1 (e1 :: l) s) (storeHead (popped 1 (e1 :: l) s))).
    rewrite Hat. cbn [mbind res_mbind].
    change ((storeHead s + 1) mod SQEntries s =? storeTail s) with (storeHead (popped 1 (e1 :: l) s) =? storeTail (popped 1 (e1 :: l) s)).
    rewrite Htl, bool_decide_false by (simpl; lia). rewrite andb_true_r. destruct (completed e1).
    2:{ replace (S (S (length l)) - length (e1 :: l))%nat with 1%nat by (simpl; lia). by split. }
    destruct (IH fuel _ e1 Hq1) as [E Hq2]; [simpl in Hf; lia|].
    rewrite popped_popped in E, Hq2. assert (length (drop_completed l) ≤ length l)%nat as Hle.
    { clear. induction l as [|e l IH]; simpl; [done|]. destruct (completed e); simpl; lia. }
    replace (S (S (length l)) - length (drop_completed l))%nat with (1 + (S (length l) - length (drop_completed l)))%nat by lia.
    by split.
Qed.

Lemma complete_split e la lb :
  ∃ p, la ++ set_completed true e :: lb = p ++ complete (length la) (la ++ e :: lb) ∧
    Forall (λ e, completed e = true) p ∧ (la = [] → complete 0 (e :: lb) = drop_completed lb).
Proof using Type.
  assert (alter (set_completed true) (length la) (la ++ e :: lb) = la ++ set_completed true e :: lb) as Ha.
  { induction la as [|x la IH]; [done|]. simpl. by f_equal. }
  unfold complete. rewrite Ha. destruct la as [|x la]; [|by exists []]. simpl.
  assert (∃ p, lb = p ++ drop_completed lb ∧ Forall (λ e, completed e = true) p) as (p & Ep & Hp).
  { clear. induction lb as [|x lb (p & Ep & Hp)]; [by exists []|]. simpl. destruct (completed x) eqn:Ex; [|by exists []].
    exists (x :: p). split; [simpl; by f_equal|by constructor]. }
  exists (set_completed true e :: p). simpl. split; [by f_equal|]. split; [by constructor|done].
Qed.

Lemma sent_prefix_drop k p l :
  sent_prefix k (p ++ l) → Forall (λ e, completed e = true) p →
  (length p ≤ k)%nat ∧ sent_prefix (k - length p) l.
Proof using Type.
  intros [Hlen Hpre] Hp. assert (length p ≤ k)%nat as Hle.
  { destruct (decide (length p ≤ k)%nat) as [|Hgt]; [done|]. exfalso. destruct (lookup_lt_is_Some_2 p k) as [e He]; [lia|].
    destruct (Hpre k e) as [_ H2]; [by apply lookup_app_l_Some|]. pose proof (Forall_lookup_1 _ _ _ _ Hp He) as Hc.
    simpl in Hc. rewrite H2 in Hc; done. }
  split; [done|]. rewrite length_app in Hlen. split; [lia|]. intros j e Hj.
  destruct (Hpre (length p + j)%nat e) as [H1 H2]; [by rewrite lookup_app_r, Nat.add_comm, Nat.add_sub by lia|].
  split; intros; [apply H1|apply H2]; lia.
Qed.

(** What completing the store after [la] does to the parts of [represents] on the list. *)
Lemma complete_list s k la e lb :
  Forall (known s) (la ++ e :: lb) → sent_prefix k (la ++ e :: lb) → waiting e → (length la < k)%nat →
  let l := la ++ e :: lb in let l' := complete (length la) l in
  Forall (known s) l' ∧ (length l - length l' ≤ k)%nat ∧ sent_prefix (k - (length l - length l')) l' ∧
  length (filter waiting l) = S (length (filter waiting l')).
Proof using Type.
  intros Hk [Hlen Hpre] Hw Hj l l'. destruct (complete_split e la lb) as (p & Ep & Hp & _). fold l l' in Ep.
  assert (length l = length p + length l')%nat as Hlp.
  { rewrite <- length_app, <- Ep. unfold l. rewrite !length_app. simpl. lia. }
  assert (Forall (known s) (p ++ l')) as Hk'.
  { rewrite <- Ep. apply Forall_app in Hk as [H1 [H2 H3]%Forall_cons]. apply Forall_app. split; [done|].
    constructor; [|done]. exact H2. }
  assert (sent_prefix k (p ++ l')) as Hs'.
  { rewrite <- Ep. split; [rewrite length_app in *; simpl in *; lia|]. intros j x Hx.
    destruct (decide (j = length la)) as [->|Hne].
    - rewrite list_lookup_middle in Hx by done. injection Hx as <-. split; [intros; apply Hw|lia].
    - apply (Hpre j x). rewrite <- Hx. destruct (decide (j < length la)%nat).
      + by rewrite !lookup_app_l by done.
      + rewrite !lookup_app_r by lia. destruct (j - length la)%nat eqn:E; [lia|done]. }
  destruct (sent_prefix_drop k p l' Hs' Hp) as [Hpk Hsl].
  replace (length l - length l')%nat with (length p) by lia.
  split; [by apply Forall_app in Hk' as [_ ?]|]. split; [done|]. split; [done|].
  assert (length (filter waiting (p ++ l')) = length (filter waiting l')) as <-.
  { rewrite filter_app. clear -Hp. induction Hp as [|x p Hx _ IH]; [done|]. rewrite filter_cons_False; [done|]. intros [_ ?]; congruence. }
  rewrite <- Ep. unfold l. rewrite !filter_app, !length_app, (filter_cons_True _ e) by done.
  rewrite filter_cons_False by (by intros [_ ?]). simpl. lia.
Qed.

(** The step of the head after the store is marked. *)
Lemma pop_step s e la lb :
  queue s (la ++ set_completed true e :: lb) →
  let l := la ++ e :: lb in let l' := complete (length la) l in
  let s' := popped (length l - length l') l' s in
  (if (storeHead s + Z.of_nat (length la)) mod SQEntries s =? storeHead s
   then pop_completed (Z.to_nat (SQEntries s)) s else mret s) = Ok s' ∧ queue s' l'.
Proof using Type.
  intros Hq. pose proof Hq as [Hs Hh Hn Ht Hl]. rewrite length_app in Hn. simpl in Hn.
  destruct (complete_split e la lb) as (p & Ep & _ & Hnil). destruct la as [|x la].
  - cbn [length app]. rewrite (Hnil eq_refl). rewrite Z.add_0_r, Z.mod_small, Z.eqb_refl by done.
    apply (pop_completed_ok lb _ s _ Hq). simpl in *. lia.
  - assert (complete (length (x :: la)) ((x :: la) ++ e :: lb) = (x :: la) ++ set_completed true e :: lb) as E.
    { unfold complete. simpl. f_equal. clear. induction la as [|y la IH]; [done|]. simpl. by f_equal. }
    cbn zeta. rewrite E. replace (_ =? storeHead s) with false.
    2:{ symmetry. apply Z.eqb_neq. intros E'. rewrite <- (Z.add_0_r (storeHead s)) in E' at 2.
        rewrite <- (Z.mod_small (storeHead s + 0) (SQEntries s)) in E' by lia. apply ring_inj in E'; simpl in *; lia. }
    replace (popped _ _ s) with s; [done|].
    replace (length ((x :: la) ++ e :: lb) - length ((x :: la) ++ set_completed true e :: lb))%nat with 0%nat
      by (rewrite !length_app; simpl; lia).
    unfold popped. rewrite Z.add_0_r, Z.mod_small, length_app by done. destruct s. unfold set_stores, set_storeHead. simpl in *. f_equal. lia.
Qed.

Lemma represents_view s' s l k :
  SQEntries s' = SQEntries s → storeQueue s' = storeQueue s → storeHead s' = storeHead s →
  storeTail s' = storeTail s → stores s' = stores s → storeWBIdx s' = storeWBIdx s →
  storesToWB s' = storesToWB s → insts s' = insts s → represents s l k → represents s' l k.
Proof using Type.
  intros E1 E2 E3 E4 E5 E6 E7 E8 [Hq Hk Hs Hw Hc]. split; [by eapply queue_view| |done|by rewrite E6, E3, E1|by rewrite E7].
  eapply Forall_impl; [exact Hk|]. intros e. apply known_mono. rewrite E8. by eauto.
Qed.

Lemma completeStore_refines s k la e lb :
  represents s (la ++ e :: lb) k → completed e = false → (length la < k)%nat → stall_known s →
  let l := la ++ e :: lb in let l' := complete (length la) l in
  ∃ s', completeStore ((storeHead s + Z.of_nat (length la)) mod SQEntries s) s = Ok s' ∧
    represents s' l' (k - (length l - length l')).
Proof using Type.
  intros [Hq Hk Hs Hw Hc] Hcomp Hj Hst l l'. fold l in Hq.
  assert (l !! length la = Some e) as He by by apply list_lookup_middle.
  assert (waiting e) as Hwe. { split; [|done]. destruct Hs as [_ Hs]. by apply (Hs (length la)). }
  destruct (complete_list s k la e lb Hk Hs Hwe Hj) as (Hk' & Hle & Hs' & Hcnt).
  fold l in Hk', Hle, Hs', Hcnt. fold l' in Hk', Hle, Hs', Hcnt.
  destruct (known_inst s e (Forall_lookup_1 _ _ _ _ Hk He)) as (i & d & Hi & Hd & Hid & Hsq).
  unfold completeStore. rewrite (queue_at s l _ e Hq He). cbn [mbind res_mbind]. rewrite Hi. cbn [mbind res_mbind].
  set (idx := (_ + _) mod _). set (s1 := set_storesToWB _ _).
  assert (queue s1 (la ++ set_completed true e :: lb)) as Hq1.
  { pose proof (queue_put s l (length la) (set_completed true e) Hq (lookup_lt_Some _ _ _ He)) as Hp. unfold l in Hp.
    rewrite insert_app_r_alt, Nat.sub_diag in Hp by lia. by eapply queue_view. }
  destruct (pop_step s1 e la lb Hq1) as [Em Hqm]. fold l in Em, Hqm. fold l' in Em, Hqm.
  change (storeHead s1) with (storeHead s) in Em |- *. change (SQEntries s1) with (SQEntries s) in Em |- *.
  fold idx in Em. rewrite Em. cbn [mbind res_mbind]. set (s2 := popped _ l' s1) in *.
  change (get_inst s2 i) with (get_inst s i). rewrite Hd. cbn [mbind res_mbind].
  destruct (unstall_ok (seqNum d) s2) as (b & n & c & ->); [exact Hst|]. cbn [mbind res_mbind].
  eexists. split; [reflexivity|]. set (s3 := on_inst i _ _).
  apply (represents_view (if needsTSO s3 then set_storeInFlight false s3 else s3) s3); [by destruct (needsTSO s3)..|].
  split.
  - by eapply queue_view.
  - eapply Forall_impl; [exact Hk'|]. intros e'. apply known_mono. by apply (on_inst_mono (set_isCompleted true) i s).
  - done.
  - simpl. rewrite Hw, Zplus_mod_idemp_l. f_equal. lia.
  - simpl. rewrite Hc. unfold l in Hcnt. lia.
Qed.

End store_queue.

(** C33: The circular store queue implements a list of stores, oldest first, of which a prefix
    of [k] has been sent to memory.  Insertion appends, and fails its assertion exactly when
    the queue is full; commit marks stores up to a sequence number; squash removes from the
    young end the uncommitted stores after one; sending lengthens the sent prefix; completion
    of a sent store marks it and, at the head, removes the completed stores.  None of the
    operations fails, [storesToWB] counts the committed stores not yet completed, and no
    committed store is ever lost to a squash. *)
Theorem store_queue_refines (seq : Z → Z) (s : LSQ) (l : list SQEntry) (k : nat) :
  represents seq s l k →
  (∀ i d, insts s !! i = Some d → seqNum d = seq i →
     if bool_decide (Z.of_nat (length l) = SQEntries s - 1) then insertStore i s = Err Assert
     else ∃ s', insertStore i s = Ok s' ∧ represents seq s' (l ++ [SQEntry_new i]) k) ∧
  (∀ y, ∃ s', commitStores y s = Ok s' ∧ represents seq s' (mark seq y l) k) ∧
  (∀ n, (stalled s = true → ∀ e, e ∈ l → n < seq_of seq e → canWB e = false → seq_of seq e ≠ stallingStoreIsn s) →
     ∃ s', squash_stores (Z.to_nat (SQEntries s)) n (decrStIdx s (storeTail s)) s = Ok s' ∧
       represents seq s' (squashed seq n l) k ∧
       ∃ l', l = squashed seq n l ++ l' ∧ Forall (λ e, canWB e = false ∧ n < seq_of seq e) l') ∧
  (stall_known s →
     (∀ e, l !! k = Some e → canWB e = true → ∃ s', storePostSend s = Ok s' ∧ represents seq s' l (S k)) ∧
     (∀ la e lb, l = la ++ e :: lb → completed e = false → (length la < k)%nat →
        ∃ s', completeStore ((storeHead s + Z.of_nat (length la)) mod SQEntries s) s = Ok s' ∧
          represents seq s' (complete (length la) l) (k - (length l - length (complete (length la) l))))).
Proof.
  intros Hr. assert (sqFull s = bool_decide (Z.of_nat (length l) = SQEntries s - 1)) as Hf.
  { destruct Hr as [[_ _ Hn _ _] _ _ _ _]. unfold sqFull. case_bool_decide; [apply Z.leb_le|apply Z.leb_gt]; lia. }
  repeat split.
  - intros i d Hi Hs. rewrite <- Hf. destruct (sqFull s) eqn:E; [by eapply insertStore_full|by eapply insertStore_refines].
  - intros y. by apply commitStores_refines.
  - intros n Hn. destruct (squash_refines seq s l k n Hr Hn) as (s' & E & Hr'). exists s'.
    split; [done|]. split; [done|]. apply squashed_prefix.
  - intros e He Hc. by eapply storePostSend_refines.
  - intros la e lb -> Hc Hk. by apply completeStore_refines.
Qed.

(** A queue of two stores that wraps around, and a load of the older one's bytes. *)
Definition inst_ex (n : Z) (load : bool) (addr len idx : Z) : DynInst :=
  mkInst n load addr len true false false false false false false false false false addr addr 0 idx None.
Definition req_ex (addr n : Z) : Request := setPaddr (Request_virt 0 0 addr n 0 0 0 0 0) (addr + 4096).
Definition store_ex (i addr : Z) (wb : bool) (bs : list Z) : SQEntry :=
  mkEntry (bs ++ replicate 24 0) (Some i) (Some (req_ex addr 8)) None None 8 false wb false false false.
Definition older_ex : SQEntry := store_ex 1 64 true (seqZ 1 8).
Definition newer_ex : SQEntry := store_ex 2 128 false (replicate 8 9).
Definition lsq_ex : LSQ :=
  mkLSQ 4 3 4 false (not64 63) {[ 1 := inst_ex 10 false 64 8 2; 2 := inst_ex 11 false 128 8 0; 3 := inst_ex 12 true 66 4 1 ]}
    [Some 3; None; None; None] [newer_ex; SQEntry_default; older_ex] 1 2 1 0 1 2 2 1 0 false 0 0 None false [].

Lemma store_queue_refines_witness :
  ∃ s', completeStore 2 (set_storeWBIdx 0 lsq_ex) = Ok s' ∧ represents (Z.add 9) s' [newer_ex] 0.
Proof.
  assert (represents (Z.add 9) (set_storeWBIdx 0 lsq_ex) [older_ex; newer_ex] 1) as Hr.
  { split; [by split; vm_compute| | |by vm_compute|by vm_compute].
    - repeat constructor; unfold known; simpl; eexists _, _; (split; [reflexivity|]); by split; vm_compute.
    - split; [simpl; lia|]. intros [|[|j]] e He; simplify_eq/=; split; (done || lia). }
  destruct (store_queue_refines _ _ _ _ Hr) as (_ & _ & _ & Hsend).
  destruct Hsend as [_ Hc]; [by intros E; vm_compute in E|].
  exact (Hc [] older_ex [newer_ex] eq_refl eq_refl ltac:(simpl; lia)).
Defined.

(** Memory after both stores. *)
Definition mem_ex (two : bool) (p : Z) : Z :=
  if (4160 <=? p) && (p <? 4168) then p - 4159 else if two && (4224 <=? p) && (p <? 4232) then 9 else 0.


(** The loads from [idx] to the tail, all at virtual addresses from 32 on. *)
Definition later_loads (s : LSQ) (idx : Z) (m : nat) : Prop :=
  0 ≤ depCheckShift s ≤ 5 ∧ 0 < LQEntries s ∧ Z.of_nat m < LQEntries s ∧
  loadTail s = (idx + Z.of_nat m) mod LQEntries s ∧
  ∀ j, (j < m)%nat → ∃ i ld, load_at s ((idx + Z.of_nat j) mod LQEntries s) = Ok (Some i) ∧
    get_inst s i = Ok ld ∧ 32 ≤ effAddr ld < 2 ^ 64.

Lemma checkViolations_skips d s idx m : ∀ fuel j,
  effAddr d = 0 → effSize d = 32 → later_loads s idx m → (j ≤ m)%nat → (m - j ≤ fuel)%nat →
  checkViolations fuel ((idx + Z.of_nat j) mod LQEntries s) d s = Ok (s, false).
Proof.
  intros fuel j Ha Hn (Hsh & HN & Hm & Ht & Hl). revert j. induction fuel as [|fuel IH]; intros j Hj Hf; simpl; rewrite Ht.
  - replace j with m by lia. by rewrite Z.eqb_refl.
  - destruct (Z.eqb_spec ((idx + Z.of_nat j) mod LQEntries s) ((idx + Z.of_nat m) mod LQEntries s)) as [|Hne]; [done|].
    destruct (decide (j = m)) as [->|]; [done|]. destruct (Hl j) as (i & ld & Hi & Hld & Haddr); [lia|].
    rewrite Hi. cbn [mbind res_mbind]. rewrite Hld. cbn [mbind res_mbind].
    assert (checkViolations fuel (incrLdIdx s ((idx + Z.of_nat j) mod LQEntries s)) d s = Ok (s, false)) as E.
    { unfold incrLdIdx. rewrite ring_incr by done. replace (Z.of_nat j + 1) with (Z.of_nat (S j)) by lia. apply IH; lia. }
    rewrite E. destruct (_ || _); [done|]. replace (first_block s ld <=? last_block s d) with false; [done|].
    symmetry. apply Z.leb_gt. unfold first_block, last_block. rewrite Ha, Hn, !Z.shiftr_div_pow2 by lia.
    change (sub64 (add64 0 32) 1) with 31. destruct Hsh as [H1 H2].
    assert (∃ a, 0 < 2 ^ depCheckShift s ∧ 32 = a * 2 ^ depCheckShift s) as (a & Hp & Hq).
    { exists (2 ^ (5 - depCheckShift s)). split; [apply Z.pow_pos_nonneg; lia|]. rewrite <- Z.pow_add_r by lia.
      by replace (5 - depCheckShift s + depCheckShift s) with 5 by lia. }
    apply Z.lt_le_trans with a; [apply Z.div_lt_upper_bound; lia|apply Z.div_le_lower_bound; lia].
Qed.

(** A row operation is executed like a store of 32 bytes at address zero, so the check for
    loads that executed too early never finds one, wherever its physical address lies: a
    load of the row the operation writes keeps its stale value. *)
Theorem rowop_violation_missed (d : DynInst) (s : LSQ) (idx : Z) (m : nat) :
  effAddr d = 0 → effSize d = 32 → 0 ≤ idx < LQEntries s → later_loads s idx m →
  checkViolations (Z.to_nat (LQEntries s)) idx d s = Ok (s, false).
Proof.
  intros Ha Hn Hi Hl. rewrite <- (Z.mod_small idx (LQEntries s)) at 1 by lia. rewrite <- (Z.add_0_r idx).
  change 0 with (Z.of_nat 0) at 1. apply (checkViolations_skips d s idx m); try done; [lia|].
  destruct Hl as (_ & _ & Hm & _). lia.
Qed.
