(* ===== verification/RowMem.v ===== *)
(** * Rows of memory as bits, and programs of row operations

    The workloads call the row operations on buffers of many rows.  A bulk operation acts
    on each bit position on its own, so a program of element-wise row operations computes at
    every bit position of the buffers the same boolean function. *)

From stdpp Require Import base gmap list list_numbers.
From S2P Require Import Prelude AbstractMem Packets.
Import Request HostMem RowOps.
Local Open Scope Z_scope.

(** Bit [x] of the memory from [a] on. *)
Definition bit (m : hostmem) (a x : Z) : bool := Z.testbit (byte_at m (a + x / 8)) (x mod 8).

(** The bits of a row. *)
Definition row_bits : Z := ROW_SIZE * 8.

Lemma bit_add m a k x : bit m (a + k) x = bit m a (8 * k + x).
Proof.
  unfold bit. rewrite (Z.mul_comm 8), Z.div_add_l, (Z.add_comm (k * 8)), Z.mod_add by lia. do 2 f_equal. lia.
Qed.

Lemma bit_ext m m' a x : m' !! (a + x / 8) = m !! (a + x / 8) → bit m' a x = bit m a x.
Proof. intros E. unfold bit, byte_at. by rewrite E. Qed.

Lemma bytes_testbit m a n b :
  bytes_ok m → 0 ≤ b < 8 * Z.of_nat n → Z.testbit (little_endian_to_Z 8 (bytes_at m a n)) b = bit m a b.
Proof.
  intros Hm Hb. apply little_endian_to_Z_spec; [lia|lia|by apply bytes_at_range|].
  assert (0 ≤ b / 8 < Z.of_nat n) by (split; [apply Z.div_pos; lia|apply Z.div_lt_upper_bound; lia]).
  unfold bytes_at. rewrite list_lookup_fmap, lookup_seq_lt by lia. simpl. do 2 f_equal. lia.
Qed.

Lemma word_testbit m a b : bytes_ok m → 0 ≤ b < 64 → Z.testbit (word m a) b = bit m a b.
Proof. intros Hm Hb. by apply bytes_testbit. Qed.

(** The boolean function of an element-wise operation. *)
Definition rowop_bit (o : RowOp) : option (bool → bool → bool) :=
  match o with
  | ROWAND => Some andb | ROWOR => Some orb | ROWXOR => Some xorb
  | ROWNOT => Some (λ x _, negb x) | ROWAAP => Some (λ x _, x)
  | ROWAP | ROWLS | ROWRS => None
  end.

Lemma rowop_word_bit o g :
  rowop_bit o = Some g → ∃ f, rowop_word o = Some f ∧
    ∀ x y b, 0 ≤ b < 64 → Z.testbit (f x y) b = g (Z.testbit x b) (Z.testbit y b).
Proof.
  intros Hg. destruct o; simpl in Hg |- *; simplify_eq; eexists; (split; [reflexivity|]); intros x y b Hb; simpl;
    rewrite ?Z.land_spec, ?Z.lor_spec, ?Z.lxor_spec; try done.
  unfold not64. rewrite wrap_testbit by lia. by rewrite (proj2 (Z.ltb_lt b 64)), Z.lnot_spec by lia.
Qed.

Lemma bit_word m a x : bytes_ok m → 0 ≤ x → Z.testbit (word m (a + 8 * (x / 64))) (x mod 64) = bit m a x.
Proof.
  intros Hm Hx. pose proof (Z.mod_pos_bound x 64). rewrite word_testbit by (done || lia). rewrite bit_add. f_equal.
  rewrite Z.mul_assoc. change (8 * 8) with 64. symmetry. apply Z.div_mod. lia.
Qed.

(** An element-wise row operation, bit by bit. *)
Lemma do_rowop_bits o g m d s1 s2 :
  rowop_bit o = Some g → bytes_ok m →
  mapped m d ROW_SIZE → mapped m s1 ROW_SIZE → fwd_safe d s1 row_words →
  (rowop_binary o = true → mapped m s2 ROW_SIZE ∧ fwd_safe d s2 row_words) →
  ∃ m', do_rowop o m d s1 s2 = Ok m' ∧ row_frame m m' d 1024 ∧
    ∀ x, 0 ≤ x < row_bits → bit m' d x = g (bit m s1 x) (bit m s2 x).
Proof.
  intros Hg Hb Md M1 S1 H2. destruct (rowop_word_bit o g Hg) as (f & Hf & Hbit).
  destruct (do_rowop_word o f m d s1 s2 Hf Hb Md M1 S1 H2) as (m' & E & [Hfr Hw]).
  exists m'. split; [done|]. split; [done|]. intros x Hx.
  assert (0 ≤ x / 64 < 1024) by (split; [apply Z.div_pos; lia|apply Z.div_lt_upper_bound; [lia|exact (proj2 Hx)]]).
  pose proof (Z.mod_pos_bound x 64). rewrite <- bit_word by (try apply (rf_bytes _ _ _ _ Hfr); done || lia).
  rewrite Hw, Hbit by lia. by rewrite !bit_word by (done || lia).
Qed.

Lemma row_value_testbit m a n x :
  bytes_ok m → 0 ≤ x < 64 * Z.of_nat n → Z.testbit (row_value m a n) x = bit m a x.
Proof.
  intros Hm. revert a x. induction n as [|n IH]; intros a x Hx; [lia|]. cbn [row_value].
  pose proof (word_range m a Hm) as Hr.
  assert (word m a + 2 ^ 64 * row_value m (a + 8) n = Z.lor (word m a) (Z.shiftl (row_value m (a + 8) n) 64)) as ->.
  { rewrite lor_disjoint; [rewrite Z.shiftl_mul_pow2; lia|]. apply Z.bits_inj'. intros i Hi.
    rewrite Z.land_spec, Z.bits_0, Z.shiftl_spec by lia. destruct (decide (i < 64)).
    - by rewrite (Z.testbit_neg_r _ (i - 64)), andb_false_r by lia.
    - by rewrite (testbit_high 64) by lia. }
  rewrite Z.lor_spec, Z.shiftl_spec by lia. destruct (decide (x < 64)).
  - rewrite (Z.testbit_neg_r _ (x - 64)), orb_false_r by lia. apply word_testbit; [done|lia].
  - rewrite (testbit_high 64), IH by lia. simpl. rewrite bit_add. f_equal. lia.
Qed.

(** A left shift between disjoint rows, bit by bit. *)
Lemma do_rowls_bits m d s :
  bytes_ok m → mapped m d ROW_SIZE → mapped m s ROW_SIZE → d + ROW_SIZE ≤ s ∨ s + ROW_SIZE ≤ d →
  ∃ m', do_rowop ROWLS m d s s = Ok m' ∧ row_frame m m' d 1024 ∧
    ∀ x, 0 ≤ x < row_bits → bit m' d x = (0 <? x) && bit m s (x - 1).
Proof.
  intros Hb Md Ms Hd. pose proof (eq_refl : Z.of_nat row_words = 1024) as Hrw. change ROW_SIZE with (8 * Z.of_nat row_words) in *.
  destruct (row_ls_ok row_words m d s 0) as (m' & E & Hf & Hv); [lia|done|by left|done|done|].
  exists m'. split; [done|]. split; [done|]. intros x Hx. change row_bits with (64 * Z.of_nat row_words) in Hx.
  rewrite <- (row_value_testbit m' d row_words) by (by try apply (rf_bytes _ _ _ _ Hf)). rewrite Hv, Z.add_0_r.
  rewrite Z.mod_pow2_bits_low by lia. destruct (Z.ltb_spec 0 x).
  - rewrite <- (row_value_testbit m s row_words) by (done || lia). rewrite Z.double_bits by lia. done.
  - replace x with 0 by lia. by rewrite Z.testbit_even_0.
Qed.

(** ** 32-bit words *)

(** [unsigned] accesses of a program. *)
Definition load32 (m : hostmem) (a : Z) : res Z := bs ← load_bytes 4 m a; mret (little_endian_to_Z 8 bs).
Definition store32 (m : hostmem) (a v : Z) : res hostmem := store_bytes m a (Z_to_little_endian 4 8 v).

Lemma load32_ok m a :
  bytes_ok m → mapped m a 4 →
  ∃ v, load32 m a = Ok v ∧ 0 ≤ v < 2 ^ 32 ∧ ∀ b, 0 ≤ b < 32 → Z.testbit v b = bit m a b.
Proof.
  intros Hm Ha. unfold load32. rewrite (load_bytes_ok m a 4) by done. cbn [mbind res_mbind].
  eexists. split; [reflexivity|]. split.
  - pose proof (little_endian_to_Z_bound 8 (bytes_at m a 4)) as H. rewrite length_bytes_at in H. apply H; [lia|].
    by apply bytes_at_range.
  - intros b Hb. by apply bytes_testbit.
Qed.

Lemma u32_add a b : u32 (u32 a + b) = u32 (a + b).
Proof. unfold u32, wrap. apply Zplus_mod_idemp_l. Qed.

(** ** Buffers and calls *)

Section buffers.
(** The buffers, those in use, where each starts and how many rows each has. *)
Context {B : Type} `{!EqDecision B} (live : B → Prop) (base : B → Z) (rows : Z).

(** A call of a row operation on row [i] of buffers; an operation with one source
    ignores the second. *)
Record call := Call { c_op : RowOp; c_dst : B; c_src1 : B; c_src2 : B }.

Definition row_addr (b : B) (i : Z) : Z := base b + i * ROW_SIZE.
Definition run_call (i : Z) (m : hostmem) (c : call) : res hostmem :=
  do_rowop (c_op c) m (row_addr (c_dst c) i) (row_addr (c_src1 c) i) (row_addr (c_src2 c) i).
Definition run_row (cs : list call) (m : hostmem) (i : Z) : res hostmem := foldM (run_call i) m cs.
Definition for_all_rows (cs : list call) (m : hostmem) : res hostmem := foldM (run_row cs) m (seqZ 0 rows).

(** The buffers exist and do not overlap. *)
Record layout (m : hostmem) : Prop := {
  lay_bytes : bytes_ok m;
  lay_mapped b : live b → mapped m (base b) (rows * ROW_SIZE);
  lay_apart b b' : live b → live b' → b ≠ b' →
    base b + rows * ROW_SIZE ≤ base b' ∨ base b' + rows * ROW_SIZE ≤ base b;
}.

(** Their bits. *)
Definition holds (m : hostmem) (f : B → Z → bool) : Prop :=
  ∀ b x, live b → 0 ≤ x < rows * row_bits → bit m (base b) x = f b x.

(** What calls do to the bits at one position. *)
Definition op_bit (o : RowOp) : bool → bool → bool := default (λ x _, x) (rowop_bit o).
Definition eval_call (st : B → bool) (c : call) : B → bool :=
  λ b, if decide (b = c_dst c) then op_bit (c_op c) (st (c_src1 c)) (st (c_src2 c)) else st b.
Definition eval_calls (cs : list call) (st : B → bool) : B → bool := foldl eval_call st cs.

Definition call_ok (c : call) : Prop :=
  is_Some (rowop_bit (c_op c)) ∧ live (c_dst c) ∧ live (c_src1 c) ∧ live (c_src2 c).

Lemma holds_ext m f f' :
  holds m f → (∀ b x, live b → 0 ≤ x < rows * row_bits → f b x = f' b x) → holds m f'.
Proof using Type. intros H E b x Hb Hx. rewrite <- E by done. by apply H. Qed.

Lemma row_mapped m b i : layout m → live b → 0 ≤ i < rows → mapped m (row_addr b i) ROW_SIZE.
Proof using Type.
  intros [_ Hm _] Hb Hi. apply (mapped_mono _ _ _ _ _ (Hm b Hb)); unfold row_addr, ROW_SIZE; nia.
Qed.

Lemma row_safe m b b' i :
  layout m → live b → live b' → 0 ≤ i < rows → fwd_safe (row_addr b i) (row_addr b' i) row_words.
Proof using EqDecision0.
  intros [_ _ Ha] Hb Hb' Hi. unfold fwd_safe, row_addr. destruct (decide (b = b')) as [->|Hne]; [left; lia|].
  change (8 * Z.of_nat row_words) with ROW_SIZE. unfold ROW_SIZE in *. specialize (Ha b b' Hb Hb' Hne). nia.
Qed.

(** The bits of a buffer are those of its rows. *)
Lemma bit_row m b i y : bit m (row_addr b i) y = bit m (base b) (i * row_bits + y).
Proof using Type. unfold row_addr. rewrite bit_add. f_equal. unfold row_bits. lia. Qed.

Lemma row_of_bit x : 0 ≤ x < rows * row_bits →
  0 ≤ x / row_bits < rows ∧ 0 ≤ x mod row_bits < row_bits ∧ x = x / row_bits * row_bits + x mod row_bits.
Proof using Type.
  intros Hx. assert (0 < row_bits) by done. pose proof (Z.mod_pos_bound x row_bits). pose proof (Z.div_mod x row_bits).
  split; [split; [apply Z.div_pos; lia|apply Z.div_lt_upper_bound; lia]|lia].
Qed.

(** A change of one row of a buffer. *)
Lemma row_changed m m' f b i g :
  layout m → holds m f → live b → 0 ≤ i < rows →
  row_frame m m' (row_addr b i) 1024 → (∀ y, 0 ≤ y < row_bits → bit m' (row_addr b i) y = g y) →
  layout m' ∧ holds m' (λ b' x, if decide (b' = b ∧ x / row_bits = i) then g (x mod row_bits) else f b' x).
Proof using Type.
  intros Hl Hh Hb Hi Hf Hg. split.
  { destruct Hl. split; [by apply (rf_bytes _ _ _ _ Hf)| |done]. intros b' Hb'. apply (rf_mapped _ _ _ _ Hf). auto. }
  intros b' x Hb' Hx. destruct (row_of_bit x Hx) as (Hr & Hm & Ex). case_decide as E.
  - destruct E as [-> <-]. rewrite <- Hg by done. rewrite bit_row. by f_equal.
  - rewrite <- (Hh b' x Hb' Hx). apply bit_ext. apply (rf_outside _ _ _ _ Hf). intros [H1 H2]. apply E. clear E Hh Hg.
    assert (0 ≤ x / 8 < rows * ROW_SIZE).
    { split; [apply Z.div_pos; lia|apply Z.div_lt_upper_bound; [lia|]]. unfold row_bits in Hx. lia. }
    unfold row_addr in *. destruct (decide (b' = b)) as [->|Hne].
    + split; [done|]. change (8 * 1024) with ROW_SIZE in H2.
      assert (x / 8 / ROW_SIZE = i) as <- by (symmetry; apply Z.div_unique with (x / 8 - i * ROW_SIZE); lia).
      rewrite Z.div_div by done. done.
    + destruct (lay_apart m Hl b' b Hb' Hb Hne); unfold ROW_SIZE in *; nia.
Qed.

Lemma run_call_ok m f c i :
  layout m → holds m f → call_ok c → 0 ≤ i < rows →
  ∃ m', run_call i m c = Ok m' ∧ layout m' ∧
    holds m' (λ b x, if decide (x / row_bits = i) then eval_call (λ b, f b x) c b else f b x).
Proof using All.
  intros Hl Hh ([g Hg] & Hd & H1 & H2) Hi. unfold run_call.
  destruct (do_rowop_bits (c_op c) g m (row_addr (c_dst c) i) (row_addr (c_src1 c) i) (row_addr (c_src2 c) i))
    as (m' & E & Hf & Hbit);
    [done|apply Hl|by apply row_mapped..|by eapply row_safe|by split; [apply row_mapped|eapply row_safe]|].
  exists m'. split; [done|].
  destruct (row_changed m m' f (c_dst c) i _ Hl Hh Hd Hi Hf Hbit) as [Hl' Hh']. split; [done|].
  eapply holds_ext; [exact Hh'|]. intros b x Hb Hx. simpl. destruct (row_of_bit x Hx) as (Hr & Hm & Ex). unfold eval_call.
  destruct (decide (x / row_bits = i)) as [<-|]; [|by rewrite decide_False by (intros [_ ?]; done)].
  destruct (decide (b = c_dst c)) as [->|]; [|by rewrite decide_False by (intros [? _]; done)].
  rewrite decide_True by done. unfold op_bit. rewrite Hg. simpl. rewrite !bit_row, <- Ex. by rewrite !Hh.
Qed.

Lemma run_row_ok cs m f i :
  layout m → holds m f → Forall call_ok cs → 0 ≤ i < rows →
  ∃ m', run_row cs m i = Ok m' ∧ layout m' ∧
    holds m' (λ b x, if decide (x / row_bits = i) then eval_calls cs (λ b, f b x) b else f b x).
Proof using All.
  intros Hl Hh Hcs Hi. revert m f Hl Hh. induction Hcs as [|c cs Hc _ IH]; intros m f Hl Hh.
  - exists m. split; [done|]. split; [done|]. eapply holds_ext; [exact Hh|]. intros b x _ _. simpl. by case_decide.
  - destruct (run_call_ok m f c i Hl Hh Hc Hi) as (m1 & E1 & Hl1 & Hh1).
    destruct (IH m1 _ Hl1 Hh1) as (m2 & E2 & Hl2 & Hh2). exists m2. unfold run_row in *. simpl. rewrite E1. cbn [mbind res_mbind].
    split; [done|]. split; [done|]. eapply holds_ext; [exact Hh2|]. intros b x _ _. simpl. by case_decide.
Qed.

(** A loop over all rows computes the boolean function at every position. *)
Lemma for_all_rows_ok cs m f :
  layout m → holds m f → Forall call_ok cs →
  ∃ m', for_all_rows cs m = Ok m' ∧ layout m' ∧ holds m' (λ b x, eval_calls cs (λ b, f b x) b).
Proof using All.
  intros Hl Hh Hcs. unfold for_all_rows.
  destruct (foldM_ok (λ l m, layout m ∧
    holds m (λ b x, if decide (x / row_bits < Z.of_nat (length l)) then eval_calls cs (λ b, f b x) b else f b x))
    (run_row cs) (seqZ 0 rows) m) as (m' & E & Hl' & Hh').
  - split; [done|]. eapply holds_ext; [exact Hh|]. intros b x _ Hx. simpl. rewrite decide_False; [done|].
    destruct (row_of_bit x Hx). lia.
  - intros l1 i l2 m1 El [Hl1 Hh1].
    assert (i = Z.of_nat (length l1) ∧ i < rows) as [Ei Hi].
    { assert (seqZ 0 rows !! length l1 = Some i) as Hlk by (rewrite El; by apply list_lookup_middle).
      apply lookup_seqZ in Hlk. lia. }
    destruct (run_row_ok cs m1 _ i Hl1 Hh1 Hcs) as (m2 & E2 & Hl2 & Hh2); [lia|]. exists m2. split; [done|]. split; [done|].
    eapply holds_ext; [exact Hh2|]. intros b x _ Hx. simpl. rewrite length_app. simpl.
    destruct (decide (x / row_bits = i)), (decide (x / row_bits < Z.of_nat (length l1))),
      (decide (x / row_bits < Z.of_nat (length l1 + 1))); lia || done.
  - exists m'. split; [done|]. split; [done|]. eapply holds_ext; [exact Hh'|]. intros b x _ Hx. simpl.
    rewrite decide_True; [done|]. destruct (row_of_bit x Hx) as (Hr & _). rewrite length_seqZ. lia.
Qed.

End buffers.
