(* ===== verification/Bitweave.v ===== *)
(** * The range query workload (microworkloads/bitweave-buddy.c)

    A table column of [col_length]-bit values is stored bit by bit: buffer [Vals j] holds
    bit [j] of every value, the first being the most significant.  The query counts the
    values strictly between two constants with bulk row operations only, one pass over the
    bit columns; the count uses a parallel population count. *)

From stdpp Require Import base gmap list list_numbers.
From S2P Require Import Prelude AbstractMem Packets RowMem.
Import Request HostMem RowOps.
Local Open Scope Z_scope.

Module Bitweave.

Definition upopcount (val : Z) : Z :=
  let val := u32 (val - Z.land (Z.shiftr val 1) 0x55555555) in
  let val := u32 (Z.land val 0x33333333 + Z.land (Z.shiftr val 2) 0x33333333) in
  Z.shiftr (u32 (Z.land (u32 (val + Z.shiftr val 4)) 0x0F0F0F0F * 0x01010101)) 24.

(** The buffers [main] allocates. *)
Inductive buf := Vals (j : Z) | Meq1 | Meq2 | Mlt | Mgt | Neg | Tmp | Output.

#[global] Instance buf_eq_dec : EqDecision buf.
Proof. solve_decision. Defined.

(** The functions of rowop.S, on a row of buffers. *)
Definition rowop_and (d s1 s2 : buf) : call := Call ROWAND d s1 s2.
Definition rowop_or (d s1 s2 : buf) : call := Call ROWOR d s1 s2.
Definition rowop_not (d s : buf) : call := Call ROWNOT d s s.

(** [main]: the buffers' addresses, the number of columns and of values, and the constants. *)
Section query.
Context (base : buf → Z) (col_length num_vals c1 c2 : Z).

Definition per_col_bytes : Z := num_vals / 8.
Definition per_col_ints : Z := num_vals / 32.
Definition per_col_rows : Z := (per_col_bytes + ROW_SIZE - 1) / ROW_SIZE.

(** "set meq1 and meq2 to 1" *)
Definition init_word (m : hostmem) (i : Z) : res hostmem :=
  m ← store32 m (base Meq1 + 4 * i) 1;
  m ← store32 m (base Meq2 + 4 * i) 1;
  m ← store32 m (base Mlt + 4 * i) 0;
  store32 m (base Mgt + 4 * i) 0.
Definition init_masks (m : hostmem) : res hostmem := foldM init_word m (seqZ 0 per_col_ints).

(** The row operations for a column, by the bits of the constants. *)
Definition column_ops (test1 test2 : bool) (vec : buf) : list call :=
  match test1, test2 with
  | false, false =>
      [ rowop_and Tmp Meq1 vec; rowop_or Mgt Mgt Tmp; rowop_and Meq1 Meq1 Neg; rowop_and Meq2 Meq2 Neg ]
  | true, false => [ rowop_and Meq1 Meq1 vec; rowop_and Meq2 Meq2 Neg ]
  | false, true =>
      [ rowop_and Tmp Meq1 vec; rowop_or Mgt Mgt Tmp; rowop_and Tmp Meq2 Neg; rowop_or Mlt Mlt Tmp;
        rowop_and Meq1 Meq1 Neg; rowop_and Meq2 Meq2 vec ]
  | true, true =>
      [ rowop_and Tmp Meq2 Neg; rowop_or Mlt Mlt Tmp; rowop_and Meq1 Meq1 vec; rowop_and Meq2 Meq2 vec ]
  end.

(** The body of the loop over the columns; [1 << j] of type [int] is undefined from 31 on. *)
Definition column (m : hostmem) (j : Z) : res hostmem :=
  let vec := Vals j in
  m ← for_all_rows base per_col_rows [rowop_not Neg vec] m;
  _ ← (if j <? 31 then Ok () else Err UB);
  let test1 := negb (Z.land c1 (Z.shiftl 1 j) =? 0) in
  let test2 := negb (Z.land c2 (Z.shiftl 1 j) =? 0) in
  for_all_rows base per_col_rows (column_ops test1 test2 vec) m.

(** The last loop: one row of the output, and the sum over its words. *)
Definition count_words (m : hostmem) (i : Z) (result : Z) : res Z :=
  foldM (λ result j, v ← load32 m (row_addr base Output i + 4 * j); mret (u32 (result + upopcount v)))
    result (seqZ 0 (ROW_SIZE / 4)).
Definition count_row (s : hostmem * Z) (i : Z) : res (hostmem * Z) :=
  m ← run_call base i s.1 (rowop_and Output Mlt Mgt);
  result ← count_words m i s.2;
  mret (m, result).

Definition iteration (m : hostmem) : res (hostmem * Z) :=
  m ← foldM column m (seqZ 0 col_length);
  foldM count_row (m, 0) (seqZ 0 per_col_rows).

(** [main] after the columns have been filled: the printed result. *)
Definition main (m : hostmem) : res Z :=
  m ← init_masks m;
  '(m, _) ← iteration m;
  '(_, result) ← iteration m;
  mret result.

End query.

End Bitweave.
Import Bitweave.

(** ** The population count *)

(** The number of positions from [a] to [a + n] with a property. *)
Definition cnt (p : Z → bool) (a n : Z) : Z := Z.of_nat (length (filter (λ x, p x = true) (seqZ a n))).

Lemma cnt_app p a n k : 0 ≤ n → 0 ≤ k → cnt p a (n + k) = cnt p a n + cnt p (a + n) k.
Proof. intros Hn Hk. unfold cnt. rewrite seqZ_app, filter_app, length_app by done. lia. Qed.

Lemma cnt_ext p q a n : (∀ x, a ≤ x < a + n → p x = q x) → cnt p a n = cnt q a n.
Proof.
  intros H. unfold cnt. f_equal. assert (∀ x, x ∈ seqZ a n → p x = q x) as Hl by (intros x Hx%elem_of_seqZ; by apply H).
  revert Hl. generalize (seqZ a n) as l. intros l. induction l as [|x l IH]; intros Hl; [done|].
  rewrite !filter_cons, (Hl x) by set_solver. destruct (decide _); simpl; rewrite IH by set_solver; done.
Qed.

Lemma cnt_shift p a n : cnt (λ x, p (a + x)) 0 n = cnt p a n.
Proof.
  unfold cnt. f_equal. replace (seqZ a n) with (Z.add a <$> seqZ 0 n) by (rewrite fmap_add_seqZ; f_equal; lia).
  generalize (seqZ 0 n) as l. intros l. induction l as [|x l IH]; [done|]. simpl. rewrite !filter_cons. simpl.
  destruct (decide _); simpl; by rewrite IH.
Qed.

(** Four bytes as a word. *)
Definition quad (b0 b1 b2 b3 : Z) : Z := b0 + 256 * (b1 + 256 * (b2 + 256 * b3)).
Definition byte (b : Z) : Prop := 0 ≤ b < 256.

Lemma quad_split v : 0 ≤ v < 2 ^ 32 → ∃ b0 b1 b2 b3, v = quad b0 b1 b2 b3 ∧ byte b0 ∧ byte b1 ∧ byte b2 ∧ byte b3.
Proof.
  intros Hv. exists (v mod 256), (v / 256 mod 256), (v / 256 / 256 mod 256), (v / 256 / 256 / 256). unfold quad, byte.
  pose proof (Z.div_mod v 256). pose proof (Z.div_mod (v / 256) 256). pose proof (Z.div_mod (v / 256 / 256) 256).
  pose proof (Z.mod_pos_bound v 256). pose proof (Z.mod_pos_bound (v / 256) 256). pose proof (Z.mod_pos_bound (v / 256 / 256) 256).
  lia.
Qed.

Lemma low_byte_testbit b h i : byte b → 0 ≤ i → Z.testbit (b + 256 * h) i = if i <? 8 then Z.testbit b i else Z.testbit h (i - 8).
Proof.
  intros Hb Hi. destruct (Z.ltb_spec i 8).
  - rewrite <- (Z.mod_pow2_bits_low _ 8) by lia. change (2 ^ 8) with 256. rewrite (Z.mul_comm 256), Z.mod_add, Z.mod_small by (unfold byte in *; lia).
    done.
  - replace i with (i - 8 + 8) at 1 by lia. rewrite <- Z.div_pow2_bits by lia. change (2 ^ 8) with 256.
    rewrite (Z.mul_comm 256), Z.div_add, Z.div_small by (unfold byte in *; lia). done.
Qed.

Lemma land_low_byte b h b' h' :
  byte b → byte b' → Z.land (b + 256 * h) (b' + 256 * h') = Z.land b b' + 256 * Z.land h h'.
Proof.
  intros Hb Hb'. assert (byte (Z.land b b')) as Hl.
  { apply (testbit_in_width 8); [lia|apply Z.land_nonneg; unfold byte in *; lia|]. intros i Hi.
    rewrite Z.land_spec, (testbit_high 8 b) by (unfold byte in *; lia). done. }
  apply Z.bits_inj'. intros i Hi. rewrite Z.land_spec, !low_byte_testbit by done. destruct (i <? 8); by rewrite Z.land_spec.
Qed.

Lemma land_quad a0 a1 a2 a3 m0 m1 m2 m3 :
  byte a0 → byte a1 → byte a2 → byte m0 → byte m1 → byte m2 →
  Z.land (quad a0 a1 a2 a3) (quad m0 m1 m2 m3) = quad (Z.land a0 m0) (Z.land a1 m1) (Z.land a2 m2) (Z.land a3 m3).
Proof. intros. unfold quad. by rewrite !land_low_byte. Qed.

(** A right shift by less than a byte moves the low bits of a byte into the one below. *)
Lemma shiftr_low_byte k b h : 0 ≤ k ≤ 8 →
  Z.shiftr (b + 256 * h) k = Z.shiftr b k + h mod 2 ^ k * 2 ^ (8 - k) + 256 * Z.shiftr h k.
Proof.
  intros Hk. rewrite !Z.shiftr_div_pow2 by lia. assert (256 = 2 ^ k * 2 ^ (8 - k)) as E.
  { rewrite <- Z.pow_add_r by lia. by replace (k + (8 - k)) with 8 by lia. }
  pose proof (Z.pow_pos_nonneg 2 k). rewrite E at 1.
  replace (b + 2 ^ k * 2 ^ (8 - k) * h) with (b + (2 ^ (8 - k) * h) * 2 ^ k) by ring. rewrite Z.div_add by lia.
  rewrite <- Z.add_assoc. f_equal. rewrite (Z.div_mod h (2 ^ k)) at 1 by lia. rewrite E. ring.
Qed.

(** The three steps on a byte, and what is checked of them for all bytes. *)
Definition byte_pairs (b : Z) : Z := b - Z.land (Z.shiftr b 1) 0x55.
Definition byte_nibbles (b : Z) : Z :=
  Z.land (byte_pairs b) 0x33 + Z.land (Z.shiftr (byte_pairs b) 2) 0x33.
Definition byte_check (b : Z) : bool :=
  let a := byte_pairs b in let c := byte_nibbles b in
  (0 <=? a) && (a <? 256) && (0 <=? c) && (c <=? 68) && (c mod 16 <=? 4)
  && forallb (λ r, Z.land (Z.shiftr b 1 + r * 128) 0x55 =? Z.land (Z.shiftr b 1) 0x55) (seqZ 0 2)
  && forallb (λ r, Z.land (Z.shiftr a 2 + r * 64) 0x33 =? Z.land (Z.shiftr a 2) 0x33) (seqZ 0 4)
  && forallb (λ r, Z.land (c + (Z.shiftr c 4 + r * 16)) 0x0F =? cnt (Z.testbit b) 0 8) (seqZ 0 5).

Lemma byte_checked b : byte b → byte_check b = true.
Proof.
  intros Hb. assert (forallb byte_check (seqZ 0 256) = true) as H by (vm_compute; reflexivity).
  rewrite forallb_forall in H. apply H. apply list_elem_of_In, elem_of_seqZ. exact Hb.
Qed.

Lemma byte_steps b :
  byte b → byte (byte_pairs b) ∧ 0 ≤ byte_nibbles b ≤ 68 ∧ byte_nibbles b mod 16 ≤ 4 ∧
  (∀ h, Z.land (Z.shiftr b 1 + h mod 2 ^ 1 * 2 ^ (8 - 1)) 0x55 = Z.land (Z.shiftr b 1) 0x55) ∧
  (∀ h, Z.land (Z.shiftr (byte_pairs b) 2 + h mod 2 ^ 2 * 2 ^ (8 - 2)) 0x33 = Z.land (Z.shiftr (byte_pairs b) 2) 0x33) ∧
  (∀ h, h mod 2 ^ 4 ≤ 4 → Z.land (byte_nibbles b + (Z.shiftr (byte_nibbles b) 4 + h mod 2 ^ 4 * 2 ^ (8 - 4))) 0x0F = cnt (Z.testbit b) 0 8).
Proof.
  intros Hb. pose proof (byte_checked b Hb) as H. unfold byte_check in H. rewrite !andb_true_iff, !forallb_forall in H.
  destruct H as (((((((H1 & H2) & H3) & H4) & H5) & H6) & H7) & H8).
  assert (∀ n h, 0 < n → h mod n ∈ seqZ 0 n) as Hin.
  { intros n h Hn. apply elem_of_seqZ. pose proof (Z.mod_pos_bound h n Hn). lia. }
  split; [unfold byte; lia|]. split; [lia|]. split; [lia|]. split; [|split]; intros h.
  - apply Z.eqb_eq, H6. apply list_elem_of_In, (Hin (2 ^ 1)). lia.
  - apply Z.eqb_eq, H7. apply list_elem_of_In, (Hin (2 ^ 2)). lia.
  - intros Hh. apply Z.eqb_eq, H8. apply list_elem_of_In, elem_of_seqZ. pose proof (Z.mod_pos_bound h (2 ^ 4)). lia.
Qed.

Lemma shiftr_quad k a0 a1 a2 a3 : 0 ≤ k ≤ 8 →
  Z.shiftr (quad a0 a1 a2 a3) k = quad (Z.shiftr a0 k + a1 mod 2 ^ k * 2 ^ (8 - k)) (Z.shiftr a1 k + a2 mod 2 ^ k * 2 ^ (8 - k))
    (Z.shiftr a2 k + a3 mod 2 ^ k * 2 ^ (8 - k)) (Z.shiftr a3 k).
Proof.
  intros Hk. assert (∀ b h, (b + 256 * h) mod 2 ^ k = b mod 2 ^ k) as Hm.
  { intros b h. replace (256 * h) with (2 ^ (8 - k) * h * 2 ^ k); [apply Z.mod_add; lia|].
    replace 256 with (2 ^ (8 - k) * 2 ^ k); [ring|]. rewrite <- Z.pow_add_r by lia. by replace (8 - k + k) with 8 by lia. }
  unfold quad. rewrite !shiftr_low_byte, !Hm by done. done.
Qed.

Lemma quad_word a0 a1 a2 a3 : byte a0 → byte a1 → byte a2 → byte a3 → u32 (quad a0 a1 a2 a3) = quad a0 a1 a2 a3.
Proof. unfold byte, quad. intros. apply wrap_small. lia. Qed.

Lemma cnt_quad a0 a1 a2 a3 :
  byte a0 → byte a1 → byte a2 →
  cnt (Z.testbit (quad a0 a1 a2 a3)) 0 32 =
  cnt (Z.testbit a0) 0 8 + (cnt (Z.testbit a1) 0 8 + (cnt (Z.testbit a2) 0 8 + cnt (Z.testbit a3) 0 8)).
Proof.
  intros H0 H1 H2. unfold quad. change 32 with (8 + (8 + (8 + 8))).
  assert (∀ b h n, byte b → 0 ≤ n → cnt (Z.testbit (b + 256 * h)) 0 (8 + n) = cnt (Z.testbit b) 0 8 + cnt (Z.testbit h) 0 n) as H.
  { intros b h n Hb Hn. rewrite cnt_app by lia. f_equal.
    - apply cnt_ext. intros x Hx. rewrite low_byte_testbit by (done || lia). by rewrite (proj2 (Z.ltb_lt x 8)) by lia.
    - rewrite <- cnt_shift. apply cnt_ext. intros x Hx. rewrite low_byte_testbit by (done || lia).
      rewrite (proj2 (Z.ltb_ge _ 8)) by lia. f_equal. lia. }
  rewrite !H by (done || lia). done.
Qed.

(** The sum of the bytes by a multiplication. *)
Lemma sum_bytes e0 e1 e2 e3 :
  0 ≤ e0 ≤ 8 → 0 ≤ e1 ≤ 8 → 0 ≤ e2 ≤ 8 → 0 ≤ e3 ≤ 8 →
  Z.shiftr (u32 (quad e0 e1 e2 e3 * 0x01010101)) 24 = e0 + (e1 + (e2 + e3)).
Proof.
  intros. unfold quad, u32, wrap. rewrite Z.shiftr_div_pow2 by lia.
  assert ((e0 + 256 * (e1 + 256 * (e2 + 256 * e3))) * 16843009 =
    e0 + 256 * (e0 + e1) + 65536 * (e0 + e1 + e2) + 2 ^ 24 * (e0 + e1 + e2 + e3) +
      (e1 + e2 + e3 + 256 * (e2 + e3) + 65536 * e3) * 2 ^ 32) as -> by ring.
  rewrite Z.mod_add by lia. rewrite Z.mod_small by lia.
  symmetry. apply Z.div_unique with (e0 + 256 * (e0 + e1) + 65536 * (e0 + e1 + e2)); lia.
Qed.

Lemma cnt_byte b : 0 ≤ cnt (Z.testbit b) 0 8 ≤ 8.
Proof.
  unfold cnt. pose proof (length_filter (λ x, Z.testbit b x = true) (seqZ 0 8)) as H.
  rewrite length_seqZ in H. lia.
Qed.

Lemma byte_shift k b h : byte b → 0 ≤ k ≤ 8 → byte (Z.shiftr b k + h mod 2 ^ k * 2 ^ (8 - k)).
Proof.
  intros Hb Hk. rewrite Z.shiftr_div_pow2 by lia. pose proof (Z.mod_pos_bound h (2 ^ k)). unfold byte in *.
  assert (2 ^ k * 2 ^ (8 - k) = 256) as E by (rewrite <- Z.pow_add_r by lia; by replace (k + (8 - k)) with 8 by lia).
  pose proof (Z.pow_pos_nonneg 2 k). pose proof (Z.pow_pos_nonneg 2 (8 - k)).
  assert (0 ≤ b / 2 ^ k < 2 ^ (8 - k)) by (split; [apply Z.div_pos; lia|apply Z.div_lt_upper_bound; lia]). nia.
Qed.

Lemma add_quad a0 a1 a2 a3 b0 b1 b2 b3 :
  quad a0 a1 a2 a3 + quad b0 b1 b2 b3 = quad (a0 + b0) (a1 + b1) (a2 + b2) (a3 + b3).
Proof. unfold quad. ring. Qed.
Lemma sub_quad a0 a1 a2 a3 b0 b1 b2 b3 :
  quad a0 a1 a2 a3 - quad b0 b1 b2 b3 = quad (a0 - b0) (a1 - b1) (a2 - b2) (a3 - b3).
Proof. unfold quad. ring. Qed.

Lemma upopcount_ok v : 0 ≤ v < 2 ^ 32 → upopcount v = cnt (Z.testbit v) 0 32.
Proof.
  intros (b0 & b1 & b2 & b3 & -> & H0 & H1 & H2 & H3)%quad_split. rewrite cnt_quad by done.
  destruct (byte_steps b0 H0) as (P0 & N0 & M0 & A0 & B0 & D0). destruct (byte_steps b1 H1) as (P1 & N1 & M1 & A1 & B1 & D1).
  destruct (byte_steps b2 H2) as (P2 & N2 & M2 & A2 & B2 & D2). destruct (byte_steps b3 H3) as (P3 & N3 & M3 & A3 & B3 & D3).
  assert (∀ x, 0 ≤ x ≤ 68 → byte x) as Hsm by (unfold byte; lia).
  assert (∀ m, m = 0x55 ∨ m = 0x33 ∨ m = 0x0F → byte m) as Hms by (unfold byte; lia).
  unfold upopcount. change 0x55555555 with (quad 0x55 0x55 0x55 0x55). change 0x33333333 with (quad 0x33 0x33 0x33 0x33).
  change 0x0F0F0F0F with (quad 0x0F 0x0F 0x0F 0x0F).
  rewrite shiftr_quad, land_quad, A0, A1, A2, sub_quad by (lia || auto using byte_shift with lia).
  change (b0 - _) with (byte_pairs b0). change (b1 - _) with (byte_pairs b1).
  change (b2 - _) with (byte_pairs b2). change (b3 - _) with (byte_pairs b3). rewrite quad_word by done.
  rewrite (shiftr_quad 2), !land_quad, B0, B1, B2, add_quad by (lia || auto using byte_shift with lia).
  fold (byte_nibbles b0) (byte_nibbles b1) (byte_nibbles b2) (byte_nibbles b3). rewrite quad_word by auto.
  rewrite (shiftr_quad 4), add_quad by lia.
  assert (∀ c h, 0 ≤ c ≤ 68 → h mod 2 ^ 4 ≤ 4 → byte (c + (Z.shiftr c 4 + h mod 2 ^ 4 * 2 ^ (8 - 4)))) as Hsum.
  { intros c h Hc Hh. rewrite Z.shiftr_div_pow2 by lia. pose proof (Z.div_pos c (2 ^ 4)).
    pose proof (Z.div_lt_upper_bound c (2 ^ 4) 5). pose proof (Z.mod_pos_bound h (2 ^ 4)). unfold byte. change (2 ^ (8 - 4)) with 16. lia. }
  replace (Z.shiftr (byte_nibbles b3) 4) with (Z.shiftr (byte_nibbles b3) 4 + 0 mod 2 ^ 4 * 2 ^ (8 - 4)) by (rewrite Zmod_0_l; lia).
  rewrite quad_word, land_quad, D0, D1, D2, D3 by first [ apply Hsum; (assumption || done || lia) | by auto | done ].
  by apply sum_bytes; apply cnt_byte.
Qed.

(** ** The query *)

(** The number with the given bits, the first the most significant. *)
Fixpoint msb (bits : Z → bool) (k : nat) : Z :=
  match k with O => 0 | S k => 2 * msb bits k + Z.b2z (bits (Z.of_nat k)) end.

(** Comparison bit by bit. *)
Lemma compare_step (c v : Z) (b d : bool) :
  (2 * c + Z.b2z b =? 2 * v + Z.b2z d) = (c =? v) && eqb b d ∧
  (2 * c + Z.b2z b <? 2 * v + Z.b2z d) = (c <? v) || ((c =? v) && (negb b && d)).
Proof.
  destruct b, d; simpl; split;
    repeat match goal with
    | |- context [?x =? ?y] => destruct (Z.eqb_spec x y)
    | |- context [?x <? ?y] => destruct (Z.ltb_spec x y)
    end; simpl; done || lia.
Qed.

(** What a column does to the masks at a position: the formulas of the SIMD baseline. *)
Lemma column_bits (t1 t2 : bool) (j : Z) (st : buf → bool) :
  let st' := eval_calls (column_ops t1 t2 (Vals j)) (eval_calls [rowop_not Neg (Vals j)] st) in
  st' Mgt = st Mgt || (st Meq1 && (negb t1 && st (Vals j))) ∧
  st' Mlt = st Mlt || (st Meq2 && (negb (st (Vals j)) && t2)) ∧
  st' Meq1 = st Meq1 && eqb t1 (st (Vals j)) ∧
  st' Meq2 = st Meq2 && eqb t2 (st (Vals j)) ∧
  ∀ j', st' (Vals j') = st (Vals j').
Proof.
  destruct t1, t2; vm_compute; (repeat split); destruct (st (Vals j)), (st Meq1), (st Meq2), (st Mgt), (st Mlt); done.
Qed.

Section query_proof.
Context (base : buf → Z) (col_length num_vals c1 c2 R : Z).
Hypothesis Hcols : 0 ≤ col_length ≤ 31.
Hypothesis Hvals : num_vals = R * row_bits.
Hypothesis HR : 0 ≤ R.

Definition live (b : buf) : Prop := match b with Vals j => 0 ≤ j < col_length | _ => True end.

Lemma rows_R : per_col_rows num_vals = R.
Proof using All.
  unfold per_col_rows, per_col_bytes. rewrite Hvals. unfold row_bits, ROW_SIZE.
  replace (R * (8192 * 8)) with (R * 8192 * 8) by lia. rewrite Z.div_mul by lia.
  symmetry. apply Z.div_unique with 8191; lia.
Qed.

Lemma ints_R : per_col_ints num_vals = R * 2048.
Proof using All.
  unfold per_col_ints. rewrite Hvals. unfold row_bits, ROW_SIZE.
  replace (R * (8192 * 8)) with (R * 2048 * 32) by lia. by rewrite Z.div_mul by lia.
Qed.

Abbreviation lay := (layout live base R).
Abbreviation hold := (holds live base R).

Definition const (c : Z) (k : nat) : Z := msb (Z.testbit c) k.
Definition value (f : buf → Z → bool) (x : Z) (k : nat) : Z := msb (λ j, f (Vals j) x) k.

(** The masks after [k] columns. *)
Definition masks (f0 f : buf → Z → bool) (k : nat) : Prop :=
  ∀ x, f Meq1 x = f0 Meq1 x && (const c1 k =? value f0 x k) ∧
    f Meq2 x = f0 Meq2 x && (const c2 k =? value f0 x k) ∧
    f Mgt x = f0 Mgt x || (f0 Meq1 x && (const c1 k <? value f0 x k)) ∧
    f Mlt x = f0 Mlt x || (f0 Meq2 x && (value f0 x k <? const c2 k)) ∧
    ∀ j, f (Vals j) x = f0 (Vals j) x.

Lemma masks_step f0 f k :
  masks f0 f k →
  masks f0 (λ b x, eval_calls (column_ops (Z.testbit c1 (Z.of_nat k)) (Z.testbit c2 (Z.of_nat k)) (Vals (Z.of_nat k)))
    (eval_calls [rowop_not Neg (Vals (Z.of_nat k))] (λ b, f b x)) b) (S k).
Proof using Type.
  intros H x. destruct (H x) as (H1 & H2 & H3 & H4 & H5).
  destruct (column_bits (Z.testbit c1 (Z.of_nat k)) (Z.testbit c2 (Z.of_nat k)) (Z.of_nat k) (λ b, f b x)) as (E1 & E2 & E3 & E4 & E5).
  cbn beta in *. rewrite E1, E2, E3, E4. rewrite H5 in *. unfold const, value in *. cbn [msb].
  destruct (compare_step (msb (Z.testbit c1) k) (msb (λ j, f0 (Vals j) x) k) (Z.testbit c1 (Z.of_nat k)) (f0 (Vals (Z.of_nat k)) x)) as [-> ->].
  destruct (compare_step (msb (Z.testbit c2) k) (msb (λ j, f0 (Vals j) x) k) (Z.testbit c2 (Z.of_nat k)) (f0 (Vals (Z.of_nat k)) x)) as [-> _].
  destruct (compare_step (msb (λ j, f0 (Vals j) x) k) (msb (Z.testbit c2) k) (f0 (Vals (Z.of_nat k)) x) (Z.testbit c2 (Z.of_nat k))) as [_ ->].
  rewrite H1, H2, H3, H4, (Z.eqb_sym (msb (λ j, f0 (Vals j) x) k) (msb (Z.testbit c2) k)), !andb_orb_distrib_r, !andb_assoc, !orb_assoc.
  repeat split. intros j. by rewrite E5, H5.
Qed.

Lemma test_bit c j : 0 ≤ j → negb (Z.land c (Z.shiftl 1 j) =? 0) = Z.testbit c j.
Proof using Type.
  intros Hj. rewrite Z.shiftl_1_l. destruct (Z.testbit c j) eqn:E.
  - apply negb_true_iff, Z.eqb_neq. intros E0. assert (Z.testbit (Z.land c (2 ^ j)) j = false) as H by by rewrite E0, Z.bits_0.
    rewrite Z.land_spec, E, Z.pow2_bits_true in H by done. done.
  - apply negb_false_iff, Z.eqb_eq, Z.bits_inj'. intros i Hi. rewrite Z.land_spec, Z.bits_0.
    destruct (decide (i = j)) as [->|]; [by rewrite E|]. by rewrite Z.pow2_bits_false, andb_false_r by lia.
Qed.

Lemma column_ok m f0 f k :
  lay m → hold m f → masks f0 f k → Z.of_nat k < col_length →
  ∃ m' f', column base num_vals c1 c2 m (Z.of_nat k) = Ok m' ∧ lay m' ∧ hold m' f' ∧ masks f0 f' (S k).
Proof using All.
  intros Hl Hh Hm Hk. unfold column. rewrite rows_R.
  destruct (for_all_rows_ok live base R [rowop_not Neg (Vals (Z.of_nat k))] m f Hl Hh) as (m1 & E1 & Hl1 & Hh1).
  { repeat constructor; simpl; lia || done. }
  rewrite E1. cbn [mbind res_mbind]. rewrite (proj2 (Z.ltb_lt _ 31)) by lia. cbn [mbind res_mbind]. rewrite !test_bit by lia.
  destruct (for_all_rows_ok live base R
    (column_ops (Z.testbit c1 (Z.of_nat k)) (Z.testbit c2 (Z.of_nat k)) (Vals (Z.of_nat k))) m1 _ Hl1 Hh1) as (m2 & E2 & Hl2 & Hh2).
  { destruct (Z.testbit c1 _), (Z.testbit c2 _); repeat constructor; simpl; lia || done. }
  eexists m2, _. split; [exact E2|]. split; [done|]. split; [exact Hh2|]. by apply masks_step.
Qed.

Lemma columns_ok m f0 :
  lay m → hold m f0 →
  ∃ m' f', foldM (column base num_vals c1 c2) m (seqZ 0 col_length) = Ok m' ∧ lay m' ∧ hold m' f' ∧
    masks f0 f' (Z.to_nat col_length).
Proof using All.
  intros Hl Hh.
  destruct (foldM_ok (λ l m, ∃ f, lay m ∧ hold m f ∧ masks f0 f (length l)) (column base num_vals c1 c2) (seqZ 0 col_length) m)
    as (m' & E & f' & Hl' & Hh' & Hm').
  - exists f0. split; [done|]. split; [done|]. intros x. unfold const, value. simpl. rewrite !andb_true_r, !andb_false_r, !orb_false_r. done.
  - intros l1 j l2 m1 El (f1 & Hl1 & Hh1 & Hm1).
    assert (seqZ 0 col_length !! length l1 = Some j) as Hlk by (rewrite El; by apply list_lookup_middle).
    apply lookup_seqZ in Hlk as [-> Hlt]. destruct (column_ok m1 f0 f1 (length l1) Hl1 Hh1 Hm1) as (m2 & f2 & E2 & Hl2 & Hh2 & Hm2); [lia|].
    exists m2. rewrite Z.add_0_l. split; [done|]. exists f2. rewrite length_app, Nat.add_comm. done.
  - exists m', f'. by rewrite length_seqZ in Hm'.
Qed.

(** *** The count *)

Lemma count_words_ok m i r :
  lay m → 0 ≤ i < R →
  count_words base m i (u32 r) = Ok (u32 (r + cnt (bit m (base Output)) (i * row_bits) row_bits)).
Proof using All.
  intros Hl Hi. unfold count_words.
  destruct (foldM_ok (λ l r', r' = u32 (r + cnt (bit m (base Output)) (i * row_bits) (32 * Z.of_nat (length l))))
    (λ result j, v ← load32 m (row_addr base Output i + 4 * j); mret (u32 (result + upopcount v)))
    (seqZ 0 (ROW_SIZE / 4)) (u32 r)) as (r' & E & ->).
  - unfold cnt. simpl. by rewrite Z.add_0_r.
  - intros l1 j l2 r1 El ->.
    assert (seqZ 0 (ROW_SIZE / 4) !! length l1 = Some j) as Hlk by (rewrite El; by apply list_lookup_middle).
    apply lookup_seqZ in Hlk as [-> Hlt]. change (ROW_SIZE / 4) with 2048 in Hlt. rewrite Z.add_0_l.
    destruct (load32_ok m (row_addr base Output i + 4 * Z.of_nat (length l1))) as (v & Ev & Hv & Hb).
    { apply Hl. }
    { eapply mapped_mono; [apply (row_mapped live base R m Output i Hl); done|lia|unfold ROW_SIZE; lia]. }
    rewrite Ev. cbn [mbind res_mbind]. eexists. split; [reflexivity|].
    rewrite u32_add, upopcount_ok, length_app, <- Z.add_assoc by done. do 2 f_equal. simpl.
    replace (32 * Z.of_nat (length l1 + 1)) with (32 * Z.of_nat (length l1) + 32) by lia. rewrite cnt_app by lia. f_equal.
    rewrite <- (cnt_shift _ (i * row_bits + 32 * Z.of_nat (length l1))). apply cnt_ext. intros x Hx.
    rewrite Hb by lia. rewrite bit_add, bit_row. f_equal. lia.
  - by rewrite E, length_seqZ.
Qed.

Lemma count_row_ok m f i r :
  lay m → hold m f → 0 ≤ i < R →
  ∃ m' f', count_row base (m, u32 r) i = Ok (m', u32 (r + cnt (λ x, f Mlt x && f Mgt x) (i * row_bits) row_bits)) ∧
    lay m' ∧ hold m' f' ∧ ∀ b x, b ≠ Output → f' b x = f b x.
Proof using All.
  intros Hl Hh Hi. unfold count_row. simpl.
  destruct (run_call_ok live base R m f (rowop_and Output Mlt Mgt) i Hl Hh) as (m' & E & Hl' & Hh'); [done|done|].
  rewrite E. cbn [mbind res_mbind]. rewrite (count_words_ok m' i r Hl' Hi). cbn [mbind res_mbind].
  eexists m', _. split; [|split; [done|]; split; [exact Hh'|]].
  - unfold mret, res_mret. do 4 f_equal. apply cnt_ext. intros x Hx.
    assert (x / row_bits = i) as Ei by (symmetry; apply Z.div_unique with (x - i * row_bits); lia).
    rewrite Hh' by (done || unfold row_bits, ROW_SIZE in *; nia). simpl. rewrite Ei, decide_True by done. done.
  - intros b x Hb. simpl. case_decide; [|done]. unfold eval_call. by rewrite decide_False.
Qed.

Lemma count_rows_ok m f :
  lay m → hold m f →
  ∃ m' f', foldM (count_row base) (m, 0) (seqZ 0 R) = Ok (m', u32 (cnt (λ x, f Mlt x && f Mgt x) 0 (R * row_bits))) ∧
    lay m' ∧ hold m' f' ∧ ∀ b x, b ≠ Output → f' b x = f b x.
Proof using All.
  intros Hl Hh.
  destruct (foldM_ok (λ l s, ∃ f', lay s.1 ∧ hold s.1 f' ∧ (∀ b x, b ≠ Output → f' b x = f b x) ∧
      s.2 = u32 (cnt (λ x, f Mlt x && f Mgt x) 0 (Z.of_nat (length l) * row_bits)))
    (count_row base) (seqZ 0 R) (m, 0)) as ([m' r] & E & f' & Hl' & Hh' & Hf' & Er).
  - exists f. done.
  - intros l1 i l2 [m1 r1] El (f1 & Hl1 & Hh1 & Hf1 & Er1). simpl in *.
    assert (seqZ 0 R !! length l1 = Some i) as Hlk by (rewrite El; by apply list_lookup_middle).
    apply lookup_seqZ in Hlk as [-> Hlt]. rewrite Z.add_0_l. subst r1.
    destruct (count_row_ok m1 f1 (Z.of_nat (length l1)) (cnt (λ x, f Mlt x && f Mgt x) 0 (Z.of_nat (length l1) * row_bits)) Hl1 Hh1)
      as (m2 & f2 & E2 & Hl2 & Hh2 & Hf2); [lia|].
    eexists. split; [exact E2|]. exists f2. simpl. split; [done|]. split; [done|]. split; [intros; rewrite Hf2, Hf1; done|].
    f_equal. rewrite length_app. simpl.
    replace (Z.of_nat (length l1 + 1) * row_bits) with (Z.of_nat (length l1) * row_bits + row_bits) by lia.
    rewrite cnt_app by (unfold row_bits, ROW_SIZE; lia). f_equal. rewrite Z.add_0_l. apply cnt_ext. intros x _. by rewrite !Hf1.
  - exists m', f'. simpl in *. rewrite E, Er, length_seqZ, Z2Nat.id by lia. done.
Qed.

(** *** The masks at the start *)

Lemma store32_ok m f b i v :
  lay m → hold m f → live b → 0 ≤ i < R * 2048 → 0 ≤ v < 2 ^ 32 →
  ∃ m', store32 m (base b + 4 * i) v = Ok m' ∧ lay m' ∧
    hold m' (λ b' x, if decide (b' = b ∧ x / 32 = i) then Z.testbit v (x mod 32) else f b' x).
Proof using All.
  intros Hl Hh Hb Hi Hv. unfold store32. pose proof (length_Z_to_little_endian 4 8 v ltac:(lia)) as Hlen.
  assert (Z.of_nat (length (Z_to_little_endian 4 8 v)) = 4) as Hlen' by lia.
  destruct (store_bytes_ok m (base b + 4 * i) (Z_to_little_endian 4 8 v)) as (m' & E & Hp).
  { rewrite Hlen'. eapply mapped_mono; [by apply (lay_mapped live base R m Hl b)|lia|unfold ROW_SIZE; lia]. }
  assert (bytes_ok m') as Hb'.
  { eapply patched_bytes_ok; [done|apply Hl|]. apply (Z_to_little_endian_bound 4 8 v); lia. }
  exists m'. split; [done|]. split.
  { destruct Hl. split; [done| |done]. intros b' ?. eapply patched_mapped; [done|auto]. }
  intros b' x Hlb Hx. case_decide as D.
  - destruct D as [-> Ei]. pose proof (Z.div_mod x 32). pose proof (Z.mod_pos_bound x 32).
    replace x with (8 * (4 * i) + x mod 32) at 1 by lia. rewrite <- bit_add, <- (bytes_testbit m' _ 4) by (done || lia).
    pose proof (patched_bytes_at _ _ _ _ Hp) as Hba. replace (length (Z_to_little_endian 4 8 v)) with 4%nat in Hba by lia.
    rewrite Hba, little_endian_to_Z_to_little_endian by lia. by rewrite Z.mod_small.
  - rewrite <- Hh by done. apply bit_ext. rewrite Hp, decide_False; [done|]. rewrite Hlen'. intros Hin. apply D.
    assert (0 ≤ x / 8 < R * ROW_SIZE).
    { split; [apply Z.div_pos; lia|apply Z.div_lt_upper_bound; [lia|]]. unfold row_bits in Hx. lia. }
    destruct (decide (b' = b)) as [->|Hne].
    + split; [done|]. change 32 with (8 * 4). rewrite <- Z.div_div by lia. symmetry. apply Z.div_unique with (x / 8 - 4 * i); lia.
    + destruct (lay_apart live base R m Hl b' b Hlb Hb Hne); unfold ROW_SIZE in *; lia.
Qed.

(** The masks [main] starts with: bit 0 of every 32-bit word. *)
Definition start_bits (f : buf → Z → bool) (b : buf) (x : Z) : bool :=
  match b with
  | Meq1 | Meq2 => x mod 32 =? 0
  | Mlt | Mgt => false
  | _ => f b x
  end.

Lemma one_testbit y : 0 ≤ y → Z.testbit 1 y = (y =? 0).
Proof using Type.
  intros Hy. destruct (Z.eqb_spec y 0) as [->|]; [done|]. change 1 with (2 ^ 0). apply Z.pow2_bits_false. lia.
Qed.

Lemma init_word_ok m f i :
  lay m → hold m f → 0 ≤ i < R * 2048 →
  ∃ m', init_word base m i = Ok m' ∧ lay m' ∧
    hold m' (λ b x, if decide (x / 32 = i) then start_bits f b x else f b x).
Proof using All.
  intros Hl Hh Hi. unfold init_word.
  destruct (store32_ok m f Meq1 i 1 Hl Hh I Hi) as (m1 & E1 & Hl1 & Hh1); [lia|]. rewrite E1. cbn [mbind res_mbind].
  destruct (store32_ok m1 _ Meq2 i 1 Hl1 Hh1 I Hi) as (m2 & E2 & Hl2 & Hh2); [lia|]. rewrite E2. cbn [mbind res_mbind].
  destruct (store32_ok m2 _ Mlt i 0 Hl2 Hh2 I Hi) as (m3 & E3 & Hl3 & Hh3); [lia|]. rewrite E3. cbn [mbind res_mbind].
  destruct (store32_ok m3 _ Mgt i 0 Hl3 Hh3 I Hi) as (m4 & E4 & Hl4 & Hh4); [lia|]. exists m4. split; [done|]. split; [done|].
  eapply holds_ext; [exact Hh4|]. intros b x _ Hx. simpl. pose proof (Z.mod_pos_bound x 32).
  destruct (decide (x / 32 = i)) as [E|E]; [|by rewrite !decide_False by (intros [_ ?]; done)].
  destruct b; simpl; repeat (case_decide as D; [destruct D; simplify_eq|]);
    rewrite ?one_testbit, ?Z.bits_0 by lia; try done; by destruct D.
Qed.

Lemma init_masks_ok m f :
  lay m → hold m f → ∃ m', init_masks base num_vals m = Ok m' ∧ lay m' ∧ hold m' (start_bits f).
Proof using All.
  intros Hl Hh. unfold init_masks. rewrite ints_R.
  destruct (foldM_ok (λ l m, lay m ∧ hold m (λ b x, if decide (x / 32 < Z.of_nat (length l)) then start_bits f b x else f b x))
    (init_word base) (seqZ 0 (R * 2048)) m) as (m' & E & Hl' & Hh').
  - split; [done|]. eapply holds_ext; [exact Hh|]. intros b x _ Hx. simpl. rewrite decide_False; [done|].
    pose proof (Z.div_pos x 32). lia.
  - intros l1 i l2 m1 El [Hl1 Hh1].
    assert (seqZ 0 (R * 2048) !! length l1 = Some i) as Hlk by (rewrite El; by apply list_lookup_middle).
    apply lookup_seqZ in Hlk as [-> Hlt]. rewrite Z.add_0_l.
    destruct (init_word_ok m1 _ (Z.of_nat (length l1)) Hl1 Hh1) as (m2 & E2 & Hl2 & Hh2); [lia|].
    exists m2. split; [done|]. split; [done|]. eapply holds_ext; [exact Hh2|]. intros b x _ Hx. simpl. rewrite length_app. simpl.
    unfold start_bits. destruct (decide (x / 32 = Z.of_nat (length l1))), (decide (x / 32 < Z.of_nat (length l1))),
      (decide (x / 32 < Z.of_nat (length l1 + 1))); lia || done || by destruct b.
  - exists m'. split; [done|]. split; [done|]. eapply holds_ext; [exact Hh'|]. intros b x _ Hx. simpl.
    rewrite decide_True; [done|]. rewrite length_seqZ. apply Z.div_lt_upper_bound; [lia|]. unfold row_bits, ROW_SIZE in Hx. lia.
Qed.

Lemma value_ext f f' x k : (∀ j, f (Vals j) x = f' (Vals j) x) → value f x k = value f' x k.
Proof using Type. intros H. unfold value. induction k as [|k IH]; simpl; [done|]. by rewrite IH, H. Qed.

(** One iteration from any masks. *)
Lemma iteration_ok m f0 :
  lay m → hold m f0 →
  ∃ m' f', iteration base col_length num_vals c1 c2 m = Ok (m', u32 (cnt (λ x, f' Mlt x && f' Mgt x) 0 num_vals)) ∧
    lay m' ∧ hold m' f' ∧ masks f0 f' (Z.to_nat col_length).
Proof using All.
  intros Hl Hh. unfold iteration. destruct (columns_ok m f0 Hl Hh) as (m1 & f1 & E1 & Hl1 & Hh1 & Hm1).
  rewrite E1. cbn [mbind res_mbind]. rewrite rows_R.
  destruct (count_rows_ok m1 f1 Hl1 Hh1) as (m2 & f2 & E2 & Hl2 & Hh2 & Hf2). rewrite Hvals.
  exists m2, f2. split; [rewrite E2; do 3 f_equal; apply cnt_ext; intros x _; by rewrite !Hf2|]. split; [done|]. split; [done|].
  intros x. destruct (Hm1 x) as (H1 & H2 & H3 & H4 & H5). rewrite !Hf2 by done. repeat split; try done.
  intros j. by rewrite Hf2.
Qed.

(** A second iteration over the same columns leaves the masks as they are. *)
Lemma masks_twice f0 f1 f2 k :
  masks f0 f1 k → masks f1 f2 k → (∀ x, f0 Mgt x = false ∧ f0 Mlt x = false) →
  ∀ x, f2 Mlt x && f2 Mgt x =
    (f0 Meq2 x && (value f0 x k <? const c2 k)) && (f0 Meq1 x && (const c1 k <? value f0 x k)).
Proof using Type.
  intros H1 H2 H0 x. destruct (H1 x) as (A1 & A2 & A3 & A4 & A5), (H2 x) as (_ & _ & B3 & B4 & _), (H0 x) as [G L].
  rewrite B3, B4, A1, A2, A3, A4, G, L, (value_ext f1 f0) by done. simpl.
  destruct (f0 Meq1 x), (f0 Meq2 x), (Z.eqb_spec (const c1 k) (value f0 x k)), (Z.eqb_spec (const c2 k) (value f0 x k)),
    (Z.ltb_spec (const c1 k) (value f0 x k)), (Z.ltb_spec (value f0 x k) (const c2 k)); simpl; done || lia.
Qed.

End query_proof.

(** C34: The range query with bulk row operations.  With a whole number of rows per column
    and at most 31 columns, [main] never leaves its buffers and prints the number of values
    strictly between the two constants (bits taken column by column, the first the most
    significant), but only of those stored at bit 0 of a 32-bit word, because the masks of
    candidates start as 1 in every word; the second iteration does not change the result. *)
Theorem bitweave_query_counts (base : buf → Z) (col_length num_vals c1 c2 R : Z) (m : hostmem) :
  0 ≤ col_length ≤ 31 → num_vals = R * row_bits → 0 ≤ R → layout (live col_length) base R m →
  let v x := value (λ b, bit m (base b)) x (Z.to_nat col_length) in
  main base col_length num_vals c1 c2 m =
    Ok (u32 (cnt (λ x, (x mod 32 =? 0) && (const c1 (Z.to_nat col_length) <? v x) && (v x <? const c2 (Z.to_nat col_length)))
      0 num_vals)).
Proof.
  intros Hc Hn HR Hl v. unfold main.
  destruct (init_masks_ok base col_length num_vals c1 c2 R Hc Hn HR m (λ b, bit m (base b)) Hl) as (m1 & E1 & Hl1 & Hh1); [done|].
  rewrite E1. cbn [mbind res_mbind].
  destruct (iteration_ok base col_length num_vals c1 c2 R Hc Hn HR m1 _ Hl1 Hh1) as (m2 & f2 & E2 & Hl2 & Hh2 & Hm2).
  rewrite E2. cbn [mbind res_mbind].
  destruct (iteration_ok base col_length num_vals c1 c2 R Hc Hn HR m2 _ Hl2 Hh2) as (m3 & f3 & E3 & _ & _ & Hm3).
  rewrite E3. cbn [mbind res_mbind]. unfold mret, res_mret. do 2 f_equal. apply cnt_ext. intros x _.
  rewrite (masks_twice c1 c2 _ _ _ _ Hm2 Hm3) by done. simpl.
  replace (value (start_bits (λ b, bit m (base b))) x (Z.to_nat col_length)) with (v x) by (by apply value_ext).
  destruct (x mod 32 =? 0), (_ <? v x), (v x <? _); done.
Qed.

(** Two columns of one row each in zeroed memory. *)
Definition base_ex (b : buf) : Z :=
  match b with
  | Vals j => (7 + j) * ROW_SIZE
  | Meq1 => 0 | Meq2 => ROW_SIZE | Mlt => 2 * ROW_SIZE | Mgt => 3 * ROW_SIZE | Neg => 4 * ROW_SIZE
  | Tmp => 5 * ROW_SIZE | Output => 6 * ROW_SIZE
  end.

Lemma bitweave_query_counts_witness :
  main base_ex 2 65536 0 3 (uniform (9 * ROW_SIZE) 0) =
    Ok (u32 (cnt (λ x, (x mod 32 =? 0) && (0 <? value (λ b, bit (uniform (9 * ROW_SIZE) 0) (base_ex b)) x 2) &&
      (value (λ b, bit (uniform (9 * ROW_SIZE) 0) (base_ex b)) x 2 <? 3)) 0 65536)).
Proof.
  apply (bitweave_query_counts base_ex 2 65536 0 3 1); [lia|reflexivity|lia|]. split.
  - apply uniform_bytes_ok. lia.
  - intros b Hb. apply uniform_mapped; destruct b; unfold live, base_ex, ROW_SIZE in *; lia.
  - intros b b' Hb Hb' Hne. unfold live, base_ex, ROW_SIZE in *. destruct b, b'; try congruence; try lia.
    assert (j ≠ j0) by congruence. lia.
Defined.
