(* ===== verification/Sad.v ===== *)
(** * The sum of absolute differences (microworkloads/sad_plus.c)

    The workload adds vectors of integers inside the rows: a parallel-prefix adder made of
    bulk AND, OR, XOR and shifts, two's complement and absolute value on top of it, and a
    sum over the elements.  Each lane of a row is one 32-bit integer. *)

From stdpp Require Import base gmap list list_numbers.
From S2P Require Import Prelude AbstractMem Packets RowMem.
Import Request HostMem RowOps.
Local Open Scope Z_scope.

Module Sad.

(** The memory of the program, and the addresses the allocator is going to return; when
    they run out, the allocation fails and the pointer, which the program uses anyway, is
    indeterminate. *)
Record St := mkSt { mem : hostmem; heap : list Z }.
Definition posix_memalign (s : St) : res (Z * St) :=
  match heap s with a :: l => mret (a, mkSt (mem s) l) | [] => Err UB end.

Definition rowop (o : RowOp) (d s1 s2 : Z) (s : St) : res St :=
  m ← do_rowop o (mem s) d s1 s2; mret (mkSt m (heap s)).
Definition rowop_and : Z → Z → Z → St → res St := rowop ROWAND.
Definition rowop_or : Z → Z → Z → St → res St := rowop ROWOR.
Definition rowop_xor : Z → Z → Z → St → res St := rowop ROWXOR.
Definition rowop_not (d s : Z) : St → res St := rowop ROWNOT d s s.
Definition rowop_aap (d s : Z) : St → res St := rowop ROWAAP d s s.
Definition rowop_shift (d s : Z) : St → res St := rowop ROWLS d s s.
Definition rowop_shift_right (d s : Z) : St → res St := rowop ROWRS d s s.

(** [for (int shift = a; shift < bound; shift *= 2)]: the values of [shift]; an [int] is
    doubled at most 31 times. *)
Fixpoint doublings (fuel : nat) (shift bound : Z) : list Z :=
  match fuel with
  | O => []
  | S fuel => if shift <? bound then shift :: doublings fuel (2 * shift) bound else []
  end.
Definition for_doubling (a bound : Z) : list Z := doublings 31 a bound.

Definition rowop_shift_n_mask (d s N mask : Z) (st : St) : res St :=
  foldM (λ st cnt, st ← rowop_shift d (if cnt =? 0 then s else s) st; rowop_and d d mask st) st (seqZ 0 N).

(** [for (int i = 0; i < row_bytes/(N/8)*(N/32); i ++) p[i] = v;] *)
Definition fill (p N row_bytes v : Z) (st : St) : res St :=
  if Z.quot N 8 =? 0 then Err UB
  else foldM (λ st i, m ← store32 (mem st) (p + 4 * i) v; mret (mkSt m (heap st))) st
         (seqZ 0 (Z.quot row_bytes (Z.quot N 8) * Z.quot N 32)).

(** The local buffers of [row_add]. *)
Record Bufs := mkBufs {
  mask : Z; and0 : Z; xor0 : Z; andN : Z; orN : Z; andNshift : Z; orNshift : Z; andTemp : Z; andNCopy : Z;
}.

(** The body of its loop. *)
Definition add_round (b : Bufs) (st : St) (shift : Z) : res St :=
  if shift =? 1 then
    st ← rowop_shift_n_mask (orNshift b) (and0 b) shift (mask b) st;
    st ← rowop_shift_n_mask (andNshift b) (xor0 b) shift (mask b) st;
    st ← rowop_aap (andNCopy b) (and0 b) st;
    st ← rowop_and (andTemp b) (xor0 b) (andNshift b) st;
    st ← rowop_and (andN b) (xor0 b) (orNshift b) st;
    rowop_or (orN b) (andNCopy b) (andTemp b) st
  else
    st ← rowop_shift_n_mask (orNshift b) (orN b) shift (mask b) st;
    st ← rowop_shift_n_mask (andNshift b) (andN b) shift (mask b) st;
    st ← rowop_and (andTemp b) (andN b) (orNshift b) st;
    st ← rowop_and (andN b) (andN b) (andNshift b) st;
    rowop_or (orN b) (orN b) (orNshift b) st.

Definition row_add (d s1 s2 N row_bytes : Z) (st : St) : res St :=
  '(mask, st) ← posix_memalign st;
  st ← fill mask N row_bytes (u32 (Z.lnot 1)) st;
  '(and0, st) ← posix_memalign st;
  '(xor0, st) ← posix_memalign st;
  st ← rowop_and and0 s1 s2 st;
  st ← rowop_xor xor0 s1 s2 st;
  '(andN, st) ← posix_memalign st;
  '(orN, st) ← posix_memalign st;
  '(andNshift, st) ← posix_memalign st;
  '(orNshift, st) ← posix_memalign st;
  '(andTemp, st) ← posix_memalign st;
  '(andNCopy, st) ← posix_memalign st;
  let b := mkBufs mask and0 xor0 andN orN andNshift orNshift andTemp andNCopy in
  st ← foldM (add_round b) st (for_doubling 1 N);
  st ← rowop_shift_n_mask orNshift orN 1 mask st;
  rowop_xor d xor0 orNshift st.

Definition row_twos_comp (d s N row_bytes : Z) (st : St) : res St :=
  '(ones, st) ← posix_memalign st;
  st ← fill ones N row_bytes 1 st;
  st ← rowop_not d s st;
  row_add d d ones N row_bytes st.

(** [1 << (N-1)] of type [int]; gcc defines the shift into the sign bit. *)
Definition row_abs_val (d s N row_bytes : Z) (st : St) : res St :=
  '(mask, st) ← posix_memalign st;
  _ ← (if (1 <=? N) && (N <=? 32) then mret () else Err UB);
  st ← fill mask N row_bytes (Z.shiftl 1 (N - 1)) st;
  '(sign_extend, st) ← posix_memalign st;
  st ← rowop_and sign_extend s mask st;
  st ← foldM (λ st _, st ← rowop_shift_right sign_extend sign_extend st; rowop_or mask mask sign_extend st) st (seqZ 0 N);
  st ← rowop_and sign_extend s mask st;
  st ← row_twos_comp sign_extend sign_extend N row_bytes st;
  st ← rowop_not mask mask st;
  st ← rowop_and d s mask st;
  rowop_or d d sign_extend st.

Definition row_reduce (d s N row_bytes : Z) (st : St) : res St :=
  '(temp, st) ← posix_memalign st;
  foldM (λ st shift,
      st ← foldM (λ st i, rowop_shift temp (if i =? 0 then (if shift =? N then s else d) else temp) st) st (seqZ 0 shift);
      row_add d d temp N row_bytes st) st (for_doubling N ROW_SIZE).

(** [abs(v)] of an [unsigned]: it is converted to [int] first. *)
Definition abs32 (v : Z) : res Z :=
  if v =? 2 ^ 31 then Err UB else mret (if v <? 2 ^ 31 then v else 2 ^ 32 - v).

(** The sums; the order in which the threads add their parts does not matter modulo 2^32. *)
Definition vec_red (m : hostmem) (vec len : Z) : res Z :=
  foldM (λ sum i, v ← load32 m (vec + 4 * i); mret (u32 (sum + v))) 0 (seqZ 0 len).
Definition vec_abs_val_red (m : hostmem) (vec len : Z) : res Z :=
  foldM (λ sum i, v ← load32 m (vec + 4 * i); a ← abs32 v; mret (u32 (sum + a))) 0 (seqZ 0 len).

(** [main] after its buffers have been allocated and filled: the printed result. *)
Definition main (SIZE DWIDTH SELECT vec1 vec2 output twoComp diff : Z) (st : St) : res Z :=
  let row_bytes := Z.quot (SIZE * DWIDTH) 8 in
  st ← row_twos_comp twoComp vec2 DWIDTH row_bytes st;
  st ← row_add diff vec1 twoComp DWIDTH row_bytes st;
  if SELECT =? 0 then
    st ← row_abs_val diff diff DWIDTH row_bytes st;
    st ← row_reduce output diff DWIDTH row_bytes st;
    load32 (mem st) output
  else if SELECT =? 1 then
    st ← row_abs_val diff diff DWIDTH row_bytes st;
    vec_red (mem st) diff SIZE
  else vec_abs_val_red (mem st) diff SIZE.

End Sad.
Import Sad.
#[local] Opaque do_rowop.

(** ** Lanes *)

Definition lane (m : hostmem) (a i : Z) : Z := little_endian_to_Z 8 (bytes_at m (a + 4 * i) 4).

Lemma lane_range m a i : bytes_ok m → 0 ≤ lane m a i < 2 ^ 32.
Proof.
  intros Hm. unfold lane. pose proof (little_endian_to_Z_bound 8 (bytes_at m (a + 4 * i) 4)) as H. rewrite length_bytes_at in H.
  apply H; [lia|]. by apply bytes_at_range.
Qed.

Lemma lane_testbit m a i b : bytes_ok m → 0 ≤ b < 32 → Z.testbit (lane m a i) b = bit m a (32 * i + b).
Proof. intros Hm Hb. unfold lane. rewrite bytes_testbit by (done || lia). rewrite bit_add. f_equal. lia. Qed.

Lemma lane_eq m a i v :
  bytes_ok m → 0 ≤ v < 2 ^ 32 → (∀ b, 0 ≤ b < 32 → bit m a (32 * i + b) = Z.testbit v b) → lane m a i = v.
Proof.
  intros Hm Hv H. apply Z.bits_inj'. intros b Hb. destruct (decide (b < 32)).
  - by rewrite lane_testbit, H by (done || lia).
  - pose proof (lane_range m a i Hm). by rewrite !(testbit_high 32) by lia.
Qed.

(** [v << 1] in a lane. *)
Definition shl1 (v : Z) : Z := u32 (2 * v).
Definition not32 (v : Z) : Z := u32 (Z.lnot v).

Lemma shl1_testbit v b : 0 ≤ b < 32 → Z.testbit (shl1 v) b = (0 <? b) && Z.testbit v (b - 1).
Proof.
  intros Hb. unfold shl1. rewrite wrap_testbit by lia. rewrite (proj2 (Z.ltb_lt b 32)) by lia. simpl.
  destruct (Z.ltb_spec 0 b); [by rewrite Z.double_bits by lia|]. replace b with 0 by lia. apply Z.testbit_even_0.
Qed.

Lemma low_bit_mask b : 0 ≤ b < 32 → Z.testbit (u32 (Z.lnot 1)) b = (0 <? b).
Proof.
  intros Hb. rewrite wrap_testbit by lia. rewrite (proj2 (Z.ltb_lt b 32)), Z.lnot_spec by lia. simpl.
  destruct (Z.ltb_spec 0 b); [|by replace b with 0 by lia]. change 1 with (2 ^ 0). by rewrite Z.pow2_bits_false by lia.
Qed.

(** ** The state of the buffers *)

Section lanes.
(** The buffers in use, the lanes the program cares about, and the memory at the start. *)
Context (L : list Z) (n : Z) (m0 : hostmem).
Hypothesis Hn : 0 ≤ n ≤ 2048.

Definition in_row (b x : Z) : Prop := b ≤ x < b + ROW_SIZE.

Record holds_lanes (V : Z → Z → Z) (m : hostmem) : Prop := {
  hl_bytes : bytes_ok m;
  hl_mapped b : b ∈ L → mapped m b ROW_SIZE;
  hl_apart b b' : b ∈ L → b' ∈ L → b ≠ b' → b + ROW_SIZE ≤ b' ∨ b' + ROW_SIZE ≤ b;
  hl_lane b i : b ∈ L → 0 ≤ i < n → lane m b i = V b i;
  hl_frame x : (∀ b, b ∈ L → ¬ in_row b x) → m !! x = m0 !! x;
}.

Definition upd (d : Z) (f : Z → Z) (V : Z → Z → Z) : Z → Z → Z := λ b, if decide (b = d) then f else V b.
Lemma upd_eq d f V i : upd d f V d i = f i.
Proof using Type. unfold upd. by rewrite decide_True. Qed.
Lemma upd_ne d f V b i : b ≠ d → upd d f V b i = V b i.
Proof using Type. intros. unfold upd. by rewrite decide_False. Qed.

Lemma holds_lanes_ext V V' m : (∀ b i, b ∈ L → 0 ≤ i < n → V b i = V' b i) → holds_lanes V m → holds_lanes V' m.
Proof using Type. intros E []. split; try done. intros b i Hb Hi. by rewrite <- E, hl_lane0. Qed.

(** A write of the row of [d]. *)
Lemma row_written V m m' d f :
  holds_lanes V m → d ∈ L → row_frame m m' d 1024 → (∀ i, 0 ≤ i < n → lane m' d i = f i) → holds_lanes (upd d f V) m'.
Proof using Hn.
  intros [Hb Hm Ha Hl Hf] Hd Hr Hlane. split.
  - by apply (rf_bytes _ _ _ _ Hr).
  - intros b ?. apply (rf_mapped _ _ _ _ Hr). auto.
  - done.
  - intros b i Hbl Hi. destruct (decide (b = d)) as [->|Hne]; [rewrite upd_eq; auto|]. rewrite upd_ne, <- Hl by done.
    unfold lane. f_equal. apply bytes_at_ext. intros k Hk. apply (rf_outside _ _ _ _ Hr).
    destruct (Ha b d Hbl Hd Hne); unfold ROW_SIZE in *; lia.
  - intros x Hx. rewrite <- (Hf x Hx). apply (rf_outside _ _ _ _ Hr). apply (Hx d Hd).
Qed.

Lemma rows_safe V m a b : holds_lanes V m → a ∈ L → b ∈ L → fwd_safe a b row_words.
Proof using Type.
  intros [_ _ Ha _ _] H1 H2. unfold fwd_safe. destruct (decide (a = b)) as [->|Hne]; [left; lia|].
  change (8 * Z.of_nat row_words) with ROW_SIZE. destruct (Ha a b H1 H2 Hne); [left; unfold ROW_SIZE in *; lia|by right].
Qed.

(** The element-wise operations on lanes. *)
Definition op_lane (o : RowOp) (x y : Z) : Z :=
  match o with
  | ROWAND => Z.land x y | ROWOR => Z.lor x y | ROWXOR => Z.lxor x y | ROWNOT => not32 x | _ => x
  end.

Lemma op_lane_ok o g x y :
  rowop_bit o = Some g → 0 ≤ x < 2 ^ 32 → 0 ≤ y < 2 ^ 32 →
  0 ≤ op_lane o x y < 2 ^ 32 ∧ ∀ b, 0 ≤ b < 32 → Z.testbit (op_lane o x y) b = g (Z.testbit x b) (Z.testbit y b).
Proof using Type.
  intros Hg Hx Hy. assert (∀ v, 0 ≤ v → (∀ b, 32 ≤ b → Z.testbit v b = false) → 0 ≤ v < 2 ^ 32) as Hrange.
  { intros v Hv H. split; [done|]. destruct (Z.eq_dec v 0) as [->|]; [lia|]. apply Z.log2_lt_pow2; [lia|].
    destruct (Z.lt_ge_cases (Z.log2 v) 32) as [|Hge]; [done|]. specialize (H _ Hge). rewrite Z.bit_log2 in H by lia. done. }
  destruct o; simpl in Hg |- *; simplify_eq; (split; [|intros b Hb; rewrite ?Z.land_spec, ?Z.lor_spec, ?Z.lxor_spec; try done]).
  - apply Hrange; [apply Z.land_nonneg; lia|]. intros b Hb. by rewrite Z.land_spec, (testbit_high 32 x) by lia.
  - apply Hrange; [apply Z.lor_nonneg; lia|]. intros b Hb. by rewrite Z.lor_spec, (testbit_high 32 x), (testbit_high 32 y) by lia.
  - unfold not32. apply wrap_range. lia.
  - unfold not32. rewrite wrap_testbit by lia. by rewrite (proj2 (Z.ltb_lt b 32)), Z.lnot_spec by lia.
  - apply Hrange; [apply Z.lxor_nonneg; lia|]. intros b Hb. by rewrite Z.lxor_spec, (testbit_high 32 x), (testbit_high 32 y) by lia.
  - done.
Qed.

Lemma rowop_ok o g d s1 s2 V st :
  rowop_bit o = Some g → holds_lanes V (mem st) → d ∈ L → s1 ∈ L → s2 ∈ L →
  ∃ st', rowop o d s1 s2 st = Ok st' ∧ heap st' = heap st ∧ holds_lanes (upd d (λ i, op_lane o (V s1 i) (V s2 i)) V) (mem st').
Proof using Hn.
  intros Hg Hh Hd H1 H2. unfold rowop. pose proof (hl_bytes _ _ Hh) as Hb.
  destruct (do_rowop_bits o g (mem st) d s1 s2 Hg Hb) as (m' & -> & Hf & Hbit);
    [by apply (hl_mapped _ _ Hh)..|by eapply rows_safe|split; [by apply (hl_mapped _ _ Hh)|by eapply rows_safe]|].
  eexists. split; [reflexivity|]. split; [done|]. simpl. apply (row_written V (mem st)); [done..|]. intros i Hi.
  rewrite <- !(hl_lane _ _ Hh) by done.
  destruct (op_lane_ok o g (lane (mem st) s1 i) (lane (mem st) s2 i) Hg) as [Hr Ht]; [by apply lane_range..|].
  apply lane_eq; [by apply (rf_bytes _ _ _ _ Hf)|done|]. intros b Hbb. rewrite Ht by done.
  rewrite !lane_testbit by done. apply Hbit. unfold row_bits, ROW_SIZE. lia.
Qed.

(** A shift by one and the mask of the lowest bit: a shift of every lane. *)
Lemma shift_mask_ok d s k V st :
  holds_lanes V (mem st) → d ∈ L → s ∈ L → k ∈ L → d ≠ s → d ≠ k → (∀ i, 0 ≤ i < n → V k i = u32 (Z.lnot 1)) →
  ∃ st', (st ← rowop_shift d s st; rowop_and d d k st) = Ok st' ∧ heap st' = heap st ∧
    holds_lanes (upd d (λ i, shl1 (V s i)) V) (mem st').
Proof using Hn.
  intros Hh Hd Hs Hk Hds Hdk Hmask. unfold rowop_shift, rowop at 1. pose proof (hl_bytes _ _ Hh) as Hb.
  destruct (do_rowls_bits (mem st) d s Hb) as (m1 & -> & Hf & Hbit); [by apply (hl_mapped _ _ Hh)..|by apply (hl_apart _ _ Hh)|].
  cbn [mbind res_mbind mret res_mret].
  assert (holds_lanes (upd d (lane m1 d) V) m1) as Hh1 by (by apply (row_written V (mem st))).
  destruct (rowop_ok ROWAND andb d d k _ (mkSt m1 (heap st)) eq_refl Hh1 Hd Hd Hk) as (st' & E & Eh & Hh').
  exists st'. split; [exact E|]. split; [done|]. revert Hh'. apply holds_lanes_ext. intros b i Hbl Hi.
  destruct (decide (b = d)) as [->|Hne]; [|by rewrite !upd_ne by done]. rewrite !upd_eq, upd_ne, Hmask by done. simpl.
  pose proof (rf_bytes _ _ _ _ Hf Hb) as Hb1. pose proof (lane_range m1 d i Hb1) as Hr. unfold shl1.
  apply Z.bits_inj'. intros c Hc. destruct (decide (c < 32)).
  - change (u32 (2 * V s i)) with (shl1 (V s i)).
    rewrite Z.land_spec, low_bit_mask, shl1_testbit, lane_testbit, Hbit, <- (hl_lane _ _ Hh) by (done || lia || unfold row_bits, ROW_SIZE; lia).
    destruct (Z.ltb_spec 0 c); [|by rewrite andb_false_r]. rewrite (proj2 (Z.ltb_lt 0 (32 * i + c))), lane_testbit, andb_true_r by (done || lia).
    simpl. f_equal. lia.
  - rewrite Z.land_spec, (testbit_high 32 (lane m1 d i)) by lia. simpl. symmetry.
    apply (testbit_high 32); [apply wrap_range; lia|lia].
Qed.

(** However often it is repeated: every round starts from [s] again. *)
Lemma rowop_shift_n_mask_ok d s N k V st :
  1 ≤ N → holds_lanes V (mem st) → d ∈ L → s ∈ L → k ∈ L → d ≠ s → d ≠ k → (∀ i, 0 ≤ i < n → V k i = u32 (Z.lnot 1)) →
  ∃ st', rowop_shift_n_mask d s N k st = Ok st' ∧ heap st' = heap st ∧ holds_lanes (upd d (λ i, shl1 (V s i)) V) (mem st').
Proof using Hn.
  intros HN Hh Hd Hs Hk Hds Hdk Hmask. unfold rowop_shift_n_mask.
  destruct (foldM_ok (λ l st', heap st' = heap st ∧ (l = [] → holds_lanes V (mem st')) ∧ (l ≠ [] → holds_lanes (upd d (λ i, shl1 (V s i)) V) (mem st')))
    (λ st cnt, st ← rowop_shift d (if cnt =? 0 then s else s) st; rowop_and d d k st) (seqZ 0 N) st) as (st' & E & Eh & _ & Hh').
  - done.
  - intros l1 c l2 st1 _ (Eh & H0 & H1). replace (if c =? 0 then s else s) with s by (by destruct (c =? 0)).
    assert (∃ V1, holds_lanes V1 (mem st1) ∧ ∀ b i, b ≠ d → V1 b i = V b i) as (V1 & Hh1 & HV).
    { destruct l1; [exists V; split; [by apply H0|done]|]. eexists. split; [by apply H1|]. intros b i ?. by apply upd_ne. }
    destruct (shift_mask_ok d s k V1 st1) as (st' & E & Eh' & Hh'); try done.
    { intros i Hi. rewrite HV by done. auto. }
    exists st'. split; [done|]. split; [congruence|]. split; [by destruct l1|]. intros _. revert Hh'. apply holds_lanes_ext.
    intros b i _ _. destruct (decide (b = d)) as [->|]; [by rewrite !upd_eq, HV|]. by rewrite !upd_ne, HV.
  - exists st'. split; [done|]. split; [done|]. apply Hh'. intros E0. apply (f_equal length) in E0. rewrite length_seqZ in E0. simpl in E0. lia.
Qed.

(** A store to one lane, and to all of them. *)
Lemma store_lane_ok p i v V m :
  holds_lanes V m → p ∈ L → 0 ≤ i < n → 0 ≤ v < 2 ^ 32 →
  ∃ m', store32 m (p + 4 * i) v = Ok m' ∧ holds_lanes (upd p (λ j, if j =? i then v else V p j) V) m'.
Proof using Hn.
  intros Hh Hp Hi Hv. unfold store32. pose proof (length_Z_to_little_endian 4 8 v ltac:(lia)) as Hlen.
  assert (Z.of_nat (length (Z_to_little_endian 4 8 v)) = 4) as Hlen' by lia.
  destruct (store_bytes_ok m (p + 4 * i) (Z_to_little_endian 4 8 v)) as (m' & -> & Hpat).
  { rewrite Hlen'. eapply mapped_mono; [by apply (hl_mapped _ _ Hh p)|lia|unfold ROW_SIZE; lia]. }
  exists m'. split; [done|].
  assert (∀ x, ¬ p + 4 * i ≤ x < p + 4 * i + 4 → m' !! x = m !! x) as Hout.
  { intros x Hx. rewrite Hpat, decide_False; [done|]. by rewrite Hlen'. }
  apply (row_written V m); [done|done| |].
  - split; [intros x Hx; apply Hout; lia|intros b k; by eapply patched_mapped|].
    intros Hb. eapply patched_bytes_ok; [done|done|]. apply (Z_to_little_endian_bound 4 8 v); lia.
  - intros j Hj. unfold lane. destruct (Z.eqb_spec j i) as [->|Hne].
    + pose proof (patched_bytes_at _ _ _ _ Hpat) as Hba. replace (length (Z_to_little_endian 4 8 v)) with 4%nat in Hba by lia.
      rewrite Hba, little_endian_to_Z_to_little_endian by lia. by rewrite Z.mod_small.
    + rewrite <- (hl_lane _ _ Hh) by done. unfold lane. f_equal. apply bytes_at_ext. intros k Hk. apply Hout. lia.
Qed.

Lemma fill_ok p v V st :
  holds_lanes V (mem st) → p ∈ L → 0 ≤ v < 2 ^ 32 →
  ∃ st', fill p 32 (4 * n) v st = Ok st' ∧ heap st' = heap st ∧ holds_lanes (upd p (λ _, v) V) (mem st').
Proof using Hn.
  intros Hh Hp Hv. unfold fill. change (Z.quot 32 8) with 4. change (4 =? 0) with false. change (Z.quot 32 32) with 1. cbv iota.
  rewrite Z.mul_1_r, (Z.mul_comm 4 n), Z.quot_mul by lia.
  destruct (foldM_ok (λ l st', heap st' = heap st ∧ holds_lanes (upd p (λ j, if j <? Z.of_nat (length l) then v else V p j) V) (mem st'))
    (λ st i, m ← store32 (mem st) (p + 4 * i) v; mret (mkSt m (heap st))) (seqZ 0 n) st) as (st' & E & Eh & Hh').
  - split; [done|]. revert Hh. apply holds_lanes_ext. intros b j _ Hj. unfold upd. case_decide as D; [subst|done].
    by rewrite (proj2 (Z.ltb_ge j _)) by (simpl; lia).
  - intros l1 i l2 st1 El [Eh Hh1].
    assert (seqZ 0 n !! length l1 = Some i) as Hlk by (rewrite El; by apply list_lookup_middle).
    apply lookup_seqZ in Hlk as [-> Hlt]. rewrite Z.add_0_l.
    destruct (store_lane_ok p (Z.of_nat (length l1)) v _ _ Hh1 Hp) as (m' & -> & Hh2); [lia|done|]. cbn [mbind res_mbind].
    eexists. split; [reflexivity|]. split; [done|]. revert Hh2. apply holds_lanes_ext. intros b j _ Hj. unfold upd.
    destruct (decide (b = p)); [|done]. rewrite decide_True, length_app by done. simpl.
    destruct (Z.eqb_spec j (Z.of_nat (length l1))), (Z.ltb_spec j (Z.of_nat (length l1))), (Z.ltb_spec j (Z.of_nat (length l1 + 1))); done || lia.
  - exists st'. split; [done|]. split; [done|]. revert Hh'. apply holds_lanes_ext. intros b j _ Hj. unfold upd.
    destruct (decide (b = p)); [|done]. rewrite length_seqZ, (proj2 (Z.ltb_lt j _)) by lia. done.
Qed.

(** Both as a change of one buffer. *)
Definition changed (d : Z) (f : Z → Z) (V V' : Z → Z → Z) : Prop := (∀ i, V' d i = f i) ∧ ∀ c i, c ≠ d → V' c i = V c i.

Lemma changed_upd d f V : changed d f V (upd d f V).
Proof using Type. split; [intros i; apply upd_eq|intros c i; apply upd_ne]. Qed.

Lemma lanes_step o g d s1 s2 V st :
  rowop_bit o = Some g → holds_lanes V (mem st) → d ∈ L → s1 ∈ L → s2 ∈ L →
  ∃ st' V', rowop o d s1 s2 st = Ok st' ∧ heap st' = heap st ∧ holds_lanes V' (mem st') ∧ changed d (λ i, op_lane o (V s1 i) (V s2 i)) V V'.
Proof using Hn.
  intros Hg Hh Hd H1 H2. destruct (rowop_ok o g d s1 s2 V st Hg Hh Hd H1 H2) as (st' & E & Eh & Hh').
  exists st', (upd d (λ i, op_lane o (V s1 i) (V s2 i)) V). split_and!; try done; apply changed_upd.
Qed.

Lemma shift_step d s N k V st :
  1 ≤ N → holds_lanes V (mem st) → d ∈ L → s ∈ L → k ∈ L → d ≠ s → d ≠ k → (∀ i, 0 ≤ i < n → V k i = u32 (Z.lnot 1)) →
  ∃ st' V', rowop_shift_n_mask d s N k st = Ok st' ∧ heap st' = heap st ∧ holds_lanes V' (mem st') ∧ changed d (λ i, shl1 (V s i)) V V'.
Proof using Hn.
  intros HN Hh Hd Hs Hk Hds Hdk Hm. destruct (rowop_shift_n_mask_ok d s N k V st HN Hh Hd Hs Hk Hds Hdk Hm) as (st' & E & Eh & Hh').
  exists st', (upd d (λ i, shl1 (V s i)) V). split_and!; try done; apply changed_upd.
Qed.

Lemma fill_step p v V st :
  holds_lanes V (mem st) → p ∈ L → 0 ≤ v < 2 ^ 32 →
  ∃ st' V', fill p 32 (4 * n) v st = Ok st' ∧ heap st' = heap st ∧ holds_lanes V' (mem st') ∧ changed p (λ _, v) V V'.
Proof using Hn.
  intros Hh Hp Hv. destruct (fill_ok p v V st Hh Hp Hv) as (st' & E & Eh & Hh'). exists st', (upd p (λ _, v) V).
  split_and!; try done; apply changed_upd.
Qed.

(** ** The adder *)

Lemma Bufs_eta c : mkBufs (mask c) (and0 c) (xor0 c) (andN c) (orN c) (andNshift c) (orNshift c) (andTemp c) (andNCopy c) = c.
Proof using Type. by destruct c. Qed.

Section adder.
Context (b : Bufs).
Definition buf_list : list Z := [mask b; and0 b; xor0 b; andN b; orN b; andNshift b; orNshift b; andTemp b; andNCopy b].
Hypothesis (Hnd : NoDup buf_list) (Hin : buf_list ⊆ L).

(** What the rounds leave alone. *)
Definition kept (V V' : Z → Z → Z) : Prop :=
  ∀ c i, c ∉ [andN b; orN b; andNshift b; orNshift b; andTemp b; andNCopy b] → V' c i = V c i.

(** The carries after the first round, as the code computes them. *)
Definition first_carry (a c : Z) : Z := Z.lor (Z.land a c) (Z.land (Z.lxor a c) (shl1 (Z.lxor a c))).

Lemma bufs_live :
  mask b ∈ L ∧ and0 b ∈ L ∧ xor0 b ∈ L ∧ andN b ∈ L ∧ orN b ∈ L ∧ andNshift b ∈ L ∧ orNshift b ∈ L ∧ andTemp b ∈ L ∧ andNCopy b ∈ L.
Proof using All. clear Hnd. repeat split; apply Hin; unfold buf_list; rewrite !elem_of_cons; auto 20. Qed.

Lemma bufs_differ :
  (mask b ≠ and0 b ∧ mask b ≠ xor0 b ∧ mask b ≠ andN b ∧ mask b ≠ orN b ∧ mask b ≠ andNshift b ∧ mask b ≠ orNshift b ∧ mask b ≠ andTemp b ∧ mask b ≠ andNCopy b) ∧
  (and0 b ≠ xor0 b ∧ and0 b ≠ andN b ∧ and0 b ≠ orN b ∧ and0 b ≠ andNshift b ∧ and0 b ≠ orNshift b ∧ and0 b ≠ andTemp b ∧ and0 b ≠ andNCopy b) ∧
  (xor0 b ≠ andN b ∧ xor0 b ≠ orN b ∧ xor0 b ≠ andNshift b ∧ xor0 b ≠ orNshift b ∧ xor0 b ≠ andTemp b ∧ xor0 b ≠ andNCopy b) ∧
  (andN b ≠ orN b ∧ andN b ≠ andNshift b ∧ andN b ≠ orNshift b ∧ andN b ≠ andTemp b ∧ andN b ≠ andNCopy b) ∧
  (orN b ≠ andNshift b ∧ orN b ≠ orNshift b ∧ orN b ≠ andTemp b ∧ orN b ≠ andNCopy b) ∧
  (andNshift b ≠ orNshift b ∧ andNshift b ≠ andTemp b ∧ andNshift b ≠ andNCopy b) ∧
  (orNshift b ≠ andTemp b ∧ orNshift b ≠ andNCopy b) ∧
  (andTemp b ≠ andNCopy b).
Proof using All. clear Hin. pose proof Hnd as H. unfold buf_list in H. repeat rewrite NoDup_cons in H. repeat rewrite not_elem_of_cons in H.
  destruct_and! H. repeat split; assumption. Qed.

Ltac distinct :=
  pose proof bufs_live as D; destruct_and! D; pose proof bufs_differ as D; destruct_and! D.
Ltac lanes :=
  repeat match goal with
  | H : ∀ i, ?V ?d i = _ |- context [?V ?d _] => rewrite H
  | H : ∀ c i, c ≠ _ → ?V c i = _ |- context [?V ?c _] => rewrite (H c) by done
  end.

Lemma first_round_ok V st :
  holds_lanes V (mem st) → (∀ i, 0 ≤ i < n → V (mask b) i = u32 (Z.lnot 1)) →
  ∃ st' V', add_round b st 1 = Ok st' ∧ heap st' = heap st ∧ holds_lanes V' (mem st') ∧ kept V V' ∧
    ∀ i, V' (orN b) i = Z.lor (V (and0 b) i) (Z.land (V (xor0 b) i) (shl1 (V (xor0 b) i))).
Proof using All.
  intros Hh Hm. distinct. unfold add_round, rowop_aap, rowop_and, rowop_or. change (1 =? 1) with true. cbv iota.
  destruct (shift_step (orNshift b) (and0 b) 1 (mask b) V st) as (s1 & V1 & Q1 & E1 & G1 & O1 & K1); [lia|done|assumption..|done|done|done|].
  destruct (shift_step (andNshift b) (xor0 b) 1 (mask b) V1 s1 ltac:(lia) G1) as (s2 & V2 & Q2 & E2 & G2 & O2 & K2);
    [assumption..|done|done|intros i Hi; lanes; auto|].
  destruct (lanes_step ROWAAP _ (andNCopy b) (and0 b) (and0 b) V2 s2 eq_refl G2) as (s3 & V3 & Q3 & E3 & G3 & O3 & K3); [assumption..|].
  destruct (lanes_step ROWAND _ (andTemp b) (xor0 b) (andNshift b) V3 s3 eq_refl G3) as (s4 & V4 & Q4 & E4 & G4 & O4 & K4); [assumption..|].
  destruct (lanes_step ROWAND _ (andN b) (xor0 b) (orNshift b) V4 s4 eq_refl G4) as (s5 & V5 & Q5 & E5 & G5 & O5 & K5); [assumption..|].
  destruct (lanes_step ROWOR _ (orN b) (andNCopy b) (andTemp b) V5 s5 eq_refl G5) as (s6 & V6 & Q6 & E6 & G6 & O6 & K6); [assumption..|].
  exists s6, V6. rewrite (bind_Ok _ _ _ Q1), (bind_Ok _ _ _ Q2). rewrite (bind_Ok _ _ _ Q3). rewrite (bind_Ok _ _ _ Q4).
  rewrite (bind_Ok _ _ _ Q5). split; [exact Q6|]. split; [congruence|]. split; [exact G6|]. split.
  - intros c i Hc. repeat rewrite not_elem_of_cons in Hc. destruct_and! Hc. by lanes.
  - intros i. rewrite O6. cbn [op_lane]. by lanes.
Qed.

Lemma next_round_ok V st shift :
  1 < shift → holds_lanes V (mem st) → (∀ i, 0 ≤ i < n → V (mask b) i = u32 (Z.lnot 1)) →
  ∃ st' V', add_round b st shift = Ok st' ∧ heap st' = heap st ∧ holds_lanes V' (mem st') ∧ kept V V' ∧
    ∀ i, V' (orN b) i = Z.lor (V (orN b) i) (shl1 (V (orN b) i)).
Proof using All.
  intros Hs Hh Hm. distinct. unfold add_round, rowop_and, rowop_or. rewrite (proj2 (Z.eqb_neq shift 1)) by lia.
  destruct (shift_step (orNshift b) (orN b) shift (mask b) V st) as (s1 & V1 & Q1 & E1 & G1 & O1 & K1); [lia|done|assumption..|done|done|done|].
  destruct (shift_step (andNshift b) (andN b) shift (mask b) V1 s1 ltac:(lia) G1) as (s2 & V2 & Q2 & E2 & G2 & O2 & K2);
    [assumption..|done|done|intros i Hi; lanes; auto|].
  destruct (lanes_step ROWAND _ (andTemp b) (andN b) (orNshift b) V2 s2 eq_refl G2) as (s3 & V3 & Q3 & E3 & G3 & O3 & K3); [assumption..|].
  destruct (lanes_step ROWAND _ (andN b) (andN b) (andNshift b) V3 s3 eq_refl G3) as (s4 & V4 & Q4 & E4 & G4 & O4 & K4); [assumption..|].
  destruct (lanes_step ROWOR _ (orN b) (orN b) (orNshift b) V4 s4 eq_refl G4) as (s5 & V5 & Q5 & E5 & G5 & O5 & K5); [assumption..|].
  exists s5, V5. rewrite (bind_Ok _ _ _ Q1), (bind_Ok _ _ _ Q2). rewrite (bind_Ok _ _ _ Q3). rewrite (bind_Ok _ _ _ Q4).
  split; [exact Q5|]. split; [congruence|]. split; [exact G5|]. split.
  - intros c i Hc. repeat rewrite not_elem_of_cons in Hc. destruct_and! Hc. by lanes.
  - intros i. rewrite O5. cbn [op_lane]. by lanes.
Qed.

(** The carries after the last round. *)
Definition carries (a c : Z) : Z := Nat.iter 4 (λ o, Z.lor o (shl1 o)) (first_carry a c).

Lemma kept_trans V1 V2 V3 : kept V1 V2 → kept V2 V3 → kept V1 V3.
Proof using Type. intros H12 H23 c i Hc. by rewrite H23, H12. Qed.

Lemma kept_mask V V' : kept V V' → (∀ i, 0 ≤ i < n → V (mask b) i = u32 (Z.lnot 1)) → ∀ i, 0 ≤ i < n → V' (mask b) i = u32 (Z.lnot 1).
Proof using All. intros Hk H i Hi. distinct. rewrite Hk; [auto|]. repeat rewrite not_elem_of_cons. split_and!; done || apply not_elem_of_nil. Qed.

Lemma next_rounds_ok l V st :
  Forall (λ s, 1 < s) l → holds_lanes V (mem st) → (∀ i, 0 ≤ i < n → V (mask b) i = u32 (Z.lnot 1)) →
  ∃ st' V', foldM (add_round b) st l = Ok st' ∧ heap st' = heap st ∧ holds_lanes V' (mem st') ∧ kept V V' ∧
    ∀ i, V' (orN b) i = Nat.iter (length l) (λ o, Z.lor o (shl1 o)) (V (orN b) i).
Proof using All.
  intros Hl. revert V st. induction Hl as [|s l Hs _ IH]; intros V st Hh Hm.
  - exists st, V. by split_and!.
  - destruct (next_round_ok V st s Hs Hh Hm) as (s1 & V1 & E1 & Eh1 & G1 & K1 & O1).
    destruct (IH V1 s1 G1 (kept_mask _ _ K1 Hm)) as (s2 & V2 & E2 & Eh2 & G2 & K2 & O2).
    exists s2, V2. cbn [foldM length]. rewrite (bind_Ok _ _ _ E1). split; [done|]. split; [congruence|]. split; [done|].
    split; [by eapply kept_trans|]. intros i. by rewrite O2, O1, Nat.iter_succ_r.
Qed.

Lemma add_rounds_ok V st :
  holds_lanes V (mem st) → (∀ i, 0 ≤ i < n → V (mask b) i = u32 (Z.lnot 1)) →
  ∃ st' V', foldM (add_round b) st (for_doubling 1 32) = Ok st' ∧ heap st' = heap st ∧ holds_lanes V' (mem st') ∧ kept V V' ∧
    ∀ i, V' (orN b) i = Nat.iter 4 (λ o, Z.lor o (shl1 o)) (Z.lor (V (and0 b) i) (Z.land (V (xor0 b) i) (shl1 (V (xor0 b) i)))).
Proof using All.
  intros Hh Hm. change (for_doubling 1 32) with [1; 2; 4; 8; 16].
  destruct (first_round_ok V st Hh Hm) as (s1 & V1 & E1 & Eh1 & G1 & K1 & O1).
  destruct (next_rounds_ok [2; 4; 8; 16] V1 s1) as (s2 & V2 & E2 & Eh2 & G2 & K2 & O2); [repeat constructor; lia|done|by eapply kept_mask|].
  exists s2, V2. cbn [foldM]. rewrite (bind_Ok _ _ _ E1). split; [exact E2|]. split; [congruence|]. split; [done|].
  split; [by eapply kept_trans|]. intros i. by rewrite O2, O1.
Qed.

Lemma alloc_ok st a l : heap st = a :: l → posix_memalign st = Ok (a, mkSt (mem st) l).
Proof using Type. intros E. unfold posix_memalign. by rewrite E. Qed.

Ltac alloc := rewrite (bind_Ok _ _ _ (alloc_ok (mkSt _ (_ :: _)) _ _ eq_refl)); cbv beta iota.

(** [row_add] on lanes. *)
Definition sum_lane (a c : Z) : Z := Z.lxor (Z.lxor a c) (shl1 (carries a c)).

Lemma row_add_lanes d s1 s2 rest V st :
  holds_lanes V (mem st) → heap st = buf_list ++ rest → d ∈ L → s1 ∈ L → s2 ∈ L →
  d ∉ buf_list → s1 ∉ buf_list → s2 ∉ buf_list →
  ∃ st' V', row_add d s1 s2 32 (4 * n) st = Ok st' ∧ heap st' = rest ∧ holds_lanes V' (mem st') ∧
    (∀ i, V' d i = sum_lane (V s1 i) (V s2 i)) ∧ ∀ c i, c ≠ d → c ∉ buf_list → V' c i = V c i.
Proof using All.
  intros Hh Eheap Hd H1 H2 Nd N1 N2. distinct. unfold buf_list in Nd, N1, N2. repeat rewrite not_elem_of_cons in Nd, N1, N2.
  destruct_and! Nd. destruct_and! N1. destruct_and! N2.
  unfold row_add, rowop_and, rowop_xor. rewrite (bind_Ok _ _ _ (alloc_ok _ _ _ Eheap)). cbv beta iota.
  destruct (fill_step (mask b) (u32 (Z.lnot 1)) V (mkSt (mem st) (tail buf_list ++ rest)) Hh) as (t1 & V1 & Q1 & E1 & G1 & O1 & K1);
    [assumption|apply wrap_range; lia|].
  rewrite (bind_Ok _ _ _ Q1), (bind_Ok _ _ _ (alloc_ok _ _ _ E1)). cbv beta iota. alloc.
  destruct (lanes_step ROWAND _ (and0 b) s1 s2 V1 (mkSt (mem t1) ([andN b; orN b; andNshift b; orNshift b; andTemp b; andNCopy b] ++ rest)) eq_refl G1)
    as (t2 & V2 & Q2 & E2 & G2 & O2 & K2); [assumption..|]. cbn [mem heap app] in *. rewrite (bind_Ok _ _ _ Q2).
  destruct (lanes_step ROWXOR _ (xor0 b) s1 s2 V2 t2 eq_refl G2) as (t3 & V3 & Q3 & E3 & G3 & O3 & K3); [assumption..|].
  rewrite (bind_Ok _ _ _ Q3), (bind_Ok _ _ _ (alloc_ok _ _ _ (eq_trans E3 E2))). cbv beta iota. do 5 alloc. cbn [mem].
  assert (∀ i, 0 ≤ i < n → V3 (mask b) i = u32 (Z.lnot 1)) as M3 by (intros i Hi; by lanes).
  destruct (add_rounds_ok V3 (mkSt (mem t3) rest) G3 M3) as (t4 & V4 & Q4 & E4 & G4 & K4 & O4).
  rewrite Bufs_eta, (bind_Ok _ _ _ Q4).
  destruct (shift_step (orNshift b) (orN b) 1 (mask b) V4 t4) as (t5 & V5 & Q5 & E5 & G5 & O5 & K5);
    [lia|done|assumption..|done|done|by eapply kept_mask|]. rewrite (bind_Ok _ _ _ Q5).
  destruct (lanes_step ROWXOR _ d (xor0 b) (orNshift b) V5 t5 eq_refl G5) as (t6 & V6 & Q6 & E6 & G6 & O6 & K6); [assumption..|].
  exists t6, V6. split; [exact Q6|]. split; [by rewrite E6, E5, E4|]. split; [exact G6|]. split.
  - intros i. rewrite O6. cbn [op_lane]. rewrite K5, O5, O4, K4 by first [done | repeat rewrite not_elem_of_cons; split_and!; done || apply not_elem_of_nil].
    unfold sum_lane, carries, first_carry. by lanes.
  - intros c i Hcd Hc. unfold buf_list in Hc. repeat rewrite not_elem_of_cons in Hc. destruct_and! Hc. rewrite K6, K5 by done.
    rewrite K4 by (repeat rewrite not_elem_of_cons; split_and!; done || apply not_elem_of_nil). by lanes.
Qed.

End adder.

End lanes.

(** ** The query *)

Section query.
Context (L : list Z) (n : Z) (m0 : hostmem).
Hypothesis Hn : 0 ≤ n ≤ 2048.

(** Fresh buffers of a call: different, in use, and none of the given ones. *)
Definition fresh (l taken : list Z) : Prop := NoDup l ∧ l ⊆ L ∧ Forall (λ c, c ∉ l) taken.

Lemma row_twos_comp_lanes d s ones b rest V st :
  holds_lanes L n m0 V (mem st) → heap st = ones :: buf_list b ++ rest → d ∈ L → s ∈ L → fresh (ones :: buf_list b) [d; s] →
  ∃ st' V', row_twos_comp d s 32 (4 * n) st = Ok st' ∧ heap st' = rest ∧ holds_lanes L n m0 V' (mem st') ∧
    (∀ i, V' d i = sum_lane (not32 (V s i)) 1) ∧ ∀ c i, c ≠ d → c ∉ ones :: buf_list b → V' c i = V c i.
Proof using Hn.
  intros Hh Eh Hd Hs ([Ho Hnd]%NoDup_cons & Hin & Hout). apply Forall_cons in Hout as [Nd Hout]. apply Forall_cons in Hout as [Ns _].
  apply not_elem_of_cons in Nd as [Nd0 Nd]. apply not_elem_of_cons in Ns as [Ns0 Ns].
  assert (ones ∈ L) as HoL by (apply Hin; left). assert (buf_list b ⊆ L) as HbL by (intros c Hc; apply Hin; by right).
  unfold row_twos_comp. rewrite (bind_Ok _ _ _ (alloc_ok _ _ _ Eh)). cbv beta iota.
  destruct (fill_ok L n m0 Hn ones 1 V (mkSt (mem st) (buf_list b ++ rest)) Hh HoL) as (t1 & Q1 & E1 & G1); [lia|]. rewrite (bind_Ok _ _ _ Q1).
  destruct (rowop_ok L n m0 Hn ROWNOT _ d s s _ t1 eq_refl G1) as (t2 & Q2 & E2 & G2); [done..|]. unfold rowop_not. rewrite (bind_Ok _ _ _ Q2).
  destruct (row_add_lanes L n m0 Hn b Hnd HbL d d ones rest _ t2 G2) as (t3 & V3 & -> & E3 & G3 & O3 & K3); try done; [by rewrite E2, E1|].
  exists t3, V3. split; [done|]. split; [done|]. split; [done|]. split.
  - intros i. rewrite O3, upd_eq, !(upd_ne d), upd_eq, (upd_ne ones) by done. done.
  - intros c i Hc [Hc1 Hc2]%not_elem_of_cons. by rewrite K3, !upd_ne.
Qed.

(** The absolute value of a lane as a signed number. *)
Definition abs_lane (v : Z) : Z := if v <? 2 ^ 31 then v else 2 ^ 32 - v.
Definition total (f : Z → Z) (k : Z) : Z := foldr Z.add 0 (f <$> seqZ 0 k).

Lemma total_succ f k : 0 ≤ k → total f (k + 1) = total f k + f k.
Proof using Type.
  intros Hk. unfold total. rewrite seqZ_app, fmap_app by lia. change (seqZ (0 + k) 1) with [0 + k]. rewrite Z.add_0_l. simpl.
  generalize (f <$> seqZ 0 k). intros l. induction l as [|x l IH]; simpl; [lia|]. rewrite IH. lia.
Qed.

Lemma vec_abs_val_red_ok V m d :
  holds_lanes L n m0 V m → d ∈ L → (∀ i, 0 ≤ i < n → V d i ≠ 2 ^ 31) →
  vec_abs_val_red m d n = Ok (u32 (total (λ i, abs_lane (V d i)) n)).
Proof using Hn.
  intros Hh Hd Hmin. unfold vec_abs_val_red.
  destruct (foldM_ok (λ l r, r = u32 (total (λ i, abs_lane (V d i)) (Z.of_nat (length l))))
    (λ sum i, v ← load32 m (d + 4 * i); a ← abs32 v; mret (u32 (sum + a))) (seqZ 0 n) 0) as (r & -> & ->).
  - done.
  - intros l1 i l2 r El ->.
    assert (seqZ 0 n !! length l1 = Some i) as Hlk by (rewrite El; by apply list_lookup_middle).
    apply lookup_seqZ in Hlk as [-> Hlt]. rewrite Z.add_0_l. set (k := Z.of_nat (length l1)) in *.
    assert (load32 m (d + 4 * k) = Ok (V d k)) as ->.
    { unfold load32. rewrite (load_bytes_ok m _ 4) by (eapply mapped_mono; [by apply (hl_mapped _ _ _ _ _ Hh d)|lia|unfold ROW_SIZE; lia]).
      cbn [mbind res_mbind mret res_mret]. f_equal. apply (hl_lane _ _ _ _ _ Hh); [done|lia]. }
    cbn [mbind res_mbind]. unfold abs32. rewrite (proj2 (Z.eqb_neq _ _)) by (apply Hmin; lia). cbn [mbind res_mbind mret res_mret].
    eexists. split; [reflexivity|]. rewrite u32_add, length_app. simpl. replace (Z.of_nat (length l1 + 1)) with (k + 1) by lia.
    by rewrite total_succ by lia.
  - by rewrite length_seqZ, Z2Nat.id by lia.
Qed.

End query.

(** The difference the query computes in a lane. *)
Definition diff_lane (a c : Z) : Z := sum_lane a (sum_lane (not32 c) 1).

(** Buffers of a row each that exist and do not overlap. *)
Record buffers_ok (L : list Z) (m : hostmem) : Prop := {
  bo_bytes : bytes_ok m;
  bo_mapped b : b ∈ L → mapped m b ROW_SIZE;
  bo_apart b b' : b ∈ L → b' ∈ L → b ≠ b' → b + ROW_SIZE ≤ b' ∨ b' + ROW_SIZE ≤ b;
}.

Lemma buffers_lanes L n m : buffers_ok L m → holds_lanes L n m (lane m) m.
Proof. intros []. by split. Qed.


(** The adder is exact where it needs no carry. *)
Lemma sum_lane_exact a c :
  0 ≤ a < 2 ^ 32 → 0 ≤ c < 2 ^ 32 → Z.land a c = 0 → Z.land (Z.lxor a c) (shl1 (Z.lxor a c)) = 0 → sum_lane a c = a + c.
Proof.
  intros Ha Hc Hg Hp. unfold sum_lane, carries, first_carry. rewrite Hg, Hp. change (Nat.iter 4 _ _) with 0.
  change (shl1 0) with 0. rewrite Z.lxor_0_r. by rewrite Z.add_nocarry_lxor.
Qed.

(** ... and wrong otherwise: 3 + 0, and the difference of 0 and 1. *)
Lemma sum_lane_wrong : sum_lane 3 0 = 127.
Proof. reflexivity. Qed.
Lemma diff_lane_wrong : abs_lane (diff_lane 0 1) = 127.
Proof. reflexivity. Qed.

(** ** Example: two equal vectors *)

Definition ex_bufs : Bufs :=
  mkBufs 0xa000 0xc000 0xe000 0x10000 0x12000 0x14000 0x16000 0x18000 0x1a000.
Definition ex_rows : list Z := (λ i, 0x2000 * i) <$> seqZ 0 14.
Definition ex_st : St := mkSt (uniform 0x1c000 1) (0x8000 :: buf_list ex_bufs ++ buf_list ex_bufs).

Lemma ex_buffers : buffers_ok ex_rows (mem ex_st).
Proof.
  unfold ex_rows. split; [apply uniform_bytes_ok; lia| |].
  - intros b (i & -> & [? ?]%elem_of_seqZ)%list_elem_of_fmap. apply uniform_mapped; unfold ROW_SIZE; lia.
  - intros b b' (i & -> & _)%list_elem_of_fmap (j & -> & _)%list_elem_of_fmap Hne. unfold ROW_SIZE. lia.
Qed.

Lemma uniform_lane k b a i : 0 ≤ a + 4 * i → a + 4 * i + 4 ≤ k → lane (uniform k b) a i = little_endian_to_Z 8 [b; b; b; b].
Proof.
  intros H1 H2. unfold lane. f_equal. apply (list_eq_same_length _ _ 4); [done|by rewrite length_bytes_at|].
  intros j x y Hj Hx Hy. unfold bytes_at in Hx. rewrite list_lookup_fmap, lookup_seq_lt in Hx by done. simpl in Hx. unfold byte_at in Hx.
  rewrite (proj2 (uniform_lookup k b (a + 4 * i + Z.of_nat j) b)) in Hx by (split; [lia|done]). simpl in Hx.
  destruct j as [|[|[|[|]]]]; simpl in Hy; congruence || lia.
Qed.

