(* ===== verification/SadBaseline.v ===== *)
(** * The sum of absolute differences on the CPU (microworkloads/sad_baseline.c)

    The reference the row-operation workload is measured against: vectors of [w]-bit
    integers ([my_int], [w] is [DWIDTH]), their circular shifts, element-wise absolute
    difference and sum. *)

From stdpp Require Import base list list_numbers.
From S2P Require Import Prelude Packets RowMem Sad.
Local Open Scope Z_scope.

Module SadBaseline.

(** [vec[i] = x]; a vector has as many elements as the caller says. *)
Definition set_at (vec : list Z) (i x : Z) : res (list Z) :=
  _ ← at_ vec i; mret (<[Z.to_nat i := x]> vec).

Definition right_circular_shift (vec : list Z) (len : Z) : res (list Z) :=
  temp ← at_ vec (u32 (len - 1));
  vec ← foldM (λ vec i, x ← at_ vec (i - 1); set_at vec i x) vec (reverse (seqZ 1 (u32 (len - 1))));
  set_at vec 0 temp.

Definition left_circular_shift (vec : list Z) (len : Z) : res (list Z) :=
  temp ← at_ vec 0;
  vec ← foldM (λ vec i, x ← at_ vec (i + 1); set_at vec i x) vec (seqZ 0 (u32 (len - 1)));
  set_at vec (u32 (len - 1)) temp.

(** [abs(a - b)]: elements narrower than [int] are promoted to it; the difference of
    [unsigned] elements wraps and is then converted to [int]. *)
Definition sub_int (w a b : Z) : Z :=
  if w <? 32 then a - b else (let d := u32 (a - b) in if d <? 2 ^ 31 then d else d - 2 ^ 32).
Definition abs_int (d : Z) : res Z := if d =? - 2 ^ 31 then Err UB else mret (Z.abs d).

Definition vec_abs_diff (w : Z) (vec1 vec2 res_ : list Z) (len : Z) : res (list Z) :=
  foldM (λ r i, a ← at_ vec1 i; b ← at_ vec2 i; d ← abs_int (sub_int w a b); set_at r i (wrap w d)) res_ (seqZ 0 len).

(** The reduction; the order in which the threads add their parts does not matter. *)
Definition vec_red (w : Z) (vec : list Z) (len : Z) : res Z :=
  foldM (λ sum i, x ← at_ vec i; mret (wrap w (sum + x))) 0 (seqZ 0 len).

(** The result buffer comes from [malloc], with arbitrary contents. *)
Definition sum_abs_diff (w : Z) (vec1 vec2 res_ : list Z) (len : Z) : res Z :=
  r ← vec_abs_diff w vec1 vec2 res_ len;
  vec_red w r len.

End SadBaseline.
Import SadBaseline.

(** ** Elements *)

Lemma at_lookup (l : list Z) (i : Z) x : 0 ≤ i → l !! Z.to_nat i = Some x → at_ l i = Ok x.
Proof. intros Hi E. unfold at_. by rewrite decide_True, E. Qed.

Lemma set_at_ok l i x : 0 ≤ i < Z.of_nat (length l) → set_at l i x = Ok (<[Z.to_nat i := x]> l).
Proof.
  intros Hi. unfold set_at. destruct (lookup_lt_is_Some_2 l (Z.to_nat i)) as [y Ey]; [lia|]. by rewrite (bind_Ok _ _ _ (at_lookup l i y ltac:(lia) Ey)).
Qed.

(** The vectors of a loop that moves elements: those at the positions already visited come
    from elsewhere. *)
Definition moved_to (f : nat → nat) (l l' : list Z) : Prop := length l' = length l ∧ ∀ j, (j < length l)%nat → l' !! j = l !! f j.

Lemma moved_step f l l' i k x :
  moved_to f l l' → (i < length l)%nat → l !! k = Some x →
  moved_to (λ j, if decide (j = i) then k else f j) l (<[i := x]> l').
Proof.
  intros [Hlen Hl] Hi Hk. split; [by rewrite length_insert|]. intros j Hj. destruct (decide (j = i)) as [->|].
  - by rewrite list_lookup_insert_eq by lia.
  - rewrite list_lookup_insert_ne by done. auto.
Qed.

Lemma moved_ext f g l l' : (∀ j, (j < length l)%nat → f j = g j) → moved_to f l l' → moved_to g l l'.
Proof. intros E [Hlen Hl]. split; [done|]. intros j Hj. rewrite Hl by done. by rewrite E. Qed.

Lemma left_shift_ok x v : Z.of_nat (length v) < 2 ^ 32 - 1 → left_circular_shift (x :: v) (Z.of_nat (S (length v))) = Ok (v ++ [x]).
Proof.
  intros Hlen. unfold left_circular_shift. rewrite (bind_Ok _ _ x) by done.
  replace (u32 (Z.of_nat (S (length v)) - 1)) with (Z.of_nat (length v)) by (rewrite wrap_small; lia).
  destruct (foldM_ok (λ l vec, moved_to (λ j, if decide (j < length l)%nat then S j else j) (x :: v) vec)
    (λ vec i, y ← at_ vec (i + 1); set_at vec i y) (seqZ 0 (Z.of_nat (length v))) (x :: v)) as (w & E & Hw).
  - by split.
  - intros l1 i l2 w El Hw. pose proof Hw as [Hl Hlk].
    assert (seqZ 0 (Z.of_nat (length v)) !! length l1 = Some i) as Hi by (rewrite El; by apply list_lookup_middle).
    apply lookup_seqZ in Hi as [-> Hlt]. rewrite Z.add_0_l. simpl in Hl.
    destruct (lookup_lt_is_Some_2 v (length l1)) as [y Ey]; [lia|].
    assert (w !! S (length l1) = Some y) as Ew by (rewrite Hlk, decide_False by (simpl; lia); done).
    rewrite (bind_Ok _ _ y) by (apply at_lookup; [lia|]; by replace (Z.to_nat (Z.of_nat (length l1) + 1)) with (S (length l1)) by lia).
    rewrite set_at_ok, Nat2Z.id by lia. eexists. split; [reflexivity|].
    eapply moved_ext; [|apply (moved_step _ _ _ (length l1) (S (length l1)) y Hw); [simpl; lia|done]].
    intros j Hj. simpl. rewrite length_app. simpl. repeat case_decide; lia.
  - rewrite (bind_Ok _ _ _ E). destruct Hw as [Hl Hlk]. rewrite length_seqZ, Nat2Z.id in Hlk. simpl in Hl, Hlk.
    rewrite set_at_ok, Nat2Z.id by lia. f_equal. apply list_eq. intros j. destruct (decide (j = length v)) as [->|].
    + by rewrite list_lookup_insert_eq, list_lookup_middle by lia.
    + rewrite list_lookup_insert_ne by done. destruct (decide (j < length v)%nat).
      * by rewrite Hlk, decide_True, lookup_app_l by lia.
      * rewrite !lookup_ge_None_2; [done|rewrite length_app; simpl; lia|lia].
Qed.

Lemma right_shift_ok x v : Z.of_nat (length v) < 2 ^ 32 - 1 → right_circular_shift (v ++ [x]) (Z.of_nat (S (length v))) = Ok (x :: v).
Proof.
  intros Hlen. unfold right_circular_shift. set (k := length v) in *.
  replace (u32 (Z.of_nat (S k) - 1)) with (Z.of_nat k) by (rewrite wrap_small; lia).
  rewrite (bind_Ok _ _ x) by (apply at_lookup; [lia|]; rewrite Nat2Z.id; by apply list_lookup_middle).
  destruct (foldM_ok (λ l vec, moved_to (λ j, if decide (k - length l < j)%nat then pred j else j) (v ++ [x]) vec)
    (λ vec i, y ← at_ vec (i - 1); set_at vec i y) (reverse (seqZ 1 (Z.of_nat k))) (v ++ [x])) as (w & E & Hw).
  - split; [done|]. rewrite length_app. simpl. intros j Hj. rewrite decide_False by lia. done.
  - intros l1 i l2 w El Hw. pose proof Hw as [Hl Hlk]. rewrite length_app in Hl, Hlk. simpl in Hl.
    assert (length (reverse (seqZ 1 (Z.of_nat k))) = length (l1 ++ i :: l2)) as Hll by (by rewrite El).
    rewrite length_reverse, length_seqZ, length_app in Hll. simpl in Hll.
    assert (reverse (seqZ 1 (Z.of_nat k)) !! length l1 = Some i) as Hi by (rewrite El; by apply list_lookup_middle).
    rewrite reverse_lookup in Hi by (rewrite length_seqZ; lia). rewrite length_seqZ in Hi.
    apply lookup_seqZ in Hi as [-> _]. set (p := (k - length l1)%nat).
    replace (1 + Z.of_nat (Z.to_nat (Z.of_nat k) - S (length l1))) with (Z.of_nat p) by lia.
    destruct (lookup_lt_is_Some_2 v (p - 1)) as [y Ey]; [lia|].
    assert ((v ++ [x]) !! (p - 1)%nat = Some y) as Ev by (by apply lookup_app_l_Some).
    assert (w !! (p - 1)%nat = Some y) as Ew by (rewrite Hlk, decide_False by (simpl; lia); done).
    rewrite (bind_Ok _ _ y) by (apply at_lookup; [lia|]; by replace (Z.to_nat (Z.of_nat p - 1)) with (p - 1)%nat by lia).
    rewrite set_at_ok, Nat2Z.id by lia. eexists. split; [reflexivity|].
    eapply moved_ext; [|apply (moved_step _ _ _ p (p - 1) y Hw); [rewrite length_app; simpl; lia|done]].
    intros j Hj. simpl. rewrite length_app. simpl. repeat case_decide; lia.
  - rewrite (bind_Ok _ _ _ E). destruct Hw as [Hl Hlk]. rewrite length_reverse, length_seqZ, Nat2Z.id, length_app in Hlk. rewrite length_app in Hl.
    simpl in Hl, Hlk. rewrite set_at_ok by lia. f_equal. apply list_eq. intros [|j].
    + by rewrite list_lookup_insert_eq by lia.
    + rewrite list_lookup_insert_ne by done. simpl. destruct (decide (j < k)%nat).
      * rewrite Hlk, decide_True by lia. simpl. by apply lookup_app_l.
      * rewrite !lookup_ge_None_2 by lia. done.
Qed.

(** ** The sum *)

Lemma sub_int_exact w a b :
  w = 8 ∨ w = 16 ∨ w = 32 → 0 ≤ a < 2 ^ w → 0 ≤ b < 2 ^ w → Z.abs (a - b) < 2 ^ 31 → sub_int w a b = a - b.
Proof.
  intros Hw Ha Hb Hd. unfold sub_int. destruct (Z.ltb_spec w 32); [done|]. assert (w = 32) as -> by lia.
  destruct (Z.le_gt_cases b a).
  - rewrite wrap_small by lia. by rewrite (proj2 (Z.ltb_lt _ _)) by lia.
  - assert (u32 (a - b) = a - b + 2 ^ 32) as ->.
    { rewrite <- (wrap_small 32 (a - b + 2 ^ 32)) by lia. unfold wrap. by rewrite <- (Z.mod_add (a - b) 1 (2 ^ 32)), Z.mul_1_l by lia. }
    rewrite (proj2 (Z.ltb_ge _ _)) by lia. lia.
Qed.

Definition elem (vec : list Z) (i : Z) : Z := default 0 (vec !! Z.to_nat i).

Lemma at_elem vec i : 0 ≤ i < Z.of_nat (length vec) → at_ vec i = Ok (elem vec i).
Proof. intros Hi. unfold elem. destruct (lookup_lt_is_Some_2 vec (Z.to_nat i)) as [y Ey]; [lia|]. rewrite Ey. apply at_lookup; [lia|done]. Qed.

Lemma vec_red_ok w vec f :
  0 ≤ w → (∀ i, 0 ≤ i < Z.of_nat (length vec) → elem vec i = wrap w (f i)) →
  vec_red w vec (Z.of_nat (length vec)) = Ok (wrap w (total f (Z.of_nat (length vec)))).
Proof.
  intros Hw Hf. unfold vec_red. set (n := Z.of_nat (length vec)) in *.
  destruct (foldM_ok (λ l r, r = wrap w (total f (Z.of_nat (length l)))) (λ sum i, x ← at_ vec i; mret (wrap w (sum + x))) (seqZ 0 n) 0)
    as (r & -> & ->).
  - done.
  - intros l1 i l2 r El ->.
    assert (seqZ 0 n !! length l1 = Some i) as Hi by (rewrite El; by apply list_lookup_middle). apply lookup_seqZ in Hi as [-> Hlt].
    rewrite Z.add_0_l. rewrite (bind_Ok _ _ (elem vec (Z.of_nat (length l1)))) by (apply at_elem; lia). rewrite Hf by lia. eexists. split; [reflexivity|].
    rewrite length_app. simpl. rewrite Nat2Z.inj_add, total_succ by lia. unfold wrap. by rewrite <- Z.add_mod by lia.
  - rewrite length_seqZ, Z2Nat.id by lia. done.
Qed.

Lemma elem_range w vec i : 0 ≤ w → Forall (λ x, 0 ≤ x < 2 ^ w) vec → 0 ≤ elem vec i < 2 ^ w.
Proof.
  intros Hw H. unfold elem. destruct (vec !! _) eqn:E; simpl; [by eapply Forall_lookup_1 in H|]. split; [done|by apply Z.pow_pos_nonneg].
Qed.

Section sums.
Context (w : Z) (vec1 vec2 : list Z).
Let len := Z.of_nat (length vec1).
Hypothesis Hw : w = 8 ∨ w = 16 ∨ w = 32.
Hypothesis Hlen : length vec2 = length vec1.
Hypothesis Hr1 : Forall (λ x, 0 ≤ x < 2 ^ w) vec1.
Hypothesis Hr2 : Forall (λ x, 0 ≤ x < 2 ^ w) vec2.

Definition dist (i : Z) : Z := Z.abs (elem vec1 i - elem vec2 i).

Lemma vec_abs_diff_ok r0 :
  length r0 = length vec1 → (∀ i, 0 ≤ i < len → dist i < 2 ^ 31) →
  ∃ r, vec_abs_diff w vec1 vec2 r0 len = Ok r ∧ length r = length vec1 ∧ ∀ i, 0 ≤ i < len → elem r i = wrap w (dist i).
Proof using All.
  intros Hl0 Hd. unfold vec_abs_diff.
  destruct (foldM_ok (λ l r, length r = length vec1 ∧ ∀ i, 0 ≤ i < Z.of_nat (length l) → elem r i = wrap w (dist i))
    (λ r i, a ← at_ vec1 i; b ← at_ vec2 i; d ← abs_int (sub_int w a b); set_at r i (wrap w d)) (seqZ 0 len) r0) as (r & E & Hl & Hr).
  - split; [done|]. simpl. lia.
  - intros l1 i l2 r El [Hl Hr].
    assert (seqZ 0 len !! length l1 = Some i) as Hi by (rewrite El; by apply list_lookup_middle). apply lookup_seqZ in Hi as [-> Hlt].
    rewrite Z.add_0_l. set (k := Z.of_nat (length l1)) in *. unfold len in Hlt.
    rewrite (bind_Ok _ _ (elem vec1 k)), (bind_Ok _ _ (elem vec2 k)) by (apply at_elem; lia).
    pose proof (Hd k ltac:(unfold len; lia)) as Hdk. unfold dist in Hdk.
    rewrite sub_int_exact by first [done | apply elem_range; [lia|done]]. rewrite (bind_Ok _ _ (dist k)).
    2:{ unfold abs_int. rewrite (proj2 (Z.eqb_neq _ _)) by lia. done. }
    rewrite set_at_ok by lia. eexists. split; [reflexivity|]. split; [by rewrite length_insert|]. intros i Hi. rewrite length_app in Hi. simpl in Hi.
    unfold elem at 1. destruct (decide (i = k)) as [->|]; [by rewrite list_lookup_insert_eq by lia|].
    rewrite list_lookup_insert_ne by lia. apply Hr. lia.
  - exists r. split; [done|]. split; [done|]. intros i Hi. apply Hr. rewrite length_seqZ. lia.
Qed.
End sums.

(** C36: the baseline computes the sum of absolute differences of two vectors of 8, 16 or
    32-bit integers, modulo the width, whatever the result buffer held, as long as
    differences fit an [int] (which they always do for the narrower widths); for two equal
    vectors, as in [main], it is 0. *)
Theorem sad_baseline_correct w vec1 vec2 r0 :
  w = 8 ∨ w = 16 ∨ w = 32 → length vec2 = length vec1 → length r0 = length vec1 →
  Forall (λ x, 0 ≤ x < 2 ^ w) vec1 → Forall (λ x, 0 ≤ x < 2 ^ w) vec2 →
  (∀ i, 0 ≤ i < Z.of_nat (length vec1) → dist vec1 vec2 i < 2 ^ 31) →
  sum_abs_diff w vec1 vec2 r0 (Z.of_nat (length vec1)) = Ok (wrap w (total (dist vec1 vec2) (Z.of_nat (length vec1)))) ∧
  (vec1 = vec2 → sum_abs_diff w vec1 vec2 r0 (Z.of_nat (length vec1)) = Ok 0).
Proof.
  intros Hw Hl Hl0 Hr1 Hr2 Hd.
  assert (sum_abs_diff w vec1 vec2 r0 (Z.of_nat (length vec1)) = Ok (wrap w (total (dist vec1 vec2) (Z.of_nat (length vec1))))) as E.
  { unfold sum_abs_diff. destruct (vec_abs_diff_ok w vec1 vec2 Hw Hl Hr1 Hr2 r0 Hl0 Hd) as (r & E & Hlr & Hr). rewrite (bind_Ok _ _ _ E), <- Hlr.
    apply vec_red_ok; [lia|]. intros i Hi. apply Hr. lia. }
  split; [done|]. intros <-. rewrite E. f_equal. generalize (Z.of_nat (length vec1)). intros k.
  assert (total (dist vec1 vec1) k = 0) as ->; [|by destruct Hw as [->|[->| ->]]].
  unfold total. induction (seqZ 0 k) as [|i l IH]; [done|]. cbn [fmap list_fmap foldr]. rewrite IH. unfold dist. lia.
Qed.

Lemma sad_baseline_correct_witness : sum_abs_diff 8 [200; 3; 7] [1; 250; 7] [0; 0; 0] 3 = Ok 190.
Proof.
  destruct (sad_baseline_correct 8 [200; 3; 7] [1; 250; 7] [0; 0; 0]) as [E _]; [by left|done|done|repeat constructor; lia|repeat constructor; lia| |exact E].
  intros i Hi. simpl in Hi. assert (i = 0 ∨ i = 1 ∨ i = 2) as [->|[->| ->]] by lia; vm_compute; reflexivity.
Defined.

(** The circular shifts rotate a vector of any length from 1 on by one element, and are
    inverse to each other. *)
Theorem circular_shift_roundtrip vec :
  vec ≠ [] → Z.of_nat (length vec) < 2 ^ 32 →
  ∃ l r, left_circular_shift vec (Z.of_nat (length vec)) = Ok l ∧ right_circular_shift vec (Z.of_nat (length vec)) = Ok r ∧
    l ≡ₚ vec ∧ r ≡ₚ vec ∧
    right_circular_shift l (Z.of_nat (length vec)) = Ok vec ∧ left_circular_shift r (Z.of_nat (length vec)) = Ok vec.
Proof.
  intros Hne Hlen. destruct vec as [|x v]; [done|]. destruct (exists_last Hne) as (u & y & Eu).
  assert (length (x :: v) = S (length u)) as Hu by (rewrite Eu, length_app; simpl; lia). simpl in Hlen, Hu.
  exists (v ++ [x]), (y :: u). split; [apply left_shift_ok; lia|]. split.
  { rewrite Eu. replace (length (u ++ [y])) with (S (length u)) by (rewrite length_app; simpl; lia). apply right_shift_ok. lia. }
  split; [by rewrite Permutation_app_comm|]. split; [rewrite Eu; by rewrite Permutation_app_comm|].
  split; [apply right_shift_ok; lia|]. rewrite Eu. replace (length (u ++ [y])) with (S (length u)) by (rewrite length_app; simpl; lia).
  apply left_shift_ok. lia.
Qed.

Lemma circular_shift_roundtrip_witness :
  left_circular_shift [1; 2; 3] 3 = Ok [2; 3; 1] ∧ right_circular_shift [2; 3; 1] 3 = Ok [1; 2; 3].
Proof.
  destruct (circular_shift_roundtrip [1; 2; 3]) as (l & r & El & _ & _ & _ & Er & _); [done|simpl; lia|].
  assert (l = [2; 3; 1]) as -> by (vm_compute in El; congruence). split; [exact El|exact Er].
Defined.
