(* ===== verification/BitweaveBaseline.v ===== *)
(** * The range query on the CPU (microworkloads/bitweave-baseline.c)

    The reference of the range query: the same comparison of bit columns with 128-bit SIMD
    registers.  The values are stored in segments of 128; segment [i] has its [col_length]
    columns next to each other, the most significant first. *)

From stdpp Require Import base list list_numbers.
From S2P Require Import Prelude AbstractMem Packets RowMem Bitweave Sad SadBaseline.
Import SadBaseline.
Local Open Scope Z_scope.

Module BitweaveBaseline.

(** A [__m128i]. *)
Definition not128 (x : Z) : Z := wrap 128 (Z.lnot x).
Definition ones128 : Z := 2 ^ 128 - 1.

(** [popcount(ptr)] *)
Definition word_of (v i : Z) : Z := u32 (Z.shiftr v (32 * i)).
Definition popcount (v : Z) : Z :=
  u32 (u32 (u32 (Bitweave.upopcount (word_of v 0) + Bitweave.upopcount (word_of v 1)) + Bitweave.upopcount (word_of v 2))
       + Bitweave.upopcount (word_of v 3)).

Section query.
Context (col_length per_col_vecs c1 c2 : Z).

(** "set c1 vec"; [1 << i] of type [int] is undefined from 31 on. *)
Definition set_vec (c : Z) : res (list Z) :=
  foldM (λ l i, _ ← (if i <? 31 then Ok () else Err UB);
                mret (l ++ [if negb (Z.land c (Z.shiftl 1 i) =? 0) then ones128 else 0])) [] (seqZ 0 col_length).

(** The registers of the inner loop. *)
Record Regs := mkRegs { mgt : Z; mlt : Z; meq1 : Z; meq2 : Z }.
Definition start_regs : Regs := mkRegs 0 0 ones128 ones128.
Definition step_regs (k1 k2 vec : Z) (r : Regs) : Regs :=
  mkRegs (Z.lor (mgt r) (Z.land (Z.land (meq1 r) (not128 k1)) vec))
         (Z.lor (mlt r) (Z.land (Z.land (meq2 r) k2) (not128 vec)))
         (Z.land (meq1 r) (not128 (Z.lxor vec k1)))
         (Z.land (meq2 r) (not128 (Z.lxor vec k2))).

(** The body of the inner loop; [outputvecs] points to the values. *)
Definition column (c1vecs c2vecs : list Z) (i : Z) (s : list Z * Regs * Z) (j : Z) : res (list Z * Regs * Z) :=
  let '(vecvals, r, result) := s in
  vec ← at_ vecvals (i * col_length + j);
  k1 ← at_ c1vecs j;
  k2 ← at_ c2vecs j;
  let r := step_regs k1 k2 vec r in
  vecvals ← set_at vecvals i (Z.land (mgt r) (mlt r));
  out ← at_ vecvals i;
  mret (vecvals, r, u32 (result + popcount out)).

Definition segment (c1vecs c2vecs : list Z) (s : list Z * Z) (i : Z) : res (list Z * Z) :=
  '(vecvals, _, result) ← foldM (column c1vecs c2vecs i) (s.1, start_regs, s.2) (seqZ 0 col_length);
  mret (vecvals, result).

(** One round of the query, and [main]: the printed result. *)
Definition iteration (vecvals : list Z) : res (list Z * Z) :=
  c1vecs ← set_vec c1;
  c2vecs ← set_vec c2;
  foldM (segment c1vecs c2vecs) (vecvals, 0) (seqZ 0 per_col_vecs).
Definition main (vecvals : list Z) : res Z :=
  '(vecvals, _) ← iteration vecvals;
  '(_, result) ← iteration vecvals;
  mret result.

End query.

End BitweaveBaseline.
Import BitweaveBaseline.

(** ** The population count *)

Definition word128 (v : Z) : Prop := 0 ≤ v < 2 ^ 128.

Lemma word_of_testbit v i b : 0 ≤ i → 0 ≤ b < 32 → Z.testbit (word_of v i) b = Z.testbit v (32 * i + b).
Proof.
  intros Hi Hb. unfold word_of. rewrite wrap_testbit by lia. rewrite (proj2 (Z.ltb_lt b 32)), Z.shiftr_spec by lia. simpl. f_equal. lia.
Qed.

Lemma cnt_nonneg p a n : 0 ≤ cnt p a n.
Proof. unfold cnt. lia. Qed.
Lemma cnt_le p a n : 0 ≤ n → cnt p a n ≤ n.
Proof. intros Hn. unfold cnt. pose proof (length_filter (λ x, p x = true) (seqZ a n)) as H. rewrite length_seqZ in H. lia. Qed.

Lemma popcount_ok v : popcount v = cnt (Z.testbit v) 0 128.
Proof.
  assert (∀ i, 0 ≤ i → Bitweave.upopcount (word_of v i) = cnt (Z.testbit v) (32 * i) 32) as Hw.
  { intros i Hi. rewrite upopcount_ok by (apply wrap_range; lia). rewrite <- (cnt_shift _ (32 * i)). apply cnt_ext. intros x Hx.
    apply word_of_testbit; lia. }
  unfold popcount. rewrite !Hw by lia. change 128 with (32 + (32 + (32 + 32))). rewrite !cnt_app by lia.
  pose proof (cnt_nonneg (Z.testbit v)) as H0. pose proof (λ a, cnt_le (Z.testbit v) a 32 ltac:(lia)) as H1.
  pose proof (H0 0 32). pose proof (H0 32 32). pose proof (H0 64 32). pose proof (H0 96 32).
  pose proof (H1 0). pose proof (H1 32). pose proof (H1 64). pose proof (H1 96).
  change (32 * 0) with 0. change (32 * 1) with 32. change (32 * 2) with 64. change (32 * 3) with 96.
  change (0 + 32) with 32. change (32 + 32) with 64. change (64 + 32) with 96.
  rewrite (wrap_small 32 (cnt _ 0 32 + _)) by lia. rewrite (wrap_small 32 (_ + cnt _ 64 32)) by lia. rewrite wrap_small by lia. lia.
Qed.

(** ** The comparison *)

Lemma not128_testbit x b : 0 ≤ b < 128 → Z.testbit (not128 x) b = negb (Z.testbit x b).
Proof. intros Hb. unfold not128. rewrite wrap_testbit by lia. by rewrite (proj2 (Z.ltb_lt b 128)), Z.lnot_spec by lia. Qed.

Lemma ones128_testbit b : 0 ≤ b < 128 → Z.testbit ones128 b = true.
Proof. intros Hb. change ones128 with (Z.ones 128). by apply Z.ones_spec_low. Qed.

Section proof.
Context (col_length per_col_vecs c1 c2 : Z) (vals : list Z).
Hypothesis Hcols : 1 ≤ col_length ≤ 31.
Hypothesis Hvecs : 0 ≤ per_col_vecs.
Hypothesis Hlen : Z.of_nat (length vals) = per_col_vecs * col_length.

(** Column [j] of segment [i], and the first [k] bits of its value at position [x]. *)
Definition col (i j : Z) : Z := elem vals (i * col_length + j).
Definition prefix (i x : Z) (k : nat) : Z := msb (λ j, Z.testbit (col i j) x) k.

(** The registers after [k] columns. *)
Fixpoint regs (i : Z) (k : nat) : Regs :=
  match k with
  | O => start_regs
  | S k => let j := Z.of_nat k in
           step_regs (if Z.testbit c1 j then ones128 else 0) (if Z.testbit c2 j then ones128 else 0) (col i j) (regs i k)
  end.

Lemma regs_bits i k x :
  0 ≤ x < 128 →
  Z.testbit (meq1 (regs i k)) x = (const c1 k =? prefix i x k) ∧ Z.testbit (meq2 (regs i k)) x = (const c2 k =? prefix i x k) ∧
  Z.testbit (mgt (regs i k)) x = (const c1 k <? prefix i x k) ∧ Z.testbit (mlt (regs i k)) x = (prefix i x k <? const c2 k).
Proof using Type.
  intros Hx. induction k as [|k IH].
  - simpl. rewrite ones128_testbit, Z.bits_0 by done. done.
  - destruct IH as (H1 & H2 & H3 & H4). cbn [regs]. set (j := Z.of_nat k). unfold const, prefix in *. cbn [msb]. fold j.
    destruct (compare_step (msb (Z.testbit c1) k) (msb (λ j, Z.testbit (col i j) x) k) (Z.testbit c1 j) (Z.testbit (col i j) x)) as [-> ->].
    destruct (compare_step (msb (Z.testbit c2) k) (msb (λ j, Z.testbit (col i j) x) k) (Z.testbit c2 j) (Z.testbit (col i j) x)) as [-> _].
    destruct (compare_step (msb (λ j, Z.testbit (col i j) x) k) (msb (Z.testbit c2) k) (Z.testbit (col i j) x) (Z.testbit c2 j)) as [_ ->].
    cbn [step_regs mgt mlt meq1 meq2].
    repeat (rewrite ?Z.lor_spec, ?Z.land_spec, ?not128_testbit, ?Z.lxor_spec by done). rewrite H1, H2, H3, H4.
    rewrite (Z.eqb_sym (msb (λ j, Z.testbit (col i j) x) k) (msb (Z.testbit c2) k)).
    destruct (Z.testbit c1 j), (Z.testbit c2 j); rewrite ?ones128_testbit, ?Z.bits_0 by done;
      destruct (Z.testbit (col i j) x); simpl; rewrite ?andb_true_r, ?andb_false_r, ?orb_false_r; done.
Qed.

Lemma set_vec_ok c : set_vec col_length c = Ok ((λ j, if Z.testbit c j then ones128 else 0) <$> seqZ 0 col_length).
Proof using Hcols vals.
  unfold set_vec.
  destruct (foldM_ok (λ l r, r = (λ j, if Z.testbit c j then ones128 else 0) <$> l)
    (λ l i, _ ← (if i <? 31 then Ok () else Err UB); mret (l ++ [if negb (Z.land c (Z.shiftl 1 i) =? 0) then ones128 else 0]))
    (seqZ 0 col_length) []) as (r & -> & ->); [done| |done].
  intros l1 i l2 r El ->. assert (i ∈ seqZ 0 col_length) as Hi by (rewrite El, elem_of_app, elem_of_cons; auto). apply elem_of_seqZ in Hi.
  rewrite (proj2 (Z.ltb_lt i 31)) by lia. eexists. split; [reflexivity|]. by rewrite test_bit, fmap_app by lia.
Qed.
(** What the loops write: the matches so far at [i], the matches of whole values below. *)
Definition out (i : Z) (k : nat) : Z := Z.land (mgt (regs i k)) (mlt (regs i k)).
Definition written (cur : list Z) (i : Z) (k : nat) : Prop :=
  length cur = length vals ∧
  ∀ q, 0 ≤ q < Z.of_nat (length vals) →
    elem cur q = if q <? i then out q (Z.to_nat col_length) else if (q =? i) && (0 <? k)%nat then out i k else elem vals q.

Definition matches (i : Z) (k : nat) : Z := cnt (λ x, (const c1 k <? prefix i x k) && (prefix i x k <? const c2 k)) 0 128.

Lemma popcount_out i k : popcount (out i k) = matches i k.
Proof using Type.
  rewrite popcount_ok. apply cnt_ext. intros x Hx. unfold out. rewrite Z.land_spec. by destruct (regs_bits i k x) as (_ & _ & -> & ->).
Qed.

Abbreviation cvec c := ((λ j, if Z.testbit c j then ones128 else 0) <$> seqZ 0 col_length).

Lemma cvec_at c j : 0 ≤ j < col_length → at_ (cvec c) j = Ok (if Z.testbit c j then ones128 else 0).
Proof using vals.
  intros Hj. apply at_lookup; [lia|]. rewrite list_lookup_fmap, lookup_seqZ_lt by lia. simpl. by rewrite Z2Nat.id by lia.
Qed.

Lemma segment_column_ok cur i k result :
  0 ≤ i < per_col_vecs → Z.of_nat k < col_length → written cur i k →
  ∃ cur', column col_length (cvec c1) (cvec c2) i (cur, regs i k, result) (Z.of_nat k) = Ok (cur', regs i (S k), u32 (result + matches i (S k))) ∧
    written cur' i (S k).
Proof using All.
  intros Hi Hk [Hl Hw]. unfold column. set (j := Z.of_nat k) in *.
  assert (0 ≤ i * col_length + j < Z.of_nat (length vals)) as Hp by nia.
  rewrite (bind_Ok _ _ (col i j)).
  2:{ rewrite at_elem by lia. rewrite Hw by done. unfold col. destruct (Z.ltb_spec (i * col_length + j) i); [nia|].
      destruct (Z.eqb_spec (i * col_length + j) i) as [E|]; [|done]. assert (j = 0) by nia. by replace k with 0%nat by lia. }
  assert (0 ≤ j < col_length) as Hj by lia. rewrite (bind_Ok _ _ _ (cvec_at c1 j Hj)), (bind_Ok _ _ _ (cvec_at c2 j Hj)).
  change (step_regs _ _ _ _) with (regs i (S k)). change (Z.land _ _) with (out i (S k)).
  assert (0 ≤ i < Z.of_nat (length vals)) as Hin by nia.
  rewrite (bind_Ok _ _ (<[Z.to_nat i := out i (S k)]> cur)) by (apply set_at_ok; lia). set (cur' := <[Z.to_nat i := out i (S k)]> cur).
  assert (written cur' i (S k)) as Hw'.
  { split; [unfold cur'; by rewrite length_insert|]. intros q Hq. unfold cur', elem. destruct (decide (q = i)) as [->|Hne].
    - rewrite list_lookup_insert_eq by lia. by rewrite Z.ltb_irrefl, Z.eqb_refl.
    - rewrite list_lookup_insert_ne by lia. fold (elem cur q). rewrite Hw by done. by rewrite (proj2 (Z.eqb_neq q i)). }
  exists cur'. split; [|done]. rewrite (bind_Ok _ _ (out i (S k))).
  2:{ destruct Hw' as [Hl' Hw']. rewrite at_elem, Hw' by lia. by rewrite Z.ltb_irrefl, Z.eqb_refl. }
  by rewrite popcount_out.
Qed.

Lemma segment_ok cur i r :
  0 ≤ i < per_col_vecs → written cur i 0 →
  ∃ cur', segment col_length (cvec c1) (cvec c2) (cur, u32 r) i =
      Ok (cur', u32 (r + total (λ k, matches i (S (Z.to_nat k))) col_length)) ∧ written cur' (i + 1) 0.
Proof using All.
  intros Hi Hw. unfold segment.
  destruct (foldM_ok (λ l s, ∃ cur', s = (cur', regs i (length l), u32 (r + total (λ k, matches i (S (Z.to_nat k))) (Z.of_nat (length l)))) ∧
      written cur' i (length l))
    (column col_length (cvec c1) (cvec c2) i) (seqZ 0 col_length) (cur, start_regs, u32 r)) as (s & E & cur' & -> & Hl & Hw').
  - exists cur. split; [|done]. simpl. by rewrite Z.add_0_r.
  - intros l1 j l2 s El (cur1 & -> & Hw1).
    assert (seqZ 0 col_length !! length l1 = Some j) as Hj by (rewrite El; by apply list_lookup_middle).
    apply lookup_seqZ in Hj as [-> Hlt]. rewrite Z.add_0_l in *.
    destruct (segment_column_ok cur1 i (length l1) (u32 (r + total (λ k, matches i (S (Z.to_nat k))) (Z.of_nat (length l1)))) Hi Hlt Hw1) as (cur2 & E2 & Hw2).
    rewrite E2. eexists. split; [reflexivity|]. rewrite length_app, Nat.add_1_r. exists cur2. split; [|done]. f_equal.
    rewrite u32_add, Nat2Z.inj_succ. unfold Z.succ. rewrite total_succ, Nat2Z.id, Z.add_assoc by lia. done.
  - cbn [fst snd]. rewrite (bind_Ok _ _ _ E). rewrite length_seqZ, Z2Nat.id by lia. exists cur'. split; [done|]. split; [done|].
    rewrite length_seqZ in Hw'. intros q Hq. rewrite Hw' by done. rewrite andb_false_r.
    rewrite (proj2 (Nat.ltb_lt 0 (Z.to_nat col_length))), andb_true_r by lia.
    destruct (Z.ltb_spec q i), (Z.eqb_spec q i), (Z.ltb_spec q (i + 1)); try lia; congruence.
Qed.

(** All matches of prefixes, summed over the segments and the lengths of the prefix. *)
Definition tally : Z := total (λ i, total (λ k, matches i (S (Z.to_nat k))) col_length) per_col_vecs.
(** The values after the first round: the matches in place of the first columns. *)
Definition clobbered : list Z :=
  (λ q, if q <? per_col_vecs then out q (Z.to_nat col_length) else elem vals q) <$> seqZ 0 (Z.of_nat (length vals)).

Lemma round_ok : iteration col_length per_col_vecs c1 c2 vals = Ok (clobbered, u32 tally).
Proof using All.
  unfold iteration. rewrite !(bind_Ok _ _ _ (set_vec_ok _)).
  destruct (foldM_ok (λ l s, ∃ cur, s = (cur, u32 (total (λ i, total (λ k, matches i (S (Z.to_nat k))) col_length) (Z.of_nat (length l)))) ∧
      written cur (Z.of_nat (length l)) 0) (segment col_length (cvec c1) (cvec c2)) (seqZ 0 per_col_vecs) (vals, 0)) as (s & E & cur & -> & Hl & Hw).
  - exists vals. split; [done|]. split; [done|]. intros q Hq. rewrite andb_false_r. by rewrite (proj2 (Z.ltb_ge q _)) by (simpl; lia).
  - intros l1 i l2 s El (cur & -> & Hw).
    assert (seqZ 0 per_col_vecs !! length l1 = Some i) as Hi by (rewrite El; by apply list_lookup_middle).
    apply lookup_seqZ in Hi as [-> Hlt]. rewrite Z.add_0_l in *.
    destruct (segment_ok cur (Z.of_nat (length l1)) (total (λ i, total (λ k, matches i (S (Z.to_nat k))) col_length) (Z.of_nat (length l1))))
      as (cur' & E & Hw'); [lia|done|].
    rewrite E. eexists. split; [reflexivity|]. rewrite length_app. cbn [length]. rewrite Nat2Z.inj_add. exists cur'. split; [|done].
    by rewrite total_succ by lia.
  - rewrite E, length_seqZ, Z2Nat.id in * by lia. do 2 f_equal. apply list_eq_same_length with (length vals);
      [unfold clobbered; by rewrite length_fmap, length_seqZ, Nat2Z.id|done|].
    intros q a b Hq Ha Hb. unfold clobbered in Hb. rewrite list_lookup_fmap, lookup_seqZ_lt in Hb by lia. simpl in Hb. rewrite Z.add_0_l in Hb.
    specialize (Hw (Z.of_nat q) ltac:(lia)). unfold elem at 1 in Hw. rewrite Nat2Z.id, Ha in Hw. simpl in Hw. rewrite andb_false_r in Hw. congruence.
Qed.
End proof.

(** The baseline query stays within its buffers for columns of 1 to 31 bits and counts,
    in each of its two rounds, for every value and every length of a prefix whether the
    prefix lies strictly between those of the constants (modulo 2^32): the count is taken in
    every round of the inner loop.  The output is written over the columns, so the printed
    result of the second round is that of the overwritten values. *)
Theorem bitweave_baseline_counts col_length per_col_vecs c1 c2 vals :
  1 ≤ col_length ≤ 31 → 0 ≤ per_col_vecs → Z.of_nat (length vals) = per_col_vecs * col_length →
  iteration col_length per_col_vecs c1 c2 vals = Ok (clobbered col_length per_col_vecs c1 c2 vals, u32 (tally col_length per_col_vecs c1 c2 vals)) ∧
  main col_length per_col_vecs c1 c2 vals = Ok (u32 (tally col_length per_col_vecs c1 c2 (clobbered col_length per_col_vecs c1 c2 vals))).
Proof.
  intros Hc Hp Hl. pose proof (round_ok col_length per_col_vecs c1 c2 vals Hc Hp Hl) as E. split; [done|].
  unfold main. rewrite (bind_Ok _ _ _ E).
  assert (Z.of_nat (length (clobbered col_length per_col_vecs c1 c2 vals)) = per_col_vecs * col_length) as Hl'.
  { unfold clobbered. by rewrite length_fmap, length_seqZ, Nat2Z.id. }
  by rewrite (bind_Ok _ _ _ (round_ok col_length per_col_vecs c1 c2 _ Hc Hp Hl')).
Qed.

(** One segment of two columns. *)
Lemma bitweave_baseline_counts_witness :
  iteration 2 1 2 3 [ones128; 0] = Ok ([ones128; 0], 128) ∧ main 2 1 2 3 [ones128; 0] = Ok 128.
Proof.
  destruct (bitweave_baseline_counts 2 1 2 3 [ones128; 0]) as [E1 E2]; [lia|lia|done|].
  split; [rewrite E1|rewrite E2]; vm_compute; reflexivity.
Defined.

(** The 128 values 2 of three bits, between 0 and 7, are counted twice. *)
Lemma matches_counted_twice : (x ← iteration 3 1 0 7 [0; ones128; 0]; mret x.2) = Ok 256.
Proof. vm_compute. reflexivity. Qed.
