(* ===== verification/CacheTags.v ===== *)
(** * Cache blocks and tags (mem/cache/blk.hh, mem/cache/tags/cacheset.hh,
    mem/cache/tags/base_set_assoc.hh, mem/cache/tags/base_set_assoc.cc, mem/cache/tags/lru.cc)

    The blocks of a set-associative cache with least-recently-used replacement.  A pointer
    to a block is its index in the array of blocks; every set is the list of its blocks in
    order of their last use.  Statistics are not modelled. *)

From stdpp Require Import base gmap list.
From S2P Require Import Prelude IntMath Packets.
Import Request.
Local Open Scope Z_scope.

Module Blk.

Definition BlkValid : Z := 0x01.
Definition BlkWritable : Z := 0x02.
Definition BlkReadable : Z := 0x04.
Definition BlkDirty : Z := 0x08.
Definition BlkHWPrefetched : Z := 0x20.
Definition BlkSecure : Z := 0x40.

(** A load-locked range of a context. *)
Record Lock := mkLock { lockContext : Z; lowAddr : Z; highAddr : Z }.

Definition Lock_of (r : Request) : res Lock :=
  ctx ← contextId r;
  low ← getPaddr r;
  n ← getSize r;
  mret (mkLock ctx low (sub64 (add64 low n) 1)).

Definition matchesContext (l : Lock) (r : Request) : res bool :=
  req_low ← getPaddr r;
  n ← getSize r;
  let req_high := sub64 (add64 req_low n) 1 in
  ctx ← contextId r;
  mret ((lockContext l =? ctx) && (lowAddr l <=? req_low) && (req_high <=? highAddr l)).

Definition overlapping (l : Lock) (r : Request) : res bool :=
  req_low ← getPaddr r;
  n ← getSize r;
  let req_high := sub64 (add64 req_low n) 1 in
  mret ((req_low <=? highAddr l) && (lowAddr l <=? req_high)).

(** A block; its address-space identifier and size are never read. *)
Record CacheBlk := mkBlk {
  task_id : Z;
  tag : Z;
  data : list Z;
  status : Z;
  whenReady : Z;
  set : Z;
  way : Z;
  isTouched : bool;
  refCount : Z;
  srcMasterId : Z;
  tickInserted : Z;
  lockList : list Lock;
}.
Definition set_task_id (v : Z) (b : CacheBlk) : CacheBlk :=
  mkBlk v (tag b) (data b) (status b) (whenReady b) (set b) (way b) (isTouched b) (refCount b)
    (srcMasterId b) (tickInserted b) (lockList b).
Definition set_tag (v : Z) (b : CacheBlk) : CacheBlk :=
  mkBlk (task_id b) v (data b) (status b) (whenReady b) (set b) (way b) (isTouched b)
    (refCount b) (srcMasterId b) (tickInserted b) (lockList b).
Definition set_data (v : list Z) (b : CacheBlk) : CacheBlk :=
  mkBlk (task_id b) (tag b) v (status b) (whenReady b) (set b) (way b) (isTouched b)
    (refCount b) (srcMasterId b) (tickInserted b) (lockList b).
Definition set_status (v : Z) (b : CacheBlk) : CacheBlk :=
  mkBlk (task_id b) (tag b) (data b) v (whenReady b) (set b) (way b) (isTouched b) (refCount b)
    (srcMasterId b) (tickInserted b) (lockList b).
Definition set_whenReady (v : Z) (b : CacheBlk) : CacheBlk :=
  mkBlk (task_id b) (tag b) (data b) (status b) v (set b) (way b) (isTouched b) (refCount b)
    (srcMasterId b) (tickInserted b) (lockList b).
Definition set_set (v : Z) (b : CacheBlk) : CacheBlk :=
  mkBlk (task_id b) (tag b) (data b) (status b) (whenReady b) v (way b) (isTouched b)
    (refCount b) (srcMasterId b) (tickInserted b) (lockList b).
Definition set_way (v : Z) (b : CacheBlk) : CacheBlk :=
  mkBlk (task_id b) (tag b) (data b) (status b) (whenReady b) (set b) v (isTouched b)
    (refCount b) (srcMasterId b) (tickInserted b) (lockList b).
Definition set_isTouched (v : bool) (b : CacheBlk) : CacheBlk :=
  mkBlk (task_id b) (tag b) (data b) (status b) (whenReady b) (set b) (way b) v (refCount b)
    (srcMasterId b) (tickInserted b) (lockList b).
Definition set_refCount (v : Z) (b : CacheBlk) : CacheBlk :=
  mkBlk (task_id b) (tag b) (data b) (status b) (whenReady b) (set b) (way b) (isTouched b) v
    (srcMasterId b) (tickInserted b) (lockList b).
Definition set_srcMasterId (v : Z) (b : CacheBlk) : CacheBlk :=
  mkBlk (task_id b) (tag b) (data b) (status b) (whenReady b) (set b) (way b) (isTouched b)
    (refCount b) v (tickInserted b) (lockList b).
Definition set_tickInserted (v : Z) (b : CacheBlk) : CacheBlk :=
  mkBlk (task_id b) (tag b) (data b) (status b) (whenReady b) (set b) (way b) (isTouched b)
    (refCount b) (srcMasterId b) v (lockList b).
Definition set_lockList (v : list Lock) (b : CacheBlk) : CacheBlk :=
  mkBlk (task_id b) (tag b) (data b) (status b) (whenReady b) (set b) (way b) (isTouched b)
    (refCount b) (srcMasterId b) (tickInserted b) v.

(** [CacheBlk()] *)
Definition new_CacheBlk : CacheBlk :=
  mkBlk UnknownTaskId 0 [] 0 0 (-1) (-1) false 0 invldMasterId 0 [].

Definition has_bits (s needed : Z) : bool := Z.land s needed =? needed.
Definition isWritable (b : CacheBlk) : bool := has_bits (status b) (Z.lor BlkWritable BlkValid).
Definition isReadable (b : CacheBlk) : bool := has_bits (status b) (Z.lor BlkReadable BlkValid).
Definition isValid (b : CacheBlk) : bool := negb (Z.land (status b) BlkValid =? 0).
Definition isDirty (b : CacheBlk) : bool := negb (Z.land (status b) BlkDirty =? 0).
Definition isSecure (b : CacheBlk) : bool := negb (Z.land (status b) BlkSecure =? 0).

(** [status |= m] and [status &= ~m] *)
Definition or_status (m : Z) (b : CacheBlk) : CacheBlk := set_status (Z.lor (status b) m) b.
Definition clear_status (m : Z) (b : CacheBlk) : CacheBlk := set_status (Z.land (status b) (u32 (Z.lnot m))) b.

Definition trackLoadLocked (pkt : Packet.Packet) (b : CacheBlk) : res CacheBlk :=
  assert_ (Packet.isLLSC pkt);;
  l ← Lock_of (Packet.req pkt);
  mret (set_lockList (l :: lockList b) b).

(** [clearLoadLocks()] and [clearLoadLocks(req)] *)
Definition clear_all_locks (b : CacheBlk) : CacheBlk := set_lockList [] b.
Fixpoint erase_locks (l : list Lock) (r : Request) : res (list Lock) :=
  match l with
  | [] => mret []
  | x :: l =>
      o ← overlapping x r;
      l ← erase_locks l r;
      mret (if (o : bool) then l else x :: l)
  end.
Definition clearLoadLocks (r : Request) (b : CacheBlk) : res CacheBlk :=
  l ← erase_locks (lockList b) r; mret (set_lockList l b).

(** [invalidate()] *)
Definition invalidate (b : CacheBlk) : CacheBlk := clear_all_locks (set_isTouched false (set_status 0 b)).

Fixpoint find_lock (l : list Lock) (r : Request) : res bool :=
  match l with
  | [] => mret false
  | x :: l => m ← matchesContext x r; if (m : bool) then mret true else find_lock l r
  end.

(** [checkWrite(pkt)]: whether the write proceeds, the packet and the block. *)
Definition checkWrite (pkt : Packet.Packet) (b : CacheBlk) : res (bool * Packet.Packet * CacheBlk) :=
  if negb (Packet.isLLSC pkt) && bool_decide (lockList b = []) then mret (true, pkt, b)
  else if Packet.isLLSC pkt then
    success ← find_lock (lockList b) (Packet.req pkt);
    let pkt := Packet.with_req pkt (setExtraData (Packet.req pkt) (if (success : bool) then 1 else 0)) in
    b ← clearLoadLocks (Packet.req pkt) b;
    mret (success, pkt, b)
  else
    b ← clearLoadLocks (Packet.req pkt) b;
    mret (true, pkt, b).

End Blk.


Module Tags.
Import Blk.

(** The tag store with the parameters it reads of its cache and system; [sets] holds the
    block pointers of each set, most recently used first. *)
Record Tags := mkTags {
  blkSize : Z;
  accessLatency : Z;
  clockPeriod : Z;
  maxMasters : Z;
  assoc : Z;
  allocAssoc : Z;
  numSets : Z;
  setShift : Z;
  tagShift : Z;
  setMask : Z;
  blkMask : Z;
  sets : list (list Z);
  blks : list CacheBlk;
}.
Definition set_allocAssoc (v : Z) (t : Tags) : Tags :=
  mkTags (blkSize t) (accessLatency t) (clockPeriod t) (maxMasters t) (assoc t) v (numSets t)
    (setShift t) (tagShift t) (setMask t) (blkMask t) (sets t) (blks t).
Definition set_sets (v : list (list Z)) (t : Tags) : Tags :=
  mkTags (blkSize t) (accessLatency t) (clockPeriod t) (maxMasters t) (assoc t) (allocAssoc t)
    (numSets t) (setShift t) (tagShift t) (setMask t) (blkMask t) v (blks t).
Definition set_blks (v : list CacheBlk) (t : Tags) : Tags :=
  mkTags (blkSize t) (accessLatency t) (clockPeriod t) (maxMasters t) (assoc t) (allocAssoc t)
    (numSets t) (setShift t) (tagShift t) (setMask t) (blkMask t) (sets t) v.

Definition extractTag (t : Tags) (addr : Z) : Z := Z.shiftr addr (tagShift t).
Definition extractSet (t : Tags) (addr : Z) : Z := Z.land (Z.shiftr addr (setShift t)) (setMask t).
Definition blkAlign (t : Tags) (addr : Z) : Z := Z.land addr (not64 (blkMask t)).
Definition regenerateBlkAddr (t : Tags) (tag set : Z) : Z :=
  Z.lor (shl64 tag (tagShift t)) (shl64 set (setShift t)).

(** The constructor's block [j] of set [i]. *)
Definition init_blk (n i j : Z) : CacheBlk :=
  set_way j (set_set i (set_isTouched false (set_whenReady 0 (set_tag j
    (invalidate (set_data (replicate (Z.to_nat n) 0) new_CacheBlk)))))).

(** [BaseSetAssoc(p)] *)
Definition new_Tags (blkSize accessLatency clockPeriod maxMasters assoc numSets : Z) : res Tags :=
  if (blkSize <? 4) || negb (IntMath.isPowerOf2 blkSize) then Err Fatal
  else if (numSets <=? 0) || negb (IntMath.isPowerOf2 numSets) then Err Fatal
  else if assoc <=? 0 then Err Fatal
  else
    setShift ← IntMath.floorLog2_u32 blkSize;
    n ← IntMath.floorLog2_u32 numSets;
    mret (mkTags blkSize accessLatency clockPeriod maxMasters assoc assoc numSets
      setShift (setShift + n) (u32 (numSets - 1)) (u32 (blkSize - 1))
      ((λ i, (λ j, i * assoc + j) <$> seqZ 0 assoc) <$> seqZ 0 numSets)
      (i ← seqZ 0 numSets; (λ j, init_blk blkSize i j) <$> seqZ 0 assoc)).

Definition setWayAllocationMax (ways : Z) (t : Tags) : res Tags :=
  if ways <? 1 then Err Fatal else mret (set_allocAssoc ways t).

(** [*blk] and assignments through it. *)
Definition get_blk (t : Tags) (p : Z) : res CacheBlk := at_ (blks t) p.
Definition put_blk (p : Z) (b : CacheBlk) (t : Tags) : Tags := set_blks (<[Z.to_nat p := b]> (blks t)) t.

(** [CacheSet::findBlk(tag, is_secure)] *)
Fixpoint find_in (t : Tags) (l : list Z) (tg : Z) (is_secure : bool) : res (option Z) :=
  match l with
  | [] => mret None
  | p :: l =>
      b ← get_blk t p;
      if (tag b =? tg) && isValid b && eqb (isSecure b) is_secure then mret (Some p)
      else find_in t l tg is_secure
  end.

(** The loops of [CacheSet::moveToHead] and, on the reversed set, [moveToTail]: every block
    moves one place until the place of [blk] is filled. *)
Fixpoint rotate (next blk : Z) (l : list Z) : res (list Z) :=
  match l with
  | [] => Err Assert
  | x :: l => if x =? blk then mret (next :: l) else l ← rotate x blk l; mret (next :: l)
  end.
Definition moveToHead (blk : Z) (l : list Z) : res (list Z) :=
  match l with
  | x :: _ => if x =? blk then mret l else rotate blk blk l
  | [] => Err UB
  end.
Definition moveToTail (blk : Z) (l : list Z) : res (list Z) :=
  l ← moveToHead blk (reverse l); mret (reverse l).

Definition on_set (i : Z) (f : list Z → res (list Z)) (t : Tags) : res Tags :=
  l ← at_ (sets t) i;
  l ← f l;
  mret (set_sets (<[Z.to_nat i := l]> (sets t)) t).

(** [BaseSetAssoc::findBlock] *)
Definition findBlock (t : Tags) (addr : Z) (is_secure : bool) : res (option Z) :=
  l ← at_ (sets t) (extractSet t addr);
  find_in t l (extractTag t addr) is_secure.

Definition ticksToCycles (t : Tags) (x : Z) : res Z := IntMath.divCeil 64 x (clockPeriod t).

(** [LRU::accessBlock]: the block, the latency and the tags. *)
Definition accessBlock (now : Z) (t : Tags) (addr : Z) (is_secure : bool) : res (option Z * Z * Tags) :=
  p ← findBlock t addr is_secure;
  match p with
  | None => mret (None, accessLatency t, t)
  | Some p =>
      b ← get_blk t p;
      lat ← (if now <? whenReady b then
               d ← ticksToCycles t (whenReady b - now);
               mret (if accessLatency t <? d then d else accessLatency t)
             else mret (accessLatency t));
      let t := put_blk p (set_refCount (u32 (refCount b + 1)) b) t in
      t ← on_set (set b) (moveToHead p) t;
      mret (Some p, lat, t)
  end.

(** [LRU::findVictim]: the least recently used block of the ways in use. *)
Fixpoint find_way (t : Tags) (l : list Z) : res (option Z) :=
  match l with
  | [] => mret None
  | p :: l => b ← get_blk t p; if way b <? allocAssoc t then mret (Some p) else find_way t l
  end.
Definition findVictim (t : Tags) (addr : Z) : res (option Z) :=
  l ← at_ (sets t) (extractSet t addr);
  find_way t (reverse l).

(** [LRU::insertBlock(pkt, blk)] *)
Definition insertBlock (now : Z) (pkt : Packet.Packet) (p : Z) (t : Tags) : res Tags :=
  addr ← Packet.getAddr pkt;
  let master_id := _masterId (Packet.req pkt) in
  let task := _taskId (Packet.req pkt) in
  b ← get_blk t p;
  b ← (if isValid b then
         assert_ (srcMasterId b <? maxMasters t);;
         mret (Blk.invalidate (set_refCount 0 b))
       else mret b);
  let b := set_isTouched true b in
  let b := set_tag (extractTag t addr) b in
  assert_ (master_id <? maxMasters t);;
  let b := set_tickInserted now (set_task_id task (set_srcMasterId master_id b)) in
  let t := put_blk p b t in
  on_set (extractSet t addr) (moveToHead p) t.

(** [LRU::invalidate(blk)] *)
Definition invalidate (now : Z) (p : Z) (t : Tags) : res Tags :=
  b ← get_blk t p;
  assert_ (isValid b);;
  assert_ (srcMasterId b <? maxMasters t);;
  let b := set_tickInserted now (set_task_id UnknownTaskId (set_srcMasterId invldMasterId b)) in
  on_set (set b) (moveToTail p) (put_blk p b t).

End Tags.

