(* ===== verification/Cache.v ===== *)
(** * The cache (mem/cache/cache.cc, mem/cache/mshr_queue.cc)

    The atomic path of a cache: lookup, hits, fills, replacement, write-backs and the flush
    of the rows of a row operation.  Packets are sent to the memory side and snoops to the
    CPU side through the interface [AtomicPorts].  Statistics, tracing and the prefetcher
    are not modelled. *)

From stdpp Require Import base gmap list list_numbers.
From S2P Require Import Prelude IntMath Packets AbstractMem CacheTags.
Import Request Blk.
Local Open Scope Z_scope.

Abbreviation Packet := Packet.Packet.

Module Cache.

(** What the modelled code reads of a miss status or write buffer entry; [target] is the
    packet of its first target. *)
Record MSHR := mkMSHR { blkAddr : Z; mshrSecure : bool; uncacheable : bool; needsExclusive : bool; target : Packet }.

(** [MSHRQueue::findMatch] and [MSHRQueue::findMatches] on the allocated entries. *)
Definition matches (blk_addr : Z) (is_secure : bool) (e : MSHR) : bool :=
  negb (uncacheable e) && (blkAddr e =? blk_addr) && eqb (mshrSecure e) is_secure.
Definition findMatch (q : list MSHR) (blk_addr : Z) (is_secure : bool) : option MSHR :=
  snd <$> list_find (λ e, matches blk_addr is_secure e = true) q.
Definition findMatches (q : list MSHR) (blk_addr : Z) (is_secure : bool) : list MSHR :=
  filter (λ e, matches blk_addr is_secure e = true) q.

Record Cache := mkCache {
  bypassCaches : bool;
  isReadOnly : bool;
  forwardSnoops : bool;
  doFastWrites : bool;
  lookupLatency : Z;
  fillLatency : Z;
  tags : Tags.Tags;
  tempBlock : CacheBlk;
  mshrQueue : list MSHR;
  writeBuffer : list MSHR;
}.
Definition set_tags (v : Tags.Tags) (c : Cache) : Cache :=
  mkCache (bypassCaches c) (isReadOnly c) (forwardSnoops c) (doFastWrites c) (lookupLatency c)
    (fillLatency c) v (tempBlock c) (mshrQueue c) (writeBuffer c).
Definition set_tempBlock (v : CacheBlk) (c : Cache) : Cache :=
  mkCache (bypassCaches c) (isReadOnly c) (forwardSnoops c) (doFastWrites c) (lookupLatency c)
    (fillLatency c) (tags c) v (mshrQueue c) (writeBuffer c).
Definition set_writeBuffer (v : list MSHR) (c : Cache) : Cache :=
  mkCache (bypassCaches c) (isReadOnly c) (forwardSnoops c) (doFastWrites c) (lookupLatency c)
    (fillLatency c) (tags c) (tempBlock c) (mshrQueue c) v.

(** [Packet::allocate]; the bytes are written before they are read. *)
Definition allocate (pkt : Packet) : res Packet :=
  n ← Packet.getSize pkt;
  Packet.dataDynamic pkt (replicate (Z.to_nat n) 0).

(** A pointer to a block: of the tags, or the temporary block. *)
Inductive blkptr := InTags (p : Z) | Temp.
Definition get_blk (c : Cache) (p : blkptr) : res CacheBlk :=
  match p with InTags p => Tags.get_blk (tags c) p | Temp => mret (tempBlock c) end.
Definition put_blk (p : blkptr) (b : CacheBlk) (c : Cache) : Cache :=
  match p with InTags p => set_tags (Tags.put_blk p b (tags c)) c | Temp => set_tempBlock b c end.

Definition blkSize (c : Cache) : Z := Tags.blkSize (tags c).
Definition blockAlign (c : Cache) (a : Z) : Z := Z.land a (not64 (u32 (blkSize c - 1))).

(** The assertion of [incHitCount] and [incMissCount] on the index of the statistics. *)
Definition count_master (c : Cache) (pkt : Packet) : res () :=
  check Assert (_masterId (Packet.req pkt) <? Tags.maxMasters (tags c)).
(** [incMissCount] also counts the depth of the access; there is no limit of misses. *)
Definition incAccessDepth (pkt : Packet) : Packet :=
  let r := Packet.req pkt in
  Packet.with_req pkt (mkRequest (_paddr r) (_size r) (_masterId r) (_flags r) (privateFlags r) (_time r)
    (_taskId r) (_asid r) (_vaddr r) (_extraData r) (_contextId r) (_threadId r) (_pc r) (translateDelta r)
    (accessDelta r) (depth r + 1)).

(** [tags->invalidate(blk); blk->invalidate();] *)
Definition drop_blk (now p : Z) (c : Cache) : res Cache :=
  t ← Tags.invalidate now p (tags c);
  b ← Tags.get_blk t p;
  mret (set_tags (Tags.put_blk p (Blk.invalidate b) t) c).

(** The bytes of a block at the packet's offset. *)
Definition read_block (c : Cache) (b : CacheBlk) (pkt : Packet) : res Packet :=
  off ← Packet.getOffset pkt (blkSize c);
  Packet.setData pkt (drop (Z.to_nat off) (data b)).
Definition write_block (c : Cache) (b : CacheBlk) (pkt : Packet) : res CacheBlk :=
  off ← Packet.getOffset pkt (blkSize c);
  d ← Packet.getPtr pkt;
  n ← Packet.getSize pkt;
  bs ← memcpy (data b) off d 0 n;
  mret (set_data bs b).

(** [cmpAndSwap(blk, pkt)] *)
Definition cmpAndSwap (c : Cache) (b : CacheBlk) (pkt : Packet) : res (CacheBlk * Packet) :=
  assert_ (Packet.isRequest pkt);;
  off ← Packet.getOffset pkt (blkSize c);
  n ← Packet.getSize pkt;
  assert_ (n <=? 8);;
  overwrite_val ← Packet.getPtr pkt;
  let blk_data := drop (Z.to_nat off) (data b) in
  pkt ← Packet.setData pkt blk_data;
  overwrite_mem ←
    (if isCondSwap (Packet.req pkt) then
       if n =? 8 then
         v ← getExtraData (Packet.req pkt);
         mret (bool_decide (Z_to_little_endian 8 8 v = take 8 blk_data))
       else if n =? 4 then
         v ← getExtraData (Packet.req pkt);
         mret (bool_decide (Z_to_little_endian 4 8 (u32 v) = take 4 blk_data))
       else Err Panic
     else mret true);
  if (overwrite_mem : bool) then
    bs ← memcpy (data b) off overwrite_val 0 n;
    mret (or_status BlkDirty (set_data bs b), pkt)
  else mret (b, pkt).

(** A read by a cache above: whether the block is given away, shared or exclusive. *)
Definition supply_block (now : Z) (c : Cache) (pkt : Packet) (p : blkptr)
    (deferred_response pending_downgrade : bool) : res (Cache * Packet) :=
  b ← get_blk c p;
  if MemCmd.needsExclusive (Packet.cmd pkt) then
    assert_ (bool_decide (Packet.cmd pkt = MemCmd.ReadExReq) || bool_decide (Packet.cmd pkt = MemCmd.SCUpgradeFailReq));;
    pkt ← (if isDirty b then Packet.assertMemInhibit pkt else mret pkt);
    match p with
    | InTags p => c ← drop_blk now p c; mret (c, pkt)
    | Temp => mret (set_tempBlock (Blk.invalidate b) c, pkt)
    end
  else if isWritable b && negb pending_downgrade && negb (Packet.sharedAsserted pkt)
          && negb (bool_decide (Packet.cmd pkt = MemCmd.ReadCleanReq)) then
    if isDirty b then
      if negb deferred_response then
        pkt ← Packet.assertMemInhibit pkt;
        mret (put_blk p (clear_status BlkDirty b) c, pkt)
      else mret (c, Packet.assertShared pkt)
    else mret (c, pkt)
  else mret (c, Packet.assertShared pkt).

(** [satisfyCpuSideRequest(pkt, blk, deferred_response, pending_downgrade)] *)
Definition satisfyCpuSideRequest (now : Z) (c : Cache) (pkt : Packet) (p : blkptr)
    (deferred_response pending_downgrade : bool) : res (Cache * Packet) :=
  assert_ (Packet.isRequest pkt);;
  b ← get_blk c p;
  assert_ (isValid b);;
  off ← Packet.getOffset pkt (blkSize c);
  n ← Packet.getSize pkt;
  assert_ (off + n <=? blkSize c);;
  if bool_decide (Packet.cmd pkt = MemCmd.SwapReq) then
    '(b, pkt) ← cmpAndSwap c b pkt;
    mret (put_blk p b c, pkt)
  else if Packet.isWrite pkt then
    assert_ (isWritable b);;
    '(ok, pkt, b) ← checkWrite pkt b;
    b ← (if (ok : bool) then write_block c b pkt else mret b);
    mret (put_blk p (or_status BlkDirty b) c, pkt)
  else if Packet.isRead pkt then
    b ← (if Packet.isLLSC pkt then trackLoadLocked pkt b else mret b);
    let c := put_blk p b c in
    pkt ← read_block c b pkt;
    if bool_decide (Packet.cmd pkt = MemCmd.ReadExReq) || bool_decide (Packet.cmd pkt = MemCmd.ReadSharedReq)
       || bool_decide (Packet.cmd pkt = MemCmd.ReadCleanReq) || bool_decide (Packet.cmd pkt = MemCmd.SCUpgradeFailReq) then
      assert_ (n =? blkSize c);;
      supply_block now c pkt p deferred_response pending_downgrade
    else mret (c, pkt)
  else
    assert_ (MemCmd.isUpgrade (Packet.cmd pkt) || Packet.isInvalidate pkt);;
    match p with
    | InTags p => c ← drop_blk now p c; mret (c, pkt)
    | Temp => Err Assert
    end.

(** The packet of an eviction, at tick [now]. *)
Definition evict_packet (now : Z) (c : Cache) (b : CacheBlk) (cmd : MemCmd.Command) : res Packet :=
  let r := Request_phys now (Tags.regenerateBlkAddr (tags c) (tag b) (set b)) (blkSize c) 0 0 in
  r ← (if isSecure b then setFlags r SECURE else mret r);
  let r := mkRequest (_paddr r) (_size r) (_masterId r) (_flags r) (privateFlags r) (_time r) (task_id b)
    (_asid r) (_vaddr r) (_extraData r) (_contextId r) (_threadId r) (_pc r) (translateDelta r) (accessDelta r) (depth r) in
  mret (Packet.new_Packet r cmd).

(** [writebackBlk(blk)] *)
Definition writebackBlk (now : Z) (p : blkptr) (c : Cache) : res (Cache * Packet) :=
  assert_ (negb (isReadOnly c));;
  b ← get_blk c p;
  assert_ (isValid b && isDirty b);;
  writeback ← evict_packet now c b MemCmd.Writeback;
  let b := set_tickInserted now (set_task_id UnknownTaskId b) in
  let '(b, writeback) :=
    if isWritable b then (clear_status BlkWritable b, writeback) else (b, Packet.assertShared writeback) in
  writeback ← allocate writeback;
  writeback ← Packet.setData writeback (data b);
  mret (put_blk p (clear_status BlkDirty b) c, writeback).

(** [cleanEvictBlk(blk)] *)
Definition cleanEvictBlk (now : Z) (p : blkptr) (c : Cache) : res (Cache * Packet) :=
  b ← get_blk c p;
  assert_ (isValid b && negb (isDirty b));;
  pkt ← evict_packet now c b MemCmd.CleanEvict;
  let b := set_tickInserted now (set_task_id UnknownTaskId b) in
  pkt ← allocate pkt;
  mret (put_blk p b c, pkt).

(** The packet that evicts a valid block. *)
Definition evict (now : Z) (p : blkptr) (c : Cache) : res (Cache * Packet) :=
  b ← get_blk c p;
  if isDirty b then writebackBlk now p c else cleanEvictBlk now p c.

(** [writebackAddr(addr, secure, writebacks)] *)
Definition writebackAddr (now addr : Z) (secure : bool) (c : Cache) (writebacks : list Packet) :
    res (Cache * list Packet) :=
  old_blk ← Tags.findBlock (tags c) addr secure;
  match old_blk with
  | None => mret (c, writebacks)
  | Some p =>
      b ← Tags.get_blk (tags c) p;
      if isValid b then
        '(c, pkt) ← evict now (InTags p) c;
        c ← drop_blk now p c;
        mret (c, writebacks ++ [pkt])
      else mret (c, writebacks)
  end.

(** The loop of [access] over the rows of a row operation. *)
Definition flush_block (now : Z) (secure : bool) (addrs : RowOpPayload) (s : Cache * list Packet) (i : Z) :
    res (Cache * list Packet) :=
  s ← writebackAddr now (add64 (dest addrs) i) secure s.1 s.2;
  s ← writebackAddr now (add64 (src1 addrs) i) secure s.1 s.2;
  writebackAddr now (add64 (src2 addrs) i) secure s.1 s.2.
Definition flush_rows (now : Z) (secure : bool) (addrs : RowOpPayload) (c : Cache) : res (Cache * list Packet) :=
  foldM (flush_block now secure addrs) (c, [])
    ((λ k, k * blkSize c) <$> seqZ 0 ((ROW_SIZE + blkSize c - 1) / blkSize c)).

(** [allocateBlock(addr, is_secure, writebacks)] *)
Definition allocateBlock (now addr : Z) (c : Cache) (writebacks : list Packet) :
    res (option Z * Cache * list Packet) :=
  v ← Tags.findVictim (tags c) addr;
  match v with
  | None => mret (None, c, writebacks)
  | Some p =>
      b ← Tags.get_blk (tags c) p;
      if isValid b then
        let repl_addr := Tags.regenerateBlkAddr (tags c) (tag b) (set b) in
        match findMatch (mshrQueue c) repl_addr (isSecure b) with
        | Some repl_mshr =>
            assert_ (negb (isWritable b) || isDirty b);;
            assert_ (needsExclusive repl_mshr);;
            mret (None, c, writebacks)
        | None =>
            '(c, pkt) ← evict now (InTags p) c;
            mret (Some p, c, writebacks ++ [pkt])
        end
      else mret (Some p, c, writebacks)
  end.

(** [access(pkt, blk, lat, writebacks)]: whether the request is satisfied, the block, the
    latency, the cache, the packet and the write-backs. *)
Definition access (now : Z) (c : Cache) (pkt : Packet) :
    res (bool * option Z * Z * Cache * Packet * list Packet) :=
  assert_ (Packet.isRequest pkt);;
  assert_ (negb (isReadOnly c && Packet.isWrite pkt));;
  secure ← Packet.isSecure pkt;
  if isUncacheable (Packet.req pkt) then
    '(c, writebacks) ←
      (if isRowOp (Packet.req pkt) then
         bs ← Packet.getPtr pkt;
         addrs ← RowOps.payload_of bs;
         flush_rows now secure addrs c
       else
         a ← Packet.getAddr pkt;
         writebackAddr now a secure c []);
    mret (false, None, lookupLatency c, c, pkt, writebacks)
  else
    a ← Packet.getAddr pkt;
    '(blk, lat, t) ← Tags.accessBlock now (tags c) a secure;
    let c := set_tags t c in
    let outgoing := if Packet.evictingBlock pkt then findMatches (writeBuffer c) a secure else [] in
    match outgoing with
    | wb :: rest =>
        assert_ (bool_decide (rest = []));;
        assert_ (bool_decide (Packet.cmd pkt = MemCmd.CleanEvict)
                 && bool_decide (Packet.cmd (target wb) = MemCmd.Writeback));;
        let clear e := if matches a secure e then mkMSHR (blkAddr e) (mshrSecure e) (uncacheable e) (needsExclusive e)
                         (Packet.with_flags (target e) (Flags.clear 32 (Packet.flags (target e)) Packet.BLOCK_CACHED))
                       else e in
        mret (true, blk, lat, set_writeBuffer (clear <$> writeBuffer c) c, pkt, [])
    | [] =>
        if bool_decide (Packet.cmd pkt = MemCmd.Writeback) then
          n ← Packet.getSize pkt;
          assert_ (blkSize c =? n);;
          '(blk, c, writebacks) ←
            (match blk with
             | Some p => mret (Some p, c, [])
             | None =>
                 '(v, c, writebacks) ← allocateBlock now a c [];
                 match v with
                 | None => mret (None, c, writebacks)
                 | Some p =>
                     t ← Tags.insertBlock now pkt p (tags c);
                     b ← Tags.get_blk t p;
                     let b := set_status (Z.lor (Z.lor BlkValid BlkReadable) (if (secure : bool) then BlkSecure else 0)) b in
                     mret (Some p, set_tags (Tags.put_blk p b t) c, writebacks)
                 end
             end);
          match blk with
          | None =>
              _ ← count_master c pkt;
              mret (false, None, lat, c, incAccessDepth pkt, writebacks)
          | Some p =>
              b ← Tags.get_blk (tags c) p;
              let b := or_status BlkDirty b in
              let b := if Packet.sharedAsserted pkt then b else or_status BlkWritable b in
              assert_ (negb (Packet.needsResponse pkt));;
              d ← Packet.getPtr pkt;
              bs ← memcpy (data b) 0 d 0 (blkSize c);
              _ ← count_master c pkt;
              mret (true, Some p, lat, put_blk (InTags p) (set_data bs b) c, pkt, writebacks)
          end
        else if bool_decide (Packet.cmd pkt = MemCmd.CleanEvict) then
          mret (bool_decide (is_Some blk), blk, lat, c, pkt, [])
        else
          hit ← (match blk with
                 | None => mret false
                 | Some p => b ← Tags.get_blk (tags c) p;
                             mret (if MemCmd.needsExclusive (Packet.cmd pkt) then isWritable b else isReadable b)
                 end);
          match blk, hit with
          | Some p, true =>
              _ ← count_master c pkt;
              '(c, pkt) ← satisfyCpuSideRequest now c pkt (InTags p) false false;
              mret (true, blk, lat, c, pkt, [])
          | _, _ =>
              _ ← count_master c pkt;
              let pkt := incAccessDepth pkt in
              if bool_decide (blk = None) && Packet.isLLSC pkt && Packet.isWrite pkt then
                mret (true, blk, lat, c, Packet.with_req pkt (setExtraData (Packet.req pkt) 0), [])
              else mret (false, blk, lat, c, pkt, [])
          end
    end.

(** [handleFill(pkt, blk, writebacks)]; [edge] is [clockEdge()]. *)
Definition handleFill (now edge : Z) (c : Cache) (pkt : Packet) (blk : option blkptr) (writebacks : list Packet) :
    res (blkptr * Cache * list Packet) :=
  assert_ (Packet.isResponse pkt || bool_decide (Packet.cmd pkt = MemCmd.WriteLineReq));;
  addr ← Packet.getAddr pkt;
  is_secure ← Packet.isSecure pkt;
  assert_ (bool_decide (findMatches (writeBuffer c) (blockAlign c addr) is_secure = []));;
  '(p, c, writebacks) ←
    (match blk with
     | None =>
         assert_ (Packet.hasData pkt);;
         assert_ (Packet.isRead pkt || bool_decide (Packet.cmd pkt = MemCmd.WriteLineReq));;
         '(v, c, writebacks) ← allocateBlock now addr c writebacks;
         '(p, c) ←
           (match v with
            | None =>
                assert_ (negb (isValid (tempBlock c)));;
                mret (Temp, set_tempBlock (set_tag (Tags.extractTag (tags c) addr)
                  (Blk.set_set (Tags.extractSet (tags c) addr) (tempBlock c))) c)
            | Some p => t ← Tags.insertBlock now pkt p (tags c); mret (InTags p, set_tags t c)
            end);
         b ← get_blk c p;
         assert_ (negb (isValid b));;
         mret (p, c, writebacks)
     | Some p =>
         b ← get_blk c p;
         assert_ (tag b =? Tags.extractTag (tags c) addr);;
         assert_ (Packet.hasData pkt || isValid b);;
         mret (p, c, writebacks)
     end);
  b ← get_blk c p;
  let b := if (is_secure : bool) then or_status BlkSecure b else b in
  let b := or_status (Z.lor BlkValid BlkReadable) b in
  assert_ (negb (bool_decide (Packet.cmd pkt = MemCmd.WriteLineReq))
           || (negb (Packet.sharedAsserted pkt) && negb (Packet.memInhibitAsserted pkt)));;
  b ← (if negb (Packet.sharedAsserted pkt) then
         let b := or_status BlkWritable b in
         if Packet.memInhibitAsserted pkt then
           assert_ (negb (isReadOnly c));;
           mret (or_status BlkDirty b)
         else mret b
       else mret b);
  b ← (if Packet.isRead pkt then
         assert_ (Packet.hasData pkt);;
         n ← Packet.getSize pkt;
         assert_ (n =? blkSize c);;
         d ← Packet.getPtr pkt;
         bs ← memcpy (data b) 0 d 0 (blkSize c);
         mret (set_data bs b)
       else mret b);
  let ready := u64 (edge + fillLatency c * Tags.clockPeriod (tags c) + Packet.payloadDelay pkt) in
  mret (p, put_blk p (set_whenReady ready b) c, writebacks).

(** [promoteWholeLineWrites(pkt)] *)
Definition promoteWholeLineWrites (c : Cache) (pkt : Packet) : res Packet :=
  if doFastWrites c && bool_decide (Packet.cmd pkt = MemCmd.WriteReq) then
    n ← Packet.getSize pkt;
    off ← Packet.getOffset pkt (blkSize c);
    mret (if (n =? blkSize c) && (off =? 0) then Packet.with_cmd pkt MemCmd.WriteLineReq else pkt)
  else mret pkt.

(** [getBusPacket(cpu_pkt, blk, needsExclusive)] *)
Definition getBusPacket (c : Cache) (cpu_pkt : Packet) (blk : option Z) (needsExclusive : bool) : res (option Packet) :=
  b ← (match blk with Some p => b ← Tags.get_blk (tags c) p; mret (Some b) | None => mret None end);
  let blkValid := match b with Some b => isValid b | None => false end in
  if isUncacheable (Packet.req cpu_pkt) then mret None
  else if negb blkValid && (MemCmd.isUpgrade (Packet.cmd cpu_pkt) || Packet.evictingBlock cpu_pkt) then mret None
  else
    assert_ (Packet.needsResponse cpu_pkt);;
    cmd ←
      (match b, blkValid with
       | Some b, true =>
           assert_ needsExclusive;;
           assert_ (negb (isWritable b));;
           mret (if Packet.isLLSC cpu_pkt then MemCmd.SCUpgradeReq else MemCmd.UpgradeReq)
       | _, _ =>
           mret (if bool_decide (Packet.cmd cpu_pkt = MemCmd.SCUpgradeFailReq)
                    || bool_decide (Packet.cmd cpu_pkt = MemCmd.StoreCondFailReq) then MemCmd.SCUpgradeFailReq
                 else if bool_decide (Packet.cmd cpu_pkt = MemCmd.WriteLineReq) then MemCmd.InvalidateReq
                 else if needsExclusive then MemCmd.ReadExReq
                 else if isReadOnly c then MemCmd.ReadCleanReq else MemCmd.ReadSharedReq)
       end);
    let pkt := Packet.new_Packet_blk (Packet.req cpu_pkt) cmd (blkSize c) in
    let pkt := if Packet.sharedAsserted cpu_pkt then Packet.assertShared pkt else pkt in
    a ← Packet.getAddr pkt;
    assert_ (a =? blockAlign c a);;
    pkt ← allocate pkt;
    mret (Some pkt).

(** The ports: requests to the memory side, with their latency, and snoops to the CPU side. *)
Class AtomicPorts (M : Type) := {
  sendAtomic : M → Packet → res (M * Packet * Z);
  sendAtomicSnoop : M → Packet → res (M * Packet);
}.

Section atomic.
Context {M : Type} `{!AtomicPorts M} (now edge : Z).

Definition isBlockCached (pkt : Packet) : bool := Flags.isSet (Packet.flags pkt) Packet.BLOCK_CACHED.

(** [isCachedAbove(pkt, false)] *)
Definition isCachedAbove (c : Cache) (m : M) (pkt : Packet) : res (bool * M * Packet) :=
  if negb (forwardSnoops c) then mret (false, m, pkt)
  else '(m, pkt) ← sendAtomicSnoop m pkt; mret (isBlockCached pkt, m, pkt).

(** [doWritebacksAtomic(writebacks)] *)
Definition writeback_atomic (c : Cache) (m : M) (wbPkt : Packet) : res M :=
  '(above, m, wbPkt) ← isCachedAbove c m wbPkt;
  if (above : bool) && negb (bool_decide (Packet.cmd wbPkt = MemCmd.Writeback)) then mret m
  else '(m, _, _) ← sendAtomic m wbPkt; mret m.
Definition doWritebacksAtomic (c : Cache) (m : M) (writebacks : list Packet) : res M :=
  foldM (writeback_atomic c) m writebacks.

(** The response to a request that was sent as a packet of its own. *)
Definition atomic_response (c : Cache) (pkt bus_pkt : Packet) (blk : option Z) : res (Cache * Packet * list Packet) :=
  if Packet.needsResponse pkt then
    assert_ (Packet.isResponse bus_pkt);;
    if Packet.isError bus_pkt then
      pkt ← Packet.makeResponse pkt;
      pkt ← Packet.copyError pkt bus_pkt;
      mret (c, pkt, [])
    else if bool_decide (Packet.cmd pkt = MemCmd.InvalidateReq) then
      match blk with
      | Some p => '(c, pkt) ← satisfyCpuSideRequest now c pkt (InTags p) false false; mret (c, pkt, [])
      | None => mret (c, pkt, [])
      end
    else if bool_decide (Packet.cmd pkt = MemCmd.WriteLineReq) then
      '(p, c, writebacks) ← handleFill now edge c pkt (InTags <$> blk) [];
      '(c, pkt) ← satisfyCpuSideRequest now c pkt p false false;
      mret (c, pkt, writebacks)
    else if Packet.isRead bus_pkt || bool_decide (Packet.cmd bus_pkt = MemCmd.UpgradeResp) then
      '(p, c, writebacks) ← handleFill now edge c bus_pkt (InTags <$> blk) [];
      '(c, pkt) ← satisfyCpuSideRequest now c pkt p false false;
      mret (c, pkt, writebacks)
    else
      pkt ← Packet.makeResponse pkt;
      mret (c, pkt, [])
  else mret (c, pkt, []).

(** [recvAtomic(pkt)]: the cache, the memory side, the packet and the latency. *)
Definition recvAtomic (c : Cache) (m : M) (pkt : Packet) : res (Cache * M * Packet * Z) :=
  let cycles := Tags.ticksToCycles (tags c) in
  let period := Tags.clockPeriod (tags c) in
  if bypassCaches c then
    '(m, pkt, lat) ← sendAtomic m pkt;
    l ← cycles lat;
    mret (c, m, pkt, l)
  else
    pkt ← promoteWholeLineWrites c pkt;
    if Packet.memInhibitAsserted pkt then
      if Packet.isInvalidate pkt then
        a ← Packet.getAddr pkt;
        secure ← Packet.isSecure pkt;
        blk ← Tags.findBlock (tags c) a secure;
        c ← (match blk with
             | Some p => b ← Tags.get_blk (tags c) p; if isValid b then drop_blk now p c else mret c
             | None => mret c
             end);
        '(m, pkt, lat) ← sendAtomic m pkt;
        l ← cycles lat;
        mret (c, m, pkt, (lookupLatency c + l) * period)
      else mret (c, m, pkt, lookupLatency c * period)
    else
      '(satisfied, blk, lat, c, pkt, writebacks) ← access now c pkt;
      m ← doWritebacksAtomic c m writebacks;
      '(c, m, pkt, lat, writebacks) ←
        (if (satisfied : bool) then mret (c, m, pkt, lat, [])
         else
           bus ← getBusPacket c pkt blk (MemCmd.needsExclusive (Packet.cmd pkt));
           match bus with
           | None =>
               '(m, pkt, l) ← sendAtomic m pkt;
               l ← cycles l;
               mret (c, m, pkt, lat + l, [])
           | Some bus_pkt =>
               '(m, bus_pkt, l) ← sendAtomic m bus_pkt;
               l ← cycles l;
               '(c, pkt, writebacks) ← atomic_response c pkt bus_pkt blk;
               mret (c, m, pkt, lat + l, writebacks)
           end);
      m ← doWritebacksAtomic c m writebacks;
      pkt ← (if Packet.needsResponse pkt then Packet.makeResponse pkt else mret pkt);
      mret (c, m, pkt, lat * period).

End atomic.

End Cache.
