(* ===== verification/CacheInv.v ===== *)
(** * The cache is transparent

    The blocks of a cache over a memory represent one flat memory.  In atomic mode, reads,
    writes and row operations through the cache behave like accesses to that memory. *)

From stdpp Require Import base gmap list list_numbers.
From S2P Require Import Prelude IntMath Packets AbstractMem CacheTags Cache.
Import Request Blk.
Local Open Scope Z_scope.

(** ** Moving blocks within a set *)

Lemma rotate_perm next p l : p ∈ l → ∃ l', Tags.rotate next p l = Ok l' ∧ p :: l' ≡ₚ next :: l.
Proof.
  revert next. induction l as [|x l IH]; intros next Hp; [by apply elem_of_nil in Hp|]. simpl.
  destruct (Z.eqb_spec x p) as [->|Hne].
  - eexists. split; [reflexivity|]. apply perm_swap.
  - destruct (IH x) as (l' & E & HP); [set_solver|]. rewrite E. cbn [mbind res_mbind]. eexists. split; [reflexivity|].
    by rewrite perm_swap, HP.
Qed.

Lemma moveToHead_perm p l : p ∈ l → ∃ l', Tags.moveToHead p l = Ok l' ∧ l' ≡ₚ l.
Proof.
  intros Hp. destruct l as [|x l]; [by apply elem_of_nil in Hp|]. unfold Tags.moveToHead.
  destruct (Z.eqb_spec x p) as [->|Hne]; [by eexists|].
  destruct (rotate_perm p p (x :: l) Hp) as (l' & E & HP). exists l'. split; [done|]. by apply (inj (cons p)).
Qed.

Lemma moveToTail_perm p l : p ∈ l → ∃ l', Tags.moveToTail p l = Ok l' ∧ l' ≡ₚ l.
Proof.
  intros Hp. destruct (moveToHead_perm p (reverse l)) as (l' & E & HP); [by apply elem_of_reverse|].
  unfold Tags.moveToTail. rewrite E. cbn [mbind res_mbind]. eexists. split; [reflexivity|].
  by rewrite !reverse_Permutation, HP, reverse_Permutation.
Qed.

(** ** The tags *)

Section geometry.
(** Blocks of [2^k] bytes in [2^s] sets. *)
Context (k s : Z).

Record geometry (t : Tags.Tags) : Prop := {
  geo_range : 2 ≤ k ≤ 13 ∧ 0 ≤ s < 32 ∧ 0 < Tags.assoc t ∧ Tags.allocAssoc t = Tags.assoc t;
  geo_blk : Tags.blkSize t = 2 ^ k ∧ Tags.blkMask t = 2 ^ k - 1;
  geo_set : Tags.numSets t = 2 ^ s ∧ Tags.setMask t = 2 ^ s - 1;
  geo_shift : Tags.setShift t = k ∧ Tags.tagShift t = k + s;
}.

(** The number of the block of memory a cache block holds. *)
Definition bn (b : CacheBlk) : Z := tag b * 2 ^ s + set b.

(** Block [p] of the array. *)
Record blk_ok (t : Tags.Tags) (p : Z) (b : CacheBlk) : Prop := {
  bk_place : set b = p / Tags.assoc t ∧ way b = p mod Tags.assoc t;
  bk_data : Z.of_nat (length (data b)) = 2 ^ k;
  bk_status : status b = 0 ∨ status b = 7 ∨ status b = 15;
  bk_locks : lockList b = [];
  bk_valid : isValid b = true → 0 ≤ tag b ∧ (bn b + 1) * 2 ^ k < 2 ^ 64 ∧ srcMasterId b < Tags.maxMasters t;
}.

(** Every set holds its blocks in some order. *)
Definition sets_ok (t : Tags.Tags) : Prop :=
  Z.of_nat (length (Tags.sets t)) = 2 ^ s ∧
  ∀ i l, Tags.sets t !! i = Some l → l ≡ₚ seqZ (Z.of_nat i * Tags.assoc t) (Tags.assoc t).

Definition blk_at (t : Tags.Tags) (p : Z) (b : CacheBlk) : Prop := 0 ≤ p ∧ Tags.blks t !! Z.to_nat p = Some b.

Record tags_ok (t : Tags.Tags) : Prop := {
  tk_geo : geometry t;
  tk_sets : sets_ok t;
  tk_len : Z.of_nat (length (Tags.blks t)) = 2 ^ s * Tags.assoc t;
  tk_blk p b : blk_at t p b → blk_ok t p b;
  tk_unique p q b b' : blk_at t p b → blk_at t q b' → isValid b = true → isValid b' = true → bn b = bn b' → p = q;
}.

(** The parameters of the tags, which no operation changes. *)
Definition same_params (t t' : Tags.Tags) : Prop :=
  Tags.blkSize t' = Tags.blkSize t ∧ Tags.blkMask t' = Tags.blkMask t ∧ Tags.numSets t' = Tags.numSets t ∧
  Tags.setMask t' = Tags.setMask t ∧ Tags.setShift t' = Tags.setShift t ∧ Tags.tagShift t' = Tags.tagShift t ∧
  Tags.assoc t' = Tags.assoc t ∧ Tags.allocAssoc t' = Tags.allocAssoc t ∧ Tags.maxMasters t' = Tags.maxMasters t ∧
  Tags.clockPeriod t' = Tags.clockPeriod t ∧ Tags.accessLatency t' = Tags.accessLatency t.

(** [t'] is [t] with block [p] replaced by [b] and the blocks of sets reordered. *)
Definition updates (t : Tags.Tags) (p : Z) (b : CacheBlk) (t' : Tags.Tags) : Prop :=
  same_params t t' ∧ Tags.blks t' = <[Z.to_nat p := b]> (Tags.blks t) ∧ sets_ok t'.

Lemma pow_pos x : 0 ≤ x → 0 < 2 ^ x.
Proof using Type. intros. by apply Z.pow_pos_nonneg. Qed.

Lemma get_blk_at t p b : blk_at t p b → Tags.get_blk t p = Ok b.
Proof using Type. intros [Hp Hb]. unfold Tags.get_blk, at_. rewrite decide_True by done. by rewrite Hb. Qed.

Lemma updates_at t p b b' t' q b'' :
  blk_at t p b → updates t p b' t' → blk_at t' q b'' → (q = p ∧ b'' = b') ∨ (q ≠ p ∧ blk_at t q b'').
Proof using Type.
  intros [Hp Hb] (_ & E & _) [Hq Hb'']. rewrite E in Hb''. destruct (decide (q = p)) as [->|Hne].
  - rewrite list_lookup_insert_eq in Hb'' by (by eapply lookup_lt_Some). left. by simplify_eq.
  - rewrite list_lookup_insert_ne in Hb'' by lia. right. done.
Qed.

Lemma updates_self t p b b' t' : blk_at t p b → updates t p b' t' → blk_at t' p b'.
Proof using Type.
  intros [Hp Hb] (_ & E & _). split; [done|]. rewrite E. apply list_lookup_insert_eq. by eapply lookup_lt_Some.
Qed.

Lemma updates_other t p b' t' q b : updates t p b' t' → q ≠ p → 0 ≤ p → blk_at t q b → blk_at t' q b.
Proof using Type. intros (_ & E & _) Hne Hp [Hq Hb]. split; [done|]. rewrite E. by rewrite list_lookup_insert_ne by lia. Qed.

Lemma geometry_same t t' : same_params t t' → geometry t → geometry t'.
Proof using Type. intros (E1 & E2 & E3 & E4 & E5 & E6 & E7 & E8 & E9 & _) [G1 G2 G3 G4]. split; by rewrite ?E1, ?E2, ?E3, ?E4, ?E5, ?E6, ?E7, ?E8. Qed.

Lemma blk_ok_same t t' p b : same_params t t' → blk_ok t p b → blk_ok t' p b.
Proof using Type. intros (E1 & E2 & E3 & E4 & E5 & E6 & E7 & E8 & E9 & _) [G1 G2 G3 G4 G5]. split; rewrite ?E7, ?E9; done. Qed.

(** Replacing a block by a good one with a number of its own. *)
Lemma tags_ok_updates t p b b' t' :
  tags_ok t → blk_at t p b → updates t p b' t' → blk_ok t p b' →
  (isValid b' = true → ∀ q c, q ≠ p → blk_at t q c → isValid c = true → bn c ≠ bn b') →
  tags_ok t'.
Proof using Type.
  intros [Hg Hs Hl Hb Hu] Hp Hup Hb' Hn. pose proof Hup as (Hsame & E & Hs'). split.
  - by eapply geometry_same.
  - done.
  - rewrite E, length_insert. destruct Hsame as (_ & _ & _ & _ & _ & _ & -> & _). done.
  - intros q c Hq. apply (blk_ok_same t); [done|].
    destruct (updates_at _ _ _ _ _ _ _ Hp Hup Hq) as [[-> ->]|[Hne Hq']]; [done|by apply Hb].
  - intros q1 q2 c1 c2 H1 H2 V1 V2 En.
    destruct (updates_at _ _ _ _ _ _ _ Hp Hup H1) as [[-> ->]|[N1 H1']],
      (updates_at _ _ _ _ _ _ _ Hp Hup H2) as [[-> ->]|[N2 H2']]; try done.
    + exfalso. by eapply Hn.
    + exfalso. by eapply Hn.
    + by eapply Hu.
Qed.

(** ** Addresses *)

Lemma extractSet_bn t a : geometry t → 0 ≤ a → Tags.extractSet t a = a / 2 ^ k mod 2 ^ s.
Proof using Type.
  intros [[Hk [Hs _]] _ [_ Hm] [Hsh _]] Ha. unfold Tags.extractSet. rewrite Hm, Hsh, Z.shiftr_div_pow2 by lia.
  replace (2 ^ s - 1) with (Z.ones s) by (rewrite Z.ones_equiv; lia). apply Z.land_ones. lia.
Qed.

Lemma extractTag_bn t a : geometry t → 0 ≤ a → Tags.extractTag t a = a / 2 ^ k / 2 ^ s.
Proof using Type.
  intros [[Hk [Hs _]] _ _ [_ Hsh]] Ha. unfold Tags.extractTag. rewrite Hsh, Z.shiftr_div_pow2, Z.pow_add_r by lia.
  pose proof (pow_pos k). pose proof (pow_pos s). by rewrite Z.div_div by lia.
Qed.

Lemma lor_low n x y : 0 ≤ n → 0 ≤ y < 2 ^ n → Z.lor (x * 2 ^ n) y = x * 2 ^ n + y.
Proof using Type.
  intros Hn Hy. apply lor_disjoint. apply Z.bits_inj'. intros i Hi. rewrite Z.land_spec, Z.bits_0.
  destruct (decide (i < n)); [by rewrite Z.mul_pow2_bits_low|by rewrite (testbit_high n y), andb_false_r by lia].
Qed.

Lemma regenerate_bn t b :
  geometry t → 0 ≤ tag b → 0 ≤ set b < 2 ^ s → (bn b + 1) * 2 ^ k < 2 ^ 64 →
  Tags.regenerateBlkAddr t (tag b) (set b) = bn b * 2 ^ k.
Proof using Type.
  intros [[Hk [Hs _]] _ _ [Hsh Hsh']] Ht Hset Hb. unfold Tags.regenerateBlkAddr, shl64, bn in *.
  pose proof (pow_pos k). pose proof (pow_pos s).
  rewrite Hsh, Hsh', !Z.shiftl_mul_pow2 by lia.
  assert (2 ^ (k + s) = 2 ^ s * 2 ^ k) as E by (rewrite Z.pow_add_r by lia; lia).
  rewrite !wrap_small by nia. rewrite lor_low by nia. rewrite E. ring.
Qed.

(** ** Lookup *)

Lemma status_facts b :
  status b = 0 ∨ status b = 7 ∨ status b = 15 →
  isSecure b = false ∧ isReadable b = isValid b ∧ isWritable b = isValid b ∧
  (isValid b = true ↔ status b ≠ 0) ∧ (isDirty b = true ↔ status b = 15).
Proof using Type.
  intros H. unfold isSecure, isReadable, isWritable, isValid, isDirty, has_bits.
  by destruct H as [E|[E|E]]; rewrite E; vm_compute; repeat split.
Qed.

Lemma blk_exists t p : tags_ok t → 0 ≤ p < 2 ^ s * Tags.assoc t → ∃ b, blk_at t p b ∧ blk_ok t p b.
Proof using Type.
  intros Ht Hp. destruct (lookup_lt_is_Some_2 (Tags.blks t) (Z.to_nat p)) as [b Hb]; [pose proof (tk_len t Ht); lia|].
  exists b. assert (blk_at t p b) by (split; [lia|done]). split; [done|by apply Ht].
Qed.

Lemma blk_range t p b : tags_ok t → blk_at t p b → 0 ≤ p < 2 ^ s * Tags.assoc t ∧ 0 ≤ p / Tags.assoc t < 2 ^ s.
Proof using Type.
  intros Ht [Hp Hb]. apply lookup_lt_Some in Hb. pose proof (tk_len t Ht). pose proof (geo_range t (tk_geo t Ht)) as (_ & _ & Ha & _).
  split; [lia|]. split; [apply Z.div_pos; lia|apply Z.div_lt_upper_bound; lia].
Qed.

(** The blocks of a set. *)
Lemma set_blocks t i :
  geometry t → sets_ok t → 0 ≤ i < 2 ^ s →
  ∃ l, at_ (Tags.sets t) i = Ok l ∧ Tags.sets t !! Z.to_nat i = Some l ∧
    ∀ p, p ∈ l ↔ 0 ≤ p ∧ p < 2 ^ s * Tags.assoc t ∧ p / Tags.assoc t = i.
Proof using Type.
  intros Hg [Hlen Hset] Hi. pose proof (geo_range t Hg) as (_ & _ & Ha & _).
  destruct (lookup_lt_is_Some_2 (Tags.sets t) (Z.to_nat i)) as [l Hl]; [lia|]. exists l.
  unfold at_. rewrite decide_True by lia. rewrite Hl. split; [done|]. split; [done|]. intros p.
  rewrite (Hset _ _ Hl), elem_of_seqZ, Z2Nat.id by lia. split.
  - intros H. assert (p / Tags.assoc t = i) by (symmetry; apply Z.div_unique with (p - i * Tags.assoc t); lia). nia.
  - intros (H1 & H2 & H3). pose proof (Z.div_mod p (Tags.assoc t)). pose proof (Z.mod_pos_bound p (Tags.assoc t)). nia.
Qed.

Lemma find_in_spec t tg l :
  (∀ p, p ∈ l → ∃ b, blk_at t p b ∧ isSecure b = false) →
  ∃ r, Tags.find_in t l tg false = Ok r ∧
    match r with
    | Some p => p ∈ l ∧ ∃ b, blk_at t p b ∧ isValid b = true ∧ tag b = tg
    | None => ∀ p b, p ∈ l → blk_at t p b → isValid b = true → tag b ≠ tg
    end.
Proof using Type.
  induction l as [|p l IH]; intros Hl.
  { exists None. split; [done|]. intros p b Hp. by apply elem_of_nil in Hp. }
  destruct (Hl p) as (b & Hb & Hsec); [set_solver|]. destruct IH as (r & E & Hr); [set_solver|].
  simpl. rewrite (get_blk_at _ _ _ Hb). cbn [mbind res_mbind]. rewrite Hsec. simpl. rewrite andb_true_r.
  destruct (Z.eqb_spec (tag b) tg) as [Et|Et], (isValid b) eqn:Ev; simpl.
  1: exists (Some p); split; [done|]; split; [set_solver|]; eauto.
  all: exists r; split; [done|]; destruct r as [q|];
    [destruct Hr as [Hq Hr]; split; [set_solver|done]
    |intros q b' [->|Hq]%elem_of_cons Hb' Hv; [destruct Hb as [_ Hb], Hb' as [_ Hb']; simplify_eq; congruence|by eapply Hr]].
Qed.

Lemma findBlock_spec t a :
  tags_ok t → 0 ≤ a →
  ∃ r, Tags.findBlock t a false = Ok r ∧
    match r with
    | Some p => ∃ b, blk_at t p b ∧ isValid b = true ∧ bn b = a / 2 ^ k
    | None => ∀ p b, blk_at t p b → isValid b = true → bn b ≠ a / 2 ^ k
    end.
Proof using Type.
  intros Ht Ha. pose proof (tk_geo t Ht) as Hg. pose proof (geo_range t Hg) as (Hk & Hs & Has & _).
  pose proof (pow_pos s ltac:(lia)). pose proof (pow_pos k ltac:(lia)).
  set (x := a / 2 ^ k). assert (0 ≤ x) by (apply Z.div_pos; lia). pose proof (Z.mod_pos_bound x (2 ^ s)). pose proof (Z.div_mod x (2 ^ s)).
  unfold Tags.findBlock. rewrite (extractSet_bn t a Hg Ha), (extractTag_bn t a Hg Ha). fold x.
  destruct (set_blocks t (x mod 2 ^ s) Hg (tk_sets t Ht)) as (l & E & _ & Hl); [lia|]. rewrite E. cbn [mbind res_mbind].
  destruct (find_in_spec t (x / 2 ^ s) l) as (r & Er & Hr).
  { intros p Hp. apply Hl in Hp. destruct (blk_exists t p Ht) as (b & Hb & Hok); [lia|]. exists b. split; [done|].
    apply status_facts, Hok. }
  exists r. split; [done|]. destruct r as [p|].
  - destruct Hr as (Hp & b & Hb & Hv & Et). exists b. split; [done|]. split; [done|]. apply Hl in Hp.
    destruct (bk_place t p b (tk_blk t Ht p b Hb)) as [Es _]. unfold bn. rewrite Et, Es. lia.
  - intros p b Hb Hv En. destruct (blk_range t p b Ht Hb) as [Hp1 Hp2].
    destruct (bk_place t p b (tk_blk t Ht p b Hb)) as [Es _]. unfold bn in En.
    assert (x / 2 ^ s = tag b ∧ x mod 2 ^ s = set b) as [E1 E2].
    { split; symmetry; [apply Z.div_unique with (set b)|apply Z.mod_unique with (tag b)]; lia. }
    apply (Hr p b); [|done|done|congruence]. apply Hl. lia.
Qed.

(** ** Tag operations *)

Lemma on_set_updates t p b b1 t1 b' f :
  tags_ok t → blk_at t p b → updates t p b1 t1 → (∀ l, p ∈ l → ∃ l', f l = Ok l' ∧ l' ≡ₚ l) →
  ∃ t', Tags.on_set (p / Tags.assoc t) f (Tags.put_blk p b' t1) = Ok t' ∧ updates t p b' t'.
Proof using Type.
  intros Ht Hp (Hsame & Eb & Hs1) Hf. destruct (blk_range t p b Ht Hp) as [Hp1 Hp2].
  assert (Tags.assoc t1 = Tags.assoc t) as Ea by apply Hsame.
  destruct (set_blocks t1 (p / Tags.assoc t) (geometry_same _ _ Hsame (tk_geo t Ht)) Hs1 Hp2) as (l & E & El & Hl).
  destruct (Hf l) as (l' & E' & HP); [apply Hl; rewrite Ea; lia|].
  unfold Tags.on_set. change (Tags.sets (Tags.put_blk p b' t1)) with (Tags.sets t1). rewrite E. cbn [mbind res_mbind]. rewrite E'.
  cbn [mbind res_mbind]. eexists. split; [reflexivity|]. split; [exact Hsame|].
  split; [simpl; by rewrite Eb, list_insert_insert_eq|].
  destruct Hs1 as [Hlen Hset]. split; simpl; [by rewrite length_insert|]. intros i l0 Hi.
  destruct (decide (i = Z.to_nat (p / Tags.assoc t))) as [->|Hne].
  - rewrite list_lookup_insert_eq in Hi by (by eapply lookup_lt_Some). simplify_eq. rewrite HP. by apply Hset.
  - rewrite list_lookup_insert_ne in Hi by done. by apply Hset.
Qed.

Lemma put_updates t p b b' : tags_ok t → blk_at t p b → updates t p b' (Tags.put_blk p b' t).
Proof using Type. intros Ht Hp. split; [done|]. split; [done|]. apply Ht. Qed.

Lemma updates_put t p b b1 t1 b2 :
  blk_at t p b → updates t p b1 t1 → updates t p b2 (Tags.put_blk p b2 t1).
Proof using Type.
  intros Hp (Hs & E & Ho). split; [exact Hs|]. split; [|exact Ho]. simpl. by rewrite E, list_insert_insert_eq.
Qed.

(** ** The flat memory *)

(** The memory below, by address; the cache and it represent [V]. *)
Record coherent (has : Z → Prop) (t : Tags.Tags) (mb V : Z → Z) : Prop := {
  co_data p b a : blk_at t p b → isValid b = true → 0 ≤ a → a / 2 ^ k = bn b →
    data b !! Z.to_nat (a mod 2 ^ k) = Some (V a);
  co_clean p b a : blk_at t p b → isValid b = true → isDirty b = false → 0 ≤ a → a / 2 ^ k = bn b → V a = mb a;
  co_memory a : 0 ≤ a → (∀ p b, blk_at t p b → isValid b = true → a / 2 ^ k ≠ bn b) → V a = mb a;
  co_has p b a : blk_at t p b → isValid b = true → 0 ≤ a → a / 2 ^ k = bn b → has a;
}.

(** Replacing block [b] by [b'], with [b] written back if need be. *)
Lemma coherent_replace has t p b b' t' mb V mb' V' :
  tags_ok t → coherent has t mb V → blk_at t p b → updates t p b' t' →
  (∀ a, 0 ≤ a → isValid b = false ∨ a / 2 ^ k ≠ bn b → mb' a = mb a) →
  (isValid b = true → isValid b' = false ∨ bn b' ≠ bn b → ∀ a, 0 ≤ a → a / 2 ^ k = bn b → V' a = mb' a) →
  (∀ a, 0 ≤ a → isValid b' = false ∨ a / 2 ^ k ≠ bn b' → V' a = V a) →
  (isValid b' = true → ∀ a, 0 ≤ a → a / 2 ^ k = bn b' →
     data b' !! Z.to_nat (a mod 2 ^ k) = Some (V' a) ∧ (isDirty b' = false → V' a = mb' a) ∧ has a) →
  (isValid b' = true → ∀ q c, q ≠ p → blk_at t q c → isValid c = true → bn c ≠ bn b') →
  coherent has t' mb' V'.
Proof using Type.
  intros Ht [Cd Cc Cm Ch] Hp Hup Hmb Hold HV Hnew Hu.
  assert (∀ q c a, q ≠ p → blk_at t q c → isValid c = true → 0 ≤ a → a / 2 ^ k = bn c → V' a = V a ∧ mb' a = mb a) as Hoth.
  { intros q c a Hne Hq Hv Ha Ea. split.
    - apply HV; [done|]. destruct (isValid b') eqn:Ev; [right|by left]. rewrite Ea. by eapply Hu.
    - apply Hmb; [done|]. destruct (isValid b) eqn:Ev; [right|by left]. rewrite Ea. intros E.
      apply Hne. by eapply (tk_unique t Ht). }
  split.
  - intros q c a Hq Hv Ha Ea. destruct (updates_at _ _ _ _ _ _ _ Hp Hup Hq) as [[-> ->]|[Hne Hq']]; [by apply Hnew|].
    destruct (Hoth q c a) as [-> _]; try done. by eapply Cd.
  - intros q c a Hq Hv Hd Ha Ea. destruct (updates_at _ _ _ _ _ _ _ Hp Hup Hq) as [[-> ->]|[Hne Hq']]; [by apply Hnew|].
    destruct (Hoth q c a) as [-> ->]; try done. by eapply Cc.
  - intros a Ha Hno. assert (isValid b' = false ∨ a / 2 ^ k ≠ bn b') as Hn'.
    { destruct (isValid b') eqn:Ev; [right|by left]. apply (Hno p b'); [by eapply updates_self|done]. }
    destruct (isValid b) eqn:Ev; [destruct (decide (a / 2 ^ k = bn b)) as [Ea|Ea]|].
    + apply Hold; try done. destruct Hn' as [|Hn']; [by left|right]. congruence.
    + rewrite HV, Hmb by auto. apply Cm; [done|]. intros q c Hq Hv. destruct (decide (q = p)) as [->|Hne].
      { destruct Hp as [_ Hp], Hq as [_ Hq]. by simplify_eq. }
      apply (Hno q c); [|done]. eapply updates_other; [done|done|apply Hp|done].
    + rewrite HV, Hmb by auto. apply Cm; [done|]. intros q c Hq Hv. destruct (decide (q = p)) as [->|Hne].
      { destruct Hp as [_ Hp], Hq as [_ Hq]. simplify_eq. congruence. }
      apply (Hno q c); [|done]. eapply updates_other; [done|done|apply Hp|done].
  - intros q c a Hq Hv Ha Ea. destruct (updates_at _ _ _ _ _ _ _ Hp Hup Hq) as [[-> ->]|[Hne Hq']]; [by apply Hnew|].
    by eapply Ch.
Qed.

(** ** Eviction *)

Record cache_ok (c : Cache.Cache) : Prop := {
  ck_tags : tags_ok (Cache.tags c);
  ck_temp : isValid (Cache.tempBlock c) = false;
  ck_plain : Cache.isReadOnly c = false ∧ Cache.bypassCaches c = false ∧ Cache.forwardSnoops c = false;
  ck_clock : 0 < Tags.clockPeriod (Cache.tags c) < 2 ^ 63;
}.

(** The packet that evicts block [b]. *)
Record evict_pkt (b : CacheBlk) (pkt : Packet) : Prop := {
  ep_cmd : Packet.cmd pkt = if isDirty b then MemCmd.Writeback else MemCmd.CleanEvict;
  ep_wf : ∃ d, func_wf pkt d ∧ (isDirty b = true → d = data b);
  ep_addr : Packet.addr pkt = bn b * 2 ^ k ∧ Packet.size pkt = 2 ^ k;
  ep_plain : Packet.memInhibitAsserted pkt = false ∧ Packet.isRowOp pkt = false ∧
    isInstFetch (Packet.req pkt) = false ∧ getPaddr (Packet.req pkt) = Ok (bn b * 2 ^ k);
  ep_cacheable : Packet._isSecure pkt = false ∧ isUncacheable (Packet.req pkt) = false;
}.

Definition evict_request (now A B task : Z) : Request :=
  mkRequest A B 0 0 (Z.lor Request.VALID_PADDR Request.VALID_SIZE) now task 0 0 0 0 0 0 0 0 0.

Lemma evict_packet_ok now c b cmd :
  isSecure b = false →
  Cache.evict_packet now c b cmd =
    Ok (Packet.mkPacket 0x300 cmd
      (evict_request now (Tags.regenerateBlkAddr (Cache.tags c) (tag b) (set b)) (Cache.blkSize c) (task_id b))
      None (Tags.regenerateBlkAddr (Cache.tags c) (tag b) (set b)) false (Cache.blkSize c) [] 0 0 0 []).
Proof using Type.
  intros Hs. unfold Cache.evict_packet. rewrite Hs.
  generalize (Tags.regenerateBlkAddr (Cache.tags c) (tag b) (set b)) as A. generalize (Cache.blkSize c) as B. done.
Qed.

Lemma memcpy_all {A} (dst src : list A) n :
  Z.of_nat (length dst) = n → Z.of_nat (length src) = n → memcpy dst 0 src 0 n = Ok src.
Proof using Type.
  intros Hd Hs. unfold memcpy. rewrite decide_True by lia. change (Z.to_nat 0) with 0%nat.
  by rewrite take_0, drop_0, (take_ge src), (drop_ge dst), app_nil_r by lia.
Qed.

(** The packet with [d] as its bytes. *)
Definition evict_packet_of (now : Z) (b : CacheBlk) (cmd : MemCmd.Command) (d : list Z) : Packet :=
  Packet.mkPacket 0x2300 cmd (evict_request now (bn b * 2 ^ k) (2 ^ k) (task_id b)) (Some d) (bn b * 2 ^ k) false (2 ^ k) [] 0 0 0 [].

Lemma evict_packet_of_ok now b d :
  2 ≤ k ≤ 13 → 0 ≤ bn b → (bn b + 1) * 2 ^ k < 2 ^ 64 → Z.of_nat (length d) = 2 ^ k → (isDirty b = true → d = data b) →
  evict_pkt b (evict_packet_of now b (if isDirty b then MemCmd.Writeback else MemCmd.CleanEvict) d).
Proof using Type.
  intros Hk Hb Hbn Hlen Hd. pose proof (pow_pos k ltac:(lia)). assert (2 ^ k ≤ 2 ^ 13) by (apply Z.pow_le_mono_r; lia).
  split; [done| |done|by destruct (isDirty b)|done]. exists d. split; [|done]. split; try done. simpl. nia.
Qed.

(** [evict] leaves the block valid, and produces its packet. *)
Lemma evict_ok now c p b :
  cache_ok c → blk_at (Cache.tags c) p b → isValid b = true →
  ∃ b1 pkt, Cache.evict now (Cache.InTags p) c = Ok (Cache.put_blk (Cache.InTags p) b1 c, pkt) ∧ evict_pkt b pkt ∧
    isValid b1 = true ∧ set b1 = set b ∧ way b1 = way b ∧ srcMasterId b1 = srcMasterId b ∧ data b1 = data b ∧ isSecure b1 = false ∧ whenReady b1 = whenReady b.
Proof using Type.
  intros Hc Hp Hv. pose proof (ck_tags c Hc) as Ht. pose proof (tk_geo _ Ht) as Hg. pose proof (tk_blk _ Ht p b Hp) as Hb.
  pose proof (geo_range _ Hg) as (Hk & Hs & _). pose proof (pow_pos k ltac:(lia)). pose proof (pow_pos s ltac:(lia)).
  destruct (bk_valid _ _ _ Hb Hv) as (Htag & Hbn & Hm). destruct (status_facts b (bk_status _ _ _ Hb)) as (Hsec & Hr & Hw & Hvs & Hds).
  destruct (blk_range _ p b Ht Hp) as [_ Hset]. rewrite <- (proj1 (bk_place _ _ _ Hb)) in Hset.
  pose proof (regenerate_bn _ b Hg Htag Hset Hbn) as Hreg. pose proof (proj1 (geo_blk _ Hg)) as Hbs.
  pose proof (bk_data _ _ _ Hb) as Hlen. assert (2 ^ k ≤ 2 ^ 13) by (apply Z.pow_le_mono_r; lia).
  assert (0 ≤ bn b) by (unfold bn; nia).
  unfold Cache.evict. cbn [Cache.get_blk]. rewrite (get_blk_at _ _ _ Hp). cbn [mbind res_mbind].
  pose proof (evict_packet_of_ok now b) as Hpkt. destruct (ck_plain c Hc) as (Hro & _ & _).
  destruct (isDirty b) eqn:Ed.
  - unfold Cache.writebackBlk. rewrite Hro. cbn [Cache.get_blk negb check mbind res_mbind]. rewrite (get_blk_at _ _ _ Hp).
    cbn [mbind res_mbind]. rewrite Hv, Ed. cbn [andb check mbind res_mbind]. rewrite evict_packet_ok, Hreg by done. unfold Cache.blkSize.
    rewrite Hbs. cbn [mbind res_mbind].
    change (isWritable (set_tickInserted now (set_task_id UnknownTaskId b))) with (isWritable b). rewrite Hw, Hv.
    change (Cache.allocate _) with (Ok (evict_packet_of now b MemCmd.Writeback (replicate (Z.to_nat (2 ^ k)) 0))).
    cbn [mbind res_mbind]. unfold Packet.setData.
    change (Packet.getPtr _) with (Ok (replicate (Z.to_nat (2 ^ k)) 0)). change (Packet.getSize _) with (Ok (2 ^ k)).
    cbn [mbind res_mbind]. rewrite memcpy_all by (try rewrite length_replicate; simpl; lia). cbn [mbind res_mbind].
    eexists _, (evict_packet_of now b MemCmd.Writeback (data b)). split; [reflexivity|]. split; [apply Hpkt; done || lia|].
    assert (status b = 15) as E15 by (by apply Hds). simpl. repeat split; unfold isValid, isSecure; simpl; by rewrite E15.
  - unfold Cache.cleanEvictBlk. cbn [Cache.get_blk]. rewrite (get_blk_at _ _ _ Hp).
    cbn [mbind res_mbind]. rewrite Hv, Ed. cbn [andb negb check mbind res_mbind]. rewrite evict_packet_ok, Hreg by done. unfold Cache.blkSize.
    rewrite Hbs. cbn [mbind res_mbind].
    change (Cache.allocate _) with (Ok (evict_packet_of now b MemCmd.CleanEvict (replicate (Z.to_nat (2 ^ k)) 0))).
    cbn [mbind res_mbind]. eexists _, (evict_packet_of now b MemCmd.CleanEvict (replicate (Z.to_nat (2 ^ k)) 0)). split; [reflexivity|].
    split; [apply Hpkt; [lia..|rewrite length_replicate; lia|done]|]. done.
Qed.

(** [tags->invalidate(blk); blk->invalidate();] *)
Lemma drop_blk_ok now c t p b b1 :
  tags_ok t → blk_at t p b → updates t p b1 (Cache.tags c) →
  isValid b1 = true → set b1 = set b → srcMasterId b1 < Tags.maxMasters t →
  ∃ t' b', Cache.drop_blk now p c = Ok (Cache.set_tags t' c) ∧ updates t p b' t' ∧
    status b' = 0 ∧ set b' = set b ∧ way b' = way b1 ∧ data b' = data b1 ∧ lockList b' = [] ∧ whenReady b' = whenReady b1.
Proof using Type.
  intros Ht Hp Hup Hv Eset Hm. unfold Cache.drop_blk, Tags.invalidate.
  pose proof (updates_self _ _ _ _ _ Hp Hup) as Hp1. rewrite (get_blk_at _ _ _ Hp1). cbn [mbind res_mbind]. rewrite Hv.
  cbn [check mbind res_mbind]. assert (Tags.maxMasters (Cache.tags c) = Tags.maxMasters t) as -> by apply Hup.
  rewrite (proj2 (Z.ltb_lt _ _) Hm). cbn [check mbind res_mbind].
  set (b2 := set_tickInserted now _). assert (set b2 = p / Tags.assoc t) as -> by (rewrite <- (proj1 (bk_place _ _ _ (tk_blk t Ht p b Hp))); exact Eset).
  destruct (on_set_updates t p b b1 _ b2 (Tags.moveToTail p) Ht Hp Hup) as (t2 & E2 & Hup2); [by apply moveToTail_perm|].
  rewrite E2. cbn [mbind res_mbind]. rewrite (get_blk_at _ _ _ (updates_self _ _ _ _ _ Hp Hup2)). cbn [mbind res_mbind].
  eexists _, (Blk.invalidate b2). split; [reflexivity|]. split; [by eapply updates_put|]. done.
Qed.

Lemma invalid_blk_ok t p b b' :
  blk_ok t p b → status b' = 0 → set b' = set b → way b' = way b → data b' = data b → lockList b' = [] → blk_ok t p b'.
Proof using Type.
  intros [H1 H2 H3 H4 H5] Es Eset Ew Ed El. split; [by rewrite Eset, Ew|by rewrite Ed|by left|done|].
  unfold isValid. by rewrite Es.
Qed.

Lemma cache_ok_tags c t' :
  cache_ok c → tags_ok t' → Tags.clockPeriod t' = Tags.clockPeriod (Cache.tags c) → cache_ok (Cache.set_tags t' c).
Proof using Type. intros [H1 H2 H3 H4] Ht E. split; try done. simpl. by rewrite E. Qed.

(** A packet sent to the memory changes its bytes. *)
Definition wrote (pkt : Packet) (d : list Z) (mb mb' : Z → Z) : Prop :=
  ∀ a, mb' a = if decide (Packet.addr pkt ≤ a < Packet.addr pkt + Packet.size pkt)
               then default 0 (d !! Z.to_nat (a - Packet.addr pkt)) else mb a.

(** Eviction packets and the memory after them. *)
Inductive evictions (has : Z → Prop) : list Packet → (Z → Z) → (Z → Z) → Prop :=
  | evictions_nil mb : evictions has [] mb mb
  | evictions_snoc pkts mb mb1 mb2 pkt b :
      evictions has pkts mb mb1 → evict_pkt b pkt → Forall (λ x, 0 ≤ x < 256) (data b) → (∀ a, 0 ≤ a → a / 2 ^ k = bn b → has a) →
      (if isDirty b then wrote pkt (data b) mb1 mb2 else ∀ a, mb2 a = mb1 a) →
      evictions has (pkts ++ [pkt]) mb mb2.

(** The memory after the eviction of [b]. *)
Definition evicted (b : CacheBlk) (mb V : Z → Z) : Z → Z :=
  λ a, if isDirty b && bool_decide (0 ≤ a ∧ a / 2 ^ k = bn b) then V a else mb a.

Lemma block_range x a : 2 ≤ k → 0 ≤ x → (x * 2 ^ k ≤ a < x * 2 ^ k + 2 ^ k) ↔ (0 ≤ a ∧ a / 2 ^ k = x).
Proof using Type.
  intros Hk Hx. pose proof (pow_pos k ltac:(lia)). split.
  - intros Ha. split; [nia|]. symmetry. apply Z.div_unique with (a - x * 2 ^ k); lia.
  - intros [Ha E]. pose proof (Z.div_mod a (2 ^ k)). pose proof (Z.mod_pos_bound a (2 ^ k)). nia.
Qed.

Lemma evicted_wrote has t p b pkt mb V :
  2 ≤ k → coherent has t mb V → blk_at t p b → isValid b = true → 0 ≤ bn b → evict_pkt b pkt →
  if isDirty b then wrote pkt (data b) mb (evicted b mb V) else ∀ a, evicted b mb V a = mb a.
Proof using Type.
  intros Hk Hco Hp Hv Hbn [_ _ [Ea En] _ _]. unfold evicted, wrote. destruct (isDirty b) eqn:Ed; [|done]. intros a. simpl. rewrite Ea, En.
  pose proof (block_range (bn b) a Hk Hbn) as Hr. case_bool_decide as D; [|by rewrite decide_False by tauto].
  rewrite decide_True by tauto. destruct D as [Ha D]. pose proof (co_data has t mb V Hco p b a Hp Hv Ha D) as E.
  replace (a - bn b * 2 ^ k) with (a mod 2 ^ k); [by rewrite E|].
  pose proof (pow_pos k ltac:(lia)). pose proof (Z.div_mod a (2 ^ k)). lia.
Qed.

Lemma co_bytes has t mb V p b :
  tags_ok t → coherent has t mb V → (∀ a, 0 ≤ V a < 256) → blk_at t p b → isValid b = true → 0 ≤ bn b →
  Forall (λ x, 0 ≤ x < 256) (data b).
Proof using Type.
  intros Ht Hco HV Hp Hv Hbn. apply Forall_lookup_2. intros i x Hi. pose proof (geo_range _ (tk_geo _ Ht)) as (Hk & _).
  pose proof (pow_pos k ltac:(lia)). pose proof (lookup_lt_Some _ _ _ Hi) as Hlt. pose proof (bk_data _ _ _ (tk_blk _ Ht p b Hp)) as Hl.
  pose proof (co_data has t mb V Hco p b (bn b * 2 ^ k + Z.of_nat i) Hp Hv ltac:(nia)) as E.
  rewrite Z.div_add_l, Z.div_small, Z.add_0_r, Z.add_comm, Z.mod_add, Z.mod_small, Nat2Z.id, Hi in E by lia.
  specialize (E eq_refl). simplify_eq. apply HV.
Qed.

(** The numbers of the blocks in the cache. *)
Definition cached (t : Tags.Tags) (x : Z) : Prop := ∃ p b, blk_at t p b ∧ isValid b = true ∧ bn b = x.

(** What no operation changes. *)
Definition same_cache (c c' : Cache.Cache) : Prop :=
  c' = Cache.set_tags (Cache.tags c') c ∧ same_params (Cache.tags c) (Cache.tags c').

Lemma same_params_trans t1 t2 t3 : same_params t1 t2 → same_params t2 t3 → same_params t1 t3.
Proof using Type. unfold same_params. intuition congruence. Qed.
Lemma same_cache_refl c : same_cache c c.
Proof using Type. split; [by destruct c|done]. Qed.
Lemma same_cache_trans c1 c2 c3 : same_cache c1 c2 → same_cache c2 c3 → same_cache c1 c3.
Proof using Type. intros [E1 P1] [E2 P2]. split; [rewrite E2; by rewrite E1|by eapply same_params_trans]. Qed.

Lemma bn_pos t p b : tags_ok t → blk_at t p b → isValid b = true → 0 ≤ bn b.
Proof using Type.
  intros Ht Hp Hv. pose proof (tk_blk _ Ht p b Hp) as Hb. destruct (bk_valid _ _ _ Hb Hv) as (? & _).
  destruct (blk_range t p b Ht Hp) as [_ Hr]. rewrite <- (proj1 (bk_place _ _ _ Hb)) in Hr. unfold bn.
  pose proof (geo_range _ (tk_geo _ Ht)) as (_ & Hs & _). pose proof (pow_pos s ltac:(lia)). nia.
Qed.

(** Every block is ready by [B]. *)
Definition ready_by (B : Z) (t : Tags.Tags) : Prop := ∀ p b, blk_at t p b → whenReady b ≤ B.

Lemma ready_updates B t p b b' t' : ready_by B t → blk_at t p b → updates t p b' t' → whenReady b' ≤ B → ready_by B t'.
Proof using Type. intros HB Hp Hup Hb q e Hq. destruct (updates_at _ _ _ _ _ _ _ Hp Hup Hq) as [[-> ->]|[_ Hq']]; [done|by eapply HB]. Qed.

Lemma writebackAddr_ok has now a c wbs mb0 mb V :
  cache_ok c → coherent has (Cache.tags c) mb V → (∀ a, 0 ≤ V a < 256) → evictions has wbs mb0 mb → 0 ≤ a →
  ∃ c' wbs' mb', Cache.writebackAddr now a false c wbs = Ok (c', wbs') ∧ same_cache c c' ∧ cache_ok c' ∧
    coherent has (Cache.tags c') mb' V ∧ evictions has wbs' mb0 mb' ∧
    (∀ x, cached (Cache.tags c') x → cached (Cache.tags c) x ∧ x ≠ a / 2 ^ k) ∧
    (wbs' = wbs ∨ ∃ pkt, wbs' = wbs ++ [pkt] ∧ Packet.addr pkt = a / 2 ^ k * 2 ^ k ∧ cached (Cache.tags c) (a / 2 ^ k)) ∧
    ∀ B, ready_by B (Cache.tags c) → ready_by B (Cache.tags c').
Proof using Type.
  intros Hc Hco HV Hev Ha. pose proof (ck_tags c Hc) as Ht. unfold Cache.writebackAddr.
  destruct (findBlock_spec _ a Ht Ha) as (r & E & Hr). rewrite E. cbn [mbind res_mbind]. destruct r as [p|].
  2:{ eexists _, _, mb. split; [reflexivity|]. split; [apply same_cache_refl|]. split; [done|]. split; [done|]. split; [done|].
      split; [|split; [by left|done]]. intros x (q & b & Hq & Hv & <-). split; [by exists q, b|by eapply Hr]. }
  destruct Hr as (b & Hp & Hv & Hbn). rewrite (get_blk_at _ _ _ Hp). cbn [mbind res_mbind]. rewrite Hv.
  destruct (evict_ok now c p b Hc Hp Hv) as (b1 & pkt & Ee & Hpkt & Hv1 & Es1 & Ew1 & Em1 & Ed1 & _ & Er1). rewrite Ee. cbn [mbind res_mbind].
  pose proof (tk_blk _ Ht p b Hp) as Hb. destruct (bk_valid _ _ _ Hb Hv) as (_ & _ & Hm).
  destruct (drop_blk_ok now (Cache.put_blk (Cache.InTags p) b1 c) (Cache.tags c) p b b1 Ht Hp)
    as (t' & b' & Ed & Hup & Es & Eset & Ew & Edat & El & Er); [by eapply put_updates|done|done|lia|]. rewrite Ed. cbn [mbind res_mbind].
  assert (isValid b' = false) as Hv' by (unfold isValid; by rewrite Es).
  assert (tags_ok t') as Ht'.
  { eapply (tags_ok_updates _ p b b' t'); [done|done|done| |by rewrite Hv']. eapply invalid_blk_ok; [done|done|done|congruence..]. }
  pose proof (bn_pos _ p b Ht Hp Hv). pose proof (geo_range _ (tk_geo _ Ht)) as (Hk & _).
  eexists _, _, (evicted b mb V). split; [reflexivity|].
  split; [split; [done|apply Hup]|]. split; [apply (cache_ok_tags c t'); [done|done|apply Hup]|].
  split; [|split; [|split; [|split; [right; exists pkt; rewrite <- Hbn; split; [done|]; split; [apply Hpkt|by exists p, b]|]]]].
  - eapply (coherent_replace has (Cache.tags c) p b b' t' mb V); try done; [..|by rewrite Hv'|by rewrite Hv'].
    + intros a' Ha' Hor. unfold evicted. rewrite bool_decide_false, andb_false_r; [done|]. intros [_ D]. destruct Hor; congruence.
    + intros _ _ a' Ha' D. unfold evicted. rewrite bool_decide_true by done. rewrite andb_true_r.
      destruct (isDirty b) eqn:Edb; [done|]. by eapply (co_clean _ _ _ _ Hco p b).
  - econstructor; [done|done|by apply (co_bytes has (Cache.tags c) mb V p b)|by intros; eapply (co_has _ _ _ _ Hco)|]. eapply evicted_wrote; try done. lia.
  - intros x (q & b2 & Hq & Hvq & <-). destruct (updates_at _ _ _ _ _ _ _ Hp Hup Hq) as [[-> ->]|[Hne Hq']]; [congruence|].
    split; [by exists q, b2|]. intros D. apply Hne. eapply (tk_unique _ Ht); [done|done|done|done|congruence].
  - intros B HB. apply (ready_updates B (Cache.tags c) p b b' t'); [done..|]. rewrite Er, Er1. by eapply HB.
Qed.

(** ** The flush of the rows of a row operation *)

(** The evicted blocks have left the cache, each once. *)
Record moved (c : Cache.Cache) (st : Cache.Cache * list Packet) : Prop := {
  mv_sub x : cached (Cache.tags st.1) x → cached (Cache.tags c) x;
  mv_from pkt : pkt ∈ st.2 → ∃ x, Packet.addr pkt = x * 2 ^ k ∧ cached (Cache.tags c) x ∧ ¬ cached (Cache.tags st.1) x;
  mv_once : NoDup (Packet.addr <$> st.2);
}.

Lemma moved_snoc c c1 c' wbs pkt x :
  0 < 2 ^ k → moved c (c1, wbs) → (∀ y, cached (Cache.tags c') y → cached (Cache.tags c1) y ∧ y ≠ x) →
  Packet.addr pkt = x * 2 ^ k → cached (Cache.tags c1) x → moved c (c', wbs ++ [pkt]).
Proof using Type.
  intros Hk [Hs Hf Ho] Hx Ea Hc. simpl in *. split; simpl.
  - intros y Hy. by apply Hs, Hx.
  - intros q [Hq| ->%list_elem_of_singleton]%elem_of_app.
    + destruct (Hf q Hq) as (y & ? & ? & Hn). exists y. split; [done|]. split; [done|]. intros Hy. by apply Hn, Hx.
    + exists x. split; [done|]. split; [by apply Hs|]. intros Hy. by apply (Hx x Hy).
  - rewrite fmap_app. apply NoDup_app. split; [done|]. split; [|apply NoDup_singleton]. intros y Hy ->%list_elem_of_singleton.
    apply list_elem_of_fmap in Hy as (q & E & Hq). destruct (Hf q Hq) as (z & Ez & _ & Hn). apply Hn. by assert (z = x) as -> by nia.
Qed.

(** A step of the flush, from cache [c] with memory [mb0] to [c'] with [mb]. *)
Record flushing (has : Z → Prop) (V mb0 : Z → Z) (c : Cache.Cache) (gone : Z → Prop) (st : Cache.Cache * list Packet) : Prop := {
  fl_same : same_cache c st.1;
  fl_ok : cache_ok st.1;
  fl_co : ∃ mb, coherent has (Cache.tags st.1) mb V ∧ evictions has st.2 mb0 mb;
  fl_gone x : gone x → ¬ cached (Cache.tags st.1) x;
  fl_moved : moved c st;
  fl_ready B : ready_by B (Cache.tags c) → ready_by B (Cache.tags st.1);
}.

Lemma flush_addr has V mb0 c gone st now a :
  (∀ a, 0 ≤ V a < 256) → flushing has V mb0 c gone st → 0 ≤ a →
  ∃ st', Cache.writebackAddr now a false st.1 st.2 = Ok st' ∧ flushing has V mb0 c (λ x, gone x ∨ x = a / 2 ^ k) st'.
Proof using Type.
  intros HV [Hs Hc (mb & Hco & Hev) Hg Hmv Hrd] Ha. pose proof (pow_pos k ltac:(pose proof (geo_range _ (tk_geo _ (ck_tags _ Hc))); lia)) as Hk.
  destruct (writebackAddr_ok has now a st.1 st.2 mb0 mb V Hc Hco HV Hev Ha) as (c' & wbs' & mb' & E & Hs' & Hc' & Hco' & Hev' & Hx & Hw & Hrd').
  exists (c', wbs'). split; [done|]. split; simpl; [by eapply same_cache_trans|done|eauto| | |by intros; apply Hrd', Hrd].
  - intros x Hor Hcx. destruct (Hx x Hcx) as [Hcx' Hne]. destruct Hor; [by eapply Hg|done].
  - destruct st as [c1 wbs]. simpl in *. destruct Hw as [->|(pkt & -> & Ea & Hca)]; [|by eapply moved_snoc].
    destruct Hmv as [M1 M2 M3]. split; simpl in *; [intros x Hcx; by apply M1, Hx| |done].
    intros q Hq. destruct (M2 q Hq) as (x & ? & ? & Hn). exists x. split; [done|]. split; [done|]. intros Hcx. by apply Hn, Hx.
Qed.

Lemma flush_rows_ok has now c a mb V :
  cache_ok c → coherent has (Cache.tags c) mb V → (∀ a, 0 ≤ V a < 256) →
  ∃ st, Cache.flush_rows now false a c = Ok st ∧
    flushing has V mb c (λ x, ∃ r y, r ∈ [dest a; src1 a; src2 a] ∧ r mod 2 ^ k = 0 ∧ 0 ≤ r ∧ r + ROW_SIZE < 2 ^ 64 ∧
      r ≤ y < r + ROW_SIZE ∧ x = y / 2 ^ k) st.
Proof using Type.
  intros Hc Hco HV. pose proof (tk_geo _ (ck_tags c Hc)) as Hg. pose proof (geo_range _ Hg) as (Hk & _).
  pose proof (pow_pos k ltac:(lia)) as Hpos. unfold Cache.flush_rows, Cache.blkSize. rewrite (proj1 (geo_blk _ Hg)).
  set (l := (λ i, i * 2 ^ k) <$> _).
  destruct (foldM_ok (λ l st, flushing has V mb c (λ x, ∃ r i, r ∈ [dest a; src1 a; src2 a] ∧ i ∈ l ∧ x = add64 r i / 2 ^ k) st)
    (Cache.flush_block now false a) l (c, [])) as (st & E & Hst).
  - split; simpl; [apply same_cache_refl|done|exists mb; split; [done|constructor]| |split; simpl; [done|by intros ? ?%elem_of_nil|constructor]|done].
    intros x (r & i & _ & Hi & _). by apply elem_of_nil in Hi.
  - intros l0 i l2 st _ Hst. unfold Cache.flush_block. assert (∀ r, 0 ≤ add64 r i) as H64 by (intros r; apply wrap_range; lia).
    destruct (flush_addr has V mb c _ st now (add64 (dest a) i) HV Hst (H64 _)) as (st1 & -> & H1). cbn [mbind res_mbind].
    destruct (flush_addr has V mb c _ st1 now (add64 (src1 a) i) HV H1 (H64 _)) as (st2 & -> & H2). cbn [mbind res_mbind].
    destruct (flush_addr has V mb c _ st2 now (add64 (src2 a) i) HV H2 (H64 _)) as (st3 & -> & [H31 H32 H33 H34 H35 H36]).
    exists st3. split; [done|]. split; [done..| |done|done]. intros x (r & j & Hr & Hj & ->). apply H34.
    apply elem_of_app in Hj as [Hj|Hj%list_elem_of_singleton]; [left; left; left; by exists r, j|]. subst j.
    rewrite !elem_of_cons, elem_of_nil in Hr. destruct Hr as [->|[->|[->|[]]]]; auto.
  - exists st. split; [done|]. destruct Hst as [H1 H2 H3 H4 H5 H6]. split; [done..| |done|done].
    intros x (r & y & Hr & Hal & Hr0 & Hr1 & Hy & ->). apply H4. exists r, ((y - r) / 2 ^ k * 2 ^ k).
    assert (0 ≤ (y - r) / 2 ^ k) by (apply Z.div_pos; lia). pose proof (Z.div_mod (y - r) (2 ^ k)). pose proof (Z.mod_pos_bound (y - r) (2 ^ k)).
    split; [done|]. split.
    + unfold l. apply list_elem_of_fmap. eexists. split; [reflexivity|]. apply elem_of_seqZ. split; [done|].
      apply Z.lt_le_trans with ((y - r) / 2 ^ k + 1); [lia|]. apply Z.div_le_lower_bound; lia.
    + rewrite add64_small by lia. pose proof (Z.div_mod r (2 ^ k)). transitivity (r / 2 ^ k + (y - r) / 2 ^ k).
      * symmetry. apply Z.div_unique with ((y - r) mod 2 ^ k); lia.
      * apply Z.div_unique with 0; lia.
Qed.

(** A row operation evicts at most three blocks for each block of a row. *)
Definition flush_limit : Z := 3 * ((ROW_SIZE + 2 ^ k - 1) / 2 ^ k).

Lemma writebackAddr_length now a sec st st' :
  Cache.writebackAddr now a sec st.1 st.2 = Ok st' → (length st'.2 ≤ length st.2 + 1)%nat.
Proof using Type.
  unfold Cache.writebackAddr. intros E. res_inv. destruct r as [z|]; [|injection E as <-; simpl; lia]. res_inv.
  destruct (isValid _); [|injection E as <-; simpl; lia]. destruct (Cache.evict _ _ _) as [[c1 pkt]|]; [|done]. cbn [mbind res_mbind] in E.
  destruct (Cache.drop_blk _ _ _); [|done]. injection E as <-. simpl. rewrite length_app. simpl. lia.
Qed.

Lemma flush_rows_length now sec a c st :
  geometry (Cache.tags c) → Cache.flush_rows now sec a c = Ok st → Z.of_nat (length st.2) ≤ flush_limit.
Proof using Type.
  intros Hg E. pose proof (geo_range _ Hg) as (Hk & _). pose proof (pow_pos k ltac:(lia)). unfold Cache.flush_rows, Cache.blkSize in E. rewrite (proj1 (geo_blk _ Hg)) in E.
  assert (∀ l st0 st1, foldM (Cache.flush_block now sec a) st0 l = Ok st1 → (length st1.2 ≤ length st0.2 + 3 * length l)%nat) as Hl.
  { induction l as [|i l IH]; intros st0 st1 E1; simpl in E1; [injection E1 as <-; simpl; lia|]. res_inv. specialize (IH _ _ E1).
    unfold Cache.flush_block in *. res_inv. repeat match goal with H : Cache.writebackAddr _ _ _ _ _ = Ok _ |- _ => apply writebackAddr_length in H end. simpl. lia. }
  specialize (Hl _ _ _ E). rewrite length_fmap, length_seqZ in Hl. simpl in Hl. unfold flush_limit.
  assert (0 ≤ (ROW_SIZE + 2 ^ k - 1) / 2 ^ k) by (apply Z.div_pos; [unfold ROW_SIZE; lia|lia]). lia.
Qed.

(** ** Hits and replacement *)

(** The cycles of a hit: those of a lookup, or until the block is ready. *)
Definition hit_latency (now : Z) (t : Tags.Tags) (b : CacheBlk) (lat : Z) : Prop :=
  0 ≤ now → 0 < Tags.clockPeriod t → whenReady b + Tags.clockPeriod t < 2 ^ 64 →
  lat = Tags.accessLatency t ∨ 0 ≤ lat ∧ Tags.clockPeriod t * lat < whenReady b - now + Tags.clockPeriod t.

Lemma accessBlock_ok now t a :
  tags_ok t → 0 ≤ a → Tags.clockPeriod t ≠ 0 →
  ∃ r lat t', Tags.accessBlock now t a false = Ok (r, lat, t') ∧
    match r with
    | Some p => ∃ b, blk_at t p b ∧ isValid b = true ∧ bn b = a / 2 ^ k ∧ updates t p (set_refCount (u32 (refCount b + 1)) b) t' ∧
        hit_latency now t b lat
    | None => t' = t ∧ ¬ cached t (a / 2 ^ k)
    end.
Proof using Type.
  intros Ht Ha Hck. unfold Tags.accessBlock. destruct (findBlock_spec t a Ht Ha) as (r & -> & Hr). cbn [mbind res_mbind].
  destruct r as [p|]; [|eexists None, _, t; split; [reflexivity|]; split; [done|]; intros (p & b & Hp & Hv & E); by eapply Hr].
  destruct Hr as (b & Hp & Hv & Hbn). rewrite (get_blk_at _ _ _ Hp). cbn [mbind res_mbind].
  assert (∃ lat, (if now <? whenReady b then d ← Tags.ticksToCycles t (whenReady b - now);
    mret (if Tags.accessLatency t <? d then d else Tags.accessLatency t) else mret (Tags.accessLatency t)) = Ok lat ∧ hit_latency now t b lat) as (lat & -> & Hlat).
  { destruct (Z.ltb_spec now (whenReady b)); [|eexists; split; [reflexivity|by left]].
    unfold Tags.ticksToCycles, IntMath.divCeil. destruct (Z.eqb_spec (Tags.clockPeriod t) 0); [done|]. cbn [mbind res_mbind mret res_mret].
    eexists. split; [reflexivity|]. intros Hn Hcp Hfit. case_match; [right|by left].
    rewrite (wrap_small 64 (whenReady b - now + Tags.clockPeriod t)), (wrap_small 64 (_ - 1)) by lia.
    split; [apply Z.div_pos; lia|]. pose proof (Z.mul_div_le (whenReady b - now + Tags.clockPeriod t - 1) (Tags.clockPeriod t)). lia. }
  cbn [mbind res_mbind]. pose proof (proj1 (bk_place _ _ _ (tk_blk t Ht p b Hp))) as Es. rewrite Es.
  destruct (on_set_updates t p b b t (set_refCount (u32 (refCount b + 1)) b) (Tags.moveToHead p) Ht Hp) as (t' & E & Hup);
    [|by apply moveToHead_perm|].
  { split; [done|]. split; [|apply Ht]. symmetry. apply list_insert_id, Hp. }
  rewrite E. cbn [mbind res_mbind]. eexists (Some p), lat, t'. split; [reflexivity|]. by exists b.
Qed.

(** The victim is a block of the set, as every way may be allocated. *)
Lemma findVictim_ok t a :
  tags_ok t → 0 ≤ a →
  ∃ p b, Tags.findVictim t a = Ok (Some p) ∧ blk_at t p b ∧ p / Tags.assoc t = a / 2 ^ k mod 2 ^ s.
Proof using Type.
  intros Ht Ha. pose proof (tk_geo t Ht) as Hg. pose proof (geo_range t Hg) as (Hk & Hs & Has & Hal).
  pose proof (pow_pos s ltac:(lia)). pose proof (Z.mod_pos_bound (a / 2 ^ k) (2 ^ s) ltac:(lia)) as Hi. unfold Tags.findVictim.
  rewrite (extractSet_bn t a Hg Ha). destruct (set_blocks t (a / 2 ^ k mod 2 ^ s) Hg (tk_sets t Ht) Hi) as (l & -> & _ & Hl).
  cbn [mbind res_mbind]. set (i := a / 2 ^ k mod 2 ^ s) in *.
  destruct (reverse l) as [|p l'] eqn:E.
  { assert (i * Tags.assoc t ∈ l) as Hin.
    { apply Hl. split; [nia|]. split; [nia|]. apply Z.div_mul. lia. }
    apply elem_of_reverse in Hin. rewrite E in Hin. by apply elem_of_nil in Hin. }
  assert (p ∈ l) as Hp. { apply elem_of_reverse. rewrite E. set_solver. }
  apply Hl in Hp as (Hp1 & Hp2 & Hp3). destruct (blk_exists t p Ht) as (b & Hb & Hok); [lia|].
  exists p, b. split; [|done]. simpl. rewrite (get_blk_at _ _ _ Hb). cbn [mbind res_mbind].
  rewrite (proj2 (bk_place _ _ _ Hok)), Hal. pose proof (Z.mod_pos_bound p (Tags.assoc t)).
  by rewrite (proj2 (Z.ltb_lt _ _)) by lia.
Qed.

(** [b1] is the victim [b], with its packet produced if it was valid. *)
Lemma insertBlock_ok now pkt d t p b b1 t1 :
  tags_ok t → blk_at t p b → updates t p b1 t1 → func_wf pkt d → p / Tags.assoc t = Packet.addr pkt / 2 ^ k mod 2 ^ s →
  (isValid b1 = true → srcMasterId b1 < Tags.maxMasters t) → (isValid b1 = false → status b1 = 0 ∧ lockList b1 = []) →
  _masterId (Packet.req pkt) < Tags.maxMasters t →
  ∃ t' b', Tags.insertBlock now pkt p t1 = Ok t' ∧ updates t p b' t' ∧ status b' = 0 ∧ lockList b' = [] ∧
    tag b' = Packet.addr pkt / 2 ^ k / 2 ^ s ∧ set b' = set b1 ∧ way b' = way b1 ∧ data b' = data b1 ∧
    srcMasterId b' = _masterId (Packet.req pkt).
Proof using Type.
  intros Ht Hp Hup Hwf Hset Hv Hinv Hm. pose proof (tk_geo t Ht) as Hg. pose proof (geometry_same _ _ (proj1 Hup) Hg) as Hg1.
  pose proof (fw_range _ _ Hwf) as (_ & Ha & _). assert (Tags.maxMasters t1 = Tags.maxMasters t) as Emx by apply Hup.
  unfold Tags.insertBlock, Packet.getAddr. rewrite (fw_addr _ _ Hwf). cbn [check mbind res_mbind mret res_mret].
  rewrite (get_blk_at _ _ _ (updates_self _ _ _ _ _ Hp Hup)). cbn [mbind res_mbind]. rewrite Emx.
  assert (∃ b2, (if isValid b1 then assert_ (srcMasterId b1 <? Tags.maxMasters t);; mret (Blk.invalidate (set_refCount 0 b1)) else mret b1) = Ok b2 ∧
    status b2 = 0 ∧ lockList b2 = [] ∧ set b2 = set b1 ∧ way b2 = way b1 ∧ data b2 = data b1) as (b2 & -> & E1 & E2 & E3 & E4 & E5).
  { destruct (isValid b1) eqn:Ev; [|by eexists; split; [reflexivity|]; destruct Hinv].
    rewrite (proj2 (Z.ltb_lt _ _) (Hv eq_refl)). by eexists. }
  cbn [mbind res_mbind]. rewrite (proj2 (Z.ltb_lt _ _) Hm). cbn [check mbind res_mbind].
  set (b' := set_tickInserted now _). change (Tags.extractSet (Tags.put_blk p b' t1)) with (Tags.extractSet t1).
  rewrite (extractSet_bn t1 _ Hg1 Ha), <- Hset.
  destruct (on_set_updates t p b b1 t1 b' (Tags.moveToHead p) Ht Hp Hup) as (t' & E & Hup'); [by apply moveToHead_perm|].
  exists t', b'. split; [done|]. split; [done|]. rewrite <- (extractTag_bn t1 _ Hg1 Ha). by split_and!.
Qed.

(** Block [p] now holds block [x] of the memory, and what it held before is written back. *)
Lemma install_ok has t p b b' t' mb V mb' V' :
  tags_ok t → coherent has t mb V → blk_at t p b → updates t p b' t' → blk_ok t p b' → isValid b' = true →
  (∀ q c, q ≠ p → blk_at t q c → isValid c = true → bn c ≠ bn b') →
  (∀ a, mb' a = if isValid b && negb (bn b =? bn b') then evicted b mb V a else mb a) →
  (∀ a, 0 ≤ a → a / 2 ^ k ≠ bn b' → V' a = V a) →
  (∀ a, 0 ≤ a → a / 2 ^ k = bn b' → data b' !! Z.to_nat (a mod 2 ^ k) = Some (V' a) ∧ (isDirty b' = false → V' a = mb a) ∧ has a) →
  tags_ok t' ∧ coherent has t' mb' V'.
Proof using Type.
  intros Ht Hco Hp Hup Hok Hv' Hu Hmb HV Hnew. split; [by eapply tags_ok_updates|].
  assert (∀ a, isValid b = false ∨ a / 2 ^ k ≠ bn b → mb' a = mb a) as Hsame.
  { intros a Hor. rewrite Hmb. destruct (isValid b); [|done]. destruct (negb _); [|done]. cbn [andb]. unfold evicted.
    rewrite bool_decide_false, andb_false_r; [done|]. intros [_ D]. by destruct Hor. }
  eapply (coherent_replace has t p b b' t' mb V); try done.
  - intros a _. apply Hsame.
  - intros Hv [?|Hne] a Ha E; [congruence|]. rewrite HV, Hmb, Hv by (done || congruence).
    destruct (Z.eqb_spec (bn b) (bn b')); [done|]. unfold evicted. rewrite bool_decide_true, andb_true_r by done. simpl.
    destruct (isDirty b) eqn:Ed; [done|]. by eapply (co_clean _ _ _ _ Hco p b).
  - intros a Ha [?|Hne]; [congruence|by apply HV].
  - intros _ a Ha E. destruct (Hnew a Ha E) as (H1 & H2 & H3). split; [done|]. split; [|done]. intros Hd. rewrite H2 by done.
    symmetry. rewrite Hmb. destruct (isValid b) eqn:Ev; [|done]. destruct (Z.eqb_spec (bn b) (bn b')) as [|Hne]; [done|]. cbn [negb andb].
    unfold evicted. rewrite bool_decide_false, andb_false_r; [done|]. intros [_ D]. congruence.
Qed.

(** ** The constructor *)

Lemma lookup_bind_uniform {A B} (f : A → list B) n l i j :
  (∀ x, length (f x) = n) → (j < n)%nat → (l ≫= f) !! (i * n + j)%nat = l !! i ≫= λ x, f x !! j.
Proof using Type.
  intros Hf Hj. revert i. induction l as [|x l IH]; intros i; [done|]. simpl. destruct i as [|i].
  - by rewrite lookup_app_l by (rewrite Hf; simpl; lia).
  - rewrite lookup_app_r by (rewrite Hf; simpl; lia). rewrite Hf. simpl. rewrite <- IH. f_equal. lia.
Qed.

Lemma length_bind_uniform {A B} (f : A → list B) n l : (∀ x, length (f x) = n) → length (l ≫= f) = (length l * n)%nat.
Proof using Type. intros Hf. induction l as [|x l IH]; [done|]. simpl. rewrite length_app, Hf. f_equal. exact IH. Qed.

(** The tags of the constructor are well formed and empty. *)
Lemma new_Tags_ok lat period mx assoc :
  2 ≤ k ≤ 13 → 0 ≤ s < 32 → 0 < assoc →
  ∃ t, Tags.new_Tags (2 ^ k) lat period mx assoc (2 ^ s) = Ok t ∧ tags_ok t ∧ (∀ p b, blk_at t p b → isValid b = false) ∧
    Tags.maxMasters t = mx ∧ Tags.clockPeriod t = period ∧ Tags.accessLatency t = lat ∧ ready_by 0 t.
Proof using Type.
  intros Hk Hs Ha. pose proof (pow_pos k ltac:(lia)). pose proof (pow_pos s ltac:(lia)).
  assert (2 ^ 2 ≤ 2 ^ k ≤ 2 ^ 13) by (split; apply Z.pow_le_mono_r; lia). assert (2 ^ s < 2 ^ 32) by (apply Z.pow_lt_mono_r; lia).
  unfold Tags.new_Tags. rewrite (proj2 (IntMath.isPowerOf2_iff (2 ^ k) ltac:(lia))) by (exists k; lia).
  rewrite (proj2 (IntMath.isPowerOf2_iff (2 ^ s) ltac:(lia))) by (exists s; lia).
  rewrite (proj2 (Z.ltb_ge _ _)), (proj2 (Z.leb_gt (2 ^ s) 0)), (proj2 (Z.leb_gt assoc 0)) by lia. cbn [negb orb].
  rewrite !IntMath.floorLog2_u32_eq, !Z.log2_pow2 by lia. cbn [mbind res_mbind]. rewrite !(wrap_small 32) by lia.
  eexists. split; [reflexivity|]. set (f := λ i, (λ j, Tags.init_blk (2 ^ k) i j) <$> seqZ 0 assoc).
  assert (∀ i, length (f i) = Z.to_nat assoc) as Hf by (intros i; unfold f; by rewrite length_fmap, length_seqZ).
  set (t := Tags.mkTags _ _ _ _ _ _ _ _ _ _ _ _ _).
  assert (∀ p b, blk_at t p b → b = Tags.init_blk (2 ^ k) (p / assoc) (p mod assoc)) as Hblk.
  { intros p b [Hp Hb]. simpl in Hb. fold f in Hb. pose proof (Z.mod_pos_bound p assoc Ha). pose proof (Z.div_mod p assoc).
    assert (0 ≤ p / assoc) by (apply Z.div_pos; lia).
    replace (Z.to_nat p) with (Z.to_nat (p / assoc) * Z.to_nat assoc + Z.to_nat (p mod assoc))%nat in Hb by nia.
    change (mbind f (seqZ 0 (2 ^ s)) !! (Z.to_nat (p / assoc) * Z.to_nat assoc + Z.to_nat (p mod assoc))%nat = Some b) in Hb.
    rewrite (lookup_bind_uniform f (Z.to_nat assoc)) in Hb by (done || lia).
    apply bind_Some in Hb as (i & [Hi1 Hi2]%lookup_seqZ & Hb). unfold f in Hb. rewrite list_lookup_fmap in Hb. apply fmap_Some in Hb as (j & [Hj1 Hj2]%lookup_seqZ & ->).
    f_equal; lia. }
  assert (∀ p b, blk_at t p b → isValid b = false) as Hinv by (intros p b Hb; by rewrite (Hblk p b Hb)).
  split; [|split_and!; try done; intros p b Hb; by rewrite (Hblk p b Hb)]. split.
  - split; simpl; lia.
  - split; simpl; [rewrite length_fmap, length_seqZ; lia|]. intros i l Hl. rewrite list_lookup_fmap in Hl. apply fmap_Some in Hl as (i' & [Hi1 Hi2]%lookup_seqZ & ->).
    assert (∀ l1 l2 : list Z, l1 = l2 → l1 ≡ₚ l2) as Heq by (by intros ? ? ->). apply Heq, list_eq_same_length with (Z.to_nat assoc); [by rewrite length_seqZ|by rewrite length_fmap, length_seqZ|].
    intros j x y Hj Hx Hy. rewrite list_lookup_fmap, lookup_seqZ_lt in Hx by lia. rewrite lookup_seqZ_lt in Hy by lia. simpl in Hx. simplify_eq. lia.
  - simpl. fold f. change (Z.of_nat (length (mbind f (seqZ 0 (2 ^ s)))) = 2 ^ s * assoc). rewrite (length_bind_uniform f (Z.to_nat assoc)) by done.
    rewrite length_seqZ. lia.
  - intros p b Hb. pose proof (Hinv p b Hb). rewrite (Hblk p b Hb). split; [done| |by left|done|done].
    simpl. rewrite length_replicate. lia.
  - intros p q b b' Hb _ Hv. by rewrite (Hinv p b Hb) in Hv.
Qed.

End geometry.
