(* ===== verification/CacheAtomic.v ===== *)
(** * The cache in atomic mode implements a flat memory

    The cache is used against the interface [MemorySide] of the memory below it.  Reads,
    writes and row operations through the cache behave like accesses to one flat memory of
    bytes, and the abstract memory implements the interface. *)

From stdpp Require Import base gmap list list_numbers.
From S2P Require Import Prelude IntMath AddrRanges Packets AbstractMem RowMem CacheTags Cache CacheInv.
Import Request Blk RowOps.
Local Open Scope Z_scope.

(** ** The memory below *)

(** The bytes of a flat memory a packet is about. *)
Definition bytes_of (f : Z → Z) (pkt : Packet) : list Z := f <$> seqZ (Packet.addr pkt) (Packet.size pkt).

(** The packet's addresses are addresses of the memory. *)
Definition in_memory (has : Z → Prop) (pkt : Packet) : Prop :=
  ∀ a, Packet.addr pkt ≤ a < Packet.addr pkt + Packet.size pkt → has a.

(** A request to the memory that is neither inhibited nor a row operation. *)
Record plain_req (has : Z → Prop) (pkt : Packet) (d : list Z) : Prop := {
  pq_wf : func_wf pkt d;
  pq_in : in_memory has pkt;
  pq_inhibit : Packet.memInhibitAsserted pkt = false;
  pq_row : Packet.isRowOp pkt = false;
  pq_paddr : ∃ pa, getPaddr (Packet.req pkt) = Ok pa;
}.

(** The byte function of an element-wise row operation, and its effect. *)
Definition rowop_byte (o : RowOp) : option (Z → Z → Z) :=
  match o with
  | ROWAND => Some Z.land | ROWOR => Some Z.lor | ROWXOR => Some Z.lxor
  | ROWNOT => Some (λ x _, 255 - x) | ROWAAP => Some (λ x _, x)
  | ROWAP | ROWLS | ROWRS => None
  end.
Definition rowop_effect (g : Z → Z → Z) (a : RowOpPayload) (f : Z → Z) : Z → Z :=
  λ x, if decide (dest a ≤ x < dest a + ROW_SIZE)
       then g (f (src1 a + (x - dest a))) (f (src2 a + (x - dest a))) else f x.

(** The rows of an operand exist. *)
Definition in_row (has : Z → Prop) (r : Z) : Prop := ∀ x, r ≤ x < r + ROW_SIZE → has x.

(** An element-wise row operation whose destination does not start inside a source row. *)
Record row_req (has : Z → Prop) (pkt : Packet) (a : RowOpPayload) : Prop := {
  rr_flag : Packet.isRowOp pkt = true;
  rr_inhibit : Packet.memInhibitAsserted pkt = false;
  rr_request : Packet.isRequest pkt = true;
  rr_needs : Packet.needsResponse pkt = true;
  rr_ptr : Packet.getPtr pkt = Ok (payload_bytes a);
  rr_payload : payload_wf a;
  rr_dest : in_row has (dest a);
  rr_src1 : in_row has (src1 a) ∧ fwd_safe (dest a) (src1 a) row_words;
  rr_src2 : rowop_binary (op a) = true → in_row has (src2 a) ∧ fwd_safe (dest a) (src2 a) row_words;
}.

(** What the cache relies on: a memory of the bytes [has]. *)
Class MemorySide (M : Type) `{!Cache.AtomicPorts M} (has : Z → Prop) := {
  mem_ok : M → Prop;
  mem_byte : M → Z → Z;
  mem_byte_range m a : mem_ok m → 0 ≤ mem_byte m a < 256;
  mem_read m pkt d : mem_ok m → plain_req has pkt d →
    Packet.cmd pkt = MemCmd.ReadSharedReq ∨ Packet.cmd pkt = MemCmd.ReadExReq →
    ∃ m' pkt' lat, Cache.sendAtomic m pkt = Ok (m', pkt', lat) ∧ mem_ok m' ∧ (∀ a, mem_byte m' a = mem_byte m a) ∧
      Packet.makeResponse (Packet.with_data pkt (Some (bytes_of (mem_byte m) pkt))) = Ok pkt';
  mem_invalidate m pkt d : mem_ok m → plain_req has pkt d → Packet.cmd pkt = MemCmd.InvalidateReq →
    ∃ m' pkt' lat, Cache.sendAtomic m pkt = Ok (m', pkt', lat) ∧ mem_ok m' ∧ (∀ a, mem_byte m' a = mem_byte m a) ∧
      Packet.makeResponse pkt = Ok pkt';
  mem_writeback m pkt d : mem_ok m → plain_req has pkt d → Packet.cmd pkt = MemCmd.Writeback →
    Forall (λ x, 0 ≤ x < 256) d → isInstFetch (Packet.req pkt) = false →
    ∃ m' pkt' lat, Cache.sendAtomic m pkt = Ok (m', pkt', lat) ∧ mem_ok m' ∧ wrote pkt d (mem_byte m) (mem_byte m');
  mem_cleanEvict m pkt d : mem_ok m → plain_req has pkt d → Packet.cmd pkt = MemCmd.CleanEvict →
    ∃ m' pkt' lat, Cache.sendAtomic m pkt = Ok (m', pkt', lat) ∧ mem_ok m' ∧ (∀ a, mem_byte m' a = mem_byte m a);
  mem_rowop m pkt a g : mem_ok m → row_req has pkt a → rowop_byte (op a) = Some g →
    ∃ m' pkt' lat, Cache.sendAtomic m pkt = Ok (m', pkt', lat) ∧ mem_ok m' ∧
      (∀ x, mem_byte m' x = rowop_effect g a (mem_byte m) x) ∧ Packet.makeResponse pkt = Ok pkt';
}.

Section atomic.
Context (k s masters : Z) {M : Type} `{!Cache.AtomicPorts M} (has : Z → Prop) `{!MemorySide M has} (now edge : Z).

(** The write-backs reach the memory. *)
Lemma writeback_atomic_ok c m b pkt mb2 :
  cache_ok k s c → mem_ok m → evict_pkt k s b pkt → Forall (λ x, 0 ≤ x < 256) (data b) → 2 ≤ k → 0 ≤ bn s b →
  (∀ a, 0 ≤ a → a / 2 ^ k = bn s b → has a) →
  (if isDirty b then wrote pkt (data b) (mem_byte m) mb2 else ∀ a, mb2 a = mem_byte m a) →
  ∃ m', Cache.writeback_atomic c m pkt = Ok m' ∧ mem_ok m' ∧ ∀ a, mem_byte m' a = mb2 a.
Proof using Type.
  intros Hc Hm [Hcmd (d & Hwf & Hd) [Ea En] (Hi & Hro & Hf & Hpa) _] Hby Hk Hbn Hhas Hmb.
  unfold Cache.writeback_atomic, Cache.isCachedAbove. destruct (ck_plain _ _ _ Hc) as (_ & _ & ->). cbn [negb mbind res_mbind mret res_mret andb].
  assert (plain_req has pkt d) as Hq.
  { split; try done; [|by eexists]. intros a Ha. rewrite Ea, En in Ha. apply (block_range k (bn s b) a Hk Hbn) in Ha as [Ha Ha2]. by apply Hhas. }
  destruct (isDirty b) eqn:Ed.
  - rewrite (Hd eq_refl) in Hq. destruct (mem_writeback m pkt (data b)) as (m' & pkt' & lat & E & Hm' & Hw); [done..|].
    rewrite E. exists m'. split; [done|]. split; [done|]. intros a. by rewrite Hw, Hmb.
  - destruct (mem_cleanEvict m pkt d) as (m' & pkt' & lat & E & Hm' & Hw); [done..|].
    rewrite E. exists m'. split; [done|]. split; [done|]. intros a. by rewrite Hw, Hmb.
Qed.

Lemma foldM_snoc {A B} (f : A → B → res A) a l x :
  foldM f a (l ++ [x]) = (a ← foldM f a l; f a x).
Proof using Type.
  revert a. induction l as [|y l IH]; intros a; cbn [foldM app mbind res_mbind].
  - simpl. by destruct (f a x).
  - destruct (f a y); cbn [mbind res_mbind]; [apply IH|done].
Qed.

Lemma doWritebacksAtomic_ok c m wbs mb mb' :
  cache_ok k s c → mem_ok m → evictions k s has wbs mb mb' → (∀ a, mb a = mem_byte m a) →
  ∃ m', Cache.doWritebacksAtomic c m wbs = Ok m' ∧ mem_ok m' ∧ ∀ a, mem_byte m' a = mb' a.
Proof using Type.
  intros Hc Hm Hev Hmb. unfold Cache.doWritebacksAtomic. pose proof (geo_range _ _ _ (tk_geo _ _ _ (ck_tags _ _ _ Hc))) as (Hk & _).
  pose proof (pow_pos k ltac:(lia)).
  induction Hev as [mb|pkts mb mb1 mb2 pkt b _ IH Hp Hby Hhas Hw]; [by exists m|].
  destruct (IH Hmb) as (m1 & E1 & Hm1 & Hmb1). rewrite foldM_snoc, E1. cbn [mbind res_mbind].
  assert (0 ≤ bn s b). { destruct Hp as [_ (d & Hwf & _) [Ea _] _ _]. pose proof (fw_range _ _ Hwf) as (_ & Ha & _). nia. }
  apply (writeback_atomic_ok c m1 b); try done; [lia|]. destruct (isDirty b); intros a; by rewrite Hw, Hmb1.
Qed.

(** ** Row operations *)

Lemma rowop_byte_unary o g : rowop_byte o = Some g → rowop_binary o = false → ∀ x y y', g x y = g x y'.
Proof using Type. intros Hg Hb. by destruct o; simpl in *; simplify_eq. Qed.

(** With no byte of the operands in the cache, the operation on the memory is the operation
    on the flat memory. *)
Lemma coherent_rowop t mb mb' V a g :
  coherent k s has t mb V → rowop_byte (op a) = Some g → payload_wf a → (∀ x, mb' x = rowop_effect g a mb x) →
  (∀ y, dest a ≤ y < dest a + ROW_SIZE → ¬ cached s t (y / 2 ^ k)) →
  (∀ y, src1 a ≤ y < src1 a + ROW_SIZE → ¬ cached s t (y / 2 ^ k)) →
  (rowop_binary (op a) = true → ∀ y, src2 a ≤ y < src2 a + ROW_SIZE → ¬ cached s t (y / 2 ^ k)) →
  coherent k s has t mb' (rowop_effect g a V).
Proof using Type.
  intros [Cd Cc Cm Ch] Hg (Hw0 & Hw1 & Hw2) Hmb Hd H1 H2.
  assert (∀ p b x, blk_at t p b → isValid b = true → x / 2 ^ k = bn s b → ¬ (dest a ≤ x < dest a + ROW_SIZE)) as Hout.
  { intros p b x Hp Hv E Hx. apply (Hd x Hx). by exists p, b. }
  assert (∀ y, 0 ≤ y → ¬ cached s t (y / 2 ^ k) → V y = mb y) as Hun.
  { intros y Hy Hn. apply Cm; [done|]. intros p b Hp Hv E. apply Hn. by exists p, b. }
  split; [| | |exact Ch]; unfold rowop_effect in *.
  - intros p b x Hp Hv Hx E. rewrite decide_False by (by eapply Hout). by eapply Cd.
  - intros p b x Hp Hv Hdi Hx E. rewrite Hmb, !decide_False by (by eapply Hout). by eapply Cc.
  - intros x Hx Hno. rewrite Hmb. case_decide as D; [|by apply Cm].
    rewrite <- (Hun (src1 a + (x - dest a))) by (try apply H1; lia). destruct (rowop_binary (op a)) eqn:Eb.
    + rewrite <- (Hun (src2 a + (x - dest a))) by (try apply H2; try done; lia). done.
    + by eapply rowop_byte_unary.
Qed.

Lemma getOffset_ok pkt d : 2 ≤ k ≤ 13 → func_wf pkt d → Packet.getOffset pkt (2 ^ k) = Ok (Packet.addr pkt mod 2 ^ k).
Proof using Type.
  intros Hk Hwf. unfold Packet.getOffset. rewrite (getAddr_ok _ d Hwf). cbn [mbind res_mbind]. pose proof (pow_pos k ltac:(lia)).
  assert (2 ^ k ≤ 2 ^ 13) by (apply Z.pow_le_mono_r; lia). rewrite (wrap_small 32) by lia.
  replace (2 ^ k - 1) with (Z.ones k) by (rewrite Z.ones_equiv; lia). by rewrite Z.land_ones by lia.
Qed.

Lemma align_block a : 0 ≤ k ≤ 32 → 0 ≤ a < 2 ^ 64 → Z.land a (u64 (Z.lnot (2 ^ k - 1))) = a / 2 ^ k * 2 ^ k.
Proof using Type.
  intros Hk Ha. rewrite <- Z.shiftr_div_pow2, <- Z.shiftl_mul_pow2 by lia. apply Z.bits_inj'. intros i Hi.
  rewrite Z.land_spec, wrap_testbit, Z.lnot_spec, Z.shiftl_spec by lia.
  replace (2 ^ k - 1) with (Z.ones k) by (rewrite Z.ones_equiv; lia).
  destruct (decide (i < k)).
  - rewrite Z.ones_spec_low, (Z.testbit_neg_r _ (i - k)) by lia. simpl. by rewrite !andb_false_r.
  - rewrite Z.ones_spec_high, Z.shiftr_spec by lia. replace (i - k + k) with i by lia.
    destruct (decide (i < 64)); [by rewrite (proj2 (Z.ltb_lt _ _)), andb_true_r by lia|]. by rewrite (testbit_high 64 a i) by lia.
Qed.

Lemma blockAlign_ok c a : cache_ok k s c → 0 ≤ a < 2 ^ 64 → Cache.blockAlign c a = a / 2 ^ k * 2 ^ k.
Proof using Type.
  intros Hc Ha. pose proof (tk_geo _ _ _ (ck_tags _ _ _ Hc)) as Hg. pose proof (geo_range _ _ _ Hg) as (Hk & _).
  assert (2 ^ k ≤ 2 ^ 13) by (apply Z.pow_le_mono_r; lia). pose proof (pow_pos k ltac:(lia)).
  unfold Cache.blockAlign, Cache.blkSize. rewrite (proj1 (geo_blk _ _ _ Hg)), (wrap_small 32) by lia. apply align_block; lia.
Qed.

(** A write of a whole block is promoted. *)
Lemma promote_ok c pkt d :
  cache_ok k s c → func_wf pkt d →
  ∃ pkt', Cache.promoteWholeLineWrites c pkt = Ok pkt' ∧
    (pkt' = pkt ∨ Packet.cmd pkt = MemCmd.WriteReq ∧ Packet.size pkt = 2 ^ k ∧ Packet.addr pkt mod 2 ^ k = 0 ∧
      pkt' = Packet.with_cmd pkt MemCmd.WriteLineReq).
Proof using Type.
  intros Hc Hwf. pose proof (tk_geo _ _ _ (ck_tags _ _ _ Hc)) as Hg. pose proof (geo_range _ _ _ Hg) as (Hk & _).
  unfold Cache.promoteWholeLineWrites, Cache.blkSize. rewrite (proj1 (geo_blk _ _ _ Hg)).
  destruct (Cache.doFastWrites c); [|by eexists; split; [done|left]]. case_bool_decide as D; [|by eexists; split; [done|left]].
  cbn [andb]. rewrite (getSize_ok _ d Hwf). cbn [mbind res_mbind]. rewrite (getOffset_ok _ d) by done. cbn [mbind res_mbind].
  eexists. split; [reflexivity|]. destruct (Z.eqb_spec (Packet.size pkt) (2 ^ k)), (Z.eqb_spec (Packet.addr pkt mod 2 ^ k) 0); auto.
Qed.

Lemma ticksToCycles_ok c x : cache_ok k s c → ∃ l, Tags.ticksToCycles (Cache.tags c) x = Ok l.
Proof using Type.
  intros Hc. pose proof (ck_clock _ _ _ Hc). unfold Tags.ticksToCycles, IntMath.divCeil.
  destruct (Z.eqb_spec (Tags.clockPeriod (Cache.tags c)) 0); [lia|]. by eexists.
Qed.

(** ** Requests *)

(** The valid blocks and the bytes [mb] below the cache hold the flat memory [V]. *)
Record holds (c : Cache.Cache) (mb V : Z → Z) : Prop := {
  re_cache : cache_ok k s c;
  re_co : coherent k s has (Cache.tags c) mb V;
  re_bytes a : 0 ≤ V a < 256;
  re_masters : Tags.maxMasters (Cache.tags c) = masters;
}.

(** No miss and no write-back waits, as ever in atomic mode. *)
Definition idle (c : Cache.Cache) : Prop := Cache.mshrQueue c = [] ∧ Cache.writeBuffer c = [].

(** Neither a write-back of block [x] nor a miss of a block in the cache waits. *)
Definition quiet (x : Z) (c : Cache.Cache) : Prop :=
  Cache.findMatches (Cache.writeBuffer c) (x * 2 ^ k) false = [] ∧
  ∀ p b, blk_at (Cache.tags c) p b → isValid b = true → Cache.findMatch (Cache.mshrQueue c) (bn s b * 2 ^ k) false = None.
Lemma idle_quiet x c : idle c → quiet x c.
Proof using Type. intros [E1 E2]. unfold quiet. by rewrite E1, E2. Qed.

(** The cache over the memory represents the flat memory [V]. *)
Definition represents (c : Cache.Cache) (m : M) (V : Z → Z) : Prop :=
  holds c (mem_byte m) V ∧ mem_ok m ∧ idle c.

(** The cache answers [pkt], which takes the flat memory to [V'], with a packet in [P]. *)
Definition serves (c : Cache.Cache) (m : M) (pkt : Packet) (V' : Z → Z) (P : Packet → Prop) : Prop :=
  ∃ c' m' pkt' lat, Cache.recvAtomic now edge c m pkt = Ok (c', m', pkt', lat) ∧ Packet.isResponse pkt' = true ∧
    represents c' m' V' ∧ P pkt'.

(** A row operation as the processor sends it, on rows that start at a block. *)
Record row_pkt (pkt : Packet) (a : RowOpPayload) : Prop := {
  rp_req : row_req has pkt a;
  rp_wf : func_wf pkt (payload_bytes a);
  rp_cmd : Packet.cmd pkt = MemCmd.WriteReq;
  rp_plain : isUncacheable (Packet.req pkt) = true ∧ Packet._isSecure pkt = false;
  rp_rows r : r = dest a ∨ r = src1 a ∨ rowop_binary (op a) = true ∧ r = src2 a → r mod 2 ^ k = 0 ∧ r + ROW_SIZE < 2 ^ 64;
}.

Lemma byte_range_bits x : 0 ≤ x → (∀ i, 8 ≤ i → Z.testbit x i = false) → 0 ≤ x < 256.
Proof using Type. intros Hx Hbits. apply (testbit_in_width 8); [lia|done..]. Qed.

Lemma rowop_byte_range o g x y : rowop_byte o = Some g → 0 ≤ x < 256 → 0 ≤ y < 256 → 0 ≤ g x y < 256.
Proof using Type.
  intros Hg Hx Hy. destruct o; simpl in Hg; simplify_eq; try lia;
    (apply byte_range_bits; [first [apply Z.land_nonneg|apply Z.lor_nonneg|apply Z.lxor_nonneg]; lia|]);
    intros i Hi; autorewrite with bitdb; rewrite (testbit_high 8 x i), (testbit_high 8 y i) by lia; done.
Qed.

Lemma row_pkt_promoted c pkt a :
  cache_ok k s c → row_pkt pkt a →
  ∃ pkt', Cache.promoteWholeLineWrites c pkt = Ok pkt' ∧ row_req has pkt' a ∧ func_wf pkt' (payload_bytes a) ∧
    isUncacheable (Packet.req pkt') = true ∧ Packet._isSecure pkt' = false ∧
    MemCmd.responseCommand (Packet.cmd pkt') = MemCmd.WriteResp.
Proof using Type.
  intros Hc [[] Hwf Hcmd [Hu Hs] _]. destruct (promote_ok c pkt _ Hc Hwf) as (pkt' & E & [->|(_ & _ & _ & ->)]).
  - exists pkt. rewrite Hcmd. by split_and!.
  - eexists. split; [done|]. split_and!; [by split|by destruct Hwf|done..].
Qed.

Lemma access_rowop_flush c mb V pkt a :
  holds c mb V → row_req has pkt a → func_wf pkt (payload_bytes a) →
  isUncacheable (Packet.req pkt) = true → Packet._isSecure pkt = false →
  ∃ c' wbs, Cache.access now c pkt = Ok (false, None, Cache.lookupLatency c', c', pkt, wbs) ∧
    flushing k s has V mb c (λ x, ∃ r y, r ∈ [dest a; src1 a; src2 a] ∧ r mod 2 ^ k = 0 ∧ 0 ≤ r ∧ r + ROW_SIZE < 2 ^ 64 ∧
      r ≤ y < r + ROW_SIZE ∧ x = y / 2 ^ k) (c', wbs) ∧ Z.of_nat (length wbs) ≤ flush_limit k.
Proof using Type.
  intros [Hc Hco HV _] [] Hwf Hu Hs. unfold Cache.access. rewrite rr_request0. destruct (ck_plain _ _ _ Hc) as (-> & _).
  cbn [andb negb check mbind res_mbind]. unfold Packet.isSecure. rewrite (fw_addr _ _ Hwf), Hs. cbn [check mbind res_mbind mret res_mret].
  rewrite Hu. unfold Packet.isRowOp in rr_flag0. rewrite rr_flag0, rr_ptr0. cbn [mbind res_mbind].
  rewrite payload_roundtrip by done. cbn [mbind res_mbind].
  destruct (flush_rows_ok k s has now c a mb V Hc Hco HV) as ([c' wbs] & E & Hf). rewrite E. cbn [mbind res_mbind].
  eexists c', wbs. split; [reflexivity|]. split; [done|]. by apply (flush_rows_length k s now false a c (c', wbs) (tk_geo _ _ _ (ck_tags _ _ _ Hc))) in E.
Qed.

Lemma recvAtomic_rowop c m V pkt a g :
  represents c m V → row_pkt pkt a → rowop_byte (op a) = Some g →
  serves c m pkt (rowop_effect g a V) (λ _, True).
Proof using Type.
  intros (Hr & Hm & Hi) Hpkt Hg. pose proof (re_cache _ _ _ Hr) as Hc. pose proof (rp_rows _ _ Hpkt) as Hrows.
  destruct (row_pkt_promoted c pkt a Hc Hpkt) as (pkt1 & E1 & Hreq & Hwf & Hu & Hs & Hresp).
  destruct (access_rowop_flush c (mem_byte m) V pkt1 a Hr Hreq Hwf Hu Hs) as (c' & wbs & Ea & [[Hsame Hpar] Hc' (mb & Hco & Hev) Hgone] & _). simpl in *.
  destruct (doWritebacksAtomic_ok c' m wbs _ mb Hc' Hm Hev) as (m1 & Ew & Hm1 & Hmb1); [done|].
  destruct (mem_rowop m1 pkt1 a g Hm1 Hreq Hg) as (m2 & pkt2 & lat & Es & Hm2 & Hmb2 & Emk).
  destruct (ticksToCycles_ok c' lat Hc') as (l & El). pose proof (rr_payload _ _ _ Hreq) as Hpw.
  unfold serves, Cache.recvAtomic. destruct (ck_plain _ _ _ Hc) as (_ & -> & _). rewrite E1. cbn [mbind res_mbind].
  rewrite (rr_inhibit _ _ _ Hreq), Ea. cbn [mbind res_mbind]. rewrite Ew. cbn [mbind res_mbind].
  unfold Cache.getBusPacket. cbn [mbind res_mbind mret res_mret]. rewrite Hu. cbn [mbind res_mbind]. rewrite Es. cbn [mbind res_mbind].
  rewrite Hsame in El. change (Cache.tags (Cache.set_tags _ c)) with (Cache.tags c') in El.
  unfold Tags.ticksToCycles in *. assert (Tags.clockPeriod (Cache.tags c') = Tags.clockPeriod (Cache.tags c)) as Eck by apply Hpar.
  rewrite Eck in El. rewrite El. cbn [mbind res_mbind Cache.doWritebacksAtomic foldM mret res_mret].
  unfold Packet.makeResponse in Emk. rewrite (rr_request _ _ _ Hreq), (rr_needs _ _ _ Hreq), Hresp in Emk.
  cbn [check mbind res_mbind mret res_mret] in Emk. injection Emk as <-.
  eexists _, _, _, _. split; [reflexivity|]. split; [done|]. split; [|done]. split; [|split; [done|by rewrite Hsame]]. split; [done| | |].
  - eapply coherent_rowop; [done|done|done|..].
    + intros x. rewrite Hmb2. unfold rowop_effect. by rewrite !Hmb1.
    + intros y Hy. apply Hgone. exists (dest a), y. destruct (Hrows (dest a)) as [? ?]; [by left|]. destruct Hpw as (? & ? & ?). set_solver by lia.
    + intros y Hy. apply Hgone. exists (src1 a), y. destruct (Hrows (src1 a)) as [? ?]; [by right; left|]. destruct Hpw as (? & ? & ?). set_solver by lia.
    + intros Hb y Hy. apply Hgone. exists (src2 a), y. destruct (Hrows (src2 a)) as [? ?]; [by right; right|]. destruct Hpw as (? & ? & ?). set_solver by lia.
  - intros x. pose proof (re_bytes _ _ _ Hr). unfold rowop_effect. case_decide; [by eapply rowop_byte_range|done].
  - assert (Tags.maxMasters (Cache.tags c') = Tags.maxMasters (Cache.tags c)) as -> by apply Hpar. apply Hr.
Qed.

(** ** Reads and writes *)

(** A block that can be read and written. *)
Record line_ok (b : CacheBlk) : Prop := {
  ln_data : Z.of_nat (length (data b)) = 2 ^ k;
  ln_locks : lockList b = [];
  ln_status : status b = 7 ∨ status b = 15;
}.

(** The request lies within a block. *)
Definition in_block (pkt : Packet) : Prop := Packet.addr pkt mod 2 ^ k + Packet.size pkt ≤ 2 ^ k.

Lemma line_facts b : line_ok b → isValid b = true ∧ isWritable b = true ∧ isReadable b = true.
Proof using Type. intros [_ _ Hs]. unfold isValid, isWritable, isReadable, has_bits. by destruct Hs as [->| ->]. Qed.

Lemma satisfy_read df pd c p b pkt d :
  2 ≤ k ≤ 13 → Cache.blkSize c = 2 ^ k → blk_at (Cache.tags c) p b → line_ok b → func_wf pkt d →
  Packet.cmd pkt = MemCmd.ReadReq → in_block pkt →
  Cache.satisfyCpuSideRequest now c pkt (Cache.InTags p) df pd =
    Ok (Cache.put_blk (Cache.InTags p) b c,
        Packet.with_data pkt (Some (take (length d) (drop (Z.to_nat (Packet.addr pkt mod 2 ^ k)) (data b))))).
Proof using Type.
  intros Hk Hbs Hp Hb Hwf Hcmd Hin. destruct (line_facts b Hb) as (Hv & _ & _). pose proof (fw_len _ _ Hwf). pose proof (fw_range _ _ Hwf) as (? & _).
  pose proof (Z.mod_pos_bound (Packet.addr pkt) (2 ^ k) (pow_pos k ltac:(lia))). pose proof (ln_data b Hb). unfold in_block in Hin.
  unfold Cache.satisfyCpuSideRequest. unfold Packet.isRequest, Packet.isWrite, Packet.isRead, Packet.isLLSC. rewrite Hcmd.
  change (MemCmd.isRequest MemCmd.ReadReq) with true. cbn [check mbind res_mbind Cache.get_blk]. rewrite (get_blk_at _ _ _ Hp). cbn [mbind res_mbind]. rewrite Hv, Hbs.
  cbn [check mbind res_mbind]. rewrite (getOffset_ok _ d), (getSize_ok _ d) by done. cbn [mbind res_mbind].
  rewrite (proj2 (Z.leb_le _ _)) by lia. cbn [check mbind res_mbind]. change (bool_decide (MemCmd.ReadReq = MemCmd.SwapReq)) with false.
  change (MemCmd.isWrite MemCmd.ReadReq) with false. change (MemCmd.isRead MemCmd.ReadReq) with true.
  change (MemCmd.isLLSC MemCmd.ReadReq) with false. cbn [mbind res_mbind mret res_mret]. unfold Cache.read_block.
  change (Cache.blkSize (Cache.put_blk (Cache.InTags p) b c)) with (Cache.blkSize c). rewrite Hbs, (getOffset_ok _ d) by done.
  cbn [mbind res_mbind]. unfold Packet.setData. rewrite (getPtr_ok _ d), (getSize_ok _ d) by done. cbn [mbind res_mbind].
  unfold memcpy. rewrite decide_True by (rewrite ?length_drop; lia). change (Z.to_nat 0) with 0%nat.
  rewrite take_0, drop_0, app_nil_l, (drop_ge d), app_nil_r by lia. replace (Z.to_nat (Packet.size pkt)) with (length d) by lia.
  cbn [mbind res_mbind mret res_mret Packet.with_data Packet.cmd]. by rewrite Hcmd.
Qed.

(** The bytes [d] at offset [o] of a block. *)
Definition overwrite (bs : list Z) (o : nat) (d : list Z) : list Z := take o bs ++ d ++ drop (o + length d) bs.

Lemma satisfy_write df pd c p b pkt d :
  2 ≤ k ≤ 13 → Cache.blkSize c = 2 ^ k → blk_at (Cache.tags c) p b → line_ok b → func_wf pkt d →
  Packet.cmd pkt = MemCmd.WriteReq ∨ Packet.cmd pkt = MemCmd.WriteLineReq → in_block pkt →
  Cache.satisfyCpuSideRequest now c pkt (Cache.InTags p) df pd =
    Ok (Cache.put_blk (Cache.InTags p)
          (or_status BlkDirty (set_data (overwrite (data b) (Z.to_nat (Packet.addr pkt mod 2 ^ k)) d) b)) c, pkt).
Proof using Type.
  intros Hk Hbs Hp Hb Hwf Hcmd Hin. destruct (line_facts b Hb) as (Hv & Hw & _). pose proof (fw_len _ _ Hwf). pose proof (fw_range _ _ Hwf) as (? & _).
  pose proof (Z.mod_pos_bound (Packet.addr pkt) (2 ^ k) (pow_pos k ltac:(lia))). pose proof (ln_data b Hb). unfold in_block in Hin.
  assert (Packet.isRequest pkt = true ∧ Packet.isWrite pkt = true ∧ Packet.isLLSC pkt = false ∧ bool_decide (Packet.cmd pkt = MemCmd.SwapReq) = false)
    as (E1 & E2 & E3 & E4) by (unfold Packet.isRequest, Packet.isWrite, Packet.isLLSC; by destruct Hcmd as [->| ->]).
  unfold Cache.satisfyCpuSideRequest. rewrite E1. cbn [check mbind res_mbind Cache.get_blk]. rewrite (get_blk_at _ _ _ Hp).
  cbn [mbind res_mbind]. rewrite Hv, Hbs. cbn [check mbind res_mbind]. rewrite (getOffset_ok _ d), (getSize_ok _ d) by done.
  cbn [mbind res_mbind]. rewrite (proj2 (Z.leb_le _ _)) by lia. cbn [check mbind res_mbind]. rewrite E4, E2, Hw. cbn [check mbind res_mbind].
  unfold checkWrite. rewrite E3, (ln_locks b Hb). cbn [negb andb]. rewrite bool_decide_true by done. cbn [mbind res_mbind mret res_mret].
  unfold Cache.write_block. rewrite Hbs, (getOffset_ok _ d), (getPtr_ok _ d), (getSize_ok _ d) by done. cbn [mbind res_mbind].
  unfold memcpy. rewrite decide_True by lia. change (Z.to_nat 0) with 0%nat. rewrite drop_0, (take_ge d) by lia. cbn [mbind res_mbind].
  unfold overwrite. replace (Z.to_nat (Packet.addr pkt mod 2 ^ k + Packet.size pkt)) with (Z.to_nat (Packet.addr pkt mod 2 ^ k) + length d)%nat by lia. done.
Qed.

(** ** Fills *)

(** The packets that evict block [b], if it was valid. *)
Definition evicts (b : CacheBlk) (wbs : list Packet) : Prop :=
  if isValid b then ∃ wb, wbs = [wb] ∧ evict_pkt k s b wb else wbs = [].

Lemma allocateBlock_ok c a x :
  cache_ok k s c → quiet x c → 0 ≤ a →
  ∃ p b b1 t1 wbs, Cache.allocateBlock now a c [] = Ok (Some p, Cache.set_tags t1 c, wbs) ∧
    blk_at (Cache.tags c) p b ∧ updates s (Cache.tags c) p b1 t1 ∧ p / Tags.assoc (Cache.tags c) = a / 2 ^ k mod 2 ^ s ∧
    (set b1 = set b ∧ way b1 = way b ∧ data b1 = data b) ∧
    (isValid b1 = true → srcMasterId b1 < Tags.maxMasters (Cache.tags c)) ∧ (isValid b1 = false → status b1 = 0 ∧ lockList b1 = []) ∧
    evicts b wbs.
Proof using Type.
  intros Hc Hi Ha. pose proof (ck_tags _ _ _ Hc) as Ht. unfold Cache.allocateBlock, evicts.
  destruct (findVictim_ok k s _ a Ht Ha) as (p & b & -> & Hp & Hset). cbn [mbind res_mbind]. rewrite (get_blk_at _ _ _ Hp).
  cbn [mbind res_mbind]. exists p, b. pose proof (tk_blk _ _ _ Ht p b Hp) as Hb. destruct (isValid b) eqn:Hv.
  - destruct (bk_valid _ _ _ _ _ Hb Hv) as (Htag & Hbn & _). destruct (status_facts b (bk_status _ _ _ _ _ Hb)) as (Hsec & _).
    destruct (blk_range k s _ p b Ht Hp) as [_ Hrg]. rewrite <- (proj1 (bk_place _ _ _ _ _ Hb)) in Hrg.
    rewrite (regenerate_bn k s _ b (tk_geo _ _ _ Ht) Htag Hrg Hbn), Hsec, (proj2 Hi p b Hp Hv). cbn [mbind res_mbind].
    destruct (evict_ok k s now c p b Hc Hp Hv) as (b1 & pkt & -> & Hpkt & Hv1 & Es1 & Ew1 & Em1 & Ed1 & _). cbn [mbind res_mbind].
    destruct (bk_valid _ _ _ _ _ Hb Hv) as (_ & _ & Hm).
    eexists b1, _, _. split; [reflexivity|]. split; [done|]. split; [by eapply put_updates|]. split; [done|]. split; [done|].
    split; [by rewrite Em1|]. split; [congruence|]. by exists pkt.
  - eexists b, (Cache.tags c), _. split; [by destruct c|]. split; [done|]. split.
    { split; [done|]. split; [|apply Ht]. symmetry. apply list_insert_id, Hp. }
    split; [done|]. split; [done|]. split; [congruence|]. split; [|done]. intros _. split; [|apply Hb].
    destruct (bk_status _ _ _ _ _ Hb) as [?|[Es|Es]]; [done|exfalso; revert Hv; unfold isValid; by rewrite Es..].
Qed.

(** A packet that fills a block: a response to a read of the block, or a write of it. *)
Record fill_pkt (c : Cache.Cache) (pkt : Packet) (d : list Z) : Prop := {
  fp_wf : func_wf pkt d;
  fp_kind : Packet.isResponse pkt = true ∧ Packet.isRead pkt = true ∧ bool_decide (Packet.cmd pkt = MemCmd.WriteLineReq) = false ∨
    Packet.cmd pkt = MemCmd.WriteLineReq;
  fp_data : Packet.hasData pkt = true ∧ Packet.size pkt = 2 ^ k;
  fp_plain : Packet._isSecure pkt = false ∧ Packet.sharedAsserted pkt = false ∧ Packet.memInhibitAsserted pkt = false;
  fp_top : (Packet.addr pkt / 2 ^ k + 1) * 2 ^ k < 2 ^ 64;
  fp_master : _masterId (Packet.req pkt) < Tags.maxMasters (Cache.tags c);
}.

(** The state of the block once its bits are set. *)
Lemma fill_block_ok t p b b1 b2 b' x :
  blk_ok k s t p b → 2 ≤ k → 0 ≤ s → 0 ≤ x → (x + 1) * 2 ^ k < 2 ^ 64 →
  set b1 = set b ∧ way b1 = way b ∧ data b1 = data b → set b = x mod 2 ^ s →
  status b2 = 0 → lockList b2 = [] → tag b2 = x / 2 ^ s → set b2 = set b1 → way b2 = way b1 →
  srcMasterId b2 < Tags.maxMasters t → Z.of_nat (length (data b')) = 2 ^ k →
  (lockList b', tag b', set b', way b', srcMasterId b') = (lockList b2, tag b2, set b2, way b2, srcMasterId b2) →
  status b' = Z.lor (Z.lor (status b2) (Z.lor BlkValid BlkReadable)) BlkWritable →
  blk_ok k s t p b' ∧ line_ok b' ∧ status b' = 7 ∧ bn s b' = x.
Proof using Type.
  intros Hb Hk Hs Hx Htop (E1 & E2 & E3) Eset Est El Et Es Ew Hm Hlen E Est'. injection E as El' Et' Es' Ew' Em'. rewrite Est in Est'.
  pose proof (pow_pos s Hs). pose proof (Z.div_mod x (2 ^ s)). assert (bn s b' = x) as Hbn by (unfold bn; rewrite Et', Es', Es, E1, Eset, Et; lia).
  assert (lockList b' = []) by congruence. assert (status b' = 7) by (rewrite Est'; done).
  split; [|split; [split; [done|done|by left]|done]]. destruct (bk_place _ _ _ _ _ Hb) as [P1 P2].
  split; [by rewrite Es', Ew', Es, Ew, E1, E2|done|by right; left|done|]. intros _. rewrite Hbn, Et', Et, Em'.
  split; [apply Z.div_pos; lia|done].
Qed.

(** The bytes of the block after the fill. *)
Lemma fill_data c pkt d b :
  Cache.blkSize c = 2 ^ k → Z.of_nat (length (data b)) = 2 ^ k → func_wf pkt d → Packet.size pkt = 2 ^ k →
  ∃ bs, (if Packet.isRead pkt then
           n ← Packet.getSize pkt;
           assert_ (n =? Cache.blkSize c);;
           d ← Packet.getPtr pkt;
           bs ← memcpy (data b) 0 d 0 (Cache.blkSize c);
           mret (set_data bs b)
         else mret b) = Ok (set_data bs b) ∧ Z.of_nat (length bs) = 2 ^ k ∧ (Packet.isRead pkt = true → bs = d).
Proof using Type.
  intros Hbs Hl Hwf Hsz. pose proof (fw_len _ _ Hwf). destruct (Packet.isRead pkt).
  - exists d. rewrite (getSize_ok _ d), (getPtr_ok _ d), Hbs, Hsz by done. cbn [check mbind res_mbind]. rewrite Z.eqb_refl.
    cbn [check mbind res_mbind]. rewrite memcpy_all by lia. split; [done|]. split; [lia|done].
  - exists (data b). by destruct b.
Qed.

(** When a block that is filled by [pkt] is ready. *)
Definition fill_ready (c : Cache.Cache) (pkt : Packet) : Z :=
  u64 (edge + Cache.fillLatency c * Tags.clockPeriod (Cache.tags c) + Packet.payloadDelay pkt).

Lemma handleFill_ok c pkt d :
  cache_ok k s c → quiet (Packet.addr pkt / 2 ^ k) c → fill_pkt c pkt d →
  ∃ p b b' t' wbs, Cache.handleFill now edge c pkt None [] = Ok (Cache.InTags p, Cache.set_tags t' c, wbs) ∧
    blk_at (Cache.tags c) p b ∧ updates s (Cache.tags c) p b' t' ∧ blk_ok k s (Cache.tags c) p b' ∧ line_ok b' ∧ status b' = 7 ∧
    bn s b' = Packet.addr pkt / 2 ^ k ∧ (Packet.isRead pkt = true → data b' = d) ∧ evicts b wbs ∧
    whenReady b' = fill_ready c pkt.
Proof using Type.
  intros Hc Hi [Hwf Hkind [Hhd Hsz] (Hsec & Hsh & Hin) Htop Hm]. pose proof (ck_tags _ _ _ Hc) as Ht. pose proof (tk_geo _ _ _ Ht) as Hg.
  pose proof (fw_range _ _ Hwf) as (Hs0 & Ha & Ha64). pose proof (geo_range _ _ _ Hg) as (Hk & Hs & _).
  pose proof (pow_pos k ltac:(lia)). assert (0 ≤ Packet.addr pkt / 2 ^ k) by (apply Z.div_pos; lia).
  assert (Packet.isResponse pkt || bool_decide (Packet.cmd pkt = MemCmd.WriteLineReq) = true) as K1.
  { destruct Hkind as [(-> & _ & _)| ->]; [done|]. rewrite bool_decide_true by done. apply orb_true_r. }
  assert (Packet.isRead pkt || bool_decide (Packet.cmd pkt = MemCmd.WriteLineReq) = true) as K2.
  { destruct Hkind as [(_ & -> & _)| ->]; [done|]. rewrite bool_decide_true by done. apply orb_true_r. }
  unfold Cache.handleFill. rewrite K1, (getAddr_ok _ d Hwf). cbn [check mbind res_mbind]. unfold Packet.isSecure.
  rewrite (fw_addr _ _ Hwf), Hsec. cbn [check mbind res_mbind mret res_mret]. rewrite (blockAlign_ok c) by (done || lia). rewrite (proj1 Hi).
  rewrite (bool_decide_true ([] = [])) by done. cbn [check mbind res_mbind].
  rewrite Hhd, K2. cbn [check mbind res_mbind].
  destruct (allocateBlock_ok c (Packet.addr pkt) _ Hc Hi Ha) as (p & b & b1 & t1 & wbs & -> & Hp & Hup1 & Hset & Eb1 & Hsrc & Hinv & Hev).
  cbn [mbind res_mbind]. change (Cache.tags (Cache.set_tags t1 c)) with t1.
  destruct (insertBlock_ok k s now pkt d (Cache.tags c) p b b1 t1 Ht Hp Hup1 Hwf Hset Hsrc Hinv Hm)
    as (t2 & b2 & -> & Hup2 & Est & El & Etag & Eset & Eway & Edat & Esrc). cbn [mbind res_mbind mret res_mret Cache.get_blk].
  change (Cache.tags (Cache.set_tags t2 _)) with t2. rewrite (get_blk_at _ _ _ (updates_self _ _ _ _ _ _ Hp Hup2)). cbn [mbind res_mbind].
  assert (isValid b2 = false) as -> by (unfold isValid; by rewrite Est). cbn [negb check mbind res_mbind mret res_mret Cache.get_blk].
  change (Cache.tags (Cache.set_tags t2 _)) with t2. rewrite (get_blk_at _ _ _ (updates_self _ _ _ _ _ _ Hp Hup2)). cbn [mbind res_mbind].
  rewrite Hsh, Hin. cbn [negb andb]. rewrite orb_true_r. cbn [check mbind res_mbind mret res_mret].
  set (b3 := or_status BlkWritable _). set (c2 := Cache.set_tags t2 _).
  assert (Cache.blkSize c2 = 2 ^ k) as Hbs.
  { change (Cache.blkSize c2) with (Tags.blkSize t2). assert (Tags.blkSize t2 = Tags.blkSize (Cache.tags c)) as -> by apply Hup2. apply Hg. }
  pose proof (bk_data _ _ _ _ _ (tk_blk _ _ _ Ht p b Hp)) as Hlen. pose proof (fw_len _ _ Hwf) as Hld.
  assert (Z.of_nat (length (data b3)) = 2 ^ k) as Hl3. { change (data b3) with (data b2). rewrite Edat. by destruct Eb1 as (_ & _ & ->). }
  destruct (fill_data c2 pkt d b3) as (bs & Ebs & Hlb & Hrd); [done|done|done|done|]. rewrite Ebs. cbn [mbind res_mbind].
  destruct (fill_block_ok (Cache.tags c) p b b1 b2 (set_whenReady (u64 (edge + Cache.fillLatency c2 * Tags.clockPeriod (Cache.tags c2) + Packet.payloadDelay pkt))
    (set_data bs b3)) (Packet.addr pkt / 2 ^ k)) as (R1 & R2 & R3 & R4); try done; try lia.
  { by apply (tk_blk _ _ _ Ht). } { by rewrite <- Hset, (proj1 (bk_place _ _ _ _ _ (tk_blk _ _ _ Ht p b Hp))). }
  eexists p, b, _, _, wbs. split; [reflexivity|]. split; [done|]. split; [by eapply updates_put|]. split_and!; try done.
  cbn [whenReady set_whenReady]. unfold fill_ready. assert (Tags.clockPeriod t2 = Tags.clockPeriod (Cache.tags c)) as <- by apply Hup2. done.
Qed.

(** ** Processor requests *)

(** A read or a write of cacheable memory within a block. *)
Record cpu_pkt (pkt : Packet) (d : list Z) : Prop := {
  cq_wf : func_wf pkt d;
  cq_cmd : Packet.cmd pkt = MemCmd.ReadReq ∨ Packet.cmd pkt = MemCmd.WriteReq ∨
    Packet.cmd pkt = MemCmd.WriteLineReq ∧ Packet.size pkt = 2 ^ k ∧ Packet.addr pkt mod 2 ^ k = 0;
  cq_plain : Packet.memInhibitAsserted pkt = false ∧ Packet.sharedAsserted pkt = false ∧ Packet._isSecure pkt = false;
  cq_req : isUncacheable (Packet.req pkt) = false ∧ isRowOp (Packet.req pkt) = false ∧ Request.isSecure (Packet.req pkt) = false;
  cq_paddr : hasPaddr (Packet.req pkt) = true ∧ _paddr (Packet.req pkt) = Packet.addr pkt;
  cq_master : _masterId (Packet.req pkt) < masters;
  cq_block : in_block pkt;
  cq_in x : 0 ≤ x → x / 2 ^ k = Packet.addr pkt / 2 ^ k → has x;
  cq_top : (Packet.addr pkt / 2 ^ k + 1) * 2 ^ k < 2 ^ 64;
  cq_bytes : Forall (λ x, 0 ≤ x < 256) d;
}.

(** The flat memory after the request. *)
Definition after (pkt : Packet) (d : list Z) (V : Z → Z) : Z → Z :=
  λ x, if Packet.isWrite pkt && bool_decide (Packet.addr pkt ≤ x < Packet.addr pkt + Packet.size pkt)
       then default 0 (d !! Z.to_nat (x - Packet.addr pkt)) else V x.

Lemma block_offset x a : 2 ≤ k → x / 2 ^ k = a / 2 ^ k → x mod 2 ^ k - a mod 2 ^ k = x - a.
Proof using Type. intros Hk E. pose proof (pow_pos k ltac:(lia)). pose proof (Z.div_mod x (2 ^ k)). pose proof (Z.div_mod a (2 ^ k)). nia. Qed.

Lemma overwrite_lookup bs pkt d x :
  2 ≤ k → Z.of_nat (length bs) = 2 ^ k → func_wf pkt d → in_block pkt → x / 2 ^ k = Packet.addr pkt / 2 ^ k →
  overwrite bs (Z.to_nat (Packet.addr pkt mod 2 ^ k)) d !! Z.to_nat (x mod 2 ^ k) =
    if decide (Packet.addr pkt ≤ x < Packet.addr pkt + Packet.size pkt) then d !! Z.to_nat (x - Packet.addr pkt)
    else bs !! Z.to_nat (x mod 2 ^ k).
Proof using Type.
  intros Hk Hl Hwf Hin E. pose proof (block_offset x (Packet.addr pkt) Hk E) as Ho. pose proof (fw_len _ _ Hwf).
  pose proof (Z.mod_pos_bound x (2 ^ k) (pow_pos k ltac:(lia))). pose proof (Z.mod_pos_bound (Packet.addr pkt) (2 ^ k) (pow_pos k ltac:(lia))).
  unfold in_block in Hin. unfold overwrite. case_decide.
  - rewrite lookup_app_r, length_take by (rewrite length_take; lia). rewrite lookup_app_l by lia. f_equal. lia.
  - destruct (decide (x < Packet.addr pkt)).
    + rewrite lookup_app_l by (rewrite length_take; lia). by rewrite lookup_take_lt by lia.
    + rewrite lookup_app_r, length_take by (rewrite length_take; lia). rewrite lookup_app_r, lookup_drop by lia. f_equal. lia.
Qed.

Lemma read_bytes bs V pkt d :
  2 ≤ k → Z.of_nat (length bs) = 2 ^ k → func_wf pkt d → in_block pkt →
  (∀ x, 0 ≤ x → x / 2 ^ k = Packet.addr pkt / 2 ^ k → bs !! Z.to_nat (x mod 2 ^ k) = Some (V x)) →
  take (length d) (drop (Z.to_nat (Packet.addr pkt mod 2 ^ k)) bs) = bytes_of V pkt.
Proof using Type.
  intros Hk Hl Hwf Hin HV. pose proof (fw_len _ _ Hwf) as Hd. pose proof (fw_range _ _ Hwf) as (Hs & Ha & _). unfold in_block in Hin.
  set (a := Packet.addr pkt) in *. pose proof (pow_pos k ltac:(lia)). pose proof (Z.mod_pos_bound a (2 ^ k)). pose proof (Z.div_mod a (2 ^ k)).
  apply list_eq_same_length with (length d); [unfold bytes_of; rewrite length_fmap, length_seqZ; lia|rewrite length_take, length_drop; lia|].
  intros i x y Hi Hx Hy. rewrite lookup_take_lt, lookup_drop in Hx by lia. unfold bytes_of in Hy.
  rewrite list_lookup_fmap, lookup_seqZ_lt in Hy by lia. simpl in Hy. fold a in Hy. simplify_eq.
  assert ((a + Z.of_nat i) / 2 ^ k = a / 2 ^ k) as Eq.
  { symmetry. apply Z.div_unique with (a mod 2 ^ k + Z.of_nat i); lia. }
  specialize (HV (a + Z.of_nat i) ltac:(lia) Eq). pose proof (block_offset _ _ ltac:(lia) Eq).
  replace (Z.to_nat ((a + Z.of_nat i) mod 2 ^ k)) with (Z.to_nat (a mod 2 ^ k) + i)%nat in HV by lia. congruence.
Qed.

Lemma satisfied df pd c p b pkt d :
  2 ≤ k ≤ 13 → Cache.blkSize c = 2 ^ k → blk_at (Cache.tags c) p b → line_ok b → cpu_pkt pkt d →
  ∃ b' pkt', Cache.satisfyCpuSideRequest now c pkt (Cache.InTags p) df pd = Ok (Cache.put_blk (Cache.InTags p) b' c, pkt') ∧
    line_ok b' ∧ (tag b', set b', way b', srcMasterId b') = (tag b, set b, way b, srcMasterId b) ∧
    isDirty b' = Packet.isWrite pkt || isDirty b ∧ whenReady b' = whenReady b ∧ (∃ dd, pkt' = Packet.with_data pkt dd) ∧
    ∀ V, (∀ x, 0 ≤ x → x / 2 ^ k = Packet.addr pkt / 2 ^ k → Packet.cmd pkt ≠ MemCmd.WriteLineReq → data b !! Z.to_nat (x mod 2 ^ k) = Some (V x)) →
      (∀ x, 0 ≤ x → x / 2 ^ k = Packet.addr pkt / 2 ^ k → data b' !! Z.to_nat (x mod 2 ^ k) = Some (after pkt d V x)) ∧
      (Packet.isRead pkt = true → Packet.data pkt' = Some (bytes_of V pkt)).
Proof using Type.
  intros Hk Hbs Hp Hb [Hwf Hcmd _ _ _ _ Hin _ _ _]. pose proof (ln_data b Hb) as Hlen. pose proof (fw_len _ _ Hwf) as Hd.
  unfold after. destruct (decide (Packet.cmd pkt = MemCmd.ReadReq)) as [E|E].
  - rewrite (satisfy_read df pd c p b pkt d) by done. eexists b, _. split; [reflexivity|]. unfold Packet.isWrite. rewrite E. split_and!; try done; [by eexists|].
    intros V HV. simpl. split; [by intros; apply HV|]. intros _. f_equal. apply read_bytes; try done; [lia|]. intros. by apply HV.
  - assert (Packet.cmd pkt = MemCmd.WriteReq ∨ Packet.cmd pkt = MemCmd.WriteLineReq) as Hw by (destruct Hcmd as [?|[?|[? _]]]; auto; done).
    assert (Packet.isWrite pkt = true ∧ Packet.isRead pkt = false) as [-> ->] by (unfold Packet.isWrite, Packet.isRead; by destruct Hw as [->| ->]).
    rewrite (satisfy_write df pd c p b pkt d) by done. pose proof (overwrite_lookup (data b) pkt d) as Hov. unfold in_block in Hin.
    pose proof (Z.mod_pos_bound (Packet.addr pkt) (2 ^ k) (pow_pos k ltac:(lia))).
    eexists _, _. split; [reflexivity|]. split; [split|split; [done|split; [|split; [done|split; [exists (Packet.data pkt); by destruct pkt|]]]]].
    + simpl. unfold overwrite. rewrite !length_app, length_take, length_drop. lia.
    + apply Hb.
    + right. simpl. by destruct (ln_status b Hb) as [->| ->].
    + unfold isDirty. simpl. by destruct (ln_status b Hb) as [->| ->].
    + intros V HV. split; [|done]. intros x Hx Ex. simpl. rewrite Hov by (done || lia). case_decide as D.
      * rewrite bool_decide_true by done. simpl. destruct (lookup_lt_is_Some_2 d (Z.to_nat (x - Packet.addr pkt))) as [y ->]; [lia|done].
      * rewrite bool_decide_false by done. apply HV; [done|done|]. intros El. destruct Hcmd as [?|[?|(_ & Es & Ea)]]; [congruence..|].
        pose proof (block_offset x (Packet.addr pkt) ltac:(lia) Ex). pose proof (Z.mod_pos_bound x (2 ^ k) (pow_pos k ltac:(lia))). lia.
Qed.

(** Looking the request up. *)
Lemma access_cpu c pkt d :
  cache_ok k s c → Tags.maxMasters (Cache.tags c) = masters → cpu_pkt pkt d →
  (∃ p b t' lat, blk_at (Cache.tags c) p b ∧ isValid b = true ∧ bn s b = Packet.addr pkt / 2 ^ k ∧
     updates s (Cache.tags c) p (set_refCount (u32 (refCount b + 1)) b) t' ∧ hit_latency now (Cache.tags c) b lat ∧
     Cache.access now c pkt =
       ('(c, pkt) ← Cache.satisfyCpuSideRequest now (Cache.set_tags t' c) pkt (Cache.InTags p) false false;
        mret (true, Some p, lat, c, pkt, []))) ∨
  (¬ cached s (Cache.tags c) (Packet.addr pkt / 2 ^ k) ∧
   ∃ lat, Cache.access now c pkt = Ok (false, None, lat, c, Cache.incAccessDepth pkt, [])).
Proof using Type.
  intros Hc Hmx [Hwf Hcmd (Hin & Hsh & Hsec) (Hu & _) _ Hm _ _ _ _]. pose proof (ck_tags _ _ _ Hc) as Ht. pose proof (fw_range _ _ Hwf) as (_ & Ha & _).
  assert (Packet.isRequest pkt = true ∧ Packet.evictingBlock pkt = false ∧ Packet.isLLSC pkt = false ∧
    bool_decide (Packet.cmd pkt = MemCmd.Writeback) = false ∧ bool_decide (Packet.cmd pkt = MemCmd.CleanEvict) = false) as (E1 & E2 & E3 & E4 & E5)
    by (unfold Packet.isRequest, Packet.evictingBlock, Packet.isLLSC; by destruct Hcmd as [->|[->|[-> _]]]).
  unfold Cache.access. rewrite E1. destruct (ck_plain _ _ _ Hc) as (-> & _). cbn [andb negb check mbind res_mbind].
  unfold Packet.isSecure. rewrite (fw_addr _ _ Hwf), Hsec. cbn [check mbind res_mbind mret res_mret]. rewrite Hu, (getAddr_ok _ d Hwf).
  cbn [mbind res_mbind]. pose proof (ck_clock _ _ _ Hc).
  destruct (accessBlock_ok k s now (Cache.tags c) (Packet.addr pkt) Ht Ha) as (r & lat & t' & -> & Hr); [lia|].
  cbn [mbind res_mbind]. rewrite E2, E4, E5. destruct r as [p|].
  - destruct Hr as (b & Hp & Hv & Hbn & Hup & Hlat). left. exists p, b, t', lat. do 5 (split; [done|]).
    change (Cache.tags (Cache.set_tags t' c)) with t'. rewrite (get_blk_at _ _ _ (updates_self _ _ _ _ _ _ Hp Hup)). cbn [mbind res_mbind mret res_mret].
    change (isWritable (set_refCount _ b)) with (isWritable b). change (isReadable (set_refCount _ b)) with (isReadable b).
    destruct (status_facts b (bk_status _ _ _ _ _ (tk_blk _ _ _ Ht p b Hp))) as (_ & -> & -> & _). rewrite Hv.
    assert ((if MemCmd.needsExclusive (Packet.cmd pkt) then true else true) = true) as -> by (by destruct (MemCmd.needsExclusive _)).
    unfold Cache.count_master. change (Cache.tags (Cache.set_tags t' c)) with t'.
    assert (Tags.maxMasters t' = masters) as -> by (rewrite <- Hmx; apply Hup). by rewrite (proj2 (Z.ltb_lt _ _) Hm).
  - destruct Hr as [-> Hn]. right. split; [done|]. exists lat. cbn [mbind res_mbind mret res_mret].
    unfold Cache.count_master. change (Cache.tags (Cache.set_tags _ c)) with (Cache.tags c). rewrite Hmx, (proj2 (Z.ltb_lt _ _) Hm).
    cbn [check mbind res_mbind]. change (Packet.isLLSC (Cache.incAccessDepth pkt)) with (Packet.isLLSC pkt). rewrite E3, andb_false_r. by destruct c.
Qed.

(** ** Hits *)

Lemma promote_cpu c pkt d :
  cache_ok k s c → cpu_pkt pkt d →
  ∃ pkt', Cache.promoteWholeLineWrites c pkt = Ok pkt' ∧ cpu_pkt pkt' d ∧ Packet.isRead pkt' = Packet.isRead pkt ∧
    Packet.headerDelay pkt' = Packet.headerDelay pkt ∧ (∀ V, after pkt' d V = after pkt d V ∧ bytes_of V pkt' = bytes_of V pkt).
Proof using Type.
  intros Hc Hq. destruct (promote_ok c pkt d Hc (cq_wf _ _ Hq)) as (pkt' & E & [->|(Hw & Hs & Ha & ->)]); [by exists pkt|].
  eexists. split; [done|]. destruct Hq as [Hwf Hcmd Hpl Hrq Hpa Hm Hb Hi Ht Hby]. unfold Packet.isRead, after, Packet.isWrite. simpl. rewrite Hw.
  split; [|done]. split; try done; [by destruct Hwf|]. by right; right.
Qed.

Lemma respond_cpu pkt d :
  cpu_pkt pkt d → ∀ pkt1, Packet.cmd pkt1 = Packet.cmd pkt →
  ∃ pkt', (if Packet.needsResponse pkt1 then Packet.makeResponse pkt1 else mret pkt1) = Ok pkt' ∧ Packet.isResponse pkt' = true ∧
    Packet.data pkt' = Packet.data pkt1.
Proof using Type.
  intros [_ Hcmd _ _ _ _ _ _ _ _] pkt1 E. assert (Packet.isRequest pkt1 = true ∧ Packet.needsResponse pkt1 = true) as [H1 H2].
  { unfold Packet.isRequest, Packet.needsResponse. rewrite E. by destruct Hcmd as [->|[->|[-> _]]]. }
  destruct (respond_ok pkt1 H1 H2) as (pkt' & Er & Hr & _ & Hd & _). by exists pkt'.
Qed.

Lemma after_range pkt d V : func_wf pkt d → Forall (λ x, 0 ≤ x < 256) d → (∀ x, 0 ≤ V x < 256) → ∀ x, 0 ≤ after pkt d V x < 256.
Proof using Type.
  intros Hwf Hd HV x. unfold after. destruct (_ && _); [|apply HV]. destruct (d !! _) as [y|] eqn:E; simpl; [|lia]. by eapply Forall_lookup_1 in Hd.
Qed.

Lemma after_outside pkt d V x :
  2 ≤ k → func_wf pkt d → in_block pkt → 0 ≤ x → x / 2 ^ k ≠ Packet.addr pkt / 2 ^ k → after pkt d V x = V x.
Proof using Type.
  intros Hk Hwf Hin Hx Hne. unfold after. rewrite bool_decide_false, andb_false_r; [done|]. intros Hr. apply Hne. unfold in_block in Hin.
  pose proof (pow_pos k ltac:(lia)). pose proof (Z.div_mod (Packet.addr pkt) (2 ^ k)). pose proof (Z.mod_pos_bound (Packet.addr pkt) (2 ^ k)).
  symmetry. apply Z.div_unique with (x - Packet.addr pkt / 2 ^ k * 2 ^ k); lia.
Qed.

Lemma blk_ok_line t p b b' :
  blk_ok k s t p b → isValid b = true → line_ok b' →
  (tag b', set b', way b', srcMasterId b') = (tag b, set b, way b, srcMasterId b) → blk_ok k s t p b' ∧ bn s b' = bn s b.
Proof using Type.
  intros [P1 P2 P3 P4 P5] Hv [L1 L2 L3] E. injection E as E1 E2 E3 E4. assert (bn s b' = bn s b) as Ebn by (unfold bn; congruence).
  split; [|done]. split; [by rewrite E2, E3|done|by right|done|]. intros _. rewrite Ebn, E1, E4. by apply P5.
Qed.

(** What the end of a request needs: block [p] holds the requested block. *)
Lemma served_block c mb V pkt d p b b' t' mb' :
  holds c mb V → cpu_pkt pkt d → blk_at (Cache.tags c) p b → updates s (Cache.tags c) p b' t' →
  blk_ok k s (Cache.tags c) p b' → isValid b' = true → bn s b' = Packet.addr pkt / 2 ^ k →
  (∀ q e, q ≠ p → blk_at (Cache.tags c) q e → isValid e = true → bn s e ≠ bn s b') →
  (∀ x, mb' x = if isValid b && negb (bn s b =? bn s b') then evicted k s b mb V x else mb x) →
  (∀ x, 0 ≤ x → x / 2 ^ k = bn s b' → data b' !! Z.to_nat (x mod 2 ^ k) = Some (after pkt d V x)) →
  (isDirty b' = false → ∀ x, 0 ≤ x → x / 2 ^ k = bn s b' → after pkt d V x = mb x) →
  holds (Cache.set_tags t' c) mb' (after pkt d V).
Proof using Type.
  intros [Hc Hco HV Hmx] Hq Hp Hup Hok Hv' Hbn Hu Hmb Hdat Hcl. pose proof (ck_tags _ _ _ Hc) as Ht.
  pose proof (geo_range _ _ _ (tk_geo _ _ _ Ht)) as (Hk & _).
  destruct (install_ok k s has (Cache.tags c) p b b' t' mb V mb' (after pkt d V) Ht Hco Hp Hup Hok Hv' Hu) as [Ht' Hco'].
  - intros x. by rewrite Hmb.
  - intros x Hx Hne. apply after_outside; [lia|apply Hq|apply Hq|done|congruence].
  - intros x Hx E. split; [by apply Hdat|]. split; [intros; by apply Hcl|]. apply Hq; [done|congruence].
  - split; [|done| |].
    + apply cache_ok_tags; [done|done|apply Hup].
    + apply after_range; [apply Hq|apply Hq|done].
    + rewrite <- Hmx. apply Hup.
Qed.

Lemma satisfy_hit c mb V pkt d p b t' :
  holds c mb V → cpu_pkt pkt d →
  blk_at (Cache.tags c) p b → isValid b = true → bn s b = Packet.addr pkt / 2 ^ k →
  updates s (Cache.tags c) p (set_refCount (u32 (refCount b + 1)) b) t' →
  ∃ t2 pkt', Cache.satisfyCpuSideRequest now (Cache.set_tags t' c) pkt (Cache.InTags p) false false = Ok (Cache.set_tags t2 c, pkt') ∧
    holds (Cache.set_tags t2 c) mb (after pkt d V) ∧ (∀ x, cached s t2 x → cached s (Cache.tags c) x) ∧ same_params (Cache.tags c) t2 ∧
    (∀ B, ready_by B (Cache.tags c) → ready_by B t2) ∧
    (∃ dd, pkt' = Packet.with_data pkt dd) ∧ (Packet.isRead pkt = true → Packet.data pkt' = Some (bytes_of V pkt)).
Proof using Type.
  intros Hr Hq Hp Hv Hbn Hup. pose proof Hr as [Hc Hco HV Hmx]. pose proof (ck_tags _ _ _ Hc) as Ht. pose proof (tk_geo _ _ _ Ht) as Hg.
  pose proof (geo_range _ _ _ Hg) as (Hk & _). pose proof (tk_blk _ _ _ Ht p b Hp) as Hb. set (b1 := set_refCount _ b) in *.
  assert (line_ok b1) as Hl1.
  { split; [apply Hb|apply Hb|]. destruct (bk_status _ _ _ _ _ Hb) as [E|?]; [|done]. exfalso. revert Hv. unfold isValid. by rewrite E. }
  assert (Cache.blkSize (Cache.set_tags t' c) = 2 ^ k) as Hbs.
  { rewrite <- (proj1 (geo_blk _ _ _ Hg)). change (Cache.blkSize _) with (Tags.blkSize t'). apply Hup. }
  destruct (satisfied false false (Cache.set_tags t' c) p b1 pkt d ltac:(lia) Hbs (updates_self _ _ _ _ _ _ Hp Hup) Hl1 Hq)
    as (b2 & pkt' & E & Hl2 & Ef & Ed & Er & Ecmd & Hdat). rewrite E.
  destruct (Hdat V) as [Hd1 Hd2]. { intros x Hx Ex _. apply (co_data _ _ _ _ _ _ Hco p b x Hp Hv Hx). congruence. }
  destruct (blk_ok_line (Cache.tags c) p b b2 Hb Hv Hl2 Ef) as [Hok2 Hbn2].
  assert (updates s (Cache.tags c) p b2 (Tags.put_blk p b2 t')) as Hup2 by (by eapply updates_put).
  eexists _, pkt'. split; [reflexivity|]. split; [|split; [|split; [apply Hup2|split; [|done]]]].
  3:{ intros B HB. apply (ready_updates s B (Cache.tags c) p b b2); [exact HB|exact Hp|exact Hup2|]. rewrite Er. by apply (HB p b). }
  2:{ intros x (q & e & Hqe & Hve & <-). destruct (updates_at _ _ _ _ _ _ _ _ Hp Hup2 Hqe) as [[-> ->]|[_ Hqe']]; [|by exists q, e].
      exists p, b. by rewrite Hbn2. }
  apply (served_block c mb V pkt d p b b2 (Tags.put_blk p b2 t') mb); try done.
  - by apply line_facts.
  - congruence.
  - intros q e Hne Hqe Hve En. apply Hne. eapply (tk_unique _ _ _ Ht); [done|done|done|done|congruence].
  - intros x. rewrite Hbn2, Z.eqb_refl. by rewrite andb_false_r.
  - intros x Hx Ex. apply Hd1; [done|congruence].
  - intros Hcl x Hx Ex. rewrite Ed in Hcl. apply orb_false_iff in Hcl as [Hw Hcl]. unfold after. rewrite Hw. simpl.
    apply (co_clean _ _ _ _ _ _ Hco p b x); try done. congruence.
Qed.

(** ** Misses *)

(** The command of the packet a miss sends. *)
Definition bus_cmd (pkt : Packet) : MemCmd.Command :=
  match Packet.cmd pkt with
  | MemCmd.ReadReq => MemCmd.ReadSharedReq
  | MemCmd.WriteReq => MemCmd.ReadExReq
  | _ => MemCmd.InvalidateReq
  end.

Lemma getBusPacket_ok c pkt d :
  cache_ok k s c → cpu_pkt pkt d →
  ∃ bus z, Cache.getBusPacket c pkt None (MemCmd.needsExclusive (Packet.cmd pkt)) = Ok (Some bus) ∧ plain_req has bus z ∧
    Packet.cmd bus = bus_cmd pkt ∧ Packet.addr bus = Packet.addr pkt / 2 ^ k * 2 ^ k ∧ Packet.size bus = 2 ^ k ∧
    Packet.sharedAsserted bus = false ∧ Packet._isSecure bus = false ∧ Packet.req bus = Packet.req pkt ∧ Packet.flags bus = 0x2300 ∧
    Packet.headerDelay bus = 0 ∧ Packet.payloadDelay bus = 0.
Proof using Type.
  intros Hc [Hwf Hcmd (Hin & Hsh & Hsec) (Hu & Hro & Hrs) (Hhp & Hpa) Hm Hb Hi Ht _]. pose proof (tk_geo _ _ _ (ck_tags _ _ _ Hc)) as Hg.
  pose proof (geo_range _ _ _ Hg) as (Hk & _). pose proof (fw_range _ _ Hwf) as (Hs0 & Ha & Ha2). pose proof (pow_pos k ltac:(lia)).
  assert (2 ^ k ≤ 2 ^ 13) by (apply Z.pow_le_mono_r; lia).
  set (A := Packet.addr pkt / 2 ^ k * 2 ^ k). assert (0 ≤ Packet.addr pkt / 2 ^ k) by (apply Z.div_pos; lia).
  assert (A ≤ Packet.addr pkt) by (unfold A; pose proof (Z.div_mod (Packet.addr pkt) (2 ^ k)); pose proof (Z.mod_pos_bound (Packet.addr pkt) (2 ^ k)); lia).
  assert (∀ cmd, Packet.new_Packet_blk (Packet.req pkt) cmd (2 ^ k) = Packet.mkPacket 0x300 cmd (Packet.req pkt) None A false (2 ^ k) [] 0 0 0 []) as Enew.
  { intros cmd. unfold Packet.new_Packet_blk. rewrite Hhp, Hrs, Hpa, align_block by lia. done. }
  unfold Cache.getBusPacket. cbn [mbind res_mbind mret res_mret]. rewrite Hu. cbn [negb andb].
  assert ((MemCmd.isUpgrade (Packet.cmd pkt) || Packet.evictingBlock pkt = false) ∧ Packet.needsResponse pkt = true) as [-> ->]
    by (unfold Packet.evictingBlock, Packet.needsResponse; by destruct Hcmd as [->|[->|[-> _]]]).
  cbn [check mbind res_mbind]. unfold Cache.blkSize. rewrite (proj1 (geo_blk _ _ _ Hg)), Hsh. destruct (ck_plain _ _ _ Hc) as (-> & _).
  rewrite !Enew. exists (Packet.mkPacket 0x2300 (bus_cmd pkt) (Packet.req pkt) (Some (replicate (Z.to_nat (2 ^ k)) 0)) A false (2 ^ k) [] 0 0 0 []),
    (replicate (Z.to_nat (2 ^ k)) 0).
  split; [|split; [|done]].
  - unfold Packet.getAddr. cbn [Packet.flags Packet.addr]. change (Flags.isSet 768 Packet.VALID_ADDR) with true. cbn [check mbind res_mbind mret res_mret].
    assert (A =? Cache.blockAlign c A = true) as ->.
    { rewrite (blockAlign_ok c A Hc) by (unfold A in *; lia). unfold A. rewrite Z.div_mul by lia. apply Z.eqb_refl. }
    cbn [check mbind res_mbind]. unfold bus_cmd. destruct Hcmd as [->|[->|[-> _]]]; done.
  - split; try done.
    + split; try done; [simpl; rewrite length_replicate; lia|simpl; lia].
    + intros x Hx. simpl in Hx. unfold A in Hx. apply (block_range k (Packet.addr pkt / 2 ^ k) x) in Hx as [Hx E]; [by apply Hi|lia|lia].
    + exists (Packet.addr pkt). unfold getPaddr. unfold hasPaddr in Hhp. cbn [Packet.req]. by rewrite Hhp, Hpa.
Qed.

Lemma evicts_evictions c mb V p b wbs x :
  cache_ok k s c → coherent k s has (Cache.tags c) mb V → (∀ a, 0 ≤ V a < 256) → blk_at (Cache.tags c) p b → evicts b wbs →
  ¬ cached s (Cache.tags c) x →
  ∃ mb', evictions k s has wbs mb mb' ∧ ∀ a, mb' a = if isValid b && negb (bn s b =? x) then evicted k s b mb V a else mb a.
Proof using Type.
  intros Hc Hco HV Hp Hev Hn. pose proof (ck_tags _ _ _ Hc) as Ht. pose proof (geo_range _ _ _ (tk_geo _ _ _ Ht)) as (Hk & _).
  unfold evicts in Hev. destruct (isValid b) eqn:Hv; [|exists mb; subst wbs; split; [constructor|done]].
  destruct Hev as (wb & -> & Hwb). pose proof (bn_pos k s _ p b Ht Hp Hv). exists (evicted k s b mb V). split.
  - apply (evictions_snoc k s has [] mb mb _ wb b); [constructor|done|by apply (co_bytes k s has (Cache.tags c) mb V p b)| |].
    + intros a Ha E. by eapply (co_has _ _ _ _ _ _ Hco p b).
    + by eapply evicted_wrote; [lia|..].
  - intros a. destruct (Z.eqb_spec (bn s b) x); [|done]. exfalso. apply Hn. by exists p, b.
Qed.

Lemma fill_and_satisfy df pd c mb V pkt d fpkt fd :
  holds c mb V → quiet (Packet.addr pkt / 2 ^ k) c → cpu_pkt pkt d → fill_pkt c fpkt fd → Packet.addr fpkt / 2 ^ k = Packet.addr pkt / 2 ^ k →
  ¬ cached s (Cache.tags c) (Packet.addr pkt / 2 ^ k) →
  (Packet.cmd pkt ≠ MemCmd.WriteLineReq → Packet.isRead fpkt = true ∧ Packet.addr fpkt mod 2 ^ k = 0 ∧ fd = bytes_of mb fpkt) →
  ∃ p t1 t' pkt' wbs mb', Cache.handleFill now edge c fpkt None [] = Ok (Cache.InTags p, Cache.set_tags t1 c, wbs) ∧
    Cache.satisfyCpuSideRequest now (Cache.set_tags t1 c) pkt (Cache.InTags p) df pd = Ok (Cache.set_tags t' c, pkt') ∧
    evictions k s has wbs mb mb' ∧ (∀ mb2, (∀ x, mb2 x = mb' x) → holds (Cache.set_tags t' c) mb2 (after pkt d V)) ∧
    (∃ dd, pkt' = Packet.with_data pkt dd) ∧ (Packet.isRead pkt = true → Packet.data pkt' = Some (bytes_of V pkt)) ∧
    (∀ y, cached s t' y → cached s (Cache.tags c) y ∨ y = Packet.addr pkt / 2 ^ k) ∧
    same_params (Cache.tags c) t' ∧ (∀ B, ready_by B (Cache.tags c) → fill_ready c fpkt ≤ B → ready_by B t') ∧
    (wbs = [] ∨ ∃ wb y, wbs = [wb] ∧ Packet.addr wb = y * 2 ^ k ∧ cached s (Cache.tags c) y ∧ ¬ cached s t' y) ∧
    (∃ b, blk_at t' p b ∧ isValid b = true) ∧ same_params (Cache.tags c) t1.
Proof using Type.
  intros Hr Hi Hq Hf Eblk Hn Hfd. pose proof Hr as [Hc Hco HV Hmx]. pose proof (ck_tags _ _ _ Hc) as Ht. pose proof (tk_geo _ _ _ Ht) as Hg.
  pose proof (geo_range _ _ _ Hg) as (Hk & _). pose proof (pow_pos k ltac:(lia)).
  destruct (handleFill_ok c fpkt fd Hc ltac:(by rewrite Eblk) Hf) as (p & b & b1 & t1 & wbs & Efill & Hp & Hup & Hok1 & Hl1 & Hs1 & Hbn1 & Hdat1 & Hev & Er1).
  assert (Cache.blkSize (Cache.set_tags t1 c) = 2 ^ k) as Hbs.
  { rewrite <- (proj1 (geo_blk _ _ _ Hg)). change (Cache.blkSize _) with (Tags.blkSize t1). apply Hup. }
  destruct (satisfied df pd (Cache.set_tags t1 c) p b1 pkt d ltac:(lia) Hbs (updates_self _ _ _ _ _ _ Hp Hup) Hl1 Hq)
    as (b2 & pkt' & Esat & Hl2 & Ef & Ed & Er2 & Ecmd & Hdat).
  destruct (blk_ok_line (Cache.tags c) p b1 b2 Hok1 (proj1 (line_facts b1 Hl1)) Hl2 Ef) as [Hok2 Hbn2]. rewrite Hbn1, Eblk in Hbn2.
  destruct (evicts_evictions c mb V p b wbs _ Hc Hco HV Hp Hev Hn) as (mb' & Hevs & Hmb').
  assert (∀ x, 0 ≤ x → x / 2 ^ k = Packet.addr pkt / 2 ^ k → V x = mb x) as Hun.
  { intros x Hx Ex. apply (co_memory _ _ _ _ _ _ Hco); [done|]. intros q e Hqe Hve E. apply Hn. exists q, e. by rewrite <- Ex. }
  destruct (Hdat V) as [Hd1 Hd2].
  { intros x Hx Ex Hne. destruct (Hfd Hne) as (Hrd & Hal & ->). rewrite (Hdat1 Hrd). unfold bytes_of. rewrite (proj2 (fp_data _ _ _ Hf)).
    pose proof (Z.mod_pos_bound x (2 ^ k)). rewrite list_lookup_fmap, lookup_seqZ_lt by lia. simpl. rewrite Hun by done. do 2 f_equal.
    pose proof (block_offset x (Packet.addr fpkt) ltac:(lia) ltac:(congruence)). lia. }
  assert (updates s (Cache.tags c) p b2 (Tags.put_blk p b2 t1)) as Hup2 by (by eapply updates_put).
  eexists p, t1, _, pkt', wbs, mb'. split; [done|]. split; [exact Esat|]. split; [done|]. split; [|split; [done|split; [done|split; [|split; [apply Hup2|split; [|split]]]]]].
  - intros mb2 Hmb2. apply (served_block c mb V pkt d p b b2 _ mb2); try done.
    + by apply line_facts.
    + intros q e _ Hqe Hve E. apply Hn. exists q, e. by rewrite <- Hbn2.
    + intros x. by rewrite Hmb2, Hbn2.
    + intros x Hx Ex. apply Hd1; [done|congruence].
    + intros Hcl x Hx Ex. rewrite Ed in Hcl. apply orb_false_iff in Hcl as [Hw _]. unfold after. rewrite Hw. simpl. apply Hun; [done|congruence].
  - intros y (q & e & Hqe & Hve & <-). destruct (updates_at _ _ _ _ _ _ _ _ Hp Hup2 Hqe) as [[-> ->]|[_ Hqe']]; [by right|]. left. by exists q, e.
  - intros B HB HR. apply (ready_updates s B (Cache.tags c) p b b2); [exact HB|exact Hp|exact Hup2|]. by rewrite Er2, Er1.
  - unfold evicts in Hev. destruct (isValid b) eqn:Hv; [right|by left]. destruct Hev as (wb & -> & Hwb). exists wb, (bn s b).
    split; [done|]. split; [apply Hwb|]. split; [by exists p, b|]. intros (q & e & Hqe & Hve & E).
    destruct (updates_at _ _ _ _ _ _ _ _ Hp Hup2 Hqe) as [[-> ->]|[Hne Hqe']]; [apply Hn; exists p, b; by rewrite <- E|].
    apply Hne. by eapply (tk_unique _ _ _ Ht).
  - split; [|apply Hup]. exists b2. split; [by eapply updates_self|by apply line_facts].
Qed.

(** The response to a read of a block fills it. *)
Lemma read_fill c m pkt d bus z rbus :
  Tags.maxMasters (Cache.tags c) = masters → cpu_pkt pkt d → plain_req has bus z →
  Packet.cmd bus = MemCmd.ReadSharedReq ∨ Packet.cmd bus = MemCmd.ReadExReq →
  Packet.addr bus = Packet.addr pkt / 2 ^ k * 2 ^ k → Packet.size bus = 2 ^ k → 2 ≤ k → Packet._isSecure bus = false →
  Packet.req bus = Packet.req pkt → Packet.flags bus = 0x2300 →
  Packet.makeResponse (Packet.with_data bus (Some (bytes_of (mem_byte m) bus))) = Ok rbus →
  fill_pkt c rbus (bytes_of (mem_byte m) rbus) ∧ Packet.addr rbus = Packet.addr bus ∧ Packet.isRead rbus = true ∧
    Packet.isResponse rbus = true ∧ Packet.isError rbus = false.
Proof using Type.
  intros Hmx [_ _ _ _ _ Hm _ _ Htop _] [Hwf _ _ _ _] Hcmd Ea Es Hk Hsec Ereq Efl Emk. pose proof (pow_pos k ltac:(lia)).
  pose proof (fw_range _ _ Hwf) as Hrg.
  assert (rbus = Packet.mkPacket 0x2300 (MemCmd.responseCommand (Packet.cmd bus)) (Packet.req bus) (Some (bytes_of (mem_byte m) bus))
    (Packet.addr bus) false (2 ^ k) (Packet.bytesValid bus) (Packet.headerDelay bus) (Packet.snoopDelay bus) (Packet.payloadDelay bus) (Packet.senderState bus)) as ->.
  { unfold Packet.makeResponse, Packet.needsResponse, Packet.isRequest in Emk. cbn [Packet.cmd Packet.with_data] in Emk.
    revert Emk. unfold Packet.with_flags, Packet.with_cmd, Packet.with_data. cbn [Packet.cmd Packet.flags Packet.req Packet.data Packet.addr Packet._isSecure
      Packet.size Packet.bytesValid Packet.headerDelay Packet.snoopDelay Packet.payloadDelay Packet.senderState]. rewrite Efl, Hsec, Es.
    destruct Hcmd as [->| ->]; intros Emk; injection Emk as <-; done. }
  assert (Z.of_nat (length (bytes_of (mem_byte m) bus)) = 2 ^ k) as Hlen by (unfold bytes_of; rewrite length_fmap, length_seqZ; lia).
  split; [|unfold Packet.isRead, Packet.isResponse, Packet.isError; simpl; by destruct Hcmd as [->| ->]].
  assert (bytes_of (mem_byte m) bus = mem_byte m <$> seqZ (Packet.addr bus) (2 ^ k)) as Eby by (unfold bytes_of; by rewrite Es).
  split; simpl.
  - split; simpl; try done; [unfold bytes_of; by rewrite Es|unfold bytes_of; simpl; rewrite length_fmap, length_seqZ; lia|by rewrite Es in Hrg].
  - left. unfold Packet.isRead, Packet.isResponse. simpl. by destruct Hcmd as [->| ->].
  - split; [|done]. unfold Packet.hasData. simpl. by destruct Hcmd as [->| ->].
  - done.
  - rewrite Ea, Z.div_mul by lia. done.
  - by rewrite Ereq, Hmx.
Qed.

(** The memory's answer to a miss, and what the cache does with it. *)
Lemma miss_response c m V pkt d bus z :
  holds c (mem_byte m) V → mem_ok m → idle c → cpu_pkt pkt d → ¬ cached s (Cache.tags c) (Packet.addr pkt / 2 ^ k) → plain_req has bus z →
  Packet.cmd bus = bus_cmd pkt → Packet.addr bus = Packet.addr pkt / 2 ^ k * 2 ^ k → Packet.size bus = 2 ^ k →
  Packet._isSecure bus = false → Packet.req bus = Packet.req pkt → Packet.flags bus = 0x2300 →
  ∃ m1 rbus lat t' pkt' wbs mb', Cache.sendAtomic m bus = Ok (m1, rbus, lat) ∧ mem_ok m1 ∧ (∀ a, mem_byte m a = mem_byte m1 a) ∧
    Cache.atomic_response now edge c pkt rbus None = Ok (Cache.set_tags t' c, pkt', wbs) ∧ evictions k s has wbs (mem_byte m) mb' ∧
    (∀ mb2, (∀ x, mb2 x = mb' x) → holds (Cache.set_tags t' c) mb2 (after pkt d V)) ∧
    Packet.cmd pkt' = Packet.cmd pkt ∧ (Packet.isRead pkt = true → Packet.data pkt' = Some (bytes_of V pkt)).
Proof using Type.
  intros Hr Hm Hi Hq Hn Hb Hcmd Ea Es Hsec Ereq Efl. pose proof (geo_range _ _ _ (tk_geo _ _ _ (ck_tags _ _ _ (re_cache _ _ _ Hr)))) as (Hk & _).
  pose proof (pow_pos k ltac:(lia)). assert (Packet.needsResponse pkt = true) as Hnr.
  { unfold Packet.needsResponse. by destruct (cq_cmd _ _ Hq) as [->|[->|[-> _]]]. }
  assert (bool_decide (Packet.cmd pkt = MemCmd.InvalidateReq) = false) as Hni by (by destruct (cq_cmd _ _ Hq) as [->|[->|[-> _]]]).
  unfold Cache.atomic_response. rewrite Hnr, Hni. destruct (decide (Packet.cmd pkt = MemCmd.WriteLineReq)) as [Hwl|Hwl].
  - destruct (mem_invalidate m bus z Hm Hb) as (m1 & rbus & lat & Esend & Hm1 & Hmb1 & Emk); [by rewrite Hcmd; unfold bus_cmd; rewrite Hwl|].
    assert (fill_pkt c pkt d) as Hf.
    { split; [apply Hq|by right| |split_and!; apply Hq|apply Hq|rewrite (re_masters _ _ _ Hr); apply Hq].
      split; [unfold Packet.hasData; by rewrite Hwl|]. by destruct (cq_cmd _ _ Hq) as [?|[?|(_ & ? & _)]]; [congruence..|]. }
    destruct (fill_and_satisfy false false c (mem_byte m) V pkt d pkt d Hr (idle_quiet _ _ Hi) Hq Hf eq_refl Hn ltac:(done))
      as (p & t1 & t' & pkt' & wbs & mb' & E1 & E2 & Hev & Hrep & [dd ->] & Hrd & _).
    exists m1, rbus, lat, t', (Packet.with_data pkt dd), wbs, mb'. rewrite (bool_decide_true (_ = MemCmd.WriteLineReq)) by done.
    unfold Packet.makeResponse, Packet.needsResponse, Packet.isRequest in Emk.
    rewrite Hcmd in Emk. unfold bus_cmd in Emk. rewrite Hwl in Emk. injection Emk as <-. split_and!; try done.
    cbn [fmap option_fmap option_map]. change (fmap Cache.InTags None) with (@None Cache.blkptr). rewrite E1. cbn [mbind res_mbind]. by rewrite E2.
  - destruct (mem_read m bus z Hm Hb) as (m1 & rbus & lat & Esend & Hm1 & Hmb1 & Emk).
    { rewrite Hcmd. unfold bus_cmd. destruct (cq_cmd _ _ Hq) as [->|[->|[? _]]]; auto. done. }
    destruct (read_fill c m pkt d bus z rbus) as (Hf & Ear & Hrd & Hrs & Her); try done; [apply Hr| |lia|].
    { rewrite Hcmd. unfold bus_cmd. destruct (cq_cmd _ _ Hq) as [->|[->|[? _]]]; auto. done. }
    destruct (fill_and_satisfy false false c (mem_byte m) V pkt d rbus (bytes_of (mem_byte m) rbus) Hr (idle_quiet _ _ Hi) Hq Hf)
      as (p & t1 & t' & pkt' & wbs & mb' & E1 & E2 & Hev & Hrep & [dd ->] & Hrd' & _);
      [rewrite Ear, Ea, Z.div_mul by lia; done|done|intros _; split; [done|]; split; [|done]; rewrite Ear, Ea; apply Z.mod_mul; lia|].
    exists m1, rbus, lat, t', (Packet.with_data pkt dd), wbs, mb'. rewrite (bool_decide_false (_ = MemCmd.WriteLineReq)) by done.
    rewrite Hrs, Her, Hrd. cbn [check mbind res_mbind orb]. change (fmap Cache.InTags None) with (@None Cache.blkptr).
    rewrite E1. cbn [mbind res_mbind]. rewrite E2. by split_and!.
Qed.

Lemma incAccessDepth_ok pkt d : cpu_pkt pkt d → cpu_pkt (Cache.incAccessDepth pkt) d.
Proof using Type. intros [Hwf H1 H2 H3 H4 H5 H6 H7 H8 H9]. split; try done. by destruct Hwf. Qed.

(** Reads and writes. *)
Lemma recvAtomic_cpu c m V pkt d :
  represents c m V → cpu_pkt pkt d →
  serves c m pkt (after pkt d V) (λ pkt', Packet.isRead pkt = true → Packet.data pkt' = Some (bytes_of V pkt)).
Proof using Type.
  intros (Hr & Hm & Hi) Hq0. pose proof (re_cache _ _ _ Hr) as Hc. destruct (promote_cpu c pkt d Hc Hq0) as (pkt1 & Ep & Hq & Erd & _ & Eaft).
  destruct (Eaft V) as [<- <-]. rewrite <- Erd. clear Eaft Erd Hq0. unfold serves, Cache.recvAtomic.
  destruct (ck_plain _ _ _ Hc) as (_ & -> & _). rewrite Ep. cbn [mbind res_mbind]. rewrite (proj1 (cq_plain _ _ Hq)).
  destruct (access_cpu c pkt1 d Hc (re_masters _ _ _ Hr) Hq) as [(p & b & t' & lat & Hp & Hv & Hbn & Hup & _ & Ea)|(Hn & lat & Ea)]; rewrite Ea.
  - destruct (satisfy_hit c (mem_byte m) V pkt1 d p b t' Hr Hq Hp Hv Hbn Hup) as (t2 & pkt2 & -> & Hr' & _ & _ & _ & [dd ->] & Hd).
    cbn [mbind res_mbind mret res_mret Cache.doWritebacksAtomic foldM].
    destruct (respond_cpu pkt1 d Hq (Packet.with_data pkt1 dd) eq_refl) as (pkt3 & -> & Hrs & Hd3). cbn [mbind res_mbind].
    eexists _, _, _, _. split; [reflexivity|]. rewrite Hd3. done.
  - cbn [mbind res_mbind mret res_mret Cache.doWritebacksAtomic foldM]. set (pkt2 := Cache.incAccessDepth pkt1).
    pose proof (incAccessDepth_ok pkt1 d Hq) as Hq2. fold pkt2 in Hq2.
    destruct (getBusPacket_ok c pkt2 d Hc Hq2) as (bus & z & -> & Hb & Hcmd & Eaddr & Esz & _ & Hsec & Ereq & Efl & _). cbn [mbind res_mbind].
    destruct (miss_response c m V pkt2 d bus z) as (m1 & rbus & lat1 & t' & pkt3 & wbs & mb' & -> & Hm1 & Hmb1 & Ear & Hev & Hrep & Ecmd & Hd); [done..|].
    cbn [mbind res_mbind]. destruct (ticksToCycles_ok c lat1 Hc) as (l & ->). cbn [mbind res_mbind]. rewrite Ear. cbn [mbind res_mbind mret res_mret].
    destruct (doWritebacksAtomic_ok c m1 wbs _ mb' Hc Hm1 Hev Hmb1) as (m2 & Ew & Hm2 & Hmb2).
    change (Cache.doWritebacksAtomic (Cache.set_tags t' c) m1 wbs) with (Cache.doWritebacksAtomic c m1 wbs). rewrite Ew. cbn [mbind res_mbind].
    destruct (respond_cpu pkt2 d Hq2 pkt3 Ecmd) as (pkt4 & -> & Hrs & Hd4). cbn [mbind res_mbind].
    eexists _, _, _, _. split; [reflexivity|]. split; [done|]. split; [split; [by apply Hrep|done]|]. rewrite Hd4. exact Hd.
Qed.

End atomic.
