(* ===== verification/CacheSystem.v ===== *)
(** * A cache over a memory

    Sequences of requests to the cache are accesses to one flat memory, for any memory side;
    the simple memory (mem/simple_mem.cc), in atomic mode, is one. *)

From stdpp Require Import base gmap list list_numbers.
From S2P Require Import Prelude IntMath AddrRanges Packets Events AbstractMem SimpleMem RowMem CacheTags Cache CacheInv CacheAtomic.
Import Request Blk RowOps HostMem AbstractMemory.
Local Open Scope Z_scope.

(** ** The simple memory is a memory side *)

Section memory.
(** Snoops leave the memory below alone. *)
Context (latency : Z) (snoop : Memory → Packet → res (Memory * Packet)) (r : AddrRange.AddrRange).

#[local] Instance memory_ports : Cache.AtomicPorts Memory :=
  {| Cache.sendAtomic := SimpleMemory.recvAtomic latency; Cache.sendAtomicSnoop := snoop |}.

Definition memory_has (a : Z) : Prop := AddrRange._start r ≤ a ≤ AddrRange._end r.
Definition memory_byte (m : Memory) (a : Z) : Z :=
  match pmem m with Some h => byte_at h (row_off m a) | None => 0 end.

Record memory_ok (m : Memory) : Prop := {
  mo_range : range m = r;
  mo_locks : locks_wf (lockedAddrList m);
  mo_pmem : ∃ h, pmem m = Some h ∧ bytes_ok h ∧ ∀ a, memory_has a → is_Some (h !! row_off m a);
}.

Lemma bytes_of_memory m h pkt d :
  pmem m = Some h → func_wf pkt d →
  bytes_at h (row_off m (Packet.addr pkt)) (length d) = bytes_of (memory_byte m) pkt.
Proof using Type.
  intros E Hwf. pose proof (fw_len _ _ Hwf) as Hl. pose proof (fw_range _ _ Hwf). unfold bytes_at, bytes_of.
  replace (Packet.size pkt) with (Z.of_nat (length d)). unfold seqZ. rewrite Nat2Z.id, <- list_fmap_compose.
  apply list_fmap_ext. intros i x _. unfold memory_byte, row_off. simpl. rewrite E. f_equal. lia.
Qed.

Lemma plain_mem_req m h pkt d :
  memory_ok m → pmem m = Some h → plain_req memory_has pkt d →
  func_wf pkt d ∧ AddrRange._start (range m) ≤ Packet.addr pkt ∧ Packet.addr pkt + Packet.size pkt - 1 ≤ AddrRange._end (range m) ∧
  mapped h (row_off m (Packet.addr pkt)) (Packet.size pkt).
Proof using Type.
  intros [Hr _ (h' & E & _ & Hh)] Eh [Hwf Hin _ _ _]. simplify_eq. pose proof (fw_range _ _ Hwf) as (? & _). unfold in_memory, memory_has in *.
  rewrite Hr. split; [done|]. split; [apply (Hin (Packet.addr pkt)); lia|]. split; [apply (Hin (Packet.addr pkt + Packet.size pkt - 1)); lia|].
  intros x Hx. unfold row_off in *. replace x with ((x + AddrRange._start (range m)) - AddrRange._start (range m)) by lia.
  apply Hh. apply Hin. lia.
Qed.

(** The memory after an access that leaves its range alone. *)
Lemma memory_ok_pmem m m' h' :
  memory_ok m → range m' = range m → locks_wf (lockedAddrList m') → pmem m' = Some h' → bytes_ok h' →
  (∀ x, is_Some (default ∅ (pmem m) !! x) → is_Some (h' !! x)) → memory_ok m'.
Proof using Type.
  intros [Hr _ (h & E & _ & Hh)] Er Hl Eh Hb Hdom. split; [congruence|done|]. exists h'. split; [done|]. split; [done|].
  intros a Ha. unfold row_off. rewrite Er. apply Hdom. rewrite E. by apply Hh.
Qed.

Lemma simple_read m pkt d :
  memory_ok m → plain_req memory_has pkt d → Packet.cmd pkt = MemCmd.ReadSharedReq ∨ Packet.cmd pkt = MemCmd.ReadExReq →
  ∃ m' pkt' lat, Cache.sendAtomic m pkt = Ok (m', pkt', lat) ∧ memory_ok m' ∧ (∀ a, memory_byte m' a = memory_byte m a) ∧
    Packet.makeResponse (Packet.with_data pkt (Some (bytes_of (memory_byte m) pkt))) = Ok pkt'.
Proof using Type.
  intros Hm Hq Hcmd. pose proof Hm as [Hr Hl (h & E & Hb & Hh)]. destruct (plain_mem_req m h pkt d Hm E Hq) as (Hwf & Hlo & Hhi & Hmap).
  assert (mem_req m pkt h d) as Hmr.
  { destruct Hq. split; try done; unfold Packet.isRequest, Packet.needsResponse; by destruct Hcmd as [->| ->]. }
  assert (Packet.isRead pkt = true ∧ Packet.isWrite pkt = false ∧ Packet.isLLSC pkt = false ∧ Packet.isRequest pkt = true ∧
    Packet.needsResponse pkt = true ∧ bool_decide (Packet.cmd pkt = MemCmd.SwapReq) = false) as (K1 & K2 & K3 & K4 & K5 & K6)
    by (unfold Packet.isRead, Packet.isWrite, Packet.isLLSC, Packet.isRequest, Packet.needsResponse; by destruct Hcmd as [->| ->]).
  unfold Cache.sendAtomic, memory_ports, SimpleMemory.recvAtomic. rewrite (access_plain m pkt h d Hmr), K6, K1. unfold access_read.
  rewrite K2, K3. cbn [negb check mbind res_mbind mret res_mret]. rewrite E, (read_into_ok m pkt h d Hmr), (getSize_ok _ d Hwf), (bytes_of_memory m h pkt d E Hwf).
  cbn [mbind res_mbind mret res_mret]. unfold respond. change (Packet.needsResponse (Packet.with_data pkt _)) with (Packet.needsResponse pkt).
  rewrite K5. unfold Packet.makeResponse. change (Packet.needsResponse (Packet.with_data pkt _)) with (Packet.needsResponse pkt).
  change (Packet.isRequest (Packet.with_data pkt _)) with (Packet.isRequest pkt). rewrite K4, K5. cbn [check mbind res_mbind mret res_mret].
  eexists _, _, _. split; [reflexivity|]. split; [|done]. by eapply memory_ok_pmem; [done|..|rewrite E].
Qed.

Lemma simple_invalidate m pkt d :
  memory_ok m → plain_req memory_has pkt d → Packet.cmd pkt = MemCmd.InvalidateReq →
  ∃ m' pkt' lat, Cache.sendAtomic m pkt = Ok (m', pkt', lat) ∧ memory_ok m' ∧ (∀ a, memory_byte m' a = memory_byte m a) ∧
    Packet.makeResponse pkt = Ok pkt'.
Proof using Type.
  intros Hm Hq Hcmd. pose proof Hm as [Hr Hl (h & E & Hb & Hh)]. destruct (plain_mem_req m h pkt d Hm E Hq) as (Hwf & Hlo & Hhi & Hmap).
  assert (mem_req m pkt h d) as Hmr by (destruct Hq; split; try done; unfold Packet.isRequest, Packet.needsResponse; by rewrite Hcmd).
  unfold Cache.sendAtomic, memory_ports, SimpleMemory.recvAtomic. rewrite (access_plain m pkt h d Hmr).
  assert (bool_decide (Packet.cmd pkt = MemCmd.SwapReq) = false ∧ Packet.isRead pkt = false ∧ Packet.isInvalidate pkt = true ∧
    Packet.needsResponse pkt = true ∧ Packet.isRequest pkt = true) as (-> & -> & -> & K4 & K5)
    by (unfold Packet.isRead, Packet.isInvalidate, Packet.needsResponse, Packet.isRequest; by rewrite Hcmd).
  cbn [mbind res_mbind mret res_mret]. unfold respond, Packet.makeResponse. rewrite K4, K5. cbn [check mbind res_mbind mret res_mret].
  by eexists _, _, _.
Qed.

Lemma simple_cleanEvict m pkt d :
  memory_ok m → plain_req memory_has pkt d → Packet.cmd pkt = MemCmd.CleanEvict →
  ∃ m' pkt' lat, Cache.sendAtomic m pkt = Ok (m', pkt', lat) ∧ memory_ok m' ∧ (∀ a, memory_byte m' a = memory_byte m a).
Proof using Type.
  intros Hm [_ _ Hi _ _] Hcmd. unfold Cache.sendAtomic, memory_ports, SimpleMemory.recvAtomic, access. rewrite Hi, Hcmd.
  by eexists _, _, _.
Qed.

Lemma simple_writeback m pkt d :
  memory_ok m → plain_req memory_has pkt d → Packet.cmd pkt = MemCmd.Writeback → Forall (λ x, 0 ≤ x < 256) d →
  isInstFetch (Packet.req pkt) = false →
  ∃ m' pkt' lat, Cache.sendAtomic m pkt = Ok (m', pkt', lat) ∧ memory_ok m' ∧ wrote pkt d (memory_byte m) (memory_byte m').
Proof using Type.
  intros Hm Hq Hcmd Hd Hf. pose proof Hm as [Hr Hl (h & E & Hb & Hh)]. destruct (plain_mem_req m h pkt d Hm E Hq) as (Hwf & Hlo & Hhi & Hmap).
  destruct Hq as [_ _ Hi Hro (pa & Hpa)].
  assert (bool_decide (Packet.cmd pkt = MemCmd.SwapReq) = false ∧ bool_decide (Packet.cmd pkt = MemCmd.CleanEvict) = false ∧ Packet.isRead pkt = false ∧
    Packet.isInvalidate pkt = false ∧ Packet.isWrite pkt = true ∧ Packet.needsResponse pkt = false ∧ Packet.isLLSC pkt = false) as (K1 & K2 & K3 & K4 & K5 & K6 & K7)
    by (unfold Packet.isRead, Packet.isInvalidate, Packet.isWrite, Packet.needsResponse, Packet.isLLSC; by rewrite Hcmd).
  unfold Cache.sendAtomic, memory_ports, SimpleMemory.recvAtomic, access. rewrite Hi, K2, Hro, (in_range_ok m pkt d Hwf Hlo Hhi).
  cbn [mbind res_mbind]. rewrite K1, K3, K4, K5. unfold access_write.
  destruct (writeOK_ok m pkt pa 0 Hl Hpa) as (l' & w & -> & Hl' & _); [by rewrite K7|]. rewrite K7. cbn [negb orb mbind res_mbind].
  destruct (write_from_wf m pkt h d Hwf Hmap) as (h' & Ew & Hp).
  change (pmem (with_wakeups _ w)) with (pmem m). rewrite E, Ew. cbn [fmap res_fmap mbind res_mbind]. rewrite Hf, (getSize_ok _ d Hwf).
  cbn [negb check mbind res_mbind mret res_mret]. unfold respond. rewrite K6. cbn [mbind res_mbind mret res_mret].
  eexists _, _, _. split; [reflexivity|]. split.
  - eapply memory_ok_pmem; [done|done|done|done|by eapply patched_bytes_ok|]. rewrite E. simpl. intros x Hx. rewrite Hp. destruct (decide _); [|done].
    apply lookup_lt_is_Some_2. lia.
  - intros a. unfold memory_byte, row_off. simpl. rewrite E. unfold byte_at. rewrite Hp. unfold row_off.
    pose proof (fw_len _ _ Hwf). destruct (decide _), (decide _); try lia. do 2 f_equal. lia.
Qed.

(** A byte of a row after an element-wise operation. *)
Lemma rowop_byte_bit o g f x y i :
  rowop_byte o = Some g → rowop_bit o = Some f → 0 ≤ x < 256 → 0 ≤ i < 8 → Z.testbit (g x y) i = f (Z.testbit x i) (Z.testbit y i).
Proof using Type.
  intros Hg Hf Hx Hi. destruct o; simpl in *; simplify_eq; rewrite ?Z.land_spec, ?Z.lor_spec, ?Z.lxor_spec; try done.
  replace (255 - x) with (wrap 8 (Z.lnot x)).
  - rewrite wrap_testbit by lia. by rewrite (proj2 (Z.ltb_lt i 8)), Z.lnot_spec by lia.
  - unfold wrap. symmetry. apply Z.mod_unique with (-1); [lia|]. pose proof (Z.add_lnot_diag x). lia.
Qed.

Lemma row_bytes h h' o g f d s1 s2 i :
  rowop_byte o = Some g → rowop_bit o = Some f → bytes_ok h → bytes_ok h' → 0 ≤ i < ROW_SIZE →
  (∀ x, 0 ≤ x < row_bits → bit h' d x = f (bit h s1 x) (bit h s2 x)) →
  byte_at h' (d + i) = g (byte_at h (s1 + i)) (byte_at h (s2 + i)).
Proof using Type.
  intros Hg Hf Hh Hh' Hi Hbit.
  assert (∀ h a, bytes_ok h → 0 ≤ byte_at h a < 256) as Hby.
  { intros h0 a H0. unfold byte_at. destruct (h0 !! a) as [v|] eqn:E; simpl; [by apply (H0 a v)|lia]. }
  pose proof (rowop_byte_range o g (byte_at h (s1 + i)) (byte_at h (s2 + i)) Hg (Hby _ _ Hh) (Hby _ _ Hh)) as Hr.
  apply Z.bits_inj'. intros j Hj. destruct (decide (j < 8)).
  - rewrite (rowop_byte_bit o g f) by (done || lia || by apply Hby). specialize (Hbit (8 * i + j)).
    unfold bit, row_bits in Hbit. replace ((8 * i + j) / 8) with i in Hbit by (apply Z.div_unique with j; lia).
    replace ((8 * i + j) mod 8) with j in Hbit by (apply Z.mod_unique with i; lia). apply Hbit. unfold ROW_SIZE in *. lia.
  - pose proof (Hby h' (d + i) Hh'). by rewrite !(testbit_high 8) by lia.
Qed.

Lemma simple_rowop m pkt a g :
  memory_ok m → row_req memory_has pkt a → rowop_byte (op a) = Some g →
  ∃ m' pkt' lat, Cache.sendAtomic m pkt = Ok (m', pkt', lat) ∧ memory_ok m' ∧
    (∀ x, memory_byte m' x = rowop_effect g a (memory_byte m) x) ∧ Packet.makeResponse pkt = Ok pkt'.
Proof using Type.
  intros Hm [Hro Hi Hrq Hnr Hptr Hpw Hd [H1 S1] H2] Hg. pose proof Hm as [Hr Hl (h & E & Hb & Hh)].
  assert (∃ f, rowop_bit (op a) = Some f) as [f Hf] by (destruct (op a); simpl in *; simplify_eq; by eexists).
  assert (∀ w, in_row memory_has w → mapped h (row_off m w) ROW_SIZE) as Hmap.
  { intros w Hw x Hx. unfold row_off in *. replace x with ((x + AddrRange._start (range m)) - AddrRange._start (range m)) by lia.
    apply Hh, Hw. lia. }
  destruct (do_rowop_bits (op a) f h (row_off m (dest a)) (row_off m (src1 a)) (row_off m (src2 a)) Hf Hb) as (h' & Edo & Hfr & Hbits);
    [by apply Hmap|by apply Hmap|unfold fwd_safe, row_off in *; lia| |].
  { intros Hbin. destruct (H2 Hbin) as [H2' S2]. split; [by apply Hmap|unfold fwd_safe, row_off in *; lia]. }
  assert (rowop_req m pkt a h) as Hq.
  { split; try done. intros Ec. unfold Packet.needsResponse in Hnr. by rewrite Ec in Hnr. }
  unfold Cache.sendAtomic, memory_ports, SimpleMemory.recvAtomic.
  rewrite (access_rowop_respond m pkt a h h' Hq) by (done || by intros Eo; rewrite Eo in Hg). unfold respond. rewrite Hnr. unfold Packet.makeResponse.
  rewrite Hrq, Hnr. cbn [check mbind res_mbind mret res_mret]. eexists _, _, _. split; [reflexivity|]. split; [|split; [|done]].
  - eapply memory_ok_pmem; [done|done|done|done|by apply (rf_bytes _ _ _ _ Hfr)|]. rewrite E. simpl. intros x Hx.
    apply (rf_mapped _ _ _ _ Hfr x 1); [|lia]. intros y Hy. by replace y with x by lia.
  - intros x. unfold rowop_effect, memory_byte. simpl. rewrite E. change (row_off (with_pmem m (Some h'))) with (row_off m). case_decide as D.
    + replace (row_off m x) with (row_off m (dest a) + (x - dest a)) by (unfold row_off; lia).
      replace (row_off m (src1 a + (x - dest a))) with (row_off m (src1 a) + (x - dest a)) by (unfold row_off; lia).
      replace (row_off m (src2 a + (x - dest a))) with (row_off m (src2 a) + (x - dest a)) by (unfold row_off; lia).
      apply (row_bytes h h' (op a) g f); try done; [by apply (rf_bytes _ _ _ _ Hfr)|lia].
    + unfold byte_at. by rewrite (rf_outside _ _ _ _ Hfr) by (unfold row_off, ROW_SIZE in *; lia).
Qed.

#[local] Program Instance simple_memory_side : MemorySide Memory memory_has := {|
  mem_ok := memory_ok; mem_byte := memory_byte;
  mem_read := simple_read; mem_invalidate := simple_invalidate; mem_writeback := simple_writeback;
  mem_cleanEvict := simple_cleanEvict; mem_rowop := simple_rowop |}.
Next Obligation.
  intros m a [_ _ (h & E & Hb & _)]. unfold memory_byte, byte_at. rewrite E. destruct (h !! _) as [v|] eqn:Ev; simpl; [by eapply Hb|lia].
Qed.

End memory.

(** ** Sequences of requests *)

Section system.
Context (k s masters : Z) {M : Type} `{!Cache.AtomicPorts M} (has : Z → Prop) `{!MemorySide M has}.

(** A request with its tick and the clock edge it is handled at. *)
Record timed := At { at_tick : Z; at_edge : Z; at_pkt : Packet }.

(** The requests of the processor, one after the other, and the answers. *)
Fixpoint run_requests (c : Cache.Cache) (m : M) (l : list timed) : res (Cache.Cache * M * list Packet) :=
  match l with
  | [] => mret (c, m, [])
  | r :: l =>
      '(c, m, pkt, _) ← Cache.recvAtomic (at_tick r) (at_edge r) c m (at_pkt r);
      '(c, m, pkts) ← run_requests c m l;
      mret (c, m, pkt :: pkts)
  end.

(** An access to a flat memory: the memory afterwards and the bytes a read returns. *)
Inductive flat_access (V : Z → Z) : Packet → (Z → Z) → option (list Z) → Prop :=
  | flat_cpu pkt d : cpu_pkt k masters has pkt d →
      flat_access V pkt (after pkt d V) (if Packet.isRead pkt then Some (bytes_of V pkt) else None)
  | flat_rowop pkt a g : row_pkt k has pkt a → rowop_byte (op a) = Some g →
      flat_access V pkt (rowop_effect g a V) None.

Inductive flat_run (V : Z → Z) : list timed → (Z → Z) → list (option (list Z)) → Prop :=
  | flat_nil : flat_run V [] V []
  | flat_cons r l V1 V2 d ds :
      flat_access V (at_pkt r) V1 d → flat_run V1 l V2 ds → flat_run V (r :: l) V2 (d :: ds).

(** The packet answers the request, with the bytes of a read. *)
Definition answers (d : option (list Z)) (pkt : Packet) : Prop :=
  Packet.isResponse pkt = true ∧ match d with Some bs => Packet.data pkt = Some bs | None => True end.

Lemma recvAtomic_flat now edge c m V pkt V' d :
  represents k s masters has c m V → flat_access V pkt V' d →
  ∃ c' m' pkt' lat, Cache.recvAtomic now edge c m pkt = Ok (c', m', pkt', lat) ∧
    represents k s masters has c' m' V' ∧ answers d pkt'.
Proof using Type.
  intros Hr Hf. inversion Hf; subst.
  - edestruct (recvAtomic_cpu k s masters has now edge) as (c' & m' & pkt' & lat & E & Hrs & Hr' & Hd); [done|done|].
    exists c', m', pkt', lat. split; [done|]. split; [done|]. split; [done|]. destruct (Packet.isRead pkt); [by apply Hd|done].
  - edestruct (recvAtomic_rowop k s masters has now edge) as (c' & m' & pkt' & lat & E & Hrs & Hr' & _); [done|done|done|].
    by exists c', m', pkt', lat.
Qed.

(** C38: the cache is transparent in atomic mode.  A sequence of reads, writes and element-wise row operations
    through a cache over a memory side never fails, and every answer carries the bytes the
    same sequence yields on one flat memory; afterwards the cache and the memory still
    represent that flat memory.  Blocks may be dirty in the cache: a row operation sees the
    newest bytes of its rows, as the cache writes its blocks of all operands back first. *)
Theorem atomic_cache_transparent c m V l V' ds :
  represents k s masters has c m V → flat_run V l V' ds →
  ∃ c' m' pkts, run_requests c m l = Ok (c', m', pkts) ∧ represents k s masters has c' m' V' ∧ Forall2 answers ds pkts.
Proof using Type.
  intros Hr Hf. revert c m Hr. induction Hf as [V|V r l V1 V2 d ds Ha _ IH]; intros c m Hr; simpl.
  { by exists c, m, []. }
  destruct (recvAtomic_flat (at_tick r) (at_edge r) c m V (at_pkt r) V1 d Hr Ha) as (c1 & m1 & pkt & lat & -> & Hr1 & Hans).
  cbn [mbind res_mbind]. destruct (IH c1 m1 Hr1) as (c2 & m2 & pkts & -> & Hr2 & Hall). cbn [mbind res_mbind].
  exists c2, m2, (pkt :: pkts). split; [done|]. split; [done|]. by constructor.
Qed.

(** The cache of the constructor. *)
Definition new_cache (fast : bool) (lookup fill : Z) (t : Tags.Tags) : Cache.Cache :=
  Cache.mkCache false false false fast lookup fill t new_CacheBlk [] [].

Lemma new_cache_ok m fast lookup fill lat period assoc :
  2 ≤ k ≤ 13 → 0 ≤ s < 32 → 0 < assoc → 0 < period < 2 ^ 63 → mem_ok m →
  ∃ t, Tags.new_Tags (2 ^ k) lat period masters assoc (2 ^ s) = Ok t ∧
    represents k s masters has (new_cache fast lookup fill t) m (mem_byte m).
Proof using Type.
  intros Hk Hs Ha Hp Hm. destruct (new_Tags_ok k s lat period masters assoc Hk Hs Ha) as (t & E & Ht & Hinv & Hmx & Hpe & _).
  exists t. split; [done|]. split; [|done]. split; [| |by intros; apply mem_byte_range|done].
  - split; try done. simpl. by rewrite Hpe.
  - split; [intros p b a Hb Hv..|done|intros p b a Hb Hv]; by rewrite (Hinv p b Hb) in Hv.
Qed.


End system.

(** ** Example: a write, a copy of its row and a read of the copy *)

Definition sys_range : AddrRange.AddrRange := AddrRange.AddrRange_simple 0x10000 0x15fff.
Definition sys_ports : Cache.AtomicPorts Memory := memory_ports 0 (λ m pkt, mret (m, pkt)).
#[local] Existing Instance sys_ports.
#[local] Instance sys_side : MemorySide Memory (memory_has sys_range) := simple_memory_side 0 (λ m pkt, mret (m, pkt)) sys_range.

Definition sys_access (c : MemCmd.Command) (a : Z) (d : list Z) : Packet :=
  Packet.with_flags
    (Packet.with_data (Packet.new_Packet (Request_phys 0 a 4 0 0) c) (Some d))
    (Flags.set (Flags.set Packet.VALID_ADDR Packet.VALID_SIZE) Packet.STATIC_DATA).
Definition sys_rowop (o : RowOp) (d s1 s2 : Z) : Packet :=
  Packet.with_flags
    (Packet.with_data (Packet.new_Packet (Request_phys 0 d 32 (Z.lor UNCACHEABLE ROWOP) 0) MemCmd.WriteReq)
       (Some (payload_bytes (mkPayload o d s1 s2))))
    (Flags.set (Flags.set Packet.VALID_ADDR Packet.VALID_SIZE) Packet.STATIC_DATA).
Definition sys_requests : list timed :=
  [At 10 12 (sys_access MemCmd.WriteReq 0x10100 [1; 2; 3; 4]); At 20 22 (sys_rowop ROWAAP 0x12000 0x10000 0);
   At 30 32 (sys_access MemCmd.ReadReq 0x12100 [0; 0; 0; 0])].

Lemma sys_access_ok c a d :
  c = MemCmd.ReadReq ∨ c = MemCmd.WriteReq → length d = 4%nat → Forall (λ x, 0 ≤ x < 256) d →
  0x10000 ≤ a → a + 64 ≤ 0x16000 → a mod 64 = 0 →
  cpu_pkt 6 2 (memory_has sys_range) (sys_access c a d) d.
Proof.
  intros Hc Hd Hb Ha Ha2 Hal. split; try done; simpl.
  - split; try done; simpl; [by rewrite Hd|lia].
  - destruct Hc as [-> | ->]; [by left|by right; left].
  - unfold in_block. simpl. change (2 ^ 6) with 64. lia.
  - intros x Hx E. change (2 ^ 6) with 64 in *. pose proof (Z.div_mod x 64). pose proof (Z.mod_pos_bound x 64). pose proof (Z.div_mod a 64).
    unfold memory_has. simpl. lia.
  - change (2 ^ 6) with 64. pose proof (Z.div_mod a 64). lia.
Qed.

Lemma sys_rowop_ok : row_pkt 6 (memory_has sys_range) (sys_rowop ROWAAP 0x12000 0x10000 0) (mkPayload ROWAAP 0x12000 0x10000 0).
Proof.
  assert (∀ w, 0x10000 ≤ w ≤ 0x14000 → in_row (memory_has sys_range) w) as Hrow
    by (intros w Hw x Hx; unfold memory_has, ROW_SIZE in *; simpl; lia).
  split; [split| | | |]; try done; simpl.
  - apply Hrow. lia.
  - split; [apply Hrow; lia|]. right. done.
  - intros w [->|[->|[? _]]]; done.
Qed.

Lemma sys_mem_ok : memory_ok sys_range (ex_mem (uniform 0x6000 7)).
Proof.
  split; [done|by apply (bool_decide_unpack _)|]. exists (uniform 0x6000 7). split; [done|]. split; [apply uniform_bytes_ok; lia|].
  intros a Ha. unfold memory_has in Ha. simpl in Ha. exists 7. apply uniform_lookup. unfold row_off. simpl. split; [lia|done].
Qed.


Lemma atomic_cache_transparent_witness :
  ∃ t c' m' p1 p2 p3, Tags.new_Tags 64 2 500 2 2 4 = Ok t ∧
    run_requests (new_cache true 2 2 t) (ex_mem (uniform 0x6000 7)) sys_requests = Ok (c', m', [p1; p2; p3]) ∧
    Packet.data p3 = Some [1; 2; 3; 4].
Proof.
  set (m := ex_mem (uniform 0x6000 7)). pose proof sys_mem_ok as Hm.
  destruct (new_cache_ok 6 2 2 (memory_has sys_range) m true 2 2 2 500 2) as (t & E & Hr); [lia..|exact Hm|].
  edestruct (atomic_cache_transparent 6 2 2 (memory_has sys_range) (new_cache true 2 2 t) m (memory_byte m) sys_requests)
    as (c' & m' & pkts & Erun & _ & Hall); [exact Hr| |].
  { eapply flat_cons; [apply (flat_cpu _ _ _ _ _ [1; 2; 3; 4]), sys_access_ok; try done; [by right|repeat constructor; lia]|].
    eapply flat_cons; [eapply flat_rowop; [apply sys_rowop_ok|reflexivity]|].
    eapply flat_cons; [apply (flat_cpu _ _ _ _ _ [0; 0; 0; 0]), sys_access_ok; try done; [by left|repeat constructor; lia]|]. apply flat_nil. }
  inversion Hall as [|? p1 ? ? H1 T1]; subst. inversion T1 as [|? p2 ? ? H2 T2]; subst. inversion T2 as [|? p3 ? ? H3 T3]; subst.
  inversion T3; subst. exists t, c', m', p1, p2, p3. split; [exact E|]. split; [exact Erun|]. destruct H3 as [_ H3]. exact H3.
Defined.

