(* ===== verification/MSHRQ.v ===== *)
(** * Miss status registers and the write buffer (mem/cache/mshr.hh, mem/cache/mshr.cc,
    mem/cache/mshr_queue.hh, mem/cache/mshr_queue.cc)

    A register holds the requests that wait for one block, or one packet on its way to the
    memory.  The registers of a queue are an array; its lists hold indices into it: the
    free registers, the allocated ones and, in the order of their ready times, those that
    have not been sent.  The cache is the one next to the CPU: no packet it receives has
    passed another cache, so no register of such a cache is marked as pending downstream. *)

From stdpp Require Import base gmap list list_numbers sorting.
From S2P Require Import Prelude IntMath Packets Events Cache.
Import Request.
Local Open Scope Z_scope.

(** [Packet(pkt, clear_flags, alloc_data)] *)
Definition Packet_copy (pkt : Packet) (clear_flags alloc_data : bool) : res Packet :=
  let f := Flags.set (if clear_flags then 0 else Z.land (Packet.flags pkt) Packet.COPY_FLAGS)
             (Z.land (Packet.flags pkt) (Z.lor Packet.VALID_ADDR Packet.VALID_SIZE)) in
  let p := Packet.mkPacket f (Packet.cmd pkt) (Packet.req pkt) None (Packet.addr pkt) (Packet._isSecure pkt)
             (Packet.size pkt) (Packet.bytesValid pkt) (Packet.headerDelay pkt) 0 (Packet.payloadDelay pkt)
             (Packet.senderState pkt) in
  if (alloc_data : bool) then
    if Flags.isSet (Packet.flags pkt) Packet.STATIC_DATA then
      mret (Packet.with_flags (Packet.with_data p (Packet.data pkt)) (Flags.set f Packet.STATIC_DATA))
    else Cache.allocate p
  else mret p.

Module MSHR.

Inductive Source := FromCPU | FromSnoop | FromPrefetcher.

#[global] Instance Source_eq_dec : EqDecision Source.
Proof. solve_decision. Defined.

Record Target := mkTarget { recvTime : Z; t_readyTime : Z; t_order : Z; pkt : Packet; source : Source }.

Record TargetList := mkList { elems : list Target; needsExclusive : bool; hasUpgrade : bool }.

Definition no_targets : TargetList := mkList [] false false.
Definition resetFlags (l : TargetList) : TargetList := mkList (elems l) false false.
Definition isReset (l : TargetList) : bool := negb (needsExclusive l) && negb (hasUpgrade l).

(** [TargetList::add(pkt, readyTime, order, source, markPending)] *)
Definition add (now : Z) (p : Packet) (ready order : Z) (src : Source) (l : TargetList) : TargetList :=
  let cpu := negb (bool_decide (src = FromSnoop)) in
  mkList (elems l ++ [mkTarget now ready order p src])
    (needsExclusive l || (cpu && MemCmd.needsExclusive (Packet.cmd p)))
    (hasUpgrade l || (cpu && (MemCmd.isUpgrade (Packet.cmd p) || bool_decide (Packet.cmd p = MemCmd.StoreCondReq)))).

(** [replaceUpgrade(pkt)] and [TargetList::replaceUpgrades()] *)
Definition replaceUpgrade (p : Packet) : Packet :=
  match Packet.cmd p with
  | MemCmd.UpgradeReq => Packet.with_cmd p MemCmd.ReadExReq
  | MemCmd.SCUpgradeReq => Packet.with_cmd p MemCmd.SCUpgradeFailReq
  | MemCmd.StoreCondReq => Packet.with_cmd p MemCmd.StoreCondFailReq
  | _ => p
  end.
Definition replaceUpgrades (l : TargetList) : TargetList :=
  if negb (hasUpgrade l) then l
  else mkList ((λ t, mkTarget (recvTime t) (t_readyTime t) (t_order t) (replaceUpgrade (pkt t)) (source t)) <$> elems l)
         (needsExclusive l) false.

Record MSHR := mkMSHR {
  readyTime : Z;
  _isUncacheable : bool;
  downstreamPending : bool;
  pendingDirty : bool;
  postInvalidate : bool;
  postDowngrade : bool;
  order : Z;
  blkAddr : Z;
  blkSize : Z;
  isSecure : bool;
  inService : bool;
  isForward : bool;
  targets : TargetList;
  deferredTargets : TargetList;
}.
Definition set_targets (v : TargetList) (m : MSHR) : MSHR :=
  mkMSHR (readyTime m) (_isUncacheable m) (downstreamPending m) (pendingDirty m) (postInvalidate m) (postDowngrade m)
    (order m) (blkAddr m) (blkSize m) (isSecure m) (inService m) (isForward m) v (deferredTargets m).
Definition set_deferredTargets (v : TargetList) (m : MSHR) : MSHR :=
  mkMSHR (readyTime m) (_isUncacheable m) (downstreamPending m) (pendingDirty m) (postInvalidate m) (postDowngrade m)
    (order m) (blkAddr m) (blkSize m) (isSecure m) (inService m) (isForward m) (targets m) v.
Definition set_inService (v : bool) (m : MSHR) : MSHR :=
  mkMSHR (readyTime m) (_isUncacheable m) (downstreamPending m) (pendingDirty m) (postInvalidate m) (postDowngrade m)
    (order m) (blkAddr m) (blkSize m) (isSecure m) v (isForward m) (targets m) (deferredTargets m).
Definition set_isForward (v : bool) (m : MSHR) : MSHR :=
  mkMSHR (readyTime m) (_isUncacheable m) (downstreamPending m) (pendingDirty m) (postInvalidate m) (postDowngrade m)
    (order m) (blkAddr m) (blkSize m) (isSecure m) (inService m) v (targets m) (deferredTargets m).
Definition set_post (inval down : bool) (m : MSHR) : MSHR :=
  mkMSHR (readyTime m) (_isUncacheable m) (downstreamPending m) (pendingDirty m) inval down
    (order m) (blkAddr m) (blkSize m) (isSecure m) (inService m) (isForward m) (targets m) (deferredTargets m).

(** [MSHR()] *)
Definition new_MSHR : MSHR := mkMSHR 0 false false false false false 0 0 0 false false false no_targets no_targets.

Definition getNumTargets (m : MSHR) : Z :=
  Z.of_nat (length (elems (targets m))) + Z.of_nat (length (elems (deferredTargets m))).
Definition hasTargets (m : MSHR) : bool := negb (bool_decide (elems (targets m) = [])).
Definition getTarget (m : MSHR) : res Target :=
  match elems (targets m) with t :: _ => mret t | [] => Err Assert end.
Definition popTarget (m : MSHR) : res MSHR :=
  match elems (targets m) with
  | _ :: l => mret (set_targets (mkList l (needsExclusive (targets m)) (hasUpgrade (targets m))) m)
  | [] => Err UB
  end.
Definition hasPostInvalidate (m : MSHR) : res bool := assert_ (inService m);; mret (postInvalidate m).
Definition hasPostDowngrade (m : MSHR) : res bool := assert_ (inService m);; mret (postDowngrade m).
Definition isPendingDirty (m : MSHR) : res bool := assert_ (inService m);; mret (pendingDirty m).

Definition isForwardNoResponse (m : MSHR) : res bool :=
  if negb (getNumTargets m =? 1) then mret false
  else match elems (targets m) with
       | t :: _ => mret (bool_decide (source t = FromCPU) && negb (Packet.needsResponse (pkt t)))
       | [] => Err UB
       end.

(** [allocate(blk_addr, blk_size, target, when_ready, order)] *)
Definition allocate (now blk_addr blk_size : Z) (target : Packet) (when_ready ord : Z) (m : MSHR) : res MSHR :=
  secure ← Packet.isSecure target;
  assert_ (isReset (targets m));;
  let source := if bool_decide (Packet.cmd target = MemCmd.HardPFReq) then FromPrefetcher else FromCPU in
  assert_ (isReset (deferredTargets m));;
  mret (mkMSHR when_ready (isUncacheable (Packet.req target)) false (pendingDirty m) (postInvalidate m)
    (postDowngrade m) ord blk_addr blk_size secure false false
    (add now target when_ready ord source (targets m)) (deferredTargets m)).

(** [markInService(pending_dirty_resp)]: whether the register is done with. *)
Definition markInService (pending_dirty_resp : bool) (m : MSHR) : res (bool * MSHR) :=
  assert_ (negb (inService m));;
  fwd ← isForwardNoResponse m;
  if (fwd : bool) then
    assert_ (getNumTargets m =? 1);;
    m ← popTarget m;
    mret (true, m)
  else
    mret (false, mkMSHR (readyTime m) (_isUncacheable m) (downstreamPending m)
      (needsExclusive (targets m) || pending_dirty_resp) false false (order m) (blkAddr m) (blkSize m)
      (isSecure m) true (isForward m) (targets m) (deferredTargets m)).

(** [deallocate()] *)
Definition deallocate (m : MSHR) : res MSHR :=
  assert_ (bool_decide (elems (targets m) = []));;
  assert_ (isReset (deferredTargets m));;
  mret (set_inService false (set_targets (resetFlags (targets m)) m)).

(** [allocateTarget(pkt, whenReady, order)] *)
Definition allocateTarget (now : Z) (p : Packet) (whenReady ord : Z) (m : MSHR) : res MSHR :=
  assert_ (negb (bool_decide (Packet.cmd p = MemCmd.HardPFReq)));;
  assert_ (negb (_isUncacheable m));;
  if inService m
     && (negb (bool_decide (elems (deferredTargets m) = [])) || postInvalidate m
         || (MemCmd.needsExclusive (Packet.cmd p) && (negb (pendingDirty m) || postDowngrade m || isForward m)))
  then
    let p := if postInvalidate m then replaceUpgrade p else p in
    mret (set_deferredTargets (add now p whenReady ord FromCPU (deferredTargets m)) m)
  else mret (set_targets (add now p whenReady ord FromCPU (targets m)) m).

(** [handleSnoop(pkt, order)]: whether the register takes care of it, and the packet. *)
Definition handleSnoop (now : Z) (p : Packet) (ord : Z) (m : MSHR) : res (bool * Packet * MSHR) :=
  let excl := MemCmd.needsExclusive (Packet.cmd p) in
  if negb (inService m) || (Packet.isExpressSnoop p && downstreamPending m) then
    mret (false, p, if excl then set_deferredTargets (replaceUpgrades (deferredTargets m))
                                   (set_targets (replaceUpgrades (targets m)) m) else m)
  else
    let m := if excl then set_deferredTargets (replaceUpgrades (deferredTargets m)) m else m in
    if postInvalidate m then mret (true, p, m)
    else
      '(p, m) ←
        (if pendingDirty m || Packet.isInvalidate p then
           '(p, cp) ←
             (if pendingDirty m then
                cp ← Packet_copy p true true;
                p ← Packet.assertMemInhibit p;
                mret (Packet.with_flags p (Flags.set (Packet.flags p) Packet.SUPPLY_EXCLUSIVE), cp)
              else mret (p, Packet.new_Packet (Packet.req p) (Packet.cmd p)));
           let m := set_targets (add now cp now ord FromSnoop (targets m)) m in
           mret (p, if excl then set_post true (postDowngrade m) m else m)
         else mret (p, m));
      if negb excl && negb (isUncacheable (Packet.req p)) then
        mret (true, Packet.assertShared p, set_post (postInvalidate m) true m)
      else mret (true, p, m).

(** [promoteDeferredTargets()] *)
Definition promoteDeferredTargets (now : Z) (m : MSHR) : res (bool * MSHR) :=
  assert_ (bool_decide (elems (targets m) = []));;
  match elems (deferredTargets m) with
  | [] => mret (false, m)
  | t :: _ =>
      mret (true, mkMSHR (Z.max now (t_readyTime t)) (_isUncacheable m) (downstreamPending m) (pendingDirty m)
        (postInvalidate m) (postDowngrade m) (t_order t) (blkAddr m) (blkSize m) (isSecure m) (inService m)
        (isForward m) (deferredTargets m) (resetFlags (targets m)))
  end.

(** [handleFill(pkt, blk)] *)
Definition handleFill (p : Packet) (m : MSHR) : res MSHR :=
  if Packet.sharedAsserted p then mret m
  else
    inval ← hasPostInvalidate m;
    down ← (if (inval : bool) then mret true else hasPostDowngrade m);
    if negb (inval || down) && needsExclusive (deferredTargets m) then
      assert_ (negb (needsExclusive (targets m)));;
      assert_ (negb (downstreamPending m));;
      mret (set_deferredTargets no_targets
        (set_targets (mkList (elems (targets m) ++ elems (deferredTargets m)) true (hasUpgrade (targets m))) m))
    else mret m.

End MSHR.

Module MSHRQueue.

Record MSHRQueue := mkQueue {
  numEntries : Z;
  numReserve : Z;
  demandReserve : Z;
  registers : list MSHR.MSHR;
  allocatedList : list Z;
  readyList : list Z;
  freeList : list Z;
  allocated : Z;
  inServiceEntries : Z;
  index : Z;
  drain_state : DrainState;
}.
Definition set_registers (v : list MSHR.MSHR) (q : MSHRQueue) : MSHRQueue :=
  mkQueue (numEntries q) (numReserve q) (demandReserve q) v (allocatedList q) (readyList q) (freeList q)
    (allocated q) (inServiceEntries q) (index q) (drain_state q).
Definition set_readyList (v : list Z) (q : MSHRQueue) : MSHRQueue :=
  mkQueue (numEntries q) (numReserve q) (demandReserve q) (registers q) (allocatedList q) v (freeList q)
    (allocated q) (inServiceEntries q) (index q) (drain_state q).
Definition set_inServiceEntries (v : Z) (q : MSHRQueue) : MSHRQueue :=
  mkQueue (numEntries q) (numReserve q) (demandReserve q) (registers q) (allocatedList q) (readyList q) (freeList q)
    (allocated q) v (index q) (drain_state q).

(** [MSHRQueue(label, num_entries, reserve, demand_reserve, index)] *)
Definition new_MSHRQueue (num_entries reserve demand_reserve idx : Z) : MSHRQueue :=
  let n := num_entries + reserve - 1 in
  mkQueue n reserve demand_reserve (replicate (Z.to_nat n) MSHR.new_MSHR) [] [] (seqZ 0 n) 0 0 idx Running.

(** [*mshr] and assignments to a register *)
Definition get (q : MSHRQueue) (i : Z) : res MSHR.MSHR := at_ (registers q) i.
Definition put (i : Z) (m : MSHR.MSHR) (q : MSHRQueue) : MSHRQueue :=
  set_registers (<[Z.to_nat i := m]> (registers q)) q.
Definition on_entry (i : Z) (f : MSHR.MSHR → res MSHR.MSHR) (q : MSHRQueue) : res MSHRQueue :=
  m ← get q i; m ← f m; mret (put i m q).

(** Erasing the element an iterator points to. *)
Definition erase (i : Z) (l : list Z) : list Z := filter (λ j, j ≠ i) l.

Definition havePending (q : MSHRQueue) : bool := negb (bool_decide (readyList q = [])).
Definition isFull (q : MSHRQueue) : bool := numEntries q - numReserve q <? allocated q.
Definition canPrefetch (q : MSHRQueue) : bool := allocated q <? numEntries q - (numReserve q + demandReserve q).

(** [findPending(blk_addr, is_secure)] *)
Fixpoint find_pending (regs : list MSHR.MSHR) (blk_addr : Z) (is_secure : bool) (l : list Z) : res (option Z) :=
  match l with
  | [] => mret None
  | i :: l =>
      m ← at_ regs i;
      if (MSHR.blkAddr m =? blk_addr) && eqb (MSHR.isSecure m) is_secure then mret (Some i)
      else find_pending regs blk_addr is_secure l
  end.
Definition findPending (q : MSHRQueue) (blk_addr : Z) (is_secure : bool) : res (option Z) :=
  find_pending (registers q) blk_addr is_secure (readyList q).

(** [addToReadyList(mshr)]: at the end if it is not ready before the last, else before the
    first that is ready later. *)
Fixpoint insert_before_later (regs : list MSHR.MSHR) (t i : Z) (l : list Z) : res (list Z) :=
  match l with
  | [] => Err Assert
  | j :: l =>
      m ← at_ regs j;
      if t <? MSHR.readyTime m then mret (i :: j :: l)
      else l ← insert_before_later regs t i l; mret (j :: l)
  end.
Definition addToReadyList (i : Z) (q : MSHRQueue) : res MSHRQueue :=
  m ← get q i;
  let t := MSHR.readyTime m in
  last_first ← (match last (readyList q) with
                | None => mret true
                | Some j => n ← get q j; mret (MSHR.readyTime n <=? t)
                end);
  if (last_first : bool) then mret (set_readyList (readyList q ++ [i]) q)
  else l ← insert_before_later (registers q) t i (readyList q); mret (set_readyList l q).

(** [allocate(blk_addr, blk_size, pkt, when_ready, order)] *)
Definition allocate (now blk_addr blk_size : Z) (pkt : Packet) (when_ready order : Z) (q : MSHRQueue) :
    res (Z * MSHRQueue) :=
  match freeList q with
  | [] => Err Assert
  | i :: free =>
      m ← get q i;
      assert_ (MSHR.getNumTargets m =? 0);;
      m ← MSHR.allocate now blk_addr blk_size pkt when_ready order m;
      let q := put i m q in
      let q := mkQueue (numEntries q) (numReserve q) (demandReserve q) (registers q) (allocatedList q ++ [i])
                 (readyList q) free (allocated q + 1) (inServiceEntries q) (index q) (drain_state q) in
      q ← addToReadyList i q;
      mret (i, q)
  end.

(** [deallocateOne(mshr)] *)
Definition deallocate (i : Z) (q : MSHRQueue) : res MSHRQueue :=
  m ← get q i;
  m' ← MSHR.deallocate m;
  let n := allocated q - 1 in
  mret (mkQueue (numEntries q) (numReserve q) (demandReserve q) (<[Z.to_nat i := m']> (registers q))
    (erase i (allocatedList q)) (if MSHR.inService m then readyList q else erase i (readyList q)) (i :: freeList q) n
    (if MSHR.inService m then inServiceEntries q - 1 else inServiceEntries q) (index q)
    (if bool_decide (drain_state q = Draining) && (n =? 0) then signalDrainDone (drain_state q) else drain_state q)).

(** [moveToFront(mshr)] *)
Definition moveToFront (i : Z) (q : MSHRQueue) : res MSHRQueue :=
  m ← get q i;
  mret (if MSHR.inService m then q else set_readyList (i :: erase i (readyList q)) q).

(** [markInService(mshr, pending_dirty_resp)] *)
Definition markInService (i : Z) (pending_dirty_resp : bool) (q : MSHRQueue) : res MSHRQueue :=
  m ← get q i;
  '(gone, m) ← MSHR.markInService pending_dirty_resp m;
  let q := put i m q in
  if (gone : bool) then deallocate i q
  else mret (set_inServiceEntries (inServiceEntries q + 1) (set_readyList (erase i (readyList q)) q)).

(** [markPending(mshr)] *)
Definition markPending (i : Z) (q : MSHRQueue) : res MSHRQueue :=
  m ← get q i;
  assert_ (MSHR.inService m);;
  addToReadyList i (set_inServiceEntries (inServiceEntries q - 1) (put i (MSHR.set_inService false m) q)).

(** [forceDeallocateTarget(mshr)]: whether the queue is no longer full. *)
Definition forceDeallocateTarget (now i : Z) (q : MSHRQueue) : res (bool * MSHRQueue) :=
  let was_full := isFull q in
  m ← get q i;
  assert_ (MSHR.hasTargets m);;
  m ← MSHR.popTarget m;
  '(more, m) ← (if MSHR.hasTargets m then mret (true, m) else MSHR.promoteDeferredTargets now m);
  let q := put i m q in
  q ← (if (more : bool) then mret q else deallocate i q);
  mret (was_full && negb (isFull q), q).

(** [getNextMSHR()] and [nextMSHRReadyTime()] *)
Definition getNextMSHR (now : Z) (q : MSHRQueue) : res (option Z) :=
  match readyList q with
  | [] => mret None
  | i :: _ => m ← get q i; mret (if now <? MSHR.readyTime m then None else Some i)
  end.
Definition nextMSHRReadyTime (q : MSHRQueue) : res Z :=
  match readyList q with [] => mret MaxTick | i :: _ => m ← get q i; mret (MSHR.readyTime m) end.

(** [drain()] *)
Definition drain (q : MSHRQueue) : DrainState := if allocated q =? 0 then Drained else Draining.

End MSHRQueue.
