(* ===== verification/MSHRInv.v ===== *)
(** * The registers of an MSHR queue

    The invariant of the queues of mem/cache/mshr_queue.cc: every register is free or
    allocated, an allocated one is in service or waits in the ready list, and the counters
    agree.  The operations keep it; their assertions hold. *)

From stdpp Require Import base gmap list list_numbers sorting.
From S2P Require Import Prelude IntMath Packets Events Cache MSHRQ.
Import Request MSHRQueue.
Local Open Scope Z_scope.

(** Register [i] is [e]. *)
Definition entry (q : MSHRQueue) (i : Z) (e : MSHR.MSHR) : Prop := 0 ≤ i ∧ registers q !! Z.to_nat i = Some e.

Record queue_ok (q : MSHRQueue) : Prop := {
  qo_len : Z.of_nat (length (registers q)) = numEntries q;
  qo_perm : freeList q ++ allocatedList q ≡ₚ seqZ 0 (numEntries q);
  qo_count : allocated q = Z.of_nat (length (allocatedList q));
  qo_ready : NoDup (readyList q);
  qo_ready_in i : i ∈ readyList q → i ∈ allocatedList q;
  qo_service : inServiceEntries q = Z.of_nat (length (allocatedList q)) - Z.of_nat (length (readyList q));
  qo_free i : i ∈ freeList q → ∃ e, entry q i e ∧ MSHR.targets e = MSHR.no_targets ∧ MSHR.deferredTargets e = MSHR.no_targets;
  qo_used i : i ∈ allocatedList q → ∃ e, entry q i e ∧ MSHR.inService e = negb (bool_decide (i ∈ readyList q)) ∧
    MSHR.elems (MSHR.targets e) ≠ [];
}.

Lemma get_entry q i e : entry q i e → get q i = Ok e.
Proof. intros [Hi E]. unfold get, at_. rewrite decide_True by done. by rewrite E. Qed.

Lemma entry_fun q i e e' : entry q i e → entry q i e' → e = e'.
Proof. intros [_ E] [_ E']. congruence. Qed.

Lemma entry_insert regs q i j e e' f :
  entry q i e → registers q = regs →
  0 ≤ j → (<[Z.to_nat i := e']> regs !! Z.to_nat j = Some f ↔ j = i ∧ f = e' ∨ j ≠ i ∧ entry q j f).
Proof.
  intros [Hi E] <- Hj. destruct (decide (j = i)) as [->|Hne].
  - rewrite list_lookup_insert_eq by (by eapply lookup_lt_Some). unfold entry. split; [intros [= <-]; by left|]. by intros [[_ ->]|[? _]].
  - rewrite list_lookup_insert_ne by lia. unfold entry. naive_solver.
Qed.

Lemma entry_put q i j e e' f : entry q i e → entry (put i e' q) j f ↔ j = i ∧ f = e' ∨ j ≠ i ∧ entry q j f.
Proof.
  intros He. unfold entry at 1. simpl. split.
  - intros [Hj Ef]. by apply (entry_insert _ q i j e) in Ef.
  - intros Hf. assert (0 ≤ j) as Hj by (destruct Hf as [[-> _]|[_ [? _]]]; [apply He|done]). split; [done|].
    by apply (entry_insert _ q i j e).
Qed.

Lemma erase_elem i j l : j ∈ erase i l ↔ j ∈ l ∧ j ≠ i.
Proof. unfold erase. rewrite list_elem_of_filter. tauto. Qed.

Lemma erase_notin i l : i ∉ l → erase i l = l.
Proof.
  unfold erase. induction l as [|x l IH]; [done|]. intros [Hx Hl]%not_elem_of_cons. rewrite filter_cons_True by done. by rewrite IH.
Qed.

Lemma erase_split i l : NoDup l → i ∈ l → ∃ l1 l2, l = l1 ++ i :: l2 ∧ erase i l = l1 ++ l2.
Proof.
  intros Hd (l1 & l2 & ->)%list_elem_of_split. exists l1, l2. split; [done|].
  apply NoDup_app in Hd as (_ & Hn & [Hi _]%NoDup_cons). unfold erase. rewrite filter_app, filter_cons_False by tauto.
  fold (erase i l1). fold (erase i l2). rewrite !erase_notin; [done|done|]. intros H. apply (Hn i H). left.
Qed.

Lemma erase_length i l : NoDup l → i ∈ l → Z.of_nat (length (erase i l)) = Z.of_nat (length l) - 1.
Proof. intros Hd Hi. destruct (erase_split i l Hd Hi) as (l1 & l2 & -> & ->). rewrite !length_app. simpl. lia. Qed.

Lemma queue_nodup q : queue_ok q → NoDup (freeList q) ∧ NoDup (allocatedList q) ∧ ∀ i, i ∈ freeList q → i ∉ allocatedList q.
Proof.
  intros Hq. pose proof (NoDup_seqZ 0 (numEntries q)) as Hd. rewrite <- (qo_perm q Hq) in Hd. apply NoDup_app in Hd as (? & ? & ?). auto.
Qed.

(** ** Allocation *)

(** The queue with register [i] allocated as [e], last in the ready list. *)
Definition enqueued (i : Z) (e : MSHR.MSHR) (q : MSHRQueue) : MSHRQueue :=
  mkQueue (numEntries q) (numReserve q) (demandReserve q) (<[Z.to_nat i := e]> (registers q)) (allocatedList q ++ [i])
    (readyList q ++ [i]) (tail (freeList q)) (allocated q + 1) (inServiceEntries q) (index q) (drain_state q).

(** A register with one target. *)
Definition one_target (now blk size : Z) (pkt : Packet) (when order : Z) (e0 : MSHR.MSHR) : MSHR.MSHR :=
  MSHR.mkMSHR when (isUncacheable (Packet.req pkt)) false (MSHR.pendingDirty e0) (MSHR.postInvalidate e0)
    (MSHR.postDowngrade e0) order blk size (Packet._isSecure pkt) false false
    (MSHR.add now pkt when order
       (if bool_decide (Packet.cmd pkt = MemCmd.HardPFReq) then MSHR.FromPrefetcher else MSHR.FromCPU) MSHR.no_targets)
    MSHR.no_targets.

Lemma queue_ok_enqueued q i free e0 e :
  queue_ok q → freeList q = i :: free → entry q i e0 → MSHR.inService e = false → MSHR.elems (MSHR.targets e) ≠ [] →
  queue_ok (enqueued i e q).
Proof.
  intros Hq Ef He0 Hs Ht. destruct (queue_nodup q Hq) as (Hdf & Hda & Hdis). assert (i ∉ allocatedList q) as Hia by (apply Hdis; rewrite Ef; left).
  assert (i ∉ free) as Hif by (rewrite Ef in Hdf; by apply NoDup_cons in Hdf as [? _]).
  assert (∀ j f, entry (enqueued i e q) j f ↔ j = i ∧ f = e ∨ j ≠ i ∧ entry q j f) as Hent by (intros; by apply (entry_put q i j e0 e f)).
  destruct Hq as [Hlen Hperm Hcount Hready Hin Hserv Hfree Hused]. split; simpl.
  - by rewrite length_insert.
  - rewrite <- Hperm, Ef. simpl. rewrite (Permutation_app_comm (allocatedList q)). rewrite Permutation_middle. done.
  - rewrite length_app, Hcount. simpl. lia.
  - apply NoDup_app. split; [done|]. split; [|apply NoDup_singleton]. intros j Hj ->%list_elem_of_singleton. auto.
  - intros j [Hj|Hj]%elem_of_app; apply elem_of_app; [left; auto|by right].
  - rewrite !length_app. simpl. lia.
  - intros j Hj. assert (j ∈ freeList q) as Hj' by (rewrite Ef in *; by right). assert (j ≠ i) as Hne by (intros ->; rewrite Ef in Hj; done).
    destruct (Hfree j Hj') as (f & Hf & ? & ?). exists f. split; [|done]. apply Hent. by right.
  - intros j [Hj| ->%list_elem_of_singleton]%elem_of_app.
    + destruct (Hused j Hj) as (f & Hf & Hsv & Htg). assert (j ≠ i) as Hne by (by intros ->). exists f. split; [apply Hent; by right|]. split; [|done].
      rewrite Hsv. f_equal. apply bool_decide_ext. rewrite elem_of_app, list_elem_of_singleton. naive_solver.
    + exists e. split; [apply Hent; by left|]. split; [|done]. rewrite Hs, bool_decide_true; [done|]. apply elem_of_app. right. by apply list_elem_of_singleton.
Qed.

Lemma addToReadyList_last q i e :
  entry q i e → (∀ j f, j ∈ readyList q → entry q j f → MSHR.readyTime f ≤ MSHR.readyTime e) → (∀ j, j ∈ readyList q → ∃ f, entry q j f) →
  addToReadyList i q = Ok (set_readyList (readyList q ++ [i]) q).
Proof.
  intros He Hle Hall. unfold addToReadyList. rewrite (get_entry _ _ _ He). cbn [mbind res_mbind].
  destruct (last (readyList q)) as [j|] eqn:El; [|done]. apply last_Some_elem_of in El. destruct (Hall j El) as (f & Hf).
  rewrite (get_entry _ _ _ Hf). cbn [mbind res_mbind mret res_mret]. by rewrite (proj2 (Z.leb_le _ _) (Hle j f El Hf)).
Qed.

Lemma allocate_ok now blk size pkt when order q i free :
  queue_ok q → freeList q = i :: free → Flags.isSet (Packet.flags pkt) Packet.VALID_ADDR = true →
  (∀ j f, j ∈ readyList q → entry q j f → MSHR.readyTime f ≤ when) →
  ∃ e0, let e := one_target now blk size pkt when order e0 in
    allocate now blk size pkt when order q = Ok (i, enqueued i e q) ∧ queue_ok (enqueued i e q) ∧ entry q i e0.
Proof.
  intros Hq Ef Hv Hle. destruct (qo_free q Hq i) as (e0 & He0 & Ht & Hd); [rewrite Ef; left|]. exists e0. cbv zeta.
  set (e := one_target _ _ _ _ _ _ _). split; [|split; [by eapply queue_ok_enqueued|done]].
  unfold allocate. rewrite Ef, (get_entry _ _ _ He0). cbn [mbind res_mbind]. unfold MSHR.getNumTargets. rewrite Ht, Hd.
  change (_ =? 0) with true. cbn [check mbind res_mbind].
  unfold MSHR.allocate, Packet.isSecure. rewrite Hv, Ht, Hd. change (MSHR.isReset MSHR.no_targets) with true.
  cbn [check mbind res_mbind mret res_mret].
  match goal with |- context [addToReadyList i ?q1] => set (q' := q1) end.
  assert (∀ j f, entry q' j f ↔ j = i ∧ f = e ∨ j ≠ i ∧ entry q j f) as Hent by (intros; by apply (entry_put q i j e0 e f)).
  rewrite (addToReadyList_last q' i e).
  - unfold enqueued. rewrite Ef. done.
  - apply Hent. by left.
  - intros j f Hj [[_ ->]|[_ Hf]]%Hent; [lia|]. by apply (Hle j f).
  - intros j Hj. destruct (decide (j = i)) as [->|Hne]; [exists e; apply Hent; by left|].
    destruct (qo_used q Hq j (qo_ready_in q Hq j Hj)) as (f & Hf & _). exists f. apply Hent. by right.
Qed.

(** ** Sending and freeing *)

(** The queue with register [i] free again. *)
Definition freed (i : Z) (e : MSHR.MSHR) (d : DrainState) (q : MSHRQueue) : MSHRQueue :=
  mkQueue (numEntries q) (numReserve q) (demandReserve q) (<[Z.to_nat i := e]> (registers q)) (erase i (allocatedList q))
    (erase i (readyList q)) (i :: freeList q) (allocated q - 1)
    (if bool_decide (i ∈ readyList q) then inServiceEntries q else inServiceEntries q - 1) (index q) d.

Lemma erase_perm i l : NoDup l → i ∈ l → i :: erase i l ≡ₚ l.
Proof. intros Hd Hi. destruct (erase_split i l Hd Hi) as (l1 & l2 & -> & ->). by rewrite Permutation_middle. Qed.

Lemma NoDup_erase i l : NoDup l → NoDup (erase i l).
Proof. apply NoDup_filter. Qed.

Lemma queue_ok_freed q i e d :
  queue_ok q → i ∈ allocatedList q → MSHR.targets e = MSHR.no_targets → MSHR.deferredTargets e = MSHR.no_targets →
  queue_ok (freed i e d q).
Proof.
  intros Hq Hi Ht Hd. destruct (queue_nodup q Hq) as (Hdf & Hda & Hdis). destruct (qo_used q Hq i Hi) as (e0 & He0 & _).
  assert (∀ j f, entry (freed i e d q) j f ↔ j = i ∧ f = e ∨ j ≠ i ∧ entry q j f) as Hent by (intros; by apply (entry_put q i j e0 e f)).
  destruct Hq as [Hlen Hperm Hcount Hready Hin Hserv Hfree Hused]. split; simpl.
  - by rewrite length_insert.
  - by rewrite <- Hperm, Permutation_middle, erase_perm.
  - rewrite erase_length by done. lia.
  - by apply NoDup_erase.
  - intros j [Hj Hne]%erase_elem. apply erase_elem. auto.
  - rewrite erase_length by done. case_bool_decide as Hr; [rewrite erase_length by done; lia|]. rewrite erase_notin by done. lia.
  - intros j [->|Hj]%elem_of_cons; [exists e; split; [apply Hent; by left|done]|].
    destruct (Hfree j Hj) as (f & Hf & ? & ?). exists f. split; [|done]. apply Hent. right. split; [|done]. intros ->. by apply (Hdis i).
  - intros j [Hj Hne]%erase_elem. destruct (Hused j Hj) as (f & Hf & Hsv & Htg). exists f. split; [apply Hent; by right|]. split; [|done].
    rewrite Hsv. f_equal. apply bool_decide_ext. rewrite erase_elem. tauto.
Qed.

(** A register whose targets have all been served. *)
Lemma deallocate_ok q i e0 e :
  queue_ok q → i ∈ allocatedList q → entry q i e0 → MSHR.inService e = MSHR.inService e0 →
  MSHR.elems (MSHR.targets e) = [] → MSHR.deferredTargets e = MSHR.no_targets →
  ∃ e1 d, deallocate i (put i e q) = Ok (freed i e1 d q) ∧ queue_ok (freed i e1 d q).
Proof.
  intros Hq Hi He0 Hs Ht Hd. destruct (qo_used q Hq i Hi) as (e0' & He0' & Hsv & _). rewrite (entry_fun _ _ _ _ He0' He0) in Hsv.
  unfold deallocate. rewrite (get_entry (put i e q) i e) by (by apply (entry_put q i i e0 e e He0); left). cbn [mbind res_mbind].
  unfold MSHR.deallocate. rewrite Ht, Hd. change (MSHR.isReset MSHR.no_targets) with true. rewrite (bool_decide_true ([] = [])) by done.
  cbn [check mbind res_mbind mret res_mret]. set (e1 := MSHR.set_inService false _). eexists e1, _. split.
  - unfold freed. cbn [numEntries numReserve demandReserve registers allocatedList readyList freeList allocated inServiceEntries index drain_state put set_registers].
    rewrite list_insert_insert_eq, Hs, Hsv.
    assert ((if negb (bool_decide (i ∈ readyList q)) then readyList q else erase i (readyList q)) = erase i (readyList q)) as ->
      by (case_bool_decide; simpl; [done|by rewrite erase_notin]).
    assert ((if bool_decide (i ∈ readyList q) then inServiceEntries q else inServiceEntries q - 1) =
      (if negb (bool_decide (i ∈ readyList q)) then inServiceEntries q - 1 else inServiceEntries q)) as -> by (by case_bool_decide).
    reflexivity.
  - apply queue_ok_freed; [done|done| |done]. unfold e1. simpl. unfold MSHR.resetFlags. by rewrite Ht.
Qed.

(** Sending a packet that gets no response frees its register. *)
Lemma markInService_freed q i e t pd :
  queue_ok q → i ∈ readyList q → entry q i e → MSHR.elems (MSHR.targets e) = [t] → MSHR.deferredTargets e = MSHR.no_targets →
  MSHR.source t = MSHR.FromCPU → Packet.needsResponse (MSHR.pkt t) = false →
  ∃ e1 d, markInService i pd q = Ok (freed i e1 d q) ∧ queue_ok (freed i e1 d q).
Proof.
  intros Hq Hi He Ht Hd Hsrc Hnr. pose proof (qo_ready_in q Hq i Hi) as Hia.
  destruct (qo_used q Hq i Hia) as (e' & He' & Hsv & _). rewrite (entry_fun _ _ _ _ He' He), bool_decide_true in Hsv by done.
  unfold markInService. rewrite (get_entry _ _ _ He). cbn [mbind res_mbind]. unfold MSHR.markInService. rewrite Hsv. cbn [negb check mbind res_mbind].
  unfold MSHR.isForwardNoResponse, MSHR.getNumTargets. rewrite Ht, Hd. change (_ =? 1) with true. cbn [negb mbind res_mbind mret res_mret].
  rewrite Hsrc, Hnr. rewrite bool_decide_true by done. cbn [negb andb check mbind res_mbind]. unfold MSHR.popTarget. rewrite Ht.
  cbn [mbind res_mbind mret res_mret]. by apply (deallocate_ok q i e).
Qed.

(** Sending another packet puts its register in service. *)
Definition served (i : Z) (e : MSHR.MSHR) (q : MSHRQueue) : MSHRQueue :=
  set_inServiceEntries (inServiceEntries q + 1) (set_readyList (erase i (readyList q)) (put i e q)).
Definition in_service (pd : bool) (e : MSHR.MSHR) : MSHR.MSHR :=
  MSHR.mkMSHR (MSHR.readyTime e) (MSHR._isUncacheable e) (MSHR.downstreamPending e)
    (MSHR.needsExclusive (MSHR.targets e) || pd) false false (MSHR.order e) (MSHR.blkAddr e) (MSHR.blkSize e)
    (MSHR.isSecure e) true (MSHR.isForward e) (MSHR.targets e) (MSHR.deferredTargets e).

Lemma queue_ok_served q i e0 e :
  queue_ok q → i ∈ readyList q → entry q i e0 → MSHR.inService e = true → MSHR.elems (MSHR.targets e) ≠ [] → queue_ok (served i e q).
Proof.
  intros Hq Hi He0 Hs Ht. pose proof (queue_nodup q Hq) as (_ & _ & Hdis). pose proof (qo_ready_in q Hq i Hi) as Hia.
  assert (∀ j f, entry (served i e q) j f ↔ j = i ∧ f = e ∨ j ≠ i ∧ entry q j f) as Hent by (intros; by apply (entry_put q i j e0 e f)).
  destruct Hq as [Hlen Hperm Hcount Hready Hin Hserv Hfree Hused]. split; simpl; try done.
  - by rewrite length_insert.
  - by apply NoDup_erase.
  - intros j [Hj _]%erase_elem. auto.
  - rewrite erase_length by done. lia.
  - intros j Hj. destruct (Hfree j Hj) as (f & Hf & ? & ?). exists f. split; [|done]. apply Hent. right. split; [|done]. intros ->. by apply (Hdis i).
  - intros j Hj. destruct (decide (j = i)) as [->|Hne].
    + exists e. split; [apply Hent; by left|]. split; [|done]. rewrite Hs, bool_decide_false; [done|]. by intros [_ ?]%erase_elem.
    + destruct (Hused j Hj) as (f & Hf & Hsv & Htg). exists f. split; [apply Hent; by right|]. split; [|done].
      rewrite Hsv. f_equal. apply bool_decide_ext. rewrite erase_elem. tauto.
Qed.

Lemma markInService_served q i e t pd :
  queue_ok q → i ∈ readyList q → entry q i e → MSHR.elems (MSHR.targets e) = [t] → MSHR.deferredTargets e = MSHR.no_targets →
  Packet.needsResponse (MSHR.pkt t) = true →
  markInService i pd q = Ok (served i (in_service pd e) q) ∧ queue_ok (served i (in_service pd e) q).
Proof.
  intros Hq Hi He Ht Hd Hnr. destruct (qo_used q Hq i (qo_ready_in q Hq i Hi)) as (e' & He' & Hsv & _).
  rewrite (entry_fun _ _ _ _ He' He), bool_decide_true in Hsv by done. split; [|by eapply queue_ok_served; [..|simpl; by rewrite Ht]].
  unfold markInService. rewrite (get_entry _ _ _ He). cbn [mbind res_mbind]. unfold MSHR.markInService. rewrite Hsv. cbn [negb check mbind res_mbind].
  unfold MSHR.isForwardNoResponse, MSHR.getNumTargets. rewrite Ht, Hd. change (_ =? 1) with true. cbn [negb mbind res_mbind mret res_mret].
  rewrite Hnr, andb_false_r. unfold in_service. by rewrite Hd.
Qed.

(** ** A new queue *)

Lemma new_queue_ok num reserve demand idx : 0 ≤ num + reserve - 1 → queue_ok (new_MSHRQueue num reserve demand idx).
Proof.
  intros Hn. split; simpl; try done.
  - rewrite length_replicate. lia.
  - by rewrite app_nil_r.
  - constructor.
  - intros i Hi%elem_of_seqZ. exists MSHR.new_MSHR. split; [|done]. split; [lia|]. simpl. apply lookup_replicate. split; [done|lia].
  - intros i Hi%elem_of_nil. done.
Qed.
