(* ===== verification/CacheTiming.v ===== *)
(** * The cache in timing mode (mem/cache/cache.cc, mem/cache/base.hh, mem/cache/base.cc)

    Requests of the CPU side enter through [recvTimingReq]; misses take a register of the
    miss queue, write-backs, uncached writes and row operations one of the write buffer.
    The send event of the memory side port picks a register ([getNextMSHR]), makes a packet
    of it and sends it.  There is no prefetcher; statistics and the deletion of packets are
    left out.  What comes from the memory side is in [CacheResp]. *)

From stdpp Require Import base gmap list list_numbers.
From S2P Require Import Prelude IntMath AddrRanges Packets Events PktQueue CacheTags Cache MSHRQ.
Import Request Blk.
Local Open Scope Z_scope.

Module TimingCache.

(** The members of [BaseCache] and [Cache] of the timing path.  [core] has the parameters,
    the tags and the temporary block; [cpuBlocked], [mustSendRetry], [sendRetryEvent] and
    [respQueue] are members of the CPU side port, [reqQueue] and [snoopRespQueue] of the
    memory side port; [pkts] are the contents of the packets of the last two queues. *)
Record TimingCache := mkTiming {
  core : Cache.Cache;
  mshrQueue : MSHRQueue.MSHRQueue;
  writeBuffer : MSHRQueue.MSHRQueue;
  addrRanges : list AddrRange.AddrRange;
  forwardLatency : Z;
  responseLatency : Z;
  numTarget : Z;
  blocked : Z;
  order : Z;
  noTargetMSHR : option Z;
  cpuBlocked : bool;
  mustSendRetry : bool;
  sendRetryEvent : Event;
  reqQueue : PacketQueue.PacketQueue;
  snoopRespQueue : PacketQueue.PacketQueue;
  respQueue : PacketQueue.PacketQueue;
  pkts : gmap Z Packet;
}.
Definition set_core (v : Cache.Cache) (s : TimingCache) : TimingCache :=
  mkTiming v (mshrQueue s) (writeBuffer s) (addrRanges s) (forwardLatency s) (responseLatency s) (numTarget s) (blocked s) (order s)
    (noTargetMSHR s) (cpuBlocked s) (mustSendRetry s) (sendRetryEvent s) (reqQueue s) (snoopRespQueue s) (respQueue s) (pkts s).
Definition set_mshrQueue (v : MSHRQueue.MSHRQueue) (s : TimingCache) : TimingCache :=
  mkTiming (core s) v (writeBuffer s) (addrRanges s) (forwardLatency s) (responseLatency s) (numTarget s) (blocked s) (order s)
    (noTargetMSHR s) (cpuBlocked s) (mustSendRetry s) (sendRetryEvent s) (reqQueue s) (snoopRespQueue s) (respQueue s) (pkts s).
Definition set_writeBuffer (v : MSHRQueue.MSHRQueue) (s : TimingCache) : TimingCache :=
  mkTiming (core s) (mshrQueue s) v (addrRanges s) (forwardLatency s) (responseLatency s) (numTarget s) (blocked s) (order s)
    (noTargetMSHR s) (cpuBlocked s) (mustSendRetry s) (sendRetryEvent s) (reqQueue s) (snoopRespQueue s) (respQueue s) (pkts s).
Definition set_blocked (v : Z) (s : TimingCache) : TimingCache :=
  mkTiming (core s) (mshrQueue s) (writeBuffer s) (addrRanges s) (forwardLatency s) (responseLatency s) (numTarget s) v (order s)
    (noTargetMSHR s) (cpuBlocked s) (mustSendRetry s) (sendRetryEvent s) (reqQueue s) (snoopRespQueue s) (respQueue s) (pkts s).
Definition set_order (v : Z) (s : TimingCache) : TimingCache :=
  mkTiming (core s) (mshrQueue s) (writeBuffer s) (addrRanges s) (forwardLatency s) (responseLatency s) (numTarget s) (blocked s) v
    (noTargetMSHR s) (cpuBlocked s) (mustSendRetry s) (sendRetryEvent s) (reqQueue s) (snoopRespQueue s) (respQueue s) (pkts s).
Definition set_noTargetMSHR (v : option Z) (s : TimingCache) : TimingCache :=
  mkTiming (core s) (mshrQueue s) (writeBuffer s) (addrRanges s) (forwardLatency s) (responseLatency s) (numTarget s) (blocked s) (order s)
    v (cpuBlocked s) (mustSendRetry s) (sendRetryEvent s) (reqQueue s) (snoopRespQueue s) (respQueue s) (pkts s).
Definition set_cpuPort (b r : bool) (e : Event) (s : TimingCache) : TimingCache :=
  mkTiming (core s) (mshrQueue s) (writeBuffer s) (addrRanges s) (forwardLatency s) (responseLatency s) (numTarget s) (blocked s) (order s)
    (noTargetMSHR s) b r e (reqQueue s) (snoopRespQueue s) (respQueue s) (pkts s).
Definition set_reqQueue (v : PacketQueue.PacketQueue) (s : TimingCache) : TimingCache :=
  mkTiming (core s) (mshrQueue s) (writeBuffer s) (addrRanges s) (forwardLatency s) (responseLatency s) (numTarget s) (blocked s) (order s)
    (noTargetMSHR s) (cpuBlocked s) (mustSendRetry s) (sendRetryEvent s) v (snoopRespQueue s) (respQueue s) (pkts s).
Definition set_snoopRespQueue (v : PacketQueue.PacketQueue) (h : gmap Z Packet) (s : TimingCache) : TimingCache :=
  mkTiming (core s) (mshrQueue s) (writeBuffer s) (addrRanges s) (forwardLatency s) (responseLatency s) (numTarget s) (blocked s) (order s)
    (noTargetMSHR s) (cpuBlocked s) (mustSendRetry s) (sendRetryEvent s) (reqQueue s) v (respQueue s) h.
Definition set_respQueue (v : PacketQueue.PacketQueue) (h : gmap Z Packet) (s : TimingCache) : TimingCache :=
  mkTiming (core s) (mshrQueue s) (writeBuffer s) (addrRanges s) (forwardLatency s) (responseLatency s) (numTarget s) (blocked s) (order s)
    (noTargetMSHR s) (cpuBlocked s) (mustSendRetry s) (sendRetryEvent s) (reqQueue s) (snoopRespQueue s) v h.

(** [BaseCache(p, blk_size)]: the latencies and the parameters of the tags are in [c]. *)
Definition new_TimingCache (c : Cache.Cache) (ranges : list AddrRange.AddrRange) (mshrs demand_mshr_reserve write_buffers
    hit_latency response_latency tgts_per_mshr : Z) : TimingCache :=
  mkTiming c (MSHRQueue.new_MSHRQueue mshrs 4 demand_mshr_reserve 0)
    (MSHRQueue.new_MSHRQueue write_buffers (mshrs + 1000) 0 1) ranges hit_latency response_latency tgts_per_mshr
    0 0 None false false None PacketQueue.new PacketQueue.new PacketQueue.new ∅.

(** [BlockedCause] *)
Definition Blocked_NoMSHRs : Z := 0.
Definition Blocked_NoWBBuffers : Z := 1.
Definition Blocked_NoTargets : Z := 2.

(** A pointer to a register: its queue and its index. *)
Inductive mshrptr := Miss (i : Z) | Write (i : Z).
Definition queue_of (p : mshrptr) (s : TimingCache) : MSHRQueue.MSHRQueue :=
  match p with Miss _ => mshrQueue s | Write _ => writeBuffer s end.
Definition set_queue_of (p : mshrptr) (q : MSHRQueue.MSHRQueue) (s : TimingCache) : TimingCache :=
  match p with Miss _ => set_mshrQueue q s | Write _ => set_writeBuffer q s end.
Definition index_of (p : mshrptr) : Z := match p with Miss i | Write i => i end.

(** The pointer as the sender state of a packet. *)
Definition mshr_id (p : mshrptr) : Z := match p with Miss i => 2 * i | Write i => 2 * i + 1 end.
Definition mshr_of (z : Z) : mshrptr := if Z.even z then Miss (z / 2) else Write (z / 2).

(** What the lookup reads of the registers. *)
Definition view (m : MSHR.MSHR) : Cache.MSHR :=
  Cache.mkMSHR (MSHR.blkAddr m) (MSHR.isSecure m) (MSHR._isUncacheable m) (MSHR.needsExclusive (MSHR.targets m))
    (match MSHR.elems (MSHR.targets m) with
     | t :: _ => MSHR.pkt t
     | [] => Packet.new_Packet Request_default MemCmd.InvalidCmd
     end).
Definition view_queue (q : MSHRQueue.MSHRQueue) : list Cache.MSHR :=
  omap (λ i, view <$> MSHRQueue.registers q !! Z.to_nat i) (MSHRQueue.allocatedList q).
Definition lookup_core (s : TimingCache) : Cache.Cache :=
  let c := core s in
  Cache.mkCache (Cache.bypassCaches c) (Cache.isReadOnly c) (Cache.forwardSnoops c) (Cache.doFastWrites c)
    (Cache.lookupLatency c) (Cache.fillLatency c) (Cache.tags c) (Cache.tempBlock c)
    (view_queue (mshrQueue s)) (view_queue (writeBuffer s)).

(** The packet of the first target of a register, which an evicting packet may change. *)
Definition set_first (p : Packet) (m : MSHR.MSHR) : MSHR.MSHR :=
  match MSHR.elems (MSHR.targets m) with
  | t :: l => MSHR.set_targets (MSHR.mkList (MSHR.mkTarget (MSHR.recvTime t) (MSHR.t_readyTime t) (MSHR.t_order t) p
                (MSHR.source t) :: l) (MSHR.needsExclusive (MSHR.targets m)) (MSHR.hasUpgrade (MSHR.targets m))) m
  | [] => m
  end.
Definition write_back_view (l : list Cache.MSHR) (q : MSHRQueue.MSHRQueue) : MSHRQueue.MSHRQueue :=
  foldl (λ q '(i, e), match MSHRQueue.registers q !! Z.to_nat i with
                      | Some m => MSHRQueue.put i (set_first (Cache.target e) m) q
                      | None => q
                      end) q (zip (MSHRQueue.allocatedList q) l).

(** [clockEdge(cycles)], with [edge = clockEdge()]. *)
Definition clockEdge (s : TimingCache) (edge cycles : Z) : Z :=
  u64 (edge + Tags.clockPeriod (Cache.tags (core s)) * cycles).

(** [CacheSlavePort::setBlocked] and [CacheSlavePort::clearBlocked] *)
Definition port_setBlocked (s : TimingCache) : res TimingCache :=
  assert_ (negb (cpuBlocked s));;
  match sendRetryEvent s with
  | Some t => e ← deschedule (Some t); mret (set_cpuPort true true e s)
  | None => mret (set_cpuPort true (mustSendRetry s) None s)
  end.
Definition port_clearBlocked (now : Z) (s : TimingCache) : res TimingCache :=
  assert_ (cpuBlocked s);;
  if mustSendRetry s then
    e ← schedule now (sendRetryEvent s) (add64 now 1);
    mret (set_cpuPort false true e s)
  else mret (set_cpuPort false false (sendRetryEvent s) s).
(** [CacheSlavePort::processSendRetry]: the event has fired, the retry is sent. *)
Definition processSendRetry (s : TimingCache) : TimingCache := set_cpuPort (cpuBlocked s) false None s.

(** [setBlocked(cause)] and [clearBlocked(cause)] *)
Definition setBlocked (cause : Z) (s : TimingCache) : res TimingCache :=
  s ← (if blocked s =? 0 then port_setBlocked s else mret s);
  mret (set_blocked (Z.lor (blocked s) (Z.shiftl 1 cause)) s).
Definition clearBlocked (now cause : Z) (s : TimingCache) : res TimingCache :=
  let s := set_blocked (Z.land (blocked s) (u8 (Z.lnot (Z.shiftl 1 cause)))) s in
  if blocked s =? 0 then port_clearBlocked now s else mret s.

Definition schedMemSideSendEvent (now time : Z) (s : TimingCache) : res TimingCache :=
  q ← PacketQueue.schedSendEvent now (reqQueue s) time; mret (set_reqQueue q s).

(** [allocateBufferInternal(mq, addr, size, pkt, time, sched_send)]; [p] names the queue. *)
Definition allocateBufferInternal (now : Z) (p : mshrptr) (addr size : Z) (pkt : Packet) (time : Z)
    (sched_send : bool) (s : TimingCache) : res (Z * TimingCache) :=
  assert_ (addr =? Cache.blockAlign (core s) addr);;
  '(i, q) ← MSHRQueue.allocate now addr size pkt time (order s) (queue_of p s);
  let s := set_order (u64 (order s + 1)) (set_queue_of p q s) in
  s ← (if MSHRQueue.isFull q then setBlocked (MSHRQueue.index q) s else mret s);
  s ← (if sched_send then schedMemSideSendEvent now time s else mret s);
  mret (i, s).
Definition allocateMissBuffer (now : Z) (pkt : Packet) (time : Z) (sched_send : bool) (s : TimingCache) :
    res (Z * TimingCache) :=
  a ← Packet.getAddr pkt;
  allocateBufferInternal now (Miss 0) (Cache.blockAlign (core s) a) (Cache.blkSize (core s)) pkt time sched_send s.
Definition allocateWriteBuffer (now : Z) (pkt : Packet) (time : Z) (s : TimingCache) : res (Z * TimingCache) :=
  assert_ (negb (Cache.isReadOnly (core s)) || bool_decide (Packet.cmd pkt = MemCmd.CleanEvict));;
  assert_ (Packet.isWrite pkt && negb (Packet.isRead pkt));;
  a ← Packet.getAddr pkt;
  allocateBufferInternal now (Write 0) (Cache.blockAlign (core s) a) (Cache.blkSize (core s)) pkt time true s.

(** [markInServiceInternal(mshr, pending_dirty_resp)] *)
Definition markInService (now : Z) (p : mshrptr) (pending_dirty_resp : bool) (s : TimingCache) : res TimingCache :=
  let q := queue_of p s in
  q' ← MSHRQueue.markInService (index_of p) pending_dirty_resp q;
  let s := set_queue_of p q' s in
  if MSHRQueue.isFull q && negb (MSHRQueue.isFull q') then clearBlocked now (MSHRQueue.index q') s else mret s.

(** The ports: timing requests to the memory side, which may be refused, and express
    snoops to the CPU side. *)
Class TimingPorts (M : Type) := {
  sendTimingReq : M → Packet → res (bool * M * Packet);
  sendTimingSnoopReq : M → Packet → res (M * Packet);
}.

(** [mshrQueue.findMatch(blk_addr, is_secure)] *)
Definition entry_matches (q : MSHRQueue.MSHRQueue) (blk_addr : Z) (is_secure : bool) (i : Z) : bool :=
  match MSHRQueue.registers q !! Z.to_nat i with
  | Some m => Cache.matches blk_addr is_secure (view m)
  | None => false
  end.
Definition findMatch (q : MSHRQueue.MSHRQueue) (blk_addr : Z) (is_secure : bool) : option Z :=
  list.head (filter (λ i, entry_matches q blk_addr is_secure i = true) (MSHRQueue.allocatedList q)).

(** A packet handed to a queue: it gets an address of its own. *)
Definition fresh_pkt (s : TimingCache) : Z := Z.of_nat (size (pkts s)).
Definition schedTimingResp (now : Z) (pkt : Packet) (t : Z) (s : TimingCache) : res TimingCache :=
  q ← PacketQueue.schedTimingResp now (respQueue s) (fresh_pkt s) pkt t;
  mret (set_respQueue q (<[fresh_pkt s := pkt]> (pkts s)) s).
Definition schedTimingSnoopResp (now : Z) (pkt : Packet) (t : Z) (force_order : bool) (s : TimingCache) : res TimingCache :=
  q ← PacketQueue.schedSendTiming now (snoopRespQueue s) (fresh_pkt s) pkt t force_order;
  mret (set_snoopRespQueue q (<[fresh_pkt s := pkt]> (pkts s)) s).

Section timing.
Context {M : Type} `{!TimingPorts M} (now edge : Z).

(** [isCachedAbove(pkt, true)] *)
Definition isCachedAbove (c : Cache.Cache) (m : M) (pkt : Packet) : res (bool * M) :=
  if negb (Cache.forwardSnoops c) then mret (false, m)
  else
    snoop_pkt ← Packet_copy pkt true false;
    let snoop_pkt := Packet.setExpressSnoop snoop_pkt in
    assert_ (Packet.evictingBlock pkt);;
    '(m, snoop_pkt) ← sendTimingSnoopReq m (Packet.with_senderState snoop_pkt []);
    assert_ (negb (Packet.memInhibitAsserted snoop_pkt));;
    mret (Cache.isBlockCached snoop_pkt, m).

(** [doWritebacks(writebacks, forward_time)] *)
Definition do_writeback (forward_time : Z) (st : TimingCache * M) (wbPkt : Packet) : res (TimingCache * M) :=
  let '(s, m) := st in
  '(above, m) ← isCachedAbove (core s) m wbPkt;
  if (above : bool) then
    if bool_decide (Packet.cmd wbPkt = MemCmd.CleanEvict) then mret (s, m)
    else
      '(_, s) ← allocateWriteBuffer now (Packet.with_flags wbPkt (Flags.set (Packet.flags wbPkt) Packet.BLOCK_CACHED))
                  forward_time s;
      mret (s, m)
  else
    '(_, s) ← allocateWriteBuffer now wbPkt forward_time s;
    mret (s, m).
Definition doWritebacks (writebacks : list Packet) (forward_time : Z) (s : TimingCache) (m : M) : res (TimingCache * M) :=
  foldM (do_writeback forward_time) (s, m) writebacks.

(** A request that a cache above has promised to answer. *)
Definition recv_inhibited (s : TimingCache) (m : M) (pkt : Packet) : res (TimingCache * M) :=
  if MemCmd.needsExclusive (Packet.cmd pkt) && negb (Flags.isSet (Packet.flags pkt) Packet.SUPPLY_EXCLUSIVE) then
    snoop_pkt ← Packet_copy pkt true false;
    let snoop_pkt := Packet.setExpressSnoop (Packet.with_delays snoop_pkt 0 0) in
    snoop_pkt ← Packet.assertMemInhibit snoop_pkt;
    '(success, m, _) ← sendTimingReq m snoop_pkt;
    assert_ success;;
    mret (s, m)
  else mret (s, m).

(** The response to a software prefetch, and the packet that goes on in its place. *)
Definition answer_prefetch (request_time : Z) (hit : bool) (pkt : Packet) (s : TimingCache) :
    res (option Packet * TimingCache) :=
  assert_ (Packet.needsResponse pkt);;
  assert_ (hasPaddr (Packet.req pkt));;
  assert_ (negb (isUncacheable (Packet.req pkt)));;
  pf ← (if hit then mret None
        else
          pa ← getPaddr (Packet.req pkt);
          sz ← Request.getSize (Packet.req pkt);
          fl ← Request.getFlags (Packet.req pkt);
          pf ← Cache.allocate (Packet.new_Packet (Request_phys now pa sz fl (_masterId (Packet.req pkt))) (Packet.cmd pkt));
          a ← Packet.getAddr pf; a' ← Packet.getAddr pkt;
          assert_ (a =? a');;
          n ← Packet.getSize pf; n' ← Packet.getSize pkt;
          assert_ (n =? n');;
          mret (Some pf));
  pkt ← Packet.makeResponse pkt;
  n ← Packet.getSize pkt;
  pkt ← Packet.setData pkt (replicate (Z.to_nat n) 0xff);
  s ← schedTimingResp now pkt request_time s;
  mret (pf, s).

(** A miss for a block that a register of the miss queue waits for. *)
Definition join_mshr (i forward_time : Z) (pkt : Packet) (s : TimingCache) : res TimingCache :=
  assert_ (negb (bool_decide (Packet.cmd pkt = MemCmd.Writeback)));;
  if bool_decide (Packet.cmd pkt = MemCmd.CleanEvict) then mret s
  else
    _ ← Cache.count_master (core s) pkt;
    q ← MSHRQueue.on_entry i (MSHR.allocateTarget now pkt forward_time (order s)) (mshrQueue s);
    let s := set_order (u64 (order s + 1)) (set_mshrQueue q s) in
    m ← MSHRQueue.get q i;
    if MSHR.getNumTargets m =? numTarget s then setBlocked Blocked_NoTargets (set_noTargetMSHR (Some i) s)
    else mret s.

(** A miss that needs a register of its own. *)
Definition new_miss (blk : option Z) (forward_time : Z) (pkt : Packet) (s : TimingCache) : res TimingCache :=
  _ ← Cache.count_master (core s) pkt;
  if Packet.evictingBlock pkt || (isUncacheable (Packet.req pkt) && Packet.isWrite pkt) then
    '(_, s) ← allocateWriteBuffer now pkt forward_time s; mret s
  else
    s ← (match blk with
         | None => mret s
         | Some p =>
             b ← Tags.get_blk (Cache.tags (core s)) p;
             if isValid b then
               assert_ (negb (isUncacheable (Packet.req pkt)));;
               assert_ (MemCmd.needsExclusive (Packet.cmd pkt));;
               assert_ (negb (isWritable b));;
               mret (set_core (Cache.set_tags (Tags.put_blk p (clear_status BlkReadable b) (Cache.tags (core s))) (core s)) s)
             else mret s
         end);
    '(_, s) ← allocateMissBuffer now pkt forward_time true s;
    mret s.

(** A request that was not satisfied. *)
Definition recv_miss (blk : option Z) (request_time forward_time : Z) (pkt : Packet) (s : TimingCache) : res TimingCache :=
  a ← Packet.getAddr pkt;
  secure ← Packet.isSecure pkt;
  let mshr := if isUncacheable (Packet.req pkt) then None
              else findMatch (mshrQueue s) (Cache.blockAlign (core s) a) secure in
  '(pkt, s) ← (if MemCmd.isSWPrefetch (Packet.cmd pkt)
               then answer_prefetch request_time (bool_decide (is_Some mshr)) pkt s
               else mret (Some pkt, s));
  match mshr, pkt with
  | Some i, Some pkt => join_mshr i forward_time pkt s
  | Some _, None => mret s
  | None, Some pkt => new_miss blk forward_time pkt s
  | None, None => Err UB
  end.

(** [recvTimingReq(pkt)] *)
Definition recvTimingReq (pkt : Packet) (s : TimingCache) (m : M) : res (bool * TimingCache * M) :=
  assert_ (Packet.isRequest pkt);;
  if Cache.bypassCaches (core s) then
    '(success, m, _) ← sendTimingReq m pkt;
    assert_ success;;
    mret (true, s, m)
  else
    pkt ← Cache.promoteWholeLineWrites (core s) pkt;
    if Packet.memInhibitAsserted pkt then
      '(s, m) ← recv_inhibited s m pkt;
      mret (true, s, m)
    else
      let forward_time := u64 (clockEdge s edge (forwardLatency s) + Packet.headerDelay pkt) in
      '(satisfied, blk, lat, c, pkt, writebacks) ← Cache.access now (lookup_core s) pkt;
      let s := set_core c s in
      let s := if Packet.evictingBlock pkt
               then set_writeBuffer (write_back_view (Cache.writeBuffer c) (writeBuffer s)) s else s in
      '(s, m) ← doWritebacks writebacks forward_time s m;
      let request_time := u64 (clockEdge s edge lat + Packet.headerDelay pkt) in
      let pkt := Packet.with_delays pkt 0 0 in
      if (satisfied : bool) then
        assert_ (negb (isUncacheable (Packet.req pkt)));;
        if Packet.needsResponse pkt then
          pkt ← Packet.makeResponse pkt;
          s ← schedTimingResp now (Packet.with_delays pkt 0 0) request_time s;
          mret (true, s, m)
        else mret (true, s, m)
      else
        s ← recv_miss blk request_time forward_time pkt s;
        mret (true, s, m).

(** [CpuSidePort::recvTimingReq(pkt)] *)
Definition cpu_recvTimingReq (pkt : Packet) (s : TimingCache) (m : M) : res (bool * TimingCache * M) :=
  assert_ (negb (Cache.bypassCaches (core s)));;
  if Packet.memInhibitAsserted pkt then
    '(success, s, m) ← recvTimingReq pkt s m;
    assert_ success;;
    mret (true, s, m)
  else
    '(success, s, m) ← (if cpuBlocked s || mustSendRetry s then mret (false, s, m) else recvTimingReq pkt s m);
    mret (success, set_cpuPort (cpuBlocked s) (negb success) (sendRetryEvent s) s, m).

(** [getNextMSHR()] *)
Definition getNextMSHR (s : TimingCache) : res (option mshrptr) :=
  miss_mshr ← MSHRQueue.getNextMSHR now (mshrQueue s);
  write_mshr ← MSHRQueue.getNextMSHR now (writeBuffer s);
  let write_first := (MSHRQueue.isFull (writeBuffer s) && (MSHRQueue.inServiceEntries (writeBuffer s) =? 0))
                     || bool_decide (miss_mshr = None) in
  match write_mshr, write_first, miss_mshr with
  | Some w, true, _ =>
      e ← MSHRQueue.get (writeBuffer s) w;
      conflict_mshr ← MSHRQueue.findPending (mshrQueue s) (MSHR.blkAddr e) (MSHR.isSecure e);
      match conflict_mshr with
      | Some i => f ← MSHRQueue.get (mshrQueue s) i;
                  mret (Some (if MSHR.order f <? MSHR.order e then Miss i else Write w))
      | None => mret (Some (Write w))
      end
  | _, _, Some i =>
      e ← MSHRQueue.get (mshrQueue s) i;
      conflict_mshr ← MSHRQueue.findPending (writeBuffer s) (MSHR.blkAddr e) (MSHR.isSecure e);
      mret (Some (match conflict_mshr with Some j => Write j | None => Miss i end))
  | _, _, None => mret None
  end.

(** A hardware prefetch is looked up in the caches above before it is sent; [None] when it
    is not sent. *)
Definition check_prefetch (p : mshrptr) (blk : option Z) (tgt_pkt : Packet) (s : TimingCache) (m : M) :
    res (option Packet * TimingCache * M) :=
  snoop_pkt ← Packet_copy tgt_pkt true false;
  let snoop_pkt := Packet.setExpressSnoop snoop_pkt in
  '(m, snoop_pkt) ← sendTimingSnoopReq m (Packet.with_senderState snoop_pkt [mshr_id p]);
  if Packet.memInhibitAsserted snoop_pkt then
    s ← markInService now p (negb (Packet.sharedAsserted snoop_pkt)) s;
    mret (None, s, m)
  else if Cache.isBlockCached snoop_pkt || bool_decide (is_Some blk) then
    if negb (bool_decide (Packet.cmd tgt_pkt = MemCmd.Writeback)) then
      '(freed, q) ← MSHRQueue.forceDeallocateTarget now (index_of p) (queue_of p s);
      let s := set_queue_of p q s in
      s ← (if (freed : bool) then clearBlocked now (MSHRQueue.index q) s else mret s);
      mret (None, s, m)
    else mret (Some (Packet.with_flags tgt_pkt (Flags.set (Packet.flags tgt_pkt) Packet.BLOCK_CACHED)), s, m)
  else mret (Some tgt_pkt, s, m).

(** [getTimingPacket()]: the register and its packet. *)
Definition getTimingPacket (s : TimingCache) (m : M) : res (option (mshrptr * Packet) * TimingCache * M) :=
  next ← getNextMSHR s;
  match next with
  | None => mret (None, s, m)
  | Some p =>
      e ← MSHRQueue.get (queue_of p s) (index_of p);
      t ← MSHR.getTarget e;
      blk ← Tags.findBlock (Cache.tags (core s)) (MSHR.blkAddr e) (MSHR.isSecure e);
      '(tgt_pkt, s, m) ←
        (if bool_decide (Packet.cmd (MSHR.pkt t) = MemCmd.HardPFReq) && Cache.forwardSnoops (core s)
         then check_prefetch p blk (MSHR.pkt t) s m else mret (Some (MSHR.pkt t), s, m));
      match tgt_pkt with
      | None => mret (None, s, m)
      | Some tgt_pkt =>
          e ← MSHRQueue.get (queue_of p s) (index_of p);
          fwd ← MSHR.isForwardNoResponse e;
          if (fwd : bool) then
            assert_ (bool_decide (blk = None));;
            mret (Some (p, Packet.with_senderState tgt_pkt [mshr_id p]), s, m)
          else
            bus ← Cache.getBusPacket (core s) tgt_pkt blk (MSHR.needsExclusive (MSHR.targets e));
            let s := set_queue_of p (MSHRQueue.put (index_of p) (MSHR.set_isForward (bool_decide (bus = None)) e) (queue_of p s)) s in
            pkt ← (match bus with
                   | Some pkt => mret pkt
                   | None =>
                       pkt ← Packet_copy tgt_pkt false true;
                       if Packet.isWrite pkt then d ← Packet.getPtr tgt_pkt; Packet.setData pkt d else mret pkt
                   end);
            mret (Some (p, Packet.with_senderState pkt [mshr_id p]), s, m)
      end
  end.

(** [nextMSHRReadyTime()] *)
Definition nextMSHRReadyTime (s : TimingCache) : res Z :=
  t1 ← MSHRQueue.nextMSHRReadyTime (mshrQueue s);
  t2 ← MSHRQueue.nextMSHRReadyTime (writeBuffer s);
  mret (Z.min t1 t2).

(** [CacheReqPacketQueue::sendDeferredPacket()] *)
Definition sendDeferredPacket (s : TimingCache) (m : M) : res (TimingCache * M) :=
  assert_ (negb (PacketQueue.waitingOnRetry (reqQueue s)));;
  assert_ (PacketQueue.deferredPacketReadyTime (reqQueue s) =? MaxTick);;
  '(next, s, m) ← getTimingPacket s m;
  '(wait, s, m) ←
    (match next with
     | None => mret (false, s, m)
     | Some (p, pkt) =>
         a ← Packet.getAddr pkt;
         snoop ← PacketQueue.hasAddr (pkts s) (snoopRespQueue s) a;
         if (snoop : bool) then
           s ← schedMemSideSendEvent now (PacketQueue.deferredPacketReadyTime (snoopRespQueue s)) s;
           mret (true, s, m)
         else
           '(success, m, pkt) ← sendTimingReq m pkt;
           let s := set_reqQueue (PacketQueue.with_waiting (reqQueue s) (negb success)) s in
           if (success : bool) then
             s ← markInService now p (negb (Packet.sharedAsserted pkt) && Packet.memInhibitAsserted pkt) s;
             mret (false, s, m)
           else mret (false, s, m)
     end);
  if (wait : bool) || PacketQueue.waitingOnRetry (reqQueue s) then mret (s, m)
  else t ← nextMSHRReadyTime s; s ← schedMemSideSendEvent now t s; mret (s, m).

(** [processSendEvent()], whose event has fired, and [retry()] *)
Definition processSendEvent (s : TimingCache) (m : M) : res (TimingCache * M) :=
  let s := set_reqQueue (PacketQueue.with_event (reqQueue s) None) s in
  assert_ (negb (PacketQueue.waitingOnRetry (reqQueue s)));;
  sendDeferredPacket s m.
Definition retry (s : TimingCache) (m : M) : res (TimingCache * M) :=
  assert_ (PacketQueue.waitingOnRetry (reqQueue s));;
  sendDeferredPacket (set_reqQueue (PacketQueue.with_waiting (reqQueue s) false) s) m.

End timing.

End TimingCache.
