(* ===== verification/CacheSeq.v ===== *)
(** * The state of the cache between requests in timing mode

    The invariant of the timing path for a processor that waits for the response before it
    sends the next request (as the simple timing CPU does), and the operations of the
    cache on its queues and ports under it: the write buffer holds the evicted blocks in
    the order in which they have to reach the memory. *)

From stdpp Require Import base gmap list list_numbers sorting.
From S2P Require Import Prelude IntMath Packets Events Clocked PktQueue AbstractMem CacheTags Cache CacheInv CacheAtomic MSHRQ MSHRInv CacheTiming.
Import Request Blk TimingCache.
Local Open Scope Z_scope.

(** ** Blocking the processor side *)

Definition blocked_bits (a b : bool) : Z := Z.b2z a + 2 * Z.b2z b.

(** [a] and [b]: the miss queue and the write buffer are full. *)
Record port_bits (now : Z) (a b : bool) (st : TimingCache) : Prop := {
  po_blocked : blocked st = blocked_bits a b;
  po_cpu : cpuBlocked st = a || b;
  po_retry t : sendRetryEvent st = Some t → now ≤ t ∧ cpuBlocked st = false ∧ mustSendRetry st = true;
  po_owed : mustSendRetry st = true → cpuBlocked st = false → is_Some (sendRetryEvent st);
}.

(** Only the state of the processor side port differs. *)
Definition ports_only (st st' : TimingCache) : Prop := ∃ x c r e, st' = set_blocked x (set_cpuPort c r e st).

Lemma set_blocked_id st : set_blocked (blocked st) (set_cpuPort (cpuBlocked st) (mustSendRetry st) (sendRetryEvent st) st) = st.
Proof. by destruct st. Qed.

Lemma setBlocked_ok now a b st cause :
  port_bits now a b st → cause = 0 ∨ cause = 1 →
  ∃ st', setBlocked cause st = Ok st' ∧ ports_only st st' ∧ port_bits now (a || (cause =? 0)) (b || (cause =? 1)) st' ∧
    (sendRetryEvent st = None → sendRetryEvent st' = None).
Proof.
  intros [Hb Hc Hr Ho] Hcause. unfold setBlocked.
  assert (Z.lor (blocked_bits a b) (Z.shiftl 1 cause) = blocked_bits (a || (cause =? 0)) (b || (cause =? 1))) as Eb
    by (by destruct a, b, Hcause as [->| ->]).
  assert (cpuBlocked st = true → ∃ st', (s ← mret st; mret (set_blocked (Z.lor (blocked s) (Z.shiftl 1 cause)) s)) = Ok st' ∧
    ports_only st st' ∧ port_bits now (a || (cause =? 0)) (b || (cause =? 1)) st' ∧ (sendRetryEvent st = None → sendRetryEvent st' = None)) as Hstay.
  { intros Hcb. eexists. split; [reflexivity|]. split; [exists (Z.lor (blocked st) (Z.shiftl 1 cause)), (cpuBlocked st), (mustSendRetry st), (sendRetryEvent st); by destruct st|].
    split; [|done]. split; simpl; [by rewrite Hb, Eb| |done|done]. rewrite Hcb in *. by destruct a, b, Hcause as [->| ->]. }
  destruct a, b; rewrite Hb; try (by apply Hstay). cbn [blocked_bits Z.b2z Z.add Z.mul Z.eqb]. unfold port_setBlocked. rewrite Hc. cbn [orb negb check mbind res_mbind].
  simpl in Hc. destruct (sendRetryEvent st) as [t|] eqn:Ee; cbn [mbind res_mbind mret res_mret deschedule].
  - change (deschedule (Some t)) with (Ok (@None Z)). cbn [mbind res_mbind]. eexists. split; [reflexivity|]. split; [by eexists _, _, _, _|].
    split; [|done]. split; simpl; [by rewrite Hb, Eb|by destruct Hcause as [->| ->]|done|done].
  - eexists. split; [reflexivity|]. split; [by eexists _, _, _, _|]. split; [|done]. split; simpl; [by rewrite Hb, Eb|by destruct Hcause as [->| ->]|done|done].
Qed.

Lemma clearBlocked_ok now a b st cause :
  port_bits now a b st → cause = 0 ∧ a = true ∨ cause = 1 ∧ b = true → 0 ≤ now < MaxTick →
  ∃ st', clearBlocked now cause st = Ok st' ∧ ports_only st st' ∧ port_bits now (a && negb (cause =? 0)) (b && negb (cause =? 1)) st'.
Proof.
  intros [Hb Hc Hr Ho] Hcause Hnow. unfold clearBlocked. assert (cpuBlocked st = true) as Hcb by (rewrite Hc; destruct a, b; naive_solver).
  assert (sendRetryEvent st = None) as Hn.
  { destruct (sendRetryEvent st) as [t|]; [|done]. destruct (Hr t eq_refl) as (_ & ? & _). congruence. }
  assert (Z.land (blocked_bits a b) (u8 (Z.lnot (Z.shiftl 1 cause))) = blocked_bits (a && negb (cause =? 0)) (b && negb (cause =? 1))) as Eb
    by (by destruct a, b, Hcause as [[-> ?]|[-> ?]]).
  cbn [blocked set_blocked]. rewrite Hb, Eb.
  set (a' := a && negb (cause =? 0)). set (b' := b && negb (cause =? 1)). destruct (a' || b') eqn:Hab.
  - assert ((blocked_bits a' b' =? 0) = false) as -> by (by destruct a', b'). eexists. split; [reflexivity|].
    split; [exists (blocked_bits a' b'), (cpuBlocked st), (mustSendRetry st), (sendRetryEvent st); by destruct st|].
    split; simpl; [done|congruence|by rewrite Hn|congruence].
  - assert ((blocked_bits a' b' =? 0) = true) as -> by (by destruct a', b'). unfold port_clearBlocked. cbn [cpuBlocked set_blocked mustSendRetry sendRetryEvent].
    rewrite Hcb, Hn. cbn [check mbind res_mbind]. destruct (mustSendRetry st).
    + rewrite add64_succ, schedule_ok by lia. cbn [mbind res_mbind]. eexists. split; [reflexivity|]. split; [by eexists _, _, _, _|].
      split; simpl; [done|done| |done]. intros t [= <-]. lia.
    + eexists. split; [reflexivity|]. split; [by eexists _, _, _, _|]. split; simpl; done.
Qed.

(** ** The send event *)

Record send_ok (now : Z) (st : TimingCache) : Prop := {
  so_empty : PacketQueue.transmitList (reqQueue st) = [] ∧ PacketQueue.transmitList (snoopRespQueue st) = [];
  so_wait : PacketQueue.waitingOnRetry (reqQueue st) = true → PacketQueue.sendEvent (reqQueue st) = None;
  so_event t : PacketQueue.sendEvent (reqQueue st) = Some t → now ≤ t;
}.

(** A register that waits to be sent has the event scheduled for it, or a retry promised. *)
Definition armed (st : TimingCache) : Prop :=
  MSHRQueue.readyList (mshrQueue st) ≠ [] ∨ MSHRQueue.readyList (writeBuffer st) ≠ [] →
  PacketQueue.waitingOnRetry (reqQueue st) = false → is_Some (PacketQueue.sendEvent (reqQueue st)).

Lemma schedMemSide_ok now time st :
  0 ≤ now < MaxTick → send_ok now st →
  ∃ q, schedMemSideSendEvent now time st = Ok (set_reqQueue q st) ∧ send_ok now (set_reqQueue q st) ∧
    PacketQueue.waitingOnRetry q = PacketQueue.waitingOnRetry (reqQueue st) ∧
    (PacketQueue.waitingOnRetry q = false → time ≠ MaxTick ∨ is_Some (PacketQueue.sendEvent (reqQueue st)) → is_Some (PacketQueue.sendEvent q)).
Proof.
  intros Hnow [[He Hse] Hw Hev]. unfold schedMemSideSendEvent, PacketQueue.schedSendEvent. set (q := reqQueue st) in *.
  destruct (PacketQueue.waitingOnRetry q) eqn:Ew.
  { rewrite (Hw eq_refl). cbn [mbind res_mbind check negb]. exists q. split_and!; [done|split; simpl; [done|by intros _; apply Hw|done]|done|by rewrite Ew]. }
  destruct (Z.eqb_spec time MaxTick) as [->|Ht]; cbn [negb].
  { assert (∀ q', PacketQueue.transmitList q' = [] → PacketQueue.sendEvent q' = PacketQueue.sendEvent q → PacketQueue.waitingOnRetry q' = false →
      ∃ q0, Ok (set_reqQueue q' st) = Ok (set_reqQueue q0 st) ∧ send_ok now (set_reqQueue q0 st) ∧ PacketQueue.waitingOnRetry q0 = false ∧
        (PacketQueue.waitingOnRetry q0 = false → MaxTick ≠ MaxTick ∨ is_Some (PacketQueue.sendEvent q) → is_Some (PacketQueue.sendEvent q0))) as Hq.
    { intros q' E1 E2 E3. exists q'. split; [done|]. split; [split; simpl; [done|congruence|by rewrite E2]|]. split; [done|]. rewrite E2. naive_solver. }
    case_match; apply Hq; done. }
  rewrite add64_succ by done. destruct (PacketQueue.sendEvent q) as [t|] eqn:Ee.
  - specialize (Hev t eq_refl). destruct (Z.ltb_spec (time `max` (now + 1)) t).
    + rewrite reschedule_ok by lia. cbn [mbind res_mbind]. eexists. split; [reflexivity|]. split; [split; simpl; [done|congruence|]|by simpl].
      intros x [= <-]. lia.
    + eexists q. split; [done|]. split; [split; simpl; [done|congruence|]|by rewrite Ee]. intros x Hx. fold q in Hx. rewrite Ee in Hx. by injection Hx as <-.
  - rewrite schedule_ok by lia. cbn [mbind res_mbind]. eexists. split; [reflexivity|]. split; [split; simpl; [done|congruence|]|by simpl].
    intros x [= <-]. lia.
Qed.

(** ** Allocating and sending registers *)

(** The queues, the processor side and the send event agree. *)
Record base_ok (now : Z) (st : TimingCache) : Prop := {
  bo_port : port_bits now (MSHRQueue.isFull (mshrQueue st)) (MSHRQueue.isFull (writeBuffer st)) st;
  bo_send : send_ok now st;
  bo_armed : armed st;
  bo_miss : queue_ok (mshrQueue st);
  bo_write : queue_ok (writeBuffer st);
  bo_index : MSHRQueue.index (mshrQueue st) = 0 ∧ MSHRQueue.index (writeBuffer st) = 1;
}.

(** What the operations on the queues leave alone. *)
Definition rest (st : TimingCache) :=
  (core st, addrRanges st, (forwardLatency st, responseLatency st, numTarget st, noTargetMSHR st), snoopRespQueue st, respQueue st, pkts st).

Lemma rest_ports st st' : ports_only st st' →
  rest st' = rest st ∧ mshrQueue st' = mshrQueue st ∧ writeBuffer st' = writeBuffer st ∧ reqQueue st' = reqQueue st ∧ order st' = order st.
Proof. by intros (x & c & r & e & ->). Qed.

Lemma send_ok_same now st st' : send_ok now st → reqQueue st' = reqQueue st → snoopRespQueue st' = snoopRespQueue st → send_ok now st'.
Proof. intros [H1 H2 H3] E1 E2. split; by rewrite ?E1, ?E2. Qed.

Lemma port_bits_same now a b st st' :
  port_bits now a b st → blocked st' = blocked st → cpuBlocked st' = cpuBlocked st → mustSendRetry st' = mustSendRetry st →
  sendRetryEvent st' = sendRetryEvent st → port_bits now a b st'.
Proof. intros [H1 H2 H3 H4] E1 E2 E3 E4. split; by rewrite ?E1, ?E2, ?E3, ?E4. Qed.

Definition other (p : mshrptr) : mshrptr := match p with Miss i => Write i | Write i => Miss i end.
Definition cause_of (p : mshrptr) : Z := match p with Miss _ => 0 | Write _ => 1 end.

Lemma isFull_enqueued i e q : MSHRQueue.isFull q = true → MSHRQueue.isFull (enqueued i e q) = true.
Proof. unfold MSHRQueue.isFull. simpl. rewrite !Z.ltb_lt. lia. Qed.

Lemma allocateBuffer_ok now p a size pkt time st :
  0 ≤ now < MaxTick → base_ok now st → MSHRQueue.freeList (queue_of p st) ≠ [] → Cache.blockAlign (core st) a = a →
  Flags.isSet (Packet.flags pkt) Packet.VALID_ADDR = true → time ≠ MaxTick →
  (∀ j f, j ∈ MSHRQueue.readyList (queue_of p st) → entry (queue_of p st) j f → MSHR.readyTime f ≤ time) →
  ∃ i e0 st', allocateBufferInternal now p a size pkt time true st = Ok (i, st') ∧ base_ok now st' ∧ rest st' = rest st ∧
    order st' = u64 (order st + 1) ∧ head (MSHRQueue.freeList (queue_of p st)) = Some i ∧ entry (queue_of p st) i e0 ∧
    queue_of p st' = enqueued i (one_target now a size pkt time (order st) e0) (queue_of p st) ∧
    queue_of (other p) st' = queue_of (other p) st ∧ PacketQueue.waitingOnRetry (reqQueue st') = PacketQueue.waitingOnRetry (reqQueue st) ∧
    (sendRetryEvent st = None → sendRetryEvent st' = None).
Proof.
  intros Hnow [Hport Hsend Harm Hmq Hwq [Hi0 Hi1]] Hfree Hal Hv Htime Hle. unfold allocateBufferInternal. rewrite Hal, Z.eqb_refl. cbn [check mbind res_mbind].
  assert (queue_ok (queue_of p st)) as Hq by (by destruct p). destruct (MSHRQueue.freeList (queue_of p st)) as [|i free] eqn:Ef; [done|].
  destruct (allocate_ok now a size pkt time (order st) (queue_of p st) i free Hq Ef Hv Hle) as (e0 & E & Hq' & He0). rewrite E. cbn [mbind res_mbind].
  set (q := enqueued i _ _) in *. set (st1 := set_order _ _).
  assert (MSHRQueue.index q = cause_of p) as Eidx by (by destruct p).
  assert (∃ st2, (if MSHRQueue.isFull q then setBlocked (MSHRQueue.index q) st1 else mret st1) = Ok st2 ∧ ports_only st1 st2 ∧
    port_bits now (MSHRQueue.isFull (mshrQueue st1)) (MSHRQueue.isFull (writeBuffer st1)) st2 ∧
    (sendRetryEvent st = None → sendRetryEvent st2 = None)) as (st2 & E2 & Hpo & Hport2 & Hnone).
  { assert (port_bits now (MSHRQueue.isFull (mshrQueue st)) (MSHRQueue.isFull (writeBuffer st)) st1) as Hp1 by (apply (port_bits_same _ _ _ st); [done|by destruct p..]).
    pose proof (isFull_enqueued i (one_target now a size pkt time (order st) e0) (queue_of p st)) as Hfull. fold q in Hfull.
    destruct (MSHRQueue.isFull q) eqn:Efull.
    - rewrite Eidx. destruct (setBlocked_ok now _ _ st1 (cause_of p) Hp1) as (st2 & -> & Hpo & Hb & Hnone); [destruct p; auto|]. exists st2. split; [done|]. split; [done|].
      split; [|intros Hn; apply Hnone; by destruct p].
      revert Hb. destruct p; cbn [cause_of mshrQueue writeBuffer set_queue_of set_mshrQueue set_writeBuffer st1 set_order];
        rewrite Efull; change (0 =? 0) with true; change (0 =? 1) with false; change (1 =? 0) with false; change (1 =? 1) with true;
        by rewrite ?orb_true_r, ?orb_false_r.
    - exists st1. split; [done|]. split; [exists (blocked st1), (cpuBlocked st1), (mustSendRetry st1), (sendRetryEvent st1); by rewrite set_blocked_id|]. split; [|by destruct p].
      assert (MSHRQueue.isFull (queue_of p st) = false) as Eold by (destruct (MSHRQueue.isFull (queue_of p st)); [by specialize (Hfull eq_refl)|done]).
      destruct p; cbn [mshrQueue writeBuffer set_queue_of set_mshrQueue set_writeBuffer st1 set_order queue_of] in *; rewrite Efull; by rewrite Eold in Hp1. }
  rewrite E2. cbn [mbind res_mbind]. destruct (rest_ports _ _ Hpo) as (R1 & R2 & R3 & R4 & R5).
  assert (send_ok now st2) as Hsend2.
  { apply (send_ok_same now st); [done|rewrite R4; by destruct p|]. transitivity (snoopRespQueue st1); [|by destruct p]. unfold rest in R1. by injection R1. }
  destruct (schedMemSide_ok now time st2 Hnow Hsend2) as (rq & -> & Hsend3 & Ew & Hev). cbn [mbind res_mbind].
  exists i, e0, (set_reqQueue rq st2). split; [done|]. split; [split|split_and!].
  - simpl. rewrite R2, R3. apply (port_bits_same _ _ _ st2); done.
  - done.
  - intros _ Hw. simpl in *. apply Hev; [done|by left].
  - simpl. rewrite R2. by destruct p.
  - simpl. rewrite R3. by destruct p.
  - simpl. rewrite R2, R3. by destruct p.
  - transitivity (rest st2); [done|]. rewrite R1. by destruct p.
  - simpl. by rewrite R5.
  - done.
  - done.
  - destruct p; simpl; rewrite ?R2, ?R3; done.
  - destruct p; simpl; rewrite ?R2, ?R3; done.
  - simpl. rewrite Ew, R4. by destruct p.
  - done.
Qed.

(** A queue that has freed a register: the processor side is unblocked when it is no
    longer full. *)
Lemma unblock_ok now p q st :
  0 ≤ now < MaxTick → port_bits now (MSHRQueue.isFull (mshrQueue st)) (MSHRQueue.isFull (writeBuffer st)) st →
  MSHRQueue.index q = cause_of p → (MSHRQueue.isFull q = true → MSHRQueue.isFull (queue_of p st) = true) →
  ∃ st', (if MSHRQueue.isFull (queue_of p st) && negb (MSHRQueue.isFull q) then clearBlocked now (MSHRQueue.index q) (set_queue_of p q st)
          else mret (set_queue_of p q st)) = Ok st' ∧ ports_only (set_queue_of p q st) st' ∧
    port_bits now (MSHRQueue.isFull (mshrQueue st')) (MSHRQueue.isFull (writeBuffer st')) st'.
Proof.
  intros Hnow Hport Eidx Hmono. set (st1 := set_queue_of p q st).
  assert (port_bits now (MSHRQueue.isFull (mshrQueue st)) (MSHRQueue.isFull (writeBuffer st)) st1) as Hp1 by (apply (port_bits_same _ _ _ st); [done|by destruct p..]).
  destruct (MSHRQueue.isFull (queue_of p st) && negb (MSHRQueue.isFull q)) eqn:Ec.
  - apply andb_true_iff in Ec as [Ec1 Ec2%negb_true_iff]. rewrite Eidx.
    destruct (clearBlocked_ok now _ _ st1 (cause_of p) Hp1) as (st' & -> & Hpo & Hb); [destruct p; auto|done|]. exists st'. split; [done|]. split; [done|].
    destruct (rest_ports _ _ Hpo) as (_ & -> & -> & _). revert Hb. unfold st1.
    destruct p; cbn [cause_of queue_of mshrQueue writeBuffer set_queue_of set_mshrQueue set_writeBuffer];
      rewrite Ec2; change (0 =? 0) with true; change (0 =? 1) with false; change (1 =? 0) with false; change (1 =? 1) with true; cbn [negb];
      by rewrite ?andb_true_r, ?andb_false_r.
  - exists st1. split; [done|]. split; [exists (blocked st1), (cpuBlocked st1), (mustSendRetry st1), (sendRetryEvent st1); by rewrite set_blocked_id|].
    assert (MSHRQueue.isFull (queue_of p st) = MSHRQueue.isFull q) as Eq.
    { destruct (MSHRQueue.isFull (queue_of p st)), (MSHRQueue.isFull q); try done. by specialize (Hmono eq_refl). }
    unfold st1 in *. destruct p; cbn [queue_of mshrQueue writeBuffer set_queue_of set_mshrQueue set_writeBuffer] in *; by rewrite Eq in Hp1.
Qed.

Lemma isFull_freed i e d q : MSHRQueue.isFull (freed i e d q) = true → MSHRQueue.isFull q = true.
Proof. unfold MSHRQueue.isFull. simpl. rewrite !Z.ltb_lt. lia. Qed.

(** The invariant without [armed], which a send restores at its end. *)
Record idle_ok (now : Z) (st : TimingCache) : Prop := {
  io_port : port_bits now (MSHRQueue.isFull (mshrQueue st)) (MSHRQueue.isFull (writeBuffer st)) st;
  io_send : send_ok now st;
  io_miss : queue_ok (mshrQueue st);
  io_write : queue_ok (writeBuffer st);
  io_index : MSHRQueue.index (mshrQueue st) = 0 ∧ MSHRQueue.index (writeBuffer st) = 1;
}.
Lemma base_idle now st : base_ok now st → idle_ok now st.
Proof. by intros []. Qed.
Lemma idle_base now st : idle_ok now st → armed st → base_ok now st.
Proof. by intros []. Qed.

(** The rest of the state once queue [p] has become [q]. *)
Lemma replace_queue_ok now p q st :
  0 ≤ now < MaxTick → idle_ok now st → queue_ok q → MSHRQueue.index q = cause_of p →
  (MSHRQueue.isFull q = true → MSHRQueue.isFull (queue_of p st) = true) →
  ∃ st', (if MSHRQueue.isFull (queue_of p st) && negb (MSHRQueue.isFull q) then clearBlocked now (MSHRQueue.index q) (set_queue_of p q st)
          else mret (set_queue_of p q st)) = Ok st' ∧ idle_ok now st' ∧ rest st' = rest st ∧ order st' = order st ∧
    queue_of p st' = q ∧ queue_of (other p) st' = queue_of (other p) st ∧ reqQueue st' = reqQueue st.
Proof.
  intros Hnow [Hport Hsend Hmq Hwq [Hi0 Hi1]] Hq Eidx Hmono. destruct (unblock_ok now p q st Hnow Hport Eidx Hmono) as (st' & E & Hpo & Hport').
  destruct (rest_ports _ _ Hpo) as (R1 & R2 & R3 & R4 & R5). exists st'. split; [done|]. split; [split|split_and!]; try done.
  - apply (send_ok_same now st); [done|rewrite R4; by destruct p|]. transitivity (snoopRespQueue (set_queue_of p q st)); [|by destruct p]. unfold rest in R1. by injection R1.
  - rewrite R2. by destruct p.
  - rewrite R3. by destruct p.
  - rewrite R2, R3. by destruct p.
  - rewrite R1. by destruct p.
  - rewrite R5. by destruct p.
  - destruct p; simpl; rewrite ?R2, ?R3; done.
  - destruct p; simpl; rewrite ?R2, ?R3; done.
  - rewrite R4. by destruct p.
Qed.

(** [markInService] of a register with one target. *)
Lemma markInService_ok now p e t pd st :
  0 ≤ now < MaxTick → idle_ok now st → index_of p ∈ MSHRQueue.readyList (queue_of p st) → entry (queue_of p st) (index_of p) e →
  MSHR.elems (MSHR.targets e) = [t] → MSHR.deferredTargets e = MSHR.no_targets → MSHR.source t = MSHR.FromCPU →
  ∃ st' q', markInService now p pd st = Ok st' ∧ idle_ok now st' ∧ rest st' = rest st ∧ order st' = order st ∧ queue_of p st' = q' ∧
    queue_of (other p) st' = queue_of (other p) st ∧ reqQueue st' = reqQueue st ∧
    if Packet.needsResponse (MSHR.pkt t) then q' = served (index_of p) (in_service pd e) (queue_of p st)
    else ∃ e1 d, q' = freed (index_of p) e1 d (queue_of p st).
Proof.
  intros Hnow Hi Hin He Ht Hd Hsrc. unfold markInService. pose proof Hi as [Hport Hsend Hmq Hwq [Hi0 Hi1]].
  assert (queue_ok (queue_of p st)) as Hq by (by destruct p). assert (MSHRQueue.index (queue_of p st) = cause_of p) as Eidx by (by destruct p).
  destruct (Packet.needsResponse (MSHR.pkt t)) eqn:Hnr.
  - destruct (markInService_served _ _ _ _ pd Hq Hin He Ht Hd Hnr) as [-> Hq']. cbn [mbind res_mbind].
    destruct (replace_queue_ok now p (served (index_of p) (in_service pd e) (queue_of p st)) st Hnow Hi Hq') as (st' & E & H1 & H2 & H3 & H4 & H5 & H6); [done|done|].
    exists st', (queue_of p st'). rewrite E. by split_and!.
  - destruct (markInService_freed _ _ _ _ pd Hq Hin He Ht Hd Hsrc Hnr) as (e1 & d & -> & Hq'). cbn [mbind res_mbind].
    destruct (replace_queue_ok now p (freed (index_of p) e1 d (queue_of p st)) st Hnow Hi Hq') as (st' & E & H1 & H2 & H3 & H4 & H5 & H6); [done|apply isFull_freed|].
    exists st', (queue_of p st'). rewrite E. split_and!; try done. by exists e1, d.
Qed.
