(* ===== verification/CacheResp.v ===== *)
(** * Responses, snoops and functional accesses of the cache (mem/cache/cache.cc)

    What reaches the cache from the memory side: responses to its requests
    ([recvTimingResp]), snoops of other caches, and the debug accesses that see all
    buffered packets.  Together with the requests of the CPU side this is the whole cache. *)

From stdpp Require Import base gmap list list_numbers.
From S2P Require Import Prelude IntMath AddrRanges Packets Events PktQueue CacheTags Cache MSHRQ CacheTiming.
Import Request Blk TimingCache.
Local Open Scope Z_scope.

Module CacheResp.

Section responses.
Context {M : Type} `{!TimingPorts M} `{!Cache.AtomicPorts M} (now edge : Z).

(** Blocks through pointers that may be null. *)
Definition get_opt (c : Cache.Cache) (blk : option Cache.blkptr) : res (option CacheBlk) :=
  match blk with None => mret None | Some p => b ← Cache.get_blk c p; mret (Some b) end.
Definition valid_opt (b : option CacheBlk) : bool := match b with Some b => isValid b | None => false end.

(** [if (blk != tempBlock) tags->invalidate(blk); blk->invalidate();] *)
Definition invalidate_blk (p : Cache.blkptr) (c : Cache.Cache) : res Cache.Cache :=
  match p with
  | Cache.InTags p => Cache.drop_blk now p c
  | Cache.Temp => mret (Cache.set_tempBlock (Blk.invalidate (Cache.tempBlock c)) c)
  end.

Definition setBlockCached (p : Packet) : Packet := Packet.with_flags p (Flags.set (Packet.flags p) Packet.BLOCK_CACHED).
Definition setSupplyExclusive (p : Packet) : Packet := Packet.with_flags p (Flags.set (Packet.flags p) Packet.SUPPLY_EXCLUSIVE).

(** [setDataFromBlock(blk_data, blkSize)] *)
Definition setDataFromBlock (c : Cache.Cache) (d : list Z) (p : Packet) : res Packet :=
  off ← Packet.getOffset p (Cache.blkSize c);
  Packet.setData p (drop (Z.to_nat off) d).

(** [doTimingSupplyResponse(req_pkt, blk_data, already_copied, pending_inval)] *)
Definition doTimingSupplyResponse (req_pkt : Packet) (blk_data : list Z) (already_copied pending_inval : bool)
    (s : TimingCache) : res TimingCache :=
  assert_ (Packet.isRequest req_pkt);;
  assert_ (Packet.needsResponse req_pkt);;
  pkt ← (if already_copied then mret req_pkt else Packet_copy req_pkt false (Packet.isRead req_pkt));
  assert_ (isUncacheable (Packet.req req_pkt) || Packet.isInvalidate req_pkt || Packet.sharedAsserted pkt);;
  pkt ← Packet.makeResponse pkt;
  pkt ← (if Packet.isRead pkt then setDataFromBlock (core s) blk_data pkt else mret pkt);
  let pkt := if bool_decide (Packet.cmd pkt = MemCmd.ReadResp) && pending_inval
             then Packet.with_cmd pkt MemCmd.ReadRespWithInvalidate else pkt in
  let forward_time := u64 (clockEdge s edge (forwardLatency s) + Packet.headerDelay pkt) in
  schedTimingSnoopResp now (Packet.with_delays pkt 0 0) forward_time true s.

(** The record a forwarded snoop carries as its sender state. *)
Definition ForwardResponseRecord : Z := -1.

(** The snoop goes to the caches above first. *)
Definition forward_snoop (pkt : Packet) (is_timing : bool) (m : M) : res (Z * Packet * M) :=
  let alreadyResponded := Packet.memInhibitAsserted pkt in
  if is_timing then
    snoopPkt ← Packet_copy pkt true true;
    let snoopPkt := Packet.pushSenderState (Packet.setExpressSnoop snoopPkt) ForwardResponseRecord in
    '(m, snoopPkt) ← sendTimingSnoopReq m (Packet.with_delays snoopPkt 0 0);
    pkt ← (if Packet.memInhibitAsserted snoopPkt then
             assert_ (negb alreadyResponded);; Packet.assertMemInhibit pkt
           else mret pkt);
    let pkt := if Packet.sharedAsserted snoopPkt then Packet.assertShared pkt else pkt in
    mret (u32 (Packet.headerDelay snoopPkt), if Cache.isBlockCached snoopPkt then setBlockCached pkt else pkt, m)
  else
    '(m, pkt) ← Cache.sendAtomicSnoop m pkt;
    assert_ (alreadyResponded || negb (Packet.memInhibitAsserted pkt) || Packet.isResponse pkt);;
    mret (0, pkt, m).

(** [handleSnoop(pkt, blk, is_timing, is_deferred, pending_inval)]: the delay and the packet. *)
Definition handleSnoop (pkt : Packet) (blk : option Cache.blkptr) (is_timing is_deferred pending_inval : bool)
    (s : TimingCache) (m : M) : res (Z * Packet * TimingCache * M) :=
  assert_ (negb (is_deferred && negb is_timing));;
  assert_ (negb (pending_inval && negb is_deferred));;
  assert_ (Packet.isRequest pkt);;
  let invalidate := Packet.isInvalidate pkt in
  let needs_exclusive := MemCmd.needsExclusive (Packet.cmd pkt) in
  '(snoop_delay, pkt, m) ← (if Cache.forwardSnoops (core s) then forward_snoop pkt is_timing m else mret (0, pkt, m));
  match blk with
  | None => mret (snoop_delay, pkt, s, m)
  | Some p =>
      b ← Cache.get_blk (core s) p;
      if negb (isValid b) then mret (snoop_delay, pkt, s, m)
      else
        assert_ (negb (Cache.isReadOnly (core s) && isDirty b));;
        let respond := isDirty b && Packet.needsResponse pkt && negb (bool_decide (Packet.cmd pkt = MemCmd.InvalidateReq)) in
        let have_exclusive := isWritable b in
        if Packet.mustCheckAbove pkt then mret (snoop_delay, setBlockCached pkt, s, m)
        else
          '(pkt, s) ←
            (if negb (isUncacheable (Packet.req pkt)) && Packet.isRead pkt && negb invalidate then
               assert_ (negb needs_exclusive);;
               mret (Packet.assertShared pkt, set_core (Cache.put_blk p (clear_status BlkWritable b) (core s)) s)
             else mret (pkt, s));
          '(pkt, s) ←
            (if respond then
               pkt ← Packet.assertMemInhibit pkt;
               let pkt := if have_exclusive then setSupplyExclusive pkt else pkt in
               if is_timing then s ← doTimingSupplyResponse pkt (data b) is_deferred pending_inval s; mret (pkt, s)
               else pkt ← Packet.makeResponse pkt; pkt ← setDataFromBlock (core s) (data b) pkt; mret (pkt, s)
             else
               assert_ (negb (is_timing && is_deferred) || Packet.needsResponse pkt);;
               mret (pkt, s));
          s ← (if invalidate then c ← invalidate_blk p (core s); mret (set_core c s) else mret s);
          mret (snoop_delay, pkt, s, m)
  end.

(** [inRange(addr)] *)
Definition inRange (l : list AddrRange.AddrRange) (a : Z) : bool := existsb (λ r, AddrRange.contains r a) l.

Definition max_snoopDelay (pkt : Packet) (d : Z) : Packet :=
  Packet.mkPacket (Packet.flags pkt) (Packet.cmd pkt) (Packet.req pkt) (Packet.data pkt) (Packet.addr pkt)
    (Packet._isSecure pkt) (Packet.size pkt) (Packet.bytesValid pkt) (Packet.headerDelay pkt)
    (Z.max (Packet.snoopDelay pkt) (u32 d)) (Packet.payloadDelay pkt) (Packet.senderState pkt).
Definition lookup_ticks (s : TimingCache) : Z :=
  u64 (Cache.lookupLatency (core s) * Tags.clockPeriod (Cache.tags (core s))).

(** A snoop that hits the write buffer: whether it is done with. *)
Definition snoop_writeback (i : Z) (pkt : Packet) (s : TimingCache) : res (bool * Packet * TimingCache) :=
  e ← MSHRQueue.get (writeBuffer s) i;
  assert_ (negb (MSHR._isUncacheable e));;
  assert_ (MSHR.getNumTargets e =? 1);;
  t ← MSHR.getTarget e;
  let wb_pkt := MSHR.pkt t in
  assert_ (Packet.evictingBlock wb_pkt);;
  if Packet.evictingBlock pkt then mret (true, setBlockCached pkt, s)
  else
    let excl := MemCmd.needsExclusive (Packet.cmd pkt) in
    '(pkt, s) ←
      (if bool_decide (Packet.cmd wb_pkt = MemCmd.Writeback) then
         assert_ (negb (Packet.memInhibitAsserted pkt));;
         pkt ← Packet.assertMemInhibit pkt;
         assert_ (negb excl || Packet.isInvalidate pkt);;
         let s := if excl then s
                  else set_writeBuffer (MSHRQueue.put i (set_first (Packet.assertShared wb_pkt) e) (writeBuffer s)) s in
         let pkt := if excl then pkt else Packet.assertShared pkt in
         d ← Packet.getPtr wb_pkt;
         s ← doTimingSupplyResponse pkt d false false s;
         mret (pkt, s)
       else
         assert_ (bool_decide (Packet.cmd wb_pkt = MemCmd.CleanEvict));;
         assert_ (negb excl || Packet.isInvalidate pkt);;
         mret (if excl then pkt else Packet.assertShared pkt, s));
    s ← (if Packet.isInvalidate pkt then markInService now (Write i) false s else mret s);
    mret (false, pkt, s).

(** [recvTimingSnoopReq(pkt)] *)
Definition recvTimingSnoopReq (pkt : Packet) (s : TimingCache) (m : M) : res (Packet * TimingCache * M) :=
  assert_ (negb (Cache.bypassCaches (core s)));;
  a ← Packet.getAddr pkt;
  if negb (inRange (addrRanges s) a) then mret (pkt, s, m)
  else
    is_secure ← Packet.isSecure pkt;
    blk ← Tags.findBlock (Cache.tags (core s)) a is_secure;
    let blk_addr := Cache.blockAlign (core s) a in
    let mshr := findMatch (mshrQueue s) blk_addr is_secure in
    let pkt := max_snoopDelay pkt (lookup_ticks s) in
    if bool_decide (is_Some mshr) && Packet.mustCheckAbove pkt then mret (setBlockCached pkt, s, m)
    else
      '(deferred, pkt, s) ←
        (match mshr with
         | None => mret (false, pkt, s)
         | Some i =>
             e ← MSHRQueue.get (mshrQueue s) i;
             '(deferred, pkt, e) ← MSHR.handleSnoop now pkt (order s) e;
             mret (deferred, pkt, set_order (u64 (order s + 1)) (set_mshrQueue (MSHRQueue.put i e (mshrQueue s)) s))
         end);
      if (deferred : bool) then mret (pkt, s, m)
      else
        let writebacks := filter (λ i, entry_matches (writeBuffer s) blk_addr is_secure i = true)
                            (MSHRQueue.allocatedList (writeBuffer s)) in
        '(done, pkt, s) ←
          (match writebacks with
           | [] => mret (false, pkt, s)
           | [i] => snoop_writeback i pkt s
           | _ => Err Assert
           end);
        if (done : bool) then mret (pkt, s, m)
        else
          '(snoop_delay, pkt, s, m) ← handleSnoop pkt (Cache.InTags <$> blk) true false false s m;
          mret (max_snoopDelay pkt (snoop_delay + lookup_ticks s), s, m).

(** [recvAtomicSnoop(pkt)]: the latency and the packet. *)
Definition recvAtomicSnoop (pkt : Packet) (s : TimingCache) (m : M) : res (Z * Packet * TimingCache * M) :=
  assert_ (negb (Cache.bypassCaches (core s)));;
  a ← Packet.getAddr pkt;
  if negb (inRange (addrRanges s) a) then mret (0, pkt, s, m)
  else
    is_secure ← Packet.isSecure pkt;
    blk ← Tags.findBlock (Cache.tags (core s)) a is_secure;
    '(snoop_delay, pkt, s, m) ← handleSnoop pkt (Cache.InTags <$> blk) false false false s m;
    mret (u64 (snoop_delay + lookup_ticks s), pkt, s, m).

(** The state of the loop of [recvTimingResp] over the targets of a register. *)
Record Resp := mkResp {
  cache : TimingCache;
  mem : M;
  mshr : MSHR.MSHR;
  blk : option Cache.blkptr;
  writebacks : list Packet;
  is_fill : bool;
  is_invalidate : bool;
}.
Definition with_cache (v : TimingCache) (r : Resp) : Resp :=
  mkResp v (mem r) (mshr r) (blk r) (writebacks r) (is_fill r) (is_invalidate r).
Definition with_mshr (v : MSHR.MSHR) (r : Resp) : Resp :=
  mkResp (cache r) (mem r) v (blk r) (writebacks r) (is_fill r) (is_invalidate r).

(** [mshr->handleFill(pkt, blk); blk = handleFill(pkt, blk, writebacks);] *)
Definition fill (pkt : Packet) (r : Resp) : res Resp :=
  e ← MSHR.handleFill pkt (mshr r);
  '(p, c, wbs) ← Cache.handleFill now edge (lookup_core (cache r)) pkt (blk r) (writebacks r);
  mret (mkResp (set_core c (cache r)) (mem r) e (Some p) wbs (is_fill r) (is_invalidate r)).

(** The response to a target of the CPU side. *)
Definition answer_target (pkt : Packet) (is_error : bool) (initial_offset : Z) (tgt_pkt : Packet) (r : Resp) : res Resp :=
  if MemCmd.isSWPrefetch (Packet.cmd tgt_pkt) then mret r
  else
    r ← (if bool_decide (Packet.cmd tgt_pkt = MemCmd.WriteLineReq) then
           assert_ (negb is_error);;
           r ← fill tgt_pkt r;
           mret (mkResp (cache r) (mem r) (mshr r) (blk r) (writebacks r) true false)
         else mret r);
    let s := cache r in
    let done_at := Packet.headerDelay pkt + clockEdge s edge (responseLatency s) in
    '(tgt_pkt, s, completion_time) ←
      (if is_fill r then
         p ← (match blk r with Some p => mret p | None => Err Assert end);
         down ← MSHR.hasPostDowngrade (mshr r);
         '(c, tgt_pkt) ← Cache.satisfyCpuSideRequest now (core s) tgt_pkt p true down;
         off ← Packet.getOffset tgt_pkt (Cache.blkSize c);
         let d := off - initial_offset in
         let transfer_offset := if d <? 0 then d + Cache.blkSize c else d in
         assert_ (negb (isUncacheable (Packet.req tgt_pkt)));;
         _ ← Cache.count_master c tgt_pkt;
         mret (tgt_pkt, set_core c s, u64 (done_at + (if transfer_offset =? 0 then 0 else Packet.payloadDelay pkt)))
       else if bool_decide (Packet.cmd pkt = MemCmd.UpgradeFailResp) then
         assert_ (bool_decide (Packet.cmd tgt_pkt = MemCmd.StoreCondReq)
                  || bool_decide (Packet.cmd tgt_pkt = MemCmd.StoreCondFailReq)
                  || bool_decide (Packet.cmd tgt_pkt = MemCmd.SCUpgradeFailReq));;
         mret (Packet.with_req tgt_pkt (setExtraData (Packet.req tgt_pkt) 0), s, u64 (done_at + Packet.payloadDelay pkt))
       else
         tgt_pkt ←
           (if Packet.isRead pkt && negb is_error then
              a ← Packet.getAddr pkt; a' ← Packet.getAddr tgt_pkt;
              assert_ (a =? a');;
              n ← Packet.getSize pkt; n' ← Packet.getSize tgt_pkt;
              assert_ (n' <=? n);;
              d ← Packet.getPtr pkt;
              Packet.setData tgt_pkt d
            else mret tgt_pkt);
         mret (tgt_pkt, s, u64 (done_at + Packet.payloadDelay pkt)));
    tgt_pkt ← Packet.makeResponse tgt_pkt;
    tgt_pkt ← (if is_error then Packet.copyError tgt_pkt pkt else mret tgt_pkt);
    tgt_pkt ←
      (if bool_decide (Packet.cmd tgt_pkt = MemCmd.ReadResp) then
         inval ← (if is_invalidate r then mret true else MSHR.hasPostInvalidate (mshr r));
         mret (if (inval : bool) then Packet.with_cmd tgt_pkt MemCmd.ReadRespWithInvalidate else tgt_pkt)
       else mret tgt_pkt);
    s ← schedTimingResp now (Packet.with_delays tgt_pkt 0 0) completion_time s;
    mret (with_cache s r).

(** One target of the register. *)
Definition serve_target (pkt : Packet) (is_error : bool) (initial_offset : Z) (t : MSHR.Target) (r : Resp) : res Resp :=
  match MSHR.source t with
  | MSHR.FromCPU => answer_target pkt is_error initial_offset (MSHR.pkt t) r
  | MSHR.FromPrefetcher =>
      assert_ (bool_decide (Packet.cmd (MSHR.pkt t) = MemCmd.HardPFReq));;
      match blk r with
      | None => mret r
      | Some p => b ← Cache.get_blk (core (cache r)) p;
                  mret (with_cache (set_core (Cache.put_blk p (or_status BlkHWPrefetched b) (core (cache r))) (cache r)) r)
      end
  | MSHR.FromSnoop =>
      assert_ (negb is_error);;
      inval ← MSHR.hasPostInvalidate (mshr r);
      assert_ (negb (is_invalidate r && negb inval));;
      '(_, _, s, m) ← handleSnoop (MSHR.pkt t) (blk r) true true inval (cache r) (mem r);
      mret (mkResp s m (mshr r) (blk r) (writebacks r) (is_fill r) (is_invalidate r))
  end.

(** [while (mshr->hasTargets())]: every round removes a target, and a fill moves the
    deferred targets to the end at most once. *)
Fixpoint serve_targets (fuel : nat) (pkt : Packet) (is_error : bool) (initial_offset : Z) (r : Resp) : res Resp :=
  match MSHR.elems (MSHR.targets (mshr r)), fuel with
  | [], _ => mret r
  | t :: _, S fuel =>
      r ← serve_target pkt is_error initial_offset t r;
      e ← MSHR.popTarget (mshr r);
      serve_targets fuel pkt is_error initial_offset (with_mshr e r)
  | _ :: _, O => Err UB
  end.

(** The state of the block after the targets have been served. *)
Definition settle_block (r : Resp) : res Resp :=
  b ← get_opt (core (cache r)) (blk r);
  match blk r, b with
  | Some p, Some b =>
      if isValid b then
        inval ← (if is_invalidate r then mret true else MSHR.hasPostInvalidate (mshr r));
        if (inval : bool) then
          assert_ (match p with Cache.InTags _ => true | Cache.Temp => false end);;
          c ← invalidate_blk p (core (cache r));
          mret (with_cache (set_core c (cache r)) r)
        else
          down ← MSHR.hasPostDowngrade (mshr r);
          mret (if (down : bool)
                then with_cache (set_core (Cache.put_blk p (clear_status BlkWritable b) (core (cache r))) (cache r)) r else r)
      else mret r
  | _, _ => mret r
  end.

(** The register is sent again for its deferred targets, or freed. *)
Definition settle_mshr (ptr : mshrptr) (wasFull : bool) (pkt : Packet) (r : Resp) : res TimingCache :=
  '(more, e) ← MSHR.promoteDeferredTargets now (mshr r);
  let s := set_queue_of ptr (MSHRQueue.put (index_of ptr) e (queue_of ptr (cache r))) (cache r) in
  if (more : bool) then
    s ← (match blk r with
         | None => mret s
         | Some p => b ← Cache.get_blk (core s) p; mret (set_core (Cache.put_blk p (clear_status BlkReadable b) (core s)) s)
         end);
    q ← MSHRQueue.markPending (index_of ptr) (queue_of ptr s);
    schedMemSideSendEvent now (u64 (edge + Packet.payloadDelay pkt)) (set_queue_of ptr q s)
  else
    q ← MSHRQueue.deallocate (index_of ptr) (queue_of ptr s);
    let s := set_queue_of ptr q s in
    if wasFull && negb (MSHRQueue.isFull q) then clearBlocked now (MSHRQueue.index q) s else mret s.

(** The temporary block is written back or dropped. *)
Definition settle_temp (forward_time : Z) (blk : option Cache.blkptr) (s : TimingCache) (m : M) : res (TimingCache * M) :=
  match blk with
  | Some Cache.Temp =>
      let b := Cache.tempBlock (core s) in
      if isValid b then
        '(s, m) ←
          (if isDirty b then
             '(c, wbPkt) ← Cache.writebackBlk now Cache.Temp (core s);
             let s := set_core c s in
             '(i, s) ← allocateWriteBuffer now wbPkt forward_time s;
             '(above, m) ← isCachedAbove (core s) m wbPkt;
             e ← MSHRQueue.get (writeBuffer s) i;
             mret (if (above : bool) then set_writeBuffer (MSHRQueue.put i (set_first (setBlockCached wbPkt) e) (writeBuffer s)) s
                   else s, m)
           else
             '(c, wcPkt) ← Cache.cleanEvictBlk now Cache.Temp (core s);
             let s := set_core c s in
             '(above, m) ← isCachedAbove (core s) m wcPkt;
             if (above : bool) then mret (s, m)
             else '(_, s) ← allocateWriteBuffer now wcPkt forward_time s; mret (s, m));
        mret (set_core (Cache.set_tempBlock (Blk.invalidate (Cache.tempBlock (core s))) (core s)) s, m)
      else mret (s, m)
  | _ => mret (s, m)
  end.

(** [recvTimingResp(pkt)] *)
Definition recvTimingResp (pkt : Packet) (s : TimingCache) (m : M) : res (TimingCache * M) :=
  assert_ (Packet.isResponse pkt);;
  panic_if (negb (Packet.headerDelay pkt =? 0) && negb (bool_decide (Packet.cmd pkt = MemCmd.HardPFResp)));;
  ptr ← (match Packet.senderState pkt with
         | z :: _ => if 0 <=? z then mret (mshr_of z) else Err Assert
         | [] => Err Assert
         end);
  let is_error := Packet.isError pkt in
  let wasFull := MSHRQueue.isFull (queue_of ptr s) in
  s ← (match ptr with
       | Miss i => if bool_decide (noTargetMSHR s = Some i)
                   then s ← clearBlocked now Blocked_NoTargets s; mret (set_noTargetMSHR None s) else mret s
       | Write _ => mret s
       end);
  e ← MSHRQueue.get (queue_of ptr s) (index_of ptr);
  initial_tgt ← MSHR.getTarget e;
  a ← Packet.getAddr pkt;
  secure ← Packet.isSecure pkt;
  b ← Tags.findBlock (Cache.tags (core s)) a secure;
  let forward_time := u64 (clockEdge s edge (forwardLatency s) + Packet.headerDelay pkt) in
  _ ← Cache.count_master (core s) pkt;
  let is_fill := negb (MSHR.isForward e) && (Packet.isRead pkt || bool_decide (Packet.cmd pkt = MemCmd.UpgradeResp)) in
  let r := mkResp s m e (Cache.InTags <$> b) [] is_fill (Packet.isInvalidate pkt) in
  r ← (if is_fill && negb is_error then fill pkt r else mret r);
  initial_offset ← Packet.getOffset (MSHR.pkt initial_tgt) (Cache.blkSize (core s));
  r ← serve_targets (Z.to_nat (MSHR.getNumTargets e)) pkt is_error initial_offset r;
  r ← settle_block r;
  s ← settle_mshr ptr wasFull pkt r;
  '(s, m) ← doWritebacks now (writebacks r) forward_time s (mem r);
  settle_temp forward_time (blk r) s m.

(** [recvTimingSnoopResp(pkt)] *)
Definition recvTimingSnoopResp (pkt : Packet) (s : TimingCache) (m : M) : res (TimingCache * M) :=
  assert_ (Packet.isResponse pkt);;
  assert_ (negb (Cache.bypassCaches (core s)));;
  match Packet.senderState pkt with
  | z :: st =>
      if z =? ForwardResponseRecord then
        let snoop_resp_time := u64 (clockEdge s edge (forwardLatency s) + Packet.headerDelay pkt) in
        s ← schedTimingSnoopResp now (Packet.with_delays (Packet.with_senderState pkt st) 0 0) snoop_resp_time false s;
        mret (s, m)
      else
        assert_ (bool_decide (Packet.cmd pkt = MemCmd.HardPFResp));;
        recvTimingResp pkt s m
  | [] =>
      assert_ (bool_decide (Packet.cmd pkt = MemCmd.HardPFResp));;
      recvTimingResp pkt s m
  end.

End responses.

(** ** Functional accesses *)

(** [TargetList::checkFunctional(pkt)] and [MSHR::checkFunctional(pkt)] *)
Fixpoint check_targets (pkt : Packet) (l : list MSHR.Target) : res (bool * Packet * list MSHR.Target) :=
  match l with
  | [] => mret (false, pkt, [])
  | t :: l =>
      '(done, pkt, other) ← Packet.checkFunctional_pkt pkt (MSHR.pkt t);
      let t := MSHR.mkTarget (MSHR.recvTime t) (MSHR.t_readyTime t) (MSHR.t_order t) other (MSHR.source t) in
      if (done : bool) then mret (true, pkt, t :: l)
      else '(done, pkt, l) ← check_targets pkt l; mret (done, pkt, t :: l)
  end.
Definition check_list (pkt : Packet) (l : MSHR.TargetList) : res (bool * Packet * MSHR.TargetList) :=
  '(done, pkt, ts) ← check_targets pkt (MSHR.elems l);
  mret (done, pkt, MSHR.mkList ts (MSHR.needsExclusive l) (MSHR.hasUpgrade l)).
Definition check_mshr (pkt : Packet) (e : MSHR.MSHR) : res (bool * Packet * MSHR.MSHR) :=
  if Packet.isPrint pkt then
    '(_, pkt, _) ← Packet.checkFunctional pkt (MSHR.blkAddr e) (MSHR.isSecure e) (MSHR.blkSize e) None;
    mret (false, pkt, e)
  else
    '(done, pkt, l) ← check_list pkt (MSHR.targets e);
    let e := MSHR.set_targets l e in
    if (done : bool) then mret (true, pkt, e)
    else '(done, pkt, l) ← check_list pkt (MSHR.deferredTargets e); mret (done, pkt, MSHR.set_deferredTargets l e).

(** [MSHRQueue::checkFunctional(pkt, blk_addr)] *)
Fixpoint check_entries (blk_addr : Z) (l : list Z) (pkt : Packet) (q : MSHRQueue.MSHRQueue) :
    res (bool * Packet * MSHRQueue.MSHRQueue) :=
  match l with
  | [] => mret (false, pkt, q)
  | i :: l =>
      e ← MSHRQueue.get q i;
      if MSHR.blkAddr e =? blk_addr then
        '(done, pkt, e) ← check_mshr pkt e;
        let q := MSHRQueue.put i e q in
        if (done : bool) then mret (true, pkt, q) else check_entries blk_addr l pkt q
      else check_entries blk_addr l pkt q
  end.
Definition check_queue (blk_addr : Z) (pkt : Packet) (q : MSHRQueue.MSHRQueue) : res (bool * Packet * MSHRQueue.MSHRQueue) :=
  check_entries blk_addr (MSHRQueue.allocatedList q) pkt q.

(** The ports for functional accesses; [isSnooping] of the CPU side port. *)
Class FunctionalPorts (M : Type) := {
  sendFunctional : M → Packet → res (M * Packet);
  sendFunctionalSnoop : M → Packet → res (M * Packet);
  isSnooping : M → bool;
}.

Section functional.
Context {M : Type} `{!FunctionalPorts M}.

(** The block: whether it has the data, and whether that is the only copy. *)
Definition check_block (blk : option Z) (mshr : option Z) (blk_addr : Z) (is_secure : bool) (pkt : Packet) (s : TimingCache) :
    res (bool * Packet * TimingCache) :=
  match blk with
  | None => mret (false, pkt, s)
  | Some p =>
      b ← Tags.get_blk (Cache.tags (core s)) p;
      if negb (isValid b) then mret (false, pkt, s)
      else
        '(have_data, pkt, d) ← Packet.checkFunctional pkt blk_addr is_secure (Cache.blkSize (core s)) (Some (data b));
        let s := match d with
                 | Some d => set_core (Cache.set_tags (Tags.put_blk p (set_data d b) (Cache.tags (core s))) (core s)) s
                 | None => s
                 end in
        if (have_data : bool) && negb (isDirty b) then
          match mshr with
          | None => mret (false, pkt, s)
          | Some i => e ← MSHRQueue.get (mshrQueue s) i;
                      if MSHR.inService e then pd ← MSHR.isPendingDirty e; mret (pd, pkt, s) else mret (false, pkt, s)
          end
        else mret (have_data, pkt, s)
  end.

(** The chain of [||]: each buffer is asked until one is done. *)
Definition or_else (f : Packet → TimingCache → res (bool * Packet * TimingCache)) (r : bool * Packet * TimingCache) :
    res (bool * Packet * TimingCache) :=
  let '(done, pkt, s) := r in if (done : bool) then mret (true, pkt, s) else f pkt s.
Definition check_buffers (blk_addr : Z) (r : bool * Packet * TimingCache) : res (bool * Packet * TimingCache) :=
  r ← or_else (λ pkt s, '(d, pkt, h) ← PacketQueue.checkFunctional (pkts s) (respQueue s) pkt;
                        mret (d, pkt, set_respQueue (respQueue s) h s)) r;
  r ← or_else (λ pkt s, '(d, pkt, q) ← check_queue blk_addr pkt (mshrQueue s); mret (d, pkt, set_mshrQueue q s)) r;
  r ← or_else (λ pkt s, '(d, pkt, q) ← check_queue blk_addr pkt (writeBuffer s); mret (d, pkt, set_writeBuffer q s)) r;
  r ← or_else (λ pkt s, '(d, pkt, h) ← PacketQueue.checkFunctional (pkts s) (reqQueue s) pkt;
                        mret (d, pkt, set_respQueue (respQueue s) h s)) r;
  or_else (λ pkt s, '(d, pkt, h) ← PacketQueue.checkFunctional (pkts s) (snoopRespQueue s) pkt;
                    mret (d, pkt, set_respQueue (respQueue s) h s)) r.

(** [functionalAccess(pkt, fromCpuSide)] *)
Definition functionalAccess (pkt : Packet) (fromCpuSide : bool) (s : TimingCache) (m : M) : res (Packet * TimingCache * M) :=
  if Cache.bypassCaches (core s) then
    assert_ fromCpuSide;;
    '(m, pkt) ← sendFunctional m pkt;
    mret (pkt, s, m)
  else
    a ← Packet.getAddr pkt;
    let blk_addr := Cache.blockAlign (core s) a in
    is_secure ← Packet.isSecure pkt;
    blk ← Tags.findBlock (Cache.tags (core s)) a is_secure;
    let mshr := findMatch (mshrQueue s) blk_addr is_secure in
    r ← check_block blk mshr blk_addr is_secure pkt s;
    '(done, pkt, s) ← check_buffers blk_addr r;
    if (done : bool) then pkt ← Packet.makeResponse pkt; mret (pkt, s, m)
    else if fromCpuSide then '(m, pkt) ← sendFunctional m pkt; mret (pkt, s, m)
    else if Cache.forwardSnoops (core s) && isSnooping m then
      '(m, pkt) ← sendFunctionalSnoop m pkt; mret (pkt, s, m)
    else mret (pkt, s, m).

(** The request of a block that is written back functionally, of master [funcMasterId], at tick [now]. *)
Definition funcMasterId : Z := 1.
Definition func_request (now : Z) (c : Cache.Cache) (b : CacheBlk) : Request :=
  let r := Request_phys now (Tags.regenerateBlkAddr (Cache.tags c) (tag b) (Blk.set b)) (Cache.blkSize c) 0 funcMasterId in
  mkRequest (_paddr r) (_size r) (_masterId r) (_flags r) (privateFlags r) (_time r) (task_id b) (_asid r) (_vaddr r)
    (_extraData r) (_contextId r) (_threadId r) (_pc r) (translateDelta r) (accessDelta r) (depth r).

(** [writebackVisitor(blk)] and [memWriteback()] *)
Definition writebackVisitor (now : Z) (st : Cache.Cache * M) (p : Z) : res (Cache.Cache * M) :=
  let '(c, m) := st in
  b ← Tags.get_blk (Cache.tags c) p;
  if isDirty b then
    assert_ (isValid b);;
    packet ← Packet.dataStatic (Packet.new_Packet (func_request now c b) MemCmd.WriteReq) (data b);
    '(m, _) ← sendFunctional m packet;
    mret (Cache.set_tags (Tags.put_blk p (clear_status BlkDirty b) (Cache.tags c)) c, m)
  else mret (c, m).
Definition memWriteback (now : Z) (c : Cache.Cache) (m : M) : res (Cache.Cache * M) :=
  foldM (writebackVisitor now) (c, m) (seqZ 0 (Z.of_nat (length (Tags.blks (Cache.tags c))))).

(** [invalidateVisitor(blk)] and [memInvalidate()] *)
Definition invalidateVisitor (now : Z) (c : Cache.Cache) (p : Z) : res Cache.Cache :=
  b ← Tags.get_blk (Cache.tags c) p;
  if isValid b then assert_ (negb (isDirty b));; Cache.drop_blk now p c else mret c.
Definition memInvalidate (now : Z) (c : Cache.Cache) : res Cache.Cache :=
  foldM (invalidateVisitor now) c (seqZ 0 (Z.of_nat (length (Tags.blks (Cache.tags c))))).

(** [isDirty()] *)
Definition cache_isDirty (c : Cache.Cache) : bool := existsb Blk.isDirty (Tags.blks (Cache.tags c)).

End functional.

(** [serialize(cp)], the value of [bad_checkpoint], and [unserialize(cp)] *)
Definition serialize (c : Cache.Cache) : bool := cache_isDirty c.
Definition unserialize (bad_checkpoint : bool) : res unit := if bad_checkpoint then Err Fatal else mret ().

End CacheResp.
