(* ===== verification/CacheFlow.v ===== *)
(** * Write-backs and misses on their way to the memory

    The write buffer as the set of bytes that have not reached the memory yet, and the steps
    that add to it and send from it.  The memory side performs an access when it accepts the
    packet, as the simple memory does (mem/simple_mem.cc), and may refuse any packet. *)

From stdpp Require Import base gmap list list_numbers sorting.
From S2P Require Import Prelude IntMath AddrRanges Packets Events Clocked PktQueue AbstractMem CacheTags Cache CacheInv CacheAtomic MSHRQ MSHRInv CacheTiming CacheSeq CacheResp.
Import Request Blk RowOps TimingCache.
Local Open Scope Z_scope.

(** ** The registers of a queue and their packets *)

Section registers.
Context (k : Z).

(** Register [e] waits for one packet of the processor side. *)
Record reg (e : MSHR.MSHR) (pkt : Packet) : Prop := {
  rg_target : ∃ t, MSHR.elems (MSHR.targets e) = [t] ∧ MSHR.pkt t = pkt ∧ MSHR.source t = MSHR.FromCPU;
  rg_deferred : MSHR.deferredTargets e = MSHR.no_targets;
  rg_addr : MSHR.blkAddr e = Packet.addr pkt / 2 ^ k * 2 ^ k;
  rg_secure : MSHR.isSecure e = false;
  rg_uncacheable : MSHR._isUncacheable e = isUncacheable (Packet.req pkt);
  rg_exclusive : MSHR.needsExclusive (MSHR.targets e) = MemCmd.needsExclusive (Packet.cmd pkt);
}.

(** The packets of the registers that wait to be sent: all are ready from tick [T] on and
    were allocated before the order number [O]. *)
Definition waits (T O : Z) (q : MSHRQueue.MSHRQueue) (i : Z) (pkt : Packet) : Prop :=
  ∃ e, entry q i e ∧ reg e pkt ∧ MSHR.readyTime e ≤ T ∧ MSHR.order e < O.
Definition queued (T O : Z) (q : MSHRQueue.MSHRQueue) (pkts : list Packet) : Prop :=
  Forall2 (waits T O q) (MSHRQueue.readyList q) pkts.

Lemma queued_mono T T' O O' q pkts : T ≤ T' → O ≤ O' → queued T O q pkts → queued T' O' q pkts.
Proof. intros HT HO H. eapply Forall2_impl; [exact H|]. intros i pkt (e & ? & ? & ? & ?). exists e. split_and!; try done; lia. Qed.

Lemma one_target_reg now size pkt when order e0 :
  Packet.cmd pkt ≠ MemCmd.HardPFReq → Packet._isSecure pkt = false →
  reg (one_target now (Packet.addr pkt / 2 ^ k * 2 ^ k) size pkt when order e0) pkt.
Proof. intros Hc Hs. split; simpl; try done; rewrite (bool_decide_false (_ = MemCmd.HardPFReq)) by done; [by eexists|done]. Qed.

Lemma queued_enqueued T O q pkts i e0 e pkt :
  queue_ok q → queued T O q pkts → head (MSHRQueue.freeList q) = Some i → entry q i e0 → reg e pkt → MSHR.readyTime e ≤ T → MSHR.order e < O →
  queued T O (enqueued i e q) (pkts ++ [pkt]).
Proof.
  intros Hq Hl Hf He0 He Hr HO. destruct (queue_nodup q Hq) as (_ & _ & Hdis). unfold queued. cbn [MSHRQueue.readyList enqueued].
  assert (∀ j f, entry (enqueued i e q) j f ↔ j = i ∧ f = e ∨ j ≠ i ∧ entry q j f) as Hent by (intros; by apply (entry_put q i j e0 e f)).
  apply Forall2_app.
  - apply (Forall2_impl (λ j p, j ∈ MSHRQueue.readyList q ∧ waits T O q j p)).
    + apply Forall2_same_length_lookup. split; [by eapply Forall2_length|]. intros n j p Hj Hp. split; [by eapply list_elem_of_lookup_2|].
      eapply (Forall2_lookup_lr _ _ _ _ _ _ Hl); done.
    + intros j p (Hj & f & Hf' & Hrest). exists f. split; [|done]. apply Hent. right. split; [|done]. intros ->.
      apply (Hdis i); [by apply list.head_Some_elem_of|by apply (qo_ready_in q Hq)].
  - constructor; [|constructor]. exists e. split; [apply Hent; by left|done].
Qed.

(** A register leaves the ready list. *)
Lemma queued_erase T O q q' pkts i l1 l2 :
  NoDup (MSHRQueue.readyList q) → queued T O q pkts → MSHRQueue.readyList q = l1 ++ i :: l2 → MSHRQueue.readyList q' = MSHRQueue.erase i (MSHRQueue.readyList q) →
  (∀ j e, j ≠ i → entry q j e → entry q' j e) →
  ∃ p1 pkt p2, pkts = p1 ++ pkt :: p2 ∧ length p1 = length l1 ∧ waits T O q i pkt ∧ queued T O q' (p1 ++ p2).
Proof.
  intros Hd Hl El El' Hent. unfold queued in *. rewrite El in Hl, Hd. apply Forall2_app_inv_l in Hl as (p1 & pkts' & H1 & H2 & ->).
  inversion H2 as [|? pkt ? p2 Hw H3]; subst. exists p1, pkt, p2. split; [done|]. split; [symmetry; by eapply Forall2_length|].
  split; [done|]. rewrite El', El. apply NoDup_app in Hd as (_ & Hn & [Hi _]%NoDup_cons).
  unfold MSHRQueue.erase. rewrite filter_app, filter_cons_False by tauto.
  fold (MSHRQueue.erase i l1). fold (MSHRQueue.erase i l2). assert (i ∉ l1) as Hi1 by (intros Hin; apply (Hn i Hin); left).
  rewrite !erase_notin by done.
  assert (∀ l ps, i ∉ l → Forall2 (waits T O q) l ps → Forall2 (waits T O q') l ps) as Hmap.
  { intros l ps Hil HF. induction HF as [|j p l ps (f & ? & ?) _ IH]; constructor.
    - exists f. split; [|done]. apply Hent; [|done]. intros ->. apply Hil. left.
    - apply IH. intros Hin. apply Hil. by right. }
  apply Forall2_app; auto.
Qed.

Lemma queued_lookup T O q pkts i : queued T O q pkts → i ∈ MSHRQueue.readyList q → ∃ pkt, pkt ∈ pkts ∧ waits T O q i pkt.
Proof.
  intros Hl (n & Hn)%list_elem_of_lookup. destruct (Forall2_lookup_l _ _ _ _ _ Hl Hn) as (pkt & Hp & Hw).
  exists pkt. split; [by eapply list_elem_of_lookup_2|done].
Qed.

Lemma queued_entry T O q pkts pkt : queued T O q pkts → pkt ∈ pkts → ∃ i, i ∈ MSHRQueue.readyList q ∧ waits T O q i pkt.
Proof.
  intros Hl (n & Hn)%list_elem_of_lookup. destruct (Forall2_lookup_r _ _ _ _ _ Hl Hn) as (i & Hi & Hw).
  exists i. split; [by eapply list_elem_of_lookup_2|done].
Qed.

End registers.

(** ** The memory side *)

(** A memory that performs an access when it accepts it; [reply] is the response it has not
    sent yet. *)
Record Side (M : Type) := mkSide { accepts : bool; below : M; reply : option Packet }.
Arguments mkSide {M}.
Arguments accepts {M}.
Arguments below {M}.
Arguments reply {M}.

#[export] Instance side_timing {M} `{!Cache.AtomicPorts M} : TimingPorts (Side M) :=
  {| sendTimingReq := λ sd pkt,
       if accepts sd then
         '(m, r, _) ← Cache.sendAtomic (below sd) pkt;
         mret (true, mkSide true m (if Packet.needsResponse pkt then Some r else reply sd), pkt)
       else mret (false, sd, pkt);
     sendTimingSnoopReq := λ sd pkt, mret (sd, pkt) |}.
#[export] Instance side_atomic {M} `{!Cache.AtomicPorts M} : Cache.AtomicPorts (Side M) :=
  {| Cache.sendAtomic := λ sd pkt,
       '(m, r, lat) ← Cache.sendAtomic (below sd) pkt; mret (mkSide (accepts sd) m (reply sd), r, lat);
     Cache.sendAtomicSnoop := λ sd pkt, mret (sd, pkt) |}.

Section flow.
Context (k s masters : Z) {M : Type} `{!Cache.AtomicPorts M} (has : Z → Prop) `{!MemorySide M has}.

(** A packet that evicts a block. *)
Definition leaving (pkt : Packet) : Prop :=
  ∃ b, evict_pkt k s b pkt ∧ Forall (λ x, 0 ≤ x < 256) (data b) ∧ ∀ a, 0 ≤ a → a / 2 ^ k = bn s b → has a.

Lemma leaving_facts pkt : leaving pkt →
  (∃ d, func_wf pkt d) ∧ Packet.size pkt = 2 ^ k ∧ (∃ x, Packet.addr pkt = x * 2 ^ k) ∧
  (Packet.cmd pkt = MemCmd.Writeback ∨ Packet.cmd pkt = MemCmd.CleanEvict) ∧ Packet._isSecure pkt = false ∧ isUncacheable (Packet.req pkt) = false.
Proof using Type.
  intros (b & [Hc (d & Hwf & _) [Ha Hs] _ [Hse Hu]] & _). split; [by exists d|]. split; [done|]. split; [by exists (bn s b)|].
  split; [|done]. destruct (isDirty b); auto.
Qed.

(** The bytes an eviction brings to the memory. *)
Definition carries (pkt : Packet) (a : Z) : Prop :=
  Packet.cmd pkt = MemCmd.Writeback ∧ Packet.addr pkt ≤ a < Packet.addr pkt + Packet.size pkt.
Definition pkt_byte (pkt : Packet) (a : Z) : Z := default 0 (default [] (Packet.data pkt) !! Z.to_nat (a - Packet.addr pkt)).
Definition stored (pkt : Packet) (mb mb' : Z → Z) : Prop :=
  ∀ a, (carries pkt a → mb' a = pkt_byte pkt a) ∧ (¬ carries pkt a → mb' a = mb a).

Lemma evicted_stored b pkt mb mb' :
  evict_pkt k s b pkt → (if isDirty b then wrote pkt (data b) mb mb' else ∀ a, mb' a = mb a) → stored pkt mb mb'.
Proof using Type.
  intros [Hc (d & Hwf & Hd) _ _ _] Hw a. unfold carries, pkt_byte. rewrite Hc, (fw_data _ _ Hwf). simpl. destruct (isDirty b).
  - rewrite Hd by done. rewrite Hw. split; intros Hx; [by rewrite decide_True by apply Hx|rewrite decide_False; [done|tauto]].
  - rewrite Hw. by split; [intros [? _]|].
Qed.

Lemma side_evict sd pkt l :
  2 ≤ k → mem_ok (below sd) → accepts sd = true → leaving pkt →
  ∃ m, sendTimingReq sd (Packet.with_senderState pkt l) = Ok (true, mkSide true m (reply sd), Packet.with_senderState pkt l) ∧
    mem_ok m ∧ stored pkt (mem_byte (below sd)) (mem_byte m).
Proof using Type.
  intros Hk Hm Hacc (b & Hpkt & Hby & Hhas). pose proof Hpkt as [Hcmd (d & Hwf & Hd) [Ea En] (Hi & Hro & Hf & Hpa) _]. set (pkt1 := Packet.with_senderState pkt l).
  pose proof (fw_range _ _ Hwf) as (_ & Ha & _). pose proof (pow_pos k ltac:(lia)). assert (0 ≤ bn s b) as Hbn by nia.
  assert (plain_req has pkt1 d) as Hq.
  { split; try done; [by destruct Hwf| |by eexists]. intros a Hin. change (Packet.addr pkt1) with (Packet.addr pkt) in Hin.
    change (Packet.size pkt1) with (Packet.size pkt) in Hin. rewrite Ea, En in Hin. apply (block_range k (bn s b) a Hk Hbn) in Hin as [Hp Hp2]. by apply Hhas. }
  assert (Packet.needsResponse pkt1 = false) as Hnr by (unfold Packet.needsResponse; change (Packet.cmd pkt1) with (Packet.cmd pkt); rewrite Hcmd; by destruct (isDirty b)).
  unfold sendTimingReq, side_timing. rewrite Hacc, Hnr.
  assert (∃ m r lat, Cache.sendAtomic (below sd) pkt1 = Ok (m, r, lat) ∧ mem_ok m ∧
    if isDirty b then wrote pkt (data b) (mem_byte (below sd)) (mem_byte m) else ∀ a, mem_byte m a = mem_byte (below sd) a) as (m & r & lat & E & Hm' & Hw).
  { destruct (isDirty b) eqn:Ed; [rewrite (Hd eq_refl) in Hq; by apply (mem_writeback _ pkt1)|by apply (mem_cleanEvict _ pkt1 d)]. }
  rewrite E. cbn [mbind res_mbind]. exists m. split; [done|]. split; [done|]. by eapply evicted_stored.
Qed.

(** [mb'] is the memory [mb] once the packets have reached it, in any order. *)
Definition flushes (pkts : list Packet) (mb mb' : Z → Z) : Prop :=
  ∀ a, (∀ pkt, pkt ∈ pkts → carries pkt a → mb' a = pkt_byte pkt a) ∧ ((∀ pkt, pkt ∈ pkts → ¬ carries pkt a) → mb' a = mb a).

Lemma carries_dec pkt a : Decision (carries pkt a).
Proof using Type. unfold carries. apply _. Defined.

Lemma flushes_nil mb mb' : flushes [] mb mb' ↔ ∀ a, mb' a = mb a.
Proof using Type.
  split; [intros Hf a; apply Hf; by intros ? ?%elem_of_nil|]. intros E a. split; [by intros ? ?%elem_of_nil|done].
Qed.

Lemma flushes_sent p1 pkt p2 mb mb1 mb' : flushes (p1 ++ pkt :: p2) mb mb' → stored pkt mb mb1 → flushes (p1 ++ p2) mb1 mb'.
Proof using Type.
  intros Hf Hs a. destruct (Hf a) as [H1 H2], (Hs a) as [H3 H4]. split.
  - intros q Hq. apply H1. revert Hq. rewrite !elem_of_app, elem_of_cons. tauto.
  - intros Hn. destruct (carries_dec pkt a) as [Hc|Hc].
    + rewrite H3 by done. apply H1; [|done]. rewrite elem_of_app, elem_of_cons. tauto.
    + rewrite H4 by done. apply H2. intros q Hq. revert Hq. rewrite elem_of_app, elem_of_cons. intros [Hq|[->|Hq]]; [|done|];
        apply Hn; rewrite elem_of_app; tauto.
Qed.

Lemma leaving_disjoint p q a : leaving p → leaving q → Packet.addr p ≠ Packet.addr q → carries p a → ¬ carries q a.
Proof using Type.
  intros (_ & Es & (x & Ea) & _)%leaving_facts (_ & Es' & (y & Ea') & _)%leaving_facts Hne [_ Hp] [_ Hq]. apply Hne. rewrite Ea, Ea', Es, Es' in *.
  assert (x = y) as -> by nia. done.
Qed.

Lemma flushes_snoc l pkt mb mb1 mb2 :
  flushes l mb mb1 → leaving pkt → (∀ q, q ∈ l → leaving q ∧ Packet.addr q ≠ Packet.addr pkt) → stored pkt mb1 mb2 → flushes (l ++ [pkt]) mb mb2.
Proof using Type.
  intros Hf Hl Hq Hs a. destruct (Hf a) as [H1 H2], (Hs a) as [H3 H4]. split.
  - intros q Hin Hc. apply elem_of_app in Hin as [Hin| ->%list_elem_of_singleton]; [|by apply H3].
    destruct (Hq q Hin) as [Hlq Hne]. rewrite H4; [by apply H1|]. by eapply (leaving_disjoint q pkt).
  - intros Hn. rewrite H4; [apply H2|]; intros; apply Hn; apply elem_of_app; [by left|right; by apply list_elem_of_singleton].
Qed.

Lemma evictions_leaving wbs mb mb' : evictions k s has wbs mb mb' → ∀ pkt, pkt ∈ wbs → leaving pkt.
Proof using Type.
  induction 1 as [mb|pkts mb mb1 mb2 pkt b _ IH Hp Hby Hhas _]; [by intros ? ?%elem_of_nil|].
  intros q [Hq| ->%list_elem_of_singleton]%elem_of_app; [auto|by exists b].
Qed.

Lemma flushes_evictions l wbs mb mb1 mb2 :
  flushes l mb mb1 → evictions k s has wbs mb1 mb2 → (∀ q, q ∈ l → leaving q) → NoDup (Packet.addr <$> wbs) →
  (∀ q wb, q ∈ l → wb ∈ wbs → Packet.addr q ≠ Packet.addr wb) → flushes (l ++ wbs) mb mb2.
Proof using Type.
  intros Hf Hev Hl. induction Hev as [mb1|pkts mb1 mb2 mb3 pkt b Hev IH Hp Hby Hhas Hw]; intros Hd Hne; [by rewrite app_nil_r|].
  rewrite fmap_app in Hd. apply NoDup_app in Hd as (Hd & Hn & _). rewrite app_assoc. eapply flushes_snoc; [apply IH; [done|done|]|by exists b| |by eapply evicted_stored].
  - intros q wb Hq Hwb. apply Hne; [done|]. apply elem_of_app. by left.
  - intros q [Hq|Hq]%elem_of_app.
    + split; [auto|]. apply Hne; [done|]. apply elem_of_app. right. by apply list_elem_of_singleton.
    + split; [by eapply evictions_leaving|]. intros E. apply (Hn (Packet.addr q)); [by apply list_elem_of_fmap_2|]. rewrite E. apply list_elem_of_singleton. done.
Qed.

(** ** Evictions enter the write buffer *)

(** What stays the same when registers of the write buffer are allocated. *)
Record grown (st st' : TimingCache) : Prop := {
  gr_rest : rest st' = rest st;
  gr_miss : mshrQueue st' = mshrQueue st;
  gr_retry : PacketQueue.waitingOnRetry (reqQueue st') = PacketQueue.waitingOnRetry (reqQueue st);
  gr_service : MSHRQueue.inServiceEntries (writeBuffer st') = MSHRQueue.inServiceEntries (writeBuffer st);
  gr_size : MSHRQueue.numEntries (writeBuffer st') = MSHRQueue.numEntries (writeBuffer st) ∧
    MSHRQueue.numReserve (writeBuffer st') = MSHRQueue.numReserve (writeBuffer st);
  gr_event : sendRetryEvent st = None → sendRetryEvent st' = None;
}.
Lemma grown_refl st : grown st st.
Proof using Type. by split. Qed.
Lemma grown_trans st1 st2 st3 : grown st1 st2 → grown st2 st3 → grown st1 st3.
Proof using Type. intros [A1 A2 A3 A4 [A5 A6] A7] [B1 B2 B3 B4 [B5 B6] B7]. split; [congruence..|split; congruence|auto]. Qed.

Lemma rest_core st st' : rest st' = rest st → core st' = core st.
Proof using Type. unfold rest. by intros [=]. Qed.

(** A write into the write buffer. *)
Lemma allocateWriteBuffer_ok now T O pkt d st pkts :
  0 ≤ now < MaxTick → T ≠ MaxTick → order st < O < 2 ^ 64 → cache_ok k s (core st) → base_ok now st → queued k T O (writeBuffer st) pkts →
  func_wf pkt d → Packet._isSecure pkt = false → Packet.isWrite pkt && negb (Packet.isRead pkt) = true → Packet.cmd pkt ≠ MemCmd.HardPFReq →
  MSHRQueue.freeList (writeBuffer st) ≠ [] → 0 ≤ order st →
  ∃ i st', allocateWriteBuffer now pkt T st = Ok (i, st') ∧ base_ok now st' ∧ grown st st' ∧ order st' = order st + 1 ∧
    queued k T O (writeBuffer st') (pkts ++ [pkt]) ∧ length (MSHRQueue.freeList (writeBuffer st')) = pred (length (MSHRQueue.freeList (writeBuffer st))).
Proof using Type.
  intros Hnow HT HO Hc Hb Hq Hwf Hsec Hw Hcmd Hfree Ho. pose proof (tk_geo _ _ _ (ck_tags _ _ _ Hc)) as Hg. pose proof (geo_range _ _ _ Hg) as (Hk & _).
  pose proof (pow_pos k ltac:(lia)). pose proof (fw_range _ _ Hwf) as (Hs0 & Ha & Ha64). pose proof (Z.mod_pos_bound (Packet.addr pkt) (2 ^ k)).
  pose proof (Z.div_mod (Packet.addr pkt) (2 ^ k)). assert (0 ≤ Packet.addr pkt / 2 ^ k) by (apply Z.div_pos; lia).
  unfold allocateWriteBuffer. destruct (ck_plain _ _ _ Hc) as (-> & _). rewrite Hw, (getAddr_ok _ d Hwf). cbn [negb orb check mbind res_mbind].
  rewrite (blockAlign_ok k s (core st)) by (done || lia).
  destruct (allocateBuffer_ok now (Write 0) (Packet.addr pkt / 2 ^ k * 2 ^ k) (Cache.blkSize (core st)) pkt T st) as (i & e0 & st' & -> & Hb' & R & Eo & Hi & He0 & Eq & Eq2 & Ew & Hev);
    try done.
  { rewrite (blockAlign_ok k s (core st)) by (done || lia). by rewrite Z.div_mul by lia. } { apply Hwf. }
  { intros j f Hj Hf. destruct (queued_lookup k T O _ _ j Hq Hj) as (p & _ & f' & Hf' & _ & Ht & _). by rewrite (entry_fun _ _ _ _ Hf Hf'). }
  cbn [mbind res_mbind queue_of other] in *. rewrite wrap_small in Eo by lia. exists i, st'. split; [done|]. split; [done|].
  split; [split; [done|done|done|by rewrite Eq|by rewrite Eq|done]|]. split; [done|]. rewrite Eq. split.
  - eapply queued_enqueued; [apply Hb|done|done|done|by apply one_target_reg|simpl; lia|simpl; lia].
  - simpl. by destruct (MSHRQueue.freeList (writeBuffer st)).
Qed.

Lemma leaving_write pkt : leaving pkt → Packet.isWrite pkt && negb (Packet.isRead pkt) = true ∧ Packet.cmd pkt ≠ MemCmd.HardPFReq.
Proof using Type. intros (_ & _ & _ & Hc & _)%leaving_facts. unfold Packet.isWrite, Packet.isRead. by destruct Hc as [->| ->]. Qed.

Lemma do_writeback_plain now T st (sd : Side M) pkt :
  Cache.forwardSnoops (core st) = false → do_writeback now T (st, sd) pkt = ('(_, st) ← allocateWriteBuffer now pkt T st; mret (st, sd)).
Proof using Type. intros E. unfold do_writeback, isCachedAbove. rewrite E. done. Qed.

Lemma doWritebacks_ok now T wbs (sd : Side M) st pkts :
  0 ≤ now < MaxTick → T ≠ MaxTick → 0 ≤ order st → order st + Z.of_nat (length wbs) < 2 ^ 64 → cache_ok k s (core st) → base_ok now st →
  queued k T (order st) (writeBuffer st) pkts → (∀ pkt, pkt ∈ wbs → leaving pkt) → (length wbs ≤ length (MSHRQueue.freeList (writeBuffer st)))%nat →
  ∃ st', doWritebacks now wbs T st sd = Ok (st', sd) ∧ base_ok now st' ∧ grown st st' ∧ order st' = order st + Z.of_nat (length wbs) ∧
    queued k T (order st') (writeBuffer st') (pkts ++ wbs) ∧
    (length (MSHRQueue.freeList (writeBuffer st')) = length (MSHRQueue.freeList (writeBuffer st)) - length wbs)%nat.
Proof using Type.
  intros Hnow HT. unfold doWritebacks. revert st pkts. induction wbs as [|pkt wbs IH]; intros st pkts Ho Ho2 Hc Hb Hq Hl Hfree.
  { exists st. rewrite app_nil_r. split; [done|]. split; [done|]. split; [apply grown_refl|]. simpl. split; [lia|]. split; [done|lia]. }
  assert (leaving pkt) as Hp by (apply Hl; left). destruct (leaving_facts pkt Hp) as ((d & Hwf) & _ & _ & _ & Hsec & _). destruct (leaving_write pkt Hp) as [Hw Hcmd].
  cbn [foldM]. rewrite (do_writeback_plain now T st sd pkt) by apply Hc. simpl in Ho2, Hfree.
  destruct (allocateWriteBuffer_ok now T (order st + 1) pkt d st pkts) as (i & st1 & -> & Hb1 & Hg1 & Eo1 & Hq1 & Ef1); try done; [lia|by eapply queued_mono; [..|exact Hq]; lia| |].
  { by destruct (MSHRQueue.freeList (writeBuffer st)); [simpl in Hfree; lia|]. }
  cbn [mbind res_mbind]. destruct (IH st1 (pkts ++ [pkt])) as (st' & E & Hb' & Hg' & Eo' & Hq' & Ef'); try done; [lia|lia|by rewrite (rest_core _ _ (gr_rest _ _ Hg1))|by rewrite Eo1|by intros q Hin; apply Hl; right|lia|].
  exists st'. split; [done|]. split; [done|]. split; [by eapply grown_trans|]. rewrite <- app_assoc in Hq'. simpl. split; [lia|]. split; [done|]. lia.
Qed.

(** ** The register that is sent next *)

Lemma find_pending_ok regs blk q l :
  MSHRQueue.registers q = regs → (∀ i, i ∈ l → ∃ e, entry q i e) →
  ∃ r, MSHRQueue.find_pending regs blk false l = Ok r ∧
    match r with
    | Some i => i ∈ l
    | None => ∀ i e, i ∈ l → entry q i e → MSHR.isSecure e = false → MSHR.blkAddr e ≠ blk
    end.
Proof using Type.
  intros <- Hl. induction l as [|i l IH]; [exists None; split; [done|by intros ? ? ?%elem_of_nil]|].
  destruct (Hl i ltac:(left)) as (e & He). cbn [MSHRQueue.find_pending]. change (at_ (MSHRQueue.registers q) i) with (MSHRQueue.get q i).
  rewrite (get_entry _ _ _ He). cbn [mbind res_mbind]. destruct (_ && _) eqn:Em; [exists (Some i); split; [done|left]|].
  destruct IH as (r & -> & Hr); [by intros j Hj; apply Hl; right|]. exists r. split; [done|]. destruct r as [j|]; [by right|].
  intros j f [->|Hj]%elem_of_cons Hf Hs; [|by eapply Hr]. rewrite (entry_fun _ _ _ _ Hf He) in *. rewrite Hs in Em. simpl in Em.
  rewrite andb_true_r in Em. by apply Z.eqb_neq.
Qed.

Lemma queued_all T O q pkts i : queued k T O q pkts → i ∈ MSHRQueue.readyList q → ∃ e, entry q i e.
Proof using Type. intros Hq Hi. destruct (queued_lookup k T O q pkts i Hq Hi) as (pkt & _ & e & He & _). by exists e. Qed.

Lemma getNext_nil now q : MSHRQueue.readyList q = [] → MSHRQueue.getNextMSHR now q = Ok None.
Proof using Type. unfold MSHRQueue.getNextMSHR. by intros ->. Qed.
Lemma getNext_cons now q i l e :
  MSHRQueue.readyList q = i :: l → entry q i e → MSHRQueue.getNextMSHR now q = Ok (if now <? MSHR.readyTime e then None else Some i).
Proof using Type. unfold MSHRQueue.getNextMSHR. intros -> He. by rewrite (get_entry _ _ _ He). Qed.

Lemma getNext_ok now T O q pkts : queued k T O q pkts →
  ∃ r, MSHRQueue.getNextMSHR now q = Ok r ∧ match r with Some i => ∃ l, MSHRQueue.readyList q = i :: l | None => True end.
Proof using Type.
  intros Hq. destruct (MSHRQueue.readyList q) as [|i l] eqn:E; [exists None; by rewrite getNext_nil|].
  destruct (queued_all T O q pkts i Hq) as (e & He); [rewrite E; left|]. rewrite (getNext_cons now q i l e) by done.
  eexists. split; [reflexivity|]. destruct (now <? MSHR.readyTime e); [done|by exists l].
Qed.

(** Without a miss it is the first of the write buffer. *)
Lemma next_write now T O st pkts :
  MSHRQueue.readyList (mshrQueue st) = [] → queued k T O (writeBuffer st) pkts →
  ∃ r, getNextMSHR now st = Ok r ∧ match r with Some p => ∃ w l, p = Write w ∧ MSHRQueue.readyList (writeBuffer st) = w :: l | None => True end.
Proof using Type.
  intros Em Hq. unfold getNextMSHR. rewrite (getNext_nil now _ Em). cbn [mbind res_mbind].
  destruct (getNext_ok now T O _ _ Hq) as (r & -> & Hr). cbn [mbind res_mbind]. rewrite (bool_decide_true (None = None)), orb_true_r by done.
  destruct r as [w|]; [|by exists None]. destruct Hr as (l & El). destruct (queued_all T O _ _ w Hq) as (e & He); [rewrite El; left|].
  rewrite (get_entry _ _ _ He). cbn [mbind res_mbind]. unfold MSHRQueue.findPending. rewrite Em. cbn [MSHRQueue.find_pending mbind res_mbind mret res_mret].
  eexists. split; [reflexivity|]. by exists w, l.
Qed.

(** With a miss, which comes after the evictions of its block. *)
Lemma next_miss now T O st i l e pkt :
  MSHRQueue.readyList (mshrQueue st) = [i] → entry (mshrQueue st) i e → reg k e pkt → O ≤ MSHR.order e →
  queued k T O (writeBuffer st) l → MSHRQueue.isFull (writeBuffer st) = false →
  ∃ r, getNextMSHR now st = Ok r ∧
    match r with
    | Some (Write w) => w ∈ MSHRQueue.readyList (writeBuffer st)
    | Some (Miss j) => j = i ∧ ∀ q, q ∈ l → Packet.addr q / 2 ^ k * 2 ^ k ≠ MSHR.blkAddr e
    | None => True
    end.
Proof using Type.
  intros Em He Hreg HO Hq Hfull. unfold getNextMSHR. rewrite (getNext_cons now _ _ _ _ Em He). cbn [mbind res_mbind].
  destruct (getNext_ok now T O _ _ Hq) as (r & -> & Hr). cbn [mbind res_mbind]. rewrite Hfull. cbn [andb orb].
  destruct (now <? MSHR.readyTime e).
  - rewrite (bool_decide_true (None = None)) by done. destruct r as [w|]; [|by exists None]. destruct Hr as (l' & El).
    assert (w ∈ MSHRQueue.readyList (writeBuffer st)) as Hw by (rewrite El; left).
    destruct (queued_lookup k T O _ _ w Hq Hw) as (p & _ & f & Hf & Hregf & _ & Hof). rewrite (get_entry _ _ _ Hf). cbn [mbind res_mbind].
    unfold MSHRQueue.findPending. rewrite Em, (rg_secure _ _ _ Hregf).
    destruct (find_pending_ok (MSHRQueue.registers (mshrQueue st)) (MSHR.blkAddr f) (mshrQueue st) [i] eq_refl) as (c & -> & Hc);
      [intros j ->%list_elem_of_singleton; by exists e|]. cbn [mbind res_mbind].
    destruct c as [j|]; [|by exists (Some (Write w))]. apply list_elem_of_singleton in Hc as ->. rewrite (get_entry _ _ _ He). cbn [mbind res_mbind].
    rewrite (proj2 (Z.ltb_ge _ _)) by lia. by exists (Some (Write w)).
  - rewrite (bool_decide_false (Some i = None)) by done.
    assert (∃ c, MSHRQueue.findPending (writeBuffer st) (MSHR.blkAddr e) (MSHR.isSecure e) = Ok c ∧
      match c with Some j => j ∈ MSHRQueue.readyList (writeBuffer st)
      | None => ∀ j f, j ∈ MSHRQueue.readyList (writeBuffer st) → entry (writeBuffer st) j f → MSHR.isSecure f = false → MSHR.blkAddr f ≠ MSHR.blkAddr e end) as (c & Ec & Hc).
    { unfold MSHRQueue.findPending. rewrite (rg_secure _ _ _ Hreg). apply find_pending_ok; [done|]. intros j Hj. by eapply queued_all. }
    assert (∃ r', (e0 ← MSHRQueue.get (mshrQueue st) i; conflict ← MSHRQueue.findPending (writeBuffer st) (MSHR.blkAddr e0) (MSHR.isSecure e0);
      mret (Some (match conflict with Some j => Write j | None => Miss i end))) = Ok r' ∧
      match r' with Some (Write w) => w ∈ MSHRQueue.readyList (writeBuffer st)
      | Some (Miss j) => j = i ∧ ∀ q, q ∈ l → Packet.addr q / 2 ^ k * 2 ^ k ≠ MSHR.blkAddr e | None => True end) as Hgoal.
    { rewrite (get_entry _ _ _ He). cbn [mbind res_mbind]. rewrite Ec. cbn [mbind res_mbind]. destruct c as [j|]; [by exists (Some (Write j))|].
      exists (Some (Miss i)). split; [done|]. split; [done|]. intros q Hqin. destruct (queued_entry k T O _ _ q Hq Hqin) as (j & Hj & f & Hf & Hregf & _).
      rewrite <- (rg_addr _ _ _ Hregf). apply (Hc j); [done|done|apply Hregf]. }
    destruct r; exact Hgoal.
Qed.

(** ** Sending *)

(** Every register that waits is ready by [T]. *)
Definition early (T : Z) (q : MSHRQueue.MSHRQueue) : Prop :=
  ∀ i, i ∈ MSHRQueue.readyList q → ∃ e, entry q i e ∧ MSHR.readyTime e ≤ T.

Lemma queued_early T O q pkts : queued k T O q pkts → early T q.
Proof using Type. intros Hq i Hi. destruct (queued_lookup k T O q pkts i Hq Hi) as (pkt & _ & e & He & _ & Ht & _). by exists e. Qed.

Lemma nextReady_ok T q : early T q → ∃ t, MSHRQueue.nextMSHRReadyTime q = Ok t ∧ (MSHRQueue.readyList q ≠ [] → t ≤ T).
Proof using Type.
  intros Hq. unfold MSHRQueue.nextMSHRReadyTime, early in *. destruct (MSHRQueue.readyList q) as [|i l]; [by eexists|].
  destruct (Hq i ltac:(left)) as (e & He & Ht). rewrite (get_entry _ _ _ He). by eexists.
Qed.

(** What a send leaves alone. *)
Record kept (st st' : TimingCache) : Prop := {
  kp_rest : rest st' = rest st;
  kp_order : order st' = order st;
}.

(** The end of a send: the event is scheduled for the registers that still wait. *)
Lemma finish_send now T st (sd : Side M) :
  0 ≤ now < MaxTick → T < MaxTick → idle_ok now st → PacketQueue.waitingOnRetry (reqQueue st) = false →
  early T (mshrQueue st) → early T (writeBuffer st) →
  ∃ q, (t ← nextMSHRReadyTime st; st ← schedMemSideSendEvent now t st; mret (st, sd)) = Ok (set_reqQueue q st, sd) ∧
    base_ok now (set_reqQueue q st).
Proof using Type.
  intros Hnow HT Hi Hw Hm Hwb. unfold nextMSHRReadyTime. destruct (nextReady_ok T _ Hm) as (t1 & -> & H1), (nextReady_ok T _ Hwb) as (t2 & -> & H2).
  cbn [mbind res_mbind mret res_mret]. destruct (schedMemSide_ok now (Z.min t1 t2) st Hnow (io_send _ _ Hi)) as (q & -> & Hs & Ew & Hev). cbn [mbind res_mbind].
  exists q. split; [done|]. apply idle_base.
  - destruct Hi as [I1 I2 I3 I4 I5]. split; try done. by apply (port_bits_same _ _ _ st).
  - intros Hr Hwq. apply Hev; [done|]. left. destruct Hr as [Hr|Hr]; [specialize (H1 Hr)|specialize (H2 Hr)]; lia.
Qed.

(** A refusal: the memory side will retry. *)
Lemma refused_ok now st :
  idle_ok now st → PacketQueue.sendEvent (reqQueue st) = None → base_ok now (set_reqQueue (PacketQueue.with_waiting (reqQueue st) true) st).
Proof using Type.
  intros [I1 [I21 I22 I23] I3 I4 I5] He. apply idle_base; [|by intros _ ?]. split; [by apply (port_bits_same _ _ _ st)| |done|done|done].
  split; simpl; [done|done|]. by rewrite He.
Qed.

Lemma idle_waiting now b st :
  idle_ok now st → PacketQueue.sendEvent (reqQueue st) = None → idle_ok now (set_reqQueue (PacketQueue.with_waiting (reqQueue st) b) st).
Proof using Type.
  intros [I1 [I21 I22 I23] I3 I4 I5] He. split; [by apply (port_bits_same _ _ _ st)| |done|done|done]. split; simpl; [done|done|]. by rewrite He.
Qed.

(** The packet of an eviction. *)
Lemma evict_timing_packet now T O st (sd : Side M) w pkt :
  getNextMSHR now st = Ok (Some (Write w)) → cache_ok k s (core st) → waits k T O (writeBuffer st) w pkt → leaving pkt →
  ¬ cached s (Cache.tags (core st)) (Packet.addr pkt / 2 ^ k) →
  getTimingPacket now st sd = Ok (Some (Write w, Packet.with_senderState pkt [mshr_id (Write w)]), st, sd).
Proof using Type.
  intros En Hc (e & He & [(t & Et & Ep & Es) Ed Ea Esec _ _] & _ & _) Hl Hn. destruct (leaving_facts pkt Hl) as ((d & Hwf) & _ & _ & Hcmd & _).
  pose proof (geo_range _ _ _ (tk_geo _ _ _ (ck_tags _ _ _ Hc))) as (Hk & _). pose proof (pow_pos k ltac:(lia)).
  pose proof (fw_range _ _ Hwf) as (_ & Ha & _). assert (0 ≤ Packet.addr pkt / 2 ^ k) by (apply Z.div_pos; lia).
  unfold getTimingPacket. rewrite En. cbn [mbind res_mbind queue_of index_of]. rewrite (get_entry _ _ _ He). cbn [mbind res_mbind]. unfold MSHR.getTarget.
  rewrite Et. cbn [mbind res_mbind mret res_mret]. rewrite Ea, Esec.
  destruct (findBlock_spec k s _ (Packet.addr pkt / 2 ^ k * 2 ^ k) (ck_tags _ _ _ Hc)) as (r & -> & Hr); [nia|]. cbn [mbind res_mbind].
  assert (r = None) as ->.
  { destruct r as [p|]; [|done]. destruct Hr as (b & Hp & Hv & Hbn). rewrite Z.div_mul in Hbn by lia. destruct Hn. by exists p, b. }
  rewrite Ep. assert (bool_decide (Packet.cmd pkt = MemCmd.HardPFReq) = false ∧ Packet.needsResponse pkt = false) as [-> Hnr]
    by (unfold Packet.needsResponse; by destruct Hcmd as [->| ->]). cbn [andb mbind res_mbind mret res_mret queue_of index_of]. rewrite (get_entry _ _ _ He). cbn [mbind res_mbind].
  unfold MSHR.isForwardNoResponse, MSHR.getNumTargets. rewrite Et, Ed. change (_ =? 1) with true. cbn [negb mbind res_mbind mret res_mret].
  rewrite Es, Ep, Hnr. done.
Qed.

(** What is sent: the packet's address is checked against the snoop responses first. *)
Lemma send_packet now st (sd : Side M) p pkt d :
  send_ok now st → func_wf pkt d →
  (a ← Packet.getAddr pkt;
   snoop ← PacketQueue.hasAddr (pkts st) (snoopRespQueue st) a;
   if (snoop : bool) then
     s ← schedMemSideSendEvent now (PacketQueue.deferredPacketReadyTime (snoopRespQueue st)) st; mret (true, s, sd)
   else
     '(success, m, pkt) ← sendTimingReq sd pkt;
     let s := set_reqQueue (PacketQueue.with_waiting (reqQueue st) (negb success)) st in
     if (success : bool) then
       s ← markInService now p (negb (Packet.sharedAsserted pkt) && Packet.memInhibitAsserted pkt) s; mret (false, s, m)
     else mret (false, s, m)) =
  ('(success, m, pkt) ← sendTimingReq sd pkt;
   let s := set_reqQueue (PacketQueue.with_waiting (reqQueue st) (negb success)) st in
   if (success : bool) then
     s ← markInService now p (negb (Packet.sharedAsserted pkt) && Packet.memInhibitAsserted pkt) s; mret (false, s, m)
   else mret (false, s, m)).
Proof using Type.
  intros [[_ He] _ _] Hwf. rewrite (getAddr_ok _ d Hwf). cbn [mbind res_mbind]. unfold PacketQueue.hasAddr. by rewrite He.
Qed.

Lemma empty_ready now st : send_ok now st → (PacketQueue.deferredPacketReadyTime (reqQueue st) =? MaxTick) = true.
Proof using Type. intros [[E _] _ _]. unfold PacketQueue.deferredPacketReadyTime. by rewrite E. Qed.

Lemma freed_entry q i e0 e d j f : entry q i e0 → j ≠ i → entry q j f → entry (freed i e d q) j f.
Proof using Type. intros He0 Hne Hf. apply (entry_put q i j e0 e f He0). by right. Qed.

Lemma send_evict now T O st (sd : Side M) w pkts l1 l2 :
  0 ≤ now < MaxTick → T < MaxTick → idle_ok now st → PacketQueue.waitingOnRetry (reqQueue st) = false → PacketQueue.sendEvent (reqQueue st) = None →
  early T (mshrQueue st) → queued k T O (writeBuffer st) pkts → getNextMSHR now st = Ok (Some (Write w)) →
  MSHRQueue.readyList (writeBuffer st) = l1 ++ w :: l2 → cache_ok k s (core st) → mem_ok (below sd) →
  (∀ p1 pkt p2, pkts = p1 ++ pkt :: p2 → length p1 = length l1 → leaving pkt ∧ ¬ cached s (Cache.tags (core st)) (Packet.addr pkt / 2 ^ k)) →
  ∃ st' sd', sendDeferredPacket now st sd = Ok (st', sd') ∧ base_ok now st' ∧ kept st st' ∧ mshrQueue st' = mshrQueue st ∧
    reply sd' = reply sd ∧ mem_ok (below sd') ∧
    (below sd' = below sd ∧ writeBuffer st' = writeBuffer st ∨
     ∃ p1 pkt p2 e d, pkts = p1 ++ pkt :: p2 ∧ length p1 = length l1 ∧ stored pkt (mem_byte (below sd)) (mem_byte (below sd')) ∧
       writeBuffer st' = freed w e d (writeBuffer st) ∧ queued k T O (writeBuffer st') (p1 ++ p2)).
Proof using Type.
  intros Hnow HT Hi Hw He Hem Hq En El Hc Hm Hlv. pose proof (geo_range _ _ _ (tk_geo _ _ _ (ck_tags _ _ _ Hc))) as (Hk & _).
  pose proof (qo_ready _ (io_write _ _ Hi)) as Hnd.
  destruct (queued_erase k T O _ (freed w MSHR.new_MSHR Running (writeBuffer st)) pkts w l1 l2 Hnd Hq El eq_refl) as (p1 & pkt & p2 & Epk & Elen & Hwt & _).
  { intros j f Hne Hf. destruct (queued_all T O _ _ w Hq) as (e0 & He0); [rewrite El; apply elem_of_app; right; left|]. by eapply freed_entry. }
  destruct (Hlv p1 pkt p2 Epk Elen) as [Hl Hn]. destruct (leaving_facts pkt Hl) as ((d & Hwf) & _ & _ & Hcmd & _).
  unfold sendDeferredPacket. rewrite Hw, (empty_ready now st (io_send _ _ Hi)). cbn [negb check mbind res_mbind]. rewrite (evict_timing_packet now T O st sd w pkt En Hc Hwt Hl Hn).
  cbn [mbind res_mbind]. rewrite (send_packet now st sd _ _ d (io_send _ _ Hi)) by (by destruct Hwf).
  destruct (accepts sd) eqn:Eacc.
  2:{ unfold sendTimingReq, side_timing. rewrite Eacc. cbn [mbind res_mbind mret res_mret negb orb].
      change (PacketQueue.waitingOnRetry _) with true. cbn [orb]. eexists _, sd. split; [reflexivity|]. split; [by apply refused_ok|]. split; [done|]. split; [done|].
      split; [done|]. split; [done|]. by left. }
  destruct (side_evict sd pkt [mshr_id (Write w)]) as (m & -> & Hm' & Hst); [lia|done..|]. cbn [mbind res_mbind mret res_mret negb].
  set (st1 := set_reqQueue _ st). assert (idle_ok now st1) as Hi1 by (by apply idle_waiting).
  destruct Hwt as (e & Hent & [(t & Et & Ep & Es) Ed _ _ _ _] & _).
  destruct (markInService_ok now (Write w) e t (negb (Packet.sharedAsserted (Packet.with_senderState pkt [mshr_id (Write w)])) &&
    Packet.memInhibitAsserted (Packet.with_senderState pkt [mshr_id (Write w)])) st1 Hnow Hi1) as (st2 & q2 & E2 & Hi2 & R2 & Eo2 & Eq2 & Emq2 & Erq2 & Hfr); try done.
  { simpl. rewrite El. apply elem_of_app. right. left. }
  rewrite E2. cbn [mbind res_mbind mret res_mret orb]. assert (Packet.needsResponse (MSHR.pkt t) = false) as Hnr by (rewrite Ep; unfold Packet.needsResponse; by destruct Hcmd as [->| ->]).
  rewrite Hnr in Hfr. destruct Hfr as (e1 & d1 & Efr). cbn [queue_of other] in *. change (writeBuffer st1) with (writeBuffer st) in *. change (mshrQueue st1) with (mshrQueue st) in *.
  destruct (queued_erase k T O _ (freed w e1 d1 (writeBuffer st)) pkts w l1 l2 Hnd Hq El eq_refl) as (p1' & pkt' & p2' & Epk' & Elen' & _ & Hq').
  { intros j f Hne Hf. by eapply freed_entry. }
  rewrite Epk in Epk'. apply app_inj_1 in Epk' as [<- [= <- <-]]; [|lia].
  assert (PacketQueue.waitingOnRetry (reqQueue st2) = false) as Hw2 by (by rewrite Erq2). rewrite Hw2.
  destruct (finish_send now T st2 (mkSide true m (reply sd)) Hnow HT Hi2 Hw2) as (q3 & -> & Hb3).
  { by rewrite Emq2. } { rewrite Eq2, Efr. by eapply queued_early. }
  eexists _, _. split; [reflexivity|]. split; [done|]. split; [by split|]. split; [done|]. split; [done|]. split; [done|]. right.
  exists p1, pkt, p2, e1, d1. simpl. rewrite Eq2, Efr. by split_and!.
Qed.

(** The register of a packet that will get a response. *)
Definition forwarded (p : mshrptr) (b : bool) (e : MSHR.MSHR) (st : TimingCache) : TimingCache :=
  set_queue_of p (MSHRQueue.put (index_of p) (MSHR.set_isForward b e) (queue_of p st)) st.

Lemma queue_ok_put q i e e' :
  queue_ok q → i ∈ MSHRQueue.allocatedList q → entry q i e → MSHR.inService e' = MSHR.inService e → MSHR.elems (MSHR.targets e') ≠ [] →
  queue_ok (MSHRQueue.put i e' q).
Proof using Type.
  intros Hq Hi He Hs Ht. destruct (queue_nodup q Hq) as (_ & _ & Hdis). destruct Hq as [Q1 Q2 Q3 Q4 Q5 Q6 Q7 Q8].
  assert (∀ j f, entry (MSHRQueue.put i e' q) j f ↔ j = i ∧ f = e' ∨ j ≠ i ∧ entry q j f) as Hent by (intros; by apply (entry_put q i j e e' f)).
  split; try done; simpl.
  - by rewrite length_insert.
  - intros j Hj. destruct (Q7 j Hj) as (f & Hf & ?). exists f. split; [|done]. apply Hent. right. split; [|done]. intros ->. by apply (Hdis i).
  - intros j Hj. destruct (Q8 j Hj) as (f & Hf & Hsv & Hne). destruct (decide (j = i)) as [->|Hji].
    + exists e'. split; [apply Hent; by left|]. split; [|done]. rewrite Hs, <- Hsv. by rewrite (entry_fun _ _ _ _ Hf He).
    + exists f. split; [apply Hent; by right|done].
Qed.

Lemma forwarded_idle now p b e st :
  idle_ok now st → index_of p ∈ MSHRQueue.readyList (queue_of p st) → entry (queue_of p st) (index_of p) e → MSHR.elems (MSHR.targets e) ≠ [] →
  idle_ok now (forwarded p b e st).
Proof using Type.
  intros [I1 I2 I3 I4 I5] Hi He Ht. unfold forwarded.
  assert (queue_ok (queue_of p st)) as Hq by (by destruct p).
  assert (queue_ok (MSHRQueue.put (index_of p) (MSHR.set_isForward b e) (queue_of p st))) as Hq'
    by (eapply queue_ok_put; [done|by apply (qo_ready_in _ Hq)|done|done|done]).
  split; [|by apply (send_ok_same now st); [|destruct p..]|by destruct p..].
  apply (port_bits_same _ _ _ st); [by destruct p|by destruct p..].
Qed.

Lemma early_same T q q' : early T q → (∀ i, i ∈ MSHRQueue.readyList q' → i ∈ MSHRQueue.readyList q) →
  (∀ i e, i ∈ MSHRQueue.readyList q' → entry q i e → ∃ e', entry q' i e' ∧ MSHR.readyTime e' = MSHR.readyTime e) → early T q'.
Proof using Type. intros He Hsub Hent i Hi. destruct (He i (Hsub i Hi)) as (e & Hx & Ht). destruct (Hent i e Hi Hx) as (e' & ? & E). exists e'. rewrite E. done. Qed.

Lemma send_request now T st (sd sd' : Side M) p b e t out d acc :
  0 ≤ now < MaxTick → T < MaxTick → idle_ok now st → PacketQueue.waitingOnRetry (reqQueue st) = false → PacketQueue.sendEvent (reqQueue st) = None →
  early T (mshrQueue st) → early T (writeBuffer st) → getTimingPacket now st sd = Ok (Some (p, out), forwarded p b e st, sd) →
  index_of p ∈ MSHRQueue.readyList (queue_of p st) → entry (queue_of p st) (index_of p) e → MSHR.elems (MSHR.targets e) = [t] →
  MSHR.deferredTargets e = MSHR.no_targets → MSHR.source t = MSHR.FromCPU → Packet.needsResponse (MSHR.pkt t) = true →
  func_wf out d → sendTimingReq sd out = Ok (acc, sd', out) →
  ∃ st', sendDeferredPacket now st sd = Ok (st', sd') ∧ base_ok now st' ∧ kept st st' ∧ queue_of (other p) st' = queue_of (other p) st ∧
    queue_of p st' =
      let q := MSHRQueue.put (index_of p) (MSHR.set_isForward b e) (queue_of p st) in
      if acc then served (index_of p) (in_service (negb (Packet.sharedAsserted out) && Packet.memInhibitAsserted out) (MSHR.set_isForward b e)) q else q.
Proof using Type.
  intros Hnow HT Hi Hw Hev Hem Hew Egt Hin He Ht Hd Hsrc Hnr Hwf Esend.
  assert (idle_ok now (forwarded p b e st)) as Hif by (apply forwarded_idle; [done..|by rewrite Ht]).
  unfold sendDeferredPacket. rewrite Hw, (empty_ready now st (io_send _ _ Hi)). cbn [negb check mbind res_mbind]. rewrite Egt. cbn [mbind res_mbind].
  rewrite (send_packet now _ sd _ _ d (io_send _ _ Hif) Hwf), Esend. cbn [mbind res_mbind]. set (st0 := forwarded p b e st) in *.
  assert (reqQueue st0 = reqQueue st) as Erq by (by destruct p). assert (rest st0 = rest st ∧ order st0 = order st) as [R0 O0] by (by destruct p).
  assert (queue_of p st0 = MSHRQueue.put (index_of p) (MSHR.set_isForward b e) (queue_of p st)) as Eq0 by (by destruct p).
  assert (queue_of (other p) st0 = queue_of (other p) st) as Eo0 by (by destruct p).
  destruct acc; cbn [negb].
  2:{ cbn [mbind res_mbind mret res_mret orb]. change (PacketQueue.waitingOnRetry _) with true. cbn [orb]. eexists. split; [reflexivity|].
      split; [apply refused_ok; [done|by rewrite Erq]|]. split; [by split|]. split; [by rewrite <- Eo0; destruct p|]. by rewrite <- Eq0; destruct p. }
  set (st1 := set_reqQueue _ st0). assert (idle_ok now st1) as Hi1 by (apply idle_waiting; [done|by rewrite Erq]).
  assert (∀ j f, entry (queue_of p st0) j f ↔ j = index_of p ∧ f = MSHR.set_isForward b e ∨ j ≠ index_of p ∧ entry (queue_of p st) j f) as Hent
    by (intros; rewrite Eq0; by apply (entry_put _ _ j e)).
  assert (queue_of p st1 = queue_of p st0 ∧ queue_of (other p) st1 = queue_of (other p) st0) as [Eq1 Eo1] by (by destruct p).
  destruct (markInService_ok now p (MSHR.set_isForward b e) t (negb (Packet.sharedAsserted out) && Packet.memInhibitAsserted out) st1 Hnow Hi1)
    as (st2 & q2 & E2 & Hi2 & R2 & Eo2 & Eq2 & Emq2 & Erq2 & Hfr); try done; [by rewrite Eq1, Eq0|rewrite Eq1; apply Hent; by left|].
  rewrite E2. cbn [mbind res_mbind mret res_mret orb]. rewrite Hnr, Eq1, Eq0 in Hfr.
  assert (PacketQueue.waitingOnRetry (reqQueue st2) = false) as Hw2 by (by rewrite Erq2). rewrite Hw2.
  assert (early T (queue_of p st)) as Hep by (by destruct p). assert (early T (queue_of (other p) st)) as Heo by (by destruct p).
  assert (early T (queue_of p st2)) as Hep2.
  { rewrite Eq2, Hfr. eapply early_same; [exact Hep|by intros j [? _]%erase_elem|]. intros j f [Hj Hne]%erase_elem Hf. exists f. split; [|done].
    apply (entry_put _ (index_of p) j (MSHR.set_isForward b e)); [rewrite <- Eq0; apply Hent; by left|]. right. split; [done|]. rewrite <- Eq0. apply Hent. by right. }
  assert (early T (queue_of (other p) st2)) as Heo2 by (by rewrite Emq2, Eo1, Eo0).
  destruct (finish_send now T st2 sd' Hnow HT Hi2 Hw2) as (q3 & -> & Hb3); [by destruct p..|].
  eexists. split; [reflexivity|]. split; [done|]. split; [split; simpl; [by rewrite <- R0|by rewrite <- O0, Eo2]|].
  split; [transitivity (queue_of (other p) st2); [by destruct p|by rewrite Emq2, Eo1, Eo0]|]. transitivity (queue_of p st2); [by destruct p|by rewrite Eq2, Hfr].
Qed.

(** ** The packets of misses and row operations *)

Lemma isSet_lor x y m : Flags.isSet (Z.lor x y) m = Flags.isSet x m || Flags.isSet y m.
Proof using Type.
  unfold Flags.isSet. rewrite Z.land_lor_distr_l. destruct (Z.eqb_spec (Z.land x m) 0) as [->|Hx]; [by rewrite Z.lor_0_l|].
  destruct (Z.eqb_spec (Z.lor (Z.land x m) (Z.land y m)) 0) as [[E _]%Z.lor_eq_0_iff|]; done.
Qed.
Lemma isSet_land x y m : Flags.isSet (Z.land x y) m = Flags.isSet x (Z.land y m).
Proof using Type. unfold Flags.isSet. by rewrite Z.land_assoc. Qed.
Lemma isSet_0 x : Flags.isSet x 0 = false.
Proof using Type. unfold Flags.isSet. by rewrite Z.land_0_r. Qed.

(** A copy with space for its data, filled with the data. *)
Definition copy_with_data (pkt : Packet) : res Packet :=
  p ← Packet_copy pkt false true;
  if Packet.isWrite p then d ← Packet.getPtr pkt; Packet.setData p d else mret p.

Lemma memcpy_same (dst src : list Z) : length dst = length src → memcpy dst 0 src 0 (Z.of_nat (length src)) = Ok src.
Proof using Type. intros E. apply memcpy_all; [by rewrite E|done]. Qed.

Lemma copy_ok pkt d :
  func_wf pkt d → Packet.isWrite pkt = true →
  ∃ out, copy_with_data pkt = Ok out ∧ func_wf out d ∧ Packet.cmd out = Packet.cmd pkt ∧ Packet.req out = Packet.req pkt ∧
    Packet.addr out = Packet.addr pkt ∧ Packet._isSecure out = Packet._isSecure pkt ∧ Packet.headerDelay out = Packet.headerDelay pkt ∧
    Packet.payloadDelay out = Packet.payloadDelay pkt ∧ Packet.memInhibitAsserted out = Packet.memInhibitAsserted pkt.
Proof using Type.
  intros Hwf Hw. pose proof Hwf as [F1 F2 F3 F4 F5 F6]. unfold copy_with_data, Packet_copy. set (f := Flags.set _ _).
  assert (∀ m, Flags.isSet f m = Flags.isSet (Packet.flags pkt) (Z.land Packet.COPY_FLAGS m) ||
    Flags.isSet (Packet.flags pkt) (Z.land (Z.lor Packet.VALID_ADDR Packet.VALID_SIZE) m)) as Hf.
  { intros m. unfold f, Flags.set. by rewrite isSet_lor, !isSet_land. }
  assert (Flags.isSet f Packet.VALID_ADDR = true ∧ Flags.isSet f Packet.VALID_SIZE = true ∧
    Flags.isSet f Packet.MEM_INHIBIT = Flags.isSet (Packet.flags pkt) Packet.MEM_INHIBIT) as (E1 & E2 & E3).
  { rewrite !Hf. change (Z.land Packet.COPY_FLAGS Packet.VALID_ADDR) with 0. change (Z.land Packet.COPY_FLAGS Packet.VALID_SIZE) with 0.
    change (Z.land Packet.COPY_FLAGS Packet.MEM_INHIBIT) with Packet.MEM_INHIBIT. change (Z.land (Z.lor Packet.VALID_ADDR Packet.VALID_SIZE) Packet.VALID_ADDR) with Packet.VALID_ADDR.
    change (Z.land (Z.lor Packet.VALID_ADDR Packet.VALID_SIZE) Packet.VALID_SIZE) with Packet.VALID_SIZE.
    change (Z.land (Z.lor Packet.VALID_ADDR Packet.VALID_SIZE) Packet.MEM_INHIBIT) with 0. rewrite !isSet_0, F1, F2, orb_false_r. done. }
  set (p0 := Packet.mkPacket f _ _ _ _ _ _ _ _ _ _ _).
  assert (∃ g d0, (if Flags.isSet (Packet.flags pkt) Packet.STATIC_DATA then
      mret (Packet.with_flags (Packet.with_data p0 (Packet.data pkt)) (Flags.set f Packet.STATIC_DATA)) else Cache.allocate p0) =
      Ok (Packet.with_flags (Packet.with_data p0 (Some d0)) g) ∧ length d0 = length d ∧
      (g = Z.lor f Packet.STATIC_DATA ∨ g = Z.lor f Packet.DYNAMIC_DATA)) as (g & d0 & -> & Hd0 & Hg).
  { destruct (Flags.isSet (Packet.flags pkt) Packet.STATIC_DATA) eqn:Es; [eexists _, d; rewrite F4; split; [reflexivity|auto]|].
    assert (Flags.noneSet f (Z.lor Packet.STATIC_DATA Packet.DYNAMIC_DATA) = true) as Hnone.
    { assert (Flags.isSet f (Z.lor Packet.STATIC_DATA Packet.DYNAMIC_DATA) = false) as Hx by (rewrite Hf; apply orb_false_iff; split; apply isSet_0).
      unfold Flags.isSet in Hx. unfold Flags.noneSet. by apply negb_false_iff in Hx. }
    exists (Z.lor f Packet.DYNAMIC_DATA), (replicate (Z.to_nat (Packet.size pkt)) 0). unfold Cache.allocate, Packet.getSize. cbn [Packet.flags p0]. rewrite E2.
    cbn [check mbind res_mbind mret res_mret]. unfold Packet.dataDynamic. cbn [Packet.flags p0]. rewrite Hnone. split; [done|].
    rewrite length_replicate. split; [lia|auto]. }
  assert (∀ m, Flags.isSet f m = true → Flags.isSet g m = true) as Hfg by (intros m Hm; destruct Hg as [-> | ->]; by rewrite isSet_lor, Hm).
  assert (Flags.isSet g (Z.lor Packet.STATIC_DATA Packet.DYNAMIC_DATA) = true) as Hptr by (destruct Hg as [-> | ->]; rewrite isSet_lor; apply orb_true_r).
  assert (Flags.isSet g Packet.MEM_INHIBIT = Flags.isSet f Packet.MEM_INHIBIT) as Hmi by (destruct Hg as [-> | ->]; rewrite isSet_lor; apply orb_false_r).
  cbn [mbind res_mbind]. change (Packet.isWrite (Packet.with_flags _ _)) with (Packet.isWrite pkt). rewrite Hw, (getPtr_ok _ d Hwf). cbn [mbind res_mbind].
  unfold Packet.setData, Packet.getPtr, Packet.getSize. cbn [Packet.flags Packet.with_flags Packet.data Packet.with_data]. rewrite Hptr, (Hfg _ E2).
  cbn [check mbind res_mbind mret res_mret]. change (Packet.size (Packet.with_flags _ _)) with (Packet.size pkt). rewrite <- F5, memcpy_same by done. cbn [mbind res_mbind mret res_mret].
  eexists. split; [reflexivity|]. split; [split; try done; simpl; auto|]. split_and!; try done. unfold Packet.memInhibitAsserted. simpl. by rewrite Hmi, E3.
Qed.

Lemma copy_row pkt a :
  row_req has pkt a → func_wf pkt (payload_bytes a) → Packet.cmd pkt = MemCmd.WriteReq →
  ∃ out, copy_with_data pkt = Ok out ∧ row_req has out a ∧ func_wf out (payload_bytes a) ∧ Packet.cmd out = Packet.cmd pkt ∧ Packet.req out = Packet.req pkt ∧
    Packet.addr out = Packet.addr pkt ∧ Packet._isSecure out = Packet._isSecure pkt ∧ Packet.headerDelay out = Packet.headerDelay pkt ∧
    Packet.payloadDelay out = Packet.payloadDelay pkt.
Proof using Type.
  intros [R1 R2 R3 R4 R5 R6 R7 R8 R9] Hwf Hcmd. destruct (copy_ok pkt _ Hwf) as (out & E & Hwf' & Ec & Er & Ea & Es & Eh & Ep & Ei); [unfold Packet.isWrite; by rewrite Hcmd|].
  exists out. split; [done|]. split; [|done]. split; try done.
  - unfold Packet.isRowOp in *. by rewrite Er.
  - congruence.
  - unfold Packet.isRequest in *. by rewrite Ec.
  - unfold Packet.needsResponse in *. by rewrite Ec.
  - by apply getPtr_ok.
Qed.

(** The packet of a register that gets a response, up to the packet for the bus. *)
Lemma request_timing_packet now st (sd : Side M) p e pkt d bus :
  getNextMSHR now st = Ok (Some p) → cache_ok k s (core st) → entry (queue_of p st) (index_of p) e → reg k e pkt → func_wf pkt d →
  ¬ cached s (Cache.tags (core st)) (Packet.addr pkt / 2 ^ k) → Packet.needsResponse pkt = true → Packet.cmd pkt ≠ MemCmd.HardPFReq →
  Cache.getBusPacket (core st) pkt None (MemCmd.needsExclusive (Packet.cmd pkt)) = Ok bus →
  getTimingPacket now st sd =
    (out ← (match bus with Some b => mret b | None => copy_with_data pkt end);
     mret (Some (p, Packet.with_senderState out [mshr_id p]), forwarded p (bool_decide (bus = None)) e st, sd)).
Proof using Type.
  intros En Hc He [(t & Et & Ep & Es) Ed Ea Esec _ Ex] Hwf Hn Hnr Hcmd Ebus.
  pose proof (geo_range _ _ _ (tk_geo _ _ _ (ck_tags _ _ _ Hc))) as (Hk & _). pose proof (pow_pos k ltac:(lia)).
  pose proof (fw_range _ _ Hwf) as (_ & Ha & _). assert (0 ≤ Packet.addr pkt / 2 ^ k) by (apply Z.div_pos; lia).
  unfold getTimingPacket. rewrite En. cbn [mbind res_mbind]. rewrite (get_entry _ _ _ He). cbn [mbind res_mbind]. unfold MSHR.getTarget.
  rewrite Et. cbn [mbind res_mbind mret res_mret]. rewrite Ea, Esec.
  destruct (findBlock_spec k s _ (Packet.addr pkt / 2 ^ k * 2 ^ k) (ck_tags _ _ _ Hc)) as (r & -> & Hr); [nia|]. cbn [mbind res_mbind].
  assert (r = None) as ->.
  { destruct r as [x|]; [|done]. destruct Hr as (b & Hp & Hv & Hbn). rewrite Z.div_mul in Hbn by lia. destruct Hn. by exists x, b. }
  rewrite Ep, (bool_decide_false (_ = MemCmd.HardPFReq)) by done. cbn [andb mbind res_mbind mret res_mret]. rewrite (get_entry _ _ _ He). cbn [mbind res_mbind].
  unfold MSHR.isForwardNoResponse, MSHR.getNumTargets. rewrite Et, Ed. change (_ =? 1) with true. cbn [negb mbind res_mbind mret res_mret].
  rewrite Es, Ep, Hnr. rewrite andb_false_r, Ex, Ebus. cbn [mbind res_mbind]. unfold forwarded. destruct bus as [b|]; [done|]. done.
Qed.

Lemma plain_req_sender pkt d l : plain_req has pkt d → plain_req has (Packet.with_senderState pkt l) d.
Proof using Type. intros [P1 P2 P3 P4 P5]. split; try done. by destruct P1. Qed.
Lemma row_req_sender pkt a l : row_req has pkt a → row_req has (Packet.with_senderState pkt l) a.
Proof using Type. intros [R1 R2 R3 R4 R5 R6 R7 R8 R9]. by split. Qed.

End flow.
