(* ===== verification/CacheRun.v ===== *)
(** * The calls of the cache in timing mode (mem/cache/cache.cc)

    The states of a processor that waits for the response before it sends the next request,
    the cache and a memory, each with the flat memory it stands for, and what a request, a
    send and a response do to them. *)

From stdpp Require Import base gmap list list_numbers sorting.
From S2P Require Import Prelude IntMath AddrRanges Packets Events Clocked PktQueue AbstractMem CacheTags Cache CacheInv CacheAtomic CacheSystem MSHRQ MSHRInv CacheTiming CacheSeq CacheResp CacheFlow.
Import Request Blk RowOps TimingCache.
Local Open Scope Z_scope.

Section run.
(** The geometry of the cache, its clock period, and its latencies in cycles. *)
Context (k s masters p fl rl al fi : Z) {M : Type} `{!Cache.AtomicPorts M} (has : Z → Prop) `{!MemorySide M has}.

(** ** The system between steps *)

(** When a packet that arrives at [now] is forwarded, answered, and fills its block. *)
Definition forward_at (now : Z) : Z := edge p now + p * fl.
Definition respond_at (now : Z) : Z := edge p now + p * rl.
Definition filled_at (now : Z) : Z := edge p now + p * fi.

(** No tick overflows. *)
Definition in_time (now : Z) : Prop :=
  0 ≤ now ∧ now + p * (fl + rl + al + fi + 4) < MaxTick.

Record params : Prop := {
  pa_period : 0 < p;
  pa_lat : 0 ≤ fl ∧ 0 ≤ rl ∧ 0 ≤ al ∧ 0 ≤ fi;
}.

(** The sizes of a queue. *)
Definition dims (q : MSHRQueue.MSHRQueue) : Z * Z := (MSHRQueue.numEntries q, MSHRQueue.numReserve q).

(** The parameters of the cache.  The write buffer has registers for the blocks of a row
    operation when it accepts one, and a row operation is not taken for a whole block. *)
Record config (st : TimingCache) : Prop := {
  cf_clock : Tags.clockPeriod (Cache.tags (core st)) = p;
  cf_access : Tags.accessLatency (Cache.tags (core st)) = al;
  cf_lat : forwardLatency st = fl ∧ responseLatency st = rl ∧ Cache.fillLatency (core st) = fi;
  cf_targets : noTargetMSHR st = None;
  cf_fast : Cache.doFastWrites (core st) = false ∨ k ≠ 5;
  cf_miss : 1 ≤ MSHRQueue.numEntries (mshrQueue st) ∧ MSHRQueue.numReserve (mshrQueue st) ≤ MSHRQueue.numEntries (mshrQueue st);
  cf_write : flush_limit k + 1 ≤ MSHRQueue.numReserve (writeBuffer st) ∧ MSHRQueue.numReserve (writeBuffer st) ≤ MSHRQueue.numEntries (writeBuffer st);
}.

(** The cache and the evictions [evs] on their way to the memory hold the flat memory [V]:
    [mbf] are the bytes of the memory once the evictions have reached it. *)
Record steady (N now : Z) (st : TimingCache) (sd : Side M) (evs : list Packet) (mbf V : Z → Z) : Prop := {
  sy_config : config st;
  sy_mem : mem_ok (below sd);
  sy_holds : holds k s masters has (core st) mbf V;
  sy_evs q : q ∈ evs → leaving k s has q ∧ ¬ cached s (Cache.tags (core st)) (Packet.addr q / 2 ^ k);
  sy_flush : flushes evs (mem_byte (below sd)) mbf;
  sy_ready : ready_by (filled_at now) (Cache.tags (core st));
  sy_order : 0 ≤ order st ≤ N;
}.

(** The response queue with response [pkt], which is sent at [t]. *)
Definition responding (st : TimingCache) (t : Z) (pkt : Packet) : Prop :=
  ∃ tk id, respQueue st = PacketQueue.mkQueue [PacketQueue.mkDeferred tk id] (Some t) false Running ∧ tk ≤ t ∧ pkts st !! id = Some pkt.

(** A row operation on rows that are not in the cache. *)
Definition uncached_rows (c : Cache.Cache) (a : RowOpPayload) : Prop :=
  ∀ r y, r = dest a ∨ r = src1 a ∨ rowop_binary (op a) = true ∧ r = src2 a → r ≤ y < r + ROW_SIZE → ¬ cached s (Cache.tags c) (y / 2 ^ k).

(** A row operation in the write buffer. *)
Record row_waits (pkt : Packet) (a : RowOpPayload) (g : Z → Z → Z) : Prop := {
  rw_pkt : row_pkt k has pkt a;
  rw_op : rowop_byte (op a) = Some g;
  rw_addr : Packet.addr pkt = dest a;
  rw_master : _masterId (Packet.req pkt) < masters;
  rw_delay : Packet.headerDelay pkt = 0 ∧ Packet.payloadDelay pkt = 0;
}.

(** A register in service, whose response is on its way. *)
Record served_reg (e : MSHR.MSHR) (pkt : Packet) (fwd : bool) : Prop := {
  sr_reg : reg k e pkt;
  sr_service : MSHR.inService e = true;
  sr_post : MSHR.postInvalidate e = false ∧ MSHR.postDowngrade e = false;
  sr_forward : MSHR.isForward e = fwd;
}.

(** The response to a miss: the bytes of the block, or nothing for a write of all of it. *)
Record miss_reply (pkt : Packet) (mbf : Z → Z) (i : Z) (r : Packet) : Prop := {
  mr_sender : Packet.senderState r = [mshr_id (Miss i)];
  mr_kind : ∃ bus z m, plain_req has bus z ∧ Packet.cmd bus = bus_cmd pkt ∧ Packet.addr bus = Packet.addr pkt / 2 ^ k * 2 ^ k ∧
    Packet.size bus = 2 ^ k ∧ Packet._isSecure bus = false ∧ Packet.req bus = Packet.req pkt ∧ Packet.flags bus = 0x2300 ∧
    Packet.headerDelay bus = 0 ∧ Packet.payloadDelay bus = 0 ∧ Packet.senderState bus = [mshr_id (Miss i)] ∧
    (∀ x, 0 ≤ x → x / 2 ^ k = Packet.addr pkt / 2 ^ k → mem_byte m x = mbf x) ∧
    if bool_decide (Packet.cmd pkt = MemCmd.WriteLineReq) then Packet.makeResponse bus = Ok r
    else Packet.makeResponse (Packet.with_data bus (Some (bytes_of (mem_byte m) bus))) = Ok r;
}.
(** Only evictions, and maybe a row operation after them, wait in the write buffer. *)
Record calm (N now : Z) (st : TimingCache) (sd : Side M) (evs wbs : list Packet) (mbf V : Z → Z) : Prop := {
  ca_steady : steady N now st sd evs mbf V;
  ca_queued : queued k (forward_at now) (order st) (writeBuffer st) wbs;
  ca_service : MSHRQueue.inServiceEntries (writeBuffer st) = 0;
}.

(** A miss in register [i] of the miss queue. *)
Record missing (st : TimingCache) (pkt : Packet) (d : list Z) (i : Z) (e : MSHR.MSHR) : Prop := {
  mi_room : MSHRQueue.isFull (writeBuffer st) = false;
  mi_alloc : MSHRQueue.allocatedList (mshrQueue st) = [i];
  mi_entry : entry (mshrQueue st) i e;
  mi_reg : reg k e pkt;
  mi_pkt : cpu_pkt k masters has pkt d;
  mi_delay : Packet.headerDelay pkt = 0 ∧ Packet.payloadDelay pkt = 0;
  mi_uncached : ¬ cached s (Cache.tags (core st)) (Packet.addr pkt / 2 ^ k);
}.

(** The bytes of a read. *)
Definition result_of (V : Z → Z) (pkt : Packet) : option (list Z) := if Packet.isRead pkt then Some (bytes_of V pkt) else None.

(** The states of the system: the flat memory after all requests that were accepted, and
    what the response that is still to come has to carry. *)
Inductive phase (N now : Z) (st : TimingCache) (sd : Side M) : (Z → Z) → option (option (list Z)) → Prop :=
  | ph_idle evs mbf V :
      calm N now st sd evs evs mbf V → MSHRQueue.allocatedList (mshrQueue st) = [] → reply sd = None → respQueue st = PacketQueue.new →
      phase N now st sd V None
  | ph_answer evs mbf V t pkt d :
      calm N now st sd evs evs mbf V → MSHRQueue.allocatedList (mshrQueue st) = [] → reply sd = None →
      responding st t pkt → now ≤ t → answers d pkt → phase N now st sd V (Some d)
  | ph_row_wait evs mbf V pkt a g :
      calm N now st sd evs (evs ++ [pkt]) mbf V → MSHRQueue.allocatedList (mshrQueue st) = [] → reply sd = None → respQueue st = PacketQueue.new →
      row_waits pkt a g → uncached_rows (core st) a → phase N now st sd (rowop_effect g a V) (Some None)
  | ph_row_sent mbf V pkt a g w e out r :
      steady N now st sd [] mbf V → MSHRQueue.allocatedList (mshrQueue st) = [] → respQueue st = PacketQueue.new →
      MSHRQueue.readyList (writeBuffer st) = [] → MSHRQueue.allocatedList (writeBuffer st) = [w] → entry (writeBuffer st) w e → served_reg e pkt true →
      row_waits pkt a g → uncached_rows (core st) a → reply sd = Some r → Packet.makeResponse out = Ok r → func_wf out (payload_bytes a) →
      Packet.cmd out = MemCmd.WriteReq → Packet.req out = Packet.req pkt → Packet.addr out = Packet.addr pkt → Packet._isSecure out = false →
      Packet.headerDelay out = 0 → Packet.payloadDelay out = 0 → Packet.senderState out = [mshr_id (Write w)] →
      phase N now st sd V (Some None)
  | ph_miss_wait evs mbf V pkt d i e :
      calm N now st sd evs evs mbf V → reply sd = None → respQueue st = PacketQueue.new → missing st pkt d i e →
      MSHRQueue.readyList (mshrQueue st) = [i] → MSHR.readyTime e ≤ forward_at now → queued k (forward_at now) (MSHR.order e) (writeBuffer st) evs →
      phase N now st sd (after pkt d V) (Some (result_of V pkt))
  | ph_miss_sent evs mbf V pkt d i e r :
      calm N now st sd evs evs mbf V → respQueue st = PacketQueue.new → missing st pkt d i e →
      MSHRQueue.readyList (mshrQueue st) = [] → served_reg e pkt false → (∀ q, q ∈ evs → Packet.addr q / 2 ^ k ≠ Packet.addr pkt / 2 ^ k) →
      reply sd = Some r → miss_reply pkt mbf i r → phase N now st sd (after pkt d V) (Some (result_of V pkt)).

(** ** Time *)

(** Events that are scheduled have not been missed at [now]. *)
Definition due_from (now : Z) (st : TimingCache) : Prop :=
  ∀ t, sendRetryEvent st = Some t ∨ PacketQueue.sendEvent (reqQueue st) = Some t ∨ PacketQueue.sendEvent (respQueue st) = Some t → now ≤ t.

Lemma later_base now now' st : due_from now' st → base_ok now st → base_ok now' st.
Proof using Type.
  intros Hdue [[B1 B2 B3 B4] [B5 B6 B7] B8 B9 B10 B11]. split; try done; split; try done.
  - intros t Ht. destruct (B3 t Ht) as (_ & ? & ?). split_and!; try done. apply Hdue. auto.
  - intros t Ht. apply Hdue. auto.
Qed.

Lemma later_steady N now now' st sd evs mbf V : params → now ≤ now' → steady N now st sd evs mbf V → steady N now' st sd evs mbf V.
Proof using Type.
  intros [Hp _] Hle [S2 S3 S4 S5 S6 S7 S8]. split; try done.
  intros q b Hb. specialize (S7 q b Hb). unfold filled_at in *. pose proof (edge_mono p now now' Hp Hle). lia.
Qed.

Lemma later_queued now now' O q pkts : params → now ≤ now' → queued k (forward_at now) O q pkts → queued k (forward_at now') O q pkts.
Proof using Type. intros [Hp _] Hle. apply queued_mono; [|lia]. unfold forward_at. pose proof (edge_mono p now now' Hp Hle). lia. Qed.

Lemma later_calm N now now' st sd evs wbs mbf V :
  params → now ≤ now' → calm N now st sd evs wbs mbf V → calm N now' st sd evs wbs mbf V.
Proof using Type. intros Hp Hle [C1 C2 C3]. split; [by eapply later_steady|by eapply later_queued|done]. Qed.

Lemma later N now now' st sd V x : params → now ≤ now' → due_from now' st → phase N now st sd V x → phase N now' st sd V x.
Proof using Type.
  intros Hp Hle Hdue. pose proof (pa_period Hp) as Hp0. pose proof (edge_mono p now now' Hp0 Hle) as Hmono.
  assert (∀ evs wbs mbf V, calm N now st sd evs wbs mbf V → calm N now' st sd evs wbs mbf V) as Hc by (intros *; by apply later_calm).
  destruct 1 as [evs mbf V C ? ? ?|evs mbf V t pkt d C ? ? Hr Ht Ha|evs mbf V pkt a g C|mbf V pkt a g w e out r S|evs mbf V pkt d i e C ? ? [] ? Hrt Hq|evs mbf V pkt d i e r C ? []].
  - by eapply ph_idle; [apply Hc|..].
  - eapply ph_answer; [by apply Hc|done|done|done| |done]. apply Hdue. destruct Hr as (tk & id & E & _). right; right. by rewrite E.
  - by eapply ph_row_wait; [apply Hc|..].
  - by eapply ph_row_sent; [eapply later_steady|..].
  - eapply (ph_miss_wait _ _ _ _ evs mbf V pkt d i e); try done; [by apply Hc|unfold forward_at in *; lia|by eapply later_queued].
  - by eapply (ph_miss_sent _ _ _ _ evs mbf V pkt d i e); [apply Hc|..].
Qed.

(** ** Requests *)

Lemma base_core now c st : base_ok now st → base_ok now (set_core c st).
Proof using Type. intros [[B1 B2 B3 B4] [B5 B6 B7] B8 B9 B10 B11]. by split. Qed.
Lemma base_resp now q h st : base_ok now st → base_ok now (set_respQueue q h st).
Proof using Type. intros [[B1 B2 B3 B4] [B5 B6 B7] B8 B9 B10 B11]. by split. Qed.

Lemma holds_lookup st mb V : holds k s masters has (core st) mb V → holds k s masters has (lookup_core st) mb V.
Proof using Type. intros [[C1 C2 C3 C4] H2 H3 H4]. by split. Qed.

Lemma config_core c st :
  config st → same_params (Cache.tags (core st)) (Cache.tags c) → Cache.fillLatency c = Cache.fillLatency (core st) →
  Cache.doFastWrites c = Cache.doFastWrites (core st) → config (set_core c st).
Proof using Type.
  intros [C1 C2 C3 C4 C5 C6 C7] (_ & _ & _ & _ & _ & _ & _ & _ & _ & E1 & E2) E3 E4. split; simpl; try done; [congruence|congruence|by rewrite E3|by rewrite E4].
Qed.

(** Ticks of cycles after an edge. *)
Lemma cycles_after_edge now st c :
  params → config st → in_time now → 0 ≤ c ≤ fl + rl + al + fi + 2 → clockEdge st (edge p now) c = edge p now + p * c.
Proof using Type.
  intros [Hp _] Hcf [Hn Ht] Hc. unfold clockEdge. rewrite (cf_clock _ Hcf). apply wrap_small. pose proof (edge_spec p now Hp). unfold MaxTick in Ht. nia.
Qed.

(** A response enters its queue. *)
Lemma enqueue_response now pkt t st :
  0 ≤ now → now ≤ t → t < MaxTick → now + 1 < MaxTick → respQueue st = PacketQueue.new → Packet.isExpressSnoop pkt = false →
  ∃ q h, schedTimingResp now pkt t st = Ok (set_respQueue q h st) ∧ responding (set_respQueue q h st) (Z.max t (now + 1)) pkt.
Proof using Type.
  intros Hn Ht Ht2 Hn2 E Hx. unfold schedTimingResp, PacketQueue.schedTimingResp, PacketQueue.schedSendTiming. rewrite E, Hx, (proj2 (Z.leb_le now t) Ht).
  cbn [check mbind res_mbind negb PacketQueue.new PacketQueue.size PacketQueue.transmitList length last]. change (100 <? Z.of_nat 0) with false.
  cbn [panic_if check negb mbind res_mbind]. unfold PacketQueue.schedSendEvent. cbn [PacketQueue.waitingOnRetry PacketQueue.with_list PacketQueue.new PacketQueue.sendEvent].
  destruct (Z.eqb_spec t MaxTick); [lia|]. cbn [negb]. rewrite add64_succ, schedule_ok by lia. cbn [mbind res_mbind mret res_mret].
  eexists _, _. split; [reflexivity|]. eexists _, _. split; [reflexivity|]. split; [simpl; lia|]. simpl. apply lookup_insert_eq.
Qed.

Lemma make_response pkt :
  Packet.needsResponse pkt = true → Packet.isRequest pkt = true → MemCmd.isResponse (MemCmd.responseCommand (Packet.cmd pkt)) = true →
  ∃ r, Packet.makeResponse pkt = Ok r ∧ Packet.isResponse r = true ∧ Packet.data r = Packet.data pkt ∧ Packet.isExpressSnoop r = false.
Proof using Type.
  intros H1 H2 H3. unfold Packet.makeResponse. rewrite H1, H2. cbn [check mbind res_mbind mret res_mret]. eexists. split; [reflexivity|]. split; [done|]. split; [done|].
  unfold Packet.isExpressSnoop. simpl. unfold Flags.clear. rewrite isSet_land. apply isSet_0.
Qed.

Lemma cpu_cmd pkt d : cpu_pkt k masters has pkt d →
  Packet.needsResponse pkt = true ∧ Packet.isRequest pkt = true ∧ MemCmd.isResponse (MemCmd.responseCommand (Packet.cmd pkt)) = true ∧
  Packet.evictingBlock pkt = false ∧ MemCmd.isSWPrefetch (Packet.cmd pkt) = false ∧ Packet.cmd pkt ≠ MemCmd.HardPFReq.
Proof using Type. intros Hq. unfold Packet.needsResponse, Packet.isRequest, Packet.evictingBlock. by destruct (cq_cmd _ _ _ _ _ Hq) as [->|[->|[-> _]]]. Qed.

(** A hit. *)
Lemma recv_hit N now st sd evs mbf V pkt d x b t' lat :
  params → in_time now → base_ok now st → calm N now st sd evs evs mbf V → MSHRQueue.allocatedList (mshrQueue st) = [] → reply sd = None → respQueue st = PacketQueue.new →
  cpu_pkt k masters has pkt d → Packet.headerDelay pkt = 0 →
  blk_at (Cache.tags (core st)) x b → isValid b = true → bn s b = Packet.addr pkt / 2 ^ k →
  updates s (Cache.tags (core st)) x (set_refCount (u32 (refCount b + 1)) b) t' → hit_latency now (Cache.tags (core st)) b lat →
  Cache.access now (lookup_core st) pkt =
    ('(c, pkt) ← Cache.satisfyCpuSideRequest now (Cache.set_tags t' (lookup_core st)) pkt (Cache.InTags x) false false;
     mret (true, Some x, lat, c, pkt, [])) →
  Cache.promoteWholeLineWrites (core st) pkt = Ok pkt →
  ∃ st', recvTimingReq now (edge p now) pkt st sd = Ok (true, st', sd) ∧ sendRetryEvent st' = sendRetryEvent st ∧ base_ok now st' ∧
    phase N now st' sd (after pkt d V) (Some (result_of V pkt)).
Proof using Type.
  intros Hpa Htime S1 [[S2 S3 S4 S5 S6 S7 S8] Hq Hsv] Hm Hrep Hresp Hpk Hdel Hx Hv Hbn Hup Hlat Eacc Eprom. pose proof (pa_period Hpa) as Hp.
  destruct (cpu_cmd pkt d Hpk) as (K1 & K2 & K3 & K4 & _ & _). pose proof (re_cache _ _ _ _ _ _ _ S4) as Hc. destruct (ck_plain _ _ _ Hc) as (_ & Hby & _).
  destruct (satisfy_hit k s masters has now (lookup_core st) mbf V pkt d x b t' (holds_lookup _ _ _ S4) Hpk Hx Hv Hbn Hup) as (t2 & pkt' & Esat & Hh & Hsub & Hpar & Hrd & [dd ->] & Hd).
  unfold recvTimingReq. rewrite K2, Hby, Eprom. cbn [check mbind res_mbind]. rewrite (proj1 (cq_plain _ _ _ _ _ Hpk)), Eacc, Esat. cbn [mbind res_mbind mret res_mret].
  change (Packet.evictingBlock (Packet.with_data pkt dd)) with (Packet.evictingBlock pkt). rewrite K4. unfold doWritebacks. cbn [foldM mbind res_mbind mret res_mret].
  set (st1 := set_core _ st). assert (config st1) as Hcf by (by apply config_core).
  assert (0 ≤ lat ≤ fl + rl + al + fi + 2) as Hl.
  { destruct Htime as [Hn Ht]. destruct (pa_lat Hpa) as (L1 & L2 & L3 & L4). specialize (S7 x b Hx). unfold filled_at in S7. pose proof (edge_spec p now Hp).
    destruct Hlat as [->|[Hl1 Hl2]]; [done|by rewrite (cf_clock _ S2)|rewrite (cf_clock _ S2); unfold MaxTick in Ht; nia|rewrite (cf_access _ S2); lia|].
    rewrite (cf_clock _ S2) in Hl2. nia. }
  rewrite (cycles_after_edge now st1 lat Hpa Hcf Htime Hl). cbn [Packet.headerDelay Packet.with_data Packet.req Packet.with_delays].
  rewrite (proj1 (cq_req _ _ _ _ _ Hpk)), Hdel. cbn [negb check mbind res_mbind]. set (pkt1 := Packet.with_delays (Packet.with_data pkt dd) 0 0).
  change (Packet.needsResponse pkt1) with (Packet.needsResponse pkt). rewrite K1. destruct (make_response pkt1 K1 K2 K3) as (r & -> & Hr1 & Hr2 & Hr3).
  cbn [mbind res_mbind]. pose proof (edge_spec p now Hp). destruct Htime as [Hn Ht]. unfold MaxTick in Ht. rewrite Z.add_0_r, (wrap_small 64 (edge p now + p * lat)) by nia.
  destruct (enqueue_response now (Packet.with_delays r 0 0) (edge p now + p * lat) st1) as (rq & h & -> & Hres); [lia|nia|unfold MaxTick; nia|unfold MaxTick; nia|done|done|].
  cbn [mbind res_mbind]. eexists. split; [reflexivity|]. split; [done|]. split; [by apply base_resp, base_core|].
  eapply (ph_answer _ _ _ _ evs mbf); [|done|done|exact Hres|nia|].
  - split; [split; try done|done|done].
    + destruct Hcf. by split.
    + intros q Hin. destruct (S5 q Hin) as [? Hn']. split; [done|]. intros Hca. by apply Hn', Hsub.
    + by apply (Hrd (filled_at now)).
  - split; [done|]. unfold result_of. destruct (Packet.isRead pkt); [|done]. change (Packet.data (Packet.with_delays r 0 0)) with (Packet.data r). rewrite Hr2. by apply Hd.
Qed.

Lemma config_rest st st' :
  config st → rest st' = rest st → dims (mshrQueue st') = dims (mshrQueue st) →
  dims (writeBuffer st') = dims (writeBuffer st) → config st'.
Proof using Type.
  intros [C1 C2 C3 C4 C5 C6 C7] R E1 E2. unfold rest in R. injection R as R1 R2 R3 R4 R5 R6 R7 R8 R9. injection E1 as E1 E1'. injection E2 as E2 E2'. split; by rewrite ?R1, ?R3, ?R4, ?R6, ?E1, ?E1', ?E2, ?E2'.
Qed.

Lemma grown_dims st st' : grown st st' → dims (writeBuffer st') = dims (writeBuffer st).
Proof using Type. intros G. unfold dims. f_equal; apply G. Qed.

Lemma rest_resp st st' : rest st' = rest st → core st' = core st ∧ respQueue st' = respQueue st ∧ pkts st' = pkts st.
Proof using Type. unfold rest. intros R. by injection R. Qed.

Lemma free_of_empty q : queue_ok q → MSHRQueue.allocatedList q = [] → 1 ≤ MSHRQueue.numEntries q → MSHRQueue.freeList q ≠ [].
Proof using Type.
  intros Hq E Hn Hf. pose proof (qo_perm q Hq) as Hp. rewrite Hf, E in Hp. apply Permutation_length in Hp. rewrite length_seqZ in Hp. simpl in Hp. lia.
Qed.

Lemma ready_of_empty q : queue_ok q → MSHRQueue.allocatedList q = [] → MSHRQueue.readyList q = [].
Proof using Type.
  intros Hq E. destruct (MSHRQueue.readyList q) as [|i l] eqn:El; [done|]. assert (i ∈ MSHRQueue.allocatedList q) as Hi by (apply (qo_ready_in q Hq); rewrite El; left).
  rewrite E in Hi. by apply elem_of_nil in Hi.
Qed.

Lemma delays_cpu pkt d : cpu_pkt k masters has pkt d → cpu_pkt k masters has (Packet.with_delays pkt 0 0) d.
Proof using Type. intros [Hwf H1 H2 H3 H4 H5 H6 H7 H8 H9]. split; try done. by destruct Hwf. Qed.

(** A miss. *)
Lemma recv_new_miss N now st sd evs mbf V pkt d lat :
  params → in_time now → N + 1 < 2 ^ 64 → base_ok now st → calm N now st sd evs evs mbf V → MSHRQueue.allocatedList (mshrQueue st) = [] → reply sd = None →
  respQueue st = PacketQueue.new → cpu_pkt k masters has pkt d → Packet.headerDelay pkt = 0 → MSHRQueue.isFull (writeBuffer st) = false →
  ¬ cached s (Cache.tags (core st)) (Packet.addr pkt / 2 ^ k) →
  Cache.access now (lookup_core st) pkt = Ok (false, None, lat, lookup_core st, Cache.incAccessDepth pkt, []) →
  Cache.promoteWholeLineWrites (core st) pkt = Ok pkt →
  ∃ st', recvTimingReq now (edge p now) pkt st sd = Ok (true, st', sd) ∧ (sendRetryEvent st = None → sendRetryEvent st' = None) ∧
    base_ok now st' ∧ phase (N + 1) now st' sd (after pkt d V) (Some (result_of V pkt)).
Proof using Type.
  intros Hpa Htime HN S1 [[S2 S3 S4 S5 S6 S7 S8] Hq Hsv] Hm Hrep Hresp Hpk Hdel Hroom Hn Eacc Eprom. pose proof (pa_period Hpa) as Hp.
  destruct (cpu_cmd pkt d Hpk) as (K1 & K2 & K3 & K4 & K5 & K6). pose proof (re_cache _ _ _ _ _ _ _ S4) as Hc. destruct (ck_plain _ _ _ Hc) as (_ & Hby & _).
  unfold recvTimingReq. rewrite K2, Hby, Eprom. cbn [check mbind res_mbind]. rewrite (proj1 (cq_plain _ _ _ _ _ Hpk)), Eacc. cbn [mbind res_mbind].
  set (pkt2 := Packet.with_delays (Cache.incAccessDepth pkt) 0 0). assert (cpu_pkt k masters has pkt2 d) as Hpk2 by (by apply delays_cpu, incAccessDepth_ok).
  change (Packet.evictingBlock (Cache.incAccessDepth pkt)) with (Packet.evictingBlock pkt). rewrite K4. unfold doWritebacks. cbn [foldM mbind res_mbind mret res_mret].
  destruct Htime as [Hn0 Ht]. destruct (pa_lat Hpa) as (L1 & L2 & L3 & L4). pose proof (edge_spec p now Hp).
  rewrite (cycles_after_edge now st (forwardLatency st) Hpa S2) by (first [split; done | rewrite (proj1 (cf_lat _ S2)); lia]). rewrite (proj1 (cf_lat _ S2)), Hdel.
  rewrite Z.add_0_r, (wrap_small 64 (edge p now + p * fl)) by (unfold MaxTick in Ht; nia). change (edge p now + p * fl) with (forward_at now).
  set (st0 := set_core (lookup_core st) st). unfold recv_miss. rewrite (getAddr_ok pkt2 d) by apply Hpk2. cbn [mbind res_mbind].
  unfold Packet.isSecure. rewrite (fw_addr pkt2 d) by apply Hpk2. cbn [check mbind res_mbind mret res_mret]. rewrite (proj1 (cq_req _ _ _ _ _ Hpk2)).
  assert (∀ a b, findMatch (mshrQueue st0) a b = None) as Hfm by (intros; unfold findMatch; change (mshrQueue st0) with (mshrQueue st); by rewrite Hm).
  rewrite Hfm. change (Packet.cmd pkt2) with (Packet.cmd pkt). rewrite K5. cbn [mbind res_mbind mret res_mret]. unfold new_miss, Cache.count_master.
  change (Tags.maxMasters (Cache.tags (core st0))) with (Tags.maxMasters (Cache.tags (core st))). rewrite (re_masters _ _ _ _ _ _ _ S4).
  rewrite (proj2 (Z.ltb_lt _ _) (cq_master _ _ _ _ _ Hpk2)). cbn [check mbind res_mbind]. change (Packet.evictingBlock pkt2) with (Packet.evictingBlock pkt).
  rewrite K4, (proj1 (cq_req _ _ _ _ _ Hpk2)). cbn [orb andb mbind res_mbind mret res_mret]. unfold allocateMissBuffer. rewrite (getAddr_ok pkt2 d) by apply Hpk2. cbn [mbind res_mbind].
  pose proof (geo_range _ _ _ (tk_geo _ _ _ (ck_tags _ _ _ Hc))) as (Hk & _). pose proof (pow_pos k ltac:(lia)).
  pose proof (fw_range _ _ (cq_wf _ _ _ _ _ Hpk2)) as (Hs0 & Ha & Ha64). pose proof (Z.mod_pos_bound (Packet.addr pkt2) (2 ^ k)).
  pose proof (Z.div_mod (Packet.addr pkt2) (2 ^ k)). assert (0 ≤ Packet.addr pkt2 / 2 ^ k) by (apply Z.div_pos; lia).
  pose proof (re_cache _ _ _ _ _ _ _ (holds_lookup _ _ _ S4)) as Hc0. change (lookup_core st) with (core st0) in Hc0.
  rewrite (blockAlign_ok k s (core st0)) by (done || lia). pose proof (base_core now (lookup_core st) st S1) as Hb0. fold st0 in Hb0.
  pose proof (free_of_empty _ (bo_miss _ _ S1) Hm (proj1 (cf_miss _ S2))) as Hfree. pose proof (ready_of_empty _ (bo_miss _ _ S1) Hm) as Hrl.
  destruct (allocateBuffer_ok now (Miss 0) (Packet.addr pkt2 / 2 ^ k * 2 ^ k) (Cache.blkSize (core st0)) pkt2 (forward_at now) st0)
    as (i & e0 & st' & -> & Hb' & R & Eo & Hi & He0 & Eq & Eq2 & Ew & Hev); try done.
  { lia. } { rewrite (blockAlign_ok k s (core st0)) by (done || lia). by rewrite Z.div_mul by lia. } { apply Hpk2. }
  { unfold forward_at, MaxTick in *. nia. } { intros j f Hj. cbn [queue_of] in Hj. change (mshrQueue st0) with (mshrQueue st) in Hj. rewrite Hrl in Hj. by apply elem_of_nil in Hj. }
  cbn [mbind res_mbind queue_of other] in *. change (mshrQueue st0) with (mshrQueue st) in *. change (writeBuffer st0) with (writeBuffer st) in *.
  change (order st0) with (order st) in *. rewrite wrap_small in Eo by lia. set (e := one_target _ _ _ _ _ _ _) in *.
  exists st'. split; [done|]. split; [done|]. split; [done|]. destruct (rest_resp _ _ R) as (Rc & Rq & _).
  eapply (ph_miss_wait _ _ _ _ evs mbf V pkt2 d i e).
  - split; [split|eapply queued_mono; [..|rewrite Eq2; exact Hq]; lia|by rewrite Eq2].
    + apply (config_rest st0); [by apply config_core|done|by rewrite Eq|by rewrite Eq2].
    + done.
    + rewrite Rc. by apply holds_lookup.
    + by rewrite Rc.
    + done.
    + by rewrite Rc.
    + lia.
  - done.
  - by rewrite Rq.
  - split; [by rewrite Eq2|rewrite Eq; simpl; by rewrite Hm| | |done|done|by rewrite Rc].
    + rewrite Eq. apply (entry_put _ i i e0 e e He0). by left.
    + by apply one_target_reg; [|apply Hpk2].
  - rewrite Eq. simpl. by rewrite Hrl.
  - simpl. lia.
  - by rewrite Eq2.
Qed.

Lemma free_room q : queue_ok q → MSHRQueue.isFull q = false → MSHRQueue.numReserve q ≤ Z.of_nat (length (MSHRQueue.freeList q)).
Proof using Type.
  intros Hq Hf. unfold MSHRQueue.isFull in Hf. apply Z.ltb_ge in Hf. pose proof (qo_perm q Hq) as Hp. apply Permutation_length in Hp. rewrite length_app, length_seqZ in Hp.
  rewrite (qo_count q Hq) in Hf. lia.
Qed.

(** A row operation, whose payload has 32 bytes, is not a write of a whole block. *)
Lemma row_not_promoted st pkt a :
  cache_ok k s (core st) → config st → row_pkt k has pkt a → Cache.promoteWholeLineWrites (core st) pkt = Ok pkt.
Proof using Type.
  intros Hc Hcf Hr. pose proof (geo_range _ _ _ (tk_geo _ _ _ (ck_tags _ _ _ Hc))) as (Hk & _).
  destruct (promote_ok k s (core st) pkt _ Hc (rp_wf _ _ _ _ Hr)) as (pkt' & E & [->|(_ & Es & _ & ->)]); [done|].
  destruct (cf_fast _ Hcf) as [Hff|Hk5]; [unfold Cache.promoteWholeLineWrites; by rewrite Hff|]. exfalso. apply Hk5.
  pose proof (fw_len _ _ (rp_wf _ _ _ _ Hr)) as Hl. rewrite Es in Hl. assert (2 ^ k = 2 ^ 5) as H2 by (rewrite <- Hl; by destruct a as [[]]).
  apply (Z.pow_inj_r 2); lia.
Qed.

(** The state after the rows have been written back. *)
Lemma flush_steady N now st sd evs mbf V c' wbs gone :
  calm N now st sd evs evs mbf V → flushing k s has V mbf (lookup_core st) gone (c', wbs) →
  ∃ mbf', (∀ st', rest st' = rest (set_core c' st) → dims (mshrQueue st') = dims (mshrQueue st) →
      dims (writeBuffer st') = dims (writeBuffer st) → ∀ N', 0 ≤ order st' ≤ N' →
      steady N' now st' sd (evs ++ wbs) mbf' V) ∧ (∀ q, q ∈ wbs → leaving k s has q).
Proof using Type.
  intros [[S2 S3 S4 S5 S6 S7 S8] Hq Hsv] [[Fs Fp] F2 (mb' & Hco & Hev) F4 [M1 M2 M3] F6]. simpl in *.
  pose proof (geo_range _ _ _ (tk_geo _ _ _ (ck_tags _ _ _ F2))) as (Hk & _). pose proof (pow_pos k ltac:(lia)).
  exists mb'. split; [|by intros q; eapply evictions_leaving]. intros st' R E1 E2 N' HN'. destruct (rest_resp _ _ R) as (Rc & _ & _). simpl in Rc. split; try done.
  - apply (config_rest (set_core c' st)); [|done..]. apply config_core; [done|done|by rewrite Fs|by rewrite Fs].
  - rewrite Rc. destruct S4 as [H1 H2 H3 H4]. split; [done|done|done|]. rewrite <- H4. apply Fp.
  - rewrite Rc. intros q [Hin|Hin]%elem_of_app.
    + destruct (S5 q Hin) as [? Hn]. split; [done|]. intros Hca. by apply Hn, M1.
    + split; [by eapply evictions_leaving|]. destruct (M2 q Hin) as (x & Ex & _ & Hn). rewrite Ex, Z.div_mul by lia. done.
  - eapply flushes_evictions; [done|done|by intros q Hin; apply S5|done|]. intros q wb Hin Hwb E. destruct (M2 wb Hwb) as (x & Ex & Hca & _).
    destruct (S5 q Hin) as [_ Hn]. apply Hn. rewrite E, Ex, Z.div_mul by lia. exact Hca.
  - rewrite Rc. by apply F6.
Qed.

Lemma flushed_rows c' wbs c V mbf pkt a :
  row_pkt k has pkt a → flushing k s has V mbf c (λ x, ∃ r y, r ∈ [dest a; src1 a; src2 a] ∧ r mod 2 ^ k = 0 ∧ 0 ≤ r ∧ r + ROW_SIZE < 2 ^ 64 ∧
    r ≤ y < r + ROW_SIZE ∧ x = y / 2 ^ k) (c', wbs) → uncached_rows c' a.
Proof using Type.
  intros Hr [_ _ _ Fg _ _] r y Hor Hy. apply Fg. exists r, y. destruct (rp_rows _ _ _ _ Hr r Hor) as [R1 R2].
  destruct (rr_payload _ _ _ (rp_req _ _ _ _ Hr)) as (P1 & P2 & P3).
  split; [rewrite !elem_of_cons; naive_solver|]. split; [done|]. split; [destruct Hor as [->|[->|[_ ->]]]; lia|done].
Qed.

Lemma delays_row pkt a : row_pkt k has pkt a → row_pkt k has (Packet.with_delays pkt 0 0) a.
Proof using Type. intros [[] [] R3 R4 R5]. by split. Qed.

(** A row operation: the blocks of its rows leave the cache before it. *)
Lemma recv_row N now st sd evs mbf V pkt a g :
  params → in_time now → N + flush_limit k + 1 < 2 ^ 64 → base_ok now st → calm N now st sd evs evs mbf V → MSHRQueue.allocatedList (mshrQueue st) = [] → reply sd = None →
  respQueue st = PacketQueue.new → row_pkt k has pkt a → rowop_byte (op a) = Some g → _masterId (Packet.req pkt) < masters → Packet.addr pkt = dest a →
  Packet.headerDelay pkt = 0 → MSHRQueue.isFull (writeBuffer st) = false →
  ∃ st', recvTimingReq now (edge p now) pkt st sd = Ok (true, st', sd) ∧ (sendRetryEvent st = None → sendRetryEvent st' = None) ∧
    base_ok now st' ∧ phase (N + flush_limit k + 1) now st' sd (rowop_effect g a V) (Some None).
Proof using Type.
  intros Hpa Htime HN S1 Hcalm Hm Hrep Hresp Hpk Hg Hmas Hdest Hdel Hroom. pose proof (pa_period Hpa) as Hp. pose proof Hcalm as [[S2 S3 S4 S5 S6 S7 S8] Hq Hsv].
  pose proof (re_cache _ _ _ _ _ _ _ S4) as Hc. destruct (ck_plain _ _ _ Hc) as (_ & Hby & _). pose proof (rp_req _ _ _ _ Hpk) as Hreq.
  destruct (access_rowop_flush k s masters has now (lookup_core st) mbf V pkt a (holds_lookup _ _ _ S4) Hreq (rp_wf _ _ _ _ Hpk)) as (c' & wbs & Eacc & Hfl & Hlen); [apply Hpk..|].
  assert (Packet.evictingBlock pkt = false ∧ Packet.isWrite pkt && negb (Packet.isRead pkt) = true ∧ Packet.isWrite pkt = true ∧ MemCmd.isSWPrefetch (Packet.cmd pkt) = false ∧
    Packet.cmd pkt ≠ MemCmd.HardPFReq) as (K1 & K2 & K3 & K4 & K5)
    by (unfold Packet.evictingBlock, Packet.isWrite, Packet.isRead; by rewrite (rp_cmd _ _ _ _ Hpk)).
  unfold recvTimingReq. rewrite (rr_request _ _ _ Hreq), Hby, (row_not_promoted st pkt a Hc S2 Hpk). cbn [check mbind res_mbind].
  rewrite (rr_inhibit _ _ _ Hreq), Eacc. cbn [mbind res_mbind]. rewrite K1.
  destruct (pa_lat Hpa) as (L1 & L2 & L3 & L4). pose proof (edge_spec p now Hp). pose proof Htime as [Hn0 Ht].
  rewrite (cycles_after_edge now st (forwardLatency st) Hpa S2) by (first [split; done | rewrite (proj1 (cf_lat _ S2)); lia]). rewrite (proj1 (cf_lat _ S2)), Hdel.
  rewrite Z.add_0_r, (wrap_small 64 (edge p now + p * fl)) by (unfold MaxTick in Ht; nia). change (edge p now + p * fl) with (forward_at now).
  destruct (flush_steady N now st sd evs mbf V c' wbs _ Hcalm Hfl) as (mbf' & Hst & Hlv).
  pose proof (free_room _ (bo_write _ _ S1) Hroom) as Hfr. pose proof (proj1 (cf_write _ S2)) as Hres. assert (forward_at now ≠ MaxTick) as HT by (unfold forward_at, MaxTick in *; nia).
  set (st0 := set_core c' st). destruct (doWritebacks_ok k s has now (forward_at now) wbs sd st0 evs) as (st1 & -> & Hb1 & G1 & Eo1 & Hq1 & Ef1);
    [lia|done|apply S8|change (order st0) with (order st); lia|apply Hfl|by apply base_core|done|done|change (writeBuffer st0) with (writeBuffer st); lia|].
  cbn [mbind res_mbind]. set (pkt2 := Packet.with_delays pkt 0 0). pose proof (delays_row pkt a Hpk) as Hpk2. fold pkt2 in Hpk2.
  unfold recv_miss. rewrite (getAddr_ok pkt2 (payload_bytes a)) by apply Hpk2. cbn [mbind res_mbind].
  unfold Packet.isSecure. rewrite (fw_addr pkt2 (payload_bytes a)) by apply Hpk2. cbn [check mbind res_mbind mret res_mret]. rewrite (proj1 (rp_plain _ _ _ _ Hpk2)).
  change (Packet.cmd pkt2) with (Packet.cmd pkt). rewrite K4. cbn [mbind res_mbind mret res_mret]. unfold new_miss, Cache.count_master.
  destruct (rest_resp _ _ (gr_rest _ _ G1)) as (Rc1 & Rq1 & _). rewrite Rc1. change (core st0) with c'.
  assert (Tags.maxMasters (Cache.tags c') = masters) as -> by (rewrite <- (re_masters _ _ _ _ _ _ _ S4); apply Hfl).
  change (Packet.req pkt2) with (Packet.req pkt). rewrite (proj2 (Z.ltb_lt _ _) Hmas), (proj1 (rp_plain _ _ _ _ Hpk)). cbn [check mbind res_mbind].
  change (Packet.isWrite pkt2) with (Packet.isWrite pkt). rewrite K3, orb_true_r.
  destruct (allocateWriteBuffer_ok k s now (forward_at now) (order st1 + 1) pkt2 (payload_bytes a) st1 (evs ++ wbs)) as (i & st2 & -> & Hb2 & G2 & Eo2 & Hq2 & Ef2); try done.
  { lia. } { change (order st0) with (order st) in Eo1. lia. } { rewrite Rc1. apply Hfl. } { eapply queued_mono; [..|exact Hq1]; lia. } { apply Hpk2. } { apply Hpk2. }
  { intros Ez. rewrite Ez in Ef1. simpl in Ef1. change (writeBuffer st0) with (writeBuffer st) in Ef1. lia. } { change (order st0) with (order st) in Eo1. lia. }
  cbn [mbind res_mbind mret res_mret]. change (order st0) with (order st) in Eo1. pose proof (grown_trans _ _ _ G1 G2) as G. exists st2. split; [done|].
  split; [by apply G|]. split; [done|]. destruct (rest_resp _ _ (gr_rest _ _ G)) as (Rc & Rq & _).
  eapply (ph_row_wait _ _ _ _ (evs ++ wbs) mbf' V pkt2 a g).
  - split; [apply Hst; [apply G| |exact (grown_dims _ _ G)|lia]|eapply queued_mono; [..|exact Hq2]; lia|by rewrite (gr_service _ _ G)]. by rewrite (gr_miss _ _ G).
  - by rewrite (gr_miss _ _ G).
  - done.
  - by rewrite Rq.
  - by split.
  - rewrite Rc. by eapply flushed_rows.
Qed.

(** What the phases depend on besides the ports. *)
Definition view_of (st : TimingCache) :=
  (core st, mshrQueue st, writeBuffer st, order st, respQueue st, pkts st, (forwardLatency st, responseLatency st, noTargetMSHR st)).

Lemma phase_view N N' now st st' sd sd' V x :
  phase N now st sd V x → N ≤ N' → view_of st' = view_of st → below sd' = below sd → reply sd' = reply sd → phase N' now st' sd' V x.
Proof using Type.
  intros Hph HN Ev Eb Er. unfold view_of in Ev. injection Ev as E1 E2 E3 E4 E5 E6 E7 E8 E9.
  assert (∀ evs mbf V, steady N now st sd evs mbf V → steady N' now st' sd' evs mbf V) as Hs.
  { intros evs mbf V0 [[C1 C2 C3 C4 C5 C6 C7] S3 S4 S5 S6 S7 S8]. split; rewrite ?E1, ?E4, ?Eb; try done; [|lia]. split; by rewrite ?E1, ?E2, ?E3, ?E7, ?E8, ?E9. }
  assert (∀ evs wbs mbf V, calm N now st sd evs wbs mbf V → calm N' now st' sd' evs wbs mbf V) as Hc.
  { intros evs wbs mbf V0 [C1 C2 C3]. split; rewrite ?E3, ?E4; try done. by apply Hs. }
  assert (∀ pkt d i e, missing st pkt d i e → missing st' pkt d i e) as Hmi by (intros pkt d i e []; split; rewrite ?E1, ?E2, ?E3; done).
  destruct Hph as [evs mbf V C ? ? ?|evs mbf V t pkt d C ? ? Hr Ht Ha|evs mbf V pkt a g C|mbf V pkt a g w e out r S|evs mbf V pkt d i e C ? ? Hm ? Hrt Hq|evs mbf V pkt d i e r C ? Hm].
  - eapply (ph_idle _ _ _ _ evs mbf); rewrite ?E2, ?E5, ?Er; try done. by apply Hc.
  - eapply (ph_answer _ _ _ _ evs mbf _ t pkt); rewrite ?E2, ?E5, ?Er; try done; [by apply Hc|]. unfold responding. by rewrite E5, E6.
  - eapply (ph_row_wait _ _ _ _ evs mbf _ pkt); rewrite ?E1, ?E2, ?E5, ?Er; try done. by apply Hc.
  - eapply (ph_row_sent _ _ _ _ mbf V pkt a g w e out r); rewrite ?E1, ?E2, ?E3, ?E5, ?Er; try done. by apply Hs.
  - eapply (ph_miss_wait _ _ _ _ evs mbf V pkt d i e); rewrite ?E2, ?E3, ?E5, ?Er; try done; [by apply Hc|by apply Hmi].
  - eapply (ph_miss_sent _ _ _ _ evs mbf V pkt d i e r); rewrite ?E2, ?E5, ?Er; try done; [by apply Hc|by apply Hmi].
Qed.

(** A request that suits the ports of the cache. *)
Record admissible (pkt : Packet) : Prop := {
  ad_delay : Packet.headerDelay pkt = 0;
  ad_master : _masterId (Packet.req pkt) < masters;
  ad_dest a : row_pkt k has pkt a → Packet.addr pkt = dest a;
}.

Lemma promoted_twice c pkt pkt' :
  Cache.promoteWholeLineWrites c pkt = Ok pkt' → Packet.cmd pkt' ≠ MemCmd.WriteReq ∨ pkt' = pkt → Cache.promoteWholeLineWrites c pkt' = Ok pkt'.
Proof using Type.
  intros E [Hne| ->]; [|done]. unfold Cache.promoteWholeLineWrites. rewrite (bool_decide_false (_ = MemCmd.WriteReq)) by done. by rewrite andb_false_r.
Qed.

Lemma promote_recv now st (sd : Side M) pkt pkt' :
  Packet.isRequest pkt = true → Cache.bypassCaches (core st) = false → Cache.promoteWholeLineWrites (core st) pkt = Ok pkt' →
  Packet.isRequest pkt' = true → Cache.promoteWholeLineWrites (core st) pkt' = Ok pkt' →
  recvTimingReq now (edge p now) pkt st sd = recvTimingReq now (edge p now) pkt' st sd.
Proof using Type. intros E1 E2 E3 E4 E5. unfold recvTimingReq. by rewrite E1, E2, E3, E4, E5. Qed.

(** Reads and writes. *)
Lemma recv_cpu N now st sd evs mbf V pkt d :
  params → in_time now → N + 1 < 2 ^ 64 → base_ok now st → calm N now st sd evs evs mbf V → MSHRQueue.allocatedList (mshrQueue st) = [] → reply sd = None →
  respQueue st = PacketQueue.new → cpu_pkt k masters has pkt d → Packet.headerDelay pkt = 0 → MSHRQueue.isFull (writeBuffer st) = false →
  ∃ st', recvTimingReq now (edge p now) pkt st sd = Ok (true, st', sd) ∧ (sendRetryEvent st = None → sendRetryEvent st' = None) ∧
    base_ok now st' ∧ ∃ N', N' ≤ N + 1 ∧ phase N' now st' sd (after pkt d V) (Some (result_of V pkt)).
Proof using Type.
  intros Hpa Htime HN S1 Hcalm Hm Hrep Hresp Hpk Hdel Hroom. pose proof Hcalm as [[S2 S3 S4 S5 S6 S7 S8] Hq Hsv].
  pose proof (re_cache _ _ _ _ _ _ _ S4) as Hc. destruct (ck_plain _ _ _ Hc) as (_ & Hby & _).
  destruct (promote_cpu k s masters has (core st) pkt d Hc Hpk) as (pkt1 & Ep & Hpk1 & Erd & Ehd & Eaft). destruct (Eaft V) as [<- Eby].
  assert (result_of V pkt = result_of V pkt1) as -> by (unfold result_of; by rewrite Erd, Eby).
  assert (Cache.promoteWholeLineWrites (core st) pkt1 = Ok pkt1) as Ep1.
  { eapply promoted_twice; [done|]. destruct (promote_ok k s (core st) pkt d Hc (cq_wf _ _ _ _ _ Hpk)) as (pkt' & E & [->|(_ & _ & _ & ->)]); rewrite Ep in E; injection E as ->; auto. }
  rewrite (promote_recv now st sd pkt pkt1) by (done || by eapply cpu_cmd). rewrite <- Ehd in Hdel.
  destruct (access_cpu k s masters has now (lookup_core st) pkt1 d (re_cache _ _ _ _ _ _ _ (holds_lookup _ _ _ S4)) (re_masters _ _ _ _ _ _ _ S4) Hpk1)
    as [(x & b & t' & lat & Hx & Hv & Hbn & Hup & Hlat & Ea)|(Hn & lat & Ea)].
  - destruct (recv_hit N now st sd evs mbf V pkt1 d x b t' lat) as (st' & E & Ev & Hb' & Hph); try done. exists st'. split; [done|]. split; [by rewrite Ev|]. split; [done|]. exists N. split; [lia|done].
  - destruct (recv_new_miss N now st sd evs mbf V pkt1 d lat) as (st' & E & Ev & Hb' & Hph); try done. exists st'. split; [done|]. split; [done|]. split; [done|]. by exists (N + 1).
Qed.

Lemma flush_limit_pos : 0 ≤ k → 0 ≤ flush_limit k.
Proof using Type. intros Hk. unfold flush_limit. pose proof (pow_pos k Hk). assert (0 ≤ (ROW_SIZE + 2 ^ k - 1) / 2 ^ k) by (apply Z.div_pos; unfold ROW_SIZE; lia). lia. Qed.

(** The processor side port. *)
Lemma cpu_request N now st sd V pkt V' d :
  params → in_time now → N + flush_limit k + 1 < 2 ^ 64 → base_ok now st → phase N now st sd V None → flat_access k masters has V pkt V' d → admissible pkt →
  ∃ ok st', cpu_recvTimingReq now (edge p now) pkt st sd = Ok (ok, st', sd) ∧ base_ok now st' ∧
    phase (N + flush_limit k + 1) now st' sd (if ok then V' else V) (if ok then Some d else None).
Proof using Type.
  intros Hpa Htime HN S1 Hph Hfa [A1 A2 A3]. inversion Hph as [evs mbf V0 Hcalm Hm Hrep Hresp| | | | |]; subst.
  pose proof Hcalm as [[S2 S3 S4 S5 S6 S7 S8] Hq Hsv]. pose proof (re_cache _ _ _ _ _ _ _ S4) as Hc. destruct (ck_plain _ _ _ Hc) as (_ & Hby & _).
  pose proof (flush_limit_pos ltac:(pose proof (geo_range _ _ _ (tk_geo _ _ _ (ck_tags _ _ _ Hc))); lia)) as Hfp.
  assert (Packet.memInhibitAsserted pkt = false) as Hmi by (inversion Hfa as [? ? Hpk|? ? ? Hpk]; [apply Hpk|by eapply rr_inhibit, rp_req]).
  unfold cpu_recvTimingReq. rewrite Hby, Hmi. cbn [negb check mbind res_mbind]. pose proof (bo_port _ _ S1) as [P1 P2 P3 P4].
  destruct (cpuBlocked st || mustSendRetry st) eqn:Ebl; cbn [mbind res_mbind mret res_mret].
  { exists false, (set_cpuPort (cpuBlocked st) true (sendRetryEvent st) st). split; [done|]. split; [|eapply phase_view; [exact Hph|lia|done..]].
    destruct S1 as [B1 [B5 B6 B7] B8 B9 B10 B11]. split; try done. split; simpl; [done|done| |].
    - intros t Ht. destruct (P3 t Ht) as (? & ? & _). done.
    - intros _ Hcb. apply P4; [|done]. by rewrite Hcb in Ebl. }
  apply orb_false_iff in Ebl as [Ecb Emr]. assert (sendRetryEvent st = None) as Hnone.
  { destruct (sendRetryEvent st) as [t|]; [|done]. destruct (P3 t eq_refl) as (_ & _ & ?). congruence. }
  assert (MSHRQueue.isFull (writeBuffer st) = false) as Hroom by (rewrite Ecb in P2; symmetry in P2; by apply orb_false_iff in P2 as [_ ?]).
  assert (∃ st' N', recvTimingReq now (edge p now) pkt st sd = Ok (true, st', sd) ∧ sendRetryEvent st' = None ∧ N' ≤ N + flush_limit k + 1 ∧
    base_ok now st' ∧ phase N' now st' sd V' (Some d)) as (st' & N' & E & Ev & HN' & Hb' & Hph').
  { inversion Hfa as [pkt0 d0 Hpk|pkt0 a g Hpk Hg]; subst.
    - destruct (recv_cpu N now st sd evs mbf V pkt d0) as (st' & E & Ev & Hb' & N' & ? & Hph'); try done; [lia|]. exists st', N'. split; [done|]. split; [auto|]. split; [lia|done].
    - destruct (recv_row N now st sd evs mbf V pkt a g) as (st' & E & Ev & Hb' & Hph'); try done; [auto|]. exists st', (N + flush_limit k + 1). split; [done|]. split; [auto|done]. }
  rewrite E. cbn [mbind res_mbind mret res_mret negb]. eexists true, _. split; [reflexivity|]. split; [|by eapply phase_view; [exact Hph'|..]].
  destruct Hb' as [[Q1 Q2 Q3 Q4] [B5 B6 B7] B8 B9 B10 B11]. split; try done. split; simpl; [done|done|by rewrite Ev|done].
Qed.

(** ** Sending *)

Lemma send_nothing now T st (sd : Side M) :
  0 ≤ now < MaxTick → T < MaxTick → idle_ok now st → PacketQueue.waitingOnRetry (reqQueue st) = false →
  early T (mshrQueue st) → early T (writeBuffer st) → getNextMSHR now st = Ok None →
  ∃ q, sendDeferredPacket now st sd = Ok (set_reqQueue q st, sd) ∧ base_ok now (set_reqQueue q st).
Proof using Type.
  intros Hnow HT Hi Hw Hm Hwb En. unfold sendDeferredPacket. rewrite Hw, (empty_ready now st (io_send _ _ Hi)). unfold getTimingPacket. rewrite En.
  cbn [negb check mbind res_mbind mret res_mret orb]. rewrite Hw. by apply (finish_send now T).
Qed.

Lemma forward_in_time now : params → in_time now → 0 ≤ now < MaxTick ∧ forward_at now < MaxTick.
Proof using Type. intros [Hp (L1 & L2 & L3 & L4)] [Hn Ht]. pose proof (edge_spec p now Hp). unfold forward_at. nia. Qed.

Lemma steady_kept N now st st' sd sd' evs evs' mbf V :
  steady N now st sd evs mbf V → kept st st' → dims (mshrQueue st') = dims (mshrQueue st) →
  dims (writeBuffer st') = dims (writeBuffer st) → mem_ok (below sd') → (∀ q, q ∈ evs' → q ∈ evs) →
  flushes evs' (mem_byte (below sd')) mbf → steady N now st' sd' evs' mbf V.
Proof using Type.
  intros [S2 S3 S4 S5 S6 S7 S8] [R Eo] E1 E2 Hm Hsub Hf. destruct (rest_resp _ _ R) as (Rc & _ & _). split; rewrite ?Rc, ?Eo; try done; [by eapply config_rest|]. auto.
Qed.

(** An eviction is sent. *)
Lemma send_write N now st sd evs tl mbf V w l1 l2 :
  params → in_time now → idle_ok now st → PacketQueue.waitingOnRetry (reqQueue st) = false → PacketQueue.sendEvent (reqQueue st) = None →
  calm N now st sd evs (evs ++ tl) mbf V → early (forward_at now) (mshrQueue st) → getNextMSHR now st = Ok (Some (Write w)) →
  MSHRQueue.readyList (writeBuffer st) = l1 ++ w :: l2 → (length l1 < length evs)%nat →
  ∃ st' sd' evs', sendDeferredPacket now st sd = Ok (st', sd') ∧ base_ok now st' ∧ kept st st' ∧ mshrQueue st' = mshrQueue st ∧ reply sd' = reply sd ∧
    calm N now st' sd' evs' (evs' ++ tl) mbf V ∧ (∀ q, q ∈ evs' → q ∈ evs) ∧ (MSHRQueue.isFull (writeBuffer st') = true → MSHRQueue.isFull (writeBuffer st) = true) ∧
    ∀ O, queued k (forward_at now) O (writeBuffer st) (evs ++ tl) → queued k (forward_at now) O (writeBuffer st') (evs' ++ tl).
Proof using Type.
  intros Hpa Htime Hi Hw Hev Hcalm Hem En El Hlen. destruct (forward_in_time now Hpa Htime) as [Hnow HT]. pose proof Hcalm as [Hst Hq Hsv].
  pose proof Hst as [S2 S3 S4 S5 S6 S7 S8].
  assert (∀ p1 pkt p2, evs ++ tl = p1 ++ pkt :: p2 → length p1 = length l1 → ∃ e2, evs = p1 ++ pkt :: e2 ∧ p2 = e2 ++ tl) as Hsplit.
  { intros p1 pkt p2 E L. exists (drop (S (length p1)) evs). assert (take (S (length p1)) evs = p1 ++ [pkt]) as Htk.
    { rewrite <- (take_app_le evs tl) by lia. rewrite E. replace (p1 ++ pkt :: p2) with ((p1 ++ [pkt]) ++ p2) by (by rewrite <- app_assoc).
      rewrite take_app_le by (rewrite length_app; simpl; lia). apply take_ge. rewrite length_app. simpl. lia. }
    assert (evs = p1 ++ pkt :: drop (S (length p1)) evs) as Ee by (rewrite <- (take_drop (S (length p1)) evs) at 1; rewrite Htk; by rewrite <- app_assoc).
    split; [done|]. rewrite Ee in E at 1. rewrite <- app_assoc in E. simpl in E. apply app_inv_head in E. by injection E. }
  destruct (send_evict k s has now (forward_at now) (order st) st sd w (evs ++ tl) l1 l2) as (st' & sd' & E & Hb' & Hk' & Em & Er & Hm' & Hor); try done.
  { apply S4. } { intros p1 pkt p2 Epk L. destruct (Hsplit p1 pkt p2 Epk L) as (e2 & Ee & _). apply S5. rewrite Ee. apply elem_of_app. right. left. }
  exists st', sd'. destruct Hor as [[Eb Ew]|(p1 & pkt & p2 & e & d & Epk & L & Hsto & Ew & Hq')].
  - exists evs. split; [done|]. split; [done|]. split; [done|]. split; [done|]. split; [done|]. rewrite Ew. split; [|done].
    split; rewrite ?Ew; try done; [|by rewrite (kp_order _ _ Hk')]. eapply steady_kept; [exact Hst|done|by rewrite Em|by rewrite Ew|done|done|by rewrite Eb].
  - destruct (Hsplit p1 pkt p2 Epk L) as (e2 & Ee & ->). exists (p1 ++ e2). do 5 (split; [done|]). rewrite <- app_assoc in *.
    assert (∀ q, q ∈ p1 ++ e2 → q ∈ evs) as Hsub by (intros q; rewrite Ee, !elem_of_app, elem_of_cons; tauto).
    split; [|split; [done|split; [rewrite Ew; apply isFull_freed|]]].
    + split.
      * eapply steady_kept; [exact Hst|done|by rewrite Em|by rewrite Ew|done|done|]. eapply flushes_sent; [|exact Hsto]. by rewrite <- Ee.
      * by rewrite (kp_order _ _ Hk').
      * rewrite Ew. simpl. rewrite El, bool_decide_true; [done|]. apply elem_of_app. right. left.
    + intros O HO. rewrite Ew. destruct (queued_erase k _ O _ (freed w e d (writeBuffer st)) (evs ++ tl) w l1 l2 (qo_ready _ (io_write _ _ Hi)) HO El eq_refl)
        as (p1' & pkt' & p2' & Epk' & L' & _ & HqO).
      { intros j f Hne Hf. destruct (queued_all k _ _ _ _ w HO) as (e0 & He0); [rewrite El; apply elem_of_app; right; left|]. by eapply freed_entry. }
      rewrite Epk in Epk'. apply app_inj_1 in Epk' as [<- [= <- <-]]; [done|lia].
Qed.

Lemma reg_forward b e pkt : reg k e pkt → reg k (MSHR.set_isForward b e) pkt.
Proof using Type. intros [R1 R2 R3 R4 R5 R6]. by split. Qed.

Lemma queued_forward T O q pkts i e b :
  queued k T O q pkts → entry q i e → queued k T O (MSHRQueue.put i (MSHR.set_isForward b e) q) pkts.
Proof using Type.
  intros Hq He. unfold queued in *. simpl. eapply Forall2_impl; [exact Hq|]. intros j pkt (f & Hf & Hr & Ht & Ho). destruct (decide (j = i)) as [->|Hne].
  - rewrite (entry_fun _ _ _ _ Hf He) in *. exists (MSHR.set_isForward b e). split; [apply (entry_put q i i e); [done|by left]|]. split; [by apply reg_forward|done].
  - exists f. split; [apply (entry_put q i j e); [done|by right]|done].
Qed.

Lemma served_entry q i e0 e : entry q i e0 → entry (served i e q) i e.
Proof using Type. intros He. apply (entry_put q i i e0 e e He). by left. Qed.

Lemma served_reg_ok b pd e pkt : reg k e pkt → served_reg (in_service pd (MSHR.set_isForward b e)) pkt b.
Proof using Type. intros [R1 R2 R3 R4 R5 R6]. by split. Qed.

Lemma erase_only i : MSHRQueue.erase i [i] = [].
Proof using Type. unfold MSHRQueue.erase. by rewrite filter_cons_False by tauto. Qed.

Lemma alloc_of_ready q w : queue_ok q → MSHRQueue.inServiceEntries q = 0 → MSHRQueue.readyList q = [w] → MSHRQueue.allocatedList q = [w].
Proof using Type.
  intros Hq E El. pose proof (qo_service q Hq) as Hs. rewrite E, El in Hs. simpl in Hs. assert (w ∈ MSHRQueue.allocatedList q) as Hw by (apply (qo_ready_in q Hq); rewrite El; left).
  destruct (MSHRQueue.allocatedList q) as [|x [|y l]]; [simpl in Hs; lia| |simpl in Hs; lia]. by apply list_elem_of_singleton in Hw as ->.
Qed.

Lemma uncached_dest c pkt a : row_pkt k has pkt a → Packet.addr pkt = dest a → uncached_rows c a → ¬ cached s (Cache.tags c) (Packet.addr pkt / 2 ^ k).
Proof using Type. intros Hr -> Hu. apply (Hu (dest a)); [by left|]. unfold ROW_SIZE. lia. Qed.

Lemma row_holds c mbf mb' V a g pkt :
  holds k s masters has c mbf V → row_pkt k has pkt a → rowop_byte (op a) = Some g → uncached_rows c a → (∀ x, mb' x = rowop_effect g a mbf x) →
  holds k s masters has c mb' (rowop_effect g a V).
Proof using Type.
  intros [H1 H2 H3 H4] Hr Hg Hu E. split; [done| |intros x; unfold rowop_effect; case_decide; [by eapply rowop_byte_range|done]|done].
  eapply coherent_rowop; [done|done|apply (rp_req _ _ _ _ Hr)|done|intros y Hy; by apply (Hu (dest a)); [left|]|intros y Hy; by apply (Hu (src1 a)); [right; left|]|].
  intros Hb y Hy. by apply (Hu (src2 a)); [right; right|].
Qed.

(** The row operation is sent when no eviction is left. *)
Lemma send_row N now st sd mbf V pkt a g w :
  params → in_time now → idle_ok now st → PacketQueue.waitingOnRetry (reqQueue st) = false → PacketQueue.sendEvent (reqQueue st) = None →
  calm N now st sd [] [pkt] mbf V → MSHRQueue.allocatedList (mshrQueue st) = [] → reply sd = None → respQueue st = PacketQueue.new →
  row_waits pkt a g → uncached_rows (core st) a → getNextMSHR now st = Ok (Some (Write w)) → MSHRQueue.readyList (writeBuffer st) = [w] →
  ∃ st' sd', sendDeferredPacket now st sd = Ok (st', sd') ∧ base_ok now st' ∧ phase N now st' sd' (rowop_effect g a V) (Some None).
Proof using Type.
  intros Hpa Htime Hi Hw Hev Hcalm Hm Hrep Hresp Hrw Hun En El. destruct (forward_in_time now Hpa Htime) as [Hnow HT]. pose proof Hcalm as [Hst Hq Hsv].
  pose proof Hst as [S2 S3 S4 S5 S6 S7 S8]. pose proof (re_cache _ _ _ _ _ _ _ S4) as Hc. pose proof Hrw as [Hpk Hg Hdest Hmas [Hd1 Hd2]]. pose proof (rp_req _ _ _ _ Hpk) as Hreq.
  assert (waits k (forward_at now) (order st) (writeBuffer st) w pkt) as (e & He & Hreg & Ht & Ho) by (unfold queued in Hq; rewrite El in Hq; by inversion Hq).
  pose proof Hreg as [(t & Et & Ep & Es) Ed Ea Esec _ _]. assert (Packet.cmd pkt ≠ MemCmd.HardPFReq) as Hpf by (by rewrite (rp_cmd _ _ _ _ Hpk)).
  destruct (copy_row has pkt a Hreq (rp_wf _ _ _ _ Hpk) (rp_cmd _ _ _ _ Hpk)) as (out & Ecp & Hro & Hwo & C1 & C2 & C3 & C4 & C5 & C6).
  pose proof (request_timing_packet k s now st sd (Write w) e pkt _ None En Hc He Hreg (rp_wf _ _ _ _ Hpk) (uncached_dest _ _ _ Hpk Hdest Hun) (rr_needs _ _ _ Hreq) Hpf) as Egt.
  rewrite Ecp in Egt. cbn [mbind res_mbind] in Egt. rewrite (bool_decide_true (None = None)) in Egt by done.
  specialize (Egt ltac:(unfold Cache.getBusPacket; cbn [mbind res_mbind mret res_mret]; by rewrite (proj1 (rp_plain _ _ _ _ Hpk)))).
  set (out' := Packet.with_senderState out [mshr_id (Write w)]) in *. assert (func_wf out' (payload_bytes a)) as Hwo' by (by destruct Hwo).
  pose proof (row_req_sender has out a [mshr_id (Write w)] Hro) as Hro'. fold out' in Hro'.
  assert (early (forward_at now) (mshrQueue st)) as Hem by (intros j Hj; rewrite (ready_of_empty _ (io_miss _ _ Hi) Hm) in Hj; by apply elem_of_nil in Hj).
  assert (∀ acc sd', sendTimingReq sd out' = Ok (acc, sd', out') → ∃ st', sendDeferredPacket now st sd = Ok (st', sd') ∧ base_ok now st' ∧ kept st st' ∧
    mshrQueue st' = mshrQueue st ∧ writeBuffer st' = let q := MSHRQueue.put w (MSHR.set_isForward true e) (writeBuffer st) in
      if acc then served w (in_service (negb (Packet.sharedAsserted out') && Packet.memInhibitAsserted out') (MSHR.set_isForward true e)) q else q) as Hsend.
  { intros acc sd' Esd. eapply (send_request now (forward_at now) st sd sd' (Write w) true e t out' _ acc); try done; [by eapply queued_early|simpl; rewrite El; left|].
    rewrite Ep. apply Hreq. }
  destruct (accepts sd) eqn:Eacc.
  - destruct (mem_rowop (below sd) out' a g S3 Hro' Hg) as (m & r & lat & Esa & Hm' & Hby & Emk).
    destruct (Hsend true (mkSide true m (Some r))) as (st' & E & Hb' & Hk' & Em & Ew).
    { unfold sendTimingReq, side_timing. rewrite Eacc, Esa. cbn [mbind res_mbind]. by rewrite (rr_needs _ _ _ Hro'). }
    destruct (rest_resp _ _ (kp_rest _ _ Hk')) as (Rc & Rq & _). exists st', (mkSide true m (Some r)). split; [done|]. split; [done|].
    pose proof (proj1 (flushes_nil _ _) S6) as Hmb.
    eapply (ph_row_sent _ _ _ _ (mem_byte m) _ pkt a g w _ out' r); rewrite ?Rc, ?Rq, ?Em; try done.
    + split; rewrite ?Rc, ?(kp_order _ _ Hk'); try done; [eapply config_rest; [exact S2|apply Hk'|by rewrite Em|by rewrite Ew]| |by apply flushes_nil].
      eapply row_holds; [exact S4|exact Hpk|done|done|]. intros x. rewrite Hby. unfold rowop_effect. by rewrite !Hmb.
    + rewrite Ew. simpl. rewrite El. apply erase_only.
    + rewrite Ew. simpl. by apply (alloc_of_ready _ w (io_write _ _ Hi)).
    + rewrite Ew. eapply served_entry. apply (entry_put _ w w e); [done|by left].
    + by apply served_reg_ok.
    + by rewrite <- (rp_cmd _ _ _ _ Hpk).
    + change (Packet._isSecure out = false). rewrite C4. apply Hpk.
    + by rewrite <- Hd1.
    + by rewrite <- Hd2.
  - destruct (Hsend false sd) as (st' & E & Hb' & Hk' & Em & Ew); [unfold sendTimingReq, side_timing; by rewrite Eacc|].
    destruct (rest_resp _ _ (kp_rest _ _ Hk')) as (Rc & Rq & _). exists st', sd. split; [done|]. split; [done|].
    eapply (ph_row_wait _ _ _ _ [] mbf V pkt a g); rewrite ?Rc, ?Rq, ?Em; try done. split; rewrite ?Ew, ?(kp_order _ _ Hk'); [|by apply queued_forward|done].
    eapply steady_kept; [exact Hst|done|by rewrite Em|by rewrite Ew|done..].
Qed.

Lemma flushes_ext evs mb mb1 mbf : flushes evs mb mbf → (∀ a, mb1 a = mb a) → flushes evs mb1 mbf.
Proof using Type. intros Hf E a. rewrite E. apply Hf. Qed.

(** No eviction of the block is on its way: the memory has its bytes. *)
Lemma flushes_block evs mb mbf y x :
  2 ≤ k → flushes evs mb mbf → (∀ q, q ∈ evs → leaving k s has q) → (∀ q, q ∈ evs → Packet.addr q / 2 ^ k ≠ y) → 0 ≤ x → x / 2 ^ k = y → mb x = mbf x.
Proof using Type.
  intros Hk Hf Hl Hne Hx E. symmetry. apply Hf. intros q Hq [_ Hr]. apply (Hne q Hq). destruct (leaving_facts k s has q (Hl q Hq)) as ((d & Hwf) & Es & (z & Ea) & _).
  pose proof (pow_pos k ltac:(lia)). pose proof (fw_range _ _ Hwf) as (_ & Ha & _). rewrite Es, Ea in *. assert (0 ≤ z) as Hz by nia.
  rewrite Z.div_mul by lia. apply (block_range k z x Hk Hz) in Hr as [_ Hr]. congruence.
Qed.

(** What the memory answers to a miss. *)
Lemma side_miss sd pkt d bus z mbf i :
  mem_ok (below sd) → accepts sd = true → cpu_pkt k masters has pkt d → plain_req has bus z → Packet.cmd bus = bus_cmd pkt →
  Packet.addr bus = Packet.addr pkt / 2 ^ k * 2 ^ k → Packet.size bus = 2 ^ k → Packet._isSecure bus = false → Packet.req bus = Packet.req pkt →
  Packet.flags bus = 0x2300 → Packet.headerDelay bus = 0 → Packet.payloadDelay bus = 0 →
  (∀ x, 0 ≤ x → x / 2 ^ k = Packet.addr pkt / 2 ^ k → mem_byte (below sd) x = mbf x) →
  let out := Packet.with_senderState bus [mshr_id (Miss i)] in
  ∃ m r, sendTimingReq sd out = Ok (true, mkSide true m (Some r), out) ∧ mem_ok m ∧ (∀ a, mem_byte m a = mem_byte (below sd) a) ∧ miss_reply pkt mbf i r.
Proof using Type.
  intros Hm Hacc Hpk Hb Hcmd Ea Es Hsec Ereq Efl Ehd Epd Hbytes out. pose proof (plain_req_sender has bus z [mshr_id (Miss i)] Hb) as Hb'. fold out in Hb'.
  assert (Packet.needsResponse out = true) as Hnr
    by (unfold Packet.needsResponse; change (Packet.cmd out) with (Packet.cmd bus); rewrite Hcmd; unfold bus_cmd; by destruct (cq_cmd _ _ _ _ _ Hpk) as [->|[->|[-> _]]]).
  assert (∃ m r lat, Cache.sendAtomic (below sd) out = Ok (m, r, lat) ∧ mem_ok m ∧ (∀ a, mem_byte m a = mem_byte (below sd) a) ∧
    if bool_decide (Packet.cmd pkt = MemCmd.WriteLineReq) then Packet.makeResponse out = Ok r
    else Packet.makeResponse (Packet.with_data out (Some (bytes_of (mem_byte (below sd)) out))) = Ok r) as (m & r & lat & Esa & Hm' & Hby & Emk).
  { case_bool_decide as Hwl.
    - apply (mem_invalidate (below sd) out z Hm Hb'). change (Packet.cmd out) with (Packet.cmd bus). rewrite Hcmd. unfold bus_cmd. by rewrite Hwl.
    - apply (mem_read (below sd) out z Hm Hb'). change (Packet.cmd out) with (Packet.cmd bus). rewrite Hcmd. unfold bus_cmd.
      destruct (cq_cmd _ _ _ _ _ Hpk) as [->|[->|[? _]]]; auto. done. }
  exists m, r. split; [unfold sendTimingReq, side_timing; rewrite Hacc, Esa; cbn [mbind res_mbind]; by rewrite Hnr|]. split; [done|]. split; [done|]. split.
  - revert Emk. unfold Packet.makeResponse. case_bool_decide; intros Emk; apply bind_Ok_inv in Emk as (? & _ & Emk); apply bind_Ok_inv in Emk as (? & _ & Emk); by injection Emk as <-.
  - exists out, z, (below sd). by split_and!.
Qed.

Lemma send_miss N now st sd evs mbf V pkt d i e :
  params → in_time now → idle_ok now st → PacketQueue.waitingOnRetry (reqQueue st) = false → PacketQueue.sendEvent (reqQueue st) = None →
  calm N now st sd evs evs mbf V → reply sd = None → respQueue st = PacketQueue.new → missing st pkt d i e → MSHRQueue.readyList (mshrQueue st) = [i] →
  MSHR.readyTime e ≤ forward_at now → queued k (forward_at now) (MSHR.order e) (writeBuffer st) evs → getNextMSHR now st = Ok (Some (Miss i)) →
  (∀ q, q ∈ evs → Packet.addr q / 2 ^ k * 2 ^ k ≠ MSHR.blkAddr e) →
  ∃ st' sd', sendDeferredPacket now st sd = Ok (st', sd') ∧ base_ok now st' ∧ phase N now st' sd' (after pkt d V) (Some (result_of V pkt)).
Proof using Type.
  intros Hpa Htime Hi Hw Hev Hcalm Hrep Hresp [M1 M2 M3 M4 M5 M6 M7] El Hrt HqO En Hno. destruct (forward_in_time now Hpa Htime) as [Hnow HT]. pose proof Hcalm as [Hst Hq Hsv].
  pose proof Hst as [S2 S3 S4 S5 S6 S7 S8]. pose proof (re_cache _ _ _ _ _ _ _ S4) as Hc. pose proof M4 as [(t & Et & Ep & Es) Ed Ea Esec _ _].
  destruct (cpu_cmd pkt d M5) as (K1 & _ & _ & _ & _ & K6). pose proof (geo_range _ _ _ (tk_geo _ _ _ (ck_tags _ _ _ Hc))) as (Hk & _).
  destruct (getBusPacket_ok k s masters has (core st) pkt d Hc M5) as (bus & z & Ebus & Hb & B1 & B2 & B3 & B4 & B5 & B6 & B7 & B8 & B9).
  pose proof (request_timing_packet k s now st sd (Miss i) e pkt d (Some bus) En Hc M3 M4 (cq_wf _ _ _ _ _ M5) M7 K1 K6 Ebus) as Egt. cbn [mbind res_mbind mret res_mret] in Egt.
  rewrite (bool_decide_false (Some bus = None)) in Egt by done. set (out := Packet.with_senderState bus [mshr_id (Miss i)]) in *.
  assert (∀ q, q ∈ evs → Packet.addr q / 2 ^ k ≠ Packet.addr pkt / 2 ^ k) as Hno' by (intros q Hqi E; apply (Hno q Hqi); by rewrite Ea, E).
  assert (early (forward_at now) (mshrQueue st)) as Hem by (intros j Hj; rewrite El in Hj; apply list_elem_of_singleton in Hj as ->; by exists e).
  assert (∀ acc sd', sendTimingReq sd out = Ok (acc, sd', out) → ∃ st', sendDeferredPacket now st sd = Ok (st', sd') ∧ base_ok now st' ∧ kept st st' ∧
    writeBuffer st' = writeBuffer st ∧ mshrQueue st' = let q := MSHRQueue.put i (MSHR.set_isForward false e) (mshrQueue st) in
      if acc then served i (in_service (negb (Packet.sharedAsserted out) && Packet.memInhibitAsserted out) (MSHR.set_isForward false e)) q else q) as Hsend.
  { intros acc sd' Esd. eapply (send_request now (forward_at now) st sd sd' (Miss i) false e t out z acc); try done; [by eapply queued_early|simpl; rewrite El; left|by rewrite Ep|].
    by destruct (pq_wf _ _ _ Hb). }
  assert (∀ st', kept st st' → writeBuffer st' = writeBuffer st → dims (mshrQueue st') = dims (mshrQueue st) →
    ∀ sd', mem_ok (below sd') → (∀ a, mem_byte (below sd') a = mem_byte (below sd) a) → calm N now st' sd' evs evs mbf V) as Hcalm'.
  { intros st' Hk' Ew Em sd' Hm' Hby. split; rewrite ?Ew, ?(kp_order _ _ Hk'); try done. eapply steady_kept; [exact Hst|done|done|by rewrite Ew|done|done|by eapply flushes_ext]. }
  assert (entry (MSHRQueue.put i (MSHR.set_isForward false e) (mshrQueue st)) i (MSHR.set_isForward false e)) as Hent by (apply (entry_put _ i i e); [done|by left]).
  destruct (accepts sd) eqn:Eacc.
  - destruct (side_miss sd pkt d bus z mbf i S3 Eacc M5 Hb B1 B2 B3 B5 B6 B7 B8 B9) as (m & r & Esd & Hm' & Hby & Hrep').
    { intros x Hx Ex. eapply flushes_block; [lia|done|by intros q Hqi; apply S5|done|done|done]. }
    destruct (Hsend _ _ Esd) as (st' & E & Hb' & Hk' & Ew & Em). destruct (rest_resp _ _ (kp_rest _ _ Hk')) as (Rc & Rq & _). eexists st', _. split; [done|]. split; [done|].
    set (e' := in_service (negb (Packet.sharedAsserted out) && Packet.memInhibitAsserted out) (MSHR.set_isForward false e)) in *.
    assert (served_reg e' pkt false) as Hsr by (by apply served_reg_ok).
    eapply (ph_miss_sent _ _ _ _ evs mbf V pkt d i e' r); rewrite ?Rq; try done.
    + apply Hcalm'; try done. by rewrite Em.
    + split; rewrite ?Ew, ?Em, ?Rc; try done; [by eapply served_entry|apply Hsr].
    + rewrite Em. simpl. rewrite El. apply erase_only.
  - destruct (Hsend false sd) as (st' & E & Hb' & Hk' & Ew & Em); [unfold sendTimingReq, side_timing; by rewrite Eacc|].
    destruct (rest_resp _ _ (kp_rest _ _ Hk')) as (Rc & Rq & _). exists st', sd. split; [done|]. split; [done|].
    eapply (ph_miss_wait _ _ _ _ evs mbf V pkt d i (MSHR.set_isForward false e)); rewrite ?Rq, ?Ew; try done; [apply Hcalm'; try done; by rewrite Em| |by rewrite Em].
    split; rewrite ?Ew, ?Em, ?Rc; try done. by apply reg_forward.
Qed.

Lemma calm_kept N now st st' sd evs wbs mbf V :
  calm N now st sd evs wbs mbf V → kept st st' → mshrQueue st' = mshrQueue st → writeBuffer st' = writeBuffer st → calm N now st' sd evs wbs mbf V.
Proof using Type.
  intros [Hst Hq Hsv] Hk Em Ew. split; rewrite ?Ew, ?(kp_order _ _ Hk); try done. eapply steady_kept; [exact Hst|done|by rewrite Em|by rewrite Ew|apply Hst|done|apply Hst].
Qed.

Lemma early_empty T q : queue_ok q → MSHRQueue.readyList q = [] → early T q.
Proof using Type. intros _ E i Hi. rewrite E in Hi. by apply elem_of_nil in Hi. Qed.

(** A send when no miss waits, and only evictions do. *)
Lemma send_evictions N now st sd evs mbf V :
  params → in_time now → idle_ok now st → PacketQueue.waitingOnRetry (reqQueue st) = false → PacketQueue.sendEvent (reqQueue st) = None →
  calm N now st sd evs evs mbf V → MSHRQueue.readyList (mshrQueue st) = [] →
  ∃ st' sd' evs', sendDeferredPacket now st sd = Ok (st', sd') ∧ base_ok now st' ∧ kept st st' ∧ mshrQueue st' = mshrQueue st ∧ reply sd' = reply sd ∧
    calm N now st' sd' evs' evs' mbf V ∧ (∀ q, q ∈ evs' → q ∈ evs) ∧ (MSHRQueue.isFull (writeBuffer st') = true → MSHRQueue.isFull (writeBuffer st) = true).
Proof using Type.
  intros Hpa Htime Hi Hw Hev Hcalm El. destruct (forward_in_time now Hpa Htime) as [Hnow HT]. pose proof (ca_queued _ _ _ _ _ _ _ _ Hcalm) as Hq.
  pose proof (early_empty (forward_at now) _ (io_miss _ _ Hi) El) as Hem. destruct (next_write k now _ _ st evs El Hq) as ([r|] & En & Hr).
  - destruct Hr as (w & l & -> & Elw). assert (length evs = S (length l)) as Hlen by (apply Forall2_length in Hq; rewrite Elw in Hq; done).
    rewrite <- (app_nil_r evs) in Hcalm at 2.
    destruct (send_write N now st sd evs [] mbf V w [] l) as (st' & sd' & evs' & E & Hb & Hk & Em & Er & Hc' & Hsub & Hf & _); try done; [simpl; lia|].
    rewrite app_nil_r in Hc'. exists st', sd', evs'. by split_and!.
  - destruct (send_nothing now (forward_at now) st sd) as (q & E & Hb); try done; [by eapply queued_early|].
    exists (set_reqQueue q st), sd, evs. split_and!; try done. by eapply calm_kept.
Qed.

Lemma send_phase N now st sd V x :
  params → in_time now → idle_ok now st → PacketQueue.waitingOnRetry (reqQueue st) = false → PacketQueue.sendEvent (reqQueue st) = None →
  phase N now st sd V x → ∃ st' sd', sendDeferredPacket now st sd = Ok (st', sd') ∧ base_ok now st' ∧ phase N now st' sd' V x.
Proof using Type.
  intros Hpa Htime Hi Hw Hev Hph. destruct (forward_in_time now Hpa Htime) as [Hnow HT].
  destruct Hph as [evs mbf V C Hm Hrep Hresp|evs mbf V t pkt d C Hm Hrep Hr Ht Ha|evs mbf V pkt a g C Hm Hrep Hresp Hrw Hun|mbf V pkt a g w e out r S Hm Hresp Hrl|evs mbf V pkt d i e C Hrep Hresp Hmi El Hrt HqO|evs mbf V pkt d i e r C Hresp Hmi El Hsr Hno Hrep Hmr].
  - destruct (send_evictions N now st sd evs mbf V) as (st' & sd' & evs' & E & Hb & Hk & Em & Er & Hc' & _); try done; [by apply ready_of_empty; [apply Hi|]|].
    destruct (rest_resp _ _ (kp_rest _ _ Hk)) as (Rc & Rq & _). exists st', sd'. split; [done|]. split; [done|]. by eapply (ph_idle _ _ _ _ evs' mbf); rewrite ?Em, ?Er, ?Rq.
  - destruct (send_evictions N now st sd evs mbf V) as (st' & sd' & evs' & E & Hb & Hk & Em & Er & Hc' & _); try done; [by apply ready_of_empty; [apply Hi|]|].
    destruct (rest_resp _ _ (kp_rest _ _ Hk)) as (Rc & Rq & Rp). exists st', sd'. split; [done|]. split; [done|].
    eapply (ph_answer _ _ _ _ evs' mbf _ t pkt); rewrite ?Em, ?Er, ?Rq; try done. unfold responding. by rewrite Rq, Rp.
  - pose proof (ready_of_empty _ (io_miss _ _ Hi) Hm) as Hrl. pose proof (ca_queued _ _ _ _ _ _ _ _ C) as Hq. pose proof (early_empty (forward_at now) _ (io_miss _ _ Hi) Hrl) as Hem.
    destruct (next_write k now _ _ st _ Hrl Hq) as ([r|] & En & Hr).
    + destruct Hr as (w & l & -> & Elw). pose proof (Forall2_length _ _ _ Hq) as Hlen. rewrite Elw, length_app in Hlen. simpl in Hlen. destruct evs as [|q0 evs].
      * apply (send_row N now st sd mbf V pkt a g w); try done. rewrite Elw. destruct l; [done|simpl in Hlen; lia].
      * destruct (send_write N now st sd (q0 :: evs) [pkt] mbf V w [] l) as (st' & sd' & evs' & E & Hb & Hk & Em & Er & Hc' & _); try done; [simpl; lia|].
        destruct (rest_resp _ _ (kp_rest _ _ Hk)) as (Rc & Rq & _). exists st', sd'. split; [done|]. split; [done|].
        by eapply (ph_row_wait _ _ _ _ evs' mbf V pkt a g); rewrite ?Em, ?Er, ?Rq, ?Rc.
    + destruct (send_nothing now (forward_at now) st sd) as (q & E & Hb); try done; [by eapply queued_early|]. exists (set_reqQueue q st), sd. split; [done|]. split; [done|].
      eapply (ph_row_wait _ _ _ _ evs mbf V pkt a g); try done. by eapply calm_kept.
  - destruct (send_nothing now (forward_at now) st sd) as (q & E & Hb); try done;
      [by apply early_empty; [apply Hi|apply ready_of_empty; [apply Hi|]]|by apply early_empty; [apply Hi|]|unfold getNextMSHR; rewrite !getNext_nil by (done || by apply ready_of_empty; [apply Hi|]); done|].
    exists (set_reqQueue q st), sd. split; [done|]. split; [done|]. by eapply phase_view; [eapply (ph_row_sent _ _ _ _ mbf V pkt a g w e out r)|..].
  - pose proof Hmi as [M1 M2 M3 M4 M5 M6 M7]. destruct (next_miss k now _ _ st i evs e pkt El M3 M4 ltac:(done) HqO M1) as ([[j|w]|] & En & Hr).
    + destruct Hr as [-> Hno]. by eapply (send_miss N now st sd evs mbf V pkt d i e).
    + apply list_elem_of_split in Hr as (l1 & l2 & Elw). pose proof (Forall2_length _ _ _ HqO) as Hlen. rewrite Elw, length_app in Hlen. simpl in Hlen.
      rewrite <- (app_nil_r evs) in C at 2.
      destruct (send_write N now st sd evs [] mbf V w l1 l2) as (st' & sd' & evs' & E & Hb & Hk & Em & Er & Hc' & Hsub & Hf & HO); try done;
        [intros j Hj; rewrite El in Hj; apply list_elem_of_singleton in Hj as ->; by exists e|lia|].
      rewrite !app_nil_r in *. destruct (rest_resp _ _ (kp_rest _ _ Hk)) as (Rc & Rq & _). exists st', sd'. split; [done|]. split; [done|].
      eapply (ph_miss_wait _ _ _ _ evs' mbf V pkt d i e); rewrite ?Em, ?Er, ?Rq; try done; [|by apply HO].
      split; rewrite ?Em, ?Rc; try done. destruct (MSHRQueue.isFull (writeBuffer st')); [by rewrite Hf in M1|done].
    + destruct (send_nothing now (forward_at now) st sd) as (q & E & Hb); try done;
        [intros j Hj; rewrite El in Hj; apply list_elem_of_singleton in Hj as ->; by exists e|by eapply queued_early|].
      exists (set_reqQueue q st), sd. split; [done|]. split; [done|]. by eapply phase_view; [eapply (ph_miss_wait _ _ _ _ evs mbf V pkt d i e)|..].
  - destruct (send_evictions N now st sd evs mbf V) as (st' & sd' & evs' & E & Hb & Hk & Em & Er & Hc' & Hsub & Hf); try done.
    destruct (rest_resp _ _ (kp_rest _ _ Hk)) as (Rc & Rq & _). exists st', sd'. split; [done|]. split; [done|]. destruct Hmi as [M1 M2 M3 M4 M5 M6 M7].
    eapply (ph_miss_sent _ _ _ _ evs' mbf V pkt d i e r); rewrite ?Em, ?Er, ?Rq; try done; [|by intros q Hq; apply Hno, Hsub].
    split; rewrite ?Em, ?Rc; try done. destruct (MSHRQueue.isFull (writeBuffer st')); [by rewrite Hf in M1|done].
Qed.

(** ** Responses *)

(** The memory side has sent its response. *)
Definition replied (sd : Side M) : Side M := mkSide (accepts sd) (below sd) None.

Lemma mshr_id_of q : 0 ≤ index_of q → 0 ≤ mshr_id q ∧ mshr_of (mshr_id q) = q.
Proof using Type.
  intros Hi. unfold mshr_of. destruct q as [i|i]; simpl in *; (split; [lia|]).
  - rewrite Z.even_mul. simpl. by rewrite Z.mul_comm, Z.div_mul by lia.
  - rewrite Z.even_add, Z.even_mul. simpl. by rewrite Z.mul_comm, Z.div_add_l, Z.add_0_r by lia.
Qed.

(** The register is freed and the processor side unblocked. *)
Lemma settle_ok now q e pkt (R : CacheResp.Resp (M := Side M)) st e0 :
  0 ≤ now < MaxTick → base_ok now st → CacheResp.cache R = st → CacheResp.mshr R = e → index_of q ∈ MSHRQueue.allocatedList (queue_of q st) →
  entry (queue_of q st) (index_of q) e0 → MSHR.inService e = MSHR.inService e0 → MSHR.elems (MSHR.targets e) = [] → MSHR.deferredTargets e = MSHR.no_targets →
  ∃ st' e1 d, CacheResp.settle_mshr now (edge p now) q (MSHRQueue.isFull (queue_of q st)) pkt R = Ok st' ∧ base_ok now st' ∧ rest st' = rest st ∧ order st' = order st ∧
    queue_of q st' = freed (index_of q) e1 d (queue_of q st) ∧ queue_of (other q) st' = queue_of (other q) st.
Proof using Type.
  intros Hnow Hb <- <- Hin He0 Hs Ht Hd. set (st := CacheResp.cache R) in *. assert (queue_ok (queue_of q st)) as Hq by (destruct q; apply Hb).
  unfold CacheResp.settle_mshr, MSHR.promoteDeferredTargets. rewrite Ht, Hd, (bool_decide_true ([] = [])) by done. cbn [check mbind res_mbind mret res_mret MSHR.elems MSHR.no_targets].
  fold st. destruct (deallocate_ok _ _ _ _ Hq Hin He0 Hs Ht Hd) as (e1 & d & E & Hq'). set (st1 := set_queue_of q (MSHRQueue.put _ _ _) st).
  assert (queue_of q st1 = MSHRQueue.put (index_of q) (CacheResp.mshr R) (queue_of q st)) as -> by (by destruct q). rewrite E. cbn [mbind res_mbind].
  assert (set_queue_of q (freed (index_of q) e1 d (queue_of q st)) st1 = set_queue_of q (freed (index_of q) e1 d (queue_of q st)) st) as -> by (by destruct q).
  destruct (replace_queue_ok now q (freed (index_of q) e1 d (queue_of q st)) st Hnow (base_idle _ _ Hb) Hq') as (st' & Est & Hi & R1 & R2 & R3 & R4 & R5);
    [destruct q; apply Hb|apply isFull_freed|].
  exists st', e1, d. split; [done|]. split; [|done]. apply idle_base; [done|]. intros Hr Hw. rewrite R5 in *. apply (bo_armed _ _ Hb); [|done].
  assert (∀ j, j ∈ MSHRQueue.readyList (queue_of q st') → j ∈ MSHRQueue.readyList (queue_of q st)) as Hsub by (intros j; rewrite R3; by intros [? _]%erase_elem).
  assert (∀ l l' : list Z, l' ≠ [] → (∀ j, j ∈ l' → j ∈ l) → l ≠ []) as Hne by (intros l [|j l'] ? Hl ->; [done|]; specialize (Hl j ltac:(left)); by apply elem_of_nil in Hl).
  destruct q; cbn [queue_of other] in *; destruct Hr as [Hr|Hr]; [left|right|left|right]; try (by eapply Hne); by rewrite R4 in Hr.
Qed.

Lemma freed_service q i e d : queue_ok (freed i e d q) → MSHRQueue.allocatedList q = [i] → MSHRQueue.readyList q = [] →
  MSHRQueue.inServiceEntries (freed i e d q) = 0.
Proof using Type. intros Hq Ea El. rewrite (qo_service _ Hq). cbn [MSHRQueue.allocatedList MSHRQueue.readyList freed]. by rewrite Ea, El, erase_only. Qed.

Lemma findBlock_none c a x : cache_ok k s c → 0 ≤ a → a / 2 ^ k = x → ¬ cached s (Cache.tags c) x → Tags.findBlock (Cache.tags c) a false = Ok None.
Proof using Type.
  intros Hc Ha <- Hn. destruct (findBlock_spec k s _ a (ck_tags _ _ _ Hc) Ha) as (r & -> & Hr). destruct r as [q|]; [|done].
  destruct Hr as (b & Hq & Hv & Hbn). destruct Hn. by exists q, b.
Qed.

Lemma respond_in_time now : params → in_time now → now ≤ respond_at now ∧ respond_at now < MaxTick ∧ now + 1 < MaxTick ∧ 0 ≤ respond_at now < 2 ^ 64.
Proof using Type. intros [Hp (L1 & L2 & L3 & L4)] [Hn Ht]. pose proof (edge_spec p now Hp). unfold respond_at, MaxTick in *. nia. Qed.

(** The target of a row operation is answered. *)
Lemma answer_row now st (sd : Side M) r off pkt a e inval :
  params → in_time now → config st → respQueue st = PacketQueue.new → row_pkt k has pkt a → Packet.cmd r = MemCmd.WriteResp → Packet.headerDelay r = 0 →
  Packet.payloadDelay r = 0 →
  ∃ q h r', CacheResp.answer_target now (edge p now) r false off pkt (CacheResp.mkResp st sd e None [] false inval) =
      Ok (CacheResp.mkResp (set_respQueue q h st) sd e None [] false inval) ∧
    responding (set_respQueue q h st) (Z.max (respond_at now) (now + 1)) r' ∧ Packet.isResponse r' = true.
Proof using Type.
  intros Hpa Htime Hcf Hresp Hpk Hcmd Hh Hpl. pose proof (rp_req _ _ _ _ Hpk) as Hreq. destruct (respond_in_time now Hpa Htime) as (T1 & T2 & T3 & T4).
  unfold CacheResp.answer_target. rewrite (rp_cmd _ _ _ _ Hpk). change (MemCmd.isSWPrefetch MemCmd.WriteReq) with false.
  rewrite (bool_decide_false (MemCmd.WriteReq = MemCmd.WriteLineReq)) by done. cbn [mbind res_mbind mret res_mret CacheResp.is_fill CacheResp.cache].
  rewrite (bool_decide_false (Packet.cmd r = MemCmd.UpgradeFailResp)) by (by rewrite Hcmd). unfold Packet.isRead. rewrite Hcmd. change (MemCmd.isRead MemCmd.WriteResp) with false.
  cbn [andb mbind res_mbind mret res_mret]. destruct (pa_lat Hpa) as (L1 & L2 & L3 & L4).
  rewrite (proj1 (proj2 (cf_lat _ Hcf))), (cycles_after_edge now st rl Hpa Hcf Htime) by lia. change (edge p now + p * rl) with (respond_at now).
  rewrite Hh, Hpl, Z.add_0_l, Z.add_0_r, wrap_small by done.
  destruct (make_response pkt) as (r' & E & H1 & H2 & H3); [apply Hreq|apply Hreq|by rewrite (rp_cmd _ _ _ _ Hpk)|]. rewrite E. cbn [mbind res_mbind].
  assert (Packet.cmd r' = MemCmd.WriteResp) as Hcr.
  { revert E. unfold Packet.makeResponse. rewrite (rr_needs _ _ _ Hreq), (rr_request _ _ _ Hreq). cbn [check mbind res_mbind mret res_mret]. intros [= <-]. simpl. by rewrite (rp_cmd _ _ _ _ Hpk). }
  rewrite Hcr, (bool_decide_false (MemCmd.WriteResp = MemCmd.ReadResp)) by done. cbn [mbind res_mbind mret res_mret].
  destruct (enqueue_response now (Packet.with_delays r' 0 0) (respond_at now) st) as (q & h & -> & Hr); [apply Htime|done..|]. cbn [mbind res_mbind].
  by exists q, h, (Packet.with_delays r' 0 0).
Qed.

(** The register of the response, with its target. *)
Definition popped (e : MSHR.MSHR) : MSHR.MSHR :=
  MSHR.set_targets (MSHR.mkList [] (MSHR.needsExclusive (MSHR.targets e)) (MSHR.hasUpgrade (MSHR.targets e))) e.

Lemma serve_one now r off e t (R R' : CacheResp.Resp (M := Side M)) :
  CacheResp.mshr R = e → MSHR.elems (MSHR.targets e) = [t] → MSHR.source t = MSHR.FromCPU →
  CacheResp.answer_target now (edge p now) r false off (MSHR.pkt t) R = Ok R' → CacheResp.mshr R' = e →
  CacheResp.serve_targets now (edge p now) 1 r false off R = Ok (CacheResp.with_mshr (popped e) R').
Proof using Type.
  intros E1 Et Es Ea E2. cbn [CacheResp.serve_targets]. rewrite E1, Et. unfold CacheResp.serve_target. rewrite Es, Ea. cbn [mbind res_mbind].
  unfold MSHR.popTarget. rewrite E2, Et. cbn [mbind res_mbind mret res_mret]. done.
Qed.

(** The response to a row operation. *)
Lemma row_response N now st sd mbf V pkt a g w e out r :
  params → in_time now → base_ok now st → steady N now st sd [] mbf V → MSHRQueue.allocatedList (mshrQueue st) = [] → respQueue st = PacketQueue.new →
  MSHRQueue.readyList (writeBuffer st) = [] → MSHRQueue.allocatedList (writeBuffer st) = [w] → entry (writeBuffer st) w e → served_reg e pkt true →
  row_waits pkt a g → uncached_rows (core st) a → Packet.makeResponse out = Ok r → func_wf out (payload_bytes a) → Packet.cmd out = MemCmd.WriteReq →
  Packet.req out = Packet.req pkt → Packet.addr out = Packet.addr pkt → Packet._isSecure out = false → Packet.headerDelay out = 0 →
  Packet.payloadDelay out = 0 → Packet.senderState out = [mshr_id (Write w)] →
  ∃ st', CacheResp.recvTimingResp now (edge p now) r st (replied sd) = Ok (st', replied sd) ∧ base_ok now st' ∧ phase N now st' (replied sd) V (Some None).
Proof using Type.
  intros Hpa Htime Hb Hst Hm Hresp Hrl Hal He [Hreg Hserv [Hpi Hpd] Hfw] [Hpk Hg Hdest Hmas [Hd1 Hd2]] Hun Emk Hwo O1 O2 O3 O4 O5 O6 O7.
  destruct (forward_in_time now Hpa Htime) as [Hnow HT]. pose proof Hst as [S2 S3 S4 S5 S6 S7 S8]. pose proof (re_cache _ _ _ _ _ _ _ S4) as Hc.
  assert (r = Packet.with_flags (Packet.with_cmd out MemCmd.WriteResp) (Flags.clear 32 (Packet.flags out) Packet.EXPRESS_SNOOP)) as Er.
  { revert Emk. unfold Packet.makeResponse, Packet.needsResponse, Packet.isRequest. rewrite O1. cbn. by intros [= <-]. }
  assert (Packet.isResponse r = true ∧ Packet.isError r = false ∧ Packet.cmd r = MemCmd.WriteResp ∧ Packet.isRead r = false) as (K1 & K2 & K3 & K4) by (rewrite Er; done).
  assert (Packet.headerDelay r = 0 ∧ Packet.payloadDelay r = 0 ∧ Packet.senderState r = [mshr_id (Write w)] ∧ Packet.addr r = Packet.addr pkt ∧ Packet._isSecure r = false ∧
    Packet.req r = Packet.req pkt) as (F1 & F2 & F3 & F4 & F5 & F6) by (rewrite Er; done).
  assert (Flags.isSet (Packet.flags r) Packet.VALID_ADDR = true) as Hva by (rewrite Er; simpl; unfold Flags.clear; rewrite isSet_land; apply (fw_addr _ _ Hwo)).
  destruct (mshr_id_of (Write w) ltac:(apply He)) as [Hid Hof].
  unfold CacheResp.recvTimingResp. rewrite K1, F1, F3. cbn [check mbind res_mbind]. change (0 =? 0) with true. cbn [negb andb panic_if check mbind res_mbind].
  rewrite (proj2 (Z.leb_le 0 _) Hid), Hof, K2. cbn [check mbind res_mbind mret res_mret queue_of index_of]. rewrite (get_entry _ _ _ He). cbn [mbind res_mbind].
  pose proof Hreg as [(t & Et & Ep & Es) Ed Ea Esec Eunc Eex]. unfold MSHR.getTarget. rewrite Et. cbn [mbind res_mbind mret res_mret].
  unfold Packet.getAddr, Packet.isSecure. rewrite Hva, F4, F5. cbn [check mbind res_mbind mret res_mret].
  pose proof (fw_range _ _ (rp_wf _ _ _ _ Hpk)) as (_ & Hap & _).
  rewrite (findBlock_none (core st) (Packet.addr pkt) _ Hc Hap eq_refl (uncached_dest _ _ _ Hpk Hdest Hun)). cbn [mbind res_mbind].
  unfold Cache.count_master. rewrite F6, (re_masters _ _ _ _ _ _ _ S4), (proj2 (Z.ltb_lt _ _) Hmas), Hfw, K4. cbn [check mbind res_mbind negb andb mret res_mret fmap option_fmap option_map].
  rewrite Ep. pose proof (tk_geo _ _ _ (ck_tags _ _ _ Hc)) as Hgeo. pose proof (geo_range _ _ _ Hgeo) as (Hk & _).
  unfold Cache.blkSize. rewrite (proj1 (geo_blk _ _ _ Hgeo)), (getOffset_ok k pkt _ Hk (rp_wf _ _ _ _ Hpk)). cbn [mbind res_mbind].
  unfold MSHR.getNumTargets. rewrite Et, Ed. change (Z.to_nat _) with 1%nat.
  destruct (answer_row now st (replied sd) r (Packet.addr pkt mod 2 ^ k) pkt a e (Packet.isInvalidate r) Hpa Htime S2 Hresp Hpk K3 F1 F2) as (rq & h & r' & Ean & Hrg & Hrr).
  rewrite <- Ep in Ean at 1. rewrite Ep in Ean.
  rewrite (serve_one now r (Packet.addr pkt mod 2 ^ k) e t _ (CacheResp.mkResp (set_respQueue rq h st) (replied sd) e None [] false (Packet.isInvalidate r)));
    [|done|done|done|by rewrite Ep|done].
  cbn [mbind res_mbind CacheResp.settle_block CacheResp.get_opt CacheResp.blk CacheResp.with_mshr CacheResp.cache mret res_mret].
  set (st1 := set_respQueue rq h st). set (R := CacheResp.mkResp st1 (replied sd) (popped e) None [] false (Packet.isInvalidate r)).
  destruct (settle_ok now (Write w) (popped e) r R st1 e) as (st2 & e1 & d & E2 & Hb2 & R2 & Eo2 & Eq2 & Em2); try done; [by apply base_resp|simpl; rewrite Hal; left|].
  change (MSHRQueue.isFull (writeBuffer st)) with (MSHRQueue.isFull (queue_of (Write w) st1)). unfold CacheResp.settle_block. cbn [CacheResp.get_opt CacheResp.blk R mbind res_mbind mret res_mret].
  change (CacheResp.with_mshr (popped e) _) with R. rewrite E2. cbn [mbind res_mbind]. unfold doWritebacks. cbn [foldM CacheResp.writebacks R mbind res_mbind mret res_mret CacheResp.settle_temp CacheResp.blk].
  exists st2. split; [done|]. split; [done|]. destruct (rest_resp _ _ R2) as (Rc & Rq & Rp). cbn [queue_of other index_of] in *.
  eapply (ph_answer _ _ _ _ [] mbf V (Z.max (respond_at now) (now + 1)) r' None); try done.
  - split; [|unfold queued; rewrite Eq2; simpl; rewrite Hrl; constructor|rewrite Eq2; apply freed_service; [rewrite <- Eq2; apply Hb2|done|done]].
    split; rewrite ?Rc, ?Eo2; try done. apply (config_rest st1); [by destruct S2|done|by rewrite Em2|by rewrite Eq2].
  - by rewrite Em2.
  - unfold responding. rewrite Rq, Rp. exact Hrg.
  - destruct (respond_in_time now Hpa Htime). lia.
Qed.

(** *** Fills *)

Lemma view_in q e : e ∈ view_queue q → ∃ i m, i ∈ MSHRQueue.allocatedList q ∧ MSHRQueue.registers q !! Z.to_nat i = Some m ∧ e = view m.
Proof using Type. unfold view_queue. rewrite list_elem_of_omap. intros (i & Hi & E). destruct (_ !! _) as [m|] eqn:Em; [|done]. injection E as <-. by exists i, m. Qed.

Lemma all_ready q i : queue_ok q → MSHRQueue.inServiceEntries q = 0 → i ∈ MSHRQueue.allocatedList q → i ∈ MSHRQueue.readyList q.
Proof using Type.
  intros Hq E Hi. destruct (queue_nodup q Hq) as (_ & Hda & _). pose proof (qo_service q Hq) as Hs. rewrite E in Hs.
  destruct (decide (i ∈ MSHRQueue.readyList q)) as [|Hn]; [done|]. exfalso.
  assert (i :: MSHRQueue.readyList q ⊆+ MSHRQueue.allocatedList q) as Hsub.
  { apply NoDup_submseteq; [constructor; [done|apply Hq]|]. intros j [->|Hj]%elem_of_cons; [done|by apply (qo_ready_in q Hq)]. }
  apply submseteq_length in Hsub. simpl in Hsub. lia.
Qed.

Lemma filter_none {A} (P : A → Prop) `{∀ x, Decision (P x)} l : (∀ x, x ∈ l → ¬ P x) → filter P l = [].
Proof using Type. induction l as [|x l IH]; [done|]. intros Hn. rewrite filter_cons_False by (apply Hn; left). apply IH. intros y Hy. apply Hn. by right. Qed.

Lemma miss_quiet N now st sd evs mbf V pkt d i e :
  base_ok now st → calm N now st sd evs evs mbf V → missing st pkt d i e → (∀ q, q ∈ evs → Packet.addr q / 2 ^ k ≠ Packet.addr pkt / 2 ^ k) →
  quiet k s (Packet.addr pkt / 2 ^ k) (lookup_core st).
Proof using Type.
  intros Hb [Hst Hq Hsv] [M1 M2 M3 M4 M5 M6 M7] Hno. pose proof (sy_holds _ _ _ _ _ _ _ Hst) as Hh.
  pose proof (geo_range _ _ _ (tk_geo _ _ _ (ck_tags _ _ _ (re_cache _ _ _ _ _ _ _ Hh)))) as (Hk & _). pose proof (pow_pos k ltac:(lia)). split.
  - unfold Cache.findMatches. apply filter_none. intros v Hv. destruct (view_in _ _ Hv) as (j & m & Hj & Em & ->).
    destruct (queued_lookup k _ _ _ _ j Hq (all_ready _ _ (bo_write _ _ Hb) Hsv Hj)) as (q & Hin & f & [_ Hf] & Hreg & _). rewrite Em in Hf. injection Hf as ->.
    unfold Cache.matches. simpl. rewrite (rg_addr _ _ _ Hreg), (proj2 (Z.eqb_neq _ _)); [by rewrite andb_false_r|]. specialize (Hno q Hin). nia.
  - intros q b Hqb Hv. unfold Cache.findMatch. cbn [lookup_core Cache.mshrQueue]. unfold view_queue. rewrite M2. destruct M3 as [_ M3]. simpl. rewrite M3. simpl.
    rewrite decide_False; [done|]. unfold Cache.matches. simpl. rewrite (rg_addr _ _ _ M4), (proj2 (Z.eqb_neq _ _)); [by rewrite andb_false_r|].
    intros E. apply M7. exists q, b. split; [done|]. split; [done|]. nia.
Qed.

(** The packet that fills the block: the response, or the write itself. *)
Definition fills (pkt r : Packet) : Packet := if bool_decide (Packet.cmd pkt = MemCmd.WriteLineReq) then pkt else r.

(** What is known of the response to a miss. *)
Record reply_ok (pkt r : Packet) : Prop := {
  ro_response : Packet.isResponse r = true ∧ Packet.isError r = false ∧ Packet.cmd r ≠ MemCmd.UpgradeFailResp ∧ Packet.cmd r ≠ MemCmd.UpgradeResp;
  ro_kind : Packet.isRead r = negb (bool_decide (Packet.cmd pkt = MemCmd.WriteLineReq)) ∧
    Packet.isInvalidate r = bool_decide (Packet.cmd pkt = MemCmd.WriteLineReq);
  ro_addr : Flags.isSet (Packet.flags r) Packet.VALID_ADDR = true ∧ Packet.addr r = Packet.addr pkt / 2 ^ k * 2 ^ k ∧ Packet._isSecure r = false;
  ro_delay : Packet.headerDelay r = 0 ∧ Packet.payloadDelay r = 0;
  ro_req : Packet.req r = Packet.req pkt;
  ro_shared : Packet.sharedAsserted r = false;
}.

Lemma miss_reply_ok pkt d mbf i r : cpu_pkt k masters has pkt d → miss_reply pkt mbf i r → reply_ok pkt r.
Proof using Type.
  intros Hpk [_ (bus & z & m & Hb & Hcmd & Ea & Es & Hsec & Ereq & Efl & Eh & Epd & Esn & _ & Emk)].
  assert (∃ dd, r = Packet.mkPacket 0x2300 (MemCmd.responseCommand (bus_cmd pkt)) (Packet.req pkt) dd (Packet.addr pkt / 2 ^ k * 2 ^ k) false (2 ^ k)
    (Packet.bytesValid bus) 0 (Packet.snoopDelay bus) 0 [mshr_id (Miss i)]) as (dd & ->).
  { destruct bus. simpl in *. subst. unfold bus_cmd in *. destruct (cq_cmd _ _ _ _ _ Hpk) as [E|[E|[E _]]]; rewrite E in *; injection Emk as <-; by eexists. }
  unfold bus_cmd. clear Emk. destruct (cq_cmd _ _ _ _ _ Hpk) as [E|[E|[E _]]]; split; rewrite ?E; split_and?; try done.
Qed.

Lemma miss_fill N now st sd evs mbf V pkt d i e r :
  params → in_time now → base_ok now st → calm N now st sd evs evs mbf V → missing st pkt d i e →
  (∀ q, q ∈ evs → Packet.addr q / 2 ^ k ≠ Packet.addr pkt / 2 ^ k) → miss_reply pkt mbf i r →
  ∃ x t1 t' dd wbs mb', Cache.handleFill now (edge p now) (lookup_core st) (fills pkt r) None [] = Ok (Cache.InTags x, Cache.set_tags t1 (lookup_core st), wbs) ∧
    Cache.satisfyCpuSideRequest now (Cache.set_tags t1 (lookup_core st)) pkt (Cache.InTags x) true false =
      Ok (Cache.set_tags t' (lookup_core st), Packet.with_data pkt dd) ∧
    evictions k s has wbs mbf mb' ∧ holds k s masters has (Cache.set_tags t' (lookup_core st)) mb' (after pkt d V) ∧
    (Packet.isRead pkt = true → dd = Some (bytes_of V pkt)) ∧
    (∀ y, cached s t' y → cached s (Cache.tags (core st)) y ∨ y = Packet.addr pkt / 2 ^ k) ∧ same_params (Cache.tags (core st)) t' ∧ ready_by (filled_at now) t' ∧
    (wbs = [] ∨ ∃ wb y, wbs = [wb] ∧ Packet.addr wb = y * 2 ^ k ∧ cached s (Cache.tags (core st)) y ∧ ¬ cached s t' y) ∧ (∃ b, blk_at t' x b ∧ isValid b = true) ∧
    same_params (Cache.tags (core st)) t1.
Proof using Type.
  intros Hpa Htime Hb Hcalm Hmi Hno Hmr. pose proof (miss_quiet _ _ _ _ _ _ _ _ _ _ _ Hb Hcalm Hmi Hno) as Hqt. pose proof Hcalm as [[S2 S3 S4 S5 S6 S7 S8] Hq Hsv].
  pose proof Hmi as [M1 M2 M3 M4 M5 [M6 M6'] M7]. pose proof (holds_lookup _ _ _ S4) as Hh. pose proof (geo_range _ _ _ (tk_geo _ _ _ (ck_tags _ _ _ (re_cache _ _ _ _ _ _ _ S4)))) as (Hk & _).
  pose proof (pow_pos k ltac:(lia)). pose proof (fw_range _ _ (cq_wf _ _ _ _ _ M5)) as (_ & Hap & _). assert (0 ≤ Packet.addr pkt / 2 ^ k) by (apply Z.div_pos; lia).
  assert (∃ fd, fill_pkt k (lookup_core st) (fills pkt r) fd ∧ Packet.addr (fills pkt r) / 2 ^ k = Packet.addr pkt / 2 ^ k ∧ Packet.payloadDelay (fills pkt r) = 0 ∧
    (Packet.cmd pkt ≠ MemCmd.WriteLineReq → Packet.isRead (fills pkt r) = true ∧ Packet.addr (fills pkt r) mod 2 ^ k = 0 ∧ fd = bytes_of mbf (fills pkt r))) as (fd & F1 & F2 & F3 & F4).
  { pose proof (miss_reply_ok _ _ _ _ _ M5 Hmr) as Hro. destruct Hmr as [_ (bus & z & m & Hbus & Hcmd & Ea & Es & Hsec & Ereq & Efl & Eh & Epd & Esn & Hby & Emk)].
    unfold fills. case_bool_decide as Hwl.
    - exists d. split; [|done]. split; [apply M5|by right| |split_and!; apply M5|apply M5|rewrite (re_masters _ _ _ _ _ _ _ Hh); apply M5].
      split; [unfold Packet.hasData; by rewrite Hwl|]. by destruct (cq_cmd _ _ _ _ _ M5) as [?|[?|(_ & ? & _)]]; [congruence..|].
    - destruct (read_fill k masters has (lookup_core st) m pkt d bus z r) as (R1 & R2 & R3 & _); try done; [apply Hh| |lia|].
      { rewrite Hcmd. unfold bus_cmd. destruct (cq_cmd _ _ _ _ _ M5) as [->|[->|[? _]]]; auto. done. }
      exists (bytes_of (mem_byte m) r). split; [done|]. rewrite R2, Ea, Z.div_mul, Z.mod_mul by lia. split; [done|]. split; [apply Hro|]. intros _. split; [done|]. split; [done|].
      unfold bytes_of. apply list_fmap_ext. intros n y Hy. apply list_elem_of_lookup_2, elem_of_seqZ in Hy. rewrite R2, Ea, (proj2 (fp_data _ _ _ _ R1)) in Hy.
      apply (block_range k _ y ltac:(lia)) in Hy as [Hy1 Hy2]; [by apply Hby|done]. }
  destruct (fill_and_satisfy k s masters has now (edge p now) true false (lookup_core st) mbf V pkt d (fills pkt r) fd Hh Hqt M5 F1 F2 M7 F4)
    as (x & t1 & t' & pkt' & wbs & mb' & E1 & E2 & Hev & Hrep & [dd ->] & Hrd & Hca & Hpar & Hrb & Hwb & Hblk).
  exists x, t1, t', dd, wbs, mb'. split; [done|]. split; [done|]. split; [done|]. split; [by apply Hrep|]. split; [done|]. split; [done|]. split; [done|]. split; [|done].
  apply Hrb; [done|]. unfold fill_ready, filled_at. rewrite F3. cbn [lookup_core Cache.fillLatency Cache.tags]. rewrite (cf_clock _ S2), (proj2 (proj2 (cf_lat _ S2))).
  destruct (pa_lat Hpa) as (L1 & L2 & L3 & L4). pose proof (edge_spec p now (pa_period Hpa)). destruct Htime as [Hn Ht]. unfold MaxTick in Ht. rewrite wrap_small by nia. lia.
Qed.

(** What happens to the block before its target is answered. *)
Definition prefilled now (pkt : Packet) (R : CacheResp.Resp (M := Side M)) : res (CacheResp.Resp (M := Side M)) :=
  if bool_decide (Packet.cmd pkt = MemCmd.WriteLineReq)
  then (r ← CacheResp.fill now (edge p now) pkt R;
        mret (CacheResp.mkResp (CacheResp.cache r) (CacheResp.mem r) (CacheResp.mshr r) (CacheResp.blk r) (CacheResp.writebacks r) true false))
  else mret R.

Lemma fill_reg now f (R : CacheResp.Resp (M := Side M)) pkt x c wbs :
  served_reg (CacheResp.mshr R) pkt false → CacheResp.blk R = None → CacheResp.writebacks R = [] →
  Cache.handleFill now (edge p now) (lookup_core (CacheResp.cache R)) f None [] = Ok (Cache.InTags x, c, wbs) →
  CacheResp.fill now (edge p now) f R =
    Ok (CacheResp.mkResp (set_core c (CacheResp.cache R)) (CacheResp.mem R) (CacheResp.mshr R) (Some (Cache.InTags x)) wbs (CacheResp.is_fill R) (CacheResp.is_invalidate R)).
Proof using Type.
  intros [Hreg Hs [H1 H2] _] Eb Ew E. unfold CacheResp.fill, MSHR.handleFill, MSHR.hasPostInvalidate, MSHR.hasPostDowngrade.
  rewrite Hs, H1, H2, (rg_deferred _ _ _ Hreg), Eb, Ew, E. by destruct (Packet.sharedAsserted f).
Qed.

(** The target of a miss is answered. *)
Lemma answer_miss now st (sd : Side M) r off pkt d e x t1 t' dd wbs R :
  params → in_time now → config (set_core (Cache.set_tags t' (lookup_core st)) st) → respQueue st = PacketQueue.new → cpu_pkt k masters has pkt d →
  Tags.maxMasters t' = masters ∧ Tags.blkSize t' = 2 ^ k ∧ 2 ≤ k ≤ 13 → Tags.clockPeriod t1 = p → served_reg e pkt false → Packet.headerDelay r = 0 → Packet.payloadDelay r = 0 →
  Cache.satisfyCpuSideRequest now (Cache.set_tags t1 (lookup_core st)) pkt (Cache.InTags x) true false = Ok (Cache.set_tags t' (lookup_core st), Packet.with_data pkt dd) →
  prefilled now pkt R = Ok (CacheResp.mkResp (set_core (Cache.set_tags t1 (lookup_core st)) st) sd e (Some (Cache.InTags x)) wbs true false) →
  ∃ q h r', let st1 := set_respQueue q h (set_core (Cache.set_tags t' (lookup_core st)) st) in
    CacheResp.answer_target now (edge p now) r false off pkt R = Ok (CacheResp.mkResp st1 sd e (Some (Cache.InTags x)) wbs true false) ∧
    responding st1 (Z.max (respond_at now) (now + 1)) r' ∧ Packet.isResponse r' = true ∧ Packet.data r' = dd.
Proof using Type.
  intros Hpa Htime Hcf Hresp Hpk (Hmx & Hbs & Hk) Hck [Hreg Hs [H1 H2] _] Hh Hpl Esat Epre. destruct (cpu_cmd pkt d Hpk) as (K1 & K2 & K3 & _ & K5 & _).
  destruct (respond_in_time now Hpa Htime) as (T1 & T2 & T3 & T4). destruct (pa_lat Hpa) as (L1 & L2 & L3 & L4).
  unfold CacheResp.answer_target. rewrite K5. cbn [negb check mbind res_mbind]. unfold prefilled in Epre. cbn [mbind res_mbind] in Epre. rewrite Epre.
  cbn [mbind res_mbind mret res_mret CacheResp.is_fill CacheResp.cache CacheResp.blk CacheResp.mshr core set_core]. unfold MSHR.hasPostDowngrade.
  rewrite Hs, H2. cbn [check mbind res_mbind mret res_mret]. rewrite Esat. cbn [mbind res_mbind]. unfold Cache.blkSize. cbn [Cache.tags Cache.set_tags]. rewrite Hbs.
  change (Packet.getOffset (Packet.with_data pkt dd)) with (Packet.getOffset pkt). rewrite (getOffset_ok k pkt d Hk) by apply Hpk. cbn [mbind res_mbind].
  change (Packet.req (Packet.with_data pkt dd)) with (Packet.req pkt). rewrite (proj1 (cq_req _ _ _ _ _ Hpk)). unfold Cache.count_master. cbn [negb check mbind res_mbind Cache.tags Cache.set_tags].
  change (Packet.req (Packet.with_data pkt dd)) with (Packet.req pkt). rewrite Hmx, (proj2 (Z.ltb_lt _ _) (cq_master _ _ _ _ _ Hpk)), Hh, Hpl. cbn [check mbind res_mbind mret res_mret].
  set (st0 := set_core (Cache.set_tags t1 (lookup_core st)) st). set (st1 := set_core (Cache.set_tags t' (lookup_core st)) st) in *.
  change (set_core (Cache.set_tags t' (lookup_core st)) st0) with st1. assert (clockEdge st0 (edge p now) (responseLatency st0) = respond_at now) as ->.
  { unfold respond_at. rewrite <- (cycles_after_edge now st1 rl Hpa Hcf Htime) by lia. pose proof (cf_clock _ Hcf) as Hc1. pose proof (proj1 (proj2 (cf_lat _ Hcf))) as Hc2. unfold clockEdge. cbn in *. by rewrite Hck, Hc1, Hc2. }
  assert (∀ c : bool, (if c then 0 else 0) = 0) as Hif by (by intros []). rewrite Hif, Z.add_0_r, Z.add_0_l, wrap_small by done.
  destruct (make_response (Packet.with_data pkt dd) K1 K2 K3) as (r' & E & Q1 & Q2 & Q3). rewrite E. cbn [mbind res_mbind mret res_mret CacheResp.is_invalidate].
  destruct (bool_decide (Packet.cmd r' = MemCmd.ReadResp)); unfold MSHR.hasPostInvalidate; rewrite ?Hs, ?H1; cbn [check mbind res_mbind mret res_mret].
  all: destruct (enqueue_response now (Packet.with_delays r' 0 0) (respond_at now) st1) as (q & h & -> & Hr); [apply Htime|done..|]; cbn [mbind res_mbind].
  all: by exists q, h, (Packet.with_delays r' 0 0).
Qed.

(** What the fill leaves behind. *)
Record filled (now : Z) (st : TimingCache) (pkt : Packet) (mbf mb' V' : Z → Z) (x : Z) (t' : Tags.Tags) (wbs : list Packet) : Prop := {
  fd_evict : evictions k s has wbs mbf mb';
  fd_holds : holds k s masters has (Cache.set_tags t' (lookup_core st)) mb' V';
  fd_cached y : cached s t' y → cached s (Cache.tags (core st)) y ∨ y = Packet.addr pkt / 2 ^ k;
  fd_params : same_params (Cache.tags (core st)) t';
  fd_ready : ready_by (filled_at now) t';
  fd_wbs : wbs = [] ∨ ∃ wb y, wbs = [wb] ∧ Packet.addr wb = y * 2 ^ k ∧ cached s (Cache.tags (core st)) y ∧ ¬ cached s t' y;
  fd_block : ∃ b, blk_at t' x b ∧ isValid b = true;
}.

Lemma filled_steady N now st st' sd evs pkt mbf mb' V V' x t' wbs :
  steady N now st sd evs mbf V → filled now st pkt mbf mb' V' x t' wbs → (∀ q, q ∈ evs → Packet.addr q / 2 ^ k ≠ Packet.addr pkt / 2 ^ k) →
  core st' = Cache.set_tags t' (lookup_core st) → config st' → 0 ≤ order st' ≤ N + 1 → steady (N + 1) now st' (replied sd) (evs ++ wbs) mb' V'.
Proof using Type.
  intros [S2 S3 S4 S5 S6 S7 S8] [F1 F2 F3 F4 F5 F6 F7] Hno Ec Hcf Ho. pose proof (geo_range _ _ _ (tk_geo _ _ _ (ck_tags _ _ _ (re_cache _ _ _ _ _ _ _ S4)))) as (Hk & _).
  pose proof (pow_pos k ltac:(lia)). assert (∀ wb, wb ∈ wbs → ∃ y, wbs = [wb] ∧ Packet.addr wb = y * 2 ^ k ∧ cached s (Cache.tags (core st)) y ∧ ¬ cached s t' y) as Hwb.
  { intros wb Hin. destruct F6 as [->|(w & y & -> & ?)]; [by apply elem_of_nil in Hin|]. apply list_elem_of_singleton in Hin as ->. by exists y. }
  split; rewrite ?Ec; try done.
  - intros q [Hin|Hin]%elem_of_app.
    + destruct (S5 q Hin) as [? Hn]. split; [done|]. intros [?|E]%F3; [done|]. by apply (Hno q Hin).
    + split; [by eapply evictions_leaving|]. destruct (Hwb q Hin) as (y & _ & -> & _ & Hn). by rewrite Z.div_mul by lia.
  - eapply flushes_evictions; [done|done|by intros q Hin; apply S5| |].
    + destruct F6 as [->|(w & y & -> & _)]; [constructor|apply NoDup_singleton].
    + intros q wb Hin Hw E. destruct (Hwb wb Hw) as (y & _ & Ea & Hca & _). destruct (S5 q Hin) as [_ Hn]. apply Hn. by rewrite E, Ea, Z.div_mul by lia.
Qed.

Lemma settle_fill now st sd e x wbs t' b pkt :
  served_reg e pkt false → blk_at t' x b → isValid b = true → Cache.tags (core st) = t' →
  CacheResp.settle_block now (CacheResp.mkResp st sd (popped e) (Some (Cache.InTags x)) wbs true false) =
    Ok (CacheResp.mkResp st (sd : Side M) (popped e) (Some (Cache.InTags x)) wbs true false).
Proof using Type.
  intros [_ Hs [H1 H2] _] Hx Hv <-. unfold CacheResp.settle_block. cbn [CacheResp.cache CacheResp.blk CacheResp.get_opt Cache.get_blk].
  rewrite (get_blk_at _ _ _ Hx). cbn [mbind res_mbind mret res_mret]. rewrite Hv. cbn [CacheResp.is_invalidate CacheResp.mshr].
  unfold MSHR.hasPostInvalidate, MSHR.hasPostDowngrade. cbn [MSHR.inService popped MSHR.set_targets MSHR.postInvalidate MSHR.postDowngrade]. by rewrite Hs, H1, H2.
Qed.

(** The end of the response to a miss: the register is freed and the victim leaves. *)
Lemma miss_settled N now st sd evs pkt d i e r mbf mb' V x t' wbs rq h r' :
  params → in_time now → N + 1 < 2 ^ 64 → base_ok now st → calm N now st sd evs evs mbf V → missing st pkt d i e → served_reg e pkt false →
  (∀ q, q ∈ evs → Packet.addr q / 2 ^ k ≠ Packet.addr pkt / 2 ^ k) → filled now st pkt mbf mb' (after pkt d V) x t' wbs → MSHRQueue.readyList (mshrQueue st) = [] →
  let st1 := set_respQueue rq h (set_core (Cache.set_tags t' (lookup_core st)) st) in
  config st1 → responding st1 (Z.max (respond_at now) (now + 1)) r' → answers (result_of V pkt) r' →
  ∃ st', (R ← CacheResp.settle_block now (CacheResp.mkResp st1 (replied sd) (popped e) (Some (Cache.InTags x)) wbs true false);
          st2 ← CacheResp.settle_mshr now (edge p now) (Miss i) (MSHRQueue.isFull (mshrQueue st)) r R;
          '(st3, m) ← doWritebacks now (CacheResp.writebacks R) (forward_at now) st2 (CacheResp.mem R);
          CacheResp.settle_temp now (forward_at now) (CacheResp.blk R) st3 m) = Ok (st', replied sd) ∧
    base_ok now st' ∧ phase (N + 1) now st' (replied sd) (after pkt d V) (Some (result_of V pkt)).
Proof using Type.
  intros Hpa Htime HN Hb Hcalm Hmi Hsr Hno Hfd Hrl st1 Hcf Hrg Han. destruct (forward_in_time now Hpa Htime) as [Hnow HT]. pose proof Hcalm as [Hst Hq Hsv].
  pose proof (sy_order _ _ _ _ _ _ _ Hst) as Ho. pose proof Hmi as [M1 M2 M3 M4 M5 M6 M7]. destruct (fd_block _ _ _ _ _ _ _ _ _ Hfd) as (b & Hx & Hv).
  rewrite (settle_fill now st1 (replied sd) e x wbs t' b pkt Hsr Hx Hv eq_refl). cbn [mbind res_mbind]. set (R := CacheResp.mkResp _ _ _ _ _ _ _).
  destruct (settle_ok now (Miss i) (popped e) r R st1 e) as (st2 & e1 & dl & E2 & Hb2 & R2 & Eo2 & Eq2 & Ew2); try done;
    [by apply base_resp, base_core|simpl; rewrite M2; left|apply M4|].
  change (MSHRQueue.isFull (mshrQueue st)) with (MSHRQueue.isFull (queue_of (Miss i) st1)). rewrite E2. cbn [mbind res_mbind queue_of other index_of CacheResp.writebacks CacheResp.mem R] in *.
  assert (length wbs ≤ 1)%nat as Hlen by (destruct (fd_wbs _ _ _ _ _ _ _ _ _ Hfd) as [->|(? & ? & -> & _)]; simpl; lia).
  destruct (rest_resp _ _ R2) as (Rc & Rq & Rp). change (writeBuffer st1) with (writeBuffer st) in Ew2. change (mshrQueue st1) with (mshrQueue st) in Eq2.
  pose proof (free_room _ (bo_write _ _ Hb) M1) as Hfr. pose proof (proj1 (cf_write _ Hcf)) as Hres. change (writeBuffer st1) with (writeBuffer st) in Hres.
  assert (0 ≤ flush_limit k) by (apply flush_limit_pos; pose proof (geo_range _ _ _ (tk_geo _ _ _ (ck_tags _ _ _ (re_cache _ _ _ _ _ _ _ (sy_holds _ _ _ _ _ _ _ Hst))))); lia). change (order st1) with (order st) in Eo2.
  destruct (doWritebacks_ok k s has now (forward_at now) wbs (replied sd) st2 evs) as (st' & -> & Hb' & G & Eo & Hq' & _);
    [done|lia|lia|lia|rewrite Rc; apply Hfd|done|by rewrite Ew2, Eo2|by eapply evictions_leaving, Hfd|rewrite Ew2; lia|].
  cbn [mbind res_mbind CacheResp.settle_temp CacheResp.blk R mret res_mret]. exists st'. split; [done|]. split; [done|].
  destruct (rest_resp _ _ (gr_rest _ _ G)) as (Rc' & Rq' & Rp').
  assert (config st') as Hcf'.
  { apply (config_rest st2); [|apply G|by rewrite (gr_miss _ _ G)|by apply grown_dims]. apply (config_rest st1); [done|done|by rewrite Eq2|by rewrite Ew2]. }
  eapply (ph_answer _ _ _ _ (evs ++ wbs) mb' _ (Z.max (respond_at now) (now + 1)) r').
  - split; [|done|by rewrite (gr_service _ _ G), Ew2]. eapply filled_steady; [done|done|done|by rewrite Rc', Rc|done|lia].
  - rewrite (gr_miss _ _ G), Eq2. simpl. by rewrite M2, erase_only.
  - done.
  - unfold responding. rewrite Rq', Rq, Rp', Rp. exact Hrg.
  - destruct (respond_in_time now Hpa Htime). lia.
  - done.
Qed.

(** The response to a miss. *)
Lemma fill_response N now st sd evs mbf V pkt d i e r :
  params → in_time now → N + 1 < 2 ^ 64 → base_ok now st → calm N now st sd evs evs mbf V → respQueue st = PacketQueue.new → missing st pkt d i e →
  MSHRQueue.readyList (mshrQueue st) = [] → served_reg e pkt false → (∀ q, q ∈ evs → Packet.addr q / 2 ^ k ≠ Packet.addr pkt / 2 ^ k) → miss_reply pkt mbf i r →
  ∃ st', CacheResp.recvTimingResp now (edge p now) r st (replied sd) = Ok (st', replied sd) ∧ base_ok now st' ∧
    phase (N + 1) now st' (replied sd) (after pkt d V) (Some (result_of V pkt)).
Proof using Type.
  intros Hpa Htime HN Hb Hcalm Hresp Hmi Hrl Hsr Hno Hmr. pose proof Hcalm as [[S2 S3 S4 S5 S6 S7 S8] _ _]. pose proof Hmi as [M1 M2 M3 M4 M5 M6 M7].
  destruct (miss_fill N now st sd evs mbf V pkt d i e r Hpa Htime Hb Hcalm Hmi Hno Hmr) as (x & t1 & t' & dd & wbs & mb' & Efill & Esat & Hev & Hh & Hrd & Hca & Hpar & Hrb & Hwb & Hblk & Hpar1).
  pose proof (miss_reply_ok _ _ _ _ _ M5 Hmr) as [(K1 & K2 & K3 & K4) (K5 & K6) (F1 & F2 & F3) (F4 & F5) F6 F7].
  pose proof (re_cache _ _ _ _ _ _ _ S4) as Hc. pose proof (tk_geo _ _ _ (ck_tags _ _ _ Hc)) as Hgeo. pose proof (geo_range _ _ _ Hgeo) as (Hk & _). pose proof (pow_pos k ltac:(lia)).
  pose proof (fw_range _ _ (cq_wf _ _ _ _ _ M5)) as (_ & Hap & _). assert (0 ≤ Packet.addr pkt / 2 ^ k) by (apply Z.div_pos; lia).
  assert (config (set_core (Cache.set_tags t' (lookup_core st)) st)) as Hcf by (by apply config_core).
  set (R0 := CacheResp.mkResp st (replied sd) e None [] (Packet.isRead r) (Packet.isInvalidate r)).
  assert (∃ R, (if Packet.isRead r && negb (Packet.isError r) then CacheResp.fill now (edge p now) r R0 else mret R0) = Ok R ∧ CacheResp.mshr R = e ∧
    prefilled now pkt R = Ok (CacheResp.mkResp (set_core (Cache.set_tags t1 (lookup_core st)) st) (replied sd) e (Some (Cache.InTags x)) wbs true false)) as (R & ER & EmR & Epre).
  { unfold prefilled. unfold fills in Efill. rewrite K2, K5. subst R0. rewrite K5, K6. case_bool_decide; cbn [negb andb].
    - eexists. split; [done|]. split; [done|]. by rewrite (fill_reg now pkt (CacheResp.mkResp st (replied sd) e None [] _ _) pkt x _ wbs Hsr eq_refl eq_refl Efill).
    - rewrite (fill_reg now r (CacheResp.mkResp st (replied sd) e None [] _ _) pkt x _ wbs Hsr eq_refl eq_refl Efill). by eexists. }
  destruct (answer_miss now st (replied sd) r (Packet.addr pkt mod 2 ^ k) pkt d e x t1 t' dd wbs R) as (rq & h & r' & Ean & Hrg & Hrr & Hdd); try done.
  { destruct Hh as [Hc' _ _ Hmx]. split; [done|]. split; [apply (tk_geo _ _ _ (ck_tags _ _ _ Hc'))|done]. }
  { rewrite <- (cf_clock _ S2). apply Hpar1. }
  destruct (miss_settled N now st sd evs pkt d i e r mbf mb' V x t' wbs rq h r') as (st' & E & Hb' & Hph); try done.
  { by destruct Hcf. } { split; [done|]. unfold result_of. destruct (Packet.isRead pkt); [|done]. rewrite Hdd. by apply Hrd. }
  exists st'. split; [|done]. destruct (mshr_id_of (Miss i) ltac:(apply M3)) as [Hid Hof].
  unfold CacheResp.recvTimingResp. rewrite K1, F4, (mr_sender _ _ _ _ Hmr). cbn [check mbind res_mbind]. change (0 =? 0) with true. cbn [negb andb panic_if check mbind res_mbind].
  rewrite (proj2 (Z.leb_le 0 _) Hid), Hof. cbn [check mbind res_mbind mret res_mret queue_of index_of].
  rewrite (cf_targets _ S2), (bool_decide_false (None = Some i)) by done. cbn [mbind res_mbind mret res_mret]. rewrite (get_entry _ _ _ M3). cbn [mbind res_mbind].
  pose proof M4 as [(t & Et & Ep & Es) Ed _ _ _ _]. unfold MSHR.getTarget. rewrite Et. cbn [mbind res_mbind mret res_mret].
  unfold Packet.getAddr at 1. unfold Packet.isSecure. rewrite F1, F2, F3. cbn [check mbind res_mbind mret res_mret].
  rewrite (findBlock_none (core st) (Packet.addr pkt / 2 ^ k * 2 ^ k) (Packet.addr pkt / 2 ^ k) Hc) by (done || lia || by rewrite Z.div_mul by lia). cbn [mbind res_mbind fmap option_fmap option_map].
  unfold Cache.count_master. rewrite F6, (re_masters _ _ _ _ _ _ _ S4), (proj2 (Z.ltb_lt _ _) (cq_master _ _ _ _ _ M5)), (sr_forward _ _ _ Hsr). cbn [check mbind res_mbind negb andb].
  rewrite (bool_decide_false (Packet.cmd r = MemCmd.UpgradeResp)) by done. rewrite orb_false_r. fold R0. rewrite ER. cbn [mbind res_mbind].
  rewrite Ep. unfold Cache.blkSize. rewrite (proj1 (geo_blk _ _ _ Hgeo)), (getOffset_ok k pkt d Hk) by apply M5. cbn [mbind res_mbind].
  unfold MSHR.getNumTargets. rewrite Et, Ed, K2. change (Z.to_nat _) with 1%nat.
  rewrite (serve_one now r _ e t R _ EmR Et Es ltac:(rewrite Ep; exact Ean) eq_refl). cbn [mbind res_mbind]. unfold CacheResp.with_mshr. cbn [CacheResp.cache CacheResp.mem CacheResp.blk CacheResp.writebacks CacheResp.is_fill CacheResp.is_invalidate].
  destruct (pa_lat Hpa) as (L1 & L2 & L3 & L4). destruct (forward_in_time now Hpa Htime) as [Hnow HT]. pose proof (edge_spec p now (pa_period Hpa)).
  assert (u64 (clockEdge st (edge p now) (forwardLatency st) + 0) = forward_at now) as ->; [|exact E].
  rewrite (proj1 (cf_lat _ S2)), (cycles_after_edge now st fl Hpa S2 Htime), Z.add_0_r by lia. apply wrap_small. unfold forward_at, MaxTick in *. nia.
Qed.

End run.
