(* ===== verification/CacheMachine.v ===== *)
(** * The timing cache between a processor and a memory

    A processor that waits for the response to a request before it sends the next one, the
    cache (mem/cache/cache.cc, base.cc) and a memory that may refuse any packet, as a machine
    whose steps are the calls of the ports and the events of the queues.  Every schedule the
    event queue allows keeps the system equal to a flat memory. *)

From stdpp Require Import base gmap list list_numbers sorting.
From S2P Require Import Prelude IntMath AddrRanges Packets Events Clocked PktQueue AbstractMem SimpleMem RowMem CacheTags Cache CacheInv CacheAtomic CacheSystem MSHRQ MSHRInv CacheTiming CacheSeq CacheResp CacheFlow CacheRun.
Import Request Blk RowOps TimingCache.
Local Open Scope Z_scope.

(** ** The machine *)

(** What happens in a step: the processor issues a request; the send event of the memory
    side fires, or the memory asks for the packet it refused; the memory responds; the
    retry event of the processor side fires; the send event of the responses fires.  The
    flag says whether the memory accepts the packet. *)
Inductive Action := Issue (pkt : Packet) | Send (accept : bool) | Resend (accept : bool) | Respond | Release | Deliver.

(** What the processor sees of a step. *)
Inductive Seen := Accepted (r : timed) | Refused | Delivered (pkt : Packet) | Nothing.

Definition accepted (l : list Seen) : list timed := omap (λ o, match o with Accepted r => Some r | _ => None end) l.
Definition delivered (l : list Seen) : list Packet := omap (λ o, match o with Delivered pkt => Some pkt | _ => None end) l.

(** An event that is scheduled, that fires at [now], or that has not been missed. *)
Definition fires (now : Z) (e : Event) : bool := bool_decide (e = Some now).
Definition kept_until (now : Z) (e : Event) : bool := match e with Some t => now <=? t | None => true end.

Record Sys (M : Type) := mkSys { sys_cache : TimingCache; sys_side : Side M }.
Arguments mkSys {M}.
Arguments sys_cache {M}.
Arguments sys_side {M}.

Section machine.
Context (k s masters p fl rl al fi : Z) {M : Type} `{!Cache.AtomicPorts M} (has : Z → Prop) `{!MemorySide M has}.

Definition willing (accept : bool) (sd : Side M) : Side M := mkSide accept (below sd) (reply sd).

(** The first response is handed to the processor, which accepts it. *)
Definition deliver (now : Z) (st : TimingCache) : res (TimingCache * Packet) :=
  match PacketQueue.transmitList (respQueue st) with
  | [] => Err UB
  | dp :: _ =>
      pkt ← (match pkts st !! PacketQueue.pkt dp with Some pkt => mret pkt | None => Err UB end);
      q ← PacketQueue.processSendEvent (λ _ q, mret (true, q)) now (PacketQueue.with_event (respQueue st) None);
      mret (set_respQueue q (pkts st) st, pkt)
  end.

Definition step (now : Z) (a : Action) (sy : Sys M) : res (Sys M * Seen) :=
  let 'mkSys st sd := sy in
  match a with
  | Issue pkt =>
      '(ok, st, sd) ← cpu_recvTimingReq now (edge p now) pkt st sd;
      mret (mkSys st sd, if (ok : bool) then Accepted (At now (edge p now) pkt) else Refused)
  | Send accept => '(st, sd) ← processSendEvent now st (willing accept sd); mret (mkSys st sd, Nothing)
  | Resend accept => '(st, sd) ← retry now st (willing accept sd); mret (mkSys st sd, Nothing)
  | Respond =>
      match reply sd with
      | None => Err UB
      | Some r => '(st, sd) ← CacheResp.recvTimingResp now (edge p now) r st (replied sd); mret (mkSys st sd, Nothing)
      end
  | Release => mret (mkSys (processSendRetry st) sd, Nothing)
  | Deliver => '(st, pkt) ← deliver now st; mret (mkSys st sd, Delivered pkt)
  end.

(** What may happen at [now]: no event is missed, and events fire when they are due; the
    processor issues a request unless it is [waiting] for a response. *)
Definition enabled (now : Z) (waiting : bool) (a : Action) (sy : Sys M) : bool :=
  let st := sys_cache sy in
  kept_until now (sendRetryEvent st) && kept_until now (PacketQueue.sendEvent (reqQueue st)) && kept_until now (PacketQueue.sendEvent (respQueue st)) &&
  match a with
  | Issue _ => negb waiting
  | Send _ => fires now (PacketQueue.sendEvent (reqQueue st))
  | Resend _ => PacketQueue.waitingOnRetry (reqQueue st)
  | Respond => bool_decide (is_Some (reply (sys_side sy)))
  | Release => fires now (sendRetryEvent st)
  | Deliver => fires now (PacketQueue.sendEvent (respQueue st))
  end.

Definition waits_after (waiting : bool) (o : Seen) : bool :=
  match o with Accepted _ => true | Delivered _ => false | _ => waiting end.

(** The steps of [l], with their ticks, may happen one after the other from [t] on. *)
Fixpoint lawful (t : Z) (waiting : bool) (sy : Sys M) (l : list (Z * Action)) : bool :=
  match l with
  | [] => true
  | (now, a) :: l =>
      (t <=? now) && bool_decide (in_time p fl rl al fi now) && enabled now waiting a sy &&
      match step now a sy with Ok (sy, o) => lawful now (waits_after waiting o) sy l | Err _ => true end
  end.

Fixpoint run (l : list (Z * Action)) (sy : Sys M) : res (Sys M * list Seen) :=
  match l with
  | [] => mret (sy, [])
  | (now, a) :: l => '(sy, o) ← step now a sy; '(sy, os) ← run l sy; mret (sy, o :: os)
  end.

(** Something is left to happen besides a new request. *)
Definition can_move (sy : Sys M) : bool :=
  let st := sys_cache sy in
  scheduled (PacketQueue.sendEvent (reqQueue st)) || PacketQueue.waitingOnRetry (reqQueue st) || bool_decide (is_Some (reply (sys_side sy))) ||
  scheduled (sendRetryEvent st) || scheduled (PacketQueue.sendEvent (respQueue st)).

(** The requests of the processor: reads, writes and element-wise row operations. *)
Definition legal (pkt : Packet) : Prop :=
  admissible k masters has pkt ∧ ((∃ d, cpu_pkt k masters has pkt d) ∨ ∃ a g, row_pkt k has pkt a ∧ rowop_byte (op a) = Some g).
Definition legal_action (a : Action) : Prop := match a with Issue pkt => legal pkt | _ => True end.

(** ** Steps *)

(** The system is in order at [now], holds the flat memory [V], and owes response [x]. *)
Definition sound (N now : Z) (sy : Sys M) (V : Z → Z) (x : option (option (list Z))) : Prop :=
  base_ok now (sys_cache sy) ∧ phase k s masters p fl rl al fi has N now (sys_cache sy) (sys_side sy) V x.

Lemma enabled_due now waiting a sy : enabled now waiting a sy = true → due_from now (sys_cache sy).
Proof using Type.
  unfold enabled. intros [[[E1 E2]%andb_prop E3]%andb_prop _]%andb_prop t Ht. unfold kept_until in *. destruct Ht as [Ht|[Ht|Ht]]; rewrite Ht in *; lia.
Qed.

Lemma sound_mono N N' now sy V x : N ≤ N' → sound N now sy V x → sound N' now sy V x.
Proof using Type. intros HN [Hb Hph]. split; [done|]. by eapply phase_view; [exact Hph|..]. Qed.

Lemma send_sound N now st sd V x accept st0 :
  params p fl rl al fi → in_time p fl rl al fi now → sound N now (mkSys st sd) V x → idle_ok now st0 → view_of st0 = view_of st →
  PacketQueue.waitingOnRetry (reqQueue st0) = false → PacketQueue.sendEvent (reqQueue st0) = None →
  ∃ st' sd', sendDeferredPacket now st0 (willing accept sd) = Ok (st', sd') ∧ sound N now (mkSys st' sd') V x.
Proof using Type.
  intros Hpa Ht [Hb Hph] Hi Ev Hw He. destruct (send_phase k s masters p fl rl al fi has N now st0 (willing accept sd) V x) as (st' & sd' & E & Hb' & Hph'); try done.
  { by eapply phase_view; [exact Hph|lia|..]. }
  by exists st', sd'.
Qed.

(** The send event fires. *)
Lemma step_send N now st sd V x accept :
  params p fl rl al fi → in_time p fl rl al fi now → sound N now (mkSys st sd) V x → PacketQueue.sendEvent (reqQueue st) = Some now →
  ∃ st' sd', processSendEvent now st (willing accept sd) = Ok (st', sd') ∧ sound N now (mkSys st' sd') V x.
Proof using Type.
  intros Hpa Ht Hs Hev. pose proof Hs as [[[P1 P2 P3 P4] [B5 B6 B7] B8 B9 B10 B11] _]. cbn [sys_cache] in *. unfold processSendEvent. cbn [reqQueue set_reqQueue PacketQueue.waitingOnRetry PacketQueue.with_event].
  assert (PacketQueue.waitingOnRetry (reqQueue st) = false) as Hw by (destruct (PacketQueue.waitingOnRetry (reqQueue st)); [by rewrite B6 in Hev|done]).
  rewrite Hw. cbn [negb check mbind res_mbind]. eapply (send_sound N now st); try done.
Qed.

(** The memory asks for the packet it refused. *)
Lemma step_resend N now st sd V x accept :
  params p fl rl al fi → in_time p fl rl al fi now → sound N now (mkSys st sd) V x → PacketQueue.waitingOnRetry (reqQueue st) = true →
  ∃ st' sd', retry now st (willing accept sd) = Ok (st', sd') ∧ sound N now (mkSys st' sd') V x.
Proof using Type.
  intros Hpa Ht Hs Hw. pose proof Hs as [[[P1 P2 P3 P4] [B5 B6 B7] B8 B9 B10 B11] _]. cbn [sys_cache] in *. unfold retry. rewrite Hw. cbn [check mbind res_mbind].
  eapply (send_sound N now st); try done. by apply B6.
Qed.

Lemma step_release N now st sd V x : sound N now (mkSys st sd) V x → sound N now (mkSys (processSendRetry st) sd) V x.
Proof using Type.
  intros [[[P1 P2 P3 P4] B5 B8 B9 B10 B11] Hph]. split; [|by eapply phase_view; [exact Hph|lia|..]]. cbn [sys_cache] in *. by split; try done; destruct B5.
Qed.

(** The memory responds. *)
Lemma step_respond N now st sd V x r :
  params p fl rl al fi → in_time p fl rl al fi now → N + 1 < 2 ^ 64 → sound N now (mkSys st sd) V x → reply sd = Some r →
  ∃ st' sd', CacheResp.recvTimingResp now (edge p now) r st (replied sd) = Ok (st', sd') ∧ sound (N + 1) now (mkSys st' sd') V x.
Proof using Type.
  intros Hpa Ht HN [Hb Hph] Hr. cbn [sys_cache sys_side] in *.
  destruct Hph as [evs mbf V C ? ?|evs mbf V t pkt d C ? ?|evs mbf V pkt a g C ? ?|mbf V pkt a g w e out r0|evs mbf V pkt d i e C ?|evs mbf V pkt d i e r0]; try congruence.
  - assert (r0 = r) as -> by congruence.
    destruct (row_response k s masters p fl rl al fi has N now st sd mbf V pkt a g w e out r) as (st' & E & Hb' & Hph'); try done.
    exists st', (replied sd). split; [done|]. apply (sound_mono N); [lia|]. by split.
  - assert (r0 = r) as -> by congruence.
    destruct (fill_response k s masters p fl rl al fi has N now st sd evs mbf V pkt d i e r) as (st' & E & Hb' & Hph'); try done.
    by exists st', (replied sd).
Qed.

(** The response reaches the processor. *)
Lemma step_deliver N now st sd V x :
  sound N now (mkSys st sd) V x → PacketQueue.sendEvent (respQueue st) = Some now →
  ∃ st' pkt d, deliver now st = Ok (st', pkt) ∧ x = Some d ∧ answers d pkt ∧ sound N now (mkSys st' sd) V None.
Proof using Type.
  intros [Hb Hph] Hev. cbn [sys_cache sys_side] in *.
  destruct Hph as [evs mbf V C ? ? E|evs mbf V t pkt d C Hm Hrep (tk & id & E & Ht & Hp) _ Ha|? ? ? ? ? ? ? ? ? E|? ? ? ? ? ? ? ? ? ? ? E|? ? ? ? ? ? ? ? ? E|? ? ? ? ? ? ? ? ? E];
    rewrite E in Hev; try done. injection Hev as ->.
  unfold deliver. rewrite E. cbn [PacketQueue.transmitList PacketQueue.pkt]. rewrite Hp. cbn [mbind res_mbind mret res_mret].
  unfold PacketQueue.processSendEvent, PacketQueue.sendDeferredPacket, PacketQueue.deferredPacketReady.
  cbn [PacketQueue.waitingOnRetry PacketQueue.with_event PacketQueue.transmitList PacketQueue.tick PacketQueue.drainState negb check mbind res_mbind].
  rewrite (proj2 (Z.leb_le tk now) Ht). cbn. exists (set_respQueue PacketQueue.new (pkts st) st), pkt, d. split; [done|]. split; [done|]. split; [done|].
  split; [by apply base_resp|]. eapply (ph_idle _ _ _ _ _ _ _ _ _ _ _ _ _ evs mbf); try done.
  destruct C as [[[C1 C2 C3 C4 C5 C6 C7] S3 S4 S5 S6 S7 S8] Hq Hsv]. by split.
Qed.

Definition owes {A} (x : option A) : bool := bool_decide (is_Some x).

(** What a step has to establish. *)
Definition step_spec (N now : Z) (V : Z → Z) (x : option (option (list Z))) (sy' : Sys M) (o : Seen) : Prop :=
  match o with
  | Accepted r => ∃ V' d, x = None ∧ flat_access k masters has V (at_pkt r) V' d ∧ sound N now sy' V' (Some d)
  | Delivered pkt => ∃ d, x = Some d ∧ answers d pkt ∧ sound N now sy' V None
  | _ => sound N now sy' V x
  end.

Lemma legal_flat V pkt : legal pkt → ∃ V' d, flat_access k masters has V pkt V' d.
Proof using Type. intros [_ [(d & Hd)|(a & g & Hp & Hg)]]; eexists _, _; [by apply flat_cpu|by eapply flat_rowop]. Qed.

Lemma step_sound N t now a sy V x :
  params p fl rl al fi → sound N t sy V x → t ≤ now → in_time p fl rl al fi now → enabled now (owes x) a sy = true → legal_action a →
  N + flush_limit k + 1 < 2 ^ 64 → 0 ≤ flush_limit k →
  ∃ sy' o, step now a sy = Ok (sy', o) ∧ step_spec (N + flush_limit k + 1) now V x sy' o.
Proof using Type.
  intros Hpa [Hb Hph] Hle Ht Hen Hlg HN Hk. pose proof (enabled_due _ _ _ _ Hen) as Hdue.
  assert (sound N now sy V x) as Hs by (split; [by eapply later_base|by eapply later]). destruct sy as [st sd].
  unfold enabled in Hen. apply andb_prop in Hen as [_ Hen]. destruct a as [pkt|acc|acc| | |]; cbn [step sys_cache sys_side] in *.
  - destruct x as [d|]; [done|]. destruct (legal_flat V pkt Hlg) as (V' & d & Hfa). destruct Hs as [Hb' Hph'].
    destruct (cpu_request k s masters p fl rl al fi has N now st sd V pkt V' d) as (ok & st' & -> & Hb1 & Hph1); try done; [apply Hlg|].
    cbn [mbind res_mbind mret res_mret]. eexists _, _. split; [reflexivity|]. destruct ok; [by exists V', d|by split].
  - destruct (step_send N now st sd V x acc) as (st' & sd' & -> & Hs'); try done; [by apply bool_decide_eq_true in Hen|].
    eexists _, _. split; [reflexivity|]. by apply (sound_mono N); [lia|].
  - destruct (step_resend N now st sd V x acc) as (st' & sd' & -> & Hs'); try done. eexists _, _. split; [reflexivity|]. by apply (sound_mono N); [lia|].
  - apply bool_decide_eq_true in Hen as [r Hr]. rewrite Hr. destruct (step_respond N now st sd V x r) as (st' & sd' & -> & Hs'); try done; [lia|].
    eexists _, _. split; [reflexivity|]. by apply (sound_mono (N + 1)); [lia|].
  - eexists _, _. split; [reflexivity|]. apply (sound_mono N); [lia|]. by apply step_release.
  - apply bool_decide_eq_true in Hen. destruct (step_deliver N now st sd V x Hs Hen) as (st' & pkt & d & -> & -> & Ha & Hs').
    eexists _, _. split; [reflexivity|]. exists d. split; [done|]. split; [done|]. by apply (sound_mono N); [lia|].
Qed.

(** ** Runs *)

Definition pending {A} (x : option A) : list A := match x with Some d => [d] | None => [] end.

(** The requests that were accepted are served in order on the flat memory; all responses but the pending
    one have been delivered. *)
Lemma run_sound l N t sy V x :
  params p fl rl al fi → sound N t sy V x → lawful t (owes x) sy l = true → Forall (λ a, legal_action a.2) l →
  N + Z.of_nat (length l) * (flush_limit k + 1) < 2 ^ 64 → 0 ≤ flush_limit k →
  ∃ sy' os V' x' ds es N' t', run l sy = Ok (sy', os) ∧ sound N' t' sy' V' x' ∧ flat_run k masters has V (accepted os) V' ds ∧
    pending x ++ ds = es ++ pending x' ∧ Forall2 answers es (delivered os).
Proof using Type.
  intros Hpa. revert N t sy V x. induction l as [|[now a] l IH]; intros N t sy V x Hs Hlaw Hlg HN Hk.
  { exists sy, [], V, x, [], [], N, t. split; [done|]. split; [done|]. split; [constructor|]. by rewrite app_nil_r. }
  cbn [lawful] in Hlaw. apply andb_prop in Hlaw as [[[Hle Hti]%andb_prop Hen]%andb_prop Hrest]. apply bool_decide_eq_true in Hti. apply Forall_cons in Hlg as [Hl1 Hl2]. cbn [length] in HN.
  assert (Z.of_nat (S (length l)) * (flush_limit k + 1) = Z.of_nat (length l) * (flush_limit k + 1) + flush_limit k + 1) as Elen by lia.
  destruct (step_sound N t now a sy V x) as (sy1 & o & E & Hspec); try done; [lia|nia|]. rewrite E in Hrest. cbn [run]. rewrite E. cbn [mbind res_mbind].
  assert (∀ V1 x1, sound (N + flush_limit k + 1) now sy1 V1 x1 → owes x1 = waits_after (owes x) o →
    ∃ sy' os V' x' ds es N' t', run l sy1 = Ok (sy', os) ∧ sound N' t' sy' V' x' ∧ flat_run k masters has V1 (accepted os) V' ds ∧
      pending x1 ++ ds = es ++ pending x' ∧ Forall2 answers es (delivered os)) as Hnext.
  { intros V1 x1 Hs1 Ew. rewrite <- Ew in Hrest. apply (IH (N + flush_limit k + 1) now); try done. lia. }
  destruct o as [r| |pkt|]; cbn [step_spec waits_after] in *.
  - destruct Hspec as (V1 & d & -> & Hfa & Hs1). destruct (Hnext V1 (Some d) Hs1 eq_refl) as (sy' & os & V' & x' & ds & es & N' & t' & -> & Hs' & Hfr & Eq & Han).
    eexists sy', _, V', x', (d :: ds), es, N', t'. split; [reflexivity|]. split; [done|]. split; [by econstructor|]. by split.
  - destruct (Hnext V x Hspec eq_refl) as (sy' & os & V' & x' & ds & es & N' & t' & -> & Hs' & Hfr & Eq & Han). by eexists sy', _, V', x', ds, es, N', t'.
  - destruct Hspec as (d & -> & Ha & Hs1). destruct (Hnext V None Hs1 eq_refl) as (sy' & os & V' & x' & ds & es & N' & t' & -> & Hs' & Hfr & Eq & Han).
    eexists sy', _, V', x', ds, (d :: es), N', t'. split; [reflexivity|]. split; [done|]. split; [done|]. simpl in *. rewrite Eq. split; [done|]. by constructor.
  - destruct (Hnext V x Hspec eq_refl) as (sy' & os & V' & x' & ds & es & N' & t' & -> & Hs' & Hfr & Eq & Han). by eexists sy', _, V', x', ds, es, N', t'.
Qed.

(** ** Progress *)

Lemma armed_moves st sd : armed st → MSHRQueue.readyList (mshrQueue st) ≠ [] ∨ MSHRQueue.readyList (writeBuffer st) ≠ [] → can_move (mkSys st (sd : Side M)) = true.
Proof using Type.
  intros Ha Hr. unfold can_move. cbn [sys_cache sys_side]. destruct (PacketQueue.waitingOnRetry (reqQueue st)) eqn:E; [by rewrite orb_true_r|].
  destruct (Ha Hr E) as [t ->]. done.
Qed.

Lemma queued_ready T O q pkts : queued k T O q pkts → pkts ≠ [] → MSHRQueue.readyList q ≠ [].
Proof using Type. intros Hq Hn E. unfold queued in Hq. rewrite E in Hq. by apply Forall2_nil_inv_l in Hq. Qed.

(** A system that owes a response has something left to do. *)
Lemma owed_moves N now sy V d : sound N now sy V (Some d) → can_move sy = true.
Proof using Type.
  destruct sy as [st sd]. intros [Hb Hph]. cbn [sys_cache sys_side] in *. pose proof (bo_armed _ _ Hb) as Har.
  inversion Hph as [|evs mbf V0 t pkt d0 C Hm Hrep (tk & id & E & _)|evs mbf V0 pkt a g [_ Hq _]|? ? ? ? ? ? ? ? r ? ? ? ? ? ? ? ? ? Er|? ? ? ? ? i ? ? ? ? ? El|? ? ? ? ? ? ? r ? ? ? ? ? ? Er]; subst.
  - unfold can_move. cbn [sys_cache sys_side]. rewrite E. simpl. by rewrite orb_true_r.
  - apply armed_moves; [done|]. right. eapply queued_ready; [exact Hq|]. by destruct evs.
  - unfold can_move. cbn [sys_cache sys_side]. rewrite Er. simpl. by rewrite orb_true_r.
  - apply armed_moves; [done|]. left. by rewrite El.
  - unfold can_move. cbn [sys_cache sys_side]. rewrite Er. simpl. by rewrite orb_true_r.
Qed.

Lemma idle_room q : queue_ok q → MSHRQueue.allocatedList q = [] → MSHRQueue.numReserve q ≤ MSHRQueue.numEntries q → MSHRQueue.isFull q = false.
Proof using Type. intros Hq E Hn. unfold MSHRQueue.isFull. rewrite (qo_count _ Hq), E. apply Z.ltb_ge. simpl. lia. Qed.

Lemma idle_allocated q : queue_ok q → MSHRQueue.inServiceEntries q = 0 → MSHRQueue.readyList q = [] → MSHRQueue.allocatedList q = [].
Proof using Type.
  intros Hq E El. destruct (MSHRQueue.allocatedList q) as [|i l] eqn:Ea; [done|]. assert (i ∈ MSHRQueue.readyList q) as Hi by (apply all_ready; [done|done|rewrite Ea; left]).
  rewrite El in Hi. by apply elem_of_nil in Hi.
Qed.

(** A processor that was refused is told when to try again. *)
Lemma refused_moves N now sy V x : sound N now sy V x → mustSendRetry (sys_cache sy) = true → can_move sy = true.
Proof using Type.
  intros Hs Hmr. destruct x as [d|]; [by eapply owed_moves|]. destruct sy as [st sd]. destruct Hs as [Hb Hph]. cbn [sys_cache sys_side] in *.
  inversion Hph as [evs mbf V0 [[Hcf _ _ _ _ _ _] Hq Hsv] Hm _ _| | | | |]; subst. destruct (bo_port _ _ Hb) as [P1 P2 P3 P4].
  destruct (cpuBlocked st) eqn:Eb; [|destruct (P4 Hmr eq_refl) as [t Et]; unfold can_move; cbn [sys_cache sys_side]; rewrite Et; simpl; by rewrite orb_true_r].
  rewrite (idle_room _ (bo_miss _ _ Hb) Hm (proj2 (cf_miss _ _ _ _ _ _ _ Hcf))) in P2. apply armed_moves; [apply Hb|]. right. intros El.
  by rewrite (idle_room _ (bo_write _ _ Hb) (idle_allocated _ (bo_write _ _ Hb) Hsv El) (proj2 (cf_write _ _ _ _ _ _ _ Hcf))) in P2.
Qed.

(** When nothing is left to do, the cache and the memory represent the flat memory. *)
Lemma still_represents N now sy V x : sound N now sy V x → can_move sy = false →
  x = None ∧ represents k s masters has (lookup_core (sys_cache sy)) (below (sys_side sy)) V.
Proof using Type.
  intros Hs Hst. destruct x as [d|]; [by rewrite (owed_moves _ _ _ _ _ Hs) in Hst|]. split; [done|]. destruct sy as [st sd]. destruct Hs as [Hb Hph]. cbn [sys_cache sys_side] in *.
  inversion Hph as [evs mbf V0 [[_ Hmem Hh _ Hfl _ _] Hq Hsv] Hm _ _| | | | |]; subst.
  assert (MSHRQueue.readyList (writeBuffer st) = []) as El.
  { destruct (MSHRQueue.readyList (writeBuffer st)) eqn:E; [done|]. rewrite armed_moves in Hst; [done|apply Hb|right; by rewrite E]. }
  unfold queued in Hq. rewrite El in Hq. apply Forall2_nil_inv_l in Hq as ->. split; [|split; [done|]].
  - apply (holds_lookup k s masters has) in Hh as [H1 [C1 C2 C3 C4] H3 H4]. pose proof (proj1 (flushes_nil _ _) Hfl) as E. split; try done. split; try done.
    + intros q b a Hq Hv Hd Ha Ea. rewrite <- E. by eapply C2.
    + intros a Ha Hn. rewrite <- E. by apply C3.
  - split; cbn [lookup_core Cache.mshrQueue Cache.writeBuffer]; unfold view_queue; [by rewrite Hm|]. by rewrite (idle_allocated _ (bo_write _ _ Hb) Hsv El).
Qed.

(** ** The constructor *)

(** The cache of the constructor, over a memory that has sent nothing yet. *)
Definition new_Sys (fast : bool) (lookup mshrs demand write_buffers tgts : Z) (ranges : list AddrRange.AddrRange) (t : Tags.Tags) (m : M) : Sys M :=
  mkSys (new_TimingCache (new_cache fast lookup fi t) ranges mshrs demand write_buffers fl rl tgts) (mkSide true m None).

Lemma new_sound fast lookup mshrs demand write_buffers tgts ranges assoc m t :
  params p fl rl al fi → 2 ≤ k ≤ 13 → 0 ≤ s < 32 → 0 < assoc → p < 2 ^ 63 → mem_ok m → 1 ≤ mshrs → 1 ≤ write_buffers → flush_limit k + 1 ≤ mshrs + 1000 →
  fast = false ∨ k ≠ 5 → Tags.new_Tags (2 ^ k) al p masters assoc (2 ^ s) = Ok t →
  sound 0 0 (new_Sys fast lookup mshrs demand write_buffers tgts ranges t m) (mem_byte m) None.
Proof using Type.
  intros Hpa Hk Hs Ha Hp Hm Hms Hwb Hfl Hfast Et. pose proof (pa_period _ _ _ _ _ Hpa).
  destruct (new_cache_ok k s masters has m fast lookup fi al p assoc) as (t' & E & Hh & _); try done. rewrite Et in E. injection E as <-.
  destruct (new_Tags_ok k s al p masters assoc Hk Hs Ha) as (t' & E & _ & _ & Hmx & Hpe & Hal & Hrd). rewrite Et in E. injection E as <-.
  assert (∀ n r d i, 1 ≤ n → 0 ≤ r → MSHRQueue.isFull (MSHRQueue.new_MSHRQueue n r d i) = false) as Hfull by (intros n r d i Hn Hr; apply Z.ltb_ge; simpl; lia).
  split.
  - split; simpl; try done; [|by intros [?|?]|by apply new_queue_ok; lia|by apply new_queue_ok; lia].
    rewrite !Hfull by lia. by split.
  - apply (ph_idle _ _ _ _ _ _ _ _ _ _ _ _ _ [] (mem_byte m)); try done. split; [|constructor|done]. split; try done.
    + split; simpl; try done; lia.
    + by intros q ?%elem_of_nil.
    + by apply flushes_nil.
    + intros q b Hq. specialize (Hrd q b Hq). unfold filled_at. destruct (pa_lat _ _ _ _ _ Hpa) as (_ & _ & _ & ?). pose proof (edge_spec p 0 ltac:(done)). nia.
Qed.

(** C37: the cache is transparent in timing mode.  A processor that has one request at a time sends reads, writes and
    element-wise row operations to a new cache over a memory; send events, refusals and
    retries of the memory, responses and deliveries interleave as the event queue allows.
    No step fails.  The responses that were delivered carry, in order, the bytes the
    accepted requests yield on one flat memory; at most one response is late.  While a
    response or a retry is owed, an event is scheduled or the memory has to act, and when
    nothing is left to happen the cache and the memory represent that flat memory. *)
Theorem timing_cache_transparent fast lookup mshrs demand write_buffers tgts ranges assoc m t l :
  params p fl rl al fi → 2 ≤ k ≤ 13 → 0 ≤ s < 32 → 0 < assoc → p < 2 ^ 63 → mem_ok m → 1 ≤ mshrs → 1 ≤ write_buffers → flush_limit k + 1 ≤ mshrs + 1000 →
  fast = false ∨ k ≠ 5 → Tags.new_Tags (2 ^ k) al p masters assoc (2 ^ s) = Ok t →
  lawful 0 false (new_Sys fast lookup mshrs demand write_buffers tgts ranges t m) l = true → Forall (λ a, legal_action a.2) l →
  Z.of_nat (length l) * (flush_limit k + 1) < 2 ^ 64 →
  ∃ sy os V ds late, run l (new_Sys fast lookup mshrs demand write_buffers tgts ranges t m) = Ok (sy, os) ∧
    flat_run k masters has (mem_byte m) (accepted os) V (ds ++ late) ∧ Forall2 answers ds (delivered os) ∧ (length late ≤ 1)%nat ∧
    (late ≠ [] ∨ mustSendRetry (sys_cache sy) = true → can_move sy = true) ∧
    (can_move sy = false → represents k s masters has (lookup_core (sys_cache sy)) (below (sys_side sy)) V).
Proof using Type.
  intros Hpa Hk Hs Ha Hp Hm Hms Hwb Hfl Hfast Et Hlaw Hlg HN.
  pose proof (new_sound fast lookup mshrs demand write_buffers tgts ranges assoc m t Hpa Hk Hs Ha Hp Hm Hms Hwb Hfl Hfast Et) as Hs0.
  destruct (run_sound l 0 0 _ _ _ Hpa Hs0 Hlaw Hlg) as (sy & os & V & x & ds & es & N & t' & E & Hs' & Hfr & Eq & Han); [lia|by apply flush_limit_pos; lia|].
  simpl in Eq. subst ds. exists sy, os, V, es, (pending x). split; [done|]. split; [done|]. split; [done|]. split; [destruct x; simpl; lia|]. split.
  - intros [Hx|Hr]; [|by eapply refused_moves]. destruct x as [d|]; [by eapply owed_moves|done].
  - intros Hst. by eapply still_represents.
Qed.

End machine.

(** ** Example: a write, a copy of its row and a read of the copy, with a refusal *)

Import HostMem AbstractMemory.
#[local] Existing Instance sys_ports.
#[local] Instance machine_side : MemorySide Memory (memory_has sys_range) := simple_memory_side 0 (λ m pkt, mret (m, pkt)) sys_range.

Definition machine_steps : list (Z * Action) :=
  [(10, Issue (sys_access MemCmd.WriteReq 0x10100 [1; 2; 3; 4])); (1500, Send true); (2000, Respond); (3000, Deliver);
   (3500, Issue (sys_rowop ROWAAP 0x12000 0x10000 0)); (4500, Send false); (4600, Resend true); (4601, Send true); (5000, Respond); (6000, Deliver);
   (6100, Issue (sys_access MemCmd.ReadReq 0x12100 [0; 0; 0; 0])); (7500, Send true); (8000, Respond); (9000, Deliver)].

(** A memory of equal bytes, built one by one. *)
Fixpoint fill_mem (n : nat) (a b : Z) : hostmem := match n with O => ∅ | S n => <[a := b]> (fill_mem n (a + 1) b) end.

Lemma fill_mem_lookup n a b x : fill_mem n a b !! x = if decide (a ≤ x < a + Z.of_nat n) then Some b else None.
Proof.
  revert a. induction n as [|n IH]; intros a; cbn [fill_mem]; [by rewrite decide_False by lia|]. destruct (decide (x = a)) as [->|Hx].
  - by rewrite lookup_insert_eq, decide_True by lia.
  - rewrite lookup_insert_ne by done. rewrite IH. destruct (decide (a ≤ x < a + Z.of_nat (S n))); [rewrite decide_True by lia|rewrite decide_False by lia]; done.
Qed.

Lemma fill_mem_uniform n b : 0 ≤ n → fill_mem (Z.to_nat n) 0 b = uniform n b.
Proof.
  intros Hn. apply map_eq. intros x. rewrite fill_mem_lookup, Z2Nat.id by done. symmetry. case_decide.
  - by apply uniform_lookup.
  - destruct (uniform n b !! x) as [c|] eqn:E; [|done]. by apply uniform_lookup in E as [? _].
Qed.

Definition machine_new (m : Memory) (t : Tags.Tags) : Sys Memory := new_Sys 2 2 2 true 2 4 1 8 20 [] t m.

Lemma machine_legal : Forall (λ a, legal_action 6 2 (memory_has sys_range) a.2) machine_steps.
Proof.
  assert (∀ c a d, c = MemCmd.ReadReq ∨ c = MemCmd.WriteReq → length d = 4%nat → Forall (λ x, 0 ≤ x < 256) d → 0x10000 ≤ a → a + 64 ≤ 0x16000 → a mod 64 = 0 →
    legal 6 2 (memory_has sys_range) (sys_access c a d)) as Hcpu.
  { intros c a d Hc Hd Hb H1 H2 H3. split; [|left; exists d; by apply sys_access_ok]. split; [done|simpl; lia|]. intros pl Hp. by pose proof (rr_flag _ _ _ (rp_req _ _ _ _ Hp)). }
  unfold machine_steps. repeat (apply Forall_cons_2); try done; cbn [snd legal_action].
  - apply Hcpu; try done; [by right|repeat constructor; lia].
  - split; [|right; exists (mkPayload ROWAAP 0x12000 0x10000 0), (λ x _, x); split; [apply sys_rowop_ok|done]].
    split; [done|simpl; lia|]. intros pl Hp. pose proof (payload_roundtrip _ (rr_payload _ _ _ (rp_req _ _ _ _ Hp))) as E. pose proof (rr_ptr _ _ _ (rp_req _ _ _ _ Hp)) as Eb.
    change (Packet.getPtr _) with (Ok (payload_bytes (mkPayload ROWAAP 0x12000 0x10000 0))) in Eb.
    assert (∀ x y : list Z, Ok x = Ok y → x = y) as Hinj by (by intros x y [=]). apply Hinj in Eb.
    rewrite <- Eb, payload_roundtrip in E by apply sys_rowop_ok. by injection E as <-.
  - apply Hcpu; try done; [by left|repeat constructor; lia].
Qed.

(** The schedule is lawful, and the third response carries the bytes of the write. *)
Lemma machine_checked : ∃ m t, memory_ok sys_range m ∧ Tags.new_Tags (2 ^ 6) 2 500 2 2 (2 ^ 2) = Ok t ∧
  lawful 500 2 2 2 2 0 false (machine_new m t) machine_steps = true ∧
  match run 500 machine_steps (machine_new m t) with
  | Ok (_, os) => (Packet.data <$> delivered os) !! 2%nat = Some (Some [1; 2; 3; 4])
  | Err _ => False
  end.
Proof.
  eexists (ex_mem (fill_mem (Z.to_nat 0x6000) 0 7)), _. split; [rewrite fill_mem_uniform by lia; exact sys_mem_ok|].
  split; [vm_compute; reflexivity|]. split; vm_compute; reflexivity.
Qed.

Lemma machine_bounds : flush_limit 6 + 1 ≤ 4 + 1000 ∧ Z.of_nat (length machine_steps) * (flush_limit 6 + 1) < 2 ^ 64.
Proof. split; [vm_compute; discriminate|vm_compute; reflexivity]. Qed.

Lemma timing_cache_transparent_witness :
  ∃ m t sy os V ds late, Tags.new_Tags (2 ^ 6) 2 500 2 2 (2 ^ 2) = Ok t ∧ run 500 machine_steps (machine_new m t) = Ok (sy, os) ∧
    flat_run 6 2 (memory_has sys_range) (memory_byte m) (accepted os) V (ds ++ late) ∧ Forall2 answers ds (delivered os) ∧
    (Packet.data <$> delivered os) !! 2%nat = Some (Some [1; 2; 3; 4]).
Proof.
  destruct machine_checked as (m & t & Hm & Et & Hlaw & Hdata). assert (params 500 2 2 2 2) as Hpa by (split; lia).
  destruct (timing_cache_transparent 6 2 2 500 2 2 2 2 (memory_has sys_range) (MemorySide0 := machine_side) true 2 4 1 8 20 [] 2 m t machine_steps Hpa
    ltac:(lia) ltac:(lia) ltac:(lia) ltac:(lia) Hm ltac:(lia) ltac:(lia) (proj1 machine_bounds) ltac:(right; lia) Et Hlaw machine_legal (proj2 machine_bounds))
    as (sy & os & V & ds & late & E & Hfr & Han & _).
  exists m, t, sy, os, V, ds, late. split; [exact Et|]. split; [exact E|]. split; [exact Hfr|]. split; [exact Han|]. unfold machine_new in Hdata. rewrite E in Hdata. exact Hdata.
Defined.
