(* ===== verification/CacheHazards.v ===== *)
(** * Concrete runs of the cache in timing mode (mem/cache/cache.cc)

    Runs of the executable model that show where the cache does not treat a row operation,
    or a secure block, as its other parts rely on.  The memory side records the packets it
    is sent and accepts all of them. *)

From stdpp Require Import base gmap list list_numbers.
From S2P Require Import Prelude IntMath AddrRanges Packets Events PktQueue AbstractMem CacheTags Cache CacheInv CacheAtomic CacheSystem MSHRQ CacheTiming CacheResp.
Import Request Blk RowOps TimingCache.
Local Open Scope Z_scope.

Module Hazards.

(** A memory side that records what it is sent; fills of the atomic warm-up are zero. *)
#[local] Instance log_atomic : Cache.AtomicPorts (list Packet) :=
  {| Cache.sendAtomic := λ m p, r ← Packet.makeResponse (Packet.with_data p (Some (replicate 64 0))); mret (m, r, 0);
     Cache.sendAtomicSnoop := λ m p, mret (m, p) |}.
#[local] Instance log_timing : TimingPorts (list Packet) :=
  {| sendTimingReq := λ m p, mret (true, m ++ [p], p); sendTimingSnoopReq := λ m p, mret (m, p) |}.
#[local] Instance log_functional : CacheResp.FunctionalPorts (list Packet) :=
  {| CacheResp.sendFunctional := λ m p, mret (m ++ [p], p); CacheResp.sendFunctionalSnoop := λ m p, mret (m, p);
     CacheResp.isSnooping := λ _, false |}.

(** A cache of two sets and two ways that has executed the given atomic requests. *)
Definition warm (blk_size : Z) (l : list Packet) : res TimingCache :=
  t ← Tags.new_Tags blk_size 2 500 2 2 4;
  c ← foldM (λ c p, '(c, _, _, _) ← Cache.recvAtomic 0 0 c ([] : list Packet) p; mret c) (new_cache true 2 2 t) l;
  mret (new_TimingCache c [] 4 1 8 2 2 20).

(** What identifies a packet in these runs. *)
Definition brief (p : Packet) : MemCmd.Command * Z * bool := (Packet.cmd p, Packet.addr p, Packet.isRowOp p).

(** A row operation whose source row has a dirty block, and a read of its destination
    before anything has been sent. *)
Definition overtaking_run : res (list (MemCmd.Command * Z * bool)) :=
  s ← warm 64 [sys_access MemCmd.WriteReq 0x12040 [1; 2; 3; 4]];
  '(ok, s, m) ← cpu_recvTimingReq 1000 1000 (sys_rowop ROWAAP 0x10000 0x12000 0) s [];
  assert_ ok;;
  '(ok, s, m) ← cpu_recvTimingReq 1500 1500 (sys_access MemCmd.ReadReq 0x10000 [0; 0; 0; 0]) s m;
  assert_ ok;;
  '(s, m) ← processSendEvent 2500 s m;
  '(s, m) ← processSendEvent 2501 s m;
  '(_, m) ← processSendEvent 2502 s m;
  mret (map brief m).

(** The row operation reaches the memory before the write-back it has caused, so it copies
    stale data: the conflicting miss pulls it out of the order of the write buffer. *)
Theorem rowop_overtakes_writebacks :
  overtaking_run = Ok [(MemCmd.WriteReq, 0x10000, true); (MemCmd.ReadSharedReq, 0x10000, false); (MemCmd.Writeback, 0x12040, false)].
Proof. vm_compute. reflexivity. Qed.

(** A functional read of the destination while the row operation is in the write buffer. *)
Definition functional_run : res (option (list Z) * list Packet) :=
  s ← warm 64 [];
  '(ok, s, m) ← cpu_recvTimingReq 1000 1000 (sys_rowop ROWAAP 0x10000 0x12000 0) s [];
  assert_ ok;;
  '(p, _, m) ← CacheResp.functionalAccess (sys_access MemCmd.ReadReq 0x10010 [0; 0; 0; 0]) true s m;
  mret (Packet.data p, m).

(** It is answered by the cache with the bytes of the payload, the address of the first
    source, as if they had been stored in the destination row. *)
Theorem functional_read_sees_payload : functional_run = Ok (Some [0x00; 0x20; 0x01; 0], []).
Proof. vm_compute. reflexivity. Qed.

(** A row operation through a cache, up to the response of the memory: the packet that was
    sent, turned around. *)
Definition rowop_sent (blk_size : Z) : res (TimingCache * MemCmd.Command * Packet) :=
  s ← warm blk_size [];
  '(ok, s, m) ← cpu_recvTimingReq 1000 1000 (sys_rowop ROWAAP 0x10000 0x12000 0) s [];
  assert_ ok;;
  '(s, m) ← processSendEvent 2500 s m;
  p ← at_ m 0;
  r ← Packet.makeResponse p;
  mret (s, Packet.cmd p, r).

(** With 32-byte blocks and fast whole-line writes the operation, whose payload has the
    size of a block, is taken for a write of a whole line: its response fills the block of
    the destination with the payload and then fails an assertion. *)
Theorem rowop_promoted_fails :
  (x ← rowop_sent 32; mret x.1.2) = Ok MemCmd.WriteLineReq ∧
  ('(s, _, r) ← rowop_sent 32; CacheResp.recvTimingResp 5000 5000 r s ([] : list Packet)) = Err Assert.
Proof. split; vm_compute; reflexivity. Qed.

(** With 64-byte blocks it is forwarded as it is and answered. *)
Theorem rowop_answered :
  (x ← rowop_sent 64; mret x.1.2) = Ok MemCmd.WriteReq ∧
  ('(s, _, r) ← rowop_sent 64; x ← CacheResp.recvTimingResp 5000 5000 r s ([] : list Packet);
   mret (Packet.cmd <$> pkts x.1 !! 0)) = Ok (Some MemCmd.WriteResp).
Proof. split; vm_compute; reflexivity. Qed.

(** A dirty secure block, written back by a functional access before a checkpoint. *)
Definition secure_write : Packet :=
  Packet.with_flags
    (Packet.with_data (Packet.new_Packet (Request_phys 0 0x12040 4 SECURE 0) MemCmd.WriteReq) (Some [1; 2; 3; 4]))
    (Flags.set (Flags.set Packet.VALID_ADDR Packet.VALID_SIZE) Packet.STATIC_DATA).
Definition secure_run : res (list (Z * bool)) :=
  s ← warm 64 [secure_write];
  assert_ (existsb (λ b, isDirty b && isSecure b) (Tags.blks (Cache.tags (core s))));;
  '(_, m) ← CacheResp.memWriteback 1000 (core s) ([] : list Packet);
  mret (map (λ p, (Packet.addr p, Packet._isSecure p)) m).

(** The block goes to the memory as a non-secure write. *)
Theorem secure_block_written_non_secure : secure_run = Ok [(0x12040, false)].
Proof. vm_compute. reflexivity. Qed.

End Hazards.
